(* ===== verification/_CoqProject ===== *)
-Q . S2P
Prelude.v
Protocol.v
Reflection.v
Dump.v
Posix.v
Sockets.v
Engine.v
Rpc.v
AutoRpc.v
Sim.v
ZigbeeApi.v
ClientApi.v
ThermostatApp.v
ThermostatFacts.v
Freertos.v
PppUart.v
PppBoot.v
PppTheorems.v
ZigbeeStack.v
ZigbeeStackFacts.v
ZigbeeStackAnswers.v
ZigbeeStackTheorems.v
RpcServer.v
RpcServerFacts.v
Device.v
Keeps.v
RpcTask.v
RpcTheorems.v
SimTheorems.v
EndToEnd.v
EndToEndTheorems.v
HostSys.v
NetdevFwd.v
NetdevFacts.v
PppLwip.v
PppLink.v
ClientMain.v
ThreadKeeps.v
ClientFacts.v
ClientLife.v
ClientBoard.v
NetdevTheorems.v
ClientTheorems.v
QrArray.v
QrField.v
QrSegments.v
QrPayload.v
QrGrid.v
QrFunction.v
QrFormat.v
QrCodewords.v
QrData.v
QrDraw.v
QrEncode.v
QrScan.v
QrEncoder.v
QrText.v
QrRender.v
QrShow.v
QrTheorems.v
MlField.v
MlNtt.v
MlRing.v
MlBits.v
MlCodec.v
MlVector.v
MlScheme.v
Keccak.v
Sponge.v
SpongeSpec.v
Xof.v
RandomShake.v
MlSample.v
MlSubtle.v
MlPke.v
MlPkeSpec.v
MlKem.v
HashTheorems.v
KemTheorems.v
