(* ===== verification/Prelude.v ===== *)
(** * zigbee-remote: a verification library

    The repository drives a Zigbee network from Linux.  The firmware of an
    ESP32 coordinator (zb_rpc_server) runs the Zigbee stack and offers
    thirteen functions; a Linux program (zb_rpc_client) calls them by RPC over
    TCP, TCP runs over PPP, PPP over a serial line, and the application
    (thermostat_app.hpp) is the same source on either side.  The RPC itself is
    a header library that reflects over C++ types (zb_rpc_shared, and a copy
    in zb_rpc that also generates the dispatcher and comes with a simulated
    network and a demonstration client).  A tool (tools/qrtext) prints texts as
    QR codes, and the tools come with a header for key encapsulation (ML-KEM)
    that no program calls yet.  This library models those programs
    as executable definitions, one per function of the source, and proves what
    each promises and what they promise together.

    ** How the code is modelled

    Integers of a width are [Z] with the wrap-around written out ([u8], [u16],
    [u32], [s16], [s32] below); bytes are [byte]; structures of the wire are
    records of little-endian field wrappers.  Stateful code is explicit state
    passing: a function of type [St S A] (below) takes the state of its world
    and returns the next and a result; [hoare] is the specification of such
    functions.  The operating system, FreeRTOS, lwIP and the Zigbee SDK are
    code the sources only call: each is a class of operations ([Posix],
    [Sockets], [HostSys], [Lwip], [HostTcp], [LwipTcp], [FreeRtos],
    [EventGroups], [TaskNotify], [PppHw], [EzbSdk]) with a class of laws that
    state their documented behaviour, and an executable instance on which the
    theorems are evaluated.  What a program obtains from its environment
    (descriptors, blocks, threads, semaphores) is a ledger ([held] in
    Sockets.v); a law for an operation on a resource asks that it is held.

    A program that never returns, and programs that run concurrently, are step
    functions over a program counter, with the order of the steps a parameter:
    the server's task ([task_step]), the reconnect task and its event handlers
    ([ppp_event]), the forwarder ([fwd_step]), callbacks of the Zigbee SDK
    wherever the application blocks ([run_pending]), and threads, lwIP
    callbacks and signals of the client wherever it is preempted ([preempt]).
    One callback is atomic, and so is one trip round a thread's loop or, in the
    forwarder, a thread's step to its next call that waits.

    The QR code generator is sequential code over [uint8_t] arrays: an array is
    the list of its bytes, a [for] loop [foldm] over its index values, and an
    access outside an array or a failing [assert] is [None], so that a result
    [Some] also says that neither happens.  What a local array holds before it
    is written is a parameter ([Uninit]).  The key encapsulation header is
    modelled in the same way: a span is a range of its array ([subspan],
    [on_span]), template arguments are arguments, and a [requires] clause on
    them that fails is [None] in the schemes, the samplers, [matrix_multiply]
    and [finalize], and a hypothesis of the lemmas elsewhere.

    ** The files

    The wire and the engine (zb_rpc_shared/include/zb_rpc):
    Protocol.v is protocol.hpp; Reflection.v and Dump.v are reflection.hpp;
    Posix.v is [write_all] and [read_all] of engine.hpp, Engine.v the rest of
    it, Rpc.v what a call and an invocation do on a stream.

    The interface both sides implement: ZigbeeApi.v (zigbee_api.h).

    The firmware (zb_rpc_server/main): Freertos.v is what it uses of FreeRTOS;
    ZigbeeStack.v is zigbee_stack.c, with its invariant in ZigbeeStackFacts.v
    and the answers of its calls in ZigbeeStackAnswers.v; RpcServer.v and
    RpcTask.v are rpc_server.cpp (the handlers and a connection; the task and
    an executable network for it);
    PppUart.v is ppp_uart.c, PppBoot.v its start-up and app_main.c.

    The client (zb_rpc_client): ClientApi.v is include/zigbee_api.h,
    ThermostatApp.v include/thermostat_app.hpp; HostSys.v holds the objects of
    the process, PppLwip.v is ppp_lwip.c, PppLink.v ppp_link.c and serial_io.c
    with their threads and the signal handler, ClientMain.v main.cpp,
    NetdevFwd.v netdev_fwd.c.

    The host build (zb_rpc): Sockets.v is what a program holds and sock.hpp,
    over the calls that rpc_server.cpp and main.cpp make too; AutoRpc.v is
    auto_rpc.hpp and dispatch.hpp; Sim.v is sim_zigbee.cpp, server.cpp, client.cpp and
    catalog.hpp.

    The QR code printer (tools/qrtext): QrArray.v has arrays and loops; of
    qrcodegen.h, QrField.v is the Reed-Solomon arithmetic, QrSegments.v and
    QrPayload.v segments and what they say, QrGrid.v, QrFunction.v, QrFormat.v,
    QrData.v and QrDraw.v the modules, QrCodewords.v the blocks, QrEncode.v the
    score and the encoder; QrScan.v, QrEncoder.v and QrText.v say what the
    encoder does, against a reader written from the layout ([scan_qr]);
    QrRender.v is the text
    renderers and qrcodegen.c, QrShow.v what they show on a terminal.

    Key encapsulation (tools/ml_kem_512_single.hpp): MlField.v, MlNtt.v,
    MlCodec.v and MlVector.v are the field with arrays and sums over it, the
    transform, compression and bytes, and vectors; Keccak.v, Sponge.v and Xof.v
    the permutation, the sponge and the hash objects; RandomShake.v the random
    number generator; MlSample.v the samplers; MlSubtle.v the constant-time
    routines; MlPke.v the encryption scheme and MlKem.v the mechanism, with what
    its operations compute.  MlBits.v has bits; MlRing.v relates the transform
    to polynomials modulo X^256 + 1, MlScheme.v is the equation between
    encryption and decryption; SpongeSpec.v is the sponge byte by byte and block
    by block, MlPkeSpec.v what the encryption scheme computes.

    Compositions: Device.v is the coordinator the server runs on, EndToEnd.v
    client and server on one connection, ClientBoard.v an executable host of
    the client.  Keeps.v and ThreadKeeps.v say what each layer leaves alone.
    Files named Facts or Life hold lemmas, files named Theorems the results and
    their instances.

    ** What the theorems show

    - EndToEndTheorems.v: on a link at rest every function of the client's API
      returns what the firmware's returns and has its effect
      ([remote_api_refines_firmware]); the application over RPC behaves as on
      the coordinator ([app_runs_alike]) and makes its calls in one of four
      orders ([app_call_order]).
    - ZigbeeStackTheorems.v: no reachable state of the firmware has faulted,
      kept the stack lock or lost a request; queues and values stay in range;
      what the waiting calls return on every branch.
    - RpcTheorems.v: payloads and bytes correspond one to one; frames arrive
      whatever the fragmentation; a turn of the server answers with exactly
      one frame; what a call does with every kind of answer; the dump; the
      server's task holds its listener and its client and nothing else, and
      serves as [serve_client] does.
    - PppTheorems.v: the flags of ppp_uart.c represent the link along every
      interleaving, an owed reconnect gets done, bytes pass in order, and the
      start-up makes its calls in order or stops.
    - SimTheorems.v: the generated dispatcher is the explicit one, the
      simulated network stays in range, catalog numbers print as [%u], and the
      two host programs close what they open.
    - ClientTheorems.v: whatever the environment does, the client's [main]
      ends with 0 or 1, holding nothing, having followed no dead pointer
      ([client_main_safe]); its transfers end ([client_transfers_end]); the
      whole client runs against the whole firmware ([client_over_firmware]).
    - NetdevTheorems.v: the forwarder uses connections, pcbs and requests only
      while they are there and holds what its connections need and no more
      ([forwarder_safe]), data passes in order, and the orders of events in
      which freed memory is reached ([freed_connection_reached]); packets between
      lwIP and the TUN device, and when the copy leaves its buffer
      ([tun_frames]).
    - QrTheorems.v: the command prints a screen that reads as the text, up to
      an exact length ([printer_shows_text]); the encoder ends on every input,
      at the first version with room, the highest level boosting gives and the
      best mask ([text_reads_back], [mask_is_best]); what it draws are
      Reed-Solomon codewords at their distance ([blocks_correctable],
      [reed_solomon_distance]); the module count is exact
      ([raw_modules_exact]); segments and format bits read back.
    - HashTheorems.v: hash objects give the sponge's output on the whole
      message however it is cut ([hash_in_pieces]), draws of a generator read
      one stream of its seed ([random_stream]).
    - KemTheorems.v: multiplication through the transform is the schoolbook
      product ([ntt_is_schoolbook]); polynomials and bytes correspond, and what
      compression moves ([codec_roundtrips]); the constant-time routines
      ([constant_time_exact]); matrix and vectors are the samples of FIPS 203
      ([samplers_exact]); what key generation makes ([kem_keys]), that both
      sides get one key while the noise is small ([kem_agrees]), which public
      keys are refused ([kem_checks_key]), and what decapsulation gives for any
      cipher text ([kem_rejects_implicitly]).

    ** Fuel

    Loops that end by what the environment does carry fuel, and running out of
    it is a value no result has: [read_loop] and [write_loop] take one turn
    per byte and per interruption still to come ([io_patience]), which is
    enough ([read_loop_total], [write_loop_total]); [discard_loop] takes one
    turn per byte ([discard_loop_total]); [write_pbuf] likewise
    ([write_pbuf_sends]); [poll_loop] needs one turn ([poll_loop_once]), since
    a wait is interrupted by the signal that ends it.  All other loops have a
    bound in the source or follow the data; of the QR code generator's,
    [find_version] takes one turn per version in range, [append_padding] one
    per bit of capacity, and the encoder's theorems say that it ends.
    [absorb_loop], [squeeze_loop] and [generate_loop] take one turn per byte
    ([generate] one more, since its first turn may copy nothing), and their
    theorems give a result for every input.  The rejection sampler
    [sample_loop] has no bound in the code and ends when its stream has had 256
    numbers below Q: its fuel is an argument of all that calls it, [enough] and
    [matrix_enough] say for a seed that the fuel is enough, and more gives the
    same result ([samplers_exact]).

    ** Not modelled

    Log output (but the application's own lines, which are part of its
    behaviour); [getopt_long] (the options it selects are the argument of
    [client_main]); the verbose dump of the serial traffic; the contents of
    PPP and TCP, which are lwIP's; the reference counts of pbufs; data races
    within one trip of a thread or one callback.  main.cpp never turns the
    forwarder on, so [client_main] runs with it off and netdev_fwd.c has a
    model of its own.  zb_rpc/include holds copies of engine.hpp, protocol.hpp
    and reflection.hpp that differ in the default host, the number of APIs and
    the type of a handler without parameters; they are modelled once, and
    AutoRpc.v has the differences.  Left out: lwipopts.h and ip6_stub.c
    (configuration), and generate_single_file.py (a build script).
    Of the key encapsulation header, that the constant-time routines take
    constant time is not stated, nor how likely the noise is to be large; the
    random device is a function from the number of a call to its value, and
    the resets of hash objects that go out of scope are left out.
    In the QR code generator [long] has 64 bits, and a segment's data is the
    contents of its buffer: the code reads it before it writes to an array
    that may be the same. *)

From Stdlib Require Import ZArith Lia List.
From Stdlib Require Import Strings.Byte.
From stdpp Require Import base tactics list numbers option vector.

Declare Scope zbr_scope.
Delimit Scope zbr_scope with zbr.
Open Scope Z_scope.

(** ** Machine integers

    A C++ integer of width [w] is a [Z]; the casts below are the conversions
    the language performs ([static_cast] to the unsigned type reduces modulo
    [2^w], to the signed type picks the representative in
    [-2^(w-1), 2^(w-1))). *)

Definition u8 (z : Z) : Z := z mod 2 ^ 8.

Definition u16 (z : Z) : Z := z mod 2 ^ 16.

Definition u32 (z : Z) : Z := z mod 2 ^ 32.

Definition to_signed (w : Z) (z : Z) : Z :=
  let m := z mod 2 ^ w in
  if m <? 2 ^ (w - 1) then m else m - 2 ^ w.

Definition s16 (z : Z) : Z := to_signed 16 z.

Definition s32 (z : Z) : Z := to_signed 32 z.

Definition is_u8 (z : Z) : Prop := 0 <= z < 2 ^ 8.

Definition is_u16 (z : Z) : Prop := 0 <= z < 2 ^ 16.

Definition is_u32 (z : Z) : Prop := 0 <= z < 2 ^ 32.

Definition is_s16 (z : Z) : Prop := - 2 ^ 15 <= z < 2 ^ 15.

Definition is_s32 (z : Z) : Prop := - 2 ^ 31 <= z < 2 ^ 31.

(** ** Bytes *)

Definition byte_to_Z (b : byte) : Z := Z.of_N (Byte.to_N b).

#[export] Instance byte_eq_dec : EqDecision byte := Byte.byte_eq_dec.

Definition Z_to_byte (z : Z) : byte :=
  match Byte.of_N (Z.to_N (z mod 2 ^ 8)) with
  | Some b => b
  | None => x00
  end.

Notation "'ZB' z" := (Z_to_byte z) (at level 10, only parsing) : zbr_scope.

(** ** The development's hint databases

    [zbr] holds the range facts that close side conditions by [auto with
    zbr]; the rewrite
    database [zbr_rw] holds the round trips of the casts, [zbr_len] the lengths
    of lists. *)

Create HintDb zbr discriminated.
Create Rewrite HintDb zbr_rw.
Create Rewrite HintDb zbr_len.

Lemma byte_to_Z_range (b : byte) : 0 <= byte_to_Z b < 2 ^ 8.
Proof. unfold byte_to_Z. pose proof (Byte.to_N_bounded b). lia. Qed.

Lemma Z_to_byte_to_Z (z : Z) : byte_to_Z (Z_to_byte z) = z mod 2 ^ 8.
Proof.
  unfold Z_to_byte, byte_to_Z.
  pose proof (Z.mod_pos_bound z (2 ^ 8) ltac:(lia)) as Hb.
  pose proof (Byte.to_of_N_option_map (Z.to_N (z mod 2 ^ 8))) as Hm.
  rewrite (proj2 (N.leb_le _ _)) in Hm by lia.
  destruct (Byte.of_N _) as [b|] eqn:E; cbn in Hm; [|discriminate].
  injection Hm as ->. lia.
Qed.

Lemma byte_to_Z_to_byte (b : byte) : Z_to_byte (byte_to_Z b) = b.
Proof.
  unfold Z_to_byte. rewrite Z.mod_small by apply byte_to_Z_range.
  unfold byte_to_Z. by rewrite N2Z.id, Byte.of_to_N.
Qed.

#[export] Instance byte_to_Z_inj : Inj (=) (=) byte_to_Z.
Proof. intros a b H. rewrite <- (byte_to_Z_to_byte a), H. apply byte_to_Z_to_byte. Qed.

Lemma u8_range z : is_u8 (u8 z).
Proof. apply Z.mod_pos_bound. lia. Qed.

Lemma u16_range z : is_u16 (u16 z).
Proof. apply Z.mod_pos_bound. lia. Qed.

Lemma u32_range z : is_u32 (u32 z).
Proof. apply Z.mod_pos_bound. lia. Qed.

Lemma to_signed_range w z : 0 < w -> - 2 ^ (w - 1) <= to_signed w z < 2 ^ (w - 1).
Proof.
  intros Hw. unfold to_signed.
  pose proof (Z.mod_pos_bound z (2 ^ w) ltac:(lia)).
  assert (2 ^ w = 2 * 2 ^ (w - 1)) by (rewrite <- Z.pow_succ_r by lia; f_equal; lia).
  destruct (Z.ltb_spec (z mod 2 ^ w) (2 ^ (w - 1))); lia.
Qed.

Lemma s16_range z : is_s16 (s16 z).
Proof. apply (to_signed_range 16); lia. Qed.

Lemma s32_range z : is_s32 (s32 z).
Proof. apply (to_signed_range 32); lia. Qed.

Lemma u8_id z : is_u8 z -> u8 z = z.
Proof. apply Z.mod_small. Qed.

Lemma u16_id z : is_u16 z -> u16 z = z.
Proof. apply Z.mod_small. Qed.

Lemma u32_id z : is_u32 z -> u32 z = z.
Proof. apply Z.mod_small. Qed.

Lemma to_signed_mod w z : to_signed w (z mod 2 ^ w) = to_signed w z.
Proof. unfold to_signed. by rewrite Zmod_mod. Qed.

Lemma to_signed_id w z :
  0 < w -> - 2 ^ (w - 1) <= z < 2 ^ (w - 1) -> to_signed w z = z.
Proof.
  intros Hw Hz. unfold to_signed.
  assert (Hp : 2 ^ w = 2 * 2 ^ (w - 1)) by (rewrite <- Z.pow_succ_r by lia; f_equal; lia).
  destruct (Z.leb_spec 0 z).
  - rewrite Z.mod_small by lia. by rewrite (proj2 (Z.ltb_lt _ _)) by lia.
  - rewrite <- (Z.mod_add z 1), Z.mod_small by lia.
    rewrite (proj2 (Z.ltb_ge _ _)) by lia. lia.
Qed.

Lemma s16_u16 z : s16 (u16 z) = s16 z.
Proof. apply (to_signed_mod 16). Qed.

Lemma s32_u32 z : s32 (u32 z) = s32 z.
Proof. apply (to_signed_mod 32). Qed.

Lemma s16_id z : is_s16 z -> s16 z = z.
Proof. intros H. apply (to_signed_id 16); [lia | exact H]. Qed.

Lemma s32_id z : is_s32 z -> s32 z = z.
Proof. intros H. apply (to_signed_id 32); [lia | exact H]. Qed.

#[export] Hint Resolve byte_to_Z_range u8_range u16_range u32_range s16_range s32_range : zbr.
#[export] Hint Rewrite Z_to_byte_to_Z byte_to_Z_to_byte s16_u16 s32_u32 : zbr_rw.

(** Or-ing in a shifted value above an in-range one is an addition. *)
Lemma lor_shiftl_add (a b n : Z) :
  0 <= n -> 0 <= a < 2 ^ n -> Z.lor a (Z.shiftl b n) = a + b * 2 ^ n.
Proof.
  intros Hn Ha. rewrite Z.shiftl_mul_pow2 by lia.
  rewrite <- Z.lxor_lor, Z.add_nocarry_lxor; [done| |];
    apply Z.bits_inj'; intros i Hi; rewrite Z.land_spec, Z.bits_0;
    (destruct (Z.ltb_spec i n);
      [ rewrite (Z.mul_pow2_bits_low b) by lia; by rewrite andb_false_r
      | rewrite <- (Z.mod_small a (2 ^ n)) by lia;
        rewrite Z.mod_pow2_bits_high by lia; by rewrite andb_false_l ]).
Qed.

(** ** Lists *)

Section Lists.
Context {A : Type}.
Implicit Types l k : list A.

Lemma take_app_exact l k n : n = length l -> take n (l ++ k) = l.
Proof. intros ->. apply take_app_length. Qed.

Lemma drop_app_exact l k n : n = length l -> drop n (l ++ k) = k.
Proof. intros ->. apply drop_app_length. Qed.

Lemma nonempty_length l : l <> [] <-> (0 < length l)%nat.
Proof. destruct l; cbn; split; intros; try lia; congruence. Qed.

End Lists.

(** An array of [n] elements filled from a list, [d] where it runs out. *)
Fixpoint vec_of_list {A} (n : nat) (d : A) (l : list A) : vec A n :=
  match n with
  | O => [#]
  | S n => vcons (default d (head l)) (vec_of_list n d (tail l))
  end.

Lemma vec_of_list_to_list {A} n (d : A) l : length l = n -> vec_to_list (vec_of_list n d l) = l.
Proof.
  revert l. induction n as [|n IH]; intros [|a l] Hl; try done.
  injection Hl as Hl. cbn. by rewrite IH.
Qed.

#[export] Hint Rewrite @length_app @length_replicate @length_take @length_drop : zbr_len.

(** ** Stateful code

    [St S A] is code that reads and writes a state [S] and returns an [A];
    [mret], [mbind] and their notations are stdpp's.  [hoare P m Q]: from a
    state where [P] holds, [m] ends in one where [Q] holds of its result. *)

Definition St (S A : Type) : Type := S -> S * A.

#[export] Instance St_ret S : MRet (St S) := fun _ a s => (s, a).
#[export] Instance St_bind S : MBind (St S) := fun _ _ k m s => let '(s', a) := m s in k a s'.

(** A step whose result is not used. *)
Lemma St_seq {S A B} (m : St S A) (k : St S B) s : (m ≫= fun _ => k) s = k (m s).1.
Proof. unfold mbind, St_bind. by destruct (m s). Qed.

Definition gets {S A} (f : S -> A) : St S A := fun s => (s, f s).

Lemma St_gets {S A B} (f : S -> A) (k : A -> St S B) s : (gets f ≫= k) s = k (f s) s.
Proof. reflexivity. Qed.

Definition modify {S} (f : S -> S) : St S unit := fun s => (f s, tt).

Fixpoint for_each {S A} (f : A -> St S unit) (l : list A) : St S unit :=
  match l with
  | [] => mret tt
  | a :: l => f a;; for_each f l
  end.

Definition hoare {S A} (P : S -> Prop) (m : St S A) (Q : A -> S -> Prop) : Prop :=
  forall s, P s -> Q (m s).2 (m s).1.

Section Hoare.
Context {S : Type}.
Implicit Types P : S -> Prop.

Lemma hoare_ret {A} P (Q : A -> S -> Prop) a : (forall s, P s -> Q a s) -> hoare P (mret a) Q.
Proof. done. Qed.

Lemma hoare_bind {A B} P R (Q : B -> S -> Prop) (m : St S A) (k : A -> St S B) :
  hoare P m R -> (forall a, hoare (R a) (k a) Q) -> hoare P (m ≫= k) Q.
Proof.
  intros Hm Hk s Hs. specialize (Hm s Hs). unfold mbind, St_bind.
  destruct (m s) as [s' a]. by apply Hk.
Qed.

Lemma hoare_seq {A B} P P' (Q : B -> S -> Prop) (m : St S A) (k : St S B) :
  hoare P m (fun _ => P') -> hoare P' k Q -> hoare P (m;; k) Q.
Proof. intros Hm Hk. by apply hoare_bind with (R := fun _ => P'). Qed.

Lemma hoare_weaken {A} P P' (Q Q' : A -> S -> Prop) (m : St S A) :
  hoare P' m Q' -> (forall s, P s -> P' s) -> (forall a s, Q' a s -> Q a s) -> hoare P m Q.
Proof. unfold hoare. eauto. Qed.

Lemma hoare_gets {A} P (Q : A -> S -> Prop) f : (forall s, P s -> Q (f s) s) -> hoare P (gets f) Q.
Proof. done. Qed.

Lemma hoare_modify P (Q : unit -> S -> Prop) f :
  (forall s, P s -> Q tt (f s)) -> hoare P (modify f) Q.
Proof. done. Qed.

Lemma hoare_for_each {A} P (f : A -> St S unit) l :
  (forall a, In a l -> hoare P (f a) (fun _ => P)) -> hoare P (for_each f l) (fun _ => P).
Proof.
  induction l as [|a l IH]; intros Hf; [by intros s|]. cbn [for_each].
  eapply hoare_seq; [apply Hf; by left|]. apply IH. intros b Hb. apply Hf. by right.
Qed.
End Hoare.

(** [case_bool] splits on the first boolean test of the goal or of a
    hypothesis and turns it into the proposition it decides. *)
Ltac case_bool :=
  match goal with
  | |- context [?a <? ?b] => destruct (Z.ltb_spec a b)
  | |- context [?a <=? ?b] => destruct (Z.leb_spec a b)
  | |- context [?a =? ?b] => destruct (Z.eqb_spec a b)
  | H : context [?a <? ?b] |- _ => destruct (Z.ltb_spec a b)
  | H : context [?a <=? ?b] |- _ => destruct (Z.leb_spec a b)
  | H : context [?a =? ?b] |- _ => destruct (Z.eqb_spec a b)
  end.

(** Reduce the goal's record projections and matches, splitting every
    remaining [match] scrutinee that is a variable or a call. *)
Ltac split_match :=
  repeat (case_match; simplify_eq/=; try done).
