(* ===== verification/Protocol.v ===== *)
(** * The wire protocol: zb_rpc_shared/include/zb_rpc/protocol.hpp

    Little-endian field wrappers, the enumerations of API ids and error
    codes, the frame headers and the packed request and response structures.
    A [uint8_t] or [char] field is a [byte]; a [char[16]] is a [vec byte 16];
    multi-byte fields are the wrappers [le16] and [le32], never integers. *)

From stdpp Require Import base tactics list numbers vector.
From Stdlib Require Import ZArith Lia.
From Stdlib Require Import Strings.Byte.
From S2P Require Import Prelude.

(** ** Constants *)

Definition k_magic : Z := 0x32435052.
Definition k_max_payload : Z := 64.
Definition k_default_port : Z := 3333.

(** ** Endian wrappers *)

Record le16 := Le16 { le16_0 : byte; le16_1 : byte }.

Record le32 := Le32 { le32_0 : byte; le32_1 : byte; le32_2 : byte; le32_3 : byte }.

#[export] Instance le16_eq_dec : EqDecision le16.
Proof. solve_decision. Defined.

#[export] Instance le32_eq_dec : EqDecision le32.
Proof. solve_decision. Defined.

Definition to_le16 (value : Z) : le16 :=
  Le16 (Z_to_byte value) (Z_to_byte (Z.shiftr value 8)).

Definition from_le16 (value : le16) : Z :=
  u16 (Z.lor (u16 (byte_to_Z (le16_0 value)))
             (Z.shiftl (u16 (byte_to_Z (le16_1 value))) 8)).

Definition to_le16_s (value : Z) : le16 := to_le16 (u16 value).

Definition from_le16_s (value : le16) : Z := s16 (from_le16 value).

Definition to_le32 (value : Z) : le32 :=
  Le32 (Z_to_byte value) (Z_to_byte (Z.shiftr value 8))
       (Z_to_byte (Z.shiftr value 16)) (Z_to_byte (Z.shiftr value 24)).

Definition from_le32 (value : le32) : Z :=
  Z.lor (Z.lor (Z.lor (u32 (byte_to_Z (le32_0 value)))
                      (u32 (Z.shiftl (u32 (byte_to_Z (le32_1 value))) 8)))
               (u32 (Z.shiftl (u32 (byte_to_Z (le32_2 value))) 16)))
        (u32 (Z.shiftl (u32 (byte_to_Z (le32_3 value))) 24)).

Definition to_le32_s (value : Z) : le32 := to_le32 (u32 value).

Definition from_le32_s (value : le32) : Z := s32 (from_le32 value).

(** ** Enumerations

    [api_id] has the fixed underlying type [uint32_t], so a [static_cast] of
    any received word is a value of the enumeration: [id_unnamed v] is the
    value [v] that no enumerator names. *)

Inductive api_id :=
  | id_error
  | id_get_short_addr
  | id_get_panid
  | id_get_channel
  | id_open_network
  | id_wait_annce
  | id_find_sensor
  | id_read_basic
  | id_bind_sensor
  | id_subscribe_sensor
  | id_config_report
  | id_read_temp
  | id_get_last_temp
  | id_get_sensor_addr
  | id_unnamed (v : Z).

#[export] Instance api_id_eq_dec : EqDecision api_id.
Proof. solve_decision. Defined.

(** The enumerators in declaration order with their values. *)
Definition api_id_enumerators : list (api_id * Z) :=
  [ (id_error, 0); (id_get_short_addr, 1); (id_get_panid, 2); (id_get_channel, 3);
    (id_open_network, 4); (id_wait_annce, 5); (id_find_sensor, 6); (id_read_basic, 7);
    (id_bind_sensor, 8); (id_subscribe_sensor, 9); (id_config_report, 10);
    (id_read_temp, 11); (id_get_last_temp, 12); (id_get_sensor_addr, 13) ].

Fixpoint find_enumerator (es : list (api_id * Z)) (v : Z) : option api_id :=
  match es with
  | [] => None
  | (i, w) :: es => if w =? v then Some i else find_enumerator es v
  end.

(** [static_cast<api_id>(v)] of a [uint32_t]. *)
Definition api_id_of_u32 (v : Z) : api_id :=
  default (id_unnamed v) (find_enumerator api_id_enumerators v).

(** [static_cast<uint32_t>(id)]. *)
Definition api_id_to_u32 (i : api_id) : Z :=
  match i with
  | id_error => 0
  | id_get_short_addr => 1
  | id_get_panid => 2
  | id_get_channel => 3
  | id_open_network => 4
  | id_wait_annce => 5
  | id_find_sensor => 6
  | id_read_basic => 7
  | id_bind_sensor => 8
  | id_subscribe_sensor => 9
  | id_config_report => 10
  | id_read_temp => 11
  | id_get_last_temp => 12
  | id_get_sensor_addr => 13
  | id_unnamed v => v
  end.

(** The values a [uint32_t] can name, each by one constructor. *)
Definition api_id_wf (i : api_id) : Prop :=
  match i with
  | id_unnamed v => 14 <= v < 2 ^ 32
  | _ => True
  end.

Inductive error_code :=
  | ec_none
  | ec_bad_magic
  | ec_oversized_payload
  | ec_unknown_api
  | ec_payload_mismatch.

#[export] Instance error_code_eq_dec : EqDecision error_code.
Proof. solve_decision. Defined.

Definition error_code_to_u32 (c : error_code) : Z :=
  match c with
  | ec_none => 0
  | ec_bad_magic => 1
  | ec_oversized_payload => 2
  | ec_unknown_api => 3
  | ec_payload_mismatch => 4
  end.

(** ** Frames and payloads *)

Record WireHeader := MkWireHeader { wh_magic : le32; wh_id : le32; wh_size : le32 }.

Record FrameHeader := MkFrameHeader { fh_id : api_id; fh_size : Z }.

Record ErrorResp := MkErrorResp { er_code : le32 }.

Inductive EmptyReq : Set := MkEmptyReq.

Record U8Resp := MkU8Resp { u8r_value : byte }.

Record U16Resp := MkU16Resp { u16r_value : le16 }.

Record I16Resp := MkI16Resp { i16r_value : le16 }.

Record I32Resp := MkI32Resp { i32r_value : le32 }.

Record OpenNetworkReq := MkOpenNetworkReq { onr_duration : byte }.

Record FindSensorReq := MkFindSensorReq { fsr_short_addr : le16 }.

Record zb_addr_t := MkZbAddr { zba_err : le32; zba_short_addr : le16; zba_ep : byte }.

Record zb_basic_t := MkZbBasic {
  zbb_err : le32;
  zbb_manufacturer : vec byte 16;
  zbb_model : vec byte 16
}.

Record zb_temp_t := MkZbTemp {
  zbt_err : le32;
  zbt_measured : le16;
  zbt_min_measured : le16;
  zbt_max_measured : le16;
  zbt_tolerance : le16
}.

(** ** Round trips and ranges of the wrappers *)

Lemma from_le16_sum (v : le16) :
  from_le16 v = byte_to_Z (le16_0 v) + byte_to_Z (le16_1 v) * 2 ^ 8.
Proof.
  unfold from_le16.
  pose proof (byte_to_Z_range (le16_0 v)). pose proof (byte_to_Z_range (le16_1 v)).
  rewrite (u16_id (byte_to_Z _)), (u16_id (byte_to_Z (le16_1 v))) by (unfold is_u16; lia).
  rewrite lor_shiftl_add by lia. apply u16_id. unfold is_u16. lia.
Qed.

Lemma from_le32_sum (v : le32) :
  from_le32 v = byte_to_Z (le32_0 v) + byte_to_Z (le32_1 v) * 2 ^ 8 +
                byte_to_Z (le32_2 v) * 2 ^ 16 + byte_to_Z (le32_3 v) * 2 ^ 24.
Proof.
  unfold from_le32.
  pose proof (byte_to_Z_range (le32_0 v)). pose proof (byte_to_Z_range (le32_1 v)).
  pose proof (byte_to_Z_range (le32_2 v)). pose proof (byte_to_Z_range (le32_3 v)).
  rewrite !(u32_id (byte_to_Z _)) by (unfold is_u32; lia).
  rewrite !(u32_id (Z.shiftl _ _)) by (rewrite Z.shiftl_mul_pow2 by lia; unfold is_u32; lia).
  rewrite (lor_shiftl_add (byte_to_Z _)), (lor_shiftl_add (_ + _) _ 16),
    (lor_shiftl_add (_ + _) _ 24) by lia. lia.
Qed.

Lemma from_le16_range v : is_u16 (from_le16 v).
Proof.
  rewrite from_le16_sum. unfold is_u16.
  pose proof (byte_to_Z_range (le16_0 v)). pose proof (byte_to_Z_range (le16_1 v)). lia.
Qed.

Lemma from_le32_range v : is_u32 (from_le32 v).
Proof.
  rewrite from_le32_sum. unfold is_u32.
  pose proof (byte_to_Z_range (le32_0 v)). pose proof (byte_to_Z_range (le32_1 v)).
  pose proof (byte_to_Z_range (le32_2 v)). pose proof (byte_to_Z_range (le32_3 v)). lia.
Qed.

#[export] Hint Resolve from_le16_range from_le32_range : zbr.

Lemma from_to_le16 z : from_le16 (to_le16 z) = u16 z.
Proof.
  rewrite from_le16_sum. cbn [le16_0 le16_1 to_le16].
  rewrite !Z_to_byte_to_Z, Z.shiftr_div_pow2 by lia. unfold u16.
  Z.div_mod_to_equations. lia.
Qed.

Lemma from_to_le32 z : from_le32 (to_le32 z) = u32 z.
Proof.
  rewrite from_le32_sum. cbn [le32_0 le32_1 le32_2 le32_3 to_le32].
  rewrite !Z_to_byte_to_Z, !Z.shiftr_div_pow2 by lia. unfold u32.
  Z.div_mod_to_equations. lia.
Qed.

#[export] Hint Rewrite from_to_le16 from_to_le32 : zbr_rw.

Lemma le16_sum_inj (a b : le16) : from_le16 a = from_le16 b -> a = b.
Proof.
  rewrite !from_le16_sum. destruct a as [a0 a1], b as [b0 b1]; cbn.
  pose proof (byte_to_Z_range a0). pose proof (byte_to_Z_range a1).
  pose proof (byte_to_Z_range b0). pose proof (byte_to_Z_range b1).
  intros E. f_equal; apply (inj byte_to_Z); lia.
Qed.

Lemma le32_sum_inj (a b : le32) : from_le32 a = from_le32 b -> a = b.
Proof.
  rewrite !from_le32_sum. destruct a as [a0 a1 a2 a3], b as [b0 b1 b2 b3]; cbn.
  pose proof (byte_to_Z_range a0). pose proof (byte_to_Z_range a1).
  pose proof (byte_to_Z_range a2). pose proof (byte_to_Z_range a3).
  pose proof (byte_to_Z_range b0). pose proof (byte_to_Z_range b1).
  pose proof (byte_to_Z_range b2). pose proof (byte_to_Z_range b3).
  intros E. f_equal; apply (inj byte_to_Z); lia.
Qed.

Lemma to_from_le16 v : to_le16 (from_le16 v) = v.
Proof. apply le16_sum_inj. rewrite from_to_le16. apply u16_id. auto with zbr. Qed.

Lemma to_from_le32 v : to_le32 (from_le32 v) = v.
Proof. apply le32_sum_inj. rewrite from_to_le32. apply u32_id. auto with zbr. Qed.

Lemma from_to_le16_s z : from_le16_s (to_le16_s z) = s16 z.
Proof. unfold from_le16_s, to_le16_s. by rewrite from_to_le16, !s16_u16. Qed.

Lemma from_to_le32_s z : from_le32_s (to_le32_s z) = s32 z.
Proof. unfold from_le32_s, to_le32_s. by rewrite from_to_le32, !s32_u32. Qed.

#[export] Hint Rewrite to_from_le16 to_from_le32 from_to_le16_s from_to_le32_s : zbr_rw.

(** ** The enumeration casts *)

Lemma api_id_to_of_u32 v : api_id_to_u32 (api_id_of_u32 v) = v.
Proof.
  unfold api_id_of_u32, api_id_enumerators. cbn [find_enumerator].
  repeat (case_bool; [subst; reflexivity|]). reflexivity.
Qed.

Lemma api_id_of_to_u32 i : api_id_wf i -> api_id_of_u32 (api_id_to_u32 i) = i.
Proof.
  destruct i as [| | | | | | | | | | | | | |v]; try reflexivity.
  cbn [api_id_wf api_id_to_u32]. intros Hv.
  unfold api_id_of_u32, api_id_enumerators. cbn [find_enumerator].
  by repeat (case_bool; [lia|]).
Qed.

Lemma api_id_to_u32_range i : api_id_wf i -> is_u32 (api_id_to_u32 i).
Proof. destruct i; cbn; unfold is_u32; lia. Qed.

Lemma api_id_of_u32_wf v : is_u32 v -> api_id_wf (api_id_of_u32 v).
Proof.
  unfold is_u32, api_id_of_u32, api_id_enumerators. cbn [find_enumerator]. intros Hv.
  repeat (case_bool; [exact I|]). cbn. lia.
Qed.

#[export] Hint Resolve api_id_to_u32_range api_id_of_u32_wf : zbr.
