(* ===== verification/Reflection.v ===== *)
(** * Reflection: zb_rpc_shared/include/zb_rpc/reflection.hpp

    The C++ types the reflection code walks over are the inductive type
    [ctype]; an object of such a type is a [cval].  [wire_safe], [api_name],
    [DumpBuffer] and the dump functions follow the header; [sizeof],
    [alignof] and [bytes_of] are the object representation the language gives
    those types.  The class [WireType] ties a structure of [Protocol] to its
    reflected type: it is what the engine's [static_assert]s promise. *)

From Stdlib Require Import ZArith Lia.
From Stdlib Require Import Strings.Byte.
From stdpp Require Import base tactics list numbers option vector strings.
From S2P Require Import Prelude Protocol.

Definition lit (s : string) : list byte := String.list_byte_of_string s.

(** ** Types and objects *)

Inductive ctype :=
  | TVoid
  | TEmptyReq
  | TUint8
  | TChar
  | TLe16
  | TLe32
  | TArray (elem : ctype) (extent : nat)
  | TClass (name : string) (packed : bool) (members : list (string * ctype))
  | TScalar (name : string) (size align : nat).

Inductive cval :=
  | VEmpty
  | VByte (b : byte)
  | VLe16 (v : le16)
  | VLe32 (v : le32)
  | VArray (vs : list cval)
  | VClass (vs : list cval).

(** Induction over the members of a class. *)
Section CtypeInd.
Context (P : ctype -> Prop).
Context (Hvoid : P TVoid) (Hempty : P TEmptyReq) (Hu8 : P TUint8) (Hchar : P TChar).
Context (Hle16 : P TLe16) (Hle32 : P TLe32).
Context (Harray : forall e n, P e -> P (TArray e n)).
Context (Hclass : forall nm pk ms, Forall (fun m => P m.2) ms -> P (TClass nm pk ms)).
Context (Hscalar : forall nm s a, P (TScalar nm s a)).

Fixpoint ctype_ind' (t : ctype) : P t :=
  match t with
  | TVoid => Hvoid
  | TEmptyReq => Hempty
  | TUint8 => Hu8
  | TChar => Hchar
  | TLe16 => Hle16
  | TLe32 => Hle32
  | TArray e n => Harray e n (ctype_ind' e)
  | TClass nm pk ms =>
      Hclass nm pk ms
        ((fix go (ms : list (string * ctype)) : Forall (fun m => P m.2) ms :=
            match ms with
            | [] => Forall_nil_2 _
            | m :: ms => Forall_cons_2 _ m ms (ctype_ind' m.2) (go ms)
            end) ms)
  | TScalar nm s a => Hscalar nm s a
  end.
End CtypeInd.

(** ** [wire_safe]

    [std::meta::remove_all_extents] strips every array dimension. *)

Fixpoint remove_all_extents (t : ctype) : ctype :=
  match t with
  | TArray e _ => remove_all_extents e
  | _ => t
  end.

Fixpoint wire_safe (t : ctype) : bool :=
  match t with
  | TVoid | TEmptyReq => true
  | TUint8 | TChar | TLe16 | TLe32 => true
  | TArray e _ => wire_safe (remove_all_extents e)
  | TClass _ _ ms => forallb (fun m => wire_safe m.2) ms
  | TScalar _ _ _ => false
  end.

(** ** Object layout *)

Definition align_up (off a : nat) : nat := ((off + a - 1) / a * a)%nat.

Fixpoint alignof (t : ctype) : nat :=
  match t with
  | TArray e _ => alignof e
  | TClass _ packed ms =>
      if packed then 1%nat else foldr (fun m a => Nat.max (alignof m.2) a) 1%nat ms
  | TScalar _ _ a => a
  | _ => 1%nat
  end.

Fixpoint sizeof (t : ctype) : nat :=
  match t with
  | TVoid => 0
  | TEmptyReq | TUint8 | TChar => 1
  | TLe16 => 2
  | TLe32 => 4
  | TArray e n => n * sizeof e
  | TClass _ packed ms =>
      let go := fix go off (ms : list (string * ctype)) :=
        match ms with
        | [] => off
        | m :: ms =>
            let a := if packed then 1%nat else alignof m.2 in
            go (align_up off a + sizeof m.2)%nat ms
        end in
      let a := if packed then 1%nat else foldr (fun m a => Nat.max (alignof m.2) a) 1%nat ms in
      Nat.max 1 (align_up (go 0%nat ms) a)
  | TScalar _ s _ => s
  end.

(** The bytes its leaves occupy: what the object would take without padding. *)
Fixpoint leaf_bytes (t : ctype) : nat :=
  match t with
  | TUint8 | TChar => 1
  | TLe16 => 2
  | TLe32 => 4
  | TArray e n => n * leaf_bytes e
  | TClass _ _ ms => sum_list_with (fun m => leaf_bytes m.2) ms
  | TVoid | TEmptyReq => 0
  | TScalar _ s _ => s
  end.

(** Every class has a member and no member is [EmptyReq]: the types a frame
    carries as a payload. *)
Fixpoint has_storage (t : ctype) : bool :=
  match t with
  | TVoid | TEmptyReq => false
  | TArray e n => negb (n =? 0)%nat && has_storage e
  | TClass _ _ ms => negb (length ms =? 0)%nat && forallb (fun m => has_storage m.2) ms
  | _ => true
  end.

(** ** Objects, their representation and reading one back *)

Section HasTypeMany.
Context (h : ctype -> cval -> bool).

Definition has_types : list (string * ctype) -> list cval -> bool :=
  fix go ms vs :=
    match ms, vs with
    | [], [] => true
    | m :: ms, v :: vs => h m.2 v && go ms vs
    | _, _ => false
    end.
End HasTypeMany.

Fixpoint has_type (t : ctype) (v : cval) : bool :=
  match t, v with
  | TEmptyReq, VEmpty => true
  | TUint8, VByte _ | TChar, VByte _ => true
  | TLe16, VLe16 _ => true
  | TLe32, VLe32 _ => true
  | TArray e n, VArray vs => (length vs =? n)%nat && forallb (has_type e) vs
  | TClass _ _ ms, VClass vs => has_types has_type ms vs
  | _, _ => false
  end.

Definition le16_bytes (v : le16) : list byte := [le16_0 v; le16_1 v].

Definition le32_bytes (v : le32) : list byte := [le32_0 v; le32_1 v; le32_2 v; le32_3 v].

Fixpoint bytes_of (v : cval) : list byte :=
  match v with
  | VEmpty => []
  | VByte b => [b]
  | VLe16 w => le16_bytes w
  | VLe32 w => le32_bytes w
  | VArray vs | VClass vs => concat (map bytes_of vs)
  end.

(** A parser consumes a prefix of the bytes. *)
Abbreviation parser A := (list byte -> option (A * list byte)).

Section ParseMany.
Context (p : ctype -> parser cval).

Definition parse_rep (e : ctype) : nat -> parser (list cval) :=
  fix go n bs :=
    match n with
    | O => Some ([], bs)
    | S n => '(v, bs) ← p e bs; '(vs, bs) ← go n bs; Some (v :: vs, bs)
    end.

Definition parse_members : list (string * ctype) -> parser (list cval) :=
  fix go ms bs :=
    match ms with
    | [] => Some ([], bs)
    | m :: ms => '(v, bs) ← p m.2 bs; '(vs, bs) ← go ms bs; Some (v :: vs, bs)
    end.
End ParseMany.

Fixpoint parse (t : ctype) : parser cval := fun bs =>
  match t with
  | TUint8 | TChar =>
      match bs with b :: r => Some (VByte b, r) | _ => None end
  | TLe16 =>
      match bs with b0 :: b1 :: r => Some (VLe16 (Le16 b0 b1), r) | _ => None end
  | TLe32 =>
      match bs with
      | b0 :: b1 :: b2 :: b3 :: r => Some (VLe32 (Le32 b0 b1 b2 b3), r)
      | _ => None
      end
  | TArray e n => '(vs, bs) ← parse_rep parse e n bs; Some (VArray vs, bs)
  | TClass _ _ ms => '(vs, bs) ← parse_members parse ms bs; Some (VClass vs, bs)
  | TEmptyReq => Some (VEmpty, bs)
  | TVoid | TScalar _ _ _ => None
  end.

(** ** The representation round trips *)

Lemma wire_safe_remove_all_extents t :
  wire_safe (remove_all_extents t) = wire_safe t.
Proof. destruct t; reflexivity. Qed.

Lemma parse_array e n bs :
  parse (TArray e n) bs = '(vs, bs) ← parse_rep parse e n bs; Some (VArray vs, bs).
Proof. reflexivity. Qed.

Lemma parse_class nm pk ms bs :
  parse (TClass nm pk ms) bs = '(vs, bs) ← parse_members parse ms bs; Some (VClass vs, bs).
Proof. reflexivity. Qed.

Lemma parse_bytes_of t : forall v bs,
  has_type t v = true -> wire_safe t = true -> parse t (bytes_of v ++ bs) = Some (v, bs).
Proof.
  induction t as [| | | | | |e n IH|nm pk ms IH|] using ctype_ind';
    intros v bs Ht Hw; destruct v as [|b|w|w|vs|vs]; try discriminate Ht;
    rewrite ?parse_array, ?parse_class; cbn [bytes_of]; try reflexivity.
  - by destruct w.
  - by destruct w.
  - cbn in Ht, Hw. rewrite wire_safe_remove_all_extents in Hw.
    apply andb_prop in Ht as [Hn Hvs]. apply Nat.eqb_eq in Hn as <-.
    enough (parse_rep parse e (length vs) (concat (map bytes_of vs) ++ bs) = Some (vs, bs))
      as -> by done.
    induction vs as [|v vs IHv]; cbn; [done|].
    cbn in Hvs. apply andb_prop in Hvs as [Hv Hvs].
    rewrite <- app_assoc, IH by done. cbn. by rewrite IHv.
  - cbn in Ht, Hw.
    enough (parse_members parse ms (concat (map bytes_of vs) ++ bs) = Some (vs, bs))
      as -> by done.
    revert vs Ht. induction IH as [|m ms Hm _ IHm]; intros [|v vs] Ht; try discriminate Ht.
    { done. }
    cbn in Ht, Hw |- *. apply andb_prop in Ht as [Hv Hvs]. apply andb_prop in Hw as [? ?].
    rewrite <- app_assoc, Hm by done. cbn. by rewrite IHm.
Qed.

Lemma parse_sound t : forall bs v r,
  parse t bs = Some (v, r) -> bs = bytes_of v ++ r /\ has_type t v = true.
Proof.
  induction t as [| | | | | |e n IH|nm pk ms IH|] using ctype_ind'; intros bs v r H.
  all: try (cbn in H; repeat case_match; simplify_eq/=; done).
  - rewrite parse_array in H.
    apply bind_Some in H as ([vs r'] & H & [= <- <-]). cbn [bytes_of has_type].
    enough (bs = concat (map bytes_of vs) ++ r' /\
            (length vs =? n)%nat && forallb (has_type e) vs = true) by naive_solver.
    revert bs vs r' H. induction n as [|n IHn]; intros bs vs r' H; cbn in H.
    { by simplify_eq. }
    apply bind_Some in H as ([v bs'] & Hv & H).
    apply bind_Some in H as ([vs' bs''] & Hvs & [= <- <-]).
    apply IH in Hv as [-> Hv]. apply IHn in Hvs as [-> Hvs]. cbn.
    apply andb_prop in Hvs as [-> ->]. rewrite Hv. by rewrite <- app_assoc.
  - rewrite parse_class in H.
    apply bind_Some in H as ([vs r'] & H & [= <- <-]). cbn [bytes_of has_type].
    enough (bs = concat (map bytes_of vs) ++ r' /\ has_types has_type ms vs = true)
      by naive_solver.
    revert bs vs r' H. induction IH as [|m ms Hm _ IHm]; intros bs vs r' H; cbn in H.
    { by simplify_eq. }
    apply bind_Some in H as ([v bs'] & Hv & H).
    apply bind_Some in H as ([vs' bs''] & Hvs & [= <- <-]).
    apply Hm in Hv as [-> Hv]. apply IHm in Hvs as [-> Hvs]. cbn.
    rewrite Hv, Hvs. by rewrite <- app_assoc.
Qed.

Lemma bytes_of_length t : forall v,
  has_type t v = true -> wire_safe t = true -> length (bytes_of v) = leaf_bytes t.
Proof.
  induction t as [| | | | | |e n IH|nm pk ms IH|] using ctype_ind'; intros v Ht Hw;
    destruct v as [|b|w|w|vs|vs]; try discriminate Ht; try reflexivity; cbn in Ht, Hw |- *.
  - rewrite wire_safe_remove_all_extents in Hw.
    apply andb_prop in Ht as [Hn Hvs]. apply Nat.eqb_eq in Hn as <-.
    induction vs as [|v vs IHv]; [done|]. cbn in Hvs |- *.
    apply andb_prop in Hvs as [Hv Hvs]. by rewrite length_app, IH, IHv.
  - revert vs Ht. induction IH as [|m ms Hm _ IHm]; intros [|v vs] Ht; try done.
    cbn in Ht, Hw |- *. apply andb_prop in Ht as [Hv Hvs]. apply andb_prop in Hw as [? ?].
    by rewrite length_app, Hm, IHm.
Qed.

Lemma parse_total t : forall bs,
  wire_safe t = true -> has_storage t = true -> (leaf_bytes t <= length bs)%nat ->
  exists v r, parse t bs = Some (v, r).
Proof.
  induction t as [| | | | | |e n IH|nm pk ms IH|] using ctype_ind'; intros bs Hw Hs Hl;
    cbn in Hw, Hs, Hl; try discriminate.
  1-4: destruct bs as [|? [|? [|? [|? ?]]]]; cbn in Hl |- *; try lia; eauto.
  - rewrite wire_safe_remove_all_extents in Hw. apply andb_prop in Hs as [_ Hs].
    rewrite parse_array.
    enough (exists vs r, parse_rep parse e n bs = Some (vs, r)) as (vs & r & ->) by (cbn; eauto).
    revert bs Hl. induction n as [|n IHn]; intros bs Hl; cbn in Hl |- *; [eauto|].
    destruct (IH bs) as (v & r & Hv); [done..|lia|].
    apply parse_sound in Hv as Hv'. destruct Hv' as [-> Ht].
    rewrite length_app, (bytes_of_length e) in Hl by done.
    destruct (IHn r) as (vs & r' & Hvs); [lia|]. rewrite Hv. cbn. rewrite Hvs. cbn. eauto.
  - apply andb_prop in Hs as [_ Hs]. rewrite parse_class.
    enough (exists vs r, parse_members parse ms bs = Some (vs, r)) as (vs & r & ->)
      by (cbn; eauto).
    revert bs Hl. induction IH as [|m ms Hm _ IHm]; intros bs Hl; cbn in Hl |- *; [eauto|].
    cbn in Hw, Hs. apply andb_prop in Hw as [Hw ?]. apply andb_prop in Hs as [Hs ?].
    destruct (Hm bs) as (v & r & Hv); [done..|lia|].
    apply parse_sound in Hv as Hv'. destruct Hv' as [-> Ht].
    rewrite length_app, (bytes_of_length m.2) in Hl by done.
    destruct (IHm ltac:(done) ltac:(done) r) as (vs & r' & Hvs); [lia|].
    rewrite Hv. cbn. rewrite Hvs. cbn. eauto.
Qed.

(** ** [wire_safe] types have no padding *)

Lemma wire_safe_align t : wire_safe t = true -> alignof t = 1%nat.
Proof.
  induction t as [| | | | | |e n IH|nm pk ms IH|] using ctype_ind'; cbn; intros Hw; try done.
  - apply IH. by rewrite wire_safe_remove_all_extents in Hw.
  - destruct pk; [done|]. induction IH as [|m ms Hm _ IHm]; cbn in Hw |- *; [done|].
    apply andb_prop in Hw as [? ?]. by rewrite Hm, IHm.
Qed.

Lemma align_up_1 off : align_up off 1 = off.
Proof. unfold align_up. rewrite Nat.div_1_r. lia. Qed.

Lemma leaf_bytes_pos t :
  wire_safe t = true -> has_storage t = true -> (0 < leaf_bytes t)%nat.
Proof.
  induction t as [| | | | | |e n IH|nm pk ms IH|] using ctype_ind'; cbn; intros Hw Hs;
    try done; try lia.
  - rewrite wire_safe_remove_all_extents in Hw. apply andb_prop in Hs as [Hn Hs].
    specialize (IH Hw Hs). destruct n; [done|lia].
  - destruct IH as [|m ms Hm _]; [done|]. cbn in Hw, Hs |- *.
    apply andb_prop in Hw as [? _]. apply andb_prop in Hs as [? _].
    specialize (Hm ltac:(done) ltac:(done)). lia.
Qed.

Lemma wire_safe_sizeof t :
  wire_safe t = true -> has_storage t = true -> sizeof t = leaf_bytes t.
Proof.
  induction t as [| | | | | |e n IH|nm pk ms IH|] using ctype_ind'; intros Hw Hs;
    try done.
  - cbn in Hw, Hs |- *. rewrite wire_safe_remove_all_extents in Hw.
    apply andb_prop in Hs as [_ Hs]. by rewrite IH.
  - pose proof (leaf_bytes_pos _ Hw Hs) as Hp. pose proof (wire_safe_align _ Hw) as Ha.
    cbn in Hw, Hs, Hp, Ha |- *. apply andb_prop in Hs as [_ Hs].
    rewrite Ha, align_up_1. clear Ha.
    enough (forall off,
      (fix go off (ms : list (string * ctype)) :=
        match ms with
        | [] => off
        | m :: ms => go (align_up off (if pk then 1%nat else alignof m.2) + sizeof m.2)%nat ms
        end) off ms = off + sum_list_with (fun m => leaf_bytes m.2) ms)%nat as E.
    { rewrite E. lia. }
    clear Hp. induction IH as [|m ms Hm _ IHm]; intros off; [cbn; lia|].
    cbn in Hw, Hs |- *. apply andb_prop in Hw as [? ?]. apply andb_prop in Hs as [? ?].
    rewrite IHm, Hm, wire_safe_align by done. destruct pk; rewrite align_up_1; lia.
Qed.

(** ** Wire types

    What the engine's templates require of a payload type: its reflected type
    passes the [static_assert]s ([wire_safe], and a size of at most
    [k_max_payload] unless it is [EmptyReq]), and the structure and its
    object are in bijection.  [wt_zero] is the value-initialised [T{}]. *)

Class WireType (T : Type) := {
  wt_type : ctype;
  wt_to : T -> cval;
  wt_of : cval -> option T;
  wt_zero : T;
  wt_safe : wire_safe wt_type = true;
  wt_storage : wt_type = TEmptyReq \/ has_storage wt_type = true;
  wt_fits : (sizeof wt_type <= 64)%nat;
  wt_typed x : has_type wt_type (wt_to x) = true;
  wt_of_to x : wt_of (wt_to x) = Some x;
  wt_to_of v : has_type wt_type v = true -> exists x, wt_of v = Some x /\ wt_to x = v
}.

Arguments wt_type T {_}.
Arguments wt_zero T {_}.

(** [std::is_same_v<T, EmptyReq>] *)
Definition is_empty_req (T : Type) `{WireType T} : bool :=
  match wt_type T with TEmptyReq => true | _ => false end.

Section Wire.
Context `{WireType T}.

(** The bytes [write_all(fd_, &payload, sizeof(payload))] sends. *)
Definition encode (x : T) : list byte := bytes_of (wt_to x).

(** The object [read_all(fd_, &payload, sizeof(payload))] leaves. *)
Definition decode (bs : list byte) : option T :=
  match parse (wt_type T) bs with
  | Some (v, []) => wt_of v
  | _ => None
  end.

Definition wt_size : nat := leaf_bytes (wt_type T).

Lemma encode_length x : length (encode x) = wt_size.
Proof. apply bytes_of_length; [apply wt_typed | apply wt_safe]. Qed.

Lemma decode_encode x : decode (encode x) = Some x.
Proof.
  unfold decode, encode. rewrite <- (app_nil_r (bytes_of _)).
  rewrite parse_bytes_of by auto using wt_typed, wt_safe. apply wt_of_to.
Qed.

Lemma decode_total bs :
  is_empty_req T = false -> length bs = wt_size -> exists x, decode bs = Some x /\ encode x = bs.
Proof.
  unfold is_empty_req, decode, encode. intros He Hl.
  destruct wt_storage as [E|Hs]; [by rewrite E in He|].
  destruct (parse_total (wt_type T) bs wt_safe Hs) as (v & r & Hp); [unfold wt_size in Hl; lia|].
  apply parse_sound in Hp as Hq. destruct Hq as [-> Ht].
  rewrite length_app, (bytes_of_length (wt_type T)) in Hl by auto using wt_safe.
  destruct r; [|unfold wt_size in Hl; cbn in Hl; lia].
  rewrite Hp. destruct (wt_to_of v Ht) as (x & -> & <-). exists x. by rewrite app_nil_r.
Qed.

Lemma wt_size_sizeof : is_empty_req T = false -> wt_size = sizeof (wt_type T).
Proof.
  unfold is_empty_req. intros He. destruct wt_storage as [E|Hs]; [by rewrite E in He|].
  symmetry. apply wire_safe_sizeof; [apply wt_safe | exact Hs].
Qed.

Lemma wt_size_bound : (wt_size <= 64)%nat.
Proof.
  destruct (is_empty_req T) eqn:He.
  - unfold wt_size. unfold is_empty_req in He. destruct (wt_type T); try done. cbn. lia.
  - rewrite wt_size_sizeof by done. apply wt_fits.
Qed.
End Wire.

Arguments wt_size T {_}.

(** *** The structures of [protocol.hpp] as wire types *)

Definition val_byte (v : cval) : option byte := match v with VByte b => Some b | _ => None end.

Fixpoint vec_of_vals (n : nat) (vs : list cval) : option (vec byte n) :=
  match n, vs with
  | O, [] => Some [#]
  | S n, VByte b :: vs => w ← vec_of_vals n vs; Some (b ::: w)
  | _, _ => None
  end.

Definition vals_of_vec {n} (w : vec byte n) : list cval := map VByte (vec_to_list w).

Lemma vec_of_vals_of_vec {n} (w : vec byte n) : vec_of_vals n (vals_of_vec w) = Some w.
Proof. induction w as [|b n w IH]; [done|]. cbn. unfold vals_of_vec in IH. by rewrite IH. Qed.

Lemma vals_of_vec_typed {n} (w : vec byte n) :
  has_type (TArray TChar n) (VArray (vals_of_vec w)) = true.
Proof.
  cbn. apply andb_true_intro; split.
  - apply Nat.eqb_eq. unfold vals_of_vec. by rewrite length_map, length_vec_to_list.
  - induction w; cbn; auto.
Qed.

Lemma vec_of_vals_total n vs :
  has_type (TArray TChar n) (VArray vs) = true ->
  exists w, vec_of_vals n vs = Some w /\ vals_of_vec w = vs.
Proof.
  cbn. intros [Hn Hvs]%andb_prop. apply Nat.eqb_eq in Hn as <-.
  induction vs as [|v vs IH]; [by exists [#]|].
  cbn in Hvs. apply andb_prop in Hvs as [Hv Hvs]. destruct v as [|b| | | |]; try done.
  destruct (IH Hvs) as (w & E & Ew). exists (b ::: w). cbn. rewrite E. split; [done|].
  unfold vals_of_vec in *. cbn. by rewrite Ew.
Qed.

Definition zero_byte : byte := x00.
Definition zero_le16 : le16 := Le16 x00 x00.
Definition zero_le32 : le32 := Le32 x00 x00 x00 x00.
Definition zero_char16 : vec byte 16 := Vector.const x00 16.

Lemma has_type_class_inv nm pk ms v :
  has_type (TClass nm pk ms) v = true ->
  exists vs, v = VClass vs /\ has_types has_type ms vs = true.
Proof. destruct v; try done. intros H. eauto. Qed.

Lemma has_types_nil_inv vs : has_types has_type [] vs = true -> vs = [].
Proof. by destruct vs. Qed.

Lemma has_types_cons_inv m ms vs :
  has_types has_type (m :: ms) vs = true ->
  exists v vs', vs = v :: vs' /\ has_type m.2 v = true /\ has_types has_type ms vs' = true.
Proof. destruct vs; [done|]. intros [? ?]%andb_prop. eauto. Qed.

Lemma has_type_char_array_inv n v :
  has_type (TArray TChar n) v = true -> exists w, v = VArray (vals_of_vec w) /\
    vec_of_vals n (vals_of_vec w) = Some w.
Proof.
  destruct v as [| | | |vs|]; try done. intros H.
  destruct (vec_of_vals_total n vs H) as (w & _ & <-). exists w. by rewrite vec_of_vals_of_vec.
Qed.

Lemma has_types_class nm pk ms vs :
  has_types has_type ms vs = true -> has_type (TClass nm pk ms) (VClass vs) = true.
Proof. done. Qed.

Lemma has_types_cons m ms v vs :
  has_type m.2 v = true -> has_types has_type ms vs = true ->
  has_types has_type (m :: ms) (v :: vs) = true.
Proof. cbn. intros -> ->. done. Qed.

(** Inverts a typing fact down to its leaves. *)
Ltac inv_typed :=
  repeat match goal with
  | H : has_type (TClass _ _ _) _ = true |- _ => apply has_type_class_inv in H as (? & -> & H)
  | H : has_types _ [] _ = true |- _ => apply has_types_nil_inv in H as ->
  | H : has_types _ (_ :: _) _ = true |- _ =>
      apply has_types_cons_inv in H as (? & ? & -> & ? & H); cbn [snd] in *
  | H : has_type (TArray TChar _) _ = true |- _ =>
      apply has_type_char_array_inv in H as (? & -> & ?)
  | H : has_type _ ?v = true |- _ => destruct v; try discriminate H; clear H
  end.

(** Closes the laws of a wire structure. *)
Ltac wire_law :=
  intros;
  first
    [ solve [reflexivity]
    | solve [left; reflexivity]
    | solve [right; reflexivity]
    | solve [cbn; lia]
    | solve [inv_typed; simplify_option_eq;
             eexists; split; reflexivity]
    | solve [match goal with x : _ |- _ => destruct x; cbn -[vec_of_vals vals_of_vec] end;
             rewrite ?vec_of_vals_of_vec; reflexivity]
    | solve [apply has_types_class; repeat apply has_types_cons; try reflexivity;
             apply vals_of_vec_typed] ].

#[local] Unset Program Cases.
#[local] Obligation Tactic := wire_law.

#[export] Program Instance wire_EmptyReq : WireType EmptyReq := {|
  wt_type := TEmptyReq;
  wt_to _ := VEmpty;
  wt_of v := match v with VEmpty => Some MkEmptyReq | _ => None end;
  wt_zero := MkEmptyReq
|}.

#[export] Program Instance wire_ErrorResp : WireType ErrorResp := {|
  wt_type := TClass "ErrorResp" true [("code", TLe32)];
  wt_to x := VClass [VLe32 (er_code x)];
  wt_of v := match v with VClass [VLe32 c] => Some (MkErrorResp c) | _ => None end;
  wt_zero := MkErrorResp zero_le32
|}.

#[export] Program Instance wire_U8Resp : WireType U8Resp := {|
  wt_type := TClass "U8Resp" true [("value", TUint8)];
  wt_to x := VClass [VByte (u8r_value x)];
  wt_of v := match v with VClass [VByte c] => Some (MkU8Resp c) | _ => None end;
  wt_zero := MkU8Resp zero_byte
|}.

#[export] Program Instance wire_U16Resp : WireType U16Resp := {|
  wt_type := TClass "U16Resp" true [("value", TLe16)];
  wt_to x := VClass [VLe16 (u16r_value x)];
  wt_of v := match v with VClass [VLe16 c] => Some (MkU16Resp c) | _ => None end;
  wt_zero := MkU16Resp zero_le16
|}.

#[export] Program Instance wire_I16Resp : WireType I16Resp := {|
  wt_type := TClass "I16Resp" true [("value", TLe16)];
  wt_to x := VClass [VLe16 (i16r_value x)];
  wt_of v := match v with VClass [VLe16 c] => Some (MkI16Resp c) | _ => None end;
  wt_zero := MkI16Resp zero_le16
|}.

#[export] Program Instance wire_I32Resp : WireType I32Resp := {|
  wt_type := TClass "I32Resp" true [("value", TLe32)];
  wt_to x := VClass [VLe32 (i32r_value x)];
  wt_of v := match v with VClass [VLe32 c] => Some (MkI32Resp c) | _ => None end;
  wt_zero := MkI32Resp zero_le32
|}.

#[export] Program Instance wire_OpenNetworkReq : WireType OpenNetworkReq := {|
  wt_type := TClass "OpenNetworkReq" true [("duration", TUint8)];
  wt_to x := VClass [VByte (onr_duration x)];
  wt_of v := match v with VClass [VByte c] => Some (MkOpenNetworkReq c) | _ => None end;
  wt_zero := MkOpenNetworkReq zero_byte
|}.

#[export] Program Instance wire_FindSensorReq : WireType FindSensorReq := {|
  wt_type := TClass "FindSensorReq" true [("short_addr", TLe16)];
  wt_to x := VClass [VLe16 (fsr_short_addr x)];
  wt_of v := match v with VClass [VLe16 c] => Some (MkFindSensorReq c) | _ => None end;
  wt_zero := MkFindSensorReq zero_le16
|}.

#[export] Program Instance wire_zb_addr_t : WireType zb_addr_t := {|
  wt_type := TClass "zb_addr_t" true [("err", TLe32); ("short_addr", TLe16); ("ep", TUint8)];
  wt_to x := VClass [VLe32 (zba_err x); VLe16 (zba_short_addr x); VByte (zba_ep x)];
  wt_of v := match v with
             | VClass [VLe32 a; VLe16 b; VByte c] => Some (MkZbAddr a b c)
             | _ => None
             end;
  wt_zero := MkZbAddr zero_le32 zero_le16 zero_byte
|}.

#[export] Program Instance wire_zb_basic_t : WireType zb_basic_t := {|
  wt_type := TClass "zb_basic_t" true
    [("err", TLe32); ("manufacturer", TArray TChar 16); ("model", TArray TChar 16)];
  wt_to x := VClass [VLe32 (zbb_err x); VArray (vals_of_vec (zbb_manufacturer x));
                     VArray (vals_of_vec (zbb_model x))];
  wt_of v := match v with
             | VClass [VLe32 a; VArray b; VArray c] =>
                 b ← vec_of_vals 16 b; c ← vec_of_vals 16 c; Some (MkZbBasic a b c)
             | _ => None
             end;
  wt_zero := MkZbBasic zero_le32 zero_char16 zero_char16
|}.

#[export] Program Instance wire_zb_temp_t : WireType zb_temp_t := {|
  wt_type := TClass "zb_temp_t" true
    [("err", TLe32); ("measured", TLe16); ("min_measured", TLe16);
     ("max_measured", TLe16); ("tolerance", TLe16)];
  wt_to x := VClass [VLe32 (zbt_err x); VLe16 (zbt_measured x); VLe16 (zbt_min_measured x);
                     VLe16 (zbt_max_measured x); VLe16 (zbt_tolerance x)];
  wt_of v := match v with
             | VClass [VLe32 a; VLe16 b; VLe16 c; VLe16 d; VLe16 e] =>
                 Some (MkZbTemp a b c d e)
             | _ => None
             end;
  wt_zero := MkZbTemp zero_le32 zero_le16 zero_le16 zero_le16 zero_le16
|}.

(** [WireHeader] is written and read as raw memory, without the packed
    attribute; it is a wire type like the others. *)
#[export] Program Instance wire_WireHeader : WireType WireHeader := {|
  wt_type := TClass "WireHeader" false [("magic", TLe32); ("id", TLe32); ("size", TLe32)];
  wt_to x := VClass [VLe32 (wh_magic x); VLe32 (wh_id x); VLe32 (wh_size x)];
  wt_of v := match v with
             | VClass [VLe32 a; VLe32 b; VLe32 c] => Some (MkWireHeader a b c)
             | _ => None
             end;
  wt_zero := MkWireHeader zero_le32 zero_le32 zero_le32
|}.

(** The [static_assert]s on sizes at the end of [protocol.hpp]. *)
Lemma protocol_sizes :
  (wt_size WireHeader, wt_size ErrorResp, wt_size U16Resp, wt_size OpenNetworkReq,
   wt_size FindSensorReq, wt_size zb_addr_t, wt_size zb_basic_t, wt_size zb_temp_t)
  = (12, 4, 2, 1, 2, 7, 36, 12)%nat.
Proof. reflexivity. Qed.
