(* ===== verification/Dump.v ===== *)
(** * The field dump: [DumpBuffer], [dump_array] and [dump_value] of
      zb_rpc_shared/include/zb_rpc/reflection.hpp

    The buffer is the array of 384 [char]s with its fill count; [snprintf]
    writes at the fill count, truncates to the room left and terminates with a
    NUL.  [render] is the specification: the text without any buffer.  The
    dump is the longest prefix of it that fits. *)

From Stdlib Require Import ZArith Lia.
From Stdlib Require Import Strings.Byte.
From stdpp Require Import base tactics list numbers option vector strings.
From S2P Require Import Prelude Protocol Reflection.

(** ** [api_name] *)

Definition api_id_identifiers : list (api_id * string) :=
  [ (id_error, "error"%string); (id_get_short_addr, "get_short_addr"%string);
    (id_get_panid, "get_panid"%string); (id_get_channel, "get_channel"%string);
    (id_open_network, "open_network"%string); (id_wait_annce, "wait_annce"%string);
    (id_find_sensor, "find_sensor"%string); (id_read_basic, "read_basic"%string);
    (id_bind_sensor, "bind_sensor"%string);
    (id_subscribe_sensor, "subscribe_sensor"%string);
    (id_config_report, "config_report"%string); (id_read_temp, "read_temp"%string);
    (id_get_last_temp, "get_last_temp"%string);
    (id_get_sensor_addr, "get_sensor_addr"%string) ].

Fixpoint lookup_identifier (es : list (api_id * string)) (id : api_id) : option string :=
  match es with
  | [] => None
  | (e, nm) :: es => if decide (id = e) then Some nm else lookup_identifier es id
  end.

Definition api_name (id : api_id) : string :=
  default "unknown"%string (lookup_identifier api_id_identifiers id).

(** ** Number formatting of [printf] *)

Definition digit (d : Z) : byte :=
  Z_to_byte (if d <? 10 then 48 + d else 87 + d).

Fixpoint digits (fuel : nat) (base z : Z) (acc : list byte) : list byte :=
  match fuel with
  | O => acc
  | S fuel =>
      let acc := digit (z mod base) :: acc in
      if z <? base then acc else digits fuel base (z / base) acc
  end.

Definition fmt_u (z : Z) : list byte := digits 10 10 z [].

Definition fmt_hex (width : nat) (z : Z) : list byte :=
  let ds := digits 8 16 z [] in replicate (width - length ds) x30 ++ ds.

(** ** [DumpBuffer] *)

Definition dump_capacity : nat := 384.

Record DumpBuffer := MkDumpBuffer { db_data : list byte; db_size : nat }.

Definition empty_dump : DumpBuffer := MkDumpBuffer (replicate dump_capacity x00) 0.

(** [memcpy(data + off, bs, length bs)] *)
Definition write_at (off : nat) (bs data : list byte) : list byte :=
  take off data ++ bs ++ drop (off + length bs) data.

(** [snprintf(data + off, cap, ...)] of an already formatted text: the new
    array and the length the text would have had. *)
Definition snprintf (off cap : nat) (text data : list byte) : list byte * nat :=
  match cap with
  | O => (data, length text)
  | S room => (write_at off (take room text ++ [x00]) data, length text)
  end.

Definition append (text : list byte) (b : DumpBuffer) : DumpBuffer :=
  if (dump_capacity - 1 <=? db_size b)%nat then b
  else
    let '(data, written) :=
      snprintf (db_size b) (dump_capacity - db_size b) text (db_data b) in
    if (0 <? written)%nat then
      let size := (db_size b + written)%nat in
      MkDumpBuffer data (if (dump_capacity <=? size)%nat then dump_capacity - 1 else size)
    else MkDumpBuffer data (db_size b).

(** The characters written so far. *)
Definition dump_text (b : DumpBuffer) : list byte := take (db_size b) (db_data b).

Definition dump_wf (b : DumpBuffer) : Prop :=
  length (db_data b) = dump_capacity /\ (db_size b < dump_capacity)%nat /\
  db_data b !! db_size b = Some x00.

(** ** The dump functions *)

Definition quote : list byte := [x22].

Definition squote : list byte := [x27].

Fixpoint dump_chars (vs : list cval) (b : DumpBuffer) : DumpBuffer :=
  match vs with
  | VByte c :: vs => if decide (c = x00) then b else dump_chars vs (append [c] b)
  | _ => b
  end.

Fixpoint dump_elems (f : cval -> DumpBuffer -> DumpBuffer) (first : bool) (vs : list cval)
    (b : DumpBuffer) : DumpBuffer :=
  match vs with
  | [] => b
  | v :: vs =>
      let b := if first then b else append (lit ", ") b in
      dump_elems f false vs (f v b)
  end.

Definition dump_array (elem : ctype) (dump_elem : cval -> DumpBuffer -> DumpBuffer)
    (vs : list cval) (b : DumpBuffer) : DumpBuffer :=
  match elem with
  | TChar => append quote (dump_chars vs (append quote b))
  | _ => append (lit "]") (dump_elems dump_elem true vs (append (lit "[") b))
  end.

Section DumpMembers.
Context (dump : ctype -> cval -> DumpBuffer -> DumpBuffer).

Definition dump_members : bool -> list (string * ctype) -> list cval -> DumpBuffer -> DumpBuffer :=
  fix go first ms vs b :=
    match ms, vs with
    | m :: ms, v :: vs =>
        let b := if first then b else append (lit ", ") b in
        go false ms vs (dump m.2 v (append (lit m.1 ++ lit "=") b))
    | _, _ => b
    end.
End DumpMembers.

Fixpoint dump_value (t : ctype) (v : cval) (b : DumpBuffer) : DumpBuffer :=
  match t, v with
  | TEmptyReq, _ => append (lit "{}") b
  | TLe32, VLe32 w => append (lit "0x" ++ fmt_hex 8 (from_le32 w)) b
  | TLe16, VLe16 w => append (lit "0x" ++ fmt_hex 4 (from_le16 w)) b
  | TUint8, VByte w => append (fmt_u (byte_to_Z w)) b
  | TChar, VByte w => append (squote ++ [w] ++ squote) b
  | TArray e _, VArray vs => dump_array e (dump_value e) vs b
  | TClass nm _ ms, VClass vs =>
      append (lit " }")
        (dump_members dump_value true ms vs (append (lit nm ++ lit " { ") b))
  | _, _ => b
  end.

(** The string [dump] hands to the log. *)
Definition dump `{WireType T} (x : T) : list byte :=
  dump_text (dump_value (wt_type T) (wt_to x) empty_dump).

(** ** The specification: the unbounded text *)

Fixpoint render_chars (vs : list cval) : list byte :=
  match vs with
  | VByte c :: vs => if decide (c = x00) then [] else c :: render_chars vs
  | _ => []
  end.

Fixpoint render_elems (f : cval -> list byte) (first : bool) (vs : list cval) : list byte :=
  match vs with
  | [] => []
  | v :: vs => (if first then [] else lit ", ") ++ f v ++ render_elems f false vs
  end.

Section RenderMembers.
Context (render : ctype -> cval -> list byte).

Definition render_members : bool -> list (string * ctype) -> list cval -> list byte :=
  fix go first ms vs :=
    match ms, vs with
    | m :: ms, v :: vs =>
        (if first then [] else lit ", ") ++ (lit m.1 ++ lit "=") ++ render m.2 v ++ go false ms vs
    | _, _ => []
    end.
End RenderMembers.

Fixpoint render (t : ctype) (v : cval) : list byte :=
  match t, v with
  | TEmptyReq, _ => lit "{}"
  | TLe32, VLe32 w => lit "0x" ++ fmt_hex 8 (from_le32 w)
  | TLe16, VLe16 w => lit "0x" ++ fmt_hex 4 (from_le16 w)
  | TUint8, VByte w => fmt_u (byte_to_Z w)
  | TChar, VByte w => squote ++ [w] ++ squote
  | TArray e _, VArray vs =>
      match e with
      | TChar => quote ++ render_chars vs ++ quote
      | _ => lit "[" ++ render_elems (render e) true vs ++ lit "]"
      end
  | TClass nm _ ms, VClass vs =>
      (lit nm ++ lit " { ") ++ render_members render true ms vs ++ lit " }"
  | _, _ => []
  end.

(** ** The dump is the longest prefix that fits *)

(** [b] holds the first 383 characters of [s]. *)
Definition holds (b : DumpBuffer) (s : list byte) : Prop :=
  dump_wf b /\ dump_text b = take (dump_capacity - 1) s.

Lemma holds_empty : holds empty_dump [].
Proof. split; [split; [done|split; [cbn; unfold dump_capacity; lia | done]] | done]. Qed.

Lemma length_write_at off bs data :
  (off + length bs <= length data)%nat -> length (write_at off bs data) = length data.
Proof. intros. unfold write_at. autorewrite with zbr_len. lia. Qed.

(** What one [snprintf] at the end of the text [s] leaves in the array. *)
Lemma snprintf_spec room text s data :
  take (length s) data = s -> (length s + S room <= length data)%nat ->
  let data' := write_at (length s) (take room text ++ [x00]) data in
  let n := (length s + min room (length text))%nat in
  length data' = length data /\ take n data' = s ++ take room text /\ data' !! n = Some x00.
Proof.
  intros Hs Hl. set (w := take room text ++ [x00]).
  assert (Hw : length w = (min room (length text) + 1)%nat)
    by (unfold w; autorewrite with zbr_len; cbn; lia).
  cbv zeta. split; [apply length_write_at; lia|].
  unfold write_at. rewrite Hs. split.
  - rewrite app_assoc, take_app_le by (autorewrite with zbr_len; lia).
    unfold w. rewrite app_assoc, take_app_le by (autorewrite with zbr_len; lia).
    apply take_ge. autorewrite with zbr_len. lia.
  - rewrite lookup_app_r, lookup_app_l by lia.
    unfold w. rewrite lookup_app_r by (autorewrite with zbr_len; lia).
    autorewrite with zbr_len. by replace (_ - _)%nat with 0%nat by lia.
Qed.

Lemma holds_not_full b s :
  holds b s -> (db_size b < dump_capacity - 1)%nat ->
  length s = db_size b /\ take (length s) (db_data b) = s.
Proof.
  intros [(Hl & Hs & Hz) Ht] Hroom. unfold dump_text in Ht.
  pose proof (f_equal length Ht) as Hlen. rewrite !length_take, Hl in Hlen.
  unfold dump_capacity in *.
  assert (E : length s = db_size b) by lia. split; [done|].
  rewrite E, Ht. apply take_ge. lia.
Qed.

Lemma append_holds text b s : holds b s -> holds (append text b) (s ++ text).
Proof.
  intros H. pose proof H as [(Hl & Hs & Hz) Ht]. unfold append.
  destruct (Nat.leb_spec (dump_capacity - 1) (db_size b)) as [Hfull|Hroom].
  { split; [done|]. rewrite Ht. unfold dump_text in Ht.
    pose proof (f_equal length Ht) as Hlen. rewrite !length_take, Hl in Hlen.
    rewrite take_app_le; [done|]. unfold dump_capacity in *. lia. }
  destruct (holds_not_full b s H Hroom) as [Hsl Hdata].
  unfold snprintf. destruct (dump_capacity - db_size b)%nat as [|room] eqn:Eroom; [lia|].
  rewrite <- Hsl in *.
  destruct (snprintf_spec room text s (db_data b)) as (Hl' & Ht' & Hz'); [done|lia|].
  rewrite Hl in Hl'.
  destruct (Nat.ltb_spec 0 (length text)) as [Hpos|Hnil].
  - assert (Hsz : (if (dump_capacity <=? length s + length text)%nat then dump_capacity - 1
                   else length s + length text)%nat = (length s + min room (length text))%nat).
    { destruct (Nat.leb_spec dump_capacity (length s + length text)); lia. }
    rewrite Hsz. unfold holds, dump_wf, dump_text; cbn [db_size db_data].
    rewrite Ht', take_app_ge by lia. repeat split; [done|lia|done|].
    f_equal. f_equal. lia.
  - destruct text; [|cbn in Hnil; lia]. cbn [length] in Ht', Hz'.
    rewrite take_nil in *. rewrite Nat.min_0_r, Nat.add_0_r in Ht', Hz'.
    unfold holds, dump_wf, dump_text; cbn [db_size db_data].
    rewrite Ht', !app_nil_r. repeat split; [done|lia|done|].
    symmetry. apply take_ge. lia.
Qed.

#[export] Hint Resolve append_holds holds_empty : zbr.

Lemma dump_chars_holds vs : forall b s, holds b s -> holds (dump_chars vs b) (s ++ render_chars vs).
Proof.
  induction vs as [|v vs IH]; intros b s H; [by rewrite app_nil_r|].
  destruct v as [|b0| | | |]; try (by cbn; rewrite app_nil_r). cbn. case_decide; [by rewrite app_nil_r|].
  change (b0 :: render_chars vs) with ([b0] ++ render_chars vs).
  rewrite app_assoc. auto with zbr.
Qed.

Lemma dump_elems_holds f g vs :
  (forall v b s, holds b s -> holds (f v b) (s ++ g v)) ->
  forall first b s, holds b s -> holds (dump_elems f first vs b) (s ++ render_elems g first vs).
Proof.
  intros Hf. induction vs as [|v vs IH]; intros first b s H; [by rewrite app_nil_r|].
  cbn [dump_elems render_elems]. rewrite !app_assoc. apply IH, Hf.
  destruct first; [by rewrite app_nil_r | auto with zbr].
Qed.

Lemma dump_members_holds ms :
  Forall (fun m => forall v b s, holds b s -> holds (dump_value m.2 v b) (s ++ render m.2 v)) ms ->
  forall first vs b s, holds b s ->
  holds (dump_members dump_value first ms vs b) (s ++ render_members render first ms vs).
Proof.
  intros Hms. induction Hms as [|m ms Hm _ IH]; intros first vs b s H; cbn;
    [by rewrite app_nil_r|].
  destruct vs as [|v vs]; [by rewrite app_nil_r|].
  rewrite !app_assoc. apply IH, Hm. rewrite <- (app_assoc _ (lit m.1)). apply append_holds.
  destruct first; [by rewrite app_nil_r | auto with zbr].
Qed.

Lemma dump_value_holds t : forall v b s,
  holds b s -> holds (dump_value t v b) (s ++ render t v).
Proof.
  induction t as [| | | | | |e n IH|nm pk ms IH|nm sz al] using ctype_ind'; intros v b s H;
    destruct v as [|c|w|w|vs|vs];
    try (by cbn [dump_value render]; rewrite ?app_nil_r; auto with zbr).
  - cbn [dump_value render]. unfold dump_array.
    destruct e; rewrite !app_assoc; apply append_holds;
      first [ by apply dump_chars_holds; auto with zbr
            | apply dump_elems_holds; auto with zbr ].
  - cbn [dump_value render]. rewrite !app_assoc. apply append_holds.
    apply dump_members_holds; [done|]. rewrite <- app_assoc. auto with zbr.
Qed.

Lemma dump_spec `{WireType T} (x : T) :
  dump x = take (dump_capacity - 1) (render (wt_type T) (wt_to x)).
Proof. apply (dump_value_holds _ _ _ [] holds_empty). Qed.

Example dump_addr :
  dump (MkZbAddr (to_le32_s (-1)) (to_le16 0x1956) x0a) =
  lit "zb_addr_t { err=0xffffffff, short_addr=0x1956, ep=10 }".
Proof. reflexivity. Qed.

Example dump_basic :
  dump (MkZbBasic zero_le32 zero_char16 ([#x41; x42] +++ Vector.const x00 14)) =
  lit "zb_basic_t { err=0x00000000, manufacturer=" ++ quote ++ quote ++ lit ", model=" ++
  quote ++ lit "AB" ++ quote ++ lit " }".
Proof. reflexivity. Qed.
