(* ===== verification/Posix.v ===== *)
(** * Stream I/O: [write_all] and [read_all] of zb_rpc_shared/include/zb_rpc/engine.hpp

    The system calls are an interface: [Posix W] gives [::read] and [::write]
    on the connection a world [W] holds, [PosixLaws] the part of their
    documented behaviour the loops need to terminate (no call returns more
    than it was asked for, and a world is interrupted finitely often), and
    [Stream] what a connection without hard errors does with the bytes in
    flight, however it fragments them.  [socket] is an executable connection
    with a schedule of interruptions, short transfers and errors. *)

From Stdlib Require Import ZArith Lia.
From Stdlib Require Import Strings.Byte.
From stdpp Require Import base tactics list numbers option.
From S2P Require Import Prelude.

(** ** The system calls *)

(** [SysOk n]: the call returned [n >= 0]; [SysErr e]: it returned a negative
    number and [errno] is [e]. *)
Inductive sysret (A : Type) :=
  | SysOk (a : A)
  | SysErr (errno : Z).

Arguments SysOk {A} a.
Arguments SysErr {A} errno.

Definition EINTR : Z := 4.
Definition EAGAIN : Z := 11.
Definition EWOULDBLOCK : Z := 11.

(** [sys_read w n] is [::read(fd, buf, n)]: the bytes received, none at the
    end of the stream.  [sys_write w bs] is [::write(fd, bs, length bs)].
    [io_patience] bounds the interruptions still to come. *)
Class Posix (W : Type) := {
  sys_read : W -> nat -> W * sysret (list byte);
  sys_write : W -> list byte -> W * sysret nat;
  io_patience : W -> nat
}.

Class PosixLaws (W : Type) `{Posix W} := {
  read_bounded w n w' bs : sys_read w n = (w', SysOk bs) -> (length bs <= n)%nat;
  write_bounded w bs w' k : sys_write w bs = (w', SysOk k) -> (k <= length bs)%nat;
  read_patience w n w' r : sys_read w n = (w', r) -> (io_patience w' <= io_patience w)%nat;
  write_patience w bs w' r : sys_write w bs = (w', r) -> (io_patience w' <= io_patience w)%nat;
  read_interrupted w n w' :
    sys_read w n = (w', SysErr EINTR) -> (io_patience w' < io_patience w)%nat;
  write_interrupted w bs w' :
    sys_write w bs = (w', SysErr EINTR) -> (io_patience w' < io_patience w)%nat
}.

(** A connection whose calls only ever succeed or are interrupted: [rx] is
    what the peer has sent and nobody has read, [tx] what has been written,
    [rest] the part of the world I/O leaves alone. *)
Class Stream (W : Type) `{Posix W} := {
  world_rest : Type;
  rest : W -> world_rest;
  rx : W -> list byte;
  tx : W -> list byte;
  stream_ok : W -> Prop;
  stream_read w n :
    stream_ok w -> (0 < n <= length (rx w))%nat ->
    exists w', stream_ok w' /\ tx w' = tx w /\ rest w' = rest w /\
      ((sys_read w n = (w', SysErr EINTR) /\ rx w' = rx w) \/
       (exists bs, bs <> [] /\ sys_read w n = (w', SysOk bs) /\ rx w = bs ++ rx w'));
  stream_write w bs :
    stream_ok w -> bs <> [] ->
    exists w', stream_ok w' /\ rx w' = rx w /\ rest w' = rest w /\
      ((sys_write w bs = (w', SysErr EINTR) /\ tx w' = tx w) \/
       (exists k, (0 < k)%nat /\ sys_write w bs = (w', SysOk k) /\ tx w' = tx w ++ take k bs))
}.

(** ** The loops *)

Section Loops.
Context {W : Type} `{Posix W}.

(** One turn of the fuel per system call; [None] is the loop cut short, never
    a result ([write_loop_total]). *)
Fixpoint write_loop (fuel : nat) (w : W) (bytes : list byte) : option (W * bool) :=
  match bytes with
  | [] => Some (w, true)
  | _ =>
      match fuel with
      | O => None
      | S fuel =>
          match sys_write w bytes with
          | (w, SysErr e) =>
              if e =? EINTR then write_loop fuel w bytes else Some (w, false)
          | (w, SysOk O) => Some (w, false)
          | (w, SysOk written) => write_loop fuel w (drop written bytes)
          end
      end
  end.

Definition io_fuel (w : W) (size : nat) : nat := (size + io_patience w)%nat.

Definition write_all (w : W) (data : list byte) : W * bool :=
  default (w, false) (write_loop (io_fuel w (length data)) w data).

(** [acc] is the part of the caller's object already filled. *)
Fixpoint read_loop (fuel : nat) (w : W) (size : nat) (acc : list byte)
    : option (W * option (list byte)) :=
  match size with
  | O => Some (w, Some acc)
  | _ =>
      match fuel with
      | O => None
      | S fuel =>
          match sys_read w size with
          | (w, SysErr e) =>
              if e =? EINTR then read_loop fuel w size acc else Some (w, None)
          | (w, SysOk []) => Some (w, None)
          | (w, SysOk received) =>
              read_loop fuel w (size - length received) (acc ++ received)
          end
      end
  end.

(** [None]: [read_all] returned false; [Some bs]: it returned true and [bs]
    is the object read. *)
Definition read_all (w : W) (size : nat) : W * option (list byte) :=
  default (w, None) (read_loop (io_fuel w size) w size []).

Section Termination.
Context `{!PosixLaws W}.

Lemma write_loop_total fuel : forall w bytes,
  (io_fuel w (length bytes) <= fuel)%nat -> is_Some (write_loop fuel w bytes).
Proof.
  unfold io_fuel. induction fuel as [|fuel IH]; intros w [|b bytes] Hf;
    cbn [write_loop length] in *; eauto; [lia|].
  destruct (sys_write w (b :: bytes)) as [w' [[|k]|e]] eqn:E; [eauto| |].
  - apply write_patience in E as Hp. apply write_bounded in E. cbn in E.
    apply IH. rewrite length_drop. cbn. lia.
  - case_bool; [subst|eauto]. apply write_interrupted in E. apply IH. cbn. lia.
Qed.

Lemma read_loop_total fuel : forall w size acc,
  (io_fuel w size <= fuel)%nat -> is_Some (read_loop fuel w size acc).
Proof.
  unfold io_fuel. induction fuel as [|fuel IH]; intros w [|size] acc Hf;
    cbn [read_loop] in *; eauto; [lia|].
  destruct (sys_read w (S size)) as [w' [[|b bs]|e]] eqn:E; [eauto| |].
  - apply read_patience in E as Hp. apply IH. cbn. lia.
  - case_bool; [subst|eauto]. apply read_interrupted in E. apply IH. lia.
Qed.

(** Whatever the connection does, a successful [read_all] filled the object. *)
Lemma read_loop_length fuel : forall w size acc w' bs,
  read_loop fuel w size acc = Some (w', Some bs) -> length bs = (length acc + size)%nat.
Proof.
  induction fuel as [|fuel IH]; intros w [|size] acc w' bs Hr; cbn in Hr; simplify_eq;
    try lia.
  destruct (sys_read w (S size)) as [w1 [[|b bs']|e]] eqn:E; simplify_eq.
  - apply read_bounded in E. apply IH in Hr. rewrite length_app in Hr. cbn in *. lia.
  - case_bool; simplify_eq. eauto.
Qed.

Lemma read_all_length w size w' bs : read_all w size = (w', Some bs) -> length bs = size.
Proof.
  unfold read_all. destruct (read_loop _ w size []) as [[? ?]|] eqn:E; cbn; intros [= -> ->].
  by apply read_loop_length in E.
Qed.
End Termination.

(** ** On a stream the loops transfer exactly the bytes asked for *)

Section OnStream.
Context `{!PosixLaws W, !Stream W}.

(** The worlds [w] and [w'] differ only in the bytes in flight. *)
Definition io_step (w w' : W) (rx' tx' : list byte) : Prop :=
  stream_ok w' /\ rx w' = rx' /\ tx w' = tx' /\ rest w' = rest w.

Lemma io_step_refl w : stream_ok w -> io_step w w (rx w) (tx w).
Proof. by unfold io_step. Qed.

Lemma write_loop_stream fuel : forall w bytes w' r,
  stream_ok w -> write_loop fuel w bytes = Some (w', r) ->
  r = true /\ io_step w w' (rx w) (tx w ++ bytes).
Proof.
  unfold io_step. induction fuel as [|fuel IH]; intros w [|b bytes] w' r Hok Hw;
    cbn [write_loop] in Hw; simplify_eq; try (by rewrite app_nil_r).
  destruct (stream_write w (b :: bytes) Hok) as (w1 & Hok1 & Hrx & Hre & [[E Htx]|(k & Hk & E & Htx)]);
    [done| |]; rewrite E in Hw.
  - apply IH in Hw; [|done]. by rewrite Hrx, Htx, Hre in Hw.
  - destruct k as [|k]; [lia|]. apply IH in Hw; [|done].
    by rewrite Hrx, Htx, Hre, <- app_assoc, take_drop in Hw.
Qed.

Lemma write_all_stream w bytes :
  stream_ok w ->
  exists w', write_all w bytes = (w', true) /\ io_step w w' (rx w) (tx w ++ bytes).
Proof.
  intros Hok. unfold write_all.
  destruct (write_loop_total (io_fuel w (length bytes)) w bytes) as [[w' r] E]; [lia|].
  rewrite E. destruct (write_loop_stream _ _ _ _ _ Hok E) as [-> ?]. eauto.
Qed.

Lemma read_loop_stream fuel : forall w size acc w' r,
  stream_ok w -> (size <= length (rx w))%nat -> read_loop fuel w size acc = Some (w', r) ->
  r = Some (acc ++ take size (rx w)) /\ io_step w w' (drop size (rx w)) (tx w).
Proof.
  unfold io_step. induction fuel as [|fuel IH]; intros w [|size] acc w' r Hok Hl Hr;
    cbn [read_loop] in Hr; simplify_eq; try (by rewrite app_nil_r).
  destruct (stream_read w (S size) Hok)
    as (w1 & Hok1 & Htx & Hre & [[E Hrx]|(bs & Hbs & E & Hrx)]); [lia| |]; rewrite E in Hr.
  - apply IH in Hr; [|done|by rewrite Hrx]. by rewrite Hrx, Htx, Hre in Hr.
  - apply read_bounded in E. destruct bs as [|b bs]; [done|].
    rewrite Hrx, length_app in Hl.
    apply IH in Hr; [|done|lia]. rewrite Htx, Hre, <- app_assoc in Hr.
    rewrite Hrx, take_app_ge, drop_app_ge by lia. by rewrite app_assoc, <- app_assoc.
Qed.

Lemma read_all_stream w size :
  stream_ok w -> (size <= length (rx w))%nat ->
  exists w', read_all w size = (w', Some (take size (rx w))) /\
             io_step w w' (drop size (rx w)) (tx w).
Proof.
  intros Hok Hl. unfold read_all.
  destruct (read_loop_total (io_fuel w size) w size []) as [[w' r] E]; [lia|].
  rewrite E. destruct (read_loop_stream _ _ _ _ _ _ Hok Hl E) as [-> ?]. eauto.
Qed.
End OnStream.
End Loops.

(** ** An executable connection *)

(** What the next call does: be interrupted, fail with [errno], or transfer at
    most [S n] bytes.  Past the end of the schedule a call transfers all it
    can.  Reading with nothing left in [so_rx] is the end of the stream. *)
Inductive sys_event :=
  | EvIntr
  | EvFail (errno : Z)
  | EvChunk (n : nat).

Record socket := MkSocket {
  so_rx : list byte;
  so_tx : list byte;
  so_sched : list sys_event
}.

Definition socket_transfer (s : socket) (n : nat) : socket * sysret nat :=
  match so_sched s with
  | [] => (s, SysOk n)
  | EvIntr :: es => (MkSocket (so_rx s) (so_tx s) es, SysErr EINTR)
  | EvFail e :: es => (MkSocket (so_rx s) (so_tx s) es, SysErr e)
  | EvChunk k :: es => (MkSocket (so_rx s) (so_tx s) es, SysOk (min (S k) n))
  end.

Definition socket_read (s : socket) (n : nat) : socket * sysret (list byte) :=
  match socket_transfer s n with
  | (s, SysOk k) =>
      (MkSocket (drop k (so_rx s)) (so_tx s) (so_sched s), SysOk (take k (so_rx s)))
  | (s, SysErr e) => (s, SysErr e)
  end.

Definition socket_write (s : socket) (bs : list byte) : socket * sysret nat :=
  match socket_transfer s (length bs) with
  | (s, SysOk k) =>
      (MkSocket (so_rx s) (so_tx s ++ take k bs) (so_sched s), SysOk k)
  | (s, SysErr e) => (s, SysErr e)
  end.

Definition event_ok (e : sys_event) : Prop :=
  match e with EvFail _ => False | _ => True end.

Definition socket_ok (s : socket) : Prop := Forall event_ok (so_sched s).

#[export] Instance socket_posix : Posix socket := {|
  sys_read := socket_read;
  sys_write := socket_write;
  io_patience s := length (so_sched s)
|}.

#[local] Opaque Nat.min.

Ltac unfold_socket :=
  unfold socket_read, socket_write, socket_transfer in *; cbn -[take drop] in *.

#[export] Instance socket_posix_laws : PosixLaws socket.
Proof.
  split; cbn; intros [rx tx [|[|e|k] es]]; intros; unfold_socket; simplify_eq;
    rewrite ?length_take; cbn; lia.
Qed.

#[export] Program Instance socket_stream : Stream socket := {|
  world_rest := unit;
  rest _ := tt;
  rx := so_rx;
  tx := so_tx;
  stream_ok := socket_ok
|}.
Next Obligation.
  intros s n Hok Hn; unfold socket_ok in *. exists (socket_read s n).1.
  destruct s as [rx tx [|[|e|k] es]]; unfold_socket; [| |by inversion Hok|].
  - repeat split; [done|]. right. exists (take n rx).
    split; [rewrite nonempty_length, length_take; lia | by rewrite take_drop].
  - apply Forall_inv_tail in Hok. repeat split; [done|]. by left.
  - apply Forall_inv_tail in Hok. repeat split; [done|]. right.
    exists (take (min (S k) n) rx).
    split; [rewrite nonempty_length, length_take; lia | by rewrite take_drop].
Qed.
Next Obligation.
  intros s bs Hok Hn%nonempty_length; unfold socket_ok in *. exists (socket_write s bs).1.
  destruct s as [rx tx [|[|e|k] es]]; unfold_socket; [| |by inversion Hok|].
  - repeat split; [done|]. right. eauto.
  - apply Forall_inv_tail in Hok. repeat split; [done|]. by left.
  - apply Forall_inv_tail in Hok. repeat split; [done|]. right.
    eexists. split; [|split; reflexivity]. lia.
Qed.

(** A 12-byte object arriving in pieces of 3, 1 and the rest, with an
    interruption in between. *)
Example read_all_fragmented :
  let bs := replicate 12 x41 in
  (read_all (MkSocket bs [] [EvChunk 2; EvIntr; EvChunk 0]) 12).2 = Some bs.
Proof. reflexivity. Qed.

(** ** Connections inside larger worlds *)

(** A world whose calls are those of a connection [C], at a moment that has
    no more interruptions to come, keeps its laws. *)
Lemma posix_laws_over {W C} `{Posix W, Posix C, !PosixLaws C} :
  (forall (w : W) n w' r, sys_read w n = (w', r) -> exists c c' : C,
     (io_patience c <= io_patience w)%nat /\ sys_read c n = (c', r) /\ io_patience w' = io_patience c') ->
  (forall (w : W) bs w' r, sys_write w bs = (w', r) -> exists c c' : C,
     (io_patience c <= io_patience w)%nat /\ sys_write c bs = (c', r) /\ io_patience w' = io_patience c') ->
  PosixLaws W.
Proof.
  intros Hr Hw. split; intros *; [intros (c & c' & Hp & Hc & Hp')%Hr|intros (c & c' & Hp & Hc & Hp')%Hw
    |intros (c & c' & Hp & Hc & Hp')%Hr|intros (c & c' & Hp & Hc & Hp')%Hw
    |intros (c & c' & Hp & Hc & Hp')%Hr|intros (c & c' & Hp & Hc & Hp')%Hw]; rewrite ?Hp'.
  - by apply read_bounded in Hc.
  - by apply write_bounded in Hc.
  - apply read_patience in Hc. lia.
  - apply write_patience in Hc. lia.
  - apply read_interrupted in Hc. lia.
  - apply write_interrupted in Hc. lia.
Qed.

(** Where the connection is the component [c] of the world and [op] runs its
    operations there. *)
Tactic Notation "posix_component" constr(c) reference(op) :=
  let w := fresh "w" in let Hc := fresh "Hc" in
  lazymatch type of c with _ -> ?C => apply (posix_laws_over (C := C)) end;
  intros w *; intros Hc; exists (c w); revert Hc; cbn -[socket_read socket_write]; unfold op;
  match goal with |- context [let '(_, _) := ?m in _] => destruct m eqn:? end;
  intros Hc; simplify_eq; by eexists.
