(* ===== verification/Sockets.v ===== *)
(** * Resources a program holds, and the sockets calls it obtains them with

    Held descriptors, blocks and threads, for all components; then the part of
    the sockets API that rpc_server.cpp, zb_rpc/sock.hpp and main.cpp use. *)

From Stdlib Require Import ZArith Lia Strings.String.
From stdpp Require Import base tactics list numbers option gmap countable.
From S2P Require Import Prelude Posix.

(** * Descriptors, blocks and threads a program holds

    [held w] is the set of resources the program has obtained from its
    environment in the world [w] and not given back: open descriptors,
    allocated blocks, running threads, protocol control blocks.  The
    operations that obtain and return them are interfaces of the components;
    the specifications here are what their laws and the theorems about the
    code that uses them are stated with.  A law for an operation on a resource
    asks that the resource is held, so code that uses one after giving it back
    cannot be proved. *)

Inductive res_kind :=
  | KFd
  | KBlock
  | KThread
  | KSem
  | KPcb.

#[export] Instance res_kind_eq_dec : EqDecision res_kind.
Proof. solve_decision. Defined.

Definition res_kind_code (k : res_kind) : Z :=
  match k with KFd => 0 | KBlock => 1 | KThread => 2 | KSem => 3 | KPcb => 4 end.

Definition res_kind_of (z : Z) : res_kind :=
  if z =? 0 then KFd else if z =? 1 then KBlock else if z =? 2 then KThread
  else if z =? 3 then KSem else KPcb.

#[export] Instance res_kind_countable : Countable res_kind.
Proof. apply (inj_countable' res_kind_code res_kind_of). by intros []. Defined.

(** A resource: its kind, and its descriptor number or address. *)
Definition res : Type := res_kind * Z.

Definition Fd (fd : Z) : res := (KFd, fd).
Definition Block (p : Z) : res := (KBlock, p).
Definition Thread (t : Z) : res := (KThread, t).
Definition Sem (m : Z) : res := (KSem, m).
Definition Pcb (p : Z) : res := (KPcb, p).

Class Ledger (W : Type) := held : W -> gset res.

Section Specs.
Context {W : Type} `{Ledger W}.
Implicit Types R : gset res.

(** The program holds exactly [R]. *)
Definition owns R (w : W) : Prop := held w = R.

(** [m] returns with what it was called with. *)
Definition balanced {A} (m : St W A) : Prop := forall R, hoare (owns R) m (fun _ => owns R).

(** The same, when [r] is held. *)
Definition borrows {A} (r : res) (m : St W A) : Prop :=
  forall R, r ∈ R -> hoare (owns R) m (fun _ => owns R).

(** [m] returns a new resource of the kind [k], or fails with a negative
    number ([obtains]) or the null pointer ([allocates]). *)
Definition obtains (k : res_kind) (m : St W Z) : Prop :=
  forall R, hoare (owns R) m (fun n w =>
    (n < 0 /\ owns R w) \/ (0 <= n /\ (k, n) ∉ R /\ owns ({[(k, n)]} ∪ R) w)).

Definition allocates (k : res_kind) (m : St W Z) : Prop :=
  forall R, hoare (owns R) m (fun n w =>
    (n = 0 /\ owns R w) \/ (n <> 0 /\ (k, n) ∉ R /\ owns ({[(k, n)]} ∪ R) w)).

(** [m] gives [r] back. *)
Definition returns {A} (r : res) (m : St W A) : Prop :=
  forall R, r ∈ R -> hoare (owns R) m (fun _ => owns (R ∖ {[r]})).

Lemma balanced_ret {A} (a : A) : balanced (mret a).
Proof. intros R w Hw. exact Hw. Qed.

Lemma balanced_bind {A B} (m : St W A) (k : A -> St W B) :
  balanced m -> (forall a, balanced (k a)) -> balanced (m ≫= k).
Proof. intros Hm Hk R. eapply hoare_bind; [apply Hm|]. intros a. apply Hk. Qed.

Lemma balanced_gets {A} (f : W -> A) : balanced (gets f).
Proof. intros R w Hw. exact Hw. Qed.

Lemma balanced_if {A} (b : bool) (m m' : St W A) :
  balanced m -> balanced m' -> balanced (if b then m else m').
Proof. intros Hm Hm'. destruct b; [exact Hm|exact Hm']. Qed.

Lemma balanced_borrows {A} r (m : St W A) : balanced m -> borrows r m.
Proof. intros Hm R _. apply Hm. Qed.

(** ** Steps of a proof about what a program holds *)

Context {B : Type}.
Implicit Types Q : B -> W -> Prop.

Lemma own_step {A} R Q (m : St W A) (k : A -> St W B) :
  balanced m -> (forall a, hoare (owns R) (k a) Q) -> hoare (owns R) (m ≫= k) Q.
Proof. intros Hm Hk. eapply hoare_bind; [apply Hm|done]. Qed.

Lemma own_use {A} r R Q (m : St W A) (k : A -> St W B) :
  borrows r m -> r ∈ R -> (forall a, hoare (owns R) (k a) Q) -> hoare (owns R) (m ≫= k) Q.
Proof. intros Hm Hr Hk. eapply hoare_bind; [by apply Hm|done]. Qed.

Lemma own_obtain_at kd R Q (m : St W Z) (k : Z -> St W B) :
  hoare (owns R) m (fun n w =>
    (n < 0 /\ owns R w) \/ (0 <= n /\ (kd, n) ∉ R /\ owns ({[(kd, n)]} ∪ R) w)) ->
  (forall n, n < 0 -> hoare (owns R) (k n) Q) ->
  (forall n, 0 <= n -> (kd, n) ∉ R -> hoare (owns ({[(kd, n)]} ∪ R)) (k n) Q) ->
  hoare (owns R) (m ≫= k) Q.
Proof.
  intros Hm Hf Hs. eapply hoare_bind; [apply Hm|]. cbn.
  intros n w [[Hn Hw]|(Hn & Hni & Hw)]; [by apply Hf|by apply Hs].
Qed.

Lemma own_obtain kd R Q (m : St W Z) (k : Z -> St W B) :
  obtains kd m ->
  (forall n, n < 0 -> hoare (owns R) (k n) Q) ->
  (forall n, 0 <= n -> (kd, n) ∉ R -> hoare (owns ({[(kd, n)]} ∪ R)) (k n) Q) ->
  hoare (owns R) (m ≫= k) Q.
Proof. intros Hm. apply own_obtain_at, Hm. Qed.

Lemma own_alloc kd R Q (m : St W Z) (k : Z -> St W B) :
  allocates kd m ->
  hoare (owns R) (k 0) Q ->
  (forall n, n <> 0 -> (kd, n) ∉ R -> hoare (owns ({[(kd, n)]} ∪ R)) (k n) Q) ->
  hoare (owns R) (m ≫= k) Q.
Proof.
  intros Hm Hf Hs. eapply hoare_bind; [apply Hm|]. cbn.
  intros n w [[-> Hw]|(Hn & Hni & Hw)]; [by apply Hf|by apply Hs].
Qed.

Lemma own_return {A} r R Q (m : St W A) (k : A -> St W B) :
  returns r m -> r ∉ R -> (forall a, hoare (owns R) (k a) Q) ->
  hoare (owns ({[r]} ∪ R)) (m ≫= k) Q.
Proof.
  intros Hm Hr Hk. eapply hoare_bind; [apply Hm; set_solver|]. intros a w Hw.
  apply Hk. unfold owns in *. set_solver.
Qed.

Lemma own_ret R Q (b : B) : (forall w, owns R w -> Q b w) -> hoare (owns R) (mret b) Q.
Proof. intros HQ w Hw. by apply HQ. Qed.

Lemma own_gets {A} R Q (f : W -> A) (k : A -> St W B) :
  (forall a, hoare (owns R) (k a) Q) -> hoare (owns R) (gets f ≫= k) Q.
Proof. intros Hk w Hw. by apply Hk. Qed.

Lemma own_assoc {A C} R Q (m : St W A) (f : A -> St W C) (k : C -> St W B) :
  hoare (owns R) (m ≫= fun a => f a ≫= k) Q -> hoare (owns R) ((m ≫= f) ≫= k) Q.
Proof.
  intros Hm w Hw. specialize (Hm w Hw). unfold mbind, St_bind in *. by destruct (m w).
Qed.

Lemma own_ret_bind {A} R Q (a : A) (k : A -> St W B) :
  hoare (owns R) (k a) Q -> hoare (owns R) (mret a ≫= k) Q.
Proof. done. Qed.

Lemma own_if R Q (b : bool) (m m' : St W B) :
  (b = true -> hoare (owns R) m Q) -> (b = false -> hoare (owns R) m' Q) ->
  hoare (owns R) (if b then m else m') Q.
Proof. destruct b; auto. Qed.
End Specs.

Lemma hoare_owns_balanced {W A} `{Ledger W} (m : St W A) :
  (forall R, hoare (owns R) m (fun _ => owns R)) -> balanced m.
Proof. done. Qed.

(** The facts about which operations are [balanced] and which [borrow] are
    hints of [own]. *)
Create HintDb own discriminated.
#[export] Hint Resolve balanced_ret balanced_gets balanced_if : own.
#[export] Hint Extern 1 (balanced (_ ≫= _)) => apply balanced_bind; [|intros ?] : own.

(** Walks through a program, closing the steps the laws in [own] cover. *)
Ltac own_step1 :=
  match goal with
  | |- hoare (owns _) (mret _) _ => apply own_ret; intros
  | |- hoare (owns _) (gets _ ≫= _) _ => apply own_gets; intros
  | |- hoare (owns _) (mret _ ≫= _) _ => apply own_ret_bind
  | |- hoare (owns _) ((_ ≫= _) ≫= _) _ => apply own_assoc
  | |- hoare (owns _) (if _ then _ else _) _ => apply own_if; intros
  | |- hoare (owns _) ((if ?b then _ else _) ≫= _) _ => destruct b eqn:?
  | |- hoare (owns _) (match ?x with Some _ => _ | None => _ end) _ => destruct x eqn:?
  | |- hoare (owns _) (_ ≫= _) _ =>
      first
        [ eapply own_step; [solve [eauto 3 with own]|intros ?]
        | eapply own_use; [solve [eauto 3 with own]|set_solver|intros ?]
        | eapply own_return; [solve [eauto 3 with own]|set_solver|intros ?]
        | eapply own_obtain; [solve [eauto 3 with own]|intros ? ?|intros ? ? ?]
        | eapply own_alloc; [solve [eauto 3 with own]| |intros ? ? ?] ]
  end.

Ltac own_steps := repeat own_step1.

(** * Sockets: the calls of rpc_server.cpp, zb_rpc/sock.hpp and main.cpp

    [Sockets W] is the part of the sockets API the three files use, each call
    a state transition that returns what the C function returns; [errno] is a
    component of the world.  [SocketLaws] is what they rely on: descriptors
    come from [socket] and [accept] and are given back by [close]. *)

Definition EINPROGRESS : Z := 115.
Definition INADDR_ANY : Z := 0.
Definition IPPROTO_IP : Z := 0.
Definition IPPROTO_TCP : Z := 6.
Definition SHUT_RDWR : Z := 2.

(** [sin_family] is [AF_INET] throughout; [sin_addr] is in network order, as
    [inet_pton] stores it. *)
Record sockaddr_in := MkSockaddr { sin_port : Z; sin_addr : Z }.

Inductive sockopt :=
  | SO_REUSEADDR (on : Z)
  | SO_RCVTIMEO (sec usec : Z)
  | SO_SNDTIMEO (sec usec : Z).

Class Sockets (W : Type) := {
  (** [socket(AF_INET, SOCK_STREAM, protocol)] *)
  sys_socket : Z -> St W Z;
  sys_setsockopt : Z -> sockopt -> St W Z;
  sys_bind : Z -> sockaddr_in -> St W Z;
  sys_listen : Z -> Z -> St W Z;
  (** The peer's address is only logged. *)
  sys_accept : Z -> St W Z;
  sys_connect : Z -> sockaddr_in -> St W Z;
  sys_shutdown : Z -> Z -> St W Z;
  sys_close : Z -> St W Z;
  errno : W -> Z;
  (** [None] is any result but 1. *)
  inet_pton : string -> option Z;
  htons : Z -> Z;
  htonl : Z -> Z
}.

Class SocketLaws (W : Type) `{Sockets W, Ledger W} : Prop := {
  socket_obtains p : obtains KFd (sys_socket p);
  accept_obtains l R :
    Fd l ∈ R -> hoare (owns R) (sys_accept l) (fun n w =>
      (n < 0 /\ owns R w) \/ (0 <= n /\ Fd n ∉ R /\ owns ({[Fd n]} ∪ R) w));
  setsockopt_borrows fd o : borrows (Fd fd) (sys_setsockopt fd o);
  bind_borrows fd a : borrows (Fd fd) (sys_bind fd a);
  listen_borrows fd n : borrows (Fd fd) (sys_listen fd n);
  connect_borrows fd a : borrows (Fd fd) (sys_connect fd a);
  shutdown_borrows fd how : borrows (Fd fd) (sys_shutdown fd how);
  close_returns fd : returns (Fd fd) (sys_close fd)
}.

#[export] Hint Resolve socket_obtains setsockopt_borrows bind_borrows listen_borrows
  connect_borrows shutdown_borrows close_returns : own.

Section Host.
Context {W : Type} `{Sockets W}.

(** ** zb_rpc/include/zb_rpc/sock.hpp *)

Definition rpc_listen (host : string) (port : Z) : St W Z :=
  fd ← sys_socket 0;
  if fd <? 0 then mret (-1)
  else
    sys_setsockopt fd (SO_REUSEADDR 1);;
    match inet_pton host with
    | None => sys_close fd;; mret (-1)
    | Some a =>
        r ← sys_bind fd (MkSockaddr (htons port) a);
        if r <? 0 then sys_close fd;; mret (-1)
        else
          r ← sys_listen fd 1;
          if r <? 0 then sys_close fd;; mret (-1)
          else mret fd
    end.

Definition rpc_accept (listen_fd : Z) : St W Z :=
  fd ← sys_accept listen_fd;
  mret fd.

Definition rpc_connect (host : string) (port : Z) : St W Z :=
  fd ← sys_socket 0;
  if fd <? 0 then mret (-1)
  else
    match inet_pton host with
    | None => sys_close fd;; mret (-1)
    | Some a =>
        r ← sys_connect fd (MkSockaddr (htons port) a);
        if r <? 0 then sys_close fd;; mret (-1)
        else mret fd
    end.

(** ** [set_listener_timeout] and [create_listener] of rpc_server.cpp *)

Definition k_socket_poll_seconds : Z := 1.

Definition set_listener_timeout (socket_fd : Z) : St W unit :=
  sys_setsockopt socket_fd (SO_RCVTIMEO k_socket_poll_seconds 0);;
  sys_setsockopt socket_fd (SO_SNDTIMEO k_socket_poll_seconds 0);;
  mret tt.

(** [port] is [CONFIG_PPP_TCP_SERVER_PORT]; the second operand of [||] is
    only evaluated when [bind] succeeded. *)
Definition create_listener (port : Z) : St W Z :=
  let address := MkSockaddr (htons port) (htonl INADDR_ANY) in
  listener ← sys_socket IPPROTO_IP;
  if listener <? 0 then mret (-1)
  else
    sys_setsockopt listener (SO_REUSEADDR 1);;
    set_listener_timeout listener;;
    r ← sys_bind listener address;
    failed ← (if negb (r =? 0) then mret true
              else r ← sys_listen listener 1; mret (negb (r =? 0)));
    if (failed : bool) then sys_close listener;; mret (-1)
    else mret listener.

Section Laws.
Context `{Ledger W, !SocketLaws W}.

Lemma set_listener_timeout_borrows fd : borrows (Fd fd) (set_listener_timeout fd).
Proof. intros R HR. unfold set_listener_timeout. by own_steps. Qed.

(** Each of the three returns a descriptor it opened or -1, and then has
    closed what it opened. *)
Lemma create_listener_obtains port : obtains KFd (create_listener port).
Proof.
  intros R. unfold create_listener. cbv zeta. pose proof set_listener_timeout_borrows.
  own_steps; cbn; auto with lia.
Qed.

Lemma rpc_listen_obtains host port : obtains KFd (rpc_listen host port).
Proof.
  intros R. unfold rpc_listen. destruct (inet_pton host); own_steps; cbn; auto with lia.
Qed.

Lemma rpc_connect_obtains host port : obtains KFd (rpc_connect host port).
Proof.
  intros R. unfold rpc_connect. destruct (inet_pton host); own_steps; cbn; auto with lia.
Qed.

Lemma rpc_accept_obtains l R :
  Fd l ∈ R -> hoare (owns R) (rpc_accept l) (fun n w =>
    (n < 0 /\ owns R w) \/ (0 <= n /\ Fd n ∉ R /\ owns ({[Fd n]} ∪ R) w)).
Proof.
  intros Hl. eapply hoare_bind; [by apply accept_obtains|]. intros n w Hw. exact Hw.
Qed.
End Laws.
End Host.
