(* ===== verification/Engine.v ===== *)
(** * The frame engine: [Engine], [call] and [invoke_one] of
      zb_rpc_shared/include/zb_rpc/engine.hpp

    An [Engine W] is the connection (the world [W] it lives in) and the error
    recorded last.  A method that returns [bool] and fills a reference
    returns an option instead; log output is left out.  [Section Engine]
    holds the methods, [Section OnStream] what they do on a connection
    without hard errors, however the bytes are fragmented. *)

From Stdlib Require Import ZArith Lia.
From Stdlib Require Import Strings.Byte.
From stdpp Require Import base tactics list numbers option.
From S2P Require Import Prelude Protocol Reflection Posix.

Record Engine (W : Type) := MkEngine { fd_ : W; last_error_ : error_code }.

Arguments MkEngine {W} _ _.
Arguments fd_ {W} _.
Arguments last_error_ {W} _.

(** [explicit Engine(int fd)] *)
Definition new_engine {W} (w : W) : Engine W := MkEngine w ec_none.

(** ** Descriptors: [rpc_desc<Id, Req, Resp>] *)

Record rpc_desc := RpcDesc {
  d_id : api_id;
  d_req : Type;
  d_resp : Type;
  d_wire_req : WireType d_req;
  d_wire_resp : WireType d_resp
}.

Arguments RpcDesc d_id d_req d_resp {_ _}.

#[export] Existing Instance d_wire_req.
#[export] Existing Instance d_wire_resp.

Module desc.
Definition get_short_addr := RpcDesc id_get_short_addr EmptyReq U16Resp.
Definition get_panid := RpcDesc id_get_panid EmptyReq U16Resp.
Definition get_channel := RpcDesc id_get_channel EmptyReq U8Resp.
Definition open_network := RpcDesc id_open_network OpenNetworkReq I32Resp.
Definition wait_annce := RpcDesc id_wait_annce EmptyReq U16Resp.
Definition find_sensor := RpcDesc id_find_sensor FindSensorReq zb_addr_t.
Definition read_basic := RpcDesc id_read_basic zb_addr_t zb_basic_t.
Definition bind_sensor := RpcDesc id_bind_sensor zb_addr_t I32Resp.
Definition subscribe_sensor := RpcDesc id_subscribe_sensor zb_addr_t I32Resp.
Definition config_report := RpcDesc id_config_report zb_addr_t I32Resp.
Definition read_temp := RpcDesc id_read_temp zb_addr_t zb_temp_t.
Definition get_last_temp := RpcDesc id_get_last_temp EmptyReq I16Resp.
Definition get_sensor_addr := RpcDesc id_get_sensor_addr EmptyReq U16Resp.
End desc.

Inductive invoke_result :=
  | no_match
  | handled
  | failed.

#[export] Instance invoke_result_eq_dec : EqDecision invoke_result.
Proof. solve_decision. Defined.

Section Engine.
Context {W : Type} `{Posix W}.
Implicit Types e : Engine W.

Definition receive_header e : Engine W * option FrameHeader :=
  let '(w, r) := read_all (fd_ e) (wt_size WireHeader) in
  match r with
  | None => (MkEngine w ec_none, None)
  | Some bs =>
      let wire := default (wt_zero WireHeader) (decode bs) in
      if negb (from_le32 (wh_magic wire) =? k_magic)
      then (MkEngine w ec_bad_magic, None)
      else
        let header := MkFrameHeader (api_id_of_u32 (from_le32 (wh_id wire)))
                                    (from_le32 (wh_size wire)) in
        if k_max_payload <? fh_size header
        then (MkEngine w ec_oversized_payload, None)
        else (MkEngine w ec_none, Some header)
  end.

Definition receive_payload (T : Type) `{WireType T} e (header : FrameHeader)
    : Engine W * option T :=
  if is_empty_req T then
    if negb (fh_size header =? 0)
    then (MkEngine (fd_ e) ec_payload_mismatch, None)
    else (e, Some (wt_zero T))
  else if negb (fh_size header =? Z.of_nat (wt_size T))
  then (MkEngine (fd_ e) ec_payload_mismatch, None)
  else
    let '(w, r) := read_all (fd_ e) (wt_size T) in
    (MkEngine w (last_error_ e), bs ← r; decode bs).

(** [bool send(api_id id)] *)
Definition send_id e (id : api_id) : Engine W * bool :=
  let header := MkWireHeader (to_le32 k_magic) (to_le32 (api_id_to_u32 id)) (to_le32 0) in
  let '(w, ok) := write_all (fd_ e) (encode header) in
  (MkEngine w (last_error_ e), ok).

(** [template <typename T> bool send(api_id id, const T &payload)] *)
Definition send {T : Type} `{WireType T} e (id : api_id) (payload : T) : Engine W * bool :=
  if is_empty_req T then send_id e id
  else
    let header := MkWireHeader (to_le32 k_magic) (to_le32 (api_id_to_u32 id))
                               (to_le32 (Z.of_nat (wt_size T))) in
    let '(w, ok) := write_all (fd_ e) (encode header) in
    if ok then
      let '(w, ok) := write_all w (encode payload) in
      (MkEngine w (last_error_ e), ok)
    else (MkEngine w (last_error_ e), false).

Definition send_error e (code : error_code) : Engine W * bool :=
  send e id_error (MkErrorResp (to_le32 (error_code_to_u32 code))).

(** The loop of [discard_payload]: each turn reads at most 32 bytes, so
    [size] turns are enough ([discard_loop_total]). *)
Definition discard_buffer : Z := 32.

Fixpoint discard_loop (fuel : nat) (w : W) (size : Z) : option (W * bool) :=
  if 0 <? size then
    match fuel with
    | O => None
    | S fuel =>
        let chunk := if size <? discard_buffer then size else discard_buffer in
        match read_all w (Z.to_nat chunk) with
        | (w, None) => Some (w, false)
        | (w, Some _) => discard_loop fuel w (u32 (size - chunk))
        end
    end
  else Some (w, true).

Lemma discard_loop_total fuel : forall w size,
  0 <= size < 2 ^ 32 -> size <= Z.of_nat fuel -> is_Some (discard_loop fuel w size).
Proof.
  induction fuel as [|fuel IH]; intros w size Hs Hf; cbn [discard_loop];
    destruct (Z.ltb_spec 0 size) as [Hp|Hp]; eauto; [lia|]. cbv zeta.
  assert (Hc : 0 < (if size <? discard_buffer then size else discard_buffer) <= size).
  { unfold discard_buffer. destruct (Z.ltb_spec size 32); lia. }
  destruct (read_all w _) as [w' [bs|]]; [|eauto]. rewrite u32_id by (unfold is_u32; lia).
  apply IH; lia.
Qed.

Definition discard_payload e (size : Z) : Engine W * bool :=
  let '(w, ok) := default (fd_ e, false) (discard_loop (Z.to_nat size) (fd_ e) size) in
  (MkEngine w (last_error_ e), ok).

(** ** The client side: [call<Desc>]

    Both overloads end in the same statements, after the request went out. *)

Definition await_response (d : rpc_desc) e : Engine W * option (d_resp d) :=
  let '(e, r) := receive_header e in
  match r with
  | None => (e, None)
  | Some header =>
      if decide (fh_id header = id_error) then
        let '(e, _) := receive_payload ErrorResp e header in (e, None)
      else if decide (fh_id header <> d_id d) then
        let '(e, _) := discard_payload e (fh_size header) in (e, None)
      else receive_payload (d_resp d) e header
  end.

(** The overload for [EmptyReq]. *)
Definition call_empty (d : rpc_desc) e : Engine W * option (d_resp d) :=
  let '(e, ok) := send_id e (d_id d) in
  if ok then await_response d e else (e, None).

(** The overload with a request. *)
Definition call (d : rpc_desc) e (request : d_req d) : Engine W * option (d_resp d) :=
  let '(e, ok) := send e (d_id d) request in
  if ok then await_response d e else (e, None).

(** ** The server side: [invoke_one<Desc, Function>]

    The handler runs in the world the connection is part of. *)
Definition invoke_one (d : rpc_desc) (Function : W -> d_req d -> W * d_resp d)
    e (header : FrameHeader) : Engine W * invoke_result :=
  if decide (fh_id header <> d_id d) then (e, no_match)
  else
    let '(e, r) := receive_payload (d_req d) e header in
    match r with
    | None =>
        if decide (last_error_ e <> ec_none)
        then let '(e, _) := send_error e (last_error_ e) in (e, failed)
        else (e, failed)
    | Some request =>
        let '(w, response) := Function (fd_ e) request in
        let '(e, ok) := send (MkEngine w (last_error_ e)) (d_id d) response in
        (e, if ok then handled else failed)
    end.

(** ** Frames *)

(** The bytes of one frame. *)
Definition frame_header (id : api_id) (size : nat) : list byte :=
  encode (MkWireHeader (to_le32 k_magic) (to_le32 (api_id_to_u32 id))
                       (to_le32 (Z.of_nat size))).

Definition frame {T} `{WireType T} (id : api_id) (payload : T) : list byte :=
  frame_header id (wt_size T) ++ encode payload.

Definition error_frame (code : error_code) : list byte :=
  frame id_error (MkErrorResp (to_le32 (error_code_to_u32 code))).

(** What a receiver makes of 12 header bytes. *)
Definition parse_header (bs : list byte) : error_code + FrameHeader :=
  let wire := default (wt_zero WireHeader) (decode bs) in
  if negb (from_le32 (wh_magic wire) =? k_magic) then inl ec_bad_magic
  else
    let header := MkFrameHeader (api_id_of_u32 (from_le32 (wh_id wire)))
                                (from_le32 (wh_size wire)) in
    if k_max_payload <? fh_size header then inl ec_oversized_payload else inr header.

Lemma parse_header_frame i size :
  api_id_wf i -> (size <= 64)%nat ->
  parse_header (frame_header i size) = inr (MkFrameHeader i (Z.of_nat size)).
Proof.
  intros Hid Hs. unfold parse_header, frame_header.
  rewrite decode_encode. cbn [from_option id wh_magic wh_id wh_size].
  rewrite !from_to_le32, (u32_id k_magic), (u32_id (Z.of_nat size))
    by (unfold is_u32, k_magic; lia).
  rewrite u32_id by auto with zbr.
  rewrite Z.eqb_refl, api_id_of_to_u32 by done. cbn [negb fh_size].
  unfold k_max_payload. by rewrite (proj2 (Z.ltb_ge _ _)) by lia.
Qed.

Lemma frame_header_length id size : length (frame_header id size) = 12%nat.
Proof. reflexivity. Qed.

Lemma frame_nonempty {T} `{WireType T} id (x : T) : frame id x <> [].
Proof. intros E. apply (f_equal length) in E. discriminate. Qed.

Lemma is_empty_req_size T `{WireType T} : is_empty_req T = true -> wt_size T = 0%nat.
Proof. unfold is_empty_req, wt_size. by destruct (wt_type T). Qed.

Lemma is_empty_req_encode T `{WireType T} (x : T) : is_empty_req T = true -> encode x = [].
Proof. intros E. apply length_zero_iff_nil. by rewrite encode_length, is_empty_req_size. Qed.

Lemma is_empty_req_unique T `{WireType T} (x : T) :
  is_empty_req T = true -> forall y : T, x = y.
Proof.
  unfold is_empty_req. intros E y. pose proof (wt_typed x) as Hx. pose proof (wt_typed y) as Hy.
  pose proof (wt_of_to x) as Ox. pose proof (wt_of_to y) as Oy.
  destruct (wt_type T); try done. destruct (wt_to x); try done. destruct (wt_to y); try done.
  congruence.
Qed.

(** ** On a connection without hard errors *)

Section OnStream.
Context `{!PosixLaws W, !Stream W}.

Lemma send_id_stream e id :
  stream_ok (fd_ e) ->
  exists w', send_id e id = (MkEngine w' (last_error_ e), true) /\
    io_step (fd_ e) w' (rx (fd_ e)) (tx (fd_ e) ++ frame_header id 0).
Proof.
  intros Hok. unfold send_id.
  destruct (write_all_stream (fd_ e) (frame_header id 0) Hok) as (w' & E & Hio).
  unfold frame_header in E. change (Z.of_nat 0) with 0 in E. rewrite E. eauto.
Qed.

Lemma send_stream {T} `{WireType T} e id (x : T) :
  stream_ok (fd_ e) ->
  exists w', send e id x = (MkEngine w' (last_error_ e), true) /\
    io_step (fd_ e) w' (rx (fd_ e)) (tx (fd_ e) ++ frame id x).
Proof.
  intros Hok. unfold send, frame. destruct (is_empty_req T) eqn:Hemp.
  - rewrite is_empty_req_size, is_empty_req_encode, app_nil_r by done. by apply send_id_stream.
  - destruct (write_all_stream (fd_ e) (frame_header id (wt_size T)) Hok) as (w1 & E1 & H1).
    unfold frame_header in E1. rewrite E1.
    destruct H1 as (Hok1 & Hrx1 & Htx1 & Hre1).
    destruct (write_all_stream w1 (encode x) Hok1) as (w2 & E2 & H2). rewrite E2.
    exists w2. split; [done|]. unfold io_step in *.
    by rewrite Hrx1, Htx1, Hre1, <- app_assoc in H2.
Qed.

Lemma receive_header_stream e :
  stream_ok (fd_ e) -> (12 <= length (rx (fd_ e)))%nat ->
  exists w', io_step (fd_ e) w' (drop 12 (rx (fd_ e))) (tx (fd_ e)) /\
    receive_header e =
      match parse_header (take 12 (rx (fd_ e))) with
      | inl code => (MkEngine w' code, None)
      | inr header => (MkEngine w' ec_none, Some header)
      end.
Proof.
  intros Hok Hl. unfold receive_header, parse_header.
  destruct (read_all_stream (fd_ e) 12 Hok Hl) as (w' & E & Hio).
  change (wt_size WireHeader) with 12%nat. rewrite E. exists w'. split; [done|].
  by destruct (negb _); [|destruct (k_max_payload <? _)].
Qed.

(** A payload of the announced size is read and decoded; any other size is a
    mismatch and leaves the stream alone. *)
Lemma receive_payload_stream T `{WireType T} e (header : FrameHeader) (x : T) bs :
  stream_ok (fd_ e) -> fh_size header = Z.of_nat (wt_size T) ->
  rx (fd_ e) = encode x ++ bs ->
  exists w', receive_payload T e header = (MkEngine w' (last_error_ e), Some x) /\
    io_step (fd_ e) w' bs (tx (fd_ e)).
Proof.
  intros Hok Hsz Hrx. unfold receive_payload. rewrite Hsz.
  destruct (is_empty_req T) eqn:Hemp.
  - rewrite is_empty_req_size in * by done. cbn. exists (fd_ e).
    rewrite is_empty_req_encode in Hrx by done.
    rewrite (is_empty_req_unique T (wt_zero T) Hemp x). split; [by destruct e|done].
  - rewrite Z.eqb_refl. cbn [negb].
    assert (Hl : (wt_size T <= length (rx (fd_ e)))%nat)
      by (rewrite Hrx, length_app, encode_length; lia).
    destruct (read_all_stream (fd_ e) (wt_size T) Hok Hl) as (w' & E & Hio).
    rewrite E. exists w'.
    rewrite Hrx, take_app_exact, drop_app_exact in * by (by rewrite encode_length).
    cbn. by rewrite decode_encode.
Qed.

Lemma receive_payload_mismatch T `{WireType T} e (header : FrameHeader) :
  fh_size header <> Z.of_nat (wt_size T) ->
  receive_payload T e header = (MkEngine (fd_ e) ec_payload_mismatch, None).
Proof.
  intros Hsz. unfold receive_payload. destruct (is_empty_req T) eqn:Hemp.
  - rewrite is_empty_req_size in Hsz by done.
    by rewrite (proj2 (Z.eqb_neq _ _)) by lia.
  - by rewrite (proj2 (Z.eqb_neq _ _)) by done.
Qed.

Lemma discard_loop_stream fuel : forall w size,
  stream_ok w -> 0 <= size < 2 ^ 32 -> size <= Z.of_nat (length (rx w)) ->
  size <= Z.of_nat fuel ->
  exists w', discard_loop fuel w size = Some (w', true) /\
    io_step w w' (drop (Z.to_nat size) (rx w)) (tx w).
Proof.
  induction fuel as [|fuel IH]; intros w size Hok Hs Hl Hf; cbn [discard_loop];
    (case_bool; [|assert (size = 0) as -> by lia; exists w; by auto using io_step_refl]);
    [lia|].
  set (chunk := if size <? discard_buffer then size else discard_buffer).
  assert (Hc : 0 < chunk <= size)
    by (unfold chunk, discard_buffer in *; case_bool; lia).
  destruct (read_all_stream w (Z.to_nat chunk) Hok) as (w1 & E & Hok1 & Hrx1 & Htx1 & Hre1);
    [lia|]. rewrite E, u32_id by (unfold is_u32; lia).
  destruct (IH w1 (size - chunk) Hok1) as (w2 & E2 & Hio); [lia| |lia|].
  { rewrite Hrx1, length_drop. lia. }
  exists w2. split; [done|]. unfold io_step in *.
  rewrite Hrx1, Htx1, Hre1, drop_drop in Hio.
  by replace (Z.to_nat chunk + Z.to_nat (size - chunk))%nat with (Z.to_nat size) in Hio by lia.
Qed.

Lemma discard_payload_stream e size :
  stream_ok (fd_ e) -> 0 <= size < 2 ^ 32 -> size <= Z.of_nat (length (rx (fd_ e))) ->
  exists w', discard_payload e size = (MkEngine w' (last_error_ e), true) /\
    io_step (fd_ e) w' (drop (Z.to_nat size) (rx (fd_ e))) (tx (fd_ e)).
Proof.
  intros Hok Hs Hl. unfold discard_payload.
  destruct (discard_loop_stream (Z.to_nat size) (fd_ e) size) as (w' & E & Hio); [done..|lia|].
  rewrite E. eauto.
Qed.
End OnStream.
End Engine.
