(* ===== verification/Rpc.v ===== *)
(** * What one call and one invocation do on the wire

    The functional behaviour of [await_response] (hence of both [call]
    overloads) and of [invoke_one] on every branch, over any connection
    without hard errors; and the facts about [receive_header] that hold of
    every connection. *)

From Stdlib Require Import ZArith Lia.
From Stdlib Require Import Strings.Byte.
From stdpp Require Import base tactics list numbers option.
From S2P Require Import Prelude Protocol Reflection Posix Engine.

(** A descriptor of the catalog: its id is an enumerator other than [error]. *)
Definition desc_ok (d : rpc_desc) : Prop := api_id_wf (d_id d) /\ d_id d <> id_error.

Lemma frame_app {T} `{WireType T} i (x : T) bs :
  frame i x ++ bs = frame_header i (wt_size T) ++ encode x ++ bs.
Proof. unfold frame. by rewrite <- app_assoc. Qed.

Section AnyConnection.
Context {W : Type} `{Posix W}.

(** A header that is accepted announces at most [k_max_payload] bytes and
    names a 32-bit id; one that is not leaves the reason in [last_error_]. *)
Lemma receive_header_safe (e e' : Engine W) r :
  receive_header e = (e', r) ->
  match r with
  | Some h => 0 <= fh_size h <= k_max_payload /\ api_id_wf (fh_id h) /\ last_error_ e' = ec_none
  | None => last_error_ e' = ec_none \/ last_error_ e' = ec_bad_magic \/
            last_error_ e' = ec_oversized_payload
  end.
Proof.
  unfold receive_header. destruct (read_all _ _) as [w [bs|]]; [|intros [= <- <-]; by left].
  set (wire := default _ _). cbn zeta. destruct (negb _); [intros [= <- <-]; auto|].
  cbn [fh_size]. case_bool; intros [= <- <-]; [by auto|]. cbn [fh_id fh_size last_error_].
  pose proof (from_le32_range (wh_size wire)) as Hr. unfold is_u32 in Hr.
  split; [lia|]. split; [auto with zbr|done].
Qed.

Lemma is_empty_req_no_read T `{WireType T} (e : Engine W) (h : FrameHeader) :
  is_empty_req T = true -> fd_ (receive_payload T e h).1 = fd_ e.
Proof. intros E. unfold receive_payload. rewrite E. by destruct (negb _). Qed.
End AnyConnection.

Section OnStream.
Context {W : Type} `{Posix W, !PosixLaws W, !Stream W}.
Implicit Types e : Engine W.

(** The header of a pending frame is received as sent. *)
Lemma receive_frame_header {T} `{WireType T} e i (x : T) bs :
  stream_ok (fd_ e) -> api_id_wf i -> rx (fd_ e) = frame i x ++ bs ->
  exists w', receive_header e =
      (MkEngine w' ec_none, Some (MkFrameHeader i (Z.of_nat (wt_size T)))) /\
    io_step (fd_ e) w' (encode x ++ bs) (tx (fd_ e)).
Proof.
  intros Hok Hi Hrx. rewrite frame_app in Hrx.
  assert (Hl : (12 <= length (rx (fd_ e)))%nat)
    by (rewrite Hrx, length_app, frame_header_length; lia).
  destruct (receive_header_stream e Hok Hl) as (w' & Hio & E).
  rewrite Hrx, take_app_exact, drop_app_exact in * by done.
  rewrite parse_header_frame in E by (auto using wt_size_bound). eauto.
Qed.

(** ** The client's four answers *)

Section Await.
Context (d : rpc_desc) (Hd : desc_ok d).

Lemma await_response_ok e (resp : d_resp d) bs :
  stream_ok (fd_ e) -> rx (fd_ e) = frame (d_id d) resp ++ bs ->
  exists w', await_response d e = (MkEngine w' ec_none, Some resp) /\
    io_step (fd_ e) w' bs (tx (fd_ e)).
Proof using Hd PosixLaws0.
  intros Hok Hrx. destruct Hd as [Hwf Herr].
  destruct (receive_frame_header e _ _ _ Hok Hwf Hrx) as (w1 & E & Hok1 & Hrx1 & Htx1 & Hre1).
  unfold await_response. rewrite E. cbn [fh_id fh_size].
  rewrite decide_False, decide_False by tauto.
  destruct (receive_payload_stream (d_resp d) (MkEngine w1 ec_none)
    (MkFrameHeader (d_id d) (Z.of_nat (wt_size (d_resp d)))) resp bs) as (w2 & E2 & Hio); [done..|].
  rewrite E2. exists w2. unfold io_step in *. cbn in Hio. by rewrite Htx1, Hre1 in Hio.
Qed.

Lemma await_response_error e code bs :
  stream_ok (fd_ e) -> rx (fd_ e) = error_frame code ++ bs ->
  exists w', await_response d e = (MkEngine w' ec_none, None) /\
    io_step (fd_ e) w' bs (tx (fd_ e)).
Proof using PosixLaws0.
  intros Hok Hrx.
  destruct (receive_frame_header e id_error _ _ Hok I Hrx) as (w1 & E & Hok1 & Hrx1 & Htx1 & Hre1).
  unfold await_response. rewrite E. cbn [fh_id fh_size]. rewrite decide_True by done.
  destruct (receive_payload_stream ErrorResp (MkEngine w1 ec_none)
    (MkFrameHeader id_error 4) (MkErrorResp (to_le32 (error_code_to_u32 code))) bs)
    as (w2 & E2 & Hio); [done..|].
  change (Z.of_nat (wt_size ErrorResp)) with 4. rewrite E2.
  exists w2. unfold io_step in *. cbn in Hio. by rewrite Htx1, Hre1 in Hio.
Qed.

(** An answer to another call is discarded whole: the stream stays in step. *)
Lemma await_response_unexpected e {T} `{WireType T} i (x : T) bs :
  stream_ok (fd_ e) -> api_id_wf i -> i <> id_error -> i <> d_id d ->
  rx (fd_ e) = frame i x ++ bs ->
  exists w', await_response d e = (MkEngine w' ec_none, None) /\
    io_step (fd_ e) w' bs (tx (fd_ e)).
Proof using PosixLaws0.
  intros Hok Hi Hne Hnd Hrx.
  destruct (receive_frame_header e _ _ _ Hok Hi Hrx) as (w1 & E & Hok1 & Hrx1 & Htx1 & Hre1).
  unfold await_response. rewrite E. cbn [fh_id fh_size].
  rewrite decide_False, decide_True by done.
  pose proof (wt_size_bound (T := T)) as Hb.
  destruct (discard_payload_stream (MkEngine w1 ec_none) (Z.of_nat (wt_size T)))
    as (w2 & E2 & Hio); cbn [fd_]; [done|lia| |].
  { rewrite Hrx1, length_app, encode_length. lia. }
  rewrite E2. exists w2. split; [done|]. unfold io_step in *. cbn [fd_ last_error_] in Hio.
  rewrite Nat2Z.id, Hrx1, Htx1, Hre1, drop_app_exact in Hio by (by rewrite encode_length). done.
Qed.

(** An answer of the wrong size is refused but its payload stays on the
    stream, where the next call takes it for a header. *)
Lemma await_response_mismatch e {T} `{WireType T} (x : T) bs :
  stream_ok (fd_ e) -> wt_size T <> wt_size (d_resp d) ->
  rx (fd_ e) = frame (d_id d) x ++ bs ->
  exists w', await_response d e = (MkEngine w' ec_payload_mismatch, None) /\
    io_step (fd_ e) w' (encode x ++ bs) (tx (fd_ e)).
Proof using Hd PosixLaws0.
  intros Hok Hsz Hrx. destruct Hd as [Hwf Herr].
  destruct (receive_frame_header e _ _ _ Hok Hwf Hrx) as (w1 & E & Hio).
  unfold await_response. rewrite E. cbn [fh_id fh_size].
  rewrite decide_False, decide_False by tauto.
  rewrite receive_payload_mismatch by (cbn; lia). eauto.
Qed.
End Await.

(** ** The server's three outcomes *)

Section Invoke.
Context (d : rpc_desc) (F : W -> d_req d -> W * d_resp d).

Lemma invoke_one_no_match e (h : FrameHeader) :
  fh_id h <> d_id d -> invoke_one d F e h = (e, no_match).
Proof. intros Hne. unfold invoke_one. by rewrite decide_True. Qed.

(** A well-formed request runs the handler once, on the world left by reading
    the payload, and its answer is appended to what was written. *)
Lemma invoke_one_ok e (h : FrameHeader) (req : d_req d) bs w' resp :
  stream_ok (fd_ e) -> fh_id h = d_id d -> fh_size h = Z.of_nat (wt_size (d_req d)) ->
  rx (fd_ e) = encode req ++ bs ->
  (forall w, io_step (fd_ e) w bs (tx (fd_ e)) -> F w req = (w' w, resp w) /\ stream_ok (w' w)) ->
  exists w1 w2, io_step (fd_ e) w1 bs (tx (fd_ e)) /\
    invoke_one d F e h = (MkEngine w2 (last_error_ e), handled) /\
    io_step (w' w1) w2 (rx (w' w1)) (tx (w' w1) ++ frame (d_id d) (resp w1)).
Proof using PosixLaws0.
  intros Hok Hi Hsz Hrx HF. unfold invoke_one. rewrite decide_False by tauto.
  destruct (receive_payload_stream (d_req d) e h req bs Hok Hsz Hrx) as (w1 & E & Hio).
  rewrite E. cbn [fd_ last_error_].
  destruct (HF w1 Hio) as [HFw Hokw]. rewrite HFw.
  destruct (send_stream (MkEngine (w' w1) (last_error_ e)) (d_id d) (resp w1) Hokw)
    as (w2 & E2 & Hio2). rewrite E2. eauto.
Qed.

(** A request of the wrong size is answered with an error frame, the handler
    does not run and the connection is given up. *)
Lemma invoke_one_mismatch e (h : FrameHeader) :
  stream_ok (fd_ e) -> fh_id h = d_id d -> fh_size h <> Z.of_nat (wt_size (d_req d)) ->
  exists w', invoke_one d F e h = (MkEngine w' ec_payload_mismatch, failed) /\
    io_step (fd_ e) w' (rx (fd_ e)) (tx (fd_ e) ++ error_frame ec_payload_mismatch).
Proof using PosixLaws0.
  intros Hok Hi Hsz. unfold invoke_one. rewrite decide_False by tauto.
  rewrite receive_payload_mismatch by done. rewrite decide_True by done. unfold send_error.
  destruct (send_stream (MkEngine (fd_ e) ec_payload_mismatch) id_error
    (MkErrorResp (to_le32 (error_code_to_u32 ec_payload_mismatch))) Hok) as (w' & E & Hio).
  cbn [last_error_]. rewrite E. eauto.
Qed.
End Invoke.

(** ** A frame sent is the frame received *)

(** The peer's end of the connection holds what was written here. *)
Lemma frame_round_trip {T} `{WireType T} e (e2 : Engine W) i (x : T) bs e' :
  stream_ok (fd_ e) -> stream_ok (fd_ e2) -> api_id_wf i ->
  send e i x = (e', true) -> tx (fd_ e) = [] -> rx (fd_ e2) = tx (fd_ e') ++ bs ->
  exists w1 w2,
    receive_header e2 = (MkEngine w1 ec_none, Some (MkFrameHeader i (Z.of_nat (wt_size T)))) /\
    receive_payload T (MkEngine w1 ec_none) (MkFrameHeader i (Z.of_nat (wt_size T))) =
      (MkEngine w2 ec_none, Some x) /\
    rx w2 = bs.
Proof using PosixLaws0.
  intros Hok Hok2 Hi Hsend Htx Hrx.
  destruct (send_stream e i x Hok) as (w & E & _ & _ & Htxw & _). rewrite E in Hsend.
  injection Hsend as <-. cbn in Hrx. rewrite Htxw, Htx in Hrx.
  destruct (receive_frame_header e2 i x bs Hok2 Hi Hrx) as (w1 & E1 & Hok1 & Hrx1 & _ & _).
  destruct (receive_payload_stream T (MkEngine w1 ec_none)
    (MkFrameHeader i (Z.of_nat (wt_size T))) x bs Hok1 eq_refl Hrx1) as (w2 & E2 & Hio2).
  exists w1, w2. split; [done|]. split; [done|]. apply Hio2.
Qed.
End OnStream.
