(* ===== verification/AutoRpc.v ===== *)
(** * Dispatch and catalog by reflection: zb_rpc/include/zb_rpc/auto_rpc.hpp
      and dispatch.hpp

    A namespace is the list of its members as [std::meta::members_of] gives
    them, [member W]: what the reflection queries of the file answer about
    each, and for a function of one parameter the parameter and result types
    and the function itself, which runs in the world [W] of the connection.
    [consteval] code that throws makes the program ill-formed: it returns an
    option, and [None] is a program that does not compile. *)

From Stdlib Require Import ZArith Lia.
From Stdlib Require Import Strings.Byte Strings.String.
From stdpp Require Import base tactics list numbers option vector.
From S2P Require Import Prelude Protocol Reflection Dump Posix Engine.

(** The enumerators of the host's [api_id]: its protocol.hpp has no
    [get_sensor_addr]. *)
Definition host_identifiers : list (api_id * string) :=
  List.filter (fun e => bool_decide (e.1 <> id_get_sensor_addr)) api_id_identifiers.

Fixpoint id_for_name_in (es : list (api_id * string)) (name : string) : option api_id :=
  match es with
  | [] => None
  | (id, nm) :: es => if String.eqb nm name then Some id else id_for_name_in es name
  end.

Definition id_for_name (name : string) : option api_id := id_for_name_in host_identifiers name.

(** ** Members of a namespace *)

Inductive fn_type (W : Type) :=
  | Unary (req resp : Type) (wreq : WireType req) (wresp : WireType resp)
      (body : W -> req -> W * resp)
  | OfArity (n : nat).

Arguments Unary {W} req resp {wreq wresp} body.
Arguments OfArity {W} n.

(** [mb_identifier] is [None] where [has_identifier] is false; [mb_req] and
    [mb_resp] are the [display_string_of] of the two types. *)
Record member (W : Type) := Member {
  mb_is_function : bool;
  mb_identifier : option string;
  mb_special : bool;
  mb_constructor : bool;
  mb_destructor : bool;
  mb_req : string;
  mb_resp : string;
  mb_type : fn_type W
}.

Arguments Member {W} _ _ _ _ _ _ _ _.
Arguments mb_is_function {W} _.
Arguments mb_identifier {W} _.
Arguments mb_special {W} _.
Arguments mb_constructor {W} _.
Arguments mb_destructor {W} _.
Arguments mb_req {W} _.
Arguments mb_resp {W} _.
Arguments mb_type {W} _.

Section AutoRpc.
Context {W : Type}.
Implicit Types m : member W.

Definition has_identifier m : bool :=
  match mb_identifier m with Some _ => true | None => false end.

Definition is_rpc_handler m : bool :=
  mb_is_function m && has_identifier m && negb (mb_special m) &&
  negb (mb_constructor m) && negb (mb_destructor m) &&
  match mb_type m with Unary _ _ _ => true | OfArity n => Nat.eqb n 1 end.

(** [handler<Desc, Function>] of dispatch.hpp: a descriptor and a function. *)
Record handler := Handler {
  hd_desc : rpc_desc;
  hd_function : W -> d_req hd_desc -> W * d_resp hd_desc
}.

(** [fn_desc<Function>], with the function it describes.  The size and
    layout assertions are part of [WireType]. *)
Definition fn_desc m : option handler :=
  match mb_type m with
  | Unary Req Resp body =>
      name ← mb_identifier m;
      id ← id_for_name name;
      Some (Handler (RpcDesc id Req Resp) body)
  | OfArity _ => None
  end.

(** What the expansion of the [template for] makes of the namespace. *)
Fixpoint rpc_handlers (members : list (member W)) : option (list handler) :=
  match members with
  | [] => Some []
  | m :: members =>
      if is_rpc_handler m then
        h ← fn_desc m;
        hs ← rpc_handlers members;
        Some (h :: hs)
      else rpc_handlers members
  end.

Section Dispatch.
Context `{Posix W}.
Implicit Types e : Engine W.

(** The two overloads of [rpc_call_fn<Function>]; [d] is the [rpc_desc] of
    [fn_desc<Function>]. *)
Definition rpc_call_fn_empty (d : rpc_desc) : St (Engine W) (option (d_resp d)) := call_empty d.

Definition rpc_call_fn (d : rpc_desc) (request : d_req d) : St (Engine W) (option (d_resp d)) :=
  fun e => call d e request.

(** The expanded statements of [dispatch_ns], one [if] per handler. *)
Fixpoint dispatch_handlers (hs : list handler) e (header : FrameHeader)
    : Engine W * invoke_result :=
  match hs with
  | [] => (e, no_match)
  | h :: hs =>
      if decide (fh_id header = d_id (hd_desc h)) then
        let '(e, r) := receive_payload (d_req (hd_desc h)) e header in
        match r with
        | None =>
            if decide (last_error_ e <> ec_none)
            then let '(e, _) := send_error e (last_error_ e) in (e, failed)
            else (e, failed)
        | Some request =>
            let '(w, response) := hd_function h (fd_ e) request in
            let '(e, ok) :=
              send (MkEngine w (last_error_ e)) (d_id (hd_desc h)) response in
            (e, if ok then handled else failed)
        end
      else dispatch_handlers hs e header
  end.

Definition dispatch_ns (members : list (member W)) e header : option (Engine W * invoke_result) :=
  hs ← rpc_handlers members;
  Some (dispatch_handlers hs e header).

(** [dispatch<Handlers...>] of dispatch.hpp: the fold over the pack. *)
Definition dispatch (hs : list handler) e (header : FrameHeader) : Engine W * invoke_result :=
  fold_left
    (fun '(e, result) h =>
       if decide (result = no_match) then invoke_one (hd_desc h) (hd_function h) e header
       else (e, result))
    hs (e, no_match).

Lemma dispatch_done hs header e r : r <> no_match ->
  fold_left
    (fun '(e, result) h =>
       if decide (result = no_match) then invoke_one (hd_desc h) (hd_function h) e header
       else (e, result))
    hs (e, r) = (e, r).
Proof.
  intros Hr. induction hs as [|h hs IH]; [done|]. cbn [fold_left]. by rewrite decide_False.
Qed.

Lemma invoke_one_matches h e header :
  fh_id header = d_id (hd_desc h) ->
  (invoke_one (hd_desc h) (hd_function h) e header).2 <> no_match.
Proof.
  intros Hi. unfold invoke_one. rewrite decide_False by tauto.
  repeat case_match; simplify_eq/=; try case_match; done.
Qed.

(** The two dispatchers agree, and both run the first handler with the
    header's id. *)
Lemma dispatch_handlers_find hs e header :
  dispatch_handlers hs e header =
  match List.find (fun h => bool_decide (fh_id header = d_id (hd_desc h))) hs with
  | Some h => invoke_one (hd_desc h) (hd_function h) e header
  | None => (e, no_match)
  end.
Proof.
  induction hs as [|h hs IH]; [done|]. cbn [dispatch_handlers List.find].
  case_bool_decide as Hi; [|by rewrite decide_False].
  rewrite decide_True by done. unfold invoke_one. by rewrite decide_False by tauto.
Qed.

Lemma dispatch_find hs e header :
  dispatch hs e header =
  match List.find (fun h => bool_decide (fh_id header = d_id (hd_desc h))) hs with
  | Some h => invoke_one (hd_desc h) (hd_function h) e header
  | None => (e, no_match)
  end.
Proof.
  unfold dispatch. induction hs as [|h hs IH]; [done|]. cbn [fold_left List.find].
  rewrite decide_True by done. case_bool_decide as Hi.
  - pose proof (invoke_one_matches h e header Hi) as Hm.
    destruct (invoke_one _ _ e header) as [e' r]. by apply dispatch_done.
  - unfold invoke_one at 2. by rewrite decide_True.
Qed.
End Dispatch.

(** ** The catalog text *)

(** [char tmp[16]]: writing past it is not a constant expression. *)
Definition put_tmp (tmp : list byte) (i : nat) (c : byte) : option (list byte) :=
  if decide (i < length tmp)%nat then Some (<[i := c]> tmp) else None.

(** An [unsigned] has at most ten decimal digits: ten turns are enough. *)
Fixpoint digits_loop (fuel : nat) (tmp : list byte) (i : nat) (value : Z)
    : option (list byte * nat) :=
  if 0 <? value then
    match fuel with
    | O => None
    | S fuel =>
        tmp ← put_tmp tmp i (Z_to_byte (48 + value mod 10));
        digits_loop fuel tmp (S i) (value / 10)
    end
  else Some (tmp, i).

Fixpoint reverse_loop (out tmp : list byte) (i : nat) : option (list byte) :=
  match i with
  | O => Some out
  | S i =>
      c ← tmp !! i;
      reverse_loop (out ++ [c]) tmp i
  end.

Definition append_u32 (out : list byte) (value : Z) : option (list byte) :=
  let tmp := replicate 16 x00 in
  '(tmp, i) ← (if value =? 0 then tmp ← put_tmp tmp 0 x30; Some (tmp, 1%nat)
               else digits_loop 10 tmp 0 value);
  reverse_loop out tmp i.

Definition append_catalog_line (out : list byte) m : option (list byte) :=
  name ← mb_identifier m;
  id ← id_for_name name;
  out ← append_u32 (out ++ lit "  " ++ lit name ++ lit " id=") (api_id_to_u32 id);
  Some (out ++ lit " req=" ++ lit (mb_req m) ++ lit " resp=" ++ lit (mb_resp m) ++ [x0a]).

Fixpoint catalog_lines (members : list (member W)) (out : list byte) (count : nat)
    : option (list byte * nat) :=
  match members with
  | [] => Some (out, count)
  | m :: members =>
      if is_rpc_handler m then
        out ← append_catalog_line out m;
        catalog_lines members out (S count)
      else catalog_lines members out count
  end.

Definition catalog_dump (members : list (member W)) : option (list byte) :=
  '(out, count) ← catalog_lines members (lit "rpc catalog:" ++ [x0a]) 0;
  if Nat.eqb count 0 then None else Some out.

Definition verify_catalog (members : list (member W)) : option bool :=
  _ ← catalog_dump members;
  Some true.
End AutoRpc.

Arguments handler : clear implicits.

(** ** [append_u32] prints a number as [printf("%u")] does, within [tmp] *)

Lemma digits_acc fuel base : forall z acc, digits fuel base z acc = digits fuel base z [] ++ acc.
Proof.
  induction fuel as [|fuel IH]; intros z acc; [done|]. cbn [digits].
  case_bool; [done|]. rewrite IH, (IH _ [_]), <- app_assoc. done.
Qed.

Lemma put_tmp_app l c r x : put_tmp (l ++ c :: r) (length l) x = Some (l ++ x :: r).
Proof.
  unfold put_tmp. rewrite decide_True by (rewrite length_app; cbn; lia).
  by rewrite insert_app_r_alt, Nat.sub_diag by lia.
Qed.

Lemma digits_loop_spec fuel : forall l r v,
  0 < v < 10 ^ Z.of_nat fuel -> (fuel <= length r)%nat ->
  exists r', digits_loop fuel (l ++ r) (length l) v =
    Some (l ++ rev (digits fuel 10 v []) ++ r',
          (length l + length (digits fuel 10 v []))%nat).
Proof.
  induction fuel as [|fuel IH]; intros l r v Hv Hr; [cbn in *; lia|].
  cbn [digits_loop digits]. rewrite (proj2 (Z.ltb_lt _ _)) by lia.
  destruct r as [|c r]; [cbn in Hr; lia|]. rewrite put_tmp_app. cbn [mbind option_bind].
  pose proof (Z.mod_pos_bound v 10 ltac:(lia)) as Hm.
  assert (Hd : Z_to_byte (48 + v mod 10) = digit (v mod 10))
    by (unfold digit; by rewrite (proj2 (Z.ltb_lt _ _)) by lia).
  case_bool.
  - rewrite Z.div_small by lia. exists r. rewrite Hd.
    destruct fuel; cbn [digits_loop rev app length Z.ltb]; cbn; do 2 f_equal; lia.
  - replace (Z.of_nat (S fuel)) with (Z.succ (Z.of_nat fuel)) in Hv by lia.
    rewrite Z.pow_succ_r in Hv by lia.
    assert (Hv' : 0 < v / 10 < 10 ^ Z.of_nat fuel).
    { split; [apply Z.div_str_pos; lia|apply Z.div_lt_upper_bound; lia]. }
    destruct (IH (l ++ [digit (v mod 10)]) r (v / 10) Hv' ltac:(cbn in Hr; lia)) as [r' E].
    exists r'. rewrite length_app, <- app_assoc in E. cbn [length app] in E.
    rewrite Nat.add_1_r in E. rewrite Hd, E, (digits_acc _ _ _ [_]), rev_app_distr, length_app.
    cbn [rev app length]. rewrite <- !app_assoc. cbn [app]. do 2 f_equal. lia.
Qed.

Lemma reverse_loop_spec n : forall out tmp,
  (n <= length tmp)%nat -> reverse_loop out tmp n = Some (out ++ rev (take n tmp)).
Proof.
  induction n as [|n IH]; intros out tmp Hn; cbn [reverse_loop]; [by rewrite app_nil_r|].
  destruct (lookup_lt_is_Some_2 tmp n) as [c Hc]; [lia|]. rewrite Hc. cbn [mbind option_bind].
  rewrite IH by lia. rewrite (take_S_r tmp n c Hc), rev_app_distr. cbn [rev app].
  by rewrite <- app_assoc.
Qed.

Lemma append_u32_prints out v : is_u32 v -> append_u32 out v = Some (out ++ fmt_u v).
Proof.
  intros Hv. unfold append_u32, is_u32 in *. cbv zeta. case_bool; [by subst|].
  destruct (digits_loop_spec 10 [] (replicate 16 x00) v) as [r' E]; [lia|cbn; lia|].
  cbn [app length Nat.add] in E. rewrite E. cbn [mbind option_bind].
  rewrite reverse_loop_spec by (rewrite length_app, length_rev; lia).
  rewrite take_app_exact by (by rewrite length_rev). by rewrite rev_involutive.
Qed.
