(* ===== verification/Sim.v ===== *)
(** * The host simulation: zb_rpc/src/sim_zigbee.cpp, server.cpp, client.cpp
      and zb_rpc/include/zb_rpc/catalog.hpp

    The host build answers the RPC with a simulated network instead of a
    coordinator.  [Module sim] is the simulated network ([sim_vars] are its
    static variables) and the namespace the catalog is made from;
    [handle_commands] and [server_main] are server.cpp, [client_main] is
    client.cpp.  The engine and the protocol are those of zb_rpc_shared, of
    which zb_rpc/include holds copies. *)

From Stdlib Require Import ZArith Lia.
From Stdlib Require Import Strings.Byte Strings.String.
From stdpp Require Import base tactics list numbers option vector gmap.
From S2P Require Import Prelude Protocol Reflection Dump Posix Engine AutoRpc Sockets.

Open Scope Z_scope.

(** [strncpy(dst, src, n)] with [n] at most the size of [dst]. *)
Definition strncpy (dst src : list byte) (n : nat) : list byte :=
  take n (src ++ replicate n x00) ++ drop n dst.

Module sim.

Record sim_vars := MkSim {
  g_short_addr : Z;
  g_panid : Z;
  g_channel : Z;
  g_sensor_short : Z;
  g_sensor_ep : Z;
  g_temp : Z;
  g_permit_join : bool;
  g_joined : bool
}.

Definition sim_start : sim_vars := MkSim 0x0000 0x4c19 13 0x1956 0x0a 1300 false false.

Definition set_temp (t : Z) (s : sim_vars) : sim_vars :=
  MkSim (g_short_addr s) (g_panid s) (g_channel s) (g_sensor_short s) (g_sensor_ep s) t
        (g_permit_join s) (g_joined s).

(** [g_temp] is an [int16_t]. *)
Definition bump_temp (s : sim_vars) : sim_vars :=
  if g_temp s <? 1800 then set_temp (s16 (g_temp s + 100)) s else s.

Definition get_short_addr (s : sim_vars) (_ : EmptyReq) : sim_vars * U16Resp :=
  (s, MkU16Resp (to_le16 (g_short_addr s))).

Definition get_panid (s : sim_vars) (_ : EmptyReq) : sim_vars * U16Resp :=
  (s, MkU16Resp (to_le16 (g_panid s))).

Definition get_channel (s : sim_vars) (_ : EmptyReq) : sim_vars * U8Resp :=
  (s, MkU8Resp (Z_to_byte (g_channel s))).

Definition open_network (s : sim_vars) (request : OpenNetworkReq) : sim_vars * I32Resp :=
  (MkSim (g_short_addr s) (g_panid s) (g_channel s) (g_sensor_short s) (g_sensor_ep s)
         (g_temp s) (negb (byte_to_Z (onr_duration request) =? 0)) (g_joined s),
   MkI32Resp (to_le32_s 0)).

Definition wait_annce (s : sim_vars) (_ : EmptyReq) : sim_vars * U16Resp :=
  (MkSim (g_short_addr s) (g_panid s) (g_channel s) (g_sensor_short s) (g_sensor_ep s)
         (g_temp s) (g_permit_join s) true,
   MkU16Resp (to_le16 (g_sensor_short s))).

Definition find_sensor (s : sim_vars) (request : FindSensorReq) : sim_vars * zb_addr_t :=
  let short_addr := from_le16 (fsr_short_addr request) in
  if negb (g_joined s) || negb (short_addr =? g_sensor_short s)
  then (s, MkZbAddr (to_le32_s (-1)) zero_le16 zero_byte)
  else (s, MkZbAddr (to_le32_s 0) (to_le16 (g_sensor_short s)) (Z_to_byte (g_sensor_ep s))).

(** A value-initialised [char[16]] after [strncpy(a, text, sizeof(a) - 1)]. *)
Definition text16 (text : string) : vec byte 16 :=
  vec_of_list 16 x00 (strncpy (replicate 16 x00) (lit text) 15).

Definition read_basic (s : sim_vars) (addr : zb_addr_t) : sim_vars * zb_basic_t :=
  let short_addr := from_le16 (zba_short_addr addr) in
  if negb (short_addr =? g_sensor_short s)
  then (s, MkZbBasic (to_le32_s (-1)) zero_char16 zero_char16)
  else (s, MkZbBasic (to_le32_s 0) (text16 "ESPRESSIF") (text16 "esp32h2")).

Definition sensor_result (s : sim_vars) (addr : zb_addr_t) : sim_vars * I32Resp :=
  (s, MkI32Resp (to_le32_s (if from_le16 (zba_short_addr addr) =? g_sensor_short s
                            then 0 else -1))).

Definition bind_sensor : sim_vars -> zb_addr_t -> sim_vars * I32Resp := sensor_result.

Definition subscribe_sensor : sim_vars -> zb_addr_t -> sim_vars * I32Resp := sensor_result.

Definition config_report : sim_vars -> zb_addr_t -> sim_vars * I32Resp := sensor_result.

Definition read_temp (s : sim_vars) (addr : zb_addr_t) : sim_vars * zb_temp_t :=
  let short_addr := from_le16 (zba_short_addr addr) in
  if negb (short_addr =? g_sensor_short s)
  then (s, MkZbTemp (to_le32_s (-1)) zero_le16 zero_le16 zero_le16 zero_le16)
  else
    let s := bump_temp s in
    (s, MkZbTemp (to_le32_s 0) (to_le16_s (g_temp s)) (to_le16_s (-1000)) (to_le16_s 8000)
                 (to_le16_s 0)).

Definition get_last_temp (s : sim_vars) (_ : EmptyReq) : sim_vars * I16Resp :=
  let s := bump_temp s in
  (s, MkI16Resp (to_le16_s (g_temp s))).

End sim.

(** ** The server's world: the simulated network and an environment *)

Record host (E : Type) := MkHost { h_sim : sim.sim_vars; h_env : E }.

Arguments MkHost {E} _ _.
Arguments h_sim {E} _.
Arguments h_env {E} _.

Definition on_sim {E Req Resp} (f : sim.sim_vars -> Req -> sim.sim_vars * Resp) (h : host E)
    (r : Req) : host E * Resp :=
  let '(s, resp) := f (h_sim h) r in (MkHost s (h_env h), resp).

Definition on_env {E A} (f : St E A) : St (host E) A := fun h =>
  let '(e, a) := f (h_env h) in (MkHost (h_sim h) e, a).

#[export] Instance host_posix {E} `{Posix E} : Posix (host E) := {|
  sys_read h n := on_env (fun e => sys_read e n) h;
  sys_write h bs := on_env (fun e => sys_write e bs) h;
  io_patience h := io_patience (h_env h)
|}.

#[export] Instance host_ledger {E} `{Ledger E} : Ledger (host E) := fun h => held (h_env h).

(** ** The namespace [sim] as the catalog sees it

    sim_zigbee.hpp declares the twelve functions and nothing else. *)

Definition sim_fn {E} (name req resp : string) {Req Resp} `{WireType Req, WireType Resp}
    (f : sim.sim_vars -> Req -> sim.sim_vars * Resp) : member (host E) :=
  Member true (Some name) false false false req resp (Unary Req Resp (on_sim f)).

Definition sim_members {E} : list (member (host E)) :=
  [ sim_fn "get_short_addr" "EmptyReq" "U16Resp" sim.get_short_addr;
    sim_fn "get_panid" "EmptyReq" "U16Resp" sim.get_panid;
    sim_fn "get_channel" "EmptyReq" "U8Resp" sim.get_channel;
    sim_fn "open_network" "OpenNetworkReq" "I32Resp" sim.open_network;
    sim_fn "wait_annce" "EmptyReq" "U16Resp" sim.wait_annce;
    sim_fn "find_sensor" "FindSensorReq" "zb_addr_t" sim.find_sensor;
    sim_fn "read_basic" "zb_addr_t" "zb_basic_t" sim.read_basic;
    sim_fn "bind_sensor" "zb_addr_t" "I32Resp" sim.bind_sensor;
    sim_fn "subscribe_sensor" "zb_addr_t" "I32Resp" sim.subscribe_sensor;
    sim_fn "config_report" "zb_addr_t" "I32Resp" sim.config_report;
    sim_fn "read_temp" "zb_addr_t" "zb_temp_t" sim.read_temp;
    sim_fn "get_last_temp" "EmptyReq" "I16Resp" sim.get_last_temp ].

(** The descriptors [desc::*] of catalog.hpp. *)
Definition sim_descs : list rpc_desc :=
  [ desc.get_short_addr; desc.get_panid; desc.get_channel; desc.open_network;
    desc.wait_annce; desc.find_sensor; desc.read_basic; desc.bind_sensor;
    desc.subscribe_sensor; desc.config_report; desc.read_temp; desc.get_last_temp ].

(** ** server.cpp *)

Section Server.
Context {E : Type} `{Posix E}.
Implicit Types e : Engine (host E).

(** A program whose catalog does not verify does not compile, so the [None]
    of [dispatch_ns] does not occur ([sim_compiles]). *)
Definition handle_commands e : Engine (host E) * bool :=
  let '(e, r) := receive_header e in
  match r with
  | None =>
      if decide (last_error_ e <> ec_none)
      then let '(e, _) := send_error e (last_error_ e) in (e, false)
      else (e, false)
  | Some header =>
      if decide (fh_id header = id_error) then (e, false)
      else
        let '(e, result) := default (e, failed) (dispatch_ns sim_members e header) in
        if decide (result = no_match) then
          let '(e, ok) := discard_payload e (fh_size header) in
          if negb ok then (e, false)
          else let '(e, _) := send_error e ec_unknown_api in (e, false)
        else (e, bool_decide (result = handled))
  end.

(** [while (handle_commands(engine)) {}] for at most [fuel] turns; [None] when
    it would go on. *)
Fixpoint command_loop (fuel : nat) e : option (Engine (host E)) :=
  match fuel with
  | O => None
  | S fuel =>
      let '(e, go) := handle_commands e in
      if go then command_loop fuel e else Some e
  end.

Context `{Sockets E}.

(** [main] up to its loop: a connection, or a negative number where [main]
    returns 1. *)
Definition server_connection (address : string) (port : Z) : St E Z :=
  listen_fd ← rpc_listen address port;
  if listen_fd <? 0 then mret (-1)
  else
    conn ← rpc_accept listen_fd;
    sys_close listen_fd;;
    mret conn.

Definition server_main (fuel : nat) (address : string) (port : Z) (h : host E)
    : option (host E * Z) :=
  let '(h, conn) := on_env (server_connection address port) h in
  if conn <? 0 then Some (h, 1)
  else
    e ← command_loop fuel (new_engine h);
    let '(h, _) := on_env (sys_close conn) (fd_ e) in
    Some (h, 0).
End Server.

(** ** client.cpp *)

Section Client.
Context {W : Type} `{Posix W, Sockets W}.

(** [::close(fd); return code;] *)
Definition close_return (fd code : Z) : St (Engine W) Z := fun e =>
  let '(w, _) := sys_close fd (fd_ e) in (MkEngine w (last_error_ e), code).

(** [for (int i = 0; i < n; ++i)] around [get_last_temp], [break] included. *)
Fixpoint poll_temps (n : nat) : St (Engine W) unit :=
  match n with
  | O => mret tt
  | S n =>
      t ← rpc_call_fn_empty desc.get_last_temp;
      match t with
      | None => mret tt
      | Some _ => poll_temps n
      end
  end.

(** From the answer to the announcement wait to the end of [main]. *)
Definition client_sensor (fd : Z) (peer_resp : U16Resp) : St (Engine W) Z :=
  let peer := from_le16 (u16r_value peer_resp) in
  found ← rpc_call_fn desc.find_sensor (MkFindSensorReq (to_le16 peer));
  match (found : option zb_addr_t) with
  | None => close_return fd 1
  | Some sensor =>
      if negb (from_le32_s (zba_err sensor) =? 0) then close_return fd 1
      else
        basic ← rpc_call_fn desc.read_basic sensor;
        match (basic : option zb_basic_t) with
        | None => close_return fd 1
        | Some _ =>
            rpc_call_fn desc.bind_sensor sensor;;
            rpc_call_fn desc.subscribe_sensor sensor;;
            rpc_call_fn desc.config_report sensor;;
            poll_temps 5;;
            attrs ← rpc_call_fn desc.read_temp sensor;
            match (attrs : option zb_temp_t) with
            | None => close_return fd 1
            | Some _ => close_return fd 0
            end
        end
  end.

(** [main] after the connection; log output is left out.  The operands of
    [||] are evaluated in order until one fails. *)
Definition client_session (fd : Z) : St (Engine W) Z :=
  short_addr ← rpc_call_fn_empty desc.get_short_addr;
  match (short_addr : option U16Resp) with
  | None => close_return fd 1
  | Some _ =>
  panid ← rpc_call_fn_empty desc.get_panid;
  match (panid : option U16Resp) with
  | None => close_return fd 1
  | Some _ =>
  channel ← rpc_call_fn_empty desc.get_channel;
  match (channel : option U8Resp) with
  | None => close_return fd 1
  | Some _ =>
  opened ← rpc_call_fn desc.open_network (MkOpenNetworkReq (Z_to_byte 180));
  match (opened : option I32Resp) with
  | None => close_return fd 1
  | Some open_resp =>
  if negb (from_le32_s (i32r_value open_resp) =? 0) then close_return fd 1
  else
    peer ← rpc_call_fn_empty desc.wait_annce;
    match (peer : option U16Resp) with
    | None => close_return fd 1
    | Some peer_resp => client_sensor fd peer_resp
    end
  end end end end.

Definition client_main (address : string) (port : Z) : St W Z :=
  fd ← rpc_connect address port;
  if fd <? 0 then mret 1
  else ((fun w => let '(e, code) := client_session fd (new_engine w) in (fd_ e, code)) : St W Z).
End Client.
