(* ===== verification/ZigbeeApi.v ===== *)
(** * The Zigbee API: zb_rpc_server/main/zigbee_api.h and the declarations of
      zb_rpc_client/include/zigbee_api.h

    The same thirteen functions are declared by the firmware, which implements
    them over the Zigbee stack, and by the client, which implements them over
    RPC.  [ZigbeeApi W] is that interface over a world [W]; [ZigbeeApiTyped]
    says the results are values of their C types, which is what the wire
    format relies on.  The application and the RPC server are written against
    the interface. *)

From Stdlib Require Import ZArith Lia.
From Stdlib Require Import Strings.Byte.
From stdpp Require Import base tactics list numbers vector.
From S2P Require Import Prelude.

Record zigbee_addr_t := MkZigbeeAddr {
  za_err : Z;
  za_short_addr : Z;
  za_ep : Z
}.

Record zigbee_basic_t := MkZigbeeBasic {
  zb_err : Z;
  zb_manufacturer : vec byte 16;
  zb_model : vec byte 16
}.

Record zigbee_temp_t := MkZigbeeTemp {
  zt_err : Z;
  zt_measured : Z;
  zt_min_measured : Z;
  zt_max_measured : Z;
  zt_tolerance : Z
}.

Class ZigbeeApi (W : Type) := {
  zigbee_get_short_addr : W -> W * Z;
  zigbee_get_panid : W -> W * Z;
  zigbee_get_channel : W -> W * Z;
  zigbee_get_sensor_addr : W -> W * Z;
  zigbee_open_network : W -> Z -> W * Z;
  zigbee_wait_annce : W -> Z -> W * Z;
  zigbee_find_sensor : W -> Z -> Z -> W * zigbee_addr_t;
  zigbee_read_basic : W -> Z -> Z -> Z -> W * zigbee_basic_t;
  zigbee_bind_sensor : W -> Z -> Z -> Z -> W * Z;
  zigbee_subscribe_sensor : W -> Z -> Z -> Z -> W * Z;
  zigbee_config_report : W -> Z -> Z -> Z -> W * Z;
  zigbee_read_temp : W -> Z -> Z -> Z -> W * zigbee_temp_t;
  zigbee_get_last_temp : W -> W * Z
}.

Definition addr_typed (a : zigbee_addr_t) : Prop :=
  is_s32 (za_err a) /\ is_u16 (za_short_addr a) /\ is_u8 (za_ep a).

Definition basic_typed (b : zigbee_basic_t) : Prop := is_s32 (zb_err b).

Definition temp_typed (t : zigbee_temp_t) : Prop :=
  is_s32 (zt_err t) /\ is_s16 (zt_measured t) /\ is_s16 (zt_min_measured t) /\
  is_s16 (zt_max_measured t) /\ is_s16 (zt_tolerance t).

Class ZigbeeApiTyped (W : Type) `{ZigbeeApi W} := {
  get_short_addr_typed w : is_u16 (zigbee_get_short_addr w).2;
  get_panid_typed w : is_u16 (zigbee_get_panid w).2;
  get_channel_typed w : is_u8 (zigbee_get_channel w).2;
  get_sensor_addr_typed w : is_u16 (zigbee_get_sensor_addr w).2;
  open_network_typed w d : is_s32 (zigbee_open_network w d).2;
  wait_annce_typed w t : is_u16 (zigbee_wait_annce w t).2;
  find_sensor_typed w a t : addr_typed (zigbee_find_sensor w a t).2;
  read_basic_typed w a e t : basic_typed (zigbee_read_basic w a e t).2;
  bind_sensor_typed w a e t : is_s32 (zigbee_bind_sensor w a e t).2;
  subscribe_sensor_typed w a e t : is_s32 (zigbee_subscribe_sensor w a e t).2;
  config_report_typed w a e t : is_s32 (zigbee_config_report w a e t).2;
  read_temp_typed w a e t : temp_typed (zigbee_read_temp w a e t).2;
  get_last_temp_typed w : is_s16 (zigbee_get_last_temp w).2
}.

#[export] Hint Resolve get_short_addr_typed get_panid_typed get_channel_typed
  get_sensor_addr_typed open_network_typed wait_annce_typed bind_sensor_typed
  subscribe_sensor_typed config_report_typed get_last_temp_typed : zbr.
