(* ===== verification/ClientApi.v ===== *)
(** * The client's Zigbee API: zb_rpc_client/include/zigbee_api.h

    The thirteen functions of the firmware's API, implemented by calls over
    the connection [g_fd].  [client W] is the header's global over the world
    the connection lives in.  A call that fails, or that is made detached,
    yields the function's own failure value. *)

From Stdlib Require Import ZArith Lia.
From Stdlib Require Import Strings.Byte.
From stdpp Require Import base tactics list numbers option vector.
From S2P Require Import Prelude Protocol Reflection Posix Engine ZigbeeApi.

Definition k_invalid_short_addr : Z := 0xFFFF.

Record client (W : Type) := MkClient { g_fd : Z; c_world : W }.

Arguments MkClient {W} _ _.
Arguments g_fd {W} _.
Arguments c_world {W} _.

Section ClientApi.
Context {W : Type} `{Posix W}.

Definition attach (fd : Z) : St (client W) bool :=
  modify (fun c => MkClient fd (c_world c));; mret (0 <=? fd).

Definition detach : St (client W) unit := modify (fun c => MkClient (-1) (c_world c)).

Definition attached (c : client W) : bool := 0 <=? g_fd c.

(** [zigbee_rpc::engine()]: a new engine on the connection. *)
Definition engine (c : client W) : Engine W := new_engine (c_world c).

Definition to_wire (short_addr ep : Z) : zb_addr_t :=
  MkZbAddr (to_le32_s 0) (to_le16 short_addr) (Z_to_byte ep).

(** The common shape of the functions below: nothing is sent detached; a new
    engine makes the call; a call that fails yields [fail]. *)
Definition with_call {R A} (call : Engine W -> Engine W * option R) (fail : A) (ok : R -> A)
    : St (client W) A := fun c =>
  if negb (attached c) then (c, fail)
  else
    let '(e, response) := call (engine c) in
    (MkClient (g_fd c) (fd_ e), match response with Some r => ok r | None => fail end).

Definition zigbee_get_short_addr : St (client W) Z :=
  with_call (call_empty desc.get_short_addr) 0 (fun r => from_le16 (u16r_value r)).

Definition zigbee_get_panid : St (client W) Z :=
  with_call (call_empty desc.get_panid) 0 (fun r => from_le16 (u16r_value r)).

Definition zigbee_get_channel : St (client W) Z :=
  with_call (call_empty desc.get_channel) 0 (fun r => byte_to_Z (u8r_value r)).

Definition zigbee_get_sensor_addr : St (client W) Z :=
  with_call (call_empty desc.get_sensor_addr) k_invalid_short_addr
    (fun r => from_le16 (u16r_value r)).

Definition zigbee_open_network (duration : Z) : St (client W) Z :=
  with_call (fun e => call desc.open_network e (MkOpenNetworkReq (Z_to_byte duration))) (-1)
    (fun r => from_le32_s (i32r_value r)).

Definition zigbee_wait_annce (_timeout_ms : Z) : St (client W) Z :=
  with_call (call_empty desc.wait_annce) 0 (fun r => from_le16 (u16r_value r)).

Definition zigbee_find_sensor (short_addr _timeout_ms : Z) : St (client W) zigbee_addr_t :=
  with_call (fun e => call desc.find_sensor e (MkFindSensorReq (to_le16 short_addr)))
    (MkZigbeeAddr (-1) 0 0)
    (fun r => MkZigbeeAddr (from_le32_s (zba_err r)) (from_le16 (zba_short_addr r))
                           (byte_to_Z (zba_ep r))).

Definition zigbee_read_basic (short_addr ep _timeout_ms : Z) : St (client W) zigbee_basic_t :=
  with_call (fun e => call desc.read_basic e (to_wire short_addr ep))
    (MkZigbeeBasic (-1) zero_char16 zero_char16)
    (fun r => MkZigbeeBasic (from_le32_s (zbb_err r)) (zbb_manufacturer r) (zbb_model r)).

Definition zigbee_bind_sensor (short_addr ep _timeout_ms : Z) : St (client W) Z :=
  with_call (fun e => call desc.bind_sensor e (to_wire short_addr ep)) (-1)
    (fun r => from_le32_s (i32r_value r)).

Definition zigbee_subscribe_sensor (short_addr ep _timeout_ms : Z) : St (client W) Z :=
  with_call (fun e => call desc.subscribe_sensor e (to_wire short_addr ep)) (-1)
    (fun r => from_le32_s (i32r_value r)).

Definition zigbee_config_report (short_addr ep _timeout_ms : Z) : St (client W) Z :=
  with_call (fun e => call desc.config_report e (to_wire short_addr ep)) (-1)
    (fun r => from_le32_s (i32r_value r)).

Definition zigbee_read_temp (short_addr ep _timeout_ms : Z) : St (client W) zigbee_temp_t :=
  with_call (fun e => call desc.read_temp e (to_wire short_addr ep))
    (MkZigbeeTemp (-1) 0 0 0 0)
    (fun r => MkZigbeeTemp (from_le32_s (zbt_err r)) (from_le16_s (zbt_measured r))
                (from_le16_s (zbt_min_measured r)) (from_le16_s (zbt_max_measured r))
                (from_le16_s (zbt_tolerance r))).

Definition zigbee_get_last_temp : St (client W) Z :=
  with_call (call_empty desc.get_last_temp) 0 (fun r => from_le16_s (i16r_value r)).
End ClientApi.

(** ** The client implements the API *)

#[export] Instance client_api {W} `{Posix W} : ZigbeeApi (client W) := {|
  ZigbeeApi.zigbee_get_short_addr := zigbee_get_short_addr;
  ZigbeeApi.zigbee_get_panid := zigbee_get_panid;
  ZigbeeApi.zigbee_get_channel := zigbee_get_channel;
  ZigbeeApi.zigbee_get_sensor_addr := zigbee_get_sensor_addr;
  ZigbeeApi.zigbee_open_network w d := zigbee_open_network d w;
  ZigbeeApi.zigbee_wait_annce w t := zigbee_wait_annce t w;
  ZigbeeApi.zigbee_find_sensor w a t := zigbee_find_sensor a t w;
  ZigbeeApi.zigbee_read_basic w a e t := zigbee_read_basic a e t w;
  ZigbeeApi.zigbee_bind_sensor w a e t := zigbee_bind_sensor a e t w;
  ZigbeeApi.zigbee_subscribe_sensor w a e t := zigbee_subscribe_sensor a e t w;
  ZigbeeApi.zigbee_config_report w a e t := zigbee_config_report a e t w;
  ZigbeeApi.zigbee_read_temp w a e t := zigbee_read_temp a e t w;
  ZigbeeApi.zigbee_get_last_temp := zigbee_get_last_temp
|}.

Section Facts.
Context {W : Type} `{Posix W}.
Implicit Types c : client W.

(** A detached client sends nothing. *)
Lemma with_call_detached {R A} (f : Engine W -> Engine W * option R) (fail : A) ok c :
  attached c = false -> with_call f fail ok c = (c, fail).
Proof. intros Hc. unfold with_call. by rewrite Hc. Qed.

Lemma with_call_attached {R A} (f : Engine W -> Engine W * option R) (fail : A) ok c :
  attached c = true ->
  with_call f fail ok c =
  (MkClient (g_fd c) (fd_ (f (engine c)).1),
   match (f (engine c)).2 with Some r => ok r | None => fail end).
Proof. intros Hc. unfold with_call. rewrite Hc. cbn. by destruct (f (engine c)). Qed.
End Facts.
