(* ===== verification/ThermostatApp.v ===== *)
(** * The application: zb_rpc_client/include/thermostat_app.hpp

    [run] over any world with the Zigbee API ([ZigbeeApi]) and the two macros
    the file is compiled with ([AppEnv]: a log line and a sleep).  The same
    definition is the coordinator's sequence over the firmware and the
    client's over RPC. *)

From Stdlib Require Import ZArith Lia.
From Stdlib Require Import Strings.Byte.
From Stdlib Require Import String.
From stdpp Require Import base tactics list numbers option vector strings.
From S2P Require Import Prelude ZigbeeApi.

(** Arguments of a log line: an integer, a string, a temperature in degrees
    (given by its hundredths: [to_celsius]). *)
Inductive log_arg :=
  | LInt (z : Z)
  | LStr (s : list byte)
  | LCelsius (hundredths : Z).

Class AppEnv (W : Type) := {
  ZB_APP_LOG : W -> string -> list log_arg -> W;
  ZB_APP_SLEEP_MS : W -> Z -> W
}.

Definition k_request_timeout_ms : Z := 15000.
Definition k_annce_timeout_ms : Z := 180000.
Definition k_open_network_seconds : Z := 180.
Definition k_invalid_short_addr : Z := 0xFFFF.

Inductive Result :=
  | success
  | failure
  | retry_without_cache.

#[export] Instance Result_eq_dec : EqDecision Result.
Proof. solve_decision. Defined.

(** What [%s] prints of a [char] array. *)
Fixpoint c_string (s : list byte) : list byte :=
  match s with
  | [] => []
  | b :: s => if Byte.eqb b x00 then [] else b :: c_string s
  end.

Section App.
Context {W : Type} `{ZigbeeApi W, AppEnv W}.

(** The API and the macros as steps of the program. *)
Definition log (fmt : string) (args : list log_arg) : St W unit :=
  modify (fun w => ZB_APP_LOG w fmt args).

Definition sleep_ms (ms : Z) : St W unit := modify (fun w => ZB_APP_SLEEP_MS w ms).

Definition print_temp_attrs (attrs : zigbee_temp_t) : St W unit :=
  log "Read Attributes of Temperature Measurement" [];;
  log "Measured value: %.2f degrees Celsius" [LCelsius (zt_measured attrs)];;
  log "Min measured value: %.2f degrees Celsius" [LCelsius (zt_min_measured attrs)];;
  log "Max measured value: %.2f degrees Celsius" [LCelsius (zt_max_measured attrs)].

(** The cached-sensor probe: the early return, or the sensor and whether it
    is reused. *)
Definition probe (panid channel : Z) : St W (option (zigbee_addr_t * bool)) :=
  let nothing := MkZigbeeAddr 0 0 0 in
  known ← zigbee_get_sensor_addr;
  if known =? k_invalid_short_addr then
    log "Server has no cached sensor API; reconnecting" [];; mret None
  else if negb (known =? 0) then
    log "Network(0x%04x) on channel %u is already running; trying known sensor 0x%04x"
        [LInt panid; LInt channel; LInt known];;
    sensor ← (fun w => zigbee_find_sensor w known k_request_timeout_ms);
    if za_err sensor =? 0 then
      log "Reusing HA temperature sensor at (0x%04x, 0x%02x)"
          [LInt (za_short_addr sensor); LInt (za_ep sensor)];;
      mret (Some (sensor, true))
    else
      log "Known sensor did not respond; falling back to commissioning" [];;
      mret (Some (sensor, false))
  else mret (Some (nothing, false)).
(** The five readings after commissioning. *)
Fixpoint readings (n : nat) : St W unit :=
  match n with
  | O => mret tt
  | S n =>
      last ← zigbee_get_last_temp;
      log "Temperature sensor measured value: %.2f degrees Celsius" [LCelsius last];;
      sleep_ms 2000;;
      readings n
  end.

(** [if (!reused_sensor) { ... }]: the sensor, or the early return. *)
Definition commission (panid : Z) : St W (option zigbee_addr_t) :=
  open_status ← (fun w => zigbee_open_network w k_open_network_seconds);
  if negb (open_status =? 0) then
    log "Failed to open network (%ld)" [LInt open_status];; mret None
  else
  log "Network(0x%04x) is open for %u seconds" [LInt panid; LInt k_open_network_seconds];;
  peer ← (fun w => zigbee_wait_annce w k_annce_timeout_ms);
  if peer =? 0 then
    log "Timed out waiting for DEVICE_ANNCE" [];; mret None
  else
  log "New device commissioned or rejoined (short: 0x%04x)" [LInt peer];;
  log "Attempt to find HA temperature sensor device on address(0x%04x)" [LInt peer];;
  sensor ← (fun w => zigbee_find_sensor w peer k_request_timeout_ms);
  if negb (za_err sensor =? 0) then
    log "Failed to find HA temperature sensor (%ld)" [LInt (za_err sensor)];; mret None
  else
  let short_addr := za_short_addr sensor in
  let ep := za_ep sensor in
  log "Attempt to read manuf_code and model_id from device (0x%04x, 0x%02x)"
      [LInt short_addr; LInt ep];;
  basic ← (fun w => zigbee_read_basic w short_addr ep k_request_timeout_ms);
  if negb (zb_err basic =? 0) then
    log "Failed to read Basic attributes (%ld)" [LInt (zb_err basic)];; mret None
  else
  log "Model identifier: %s" [LStr (c_string (zb_model basic))];;
  log "Manufacturer name: %s" [LStr (c_string (zb_manufacturer basic))];;
  log "Attempt to bind temperature sensor device (0x%04x, 0x%02x) to local"
      [LInt short_addr; LInt ep];;
  bind_status ← (fun w => zigbee_bind_sensor w short_addr ep k_request_timeout_ms);
  if negb (bind_status =? 0) then
    log "Failed to bind temperature sensor (%ld)" [LInt bind_status];; mret None
  else
  log "Bound HA temperature sensor device (0x%04x, 0x%02x) to local successfully"
      [LInt short_addr; LInt ep];;
  log "Attempt to subscribe temperature sensor device (0x%04x, 0x%02x) from local"
      [LInt short_addr; LInt ep];;
  subscribe_status ← (fun w => zigbee_subscribe_sensor w short_addr ep k_request_timeout_ms);
  if negb (subscribe_status =? 0) then
    log "Failed to subscribe temperature sensor (%ld)" [LInt subscribe_status];; mret None
  else
  log "Subscribed HA temperature sensor device (0x%04x, 0x%02x) from local successfully"
      [LInt short_addr; LInt ep];;
  log "Attempt to configure reporting for HA temperature sensor" [];;
  report_status ← (fun w => zigbee_config_report w short_addr ep k_request_timeout_ms);
  if negb (report_status =? 0) then
    log "Failed to configure reporting (%ld)" [LInt report_status];; mret None
  else
  readings 5;;
  mret (Some sensor).

Definition read_and_print (sensor : zigbee_addr_t) : St W Result :=
  attrs ← (fun w => zigbee_read_temp w (za_short_addr sensor) (za_ep sensor)
                                     k_request_timeout_ms);
  if negb (zt_err attrs =? 0) then
    log "Failed to read temperature attributes (%ld)" [LInt (zt_err attrs)];; mret failure
  else print_temp_attrs attrs;; mret success.

Definition run (probe_cached_sensor : bool) : St W Result :=
  panid ← zigbee_get_panid;
  channel ← zigbee_get_channel;
  cached ← (if probe_cached_sensor && negb (panid =? 0) then probe panid channel
            else mret (Some (MkZigbeeAddr 0 0 0, false)));
  match cached with
  | None => mret retry_without_cache
  | Some (sensor, true) => read_and_print sensor
  | Some (_, false) =>
      r ← commission panid;
      match r with
      | None => mret failure
      | Some sensor => read_and_print sensor
      end
  end.
End App.
