(* ===== verification/ThermostatFacts.v ===== *)
(** * The application: simulation and order of calls

    [ApiSim] says that two worlds answer every call of the API alike and with
    values of the C types; [run] then cannot tell them apart.  [traced W]
    records the calls [run] makes. *)

From Stdlib Require Import ZArith Lia.
From Stdlib Require Import String.
From stdpp Require Import base tactics list numbers option vector strings.
From S2P Require Import Prelude ZigbeeApi ThermostatApp.

(** ** Simulation *)

(** Two steps that preserve [R] and return the same result, satisfying [Q]. *)
Definition steps_alike {W1 W2 A} (R : W1 -> W2 -> Prop) (Q : A -> Prop) (m1 : St W1 A)
    (m2 : St W2 A) : Prop :=
  forall w1 w2, R w1 w2 ->
    R (m1 w1).1 (m2 w2).1 /\ (m1 w1).2 = (m2 w2).2 /\ Q (m2 w2).2.

Class ApiSim {W1 W2} `{ZigbeeApi W1, ZigbeeApi W2} (R : W1 -> W2 -> Prop) := {
  sim_short_addr : steps_alike R is_u16 zigbee_get_short_addr zigbee_get_short_addr;
  sim_panid : steps_alike R is_u16 zigbee_get_panid zigbee_get_panid;
  sim_channel : steps_alike R is_u8 zigbee_get_channel zigbee_get_channel;
  sim_sensor_addr : steps_alike R is_u16 zigbee_get_sensor_addr zigbee_get_sensor_addr;
  sim_last_temp : steps_alike R is_s16 zigbee_get_last_temp zigbee_get_last_temp;
  sim_open d : is_u8 d ->
    steps_alike R is_s32 (fun w => zigbee_open_network w d) (fun w => zigbee_open_network w d);
  sim_annce t :
    steps_alike R is_u16 (fun w => zigbee_wait_annce w t) (fun w => zigbee_wait_annce w t);
  sim_find a t : is_u16 a ->
    steps_alike R addr_typed (fun w => zigbee_find_sensor w a t)
                             (fun w => zigbee_find_sensor w a t);
  sim_basic a ep t : is_u16 a -> is_u8 ep ->
    steps_alike R basic_typed (fun w => zigbee_read_basic w a ep t)
                              (fun w => zigbee_read_basic w a ep t);
  sim_bind a ep t : is_u16 a -> is_u8 ep ->
    steps_alike R is_s32 (fun w => zigbee_bind_sensor w a ep t)
                         (fun w => zigbee_bind_sensor w a ep t);
  sim_subscribe a ep t : is_u16 a -> is_u8 ep ->
    steps_alike R is_s32 (fun w => zigbee_subscribe_sensor w a ep t)
                         (fun w => zigbee_subscribe_sensor w a ep t);
  sim_report a ep t : is_u16 a -> is_u8 ep ->
    steps_alike R is_s32 (fun w => zigbee_config_report w a ep t)
                         (fun w => zigbee_config_report w a ep t);
  sim_temp a ep t : is_u16 a -> is_u8 ep ->
    steps_alike R temp_typed (fun w => zigbee_read_temp w a ep t)
                             (fun w => zigbee_read_temp w a ep t)
}.

(** The macros of the application preserve the relation. *)
Class EnvSim {W1 W2} `{AppEnv W1, AppEnv W2} (R : W1 -> W2 -> Prop) := {
  sim_log w1 w2 fmt args : R w1 w2 -> R (ZB_APP_LOG w1 fmt args) (ZB_APP_LOG w2 fmt args);
  sim_sleep w1 w2 ms : R w1 w2 -> R (ZB_APP_SLEEP_MS w1 ms) (ZB_APP_SLEEP_MS w2 ms)
}.

Section Sim.
Context {W1 W2 : Type} (R : W1 -> W2 -> Prop).

Lemma alike_ret {A} (Q : A -> Prop) (a : A) : Q a -> steps_alike R Q (mret a) (mret a).
Proof. intros Ha w1 w2 Hw. by split_and!. Qed.

Lemma alike_bind {A B} (Q : A -> Prop) (P : B -> Prop) m1 m2 (k1 : A -> St W1 B)
    (k2 : A -> St W2 B) :
  steps_alike R Q m1 m2 -> (forall a, Q a -> steps_alike R P (k1 a) (k2 a)) ->
  steps_alike R P (m1 ≫= k1) (m2 ≫= k2).
Proof.
  intros Hm Hk w1 w2 Hw. destruct (Hm w1 w2 Hw) as (Hr & Ha & HQ). unfold mbind, St_bind.
  destruct (m1 w1) as [w1' a1], (m2 w2) as [w2' a2]. cbn [fst snd] in *. subst a1.
  by apply Hk.
Qed.

Context `{ZigbeeApi W1, ZigbeeApi W2, !AppEnv W1, !AppEnv W2, !ApiSim R, !EnvSim R}.

Lemma alike_log fmt args : steps_alike R (fun _ => True) (log fmt args) (log fmt args).
Proof. intros w1 w2 Hw. split; [by apply sim_log|done]. Qed.

Lemma alike_sleep ms : steps_alike R (fun _ => True) (sleep_ms ms) (sleep_ms ms).
Proof. intros w1 w2 Hw. split; [by apply sim_sleep|done]. Qed.

Lemma alike_print a : steps_alike R (fun _ => True) (print_temp_attrs a) (print_temp_attrs a).
Proof.
  unfold print_temp_attrs. repeat (eapply alike_bind; [apply alike_log|]; intros _ _).
  apply alike_log.
Qed.

Lemma alike_readings n : steps_alike R (fun _ => True) (readings n) (readings n).
Proof.
  induction n as [|n IH]; [by apply alike_ret|]. cbn [readings].
  eapply alike_bind; [apply sim_last_temp|]. intros last _.
  eapply alike_bind; [apply alike_log|]. intros _ _.
  eapply alike_bind; [apply alike_sleep|]. by intros _ _.
Qed.

Definition maybe {A} (Q : A -> Prop) (o : option A) : Prop :=
  match o with Some a => Q a | None => True end.

Lemma zero_addr_typed : addr_typed (MkZigbeeAddr 0 0 0).
Proof. unfold addr_typed, is_s32, is_u16, is_u8; cbn. lia. Qed.

(** One step of the sequence: a log line, or a call with typed arguments. *)
Ltac alike_step :=
  first
  [ eapply alike_bind; [apply alike_log|]; intros _ _
  | eapply alike_bind; [eapply sim_basic || eapply sim_bind || eapply sim_subscribe ||
                        eapply sim_report || eapply sim_find; eassumption|]; intros ? ?
  | match goal with |- steps_alike _ _ (if ?b then _ else _) _ => destruct b end
  | apply alike_ret; exact I ].

Lemma alike_probe panid channel :
  steps_alike R (maybe (fun x => addr_typed x.1)) (probe panid channel) (probe panid channel).
Proof.
  unfold probe. eapply alike_bind; [apply sim_sensor_addr|]. intros known Hk.
  repeat alike_step; apply alike_ret; cbn; auto using zero_addr_typed.
Qed.

Lemma alike_commission panid :
  steps_alike R (maybe addr_typed) (commission panid) (commission panid).
Proof.
  unfold commission. eapply alike_bind; [apply sim_open; unfold is_u8, k_open_network_seconds; lia|].
  intros open_status _. repeat alike_step.
  eapply alike_bind; [apply sim_annce|]. intros peer Hp. repeat alike_step.
  match goal with a : zigbee_addr_t |- _ => assert (Ha : addr_typed a) by assumption end.
  pose proof Ha as (_ & Hs & He). repeat alike_step.
  eapply alike_bind; [apply alike_readings|]. intros _ _. by apply alike_ret.
Qed.

Lemma alike_read_and_print sensor :
  addr_typed sensor ->
  steps_alike R (fun _ => True) (read_and_print sensor) (read_and_print sensor).
Proof.
  intros (_ & Ha & He). unfold read_and_print.
  eapply alike_bind; [by apply sim_temp|]. intros attrs _. repeat alike_step.
  eapply alike_bind; [apply alike_print|]. intros _ _. by apply alike_ret.
Qed.

(** The application cannot tell the worlds apart. *)
Lemma alike_run probing : steps_alike R (fun _ => True) (run probing) (run probing).
Proof.
  unfold run. eapply alike_bind; [apply sim_panid|]. intros panid _.
  eapply alike_bind; [apply sim_channel|]. intros channel _.
  eapply alike_bind with (Q := maybe (fun x => addr_typed x.1)).
  { destruct (_ && _); [apply alike_probe | apply alike_ret, zero_addr_typed]. }
  intros [[sensor []]|] Hs; [by apply alike_read_and_print| |by apply alike_ret].
  eapply alike_bind; [apply alike_commission|].
  intros [s|] Ht; [by apply alike_read_and_print | by apply alike_ret].
Qed.
End Sim.

(** ** A world that records what the application does *)

Inductive api_op :=
  | OpShortAddr | OpPanid | OpChannel | OpSensorAddr | OpLastTemp
  | OpOpen (duration : Z)
  | OpAnnce (timeout_ms : Z)
  | OpFind (short_addr timeout_ms : Z)
  | OpBasic (short_addr ep timeout_ms : Z)
  | OpBind (short_addr ep timeout_ms : Z)
  | OpSubscribe (short_addr ep timeout_ms : Z)
  | OpReport (short_addr ep timeout_ms : Z)
  | OpTemp (short_addr ep timeout_ms : Z).

Inductive app_event :=
  | EvCall (op : api_op)
  | EvLog (fmt : string) (args : list log_arg)
  | EvSleep (ms : Z).

Record app_world (W : Type) := MkAppWorld { aw_events : list app_event; aw_world : W }.

Arguments MkAppWorld {W} _ _.
Arguments aw_events {W} _.
Arguments aw_world {W} _.

Definition record {W A} (op : api_op) (f : W -> W * A) : St (app_world W) A := fun w =>
  let '(w', a) := f (aw_world w) in (MkAppWorld (aw_events w ++ [EvCall op]) w', a).

#[export] Instance app_world_api {W} `{ZigbeeApi W} : ZigbeeApi (app_world W) := {|
  zigbee_get_short_addr := record OpShortAddr zigbee_get_short_addr;
  zigbee_get_panid := record OpPanid zigbee_get_panid;
  zigbee_get_channel := record OpChannel zigbee_get_channel;
  zigbee_get_sensor_addr := record OpSensorAddr zigbee_get_sensor_addr;
  zigbee_open_network w d := record (OpOpen d) (fun w => zigbee_open_network w d) w;
  zigbee_wait_annce w t := record (OpAnnce t) (fun w => zigbee_wait_annce w t) w;
  zigbee_find_sensor w a t := record (OpFind a t) (fun w => zigbee_find_sensor w a t) w;
  zigbee_read_basic w a e t := record (OpBasic a e t) (fun w => zigbee_read_basic w a e t) w;
  zigbee_bind_sensor w a e t := record (OpBind a e t) (fun w => zigbee_bind_sensor w a e t) w;
  zigbee_subscribe_sensor w a e t :=
    record (OpSubscribe a e t) (fun w => zigbee_subscribe_sensor w a e t) w;
  zigbee_config_report w a e t :=
    record (OpReport a e t) (fun w => zigbee_config_report w a e t) w;
  zigbee_read_temp w a e t := record (OpTemp a e t) (fun w => zigbee_read_temp w a e t) w;
  zigbee_get_last_temp := record OpLastTemp zigbee_get_last_temp
|}.

#[export] Instance app_world_env {W} : AppEnv (app_world W) := {|
  ZB_APP_LOG w fmt args := MkAppWorld (aw_events w ++ [EvLog fmt args]) (aw_world w);
  ZB_APP_SLEEP_MS w ms := MkAppWorld (aw_events w ++ [EvSleep ms]) (aw_world w)
|}.

(** Worlds that simulate each other still do when recorded. *)
Definition app_rel {W1 W2} (R : W1 -> W2 -> Prop) (w1 : app_world W1) (w2 : app_world W2) : Prop :=
  aw_events w1 = aw_events w2 /\ R (aw_world w1) (aw_world w2).

Lemma record_alike {W1 W2 A} (R : W1 -> W2 -> Prop) (Q : A -> Prop) op f1 f2 :
  steps_alike R Q f1 f2 -> steps_alike (app_rel R) Q (record op f1) (record op f2).
Proof.
  intros Hf [ev1 w1] [ev2 w2] [He Hw]. cbn in *. destruct (Hf w1 w2 Hw) as (HR & Ha & HQ).
  unfold record. cbn. destruct (f1 w1), (f2 w2). cbn in *. by rewrite He.
Qed.

#[export] Instance app_world_sim {W1 W2} `{ZigbeeApi W1, ZigbeeApi W2} (R : W1 -> W2 -> Prop)
    `{!ApiSim R} : ApiSim (app_rel R).
Proof.
  split; intros; apply record_alike;
    auto using sim_short_addr, sim_panid, sim_channel, sim_sensor_addr, sim_last_temp, sim_open,
      sim_annce, sim_find, sim_basic, sim_bind, sim_subscribe, sim_report, sim_temp.
Qed.

#[export] Instance app_world_env_sim {W1 W2} (R : W1 -> W2 -> Prop) : EnvSim (app_rel R).
Proof.
  split; [intros ? ? ? ? [He Hw] | intros ? ? ? [He Hw]]; split; cbn; by rewrite ?He.
Qed.

(** ** The order of the calls *)

Section Order.
Context {W : Type} `{ZigbeeApi W}.

Definition calls (es : list app_event) : list api_op :=
  omap (fun e => match e with EvCall op => Some op | _ => None end) es.

(** What commissioning calls, when the device at [peer] announced itself and
    its sensor is [ep] of [a]. *)
Definition commission_calls (peer a ep : Z) : list api_op :=
  [OpOpen 180; OpAnnce 180000; OpFind peer 15000; OpBasic a ep 15000; OpBind a ep 15000;
   OpSubscribe a ep 15000; OpReport a ep 15000;
   OpLastTemp; OpLastTemp; OpLastTemp; OpLastTemp; OpLastTemp].

(** The complete sequences of calls of [run]: a known sensor is reused; or a
    sensor is commissioned, without a probe, after a probe that knows none, or
    after a known sensor did not answer. *)
Inductive app_sequence : bool -> list api_op -> Prop :=
  | seq_reused known a ep :
      app_sequence true [OpPanid; OpChannel; OpSensorAddr; OpFind known 15000; OpTemp a ep 15000]
  | seq_fresh probing peer a ep :
      app_sequence probing
        ([OpPanid; OpChannel] ++ commission_calls peer a ep ++ [OpTemp a ep 15000])
  | seq_unknown peer a ep :
      app_sequence true
        ([OpPanid; OpChannel; OpSensorAddr] ++ commission_calls peer a ep ++ [OpTemp a ep 15000])
  | seq_unanswered known peer a ep :
      app_sequence true
        ([OpPanid; OpChannel; OpSensorAddr; OpFind known 15000] ++ commission_calls peer a ep ++
         [OpTemp a ep 15000]).

(** [m] makes the calls [tr], for some [tr] with [P]. *)
Definition emits {A} (m : St (app_world W) A) (P : A -> list api_op -> Prop) : Prop :=
  forall w, exists tr, calls (aw_events (m w).1) = calls (aw_events w) ++ tr /\ P (m w).2 tr.

Lemma calls_app es es' : calls (es ++ es') = calls es ++ calls es'.
Proof. apply omap_app. Qed.

Lemma emits_ret {A} (a : A) (P : A -> list api_op -> Prop) : P a [] -> emits (mret a) P.
Proof. intros Ha w. exists []. by rewrite app_nil_r. Qed.

Lemma emits_call {A B} op (f : W -> W * A) (k : A -> St (app_world W) B) P :
  (forall a, emits (k a) (fun b tr => P b (op :: tr))) -> emits (record op f ≫= k) P.
Proof.
  intros Hk [es w]. unfold record, mbind, St_bind. cbn. destruct (f w) as [w' a].
  destruct (Hk a (MkAppWorld (es ++ [EvCall op]) w')) as (tr & E & HP).
  exists (op :: tr). split; [|done]. rewrite E. cbn. by rewrite calls_app, <- app_assoc.
Qed.

Lemma emits_log {B} fmt args (k : St (app_world W) B) P :
  emits k P -> emits (log fmt args;; k) P.
Proof.
  intros Hk [es w]. destruct (Hk (MkAppWorld (es ++ [EvLog fmt args]) w)) as (tr & E & HP).
  exists tr. split; [|done]. unfold log, modify, mbind, St_bind. cbn in *. rewrite E.
  by rewrite calls_app, app_nil_r.
Qed.

Lemma emits_sleep {B} ms (k : St (app_world W) B) P : emits k P -> emits (sleep_ms ms;; k) P.
Proof.
  intros Hk [es w]. destruct (Hk (MkAppWorld (es ++ [EvSleep ms]) w)) as (tr & E & HP).
  exists tr. split; [|done]. unfold sleep_ms, modify, mbind, St_bind. cbn in *. rewrite E.
  by rewrite calls_app, app_nil_r.
Qed.

Lemma emits_bind {A B} (m : St (app_world W) A) (k : A -> St _ B) Q P :
  emits m Q -> (forall a tr, Q a tr -> emits (k a) (fun b tr' => P b (tr ++ tr'))) ->
  emits (m ≫= k) P.
Proof.
  intros Hm Hk w. destruct (Hm w) as (tr & E & HQ). unfold mbind, St_bind.
  destruct (m w) as [w1 a]. cbn [fst snd] in *. destruct (Hk a tr HQ w1) as (tr' & E' & HP).
  exists (tr ++ tr'). by rewrite E', E, app_assoc.
Qed.

Ltac emits_step :=
  first
  [ apply emits_log
  | apply emits_sleep
  | eapply (emits_call _ _ _ _); intros ?
  | match goal with |- emits (if ?b then _ else _) _ => destruct b end ].

Lemma emits_readings {B} n (k : St (app_world W) B) P :
  emits k (fun b tr => P b (replicate n OpLastTemp ++ tr)) -> emits (readings n;; k) P.
Proof.
  intros Hk. eapply emits_bind with (Q := fun _ tr => tr = replicate n OpLastTemp).
  - clear Hk. induction n as [|n IH]; [by apply emits_ret|]. cbn [readings].
    eapply emits_call. intros last. apply emits_log, emits_sleep. intros w.
    destruct (IH w) as (tr & E & ->). by eexists.
  - by intros _ tr ->.
Qed.

Lemma emits_commission panid :
  emits (commission panid) (fun r tr => exists peer a ep rest,
    tr ++ rest = commission_calls peer a ep /\
    match r with
    | Some s => rest = [] /\ a = za_short_addr s /\ ep = za_ep s
    | None => True
    end).
Proof.
  unfold commission. repeat emits_step; try (apply emits_ret; by do 4 eexists).
  apply emits_readings, emits_ret. do 4 eexists. by split_and!.
  Unshelve. all: exact 0.
Qed.

Lemma emits_read_and_print sensor :
  emits (read_and_print sensor) (fun _ tr =>
    tr = [OpTemp (za_short_addr sensor) (za_ep sensor) 15000]).
Proof.
  unfold read_and_print, print_temp_attrs.
  repeat emits_step; try by apply emits_ret.
  eapply emits_bind with (Q := fun _ tr => tr = []).
  - repeat apply emits_log. intros w. exists []. split; [|done].
    destruct w. cbn. by rewrite calls_app.
  - intros _ tr ->. by apply emits_ret.
Qed.

Lemma run_emits probing :
  emits (run probing) (fun r tr => exists l rest,
    app_sequence probing l /\ tr ++ rest = l /\ (r = success -> rest = [])).
Proof.
  unfold run. eapply emits_call. intros panid. eapply emits_call. intros channel.
  set (Q := fun (c : option (zigbee_addr_t * bool)) tr =>
    match c with
    | None => probing = true /\ tr = [OpSensorAddr]
    | Some (s, true) => probing = true /\ exists known, tr = [OpSensorAddr; OpFind known 15000]
    | Some (s, false) =>
        tr = [] \/ probing = true /\
          (tr = [OpSensorAddr] \/ exists known, tr = [OpSensorAddr; OpFind known 15000])
    end).
  apply emits_bind with (Q := Q).
  { destruct probing; cbn [andb]; [|by apply emits_ret; left].
    destruct (negb _); [|by apply emits_ret; left]. unfold probe.
    repeat emits_step; apply emits_ret; cbn; eauto. }
  intros [[s []]|] tr HQ; cbn in HQ.
  - destruct HQ as (-> & known & ->). intros w.
    destruct (emits_read_and_print s w) as (tr & E & ->).
    eexists. split; [exact E|]. do 2 eexists. split; [apply seq_reused|]. by split; [by rewrite app_nil_r|].
  - eapply emits_bind; [apply emits_commission|]. intros [s'|] tr' (peer & a & ep & rest & Hl & Hr).
    + destruct Hr as (-> & -> & ->). rewrite app_nil_r in Hl. subst tr'. intros w.
      destruct (emits_read_and_print s' w) as (tr' & E & ->).
      eexists. split; [exact E|].
      destruct HQ as [->|[-> [->|[known ->]]]]; do 2 eexists.
      * split; [apply seq_fresh|]. by split; [by rewrite app_nil_r|].
      * split; [apply seq_unknown|]. by split; [by rewrite app_nil_r|].
      * split; [apply seq_unanswered|]. by split; [by rewrite app_nil_r|].
    + apply emits_ret. rewrite app_nil_r.
      destruct HQ as [->|[-> [->|[known ->]]]]; do 2 eexists.
      * split; [apply (seq_fresh _ peer a ep)|]. rewrite <- Hl. split; [|discriminate].
        cbn. by rewrite <- app_assoc.
      * split; [apply (seq_unknown peer a ep)|]. rewrite <- Hl. split; [|discriminate].
        cbn. by rewrite <- app_assoc.
      * split; [apply (seq_unanswered known peer a ep)|]. rewrite <- Hl. split; [|discriminate].
        cbn. by rewrite <- app_assoc.
  - destruct HQ as [-> ->]. apply emits_ret. do 2 eexists.
    split; [apply (seq_reused 0 0 0)|]. by split.
Qed.
End Order.
