(* ===== verification/Freertos.v ===== *)
(** * What the firmware uses of FreeRTOS

    Queues and binary semaphores are library code, so they are the interface
    [FreeRtos]: the operations of one task at one instant (a zero block time),
    the contents [queue_items] and the documented laws.  Blocking is the
    client's business: it polls, lets the other tasks run, and polls again.
    [list_rtos] is an implementation by lists, for examples. *)

From Stdlib Require Import ZArith Lia.
From stdpp Require Import base tactics list numbers option.
From S2P Require Import Prelude.

Class FreeRtos := {
  queue : Type -> Type;
  queue_items {A} : queue A -> list A;
  queue_length {A} : queue A -> nat;
  (** A queue fresh from [xQueueCreate(n, sizeof(A))]. *)
  new_queue {A} : nat -> queue A;
  (** [xQueueSend(q, &a, 0)]; the flag is [pdTRUE]. *)
  xQueueSend {A} : queue A -> A -> queue A * bool;
  (** [xQueueReceive(q, &a, 0)] *)
  xQueueReceive {A} : queue A -> queue A * option A;
  xQueueReset {A} : queue A -> queue A;

  semaphore : Type;
  sem_given : semaphore -> bool;
  (** A semaphore fresh from [xSemaphoreCreateBinary()]. *)
  new_binary : semaphore;
  xSemaphoreGive : semaphore -> semaphore;
  (** [xSemaphoreTake(s, 0)] *)
  xSemaphoreTake : semaphore -> semaphore * bool;

  (** [pdMS_TO_TICKS] *)
  ms_to_ticks : Z -> Z;

  new_queue_items {A} n : queue_items (new_queue (A := A) n) = [];
  new_queue_length {A} n : queue_length (new_queue (A := A) n) = n;
  send_length {A} (q : queue A) a : queue_length (xQueueSend q a).1 = queue_length q;
  send_room {A} (q : queue A) a :
    (length (queue_items q) < queue_length q)%nat ->
    queue_items (xQueueSend q a).1 = queue_items q ++ [a] /\ (xQueueSend q a).2 = true;
  send_full {A} (q : queue A) a :
    (queue_length q <= length (queue_items q))%nat ->
    queue_items (xQueueSend q a).1 = queue_items q /\ (xQueueSend q a).2 = false;
  receive_length {A} (q : queue A) : queue_length (xQueueReceive q).1 = queue_length q;
  receive_items {A} (q : queue A) :
    queue_items (xQueueReceive q).1 = tail (queue_items q) /\
    (xQueueReceive q).2 = head (queue_items q);
  reset_length {A} (q : queue A) : queue_length (xQueueReset q) = queue_length q;
  reset_items {A} (q : queue A) : queue_items (xQueueReset q) = [];

  new_binary_given : sem_given new_binary = false;
  give_given s : sem_given (xSemaphoreGive s) = true;
  take_given s :
    sem_given (xSemaphoreTake s).1 = false /\ (xSemaphoreTake s).2 = sem_given s
}.

Section Facts.
Context `{FreeRtos} {A : Type}.
Implicit Types q : queue A.

(** A queue never holds more than it was created for. *)
Definition queue_ok q : Prop := (length (queue_items q) <= queue_length q)%nat.

Lemma new_queue_ok n : queue_ok (new_queue (A := A) n).
Proof. unfold queue_ok. rewrite new_queue_items. cbn. lia. Qed.

Lemma send_items q a :
  queue_items (xQueueSend q a).1 =
  if decide (length (queue_items q) < queue_length q)%nat
  then queue_items q ++ [a] else queue_items q.
Proof. destruct (decide _); [by apply send_room | apply send_full; lia]. Qed.

Lemma send_ok q a : queue_ok q -> queue_ok (xQueueSend q a).1.
Proof.
  unfold queue_ok. intros Hq. rewrite send_length, send_items.
  destruct (decide _); [rewrite length_app; cbn; lia | done].
Qed.

Lemma receive_ok q : queue_ok q -> queue_ok (xQueueReceive q).1.
Proof.
  unfold queue_ok. intros Hq. rewrite receive_length, (proj1 (receive_items q)).
  destruct (queue_items q); cbn in *; lia.
Qed.

Lemma reset_ok q : queue_ok (xQueueReset q).
Proof. unfold queue_ok. rewrite reset_items. cbn. lia. Qed.

Lemma send_forall (P : A -> Prop) q a :
  P a -> Forall P (queue_items q) -> Forall P (queue_items (xQueueSend q a).1).
Proof.
  intros Ha Hq. rewrite send_items. destruct (decide _); [|done].
  apply Forall_app. split; [done|]. by constructor.
Qed.

Lemma receive_forall (P : A -> Prop) q :
  Forall P (queue_items q) ->
  Forall P (queue_items (xQueueReceive q).1) /\
  match (xQueueReceive q).2 with Some a => P a | None => True end.
Proof.
  intros Hq. destruct (receive_items q) as [-> ->].
  destruct Hq; cbn; by split.
Qed.
End Facts.

#[export] Hint Resolve new_queue_ok send_ok receive_ok reset_ok : zbr.

(** ** An implementation by lists *)

Record list_queue (A : Type) := MkListQueue { lq_cap : nat; lq_items : list A }.

Arguments MkListQueue {A} _ _.
Arguments lq_cap {A} _.
Arguments lq_items {A} _.

#[export] Program Instance list_rtos : FreeRtos := {|
  queue := list_queue;
  queue_items _ q := lq_items q;
  queue_length _ q := lq_cap q;
  new_queue _ n := MkListQueue n [];
  xQueueSend _ q a :=
    if decide (length (lq_items q) < lq_cap q)%nat
    then (MkListQueue (lq_cap q) (lq_items q ++ [a]), true) else (q, false);
  xQueueReceive _ q := (MkListQueue (lq_cap q) (tail (lq_items q)), head (lq_items q));
  xQueueReset _ q := MkListQueue (lq_cap q) [];
  semaphore := bool;
  sem_given s := s;
  new_binary := false;
  xSemaphoreGive _ := true;
  xSemaphoreTake s := (false, s);
  ms_to_ticks ms := ms
|}.
Solve Obligations with
  (intros; cbn; try destruct (decide _); cbn; auto with lia).
