(* ===== verification/PppUart.v ===== *)
(** * PPP over UART: zb_rpc_server/main/ppp_uart.c and app_main.c

    [ppp E] is the file's static variables over an environment [E], the UART
    driver and the network stack ([PppHw]); event groups and task
    notifications are FreeRTOS ([EventGroups], [TaskNotify]).  The event
    handlers run in the event-loop task, [reconnect_task] in its own: the
    whole is a state machine [ppp_sys] whose events [ppp_event] are the
    handlers' calls and the steps of the reconnect task from one blocking call
    to the next.  The receive task is [uart_receive_event], its reaction to one
    UART event. *)

From Stdlib Require Import ZArith Lia.
From Stdlib Require Import Strings.Byte.
From stdpp Require Import base tactics list numbers option.
From S2P Require Import Prelude Posix Freertos.

(** ** FreeRTOS event groups and notifications *)

Class EventGroups := {
  event_group : Type;
  eg_bits : event_group -> Z;
  (** A group fresh from [xEventGroupCreate()]. *)
  new_event_group : event_group;
  xEventGroupSetBits : event_group -> Z -> event_group;
  xEventGroupClearBits : event_group -> Z -> event_group;
  new_event_group_bits : eg_bits new_event_group = 0;
  set_bits g b : eg_bits (xEventGroupSetBits g b) = Z.lor (eg_bits g) b;
  clear_bits g b : eg_bits (xEventGroupClearBits g b) = Z.ldiff (eg_bits g) b
}.

Class TaskNotify := {
  task : Type;
  notify_value : task -> Z;
  xTaskNotifyGive : task -> task;
  (** [ulTaskNotifyTake(pdTRUE, ...)] once it returns. *)
  ulTaskNotifyTake : task -> task;
  give_value t : 0 <= notify_value t -> 0 < notify_value (xTaskNotifyGive t);
  take_value t : notify_value (ulTaskNotifyTake t) = 0
}.

(** ** Constants and the environment *)

Definition PPP_LINK_UP : Z := 2 ^ 0.
Definition PPP_UART_PHASE_DEAD : Z := 2 ^ 1.
Definition PPP_RX_CHUNK_SIZE : Z := 1024.
Definition PPP_RECONNECT_DELAY_MS : Z := 1000.
Definition PPP_STOP_TIMEOUT_MS : Z := 3000.

(** The identifiers of ESP-IDF the file compares with. *)
Class PppConst := {
  IP_EVENT_PPP_GOT_IP : Z;
  IP_EVENT_PPP_LOST_IP : Z;
  NETIF_PPP_PHASE_DEAD : Z;
  NETIF_PPP_ERRORNONE : Z;
  NETIF_PP_PHASE_OFFSET : Z;
  NETIF_PPP_INTERNAL_ERR_OFFSET : Z;
  ESP_OK : Z;
  ESP_FAIL : Z;
  ESP_ERR_NO_MEM : Z;
  CONFIG_PPP_MTU : Z;
  ppp_events_differ : IP_EVENT_PPP_GOT_IP <> IP_EVENT_PPP_LOST_IP;
  esp_codes_differ : ESP_OK <> ESP_FAIL /\ ESP_OK <> ESP_ERR_NO_MEM
}.

Inductive netif_action :=
  | action_start
  | action_connected
  | action_disconnected
  | action_stop.

(** [netif] is an [esp_netif_t *] other than [NULL]. *)
Class PppHw (E : Type) := {
  netif : Type;
  netif_eq_dec :: EqDecision netif;
  (** [uart_write_bytes(PPP_UART_PORT, bytes, length)]: what it returns. *)
  uart_write_bytes : list byte -> St E Z;
  (** [None]: not [ESP_OK]. *)
  uart_get_buffered_data_len : St E (option Z);
  (** [uart_read_bytes(PPP_UART_PORT, buffer, wanted, 0)] *)
  uart_read_bytes : Z -> St E (sysret (list byte));
  uart_flush_input : St E unit;
  esp_netif_receive : netif -> list byte -> St E Z;
  esp_netif_action : netif -> netif_action -> St E unit
}.

(** ** [uart_transmit] *)

Section Transmit.
Context `{PppConst} {E : Type} `{PppHw E}.

(** One turn of the fuel per [uart_write_bytes]; [None] is the loop cut
    short, which takes a driver that accepts nothing. *)
Fixpoint transmit_loop (fuel : nat) (e : E) (bytes : list byte) : option (E * Z) :=
  match bytes with
  | [] => Some (e, ESP_OK)
  | _ =>
      match fuel with
      | O => None
      | S fuel =>
          let '(e, written) := uart_write_bytes bytes e in
          if written <? 0 then Some (e, ESP_FAIL)
          else transmit_loop fuel e (drop (Z.to_nat written) bytes)
      end
  end.

Definition uart_transmit (e : E) (buffer : list byte) : option (E * Z) :=
  transmit_loop (length buffer) e buffer.
End Transmit.

(** ** The static variables *)

Inductive uart_event :=
  | UART_DATA
  | UART_FIFO_OVF
  | UART_BUFFER_FULL
  | UART_BREAK
  | UART_PARITY_ERR
  | UART_FRAME_ERR
  | UART_OTHER.

(** [None] is [NULL]. *)
Record ppp `{EventGroups, TaskNotify, FreeRtos} (E : Type) `{PppHw E} := MkPpp {
  s_link_events : option event_group;
  s_uart_events : option (queue uart_event);
  s_reconnect_task : option task;
  s_netif : option netif;
  p_env : E
}.

Arguments MkPpp {_ _ _ E _} _ _ _ _ _.
Arguments s_link_events {_ _ _ E _} _.
Arguments s_uart_events {_ _ _ E _} _.
Arguments s_reconnect_task {_ _ _ E _} _.
Arguments s_netif {_ _ _ E _} _.
Arguments p_env {_ _ _ E _} _.

(** What [ip_event_got_ip_t] is used for: whose event it is. *)
Record ip_event `{EventGroups, TaskNotify, FreeRtos} (E : Type) `{PppHw E} :=
  MkIpEvent { ie_netif : option netif }.

Arguments MkIpEvent {_ _ _ E _} _.
Arguments ie_netif {_ _ _ E _} _.

Section Ppp.
Context `{PppConst, EventGroups, TaskNotify, FreeRtos} {E : Type} `{PppHw E}.
Implicit Types p : ppp E.

Definition set_link_events (g : option event_group) p : ppp E :=
  MkPpp g (s_uart_events p) (s_reconnect_task p) (s_netif p) (p_env p).

Definition set_uart_events (q : option (queue uart_event)) p : ppp E :=
  MkPpp (s_link_events p) q (s_reconnect_task p) (s_netif p) (p_env p).

Definition set_reconnect_task (t : option task) p : ppp E :=
  MkPpp (s_link_events p) (s_uart_events p) t (s_netif p) (p_env p).

Definition set_netif (n : option netif) p : ppp E :=
  MkPpp (s_link_events p) (s_uart_events p) (s_reconnect_task p) n (p_env p).

Definition set_p_env (e : E) p : ppp E :=
  MkPpp (s_link_events p) (s_uart_events p) (s_reconnect_task p) (s_netif p) e.

Definition link_bits p : Z := match s_link_events p with Some g => eg_bits g | None => 0 end.

(** The handlers run only once the group exists ([ppp_uart_start]). *)
Definition set_link_bits (b : Z) : St (ppp E) unit :=
  modify (fun p => set_link_events ((fun g => xEventGroupSetBits g b) <$> s_link_events p) p).

Definition clear_link_bits (b : Z) : St (ppp E) unit :=
  modify (fun p => set_link_events ((fun g => xEventGroupClearBits g b) <$> s_link_events p) p).

(** [if (s_reconnect_task != NULL) xTaskNotifyGive(s_reconnect_task)] *)
Definition notify_reconnect : St (ppp E) unit :=
  modify (fun p => set_reconnect_task (xTaskNotifyGive <$> s_reconnect_task p) p).

Definition netif_call (a : netif_action) : St (ppp E) unit := fun p =>
  match s_netif p with
  | Some n => (set_p_env (esp_netif_action n a (p_env p)).1 p, tt)
  | None => (p, tt)
  end.

(** ** The event handlers *)

Definition event_is_for_our_netif p (event_data : option (ip_event E)) : bool :=
  match event_data with
  | Some event => bool_decide (ie_netif event = s_netif p)
  | None => false
  end.

Definition request_reconnect : St (ppp E) unit :=
  clear_link_bits PPP_LINK_UP;;
  notify_reconnect.

Definition on_ip_event (event_id : Z) (event_data : option (ip_event E)) : St (ppp E) unit :=
  ours ← gets (fun p => event_is_for_our_netif p event_data);
  if negb ours then mret tt
  else if event_id =? IP_EVENT_PPP_GOT_IP then
    clear_link_bits PPP_UART_PHASE_DEAD;;
    set_link_bits PPP_LINK_UP
  else if event_id =? IP_EVENT_PPP_LOST_IP then request_reconnect
  else mret tt.

Definition on_ppp_status (event_id : Z) : St (ppp E) unit :=
  if event_id =? NETIF_PPP_PHASE_DEAD then set_link_bits PPP_UART_PHASE_DEAD
  else if (event_id =? NETIF_PPP_ERRORNONE) ||
          ((NETIF_PP_PHASE_OFFSET <=? event_id) && (event_id <? NETIF_PPP_INTERNAL_ERR_OFFSET))
  then mret tt
  else request_reconnect.

Definition ppp_uart_is_connected p : bool :=
  match s_link_events p with
  | Some g => negb (Z.land (eg_bits g) PPP_LINK_UP =? 0)
  | None => false
  end.

(** ** The receive task *)

(** The drain loop of [UART_DATA]; a read returns at least one byte or ends
    it, so [remaining] turns are enough. *)
Fixpoint drain_loop (fuel : nat) (n : netif) (remaining : Z) (e : E) : option E :=
  if 0 <? remaining then
    match fuel with
    | O => None
    | S fuel =>
        let wanted := if remaining <? PPP_RX_CHUNK_SIZE then remaining else PPP_RX_CHUNK_SIZE in
        let '(e, r) := uart_read_bytes wanted e in
        match r with
        | SysErr _ | SysOk [] => Some e
        | SysOk bytes =>
            let '(e, _) := esp_netif_receive n bytes e in
            drain_loop fuel n (remaining - Z.of_nat (length bytes)) e
        end
    end
  else Some e.

Definition uart_receive_event (event : uart_event) p : option (ppp E) :=
  match event, s_netif p with
  | UART_DATA, Some n =>
      match uart_get_buffered_data_len (p_env p) with
      | (e, None) => Some (set_p_env e p)
      | (e, Some remaining) =>
          e ← drain_loop (Z.to_nat remaining) n remaining e;
          Some (set_p_env e p)
      end
  | (UART_FIFO_OVF | UART_BUFFER_FULL), _ =>
      let '(e, _) := uart_flush_input (p_env p) in
      Some (set_uart_events (xQueueReset <$> s_uart_events p) (set_p_env e p))
  | _, _ => Some p
  end.

(** ** The reconnect task and its interleavings *)

(** Where the task blocks: in [ulTaskNotifyTake], in [vTaskDelay], in
    [xEventGroupWaitBits]. *)
Inductive reconnect_pc :=
  | RTake
  | RDelay
  | RWaitDead.

Record ppp_sys := MkSys { sys_pc : reconnect_pc; sys_ppp : ppp E }.

(** [Reconnect timeout]: the task's blocking call returns, by its timeout
    where that is given. *)
Inductive ppp_event :=
  | IpEvent (event_id : Z) (event_data : option (ip_event E))
  | StatusEvent (event_id : Z)
  | Reconnect (timeout : bool).

Definition run_handler (m : St (ppp E) unit) (s : ppp_sys) : ppp_sys :=
  MkSys (sys_pc s) (m (sys_ppp s)).1.

(** After [vTaskDelay]. *)
Definition reconnect_check : St (ppp E) reconnect_pc :=
  connected ← gets ppp_uart_is_connected;
  if (connected : bool) then mret RTake
  else
    netif_call action_disconnected;;
    mret RWaitDead.

(** After [xEventGroupWaitBits]. *)
Definition reconnect_restart : St (ppp E) reconnect_pc :=
  bits ← gets link_bits;
  if Z.land bits PPP_UART_PHASE_DEAD =? 0 then
    notify_reconnect;;
    mret RTake
  else
    netif_call action_stop;;
    clear_link_bits PPP_UART_PHASE_DEAD;;
    netif_call action_start;;
    netif_call action_connected;;
    mret RTake.

Definition goto (m : St (ppp E) reconnect_pc) (s : ppp_sys) : ppp_sys :=
  let '(p, pc) := m (sys_ppp s) in MkSys pc p.

Definition task_notified p : bool :=
  match s_reconnect_task p with Some t => 0 <? notify_value t | None => false end.

(** [None]: the task stays blocked. *)
Definition reconnect_task (timeout : bool) (s : ppp_sys) : option ppp_sys :=
  match sys_pc s with
  | RTake =>
      if task_notified (sys_ppp s) then
        Some (MkSys RDelay (set_reconnect_task (ulTaskNotifyTake <$> s_reconnect_task (sys_ppp s))
                                               (sys_ppp s)))
      else None
  | RDelay => Some (goto reconnect_check s)
  | RWaitDead =>
      if timeout || negb (Z.land (link_bits (sys_ppp s)) PPP_UART_PHASE_DEAD =? 0)
      then Some (goto reconnect_restart s)
      else None
  end.

Definition ppp_do (ev : ppp_event) (s : ppp_sys) : option ppp_sys :=
  match ev with
  | IpEvent id data => Some (run_handler (on_ip_event id data) s)
  | StatusEvent id => Some (run_handler (on_ppp_status id) s)
  | Reconnect timeout => reconnect_task timeout s
  end.

(** A run; an event that is not enabled does not happen. *)
Fixpoint ppp_run (evs : list ppp_event) (s : ppp_sys) : ppp_sys :=
  match evs with
  | [] => s
  | ev :: evs => ppp_run evs (default s (ppp_do ev s))
  end.

(** [ppp_uart_wait_connected(timeout)], where [evs] is what happens before the
    timeout: it returns at the first moment the bit is set. *)
Fixpoint ppp_uart_wait_connected (evs : list ppp_event) (s : ppp_sys) : ppp_sys * bool :=
  match s_link_events (sys_ppp s) with
  | None => (s, false)
  | Some _ =>
      if ppp_uart_is_connected (sys_ppp s) then (s, true)
      else
        match evs with
        | [] => (s, false)
        | ev :: evs => ppp_uart_wait_connected evs (default s (ppp_do ev s))
        end
  end.
End Ppp.

Arguments ppp_sys {_ _ _} E {_}.
Arguments ppp_event {_ _ _} E {_}.
