(* ===== verification/PppBoot.v ===== *)
(** * Start-up: [ppp_uart_start] of ppp_uart.c and [app_main] of app_main.c

    The calls that set the UART, the interface and the tasks up are the
    interface [PppBoot]; each may fail, and the first failure ends the
    function.  [boot_log E] is an environment that writes down the calls made
    to another one: a start-up is a prefix of one fixed sequence. *)

From Stdlib Require Import ZArith Lia.
From Stdlib Require Import Strings.Byte.
From stdpp Require Import base tactics list numbers option.
From S2P Require Import Prelude Posix Freertos PppUart.

(** The three registrations and the two tasks. *)
Inductive event_handler :=
  | got_ip_handler
  | lost_ip_handler
  | ppp_status_handler.

Inductive ppp_params := MkPppParams { ppp_error_event_enabled : bool; ppp_phase_event_enabled : bool }.

Class PppBoot `{EventGroups, TaskNotify, FreeRtos} (E : Type) `{PppHw E} := {
  xEventGroupCreate : St E (option event_group);
  (** The queue is written through [&s_uart_events] when the call succeeds. *)
  uart_driver_install : Z -> Z -> St E (Z * queue uart_event);
  uart_param_config : Z -> St E Z;
  uart_set_pin : Z -> Z -> St E Z;
  uart_set_rx_timeout : Z -> St E Z;
  esp_netif_new : Z -> St E (option netif);
  (** [pcb->settings.fsm_timeout_time = t], where the interface has a pcb. *)
  set_fsm_timeout : netif -> Z -> St E unit;
  esp_netif_ppp_get_params : netif -> St E (Z * ppp_params);
  esp_netif_ppp_set_params : netif -> ppp_params -> St E Z;
  esp_event_handler_register : event_handler -> St E Z;
  create_receive_task : St E bool;
  create_reconnect_task : St E (option task);
  CONFIG_PPP_UART_BAUD_RATE : Z;
  CONFIG_PPP_UART_TX_PIN : Z;
  CONFIG_PPP_UART_RX_PIN : Z
}.

Section Boot.
Context `{PppConst, EventGroups, TaskNotify, FreeRtos} {E : Type} `{PppHw E, !PppBoot E}.
Implicit Types p : ppp E.

Definition in_p_env {A} (m : St E A) : St (ppp E) A := fun p =>
  let '(e, a) := m (p_env p) in (set_p_env e p, a).

Definition PPP_RX_RING_SIZE : Z := CONFIG_PPP_MTU * 2 + 128.

(** [ESP_RETURN_ON_ERROR(m, ...); k] *)
Definition return_on_error (m : St E Z) (k : St (ppp E) Z) : St (ppp E) Z :=
  err ← in_p_env m;
  if negb (err =? ESP_OK) then mret err else k.

Definition configure_ppp_timers (n : netif) : St E unit := set_fsm_timeout n 1.

(** From the creation of the tasks on; the second operand of [||] is only
    evaluated when the first task was created. *)
Definition start_tasks : St (ppp E) Z :=
  rx ← in_p_env create_receive_task;
  if negb rx then mret ESP_ERR_NO_MEM
  else
    t ← in_p_env create_reconnect_task;
    match (t : option task) with
    | None => mret ESP_ERR_NO_MEM
    | Some t =>
        modify (set_reconnect_task (Some t));;
        netif_call action_start;;
        netif_call action_connected;;
        mret ESP_OK
    end.

(** From [esp_netif_ppp_get_params] on. *)
Definition start_ppp (n : netif) : St (ppp E) Z :=
  r ← in_p_env (esp_netif_ppp_get_params (E := E) n);
  if negb (r.1 =? ESP_OK) then mret r.1
  else
    return_on_error (esp_netif_ppp_set_params n (MkPppParams true true))
    (return_on_error (esp_event_handler_register got_ip_handler)
    (return_on_error (esp_event_handler_register lost_ip_handler)
    (return_on_error (esp_event_handler_register ppp_status_handler)
     start_tasks))).

Definition start_netif : St (ppp E) Z :=
  n ← in_p_env (esp_netif_new CONFIG_PPP_MTU);
  match (n : option netif) with
  | None => mret ESP_ERR_NO_MEM
  | Some n =>
      modify (set_netif (Some n));;
      in_p_env (configure_ppp_timers n);;
      start_ppp n
  end.

Definition ppp_uart_start : St (ppp E) Z :=
  g ← in_p_env xEventGroupCreate;
  match (g : option event_group) with
  | None => mret ESP_ERR_NO_MEM
  | Some g =>
      modify (set_link_events (Some g));;
      r ← in_p_env (uart_driver_install PPP_RX_RING_SIZE 20);
      if negb (r.1 =? ESP_OK) then mret r.1
      else
        modify (set_uart_events (Some r.2));;
        return_on_error (uart_param_config CONFIG_PPP_UART_BAUD_RATE)
        (return_on_error (uart_set_pin CONFIG_PPP_UART_TX_PIN CONFIG_PPP_UART_RX_PIN)
        (return_on_error (uart_set_rx_timeout 1)
         start_netif))
  end.

End Boot.

(** ** The calls made *)

Inductive boot_call :=
  | BEventGroup
  | BDriver (rx_ring : Z)
  | BParam (baud : Z)
  | BPins (tx rx : Z)
  | BRxTimeout (t : Z)
  | BNetif (mtu : Z)
  | BTimers (t : Z)
  | BGetParams
  | BSetParams (ps : ppp_params)
  | BRegister (h : event_handler)
  | BReceiveTask
  | BReconnectTask
  | BAction (a : netif_action).

Record boot_log (E : Type) := MkBootLog { bl_calls : list boot_call; bl_env : E }.

Arguments MkBootLog {E} _ _.
Arguments bl_calls {E} _.
Arguments bl_env {E} _.

Section Log.
Context {E : Type} `{PppHw E}.

Definition logged {A} (c : boot_call) (m : St E A) : St (boot_log E) A := fun l =>
  let '(e, a) := m (bl_env l) in (MkBootLog (bl_calls l ++ [c]) e, a).

Definition unlogged {A} (m : St E A) : St (boot_log E) A := fun l =>
  let '(e, a) := m (bl_env l) in (MkBootLog (bl_calls l) e, a).

#[export] Instance boot_log_hw : PppHw (boot_log E) := {|
  netif := netif (E := E);
  uart_write_bytes bs := unlogged (uart_write_bytes bs);
  uart_get_buffered_data_len := unlogged uart_get_buffered_data_len;
  uart_read_bytes n := unlogged (uart_read_bytes n);
  uart_flush_input := unlogged uart_flush_input;
  esp_netif_receive n bs := unlogged (esp_netif_receive (E := E) n bs);
  esp_netif_action n a := logged (BAction a) (esp_netif_action (E := E) n a)
|}.

#[export] Instance boot_log_boot `{EventGroups, TaskNotify, FreeRtos} `{!PppBoot E} :
  PppBoot (boot_log E) := {|
  xEventGroupCreate := logged BEventGroup xEventGroupCreate;
  uart_driver_install r n := logged (BDriver r) (uart_driver_install r n);
  uart_param_config b := logged (BParam b) (uart_param_config b);
  uart_set_pin t r := logged (BPins t r) (uart_set_pin t r);
  uart_set_rx_timeout t := logged (BRxTimeout t) (uart_set_rx_timeout t);
  esp_netif_new m := logged (BNetif m) (esp_netif_new m);
  set_fsm_timeout n t := logged (BTimers t) (set_fsm_timeout (E := E) n t);
  esp_netif_ppp_get_params n := logged BGetParams (esp_netif_ppp_get_params (E := E) n);
  esp_netif_ppp_set_params n ps := logged (BSetParams ps) (esp_netif_ppp_set_params (E := E) n ps);
  esp_event_handler_register h := logged (BRegister h) (esp_event_handler_register h);
  create_receive_task := logged BReceiveTask create_receive_task;
  create_reconnect_task := logged BReconnectTask create_reconnect_task;
  CONFIG_PPP_UART_BAUD_RATE := CONFIG_PPP_UART_BAUD_RATE (E := E);
  CONFIG_PPP_UART_TX_PIN := CONFIG_PPP_UART_TX_PIN (E := E);
  CONFIG_PPP_UART_RX_PIN := CONFIG_PPP_UART_RX_PIN (E := E)
|}.
End Log.

(** ** app_main.c *)

(** What [app_main] calls; the two components' starts are [ppp_uart_start] and
    [zigbee_stack_start], of rpc_server.cpp it is [rpc_server_start]. *)
Class AppMain (A : Type) := {
  nvs_flash_init : St A Z;
  esp_netif_init : St A Z;
  esp_event_loop_create_default : St A Z;
  start_ppp_uart : St A Z;
  start_zigbee_stack : St A Z;
  rpc_server_start : St A unit
}.

Section AppMain.
Context `{PppConst} {A : Type} `{AppMain A}.

(** [ESP_ERROR_CHECK(m); k]; [false] is the [abort] it ends in. *)
Definition error_check (m : St A Z) (k : St A bool) : St A bool :=
  err ← m;
  if negb (err =? ESP_OK) then mret false else k.

Definition app_main : St A bool :=
  error_check nvs_flash_init
  (error_check esp_netif_init
  (error_check esp_event_loop_create_default
  (error_check start_ppp_uart
  (error_check start_zigbee_stack
   (rpc_server_start;; mret true))))).
End AppMain.
