(* ===== verification/PppTheorems.v ===== *)
(** * PPP over UART: behaviour and theorems

    [link_spec] is the abstract link: up or down, the session dead or not,
    and whether a reconnect is owed.  Every event takes the file's event
    group, notification and program point to a state that represents the
    abstract successor ([represents]), so the flags tell what happened last
    and no request to reconnect is lost. *)

From Stdlib Require Import ZArith Lia Strings.Byte.
From stdpp Require Import base tactics list numbers option.
From S2P Require Import Prelude Posix Freertos PppUart PppBoot.

(** ** Single bits *)

Lemma land_pow2 b n : 0 <= n -> (Z.land b (2 ^ n) =? 0) = negb (Z.testbit b n).
Proof.
  intros Hn. destruct (Z.testbit b n) eqn:Hb; cbn; [apply Z.eqb_neq | apply Z.eqb_eq].
  - intros E. apply (f_equal (fun z => Z.testbit z n)) in E.
    by rewrite Z.land_spec, Hb, Z.pow2_bits_true, Z.bits_0 in E.
  - apply Z.bits_inj'. intros i Hi. rewrite Z.land_spec, Z.bits_0, Z.pow2_bits_eqb by done.
    destruct (Z.eqb_spec n i); [subst; by rewrite Hb|by rewrite andb_false_r].
Qed.

Section Facts.
Context `{PppConst, EventGroups, TaskNotify, FreeRtos} {E : Type} `{PppHw E}.
Implicit Types (p : ppp E) (s : ppp_sys E).

Definition bit_set p (n : Z) : bool := Z.testbit (link_bits p) n.

Lemma set_link_bits_bit p n m :
  is_Some (s_link_events p) -> 0 <= n -> 0 <= m ->
  bit_set (set_link_bits (2 ^ n) p).1 m = bit_set p m || (n =? m).
Proof.
  intros [g Hg] Hn Hm. unfold bit_set, link_bits. cbn. rewrite Hg. cbn.
  by rewrite set_bits, Z.lor_spec, Z.pow2_bits_eqb.
Qed.

Lemma clear_link_bits_bit p n m :
  is_Some (s_link_events p) -> 0 <= n -> 0 <= m ->
  bit_set (clear_link_bits (2 ^ n) p).1 m = bit_set p m && negb (n =? m).
Proof.
  intros [g Hg] Hn Hm. unfold bit_set, link_bits. cbn. rewrite Hg. cbn.
  by rewrite clear_bits, Z.ldiff_spec, Z.pow2_bits_eqb.
Qed.

Lemma connected_bit p :
  is_Some (s_link_events p) -> ppp_uart_is_connected p = bit_set p 0.
Proof.
  intros [g Hg]. unfold ppp_uart_is_connected, bit_set, link_bits, PPP_LINK_UP. rewrite Hg.
  by rewrite land_pow2, negb_involutive by lia.
Qed.

(** ** The abstract link *)

Record link_spec := MkLinkSpec { ls_up : bool; ls_dead : bool; ls_owed : bool }.

Definition spec_event (ev : ppp_event E) s (l : link_spec) : link_spec :=
  match ev with
  | IpEvent id data =>
      if event_is_for_our_netif (sys_ppp s) data then
        if id =? IP_EVENT_PPP_GOT_IP then MkLinkSpec true false (ls_owed l)
        else if id =? IP_EVENT_PPP_LOST_IP then MkLinkSpec false (ls_dead l) true
        else l
      else l
  | StatusEvent id =>
      if id =? NETIF_PPP_PHASE_DEAD then MkLinkSpec (ls_up l) true (ls_owed l)
      else if (id =? NETIF_PPP_ERRORNONE) ||
              ((NETIF_PP_PHASE_OFFSET <=? id) && (id <? NETIF_PPP_INTERNAL_ERR_OFFSET))
      then l
      else MkLinkSpec false (ls_dead l) true
  | Reconnect _ =>
      match sys_pc s with
      | RTake => l
      | RDelay => if ls_up l then MkLinkSpec true (ls_dead l) false else l
      | RWaitDead => if ls_dead l then MkLinkSpec (ls_up l) false false else l
      end
  end.

(** The variables are set up, and the event group, the notification and the
    program point of the reconnect task represent [l]. *)
Record represents s (l : link_spec) : Prop := MkRepresents {
  rep_events : is_Some (s_link_events (sys_ppp s));
  rep_task : exists t, s_reconnect_task (sys_ppp s) = Some t /\ 0 <= notify_value t;
  rep_netif : is_Some (s_netif (sys_ppp s));
  rep_up : bit_set (sys_ppp s) 0 = ls_up l;
  rep_dead : bit_set (sys_ppp s) 1 = ls_dead l;
  rep_owed : ls_owed l = true -> task_notified (sys_ppp s) = true \/ sys_pc s <> RTake
}.

(** The parts of the state an operation on one of them leaves alone. *)
Lemma netif_call_frame a p :
  let p' := (netif_call a p).1 in
  s_link_events p' = s_link_events p /\ s_reconnect_task p' = s_reconnect_task p /\
  s_netif p' = s_netif p.
Proof. cbv zeta. unfold netif_call. destruct (s_netif p) eqn:En; cbn; by rewrite ?En. Qed.

Lemma netif_call_bits a p n : bit_set (netif_call a p).1 n = bit_set p n.
Proof. unfold bit_set, link_bits. by rewrite (proj1 (netif_call_frame a p)). Qed.

Lemma notify_notified p t :
  s_reconnect_task p = Some t -> 0 <= notify_value t -> task_notified (notify_reconnect p).1 = true.
Proof.
  intros Ht Hv. unfold task_notified. cbn. rewrite Ht. cbn. by apply Z.ltb_lt, give_value.
Qed.

Lemma set_link_bits_rep b p :
  (set_link_bits b p).1 =
  MkPpp ((fun g => xEventGroupSetBits g b) <$> s_link_events p) (s_uart_events p)
        (s_reconnect_task p) (s_netif p) (p_env p).
Proof. done. Qed.

(** A handler keeps the set-up, and changes the bits and the notification as
    the abstract event says. *)
Lemma got_ip_rep s l :
  represents s l ->
  represents (run_handler (clear_link_bits PPP_UART_PHASE_DEAD;; set_link_bits PPP_LINK_UP) s)
             (MkLinkSpec true false (ls_owed l)).
Proof.
  intros [He Ht Hn Hu Hd Ho]. destruct s as [pc p]. cbn [sys_pc sys_ppp] in *.
  assert (He1 : is_Some (s_link_events (clear_link_bits PPP_UART_PHASE_DEAD p).1))
    by (destruct He as [g Hg]; cbn; rewrite Hg; eauto).
  constructor; cbn [run_handler sys_pc sys_ppp]; unfold mbind, St_bind;
    change (clear_link_bits PPP_UART_PHASE_DEAD p) with
      ((clear_link_bits PPP_UART_PHASE_DEAD p).1, tt); cbv beta iota.
  - destruct He1 as [g Hg]. rewrite set_link_bits_rep. cbn [s_link_events]. rewrite Hg. cbn. eauto.
  - exact Ht.
  - exact Hn.
  - unfold PPP_LINK_UP. rewrite set_link_bits_bit by (done || lia). cbn. by rewrite orb_true_r.
  - unfold PPP_LINK_UP. rewrite set_link_bits_bit by (done || lia).
    unfold PPP_UART_PHASE_DEAD. rewrite clear_link_bits_bit by (done || lia).
    cbn. by rewrite andb_false_r.
  - exact Ho.
Qed.

Lemma request_rep s l :
  represents s l -> represents (run_handler request_reconnect s) (MkLinkSpec false (ls_dead l) true).
Proof.
  intros [He Ht Hn Hu Hd Ho]. destruct s as [pc p]. cbn [sys_pc sys_ppp] in *.
  destruct Ht as (t & Ht & Hv).
  constructor; cbn [run_handler sys_pc sys_ppp].
  - change (is_Some (s_link_events (clear_link_bits PPP_LINK_UP p).1)).
    destruct He as [g Hg]. cbn. rewrite Hg. cbn. eauto.
  - exists (xTaskNotifyGive t).
    change (s_reconnect_task (request_reconnect p).1) with (xTaskNotifyGive <$> s_reconnect_task p).
    rewrite Ht. split; [done|].
    pose proof (give_value t Hv). lia.
  - exact Hn.
  - change (bit_set (clear_link_bits PPP_LINK_UP p).1 0 = false). unfold PPP_LINK_UP.
    rewrite clear_link_bits_bit by (done || lia). cbn. by rewrite andb_false_r.
  - change (bit_set (clear_link_bits PPP_LINK_UP p).1 1 = ls_dead l). unfold PPP_LINK_UP.
    rewrite clear_link_bits_bit by (done || lia). cbn. by rewrite andb_true_r.
  - intros _. left. exact (notify_notified (clear_link_bits PPP_LINK_UP p).1 t Ht Hv).
Qed.

Lemma dead_rep s l :
  represents s l ->
  represents (run_handler (set_link_bits PPP_UART_PHASE_DEAD) s)
             (MkLinkSpec (ls_up l) true (ls_owed l)).
Proof.
  intros [He Ht Hn Hu Hd Ho]. destruct s as [pc p]. cbn [sys_pc sys_ppp] in *.
  constructor; cbn [run_handler sys_pc sys_ppp]; try done.
  - destruct He as [g Hg]. cbn. rewrite Hg. cbn. eauto.
  - unfold PPP_UART_PHASE_DEAD. rewrite set_link_bits_bit by (done || lia). cbn.
    by rewrite orb_false_r.
  - unfold PPP_UART_PHASE_DEAD. rewrite set_link_bits_bit by (done || lia). cbn.
    by rewrite orb_true_r.
Qed.

Lemma same_rep s l : represents s l -> represents (run_handler (mret tt) s) l.
Proof. by destruct s. Qed.

(** A call into the network stack changes nothing the abstract link sees. *)
Lemma netif_call_rep pc pc' a p l :
  represents (MkSys pc p) l -> (pc' = RTake -> pc = RTake) ->
  represents (MkSys pc' (netif_call a p).1) l.
Proof.
  intros [He Ht Hn Hu Hd Ho] Hpc. destruct (netif_call_frame a p) as (E1 & E2 & E3).
  constructor; cbn [sys_pc sys_ppp] in *; rewrite ?E1, ?E2, ?E3, ?netif_call_bits; try done.
  intros Hl. unfold task_notified. rewrite E2. destruct (Ho Hl) as [Hk|Hk]; [by left|].
  right. intros Hp. auto.
Qed.

(** The program point only matters while a reconnect is owed. *)
Lemma goto_rep pc pc' p l :
  represents (MkSys pc p) l -> ls_owed l = false \/ pc' <> RTake -> represents (MkSys pc' p) l.
Proof.
  intros [He Ht Hn Hu Hd Ho] Hl. constructor; cbn [sys_pc sys_ppp] in *; try done.
  intros Hl'. destruct Hl; [congruence|by right].
Qed.

Lemma served_rep pc p l :
  represents (MkSys pc p) l -> represents (MkSys RTake p) (MkLinkSpec (ls_up l) (ls_dead l) false).
Proof. intros [He Ht Hn Hu Hd Ho]. by constructor. Qed.

Lemma take_rep p l :
  represents (MkSys RTake p) l ->
  represents (MkSys RDelay (set_reconnect_task (ulTaskNotifyTake <$> s_reconnect_task p) p)) l.
Proof.
  intros [He Ht Hn Hu Hd Ho]. constructor; cbn [sys_pc sys_ppp] in *; try done; [|by right].
  destruct Ht as (t & Ht & Hv). exists (ulTaskNotifyTake t). cbn. rewrite Ht.
  split; [done|]. by rewrite take_value.
Qed.

Lemma check_rep p l :
  represents (MkSys RDelay p) l ->
  represents (goto reconnect_check (MkSys RDelay p))
    (if ls_up l then MkLinkSpec true (ls_dead l) false else l).
Proof.
  intros Hr. unfold goto. cbn [sys_ppp].
  assert (Hc : ppp_uart_is_connected p = ls_up l)
    by (rewrite connected_bit by apply Hr; exact (rep_up _ _ Hr)).
  unfold reconnect_check, gets, mbind, St_bind. rewrite Hc.
  destruct (ls_up l) eqn:Hl.
  - rewrite <- Hl. by apply served_rep in Hr.
  - pose proof (netif_call_rep RDelay RWaitDead action_disconnected p l Hr ltac:(done)) as Hw.
    by destruct (netif_call action_disconnected p).
Qed.

Lemma clear_dead_rep pc p l :
  represents (MkSys pc p) l ->
  represents (MkSys pc (clear_link_bits PPP_UART_PHASE_DEAD p).1)
    (MkLinkSpec (ls_up l) false (ls_owed l)).
Proof.
  intros [He Ht Hn Hu Hd Ho]. constructor; cbn [sys_pc sys_ppp] in *; try done.
  - destruct He as [g Hg]. cbn. rewrite Hg. cbn. eauto.
  - unfold PPP_UART_PHASE_DEAD. rewrite clear_link_bits_bit by (done || lia). cbn.
    by rewrite andb_true_r.
  - unfold PPP_UART_PHASE_DEAD. rewrite clear_link_bits_bit by (done || lia). cbn.
    by rewrite andb_false_r.
Qed.

(** The restart, written out. *)
Lemma restart_dead p :
  bit_set p 1 = true ->
  reconnect_restart p =
    ((netif_call action_connected (netif_call action_start
        (clear_link_bits PPP_UART_PHASE_DEAD (netif_call action_stop p).1).1).1).1, RTake).
Proof.
  intros Hb. unfold reconnect_restart.
  rewrite St_gets.
  unfold PPP_UART_PHASE_DEAD at 1. rewrite land_pow2 by lia. unfold bit_set in Hb. rewrite Hb.
  cbn [negb]. by rewrite !St_seq.
Qed.

Lemma restart_not_dead p :
  bit_set p 1 = false -> reconnect_restart p = ((notify_reconnect p).1, RTake).
Proof.
  intros Hb. unfold reconnect_restart. rewrite St_gets. unfold PPP_UART_PHASE_DEAD at 1.
  rewrite land_pow2 by lia. unfold bit_set in Hb. rewrite Hb. cbn [negb].
  by rewrite St_seq.
Qed.

Lemma restart_rep p l :
  represents (MkSys RWaitDead p) l ->
  represents (goto reconnect_restart (MkSys RWaitDead p))
    (if ls_dead l then MkLinkSpec (ls_up l) false false else l).
Proof.
  intros Hr. unfold goto. cbn [sys_ppp]. pose proof (rep_dead _ _ Hr) as Hd. cbn in Hd.
  destruct (ls_dead l) eqn:Hl.
  - rewrite restart_dead by done.
    assert (Hr1 : represents (MkSys RWaitDead (netif_call action_stop p).1) l)
      by by apply (netif_call_rep RWaitDead).
    apply clear_dead_rep in Hr1.
    apply (netif_call_rep RWaitDead RWaitDead action_start) in Hr1; [|done].
    apply (netif_call_rep RWaitDead RWaitDead action_connected) in Hr1; [|done].
    by apply served_rep in Hr1.
  - rewrite restart_not_dead by done. destruct Hr as [He (t & Ht & Hv) Hn Hu Hd' Ho].
    constructor; cbn [sys_pc sys_ppp] in *; try done.
    + exists (xTaskNotifyGive t). cbn. rewrite Ht. split; [done|]. pose proof (give_value t Hv). lia.
    + intros _. left. by apply (notify_notified _ t).
Qed.

Lemma ppp_do_rep ev s s' l :
  represents s l -> ppp_do ev s = Some s' -> represents s' (spec_event ev s l).
Proof.
  intros Hr Hd. destruct ev as [id data|id|timeout]; cbn [ppp_do spec_event] in *.
  - injection Hd as <-. unfold on_ip_event.
    unfold run_handler. rewrite St_gets. fold (@run_handler H0 H1 H2 E H3).
    destruct (event_is_for_our_netif _ data); cbn [negb]; [|by apply same_rep].
    destruct (id =? _); [by apply got_ip_rep|]. destruct (id =? _); [by apply request_rep|].
    by apply same_rep.
  - injection Hd as <-. unfold on_ppp_status.
    destruct (id =? _); [by apply dead_rep|].
    destruct (_ || _); [by apply same_rep|by apply request_rep].
  - destruct s as [pc p]. unfold reconnect_task in Hd. cbn [sys_pc sys_ppp] in *. destruct pc.
    + destruct (task_notified p); [|done]. injection Hd as <-. by apply take_rep.
    + injection Hd as <-. by apply check_rep.
    + destruct (timeout || _); [|done]. injection Hd as <-. by apply restart_rep.
Qed.

(** The abstract run along a concrete one. *)
Fixpoint spec_run (evs : list (ppp_event E)) s (l : link_spec) : link_spec :=
  match evs with
  | [] => l
  | ev :: evs =>
      match ppp_do ev s with
      | Some s' => spec_run evs s' (spec_event ev s l)
      | None => spec_run evs s l
      end
  end.

Lemma ppp_run_rep evs : forall s l, represents s l -> represents (ppp_run evs s) (spec_run evs s l).
Proof.
  induction evs as [|ev evs IH]; intros s l Hr; cbn [ppp_run spec_run]; [done|].
  destruct (ppp_do ev s) as [s'|] eqn:Hd; cbn [default id]; apply IH; [|done].
  by apply (ppp_do_rep ev s).
Qed.

(** ** A reconnect that is owed gets to the stop *)

(** The reconnect task run alone, its blocking calls timing out. *)
Lemma owed_reaches_wait s l :
  represents s l -> ls_owed l = true -> ls_up l = false ->
  exists n s', (n <= 2)%nat /\ ppp_run (replicate n (Reconnect true)) s = s' /\
    sys_pc s' = RWaitDead /\ represents s' l.
Proof.
  intros Hr Ho Hu. destruct s as [pc p].
  assert (Hd : forall q, represents (MkSys RDelay q) l ->
    exists s', ppp_do (Reconnect true) (MkSys RDelay q) = Some s' /\
      sys_pc s' = RWaitDead /\ represents s' l).
  { intros q Hq. eexists. split; [reflexivity|]. pose proof (check_rep q l Hq) as Hc.
    rewrite Hu in Hc. split; [|done]. unfold goto, reconnect_check. cbn [sys_ppp].
    pose proof (rep_up _ _ Hq) as Hb. cbn [sys_ppp] in Hb.
    rewrite St_gets, connected_bit, Hb, Hu by apply Hq. by rewrite St_seq. }
  destruct pc.
  - destruct (rep_owed _ _ Hr Ho) as [Hn|Hn]; [|done]. cbn in Hn.
    destruct (Hd _ (take_rep p l Hr)) as (s' & E1 & Hpc & Hs'). exists 2%nat, s'.
    split; [lia|]. cbn [replicate ppp_run]. split; [|done].
    assert (E0 : ppp_do (Reconnect true) (MkSys RTake p) =
      Some (MkSys RDelay (set_reconnect_task (ulTaskNotifyTake <$> s_reconnect_task p) p)))
      by (cbn; unfold reconnect_task; cbn; by rewrite Hn).
    rewrite E0. cbn [default id]. by rewrite E1.
  - destruct (Hd p Hr) as (s' & E1 & Hpc & Hs'). exists 1%nat, s'. split; [lia|].
    cbn [replicate ppp_run]. by rewrite E1.
  - exists 0%nat. eexists. split; [lia|]. by split_and!.
Qed.

(** Where the wait ends with the session dead, it is stopped and started. *)
Lemma dead_restarts s l n timeout :
  represents s l -> sys_pc s = RWaitDead -> ls_dead l = true -> s_netif (sys_ppp s) = Some n ->
  exists s', ppp_do (Reconnect timeout) s = Some s' /\ sys_pc s' = RTake /\
    p_env (sys_ppp s') =
      (esp_netif_action n action_connected (esp_netif_action n action_start
        (esp_netif_action n action_stop (p_env (sys_ppp s))).1).1).1 /\
    represents s' (MkLinkSpec (ls_up l) false false).
Proof.
  intros Hr Hpc Hd Hn. destruct s as [pc p]. cbn [sys_pc sys_ppp] in *. subst pc.
  pose proof (restart_rep p l Hr) as Hr'. rewrite Hd in Hr'.
  pose proof (rep_dead _ _ Hr) as Hb. cbn [sys_ppp] in Hb. rewrite Hd in Hb.
  exists (goto reconnect_restart (MkSys RWaitDead p)).
  split; [cbn; unfold reconnect_task; cbn; unfold PPP_UART_PHASE_DEAD;
          rewrite land_pow2 by lia; unfold bit_set in Hb; by rewrite Hb, orb_true_r|].
  revert Hr'. unfold goto. cbn [sys_ppp]. rewrite (restart_dead p Hb). intros Hr'.
  split; [done|]. split; [|exact Hr']. cbn [sys_ppp]. unfold netif_call. rewrite Hn.
  cbn. by rewrite Hn; cbn; rewrite Hn.
Qed.

(** Where it times out, another turn is asked for. *)
Lemma timeout_retries s l :
  represents s l -> sys_pc s = RWaitDead -> ls_dead l = false ->
  exists s', ppp_do (Reconnect true) s = Some s' /\ sys_pc s' = RTake /\
    task_notified (sys_ppp s') = true /\ represents s' l.
Proof.
  intros Hr Hpc Hd. destruct s as [pc p]. cbn [sys_pc sys_ppp] in *. subst pc.
  pose proof (restart_rep p l Hr) as Hr'. rewrite Hd in Hr'.
  pose proof (rep_dead _ _ Hr) as Hb. cbn [sys_ppp] in Hb. rewrite Hd in Hb.
  destruct (rep_task _ _ Hr) as (t & Ht & Hv).
  exists (goto reconnect_restart (MkSys RWaitDead p)). split; [done|].
  revert Hr'. unfold goto. cbn [sys_ppp]. rewrite (restart_not_dead p Hb). intros Hr'.
  split; [done|]. split; [|done]. by apply (notify_notified p t).
Qed.
End Facts.

(** ** The bytes *)

(** What the driver and the stack do with bytes: [uart_sent] has gone out,
    [uart_rx] is in the receive ring, [netif_in] has been handed to the PPP
    interface.  More may arrive during any call. *)
Class UartLaws (E : Type) `{PppHw E} := {
  uart_sent : E -> list byte;
  uart_rx : E -> list byte;
  netif_in : E -> list byte;
  uart_write_law bs e :
    bs <> [] ->
    let '(e', n) := uart_write_bytes bs e in
    (n < 0 /\ uart_sent e' = uart_sent e) \/
    (0 < n <= Z.of_nat (length bs) /\ uart_sent e' = uart_sent e ++ take (Z.to_nat n) bs);
  buffered_law e :
    let '(e', r) := uart_get_buffered_data_len e in
    (exists more, uart_rx e' = uart_rx e ++ more) /\ netif_in e' = netif_in e /\
    (forall n, r = Some n -> n = Z.of_nat (length (uart_rx e')));
  uart_read_law n e :
    0 < n ->
    exists e' bs more, uart_read_bytes n e = (e', SysOk bs) /\
      uart_rx e ++ more = bs ++ uart_rx e' /\ netif_in e' = netif_in e /\
      length bs = Nat.min (Z.to_nat n) (length (uart_rx e));
  netif_receive_law n bs e :
    let '(e', _) := esp_netif_receive n bs e in
    (exists more, uart_rx e' = uart_rx e ++ more) /\ netif_in e' = netif_in e ++ bs
}.

Section Bytes.
Context `{PppConst} {E : Type} `{PppHw E, !UartLaws E}.

Lemma transmit_loop_spec fuel : forall e bs,
  (length bs <= fuel)%nat ->
  exists e' r sent, transmit_loop fuel e bs = Some (e', r) /\ sent `prefix_of` bs /\
    uart_sent e' = uart_sent e ++ sent /\ ((r = ESP_OK /\ sent = bs) \/ r = ESP_FAIL).
Proof.
  induction fuel as [|fuel IH]; intros e [|b bs] Hl; cbn [length] in Hl; try lia;
    try (exists e, ESP_OK, []; rewrite app_nil_r; by split_and!; auto using prefix_nil).
  cbn [transmit_loop]. pose proof (uart_write_law (b :: bs) e ltac:(done)) as Hw.
  destruct (uart_write_bytes (b :: bs) e) as [e1 n].
  destruct Hw as [[Hn Hs]|[Hn Hs]].
  - rewrite (proj2 (Z.ltb_lt _ _)) by done. exists e1, ESP_FAIL, [].
    rewrite app_nil_r. split_and!; auto using prefix_nil.
  - rewrite (proj2 (Z.ltb_ge _ _)) by lia. cbn [length] in Hn.
    destruct (IH e1 (drop (Z.to_nat n) (b :: bs))) as (e' & r & sent & E' & Hp & Hs' & Hr).
    { rewrite length_drop. cbn [length]. lia. }
    exists e', r, (take (Z.to_nat n) (b :: bs) ++ sent). split; [done|].
    split_and!; [|by rewrite Hs', Hs, app_assoc|].
    + rewrite <- (take_drop (Z.to_nat n) (b :: bs)) at 2. by apply prefix_app.
    + destruct Hr as [[-> ->]| ->]; [left; by rewrite take_drop|by right].
Qed.

Lemma drain_loop_spec fuel : forall n rem e,
  0 <= rem <= Z.of_nat fuel -> rem <= Z.of_nat (length (uart_rx e)) ->
  exists e' got more, drain_loop fuel n rem e = Some e' /\
    uart_rx e ++ more = got ++ uart_rx e' /\ netif_in e' = netif_in e ++ got /\
    Z.of_nat (length got) = rem.
Proof.
  induction fuel as [|fuel IH]; intros n rem e Hr Hl; cbn [drain_loop];
    (case_bool; [|exists e, [], []; rewrite !app_nil_r; split_and!; [done..|cbn; lia]]); [lia|].
  set (wanted := if rem <? PPP_RX_CHUNK_SIZE then rem else PPP_RX_CHUNK_SIZE).
  assert (Hw : 0 < wanted <= rem) by (unfold wanted, PPP_RX_CHUNK_SIZE in *; case_bool; lia).
  destruct (uart_read_law wanted e ltac:(lia)) as (e1 & bs & more1 & E1 & Hrx1 & Hin1 & Hlb).
  rewrite E1. rewrite Nat.min_l in Hlb by lia. destruct bs as [|b bs]; [cbn in Hlb; lia|].
  pose proof (netif_receive_law n (b :: bs) e1) as Hrcv.
  destruct (esp_netif_receive n (b :: bs) e1) as [e2 r2]. destruct Hrcv as [[more2 Hrx2] Hin2].
  apply (f_equal length) in Hrx1 as Hlen. rewrite !length_app in Hlen.
  destruct (IH n (rem - Z.of_nat (length (b :: bs))) e2) as (e3 & got & more3 & E3 & Hrx3 & Hin3 & Hlg).
  { rewrite Hlb. lia. }
  { rewrite Hrx2, length_app. lia. }
  exists e3, ((b :: bs) ++ got), (more1 ++ more2 ++ more3). split; [done|].
  rewrite (app_assoc (uart_rx e)), Hrx1, <- (app_assoc (b :: bs)), (app_assoc (uart_rx e1)), <- Hrx2, Hrx3.
  rewrite Hin3, Hin2, Hin1, <- !app_assoc. split_and!; [done..|]. rewrite length_app. lia.
Qed.
End Bytes.

(** ** The start-up *)

Section Start.
Context `{PppConst, EventGroups, TaskNotify, FreeRtos} {E : Type} `{PppHw E, !PppBoot E}.
Implicit Types p : ppp (boot_log E).

Definition calls_of p : list boot_call := bl_calls (p_env p).

(** Every check before the session is started, in order. *)
Definition boot_checks : list boot_call :=
  [ BEventGroup; BDriver PPP_RX_RING_SIZE; BParam CONFIG_PPP_UART_BAUD_RATE;
    BPins CONFIG_PPP_UART_TX_PIN CONFIG_PPP_UART_RX_PIN; BRxTimeout 1; BNetif CONFIG_PPP_MTU;
    BTimers 1; BGetParams; BSetParams (MkPppParams true true); BRegister got_ip_handler;
    BRegister lost_ip_handler; BRegister ppp_status_handler; BReceiveTask; BReconnectTask ].

Definition started p : Prop :=
  is_Some (s_link_events p) /\ is_Some (s_uart_events p) /\ is_Some (s_netif p) /\
  is_Some (s_reconnect_task p).

(** From [p], [m] makes all of the calls [cs] and starts the session, or stops
    within them with an error. *)
Definition boots (m : St (ppp (boot_log E)) Z) (cs : list boot_call) p : Prop :=
  exists tr, calls_of (m p).1 = calls_of p ++ tr /\
    ((m p).2 = ESP_OK /\ tr = cs ++ [BAction action_start; BAction action_connected] /\
       started (m p).1 \/
     (m p).2 <> ESP_OK /\ tr `prefix_of` cs).

Lemma boots_stop err cs p : err <> ESP_OK -> boots (mret err) cs p.
Proof.
  intros Herr. exists []. rewrite app_nil_r. split; [done|]. right. split; [done|].
  apply prefix_nil.
Qed.

Lemma boots_call {A} c (m : St E A) k cs p :
  (forall a e, boots (k a) cs (set_p_env e p)) ->
  boots (in_p_env (logged c m) ≫= k) (c :: cs) p.
Proof.
  intros Hk. unfold boots, mbind, St_bind, in_p_env, logged, calls_of.
  destruct (m (bl_env (p_env p))) as [e a].
  destruct (Hk a (MkBootLog (bl_calls (p_env p) ++ [c]) e)) as (tr & Htr & Hr).
  exists (c :: tr). unfold calls_of in Htr. rewrite Htr. cbn. rewrite <- app_assoc.
  split; [done|]. destruct Hr as [(Hok & -> & Hs)|[Hok Hp]]; [by left|right].
  split; [done|]. by apply prefix_cons.
Qed.

Lemma boots_modify f k cs p :
  calls_of (f p) = calls_of p -> boots k cs (f p) -> boots (modify f;; k) cs p.
Proof. intros Hf (tr & Htr & Hr). exists tr. rewrite <- Hf. by split. Qed.

Lemma boots_check c (m : St E Z) k cs p :
  (forall e, boots k cs (set_p_env e p)) -> boots (return_on_error (logged c m) k) (c :: cs) p.
Proof.
  intros Hk. apply boots_call. intros err e.
  destruct (Z.eqb_spec err ESP_OK); [apply Hk|by apply boots_stop].
Qed.

Lemma boots_session p : started p ->
  boots (netif_call action_start;; netif_call action_connected;; mret ESP_OK) [] p.
Proof.
  intros Hs. pose proof Hs as (Hg & Hq & [n Hn] & Ht).
  exists [BAction action_start; BAction action_connected]. rewrite !St_seq.
  unfold netif_call. rewrite Hn. cbn. rewrite Hn. cbn. unfold calls_of, logged. cbn.
  destruct (esp_netif_action (E := E) n action_start _) as [e1 u1]. cbn.
  destruct (esp_netif_action (E := E) n action_connected _) as [e2 u2]. cbn.
  rewrite <- app_assoc. split; [done|]. left. by split_and!.
Qed.

Lemma boots_tasks p :
  is_Some (s_link_events p) -> is_Some (s_uart_events p) -> is_Some (s_netif p) ->
  boots start_tasks [BReceiveTask; BReconnectTask] p.
Proof.
  intros Hg Hq Hn. apply boots_call. intros [|] e; cbn [negb];
    [|apply boots_stop, not_eq_sym, esp_codes_differ].
  apply boots_call. intros [t|] e'; [|apply boots_stop, not_eq_sym, esp_codes_differ].
  apply boots_modify; [done|]. apply boots_session. unfold started. cbn. eauto.
Qed.

Lemma boots_start p : boots ppp_uart_start boot_checks p.
Proof.
  apply boots_call. intros [g|] e; [|apply boots_stop, not_eq_sym, esp_codes_differ].
  apply boots_modify; [done|]. apply boots_call. intros [err q] e1. cbn [fst snd].
  destruct (Z.eqb_spec err ESP_OK); cbn [negb]; [|by apply boots_stop].
  apply boots_modify; [done|]. do 3 (apply boots_check; intros ?).
  apply boots_call. intros [n|] e5; [|apply boots_stop, not_eq_sym, esp_codes_differ].
  apply boots_modify; [done|]. apply boots_call. intros [] e6.
  apply boots_call. intros [err2 ps] e7. cbn [fst].
  destruct (Z.eqb_spec err2 ESP_OK); cbn [negb]; [|by apply boots_stop].
  do 4 (apply boots_check; intros ?). apply boots_tasks; cbn; eauto.
Qed.
End Start.

(** * PPP over UART: theorems *)

Section Theorems.
Context `{PppConst, EventGroups, TaskNotify, FreeRtos} {E : Type} `{PppHw E}.

(** [ppp_uart_wait_connected] returns true at the first moment the link is
    up, and false when it was not up at any moment before the timeout. *)
Theorem wait_connected_first_up evs : forall (s : ppp_sys E) l, represents s l ->
  let '(s', b) := ppp_uart_wait_connected evs s in
  exists k, (k <= length evs)%nat /\ s' = ppp_run (take k evs) s /\
    b = ls_up (spec_run (take k evs) s l) /\
    (forall j, (j < k)%nat -> ls_up (spec_run (take j evs) s l) = false) /\
    (b = false -> k = length evs).
Proof.
  induction evs as [|ev evs IH]; intros s l Hr; destruct (rep_events _ _ Hr) as [g Hg];
    cbn [ppp_uart_wait_connected]; rewrite Hg;
    (destruct (ppp_uart_is_connected (sys_ppp s)) eqn:Hc;
      [ exists 0%nat; split_and!; [lia|done| |lia|done];
        rewrite connected_bit, (rep_up _ _ Hr) in Hc by eauto; exact (eq_sym Hc) |]);
    rewrite connected_bit, (rep_up _ _ Hr) in Hc by eauto.
  { exists 0%nat. split_and!; [lia|done|exact (eq_sym Hc)|lia|done]. }
  assert (Hk : exists l1, represents (default s (ppp_do ev s)) l1 /\
    forall k, spec_run (take (S k) (ev :: evs)) s l = spec_run (take k evs) (default s (ppp_do ev s)) l1).
  { destruct (ppp_do ev s) as [s1|] eqn:Ed; cbn [default id].
    - exists (spec_event ev s l). split; [by apply (ppp_do_rep ev s)|]. intros k. cbn. by rewrite Ed.
    - exists l. split; [done|]. intros k. cbn. by rewrite Ed. }
  destruct Hk as (l1 & Hr1 & Hk). specialize (IH _ _ Hr1).
  destruct (ppp_uart_wait_connected evs _) as [s' b]. destruct IH as (k & Hle & -> & Hb & Hbefore & Hend).
  exists (S k). rewrite Hk. split_and!; [cbn; lia|done|done| |].
  - intros [|j] Hj; [done|]. rewrite Hk. apply Hbefore. lia.
  - intros Hf. cbn. by rewrite Hend.
Qed.

(** C28: along every run of the event handlers and the reconnect task, however
    they interleave, [ppp_uart_is_connected] says whether the last event that
    matters brought the link up, and a reconnect that was asked for and not
    carried out yet is never forgotten: the task is notified or on its way. *)
Theorem ppp_tracks_link evs (s : ppp_sys E) l :
  represents s l ->
  let s' := ppp_run evs s in
  let l' := spec_run evs s l in
  ppp_uart_is_connected (sys_ppp s') = ls_up l' /\
  bit_set (sys_ppp s') 1 = ls_dead l' /\
  (ls_owed l' = true -> task_notified (sys_ppp s') = true \/ sys_pc s' <> RTake).
Proof.
  intros Hr s' l'. destruct (ppp_run_rep evs s l Hr) as [He Ht Hn Hu Hd Ho].
  split_and!; [by rewrite connected_bit|done|done].
Qed.


(** [uart_transmit] returns: with [ESP_OK] when every byte has gone out
    once and in order, with [ESP_FAIL] after a prefix; and one [UART_DATA]
    event hands the PPP interface exactly the bytes that were in the ring when
    it was asked for their number, in order, however many arrive meanwhile. *)
Theorem uart_bytes_in_order `{!UartLaws E} (e : E) bs (p : ppp E) n e1 len :
  s_netif p = Some n -> uart_get_buffered_data_len (p_env p) = (e1, Some len) ->
  (exists e' r sent, uart_transmit e bs = Some (e', r) /\ sent `prefix_of` bs /\
     uart_sent e' = uart_sent e ++ sent /\ (r = ESP_OK /\ sent = bs \/ r = ESP_FAIL)) /\
  (exists e2 got more, uart_receive_event UART_DATA p = Some (set_p_env e2 p) /\
     uart_rx e1 ++ more = got ++ uart_rx e2 /\ netif_in e2 = netif_in (p_env p) ++ got /\
     Z.of_nat (length got) = len).
Proof.
  intros Hn Hb. split; [by apply transmit_loop_spec|].
  pose proof (buffered_law (p_env p)) as Hl. rewrite Hb in Hl.
  destruct Hl as (_ & Hin & Hlen). specialize (Hlen len eq_refl).
  destruct (drain_loop_spec (Z.to_nat len) n len e1) as (e2 & got & more & E2 & Hrx & Hi & Hg);
    [lia..|].
  exists e2, got, more. split_and!; [|done|by rewrite Hi, Hin|done].
  unfold uart_receive_event. rewrite Hn, Hb. cbn [mbind option_bind]. by rewrite E2.
Qed.

End Theorems.

(** ** Instances *)

#[export] Program Instance word_events : EventGroups := {|
  event_group := Z;
  eg_bits g := g;
  new_event_group := 0;
  xEventGroupSetBits g b := Z.lor g b;
  xEventGroupClearBits g b := Z.ldiff g b
|}.
Solve All Obligations with done.

#[export] Program Instance count_notify : TaskNotify := {|
  task := Z;
  notify_value t := t;
  xTaskNotifyGive t := t + 1;
  ulTaskNotifyTake _ := 0
|}.
Solve All Obligations with (intros; cbn in *; lia).

#[export] Program Instance example_ppp_const : PppConst := {|
  IP_EVENT_PPP_GOT_IP := 6;
  IP_EVENT_PPP_LOST_IP := 7;
  NETIF_PPP_PHASE_DEAD := 0x100;
  NETIF_PPP_ERRORNONE := 0;
  NETIF_PP_PHASE_OFFSET := 0x100;
  NETIF_PPP_INTERNAL_ERR_OFFSET := 0x200;
  ESP_OK := 0;
  ESP_FAIL := -1;
  ESP_ERR_NO_MEM := 0x101;
  CONFIG_PPP_MTU := 1500
|}.
Solve All Obligations with (intros; cbn in *; lia).

(** A UART that takes [S wr_room] bytes a call, and what the stack was told. *)
Record wire := MkWire {
  wr_tx : list byte;
  wr_rx : list byte;
  wr_in : list byte;
  wr_room : nat;
  wr_acts : list netif_action
}.

#[export] Instance wire_hw : PppHw wire := {|
  netif := unit;
  uart_write_bytes bs w :=
    let n := Nat.min (S (wr_room w)) (length bs) in
    (MkWire (wr_tx w ++ take n bs) (wr_rx w) (wr_in w) (wr_room w) (wr_acts w), Z.of_nat n);
  uart_get_buffered_data_len w := (w, Some (Z.of_nat (length (wr_rx w))));
  uart_read_bytes n w :=
    (MkWire (wr_tx w) (drop (Z.to_nat n) (wr_rx w)) (wr_in w) (wr_room w) (wr_acts w),
     SysOk (take (Z.to_nat n) (wr_rx w)));
  uart_flush_input w := (MkWire (wr_tx w) [] (wr_in w) (wr_room w) (wr_acts w), tt);
  esp_netif_receive _ bs w :=
    (MkWire (wr_tx w) (wr_rx w) (wr_in w ++ bs) (wr_room w) (wr_acts w), 0);
  esp_netif_action _ a w :=
    (MkWire (wr_tx w) (wr_rx w) (wr_in w) (wr_room w) (wr_acts w ++ [a]), tt)
|}.

#[export] Program Instance wire_laws : UartLaws wire := {|
  uart_sent := wr_tx;
  uart_rx := wr_rx;
  netif_in := wr_in
|}.
Next Obligation.
  intros bs e Hbs%nonempty_length. cbv [uart_write_bytes wire_hw wr_tx]. right.
  rewrite Nat2Z.id. split; [lia|done].
Qed.
Next Obligation.
  intros e. cbn. split_and!; [exists []; by rewrite app_nil_r|done|]. by intros n [= <-].
Qed.
Next Obligation.
  intros n e Hn. cbn. eexists _, _, []. split; [reflexivity|]. cbn.
  rewrite app_nil_r, take_drop, length_take. by split_and!.
Qed.
Next Obligation. intros n bs e. cbn. split; [exists []; by rewrite app_nil_r|done]. Qed.

Definition up_and_running : ppp_sys wire :=
  MkSys RTake (MkPpp (E := wire) (Some 0) (Some (new_queue 20)) (Some 0) (Some tt)
                     (MkWire [] (replicate 1500 x41) [] 2 [])).

Lemma up_and_running_represents : represents up_and_running (MkLinkSpec false false false).
Proof. constructor; cbn; eauto; try done. by exists 0. Qed.

(** The link comes up, is lost, and the session dies while the task waits. *)
Definition lost_link : list (ppp_event wire) :=
  [ IpEvent 6 (Some (MkIpEvent (Some tt))); IpEvent 7 (Some (MkIpEvent (Some tt)));
    Reconnect false; Reconnect true; StatusEvent 0x100; Reconnect false ].

Example lost_link_run :
  let s := ppp_run lost_link up_and_running in
  ppp_uart_is_connected (sys_ppp s) = false /\
  wr_acts (p_env (sys_ppp s)) =
    [action_disconnected; action_stop; action_start; action_connected].
Proof. by vm_compute. Qed.

Lemma ppp_tracks_link_witness :
  ppp_uart_is_connected (sys_ppp (ppp_run (take 1 lost_link) up_and_running)) = true.
Proof.
  exact (proj1 (ppp_tracks_link (take 1 lost_link) up_and_running _ up_and_running_represents)).
Defined.


Lemma uart_bytes_in_order_witness :
  exists e2 got, uart_receive_event UART_DATA (sys_ppp up_and_running) =
      Some (set_p_env e2 (sys_ppp up_and_running)) /\
    netif_in e2 = got /\ Z.of_nat (length got) = 1500.
Proof.
  destruct (uart_bytes_in_order (p_env (sys_ppp up_and_running)) [x42] (sys_ppp up_and_running) tt
    (p_env (sys_ppp up_and_running)) 1500 eq_refl eq_refl) as [_ (e2 & got & more & Hr & _ & Hi & Hl)].
  by exists e2, got.
Defined.

Lemma wait_connected_first_up_witness :
  exists k, (k <= 6)%nat /\
    (ppp_uart_wait_connected lost_link up_and_running).1 = ppp_run (take k lost_link) up_and_running.
Proof.
  pose proof (wait_connected_first_up lost_link up_and_running _ up_and_running_represents) as Hw.
  destruct (ppp_uart_wait_connected lost_link up_and_running) as [s' b].
  destruct Hw as (k & Hk & -> & _). by exists k.
Defined.
