(* ===== verification/ZigbeeStack.v ===== *)
(** * The Zigbee side of the firmware: zb_rpc_server/main/zigbee_stack.c

    [firmware E] is the file's static variables, the heap blocks it owns and
    the lock it holds, over an environment [E]: the ESP Zigbee SDK
    ([EzbSdk]), whose constants are [EzbConst].  The SDK's main task runs the
    callbacks [zb_callback]; the application task lets it run wherever it
    blocks or takes the stack lock, and an arbitrary list of callbacks
    happens there ([run_pending]).  While the application holds the lock none
    does. *)

From Stdlib Require Import ZArith Lia.
From Stdlib Require Import Strings.Byte.
From stdpp Require Import base tactics list numbers option vector gmap.
From S2P Require Import Prelude Protocol ZigbeeApi Freertos.

(** ** What the SDK headers declare *)

Class EzbConst := {
  EZB_ERR_NONE : Z;
  ESP_OK : Z;
  ESP_ERR_NO_MEM : Z;
  ESP_FAIL : Z;
  EZB_BDB_STATUS_SUCCESS : Z;
  EZB_ZDP_STATUS_SUCCESS : Z;
  EZB_ZCL_STATUS_SUCCESS : Z;
  EZB_BDB_MODE_INITIALIZATION : Z;
  EZB_BDB_MODE_NETWORK_FORMATION : Z;
  EZB_BDB_MODE_NETWORK_STEERING : Z;
  EZB_AF_HA_PROFILE_ID : Z;
  EZB_ADDR_MODE_NONE : Z;
  EZB_ADDR_MODE_SHORT : Z;
  EZB_ADDR_MODE_EXT : Z;
  EZB_ZCL_CLUSTER_ID_BASIC : Z;
  EZB_ZCL_CLUSTER_ID_TEMPERATURE_MEASUREMENT : Z;
  EZB_ZCL_ATTR_BASIC_MANUFACTURER_NAME_ID : Z;
  EZB_ZCL_ATTR_BASIC_MODEL_IDENTIFIER_ID : Z;
  EZB_ZCL_ATTR_TEMPERATURE_MEASUREMENT_MEASURED_VALUE_ID : Z;
  EZB_ZCL_ATTR_TEMPERATURE_MEASUREMENT_MIN_MEASURED_VALUE_ID : Z;
  EZB_ZCL_ATTR_TEMPERATURE_MEASUREMENT_MAX_MEASURED_VALUE_ID : Z;
  EZB_ZCL_ATTR_TEMPERATURE_MEASUREMENT_TOLERANCE_ID : Z;
  EZB_ZCL_REPORTING_SEND : Z;
  EZB_ZCL_ATTR_TYPE_INT16 : Z
}.

(** [ESP_ZIGBEE_HA_THERMOSTAT_EP_ID] of thermostat.h. *)
Definition ESP_ZIGBEE_HA_THERMOSTAT_EP_ID : Z := 1.

(** Application signals with the parameters each type carries. *)
Inductive app_signal :=
  | sig_skip_startup
  | sig_device_first_start (status : Z)
  | sig_device_reboot (status : Z)
  | sig_formation (status : Z)
  | sig_steering (status : Z)
  | sig_device_annce (short_addr : Z)
  | sig_permit_join_status (duration : Z)
  | sig_other (signal_type : Z).

(** Results and messages; a pointer is an option, a pointer into a buffer
    the bytes from there on. *)
Record match_desc_rsp := MkMatchRsp {
  mr_status : Z;
  mr_match_length : Z;
  mr_nwk_addr_of_interest : Z;
  mr_match_list : option (list Z)
}.

Record match_desc_result := MkMatchResult {
  mres_error : Z;
  mres_rsp : option match_desc_rsp
}.

Record bind_result := MkBindResult {
  bres_error : Z;
  bres_rsp_status : option Z
}.

Record attr_variable := MkVariable {
  var_status : Z;
  var_attr_id : Z;
  var_attr_value : option (list byte)
}.

Record read_attr_rsp := MkReadAttrRsp {
  rar_cluster_id : Z;
  rar_status : Z;
  rar_variables : list attr_variable
}.

(** [rep_src] is the header's source address, by mode and short address. *)
Record report_attr := MkReportAttr {
  rep_cluster_id : Z;
  rep_src : option (Z * Z);
  rep_variables : list attr_variable
}.

Inductive zcl_message :=
  | zcl_read_attr_rsp_cb (message : option read_attr_rsp)
  | zcl_config_report_rsp_cb (info_status : option Z)
  | zcl_report_attr_cb (message : option report_attr)
  | zcl_other_cb (callback_id : Z).

(** What the SDK's task calls. *)
Inductive zb_callback :=
  | cb_signal (app_signal : app_signal)
  | cb_match (result : option match_desc_result)
  | cb_bind (result : option bind_result) (user_ctx : Z)
  | cb_zcl (message : zcl_message)
  | cb_alarm (arg : Z).

(** Requests. *)
Record match_desc_req := MkMatchReq {
  mreq_dst_nwk_addr : Z;
  mreq_nwk_addr_of_interest : Z;
  mreq_profile_id : Z;
  mreq_in_clusters : list Z;
  mreq_num_out_clusters : Z
}.

Record zdo_bind_req := MkBindReq {
  breq_dst_nwk_addr : Z;
  breq_src_ep : Z;
  breq_dst_ep : Z;
  breq_src_addr : Z;
  breq_dst_addr : Z;
  breq_cluster_id : Z;
  breq_dst_addr_mode : Z
}.

Record cmd_ctrl := MkCmdCtrl {
  cc_addr_mode : Z;
  cc_src_ep : Z;
  cc_short_addr : Z;
  cc_dst_ep : Z;
  cc_cluster_id : Z
}.

Record report_record := MkReportRecord {
  rr_direction : Z;
  rr_attr_id : Z;
  rr_attr_type : Z;
  rr_min_interval : Z;
  rr_max_interval : Z;
  rr_reportable_change : Z
}.

(** One step of the device's configuration. *)
Inductive config_call :=
  | cfg_esp_zigbee_init
  | cfg_enable_distributed_security (enable : bool)
  | cfg_set_primary_channel_set
  | cfg_set_secondary_channel_set
  | cfg_app_signal_add_handler
  | cfg_create_device_desc
  | cfg_create_thermostat (ep : Z)
  | cfg_basic_add_attr (attr_id : Z)
  | cfg_endpoint_add_client_cluster (cluster_id : Z)
  | cfg_device_add_endpoint
  | cfg_device_desc_register
  | cfg_action_handler_register
  | cfg_esp_zigbee_start (autostart : bool)
  | cfg_launch_mainloop
  | cfg_esp_zigbee_deinit.

Class EzbSdk (E : Type) := {
  ezb_nwk_get_short_address : E -> Z;
  ezb_nwk_get_panid : E -> Z;
  ezb_nwk_get_current_channel : E -> Z;
  ezb_nwk_get_extended_address : E -> Z;
  ezb_address_extended_by_short : E -> Z -> Z + Z;
  ezb_bdb_is_factory_new : E -> bool;
  ezb_bdb_start_top_level_commissioning : E -> Z -> E * Z;
  ezb_bdb_open_network : E -> Z -> E * Z;
  ezb_zdo_match_desc_req : E -> match_desc_req -> E * Z;
  ezb_zdo_bind_req : E -> zdo_bind_req -> Z -> E * Z;
  ezb_zcl_read_attr_cmd_req : E -> cmd_ctrl -> list Z -> E * Z;
  ezb_zcl_config_report_cmd_req : E -> cmd_ctrl -> list report_record -> E * Z;
  alarm_timer_schedule : E -> Z -> Z -> E;
  sdk_config : E -> config_call -> E * Z;
  xTaskCreate_ok : E -> E * bool;
  (** Whether the next allocation succeeds. *)
  heap_alloc : E -> E * bool;
  (** The callbacks the SDK's task runs while the application task is blocked
      for at most that many ticks ([0]: waits for the stack lock). *)
  sdk_callbacks : E -> Z -> E * list zb_callback
}.

(** ** The file's state *)

Record stack_vars `{FreeRtos} := MkVars {
  s_annce_q : option (queue Z);
  s_match_q : option (queue zigbee_addr_t);
  s_basic_done : option semaphore;
  s_temp_done : option semaphore;
  s_bind_done : option semaphore;
  s_report_done : option semaphore;
  s_basic_cache : zigbee_basic_t;
  s_temp_cache : zigbee_temp_t;
  s_last_temp : Z;
  s_last_sensor_addr : Z;
  s_bind_err : Z;
  s_report_err : Z
}.

Arguments MkVars {_} _ _ _ _ _ _ _ _ _ _ _ _.

(** [f_heap] is the blocks the file has allocated and not freed, [f_next] the
    address of the next one; [f_locked]: the application task holds the stack
    lock; [f_fault]: undefined behaviour or an abort, after which nothing
    happens. *)
Record firmware `{FreeRtos} (E : Type) := MkFirmware {
  f_env : E;
  f_vars : stack_vars;
  f_heap : gset Z;
  f_next : Z;
  f_locked : bool;
  f_fault : bool
}.

Arguments MkFirmware {_ E} _ _ _ _ _ _.
Arguments f_env {_ E} _.
Arguments f_vars {_ E} _.
Arguments f_heap {_ E} _.
Arguments f_next {_ E} _.
Arguments f_locked {_ E} _.
Arguments f_fault {_ E} _.

Section Setters.
Context `{FreeRtos}.
Implicit Types v : stack_vars.

Definition set_annce_q x v :=
  MkVars x v.(s_match_q) v.(s_basic_done) v.(s_temp_done)
    v.(s_bind_done) v.(s_report_done) v.(s_basic_cache) v.(s_temp_cache)
    v.(s_last_temp) v.(s_last_sensor_addr) v.(s_bind_err) v.(s_report_err).

Definition set_match_q x v :=
  MkVars v.(s_annce_q) x v.(s_basic_done) v.(s_temp_done)
    v.(s_bind_done) v.(s_report_done) v.(s_basic_cache) v.(s_temp_cache)
    v.(s_last_temp) v.(s_last_sensor_addr) v.(s_bind_err) v.(s_report_err).

Definition set_basic_done x v :=
  MkVars v.(s_annce_q) v.(s_match_q) x v.(s_temp_done)
    v.(s_bind_done) v.(s_report_done) v.(s_basic_cache) v.(s_temp_cache)
    v.(s_last_temp) v.(s_last_sensor_addr) v.(s_bind_err) v.(s_report_err).

Definition set_temp_done x v :=
  MkVars v.(s_annce_q) v.(s_match_q) v.(s_basic_done) x
    v.(s_bind_done) v.(s_report_done) v.(s_basic_cache) v.(s_temp_cache)
    v.(s_last_temp) v.(s_last_sensor_addr) v.(s_bind_err) v.(s_report_err).

Definition set_bind_done x v :=
  MkVars v.(s_annce_q) v.(s_match_q) v.(s_basic_done) v.(s_temp_done)
    x v.(s_report_done) v.(s_basic_cache) v.(s_temp_cache)
    v.(s_last_temp) v.(s_last_sensor_addr) v.(s_bind_err) v.(s_report_err).

Definition set_report_done x v :=
  MkVars v.(s_annce_q) v.(s_match_q) v.(s_basic_done) v.(s_temp_done)
    v.(s_bind_done) x v.(s_basic_cache) v.(s_temp_cache)
    v.(s_last_temp) v.(s_last_sensor_addr) v.(s_bind_err) v.(s_report_err).

Definition set_basic_cache x v :=
  MkVars v.(s_annce_q) v.(s_match_q) v.(s_basic_done) v.(s_temp_done)
    v.(s_bind_done) v.(s_report_done) x v.(s_temp_cache)
    v.(s_last_temp) v.(s_last_sensor_addr) v.(s_bind_err) v.(s_report_err).

Definition set_temp_cache x v :=
  MkVars v.(s_annce_q) v.(s_match_q) v.(s_basic_done) v.(s_temp_done)
    v.(s_bind_done) v.(s_report_done) v.(s_basic_cache) x
    v.(s_last_temp) v.(s_last_sensor_addr) v.(s_bind_err) v.(s_report_err).

Definition set_last_temp x v :=
  MkVars v.(s_annce_q) v.(s_match_q) v.(s_basic_done) v.(s_temp_done)
    v.(s_bind_done) v.(s_report_done) v.(s_basic_cache) v.(s_temp_cache)
    x v.(s_last_sensor_addr) v.(s_bind_err) v.(s_report_err).

Definition set_last_sensor_addr x v :=
  MkVars v.(s_annce_q) v.(s_match_q) v.(s_basic_done) v.(s_temp_done)
    v.(s_bind_done) v.(s_report_done) v.(s_basic_cache) v.(s_temp_cache)
    v.(s_last_temp) x v.(s_bind_err) v.(s_report_err).

Definition set_bind_err x v :=
  MkVars v.(s_annce_q) v.(s_match_q) v.(s_basic_done) v.(s_temp_done)
    v.(s_bind_done) v.(s_report_done) v.(s_basic_cache) v.(s_temp_cache)
    v.(s_last_temp) v.(s_last_sensor_addr) x v.(s_report_err).

Definition set_report_err x v :=
  MkVars v.(s_annce_q) v.(s_match_q) v.(s_basic_done) v.(s_temp_done)
    v.(s_bind_done) v.(s_report_done) v.(s_basic_cache) v.(s_temp_cache)
    v.(s_last_temp) v.(s_last_sensor_addr) v.(s_bind_err) x.
End Setters.

Section ZigbeeStack.
Context `{FreeRtos, EzbConst} {E : Type} `{EzbSdk E}.

(** [FW A]: code of this file that returns an [A]. *)
Definition FW (A : Type) : Type := St (firmware E) A.

(** ** Primitive steps

    All of them do nothing once the program has faulted. *)

Definition step (f : firmware E -> firmware E) : FW unit :=
  modify (fun s => if f_fault s then s else f s).

Definition fault : FW unit :=
  step (fun s => MkFirmware (f_env s) (f_vars s) (f_heap s) (f_next s) (f_locked s) true).

(** Reads and assigns the static variables. *)
Definition vars {A} (f : stack_vars -> A) : FW A := gets (fun s => f (f_vars s)).

Definition upd (f : stack_vars -> stack_vars) : FW unit :=
  step (fun s =>
    MkFirmware (f_env s) (f (f_vars s)) (f_heap s) (f_next s) (f_locked s) (f_fault s)).

(** A call into the environment, [d] standing for its result after a fault. *)
Definition sdk {A} (d : A) (f : E -> E * A) : FW A := fun s =>
  if f_fault s then (s, d)
  else
    let '(env, a) := f (f_env s) in
    (MkFirmware env (f_vars s) (f_heap s) (f_next s) (f_locked s) (f_fault s), a).

Definition sdk_get {A} (f : E -> A) : FW A := gets (fun s => f (f_env s)).

(** A call the SDK requires the stack lock for. *)
Definition locked {A} (d : A) (m : FW A) : FW A :=
  l ← gets f_locked; if l : bool then m else (fault;; mret d).

Definition esp_zigbee_lock_release : FW unit :=
  step (fun s => MkFirmware (f_env s) (f_vars s) (f_heap s) (f_next s) false (f_fault s)).

(** [ESP_ERROR_CHECK] aborts on an error. *)
Definition ESP_ERROR_CHECK (m : FW Z) : FW unit :=
  err ← m; if err =? ESP_OK then mret tt else fault.

(** [calloc] and [free] of one block. *)
Definition calloc : FW (option Z) :=
  ok ← sdk false heap_alloc;
  if ok : bool then
    p ← gets f_next;
    step (fun s => MkFirmware (f_env s) (f_vars s) ({[p]} ∪ f_heap s) (p + 1)
                              (f_locked s) (f_fault s));;
    mret (Some p)
  else mret None.

Definition free (p : Z) : FW unit :=
  h ← gets f_heap;
  if decide (p ∈ h) then
    step (fun s => MkFirmware (f_env s) (f_vars s) (f_heap s ∖ {[p]}) (f_next s)
                              (f_locked s) (f_fault s))
  else fault.

(** Sends to and gives to handles that may still be [NULL]. *)
Definition send_to {A} (q : option (queue A)) (a : A) : option (queue A) :=
  (fun q => (xQueueSend q a).1) <$> q.

Definition give (sem : option semaphore) : option semaphore := xSemaphoreGive <$> sem.

(** ** Helpers of the file *)

(** [copy_zcl_string]: the whole of [dst]; [None] when [zcl] is read past
    its end. *)
Definition copy_zcl_string (dst_size : nat) (zcl : option (list byte)) : option (list byte) :=
  if Nat.eqb dst_size 0 then Some []
  else
    match zcl with
    | None => Some (replicate dst_size x00)
    | Some [] => None
    | Some (z0 :: z) =>
        let length := byte_to_Z z0 in
        let length := if Z.of_nat dst_size <=? length then u8 (Z.of_nat dst_size - 1)
                      else length in
        let n := Z.to_nat length in
        if Nat.ltb (List.length z) n then None
        else Some (take n z ++ replicate (dst_size - n) x00)
    end.

Definition copy_zcl_field (zcl : option (list byte)) : FW (vec byte 16) :=
  match copy_zcl_string 16 zcl with
  | Some l => mret (vec_of_list 16 x00 l)
  | None => fault;; mret (Vector.const x00 16)
  end.

(** [*(int16_t * )p] *)
Definition load_int16 (p : option (list byte)) : FW Z :=
  match p with
  | Some (b0 :: b1 :: _) => mret (from_le16_s (Le16 b0 b1))
  | _ => fault;; mret 0
  end.

Definition zigbee_alarm_bdb_commissioning (arg : Z) : FW unit :=
  sdk 0 (fun env => ezb_bdb_start_top_level_commissioning env arg);; mret tt.

(** ** Callbacks of the SDK's task *)

Definition zigbee_app_signal_handler (app_signal : app_signal) : FW bool :=
  let start mode :=
    sdk 0 (fun env => ezb_bdb_start_top_level_commissioning env mode);; mret tt in
  let schedule mode ms := sdk tt (fun env => (alarm_timer_schedule env mode ms, tt)) in
  match app_signal with
  | sig_skip_startup => start EZB_BDB_MODE_INITIALIZATION
  | sig_device_first_start status | sig_device_reboot status =>
      if status =? EZB_BDB_STATUS_SUCCESS then
        factory_new ← sdk_get ezb_bdb_is_factory_new;
        if factory_new : bool then start EZB_BDB_MODE_NETWORK_FORMATION else mret tt
      else schedule EZB_BDB_MODE_INITIALIZATION 1000
  | sig_formation status =>
      if status =? EZB_BDB_STATUS_SUCCESS then start EZB_BDB_MODE_NETWORK_STEERING
      else schedule EZB_BDB_MODE_NETWORK_FORMATION 1000
  | sig_steering status =>
      if status =? EZB_BDB_STATUS_SUCCESS then mret tt
      else schedule EZB_BDB_MODE_NETWORK_FORMATION 1000
  | sig_device_annce short_addr =>
      upd (fun v => set_annce_q (send_to (s_annce_q v) (u16 short_addr)) v)
  | sig_permit_join_status _ => mret tt
  | sig_other _ => mret tt
  end;;
  mret true.

(** The [zigbee_addr_t] that [zdo_match_result] queues; [None] when it reads
    the first element of an empty array. *)
Definition match_outcome (result : option match_desc_result) : option zigbee_addr_t :=
  match result with
  | None => Some (MkZigbeeAddr (-1) 0 0)
  | Some r =>
      let failure := Some (MkZigbeeAddr (s32 (mres_error r)) 0 0) in
      if mres_error r =? EZB_ERR_NONE then
        match mres_rsp r with
        | Some rsp =>
            if (mr_status rsp =? EZB_ZDP_STATUS_SUCCESS) && (0 <? mr_match_length rsp) then
              match mr_match_list rsp with
              | Some l =>
                  ep ← head l;
                  Some (MkZigbeeAddr 0 (u16 (mr_nwk_addr_of_interest rsp)) (u8 ep))
              | None => failure
              end
            else failure
        | None => failure
        end
      else failure
  end.

Definition zdo_match_result (result : option match_desc_result) : FW unit :=
  match match_outcome result with
  | Some out => upd (fun v => set_match_q (send_to (s_match_q v) out) v)
  | None => fault
  end.

Definition zdo_bind_result (result : option bind_result) (user_ctx : Z) : FW unit :=
  upd (set_bind_err (-1));;
  match result with
  | None => mret tt
  | Some r =>
      if bres_error r =? EZB_ERR_NONE then
        match bres_rsp_status r with
        | Some status =>
            upd (set_bind_err (if status =? EZB_ZDP_STATUS_SUCCESS then 0 else s32 status))
        | None => fault
        end
      else upd (set_bind_err (s32 (bres_error r)))
  end;;
  upd (fun v => set_bind_done (give (s_bind_done v)) v);;
  free user_ctx.

(** The body of the loop over the Basic attributes, and over the temperature
    attributes. *)
Definition basic_variable (var : attr_variable) : FW unit :=
  if negb (var_status var =? EZB_ZCL_STATUS_SUCCESS) then mret tt
  else if var_attr_id var =? EZB_ZCL_ATTR_BASIC_MANUFACTURER_NAME_ID then
    s ← copy_zcl_field (var_attr_value var);
    upd (fun v => set_basic_cache
      (MkZigbeeBasic (zb_err (s_basic_cache v)) s (zb_model (s_basic_cache v))) v)
  else if var_attr_id var =? EZB_ZCL_ATTR_BASIC_MODEL_IDENTIFIER_ID then
    s ← copy_zcl_field (var_attr_value var);
    upd (fun v => set_basic_cache
      (MkZigbeeBasic (zb_err (s_basic_cache v)) (zb_manufacturer (s_basic_cache v)) s) v)
  else mret tt.

Definition temp_variable (var : attr_variable) : FW unit :=
  if negb (var_status var =? EZB_ZCL_STATUS_SUCCESS) then mret tt
  else
    value ← load_int16 (var_attr_value var);
    let id := var_attr_id var in
    upd (fun v =>
      let c := s_temp_cache v in
      if id =? EZB_ZCL_ATTR_TEMPERATURE_MEASUREMENT_MEASURED_VALUE_ID then
        set_last_temp value (set_temp_cache
          (MkZigbeeTemp (zt_err c) value (zt_min_measured c) (zt_max_measured c)
                        (zt_tolerance c)) v)
      else if id =? EZB_ZCL_ATTR_TEMPERATURE_MEASUREMENT_MIN_MEASURED_VALUE_ID then
        set_temp_cache (MkZigbeeTemp (zt_err c) (zt_measured c) value (zt_max_measured c)
                                     (zt_tolerance c)) v
      else if id =? EZB_ZCL_ATTR_TEMPERATURE_MEASUREMENT_MAX_MEASURED_VALUE_ID then
        set_temp_cache (MkZigbeeTemp (zt_err c) (zt_measured c) (zt_min_measured c) value
                                     (zt_tolerance c)) v
      else if id =? EZB_ZCL_ATTR_TEMPERATURE_MEASUREMENT_TOLERANCE_ID then
        set_temp_cache (MkZigbeeTemp (zt_err c) (zt_measured c) (zt_min_measured c)
                                     (zt_max_measured c) value) v
      else v).

Definition zcl_read_attr_rsp (message : option read_attr_rsp) : FW unit :=
  match message with
  | None => mret tt
  | Some m =>
      let err := if rar_status m =? EZB_ZCL_STATUS_SUCCESS then 0 else -1 in
      if rar_cluster_id m =? EZB_ZCL_CLUSTER_ID_BASIC then
        upd (set_basic_cache (MkZigbeeBasic err (Vector.const x00 16) (Vector.const x00 16)));;
        for_each basic_variable (rar_variables m);;
        upd (fun v => set_basic_done (give (s_basic_done v)) v)
      else if rar_cluster_id m =? EZB_ZCL_CLUSTER_ID_TEMPERATURE_MEASUREMENT then
        upd (set_temp_cache (MkZigbeeTemp err 0 0 0 0));;
        for_each temp_variable (rar_variables m);;
        upd (fun v => set_temp_done (give (s_temp_done v)) v)
      else mret tt
  end.

Definition report_variable (var : attr_variable) : FW unit :=
  if var_attr_id var =? EZB_ZCL_ATTR_TEMPERATURE_MEASUREMENT_MEASURED_VALUE_ID then
    value ← load_int16 (var_attr_value var); upd (set_last_temp value)
  else mret tt.

Definition zcl_report_attr (message : option report_attr) : FW unit :=
  match message with
  | None => mret tt
  | Some m =>
      if negb (rep_cluster_id m =? EZB_ZCL_CLUSTER_ID_TEMPERATURE_MEASUREMENT) then mret tt
      else
        match rep_src m with
        | Some (addr_mode, short_addr) =>
            if addr_mode =? EZB_ADDR_MODE_SHORT
            then upd (set_last_sensor_addr (u16 short_addr)) else mret tt
        | None => mret tt
        end;;
        for_each report_variable (rep_variables m)
  end.

Definition zcl_config_report_rsp (info_status : option Z) : FW unit :=
  upd (set_report_err (-1));;
  match info_status with
  | Some status =>
      if status =? EZB_ZCL_STATUS_SUCCESS then upd (set_report_err 0) else mret tt
  | None => mret tt
  end;;
  upd (fun v => set_report_done (give (s_report_done v)) v).

Definition zigbee_zcl_action_handler (message : zcl_message) : FW unit :=
  match message with
  | zcl_read_attr_rsp_cb m => zcl_read_attr_rsp m
  | zcl_config_report_rsp_cb m => zcl_config_report_rsp m
  | zcl_report_attr_cb m => zcl_report_attr m
  | zcl_other_cb _ => mret tt
  end.

Definition run_callback (cb : zb_callback) : FW unit :=
  match cb with
  | cb_signal sig => zigbee_app_signal_handler sig;; mret tt
  | cb_match result => zdo_match_result result
  | cb_bind result user_ctx => zdo_bind_result result user_ctx
  | cb_zcl message => zigbee_zcl_action_handler message
  | cb_alarm arg => zigbee_alarm_bdb_commissioning arg
  end.

(** ** Blocking *)

(** The SDK's task runs for at most [ticks], unless the application task
    holds the stack lock. *)
Definition run_pending (ticks : Z) : FW unit :=
  l ← gets f_locked;
  if l : bool then mret tt
  else cbs ← sdk [] (fun env => sdk_callbacks env ticks); for_each run_callback cbs.

(** [esp_zigbee_lock_acquire(portMAX_DELAY)]; taking it twice blocks for ever. *)
Definition esp_zigbee_lock_acquire : FW unit :=
  run_pending 0;;
  l ← gets f_locked;
  if l : bool then fault
  else step (fun s =>
    MkFirmware (f_env s) (f_vars s) (f_heap s) (f_next s) true (f_fault s)).

(** [xSemaphoreTake(sem, 0)] and [xSemaphoreTake(sem, ticks)] of the static
    variable read by [sem] and assigned by [set_sem]. *)
Definition take_now (sem : stack_vars -> option semaphore)
    (set_sem : option semaphore -> stack_vars -> stack_vars) : FW bool :=
  h ← vars sem;
  match h with
  | None => fault;; mret false
  | Some h =>
      let '(h, ok) := xSemaphoreTake h in
      upd (set_sem (Some h));; mret ok
  end.

Definition take_wait sem set_sem (ticks : Z) : FW bool :=
  ok ← take_now sem set_sem;
  if ok : bool then mret true else run_pending ticks;; take_now sem set_sem.

(** [xQueueReceive], likewise. *)
Definition receive_now {A} (q : stack_vars -> option (queue A))
    (set_q : option (queue A) -> stack_vars -> stack_vars) : FW (option A) :=
  h ← vars q;
  match h with
  | None => fault;; mret None
  | Some h =>
      let '(h, a) := xQueueReceive h in
      upd (set_q (Some h));; mret a
  end.

Definition receive_wait {A} q (set_q : option (queue A) -> stack_vars -> stack_vars)
    (ticks : Z) : FW (option A) :=
  a ← receive_now q set_q;
  match a with
  | Some a => mret (Some a)
  | None => run_pending ticks;; receive_now q set_q
  end.

Definition reset_match_q : FW unit :=
  h ← vars s_match_q;
  match h with
  | None => fault
  | Some h => upd (set_match_q (Some (xQueueReset h)))
  end.

(** ** Bringing the stack up *)

Definition zigbee_create_device : FW Z :=
  let cfg c := sdk 0 (fun env => sdk_config env c) in
  cfg cfg_create_device_desc;;
  cfg (cfg_create_thermostat ESP_ZIGBEE_HA_THERMOSTAT_EP_ID);;
  cfg (cfg_basic_add_attr EZB_ZCL_ATTR_BASIC_MANUFACTURER_NAME_ID);;
  cfg (cfg_basic_add_attr EZB_ZCL_ATTR_BASIC_MODEL_IDENTIFIER_ID);;
  ESP_ERROR_CHECK (cfg (cfg_endpoint_add_client_cluster EZB_ZCL_CLUSTER_ID_BASIC));;
  ESP_ERROR_CHECK
    (cfg (cfg_endpoint_add_client_cluster EZB_ZCL_CLUSTER_ID_TEMPERATURE_MEASUREMENT));;
  ESP_ERROR_CHECK (cfg cfg_device_add_endpoint);;
  ESP_ERROR_CHECK (cfg cfg_device_desc_register);;
  cfg cfg_action_handler_register;;
  mret ESP_OK.

Definition zigbee_main_task : FW unit :=
  let cfg c := sdk 0 (fun env => sdk_config env c) in
  ESP_ERROR_CHECK (cfg cfg_esp_zigbee_init);;
  cfg (cfg_enable_distributed_security false);;
  ESP_ERROR_CHECK (cfg cfg_set_primary_channel_set);;
  ESP_ERROR_CHECK (cfg cfg_set_secondary_channel_set);;
  ESP_ERROR_CHECK (cfg cfg_app_signal_add_handler);;
  ESP_ERROR_CHECK zigbee_create_device;;
  ESP_ERROR_CHECK (cfg (cfg_esp_zigbee_start false));;
  cfg cfg_launch_mainloop;;
  cfg cfg_esp_zigbee_deinit;;
  mret tt.

(** [xQueueCreate] and [xSemaphoreCreateBinary] return [NULL] when the heap is
    exhausted. *)
Definition create {A} (a : A) : FW (option A) :=
  ok ← sdk false heap_alloc; mret (if ok : bool then Some a else None).

Definition handles_created (v : stack_vars) : bool :=
  bool_decide (is_Some (s_annce_q v)) && bool_decide (is_Some (s_match_q v)) &&
  bool_decide (is_Some (s_basic_done v)) && bool_decide (is_Some (s_temp_done v)) &&
  bool_decide (is_Some (s_bind_done v)) && bool_decide (is_Some (s_report_done v)).

Definition zigbee_stack_start : FW Z :=
  q ← create (new_queue 4); upd (set_annce_q q);;
  q ← create (new_queue 1); upd (set_match_q q);;
  h ← create new_binary; upd (set_basic_done h);;
  h ← create new_binary; upd (set_temp_done h);;
  h ← create new_binary; upd (set_bind_done h);;
  h ← create new_binary; upd (set_report_done h);;
  all ← vars handles_created;
  if negb all then mret ESP_ERR_NO_MEM
  else
    ok ← sdk false xTaskCreate_ok;
    mret (if ok : bool then ESP_OK else ESP_FAIL).

(** ** The API *)

Definition zigbee_get_short_addr : FW Z :=
  esp_zigbee_lock_acquire;;
  value ← locked 0 (sdk_get ezb_nwk_get_short_address);
  esp_zigbee_lock_release;;
  mret (u16 value).

Definition zigbee_get_panid : FW Z :=
  esp_zigbee_lock_acquire;;
  value ← locked 0 (sdk_get ezb_nwk_get_panid);
  esp_zigbee_lock_release;;
  mret (u16 value).

Definition zigbee_get_channel : FW Z :=
  esp_zigbee_lock_acquire;;
  value ← locked 0 (sdk_get ezb_nwk_get_current_channel);
  esp_zigbee_lock_release;;
  mret (u8 value).

Definition zigbee_get_sensor_addr : FW Z := vars s_last_sensor_addr.

Definition zigbee_open_network (duration : Z) : FW Z :=
  esp_zigbee_lock_acquire;;
  err ← locked 0 (sdk 0 (fun env => ezb_bdb_open_network env duration));
  esp_zigbee_lock_release;;
  mret (if err =? EZB_ERR_NONE then 0 else s32 err).

Definition zigbee_wait_annce (timeout_ms : Z) : FW Z :=
  r ← receive_wait s_annce_q set_annce_q (ms_to_ticks timeout_ms);
  mret (default 0 r).

Definition find_sensor_req (short_addr : Z) : match_desc_req :=
  MkMatchReq short_addr short_addr EZB_AF_HA_PROFILE_ID
             [EZB_ZCL_CLUSTER_ID_TEMPERATURE_MEASUREMENT] 0.

Definition zigbee_find_sensor (short_addr timeout_ms : Z) : FW zigbee_addr_t :=
  reset_match_q;;
  esp_zigbee_lock_acquire;;
  err ← locked 0 (sdk 0 (fun env => ezb_zdo_match_desc_req env (find_sensor_req short_addr)));
  esp_zigbee_lock_release;;
  if negb (err =? EZB_ERR_NONE) then mret (MkZigbeeAddr (s32 err) 0 0)
  else
    r ← receive_wait s_match_q set_match_q (ms_to_ticks timeout_ms);
    match r with
    | None => mret (MkZigbeeAddr (-2) 0 0)
    | Some out =>
        (if za_err out =? 0 then upd (set_last_sensor_addr (za_short_addr out)) else mret tt);;
        mret out
    end.

Definition read_attr_ctrl (short_addr ep cluster_id : Z) : cmd_ctrl :=
  MkCmdCtrl EZB_ADDR_MODE_SHORT ESP_ZIGBEE_HA_THERMOSTAT_EP_ID short_addr ep cluster_id.

Definition basic_attr_field : list Z :=
  [EZB_ZCL_ATTR_BASIC_MANUFACTURER_NAME_ID; EZB_ZCL_ATTR_BASIC_MODEL_IDENTIFIER_ID].

Definition basic_failure (err : Z) : zigbee_basic_t :=
  MkZigbeeBasic err (Vector.const x00 16) (Vector.const x00 16).

(** The SDK's task may run between the wake-up and the copy of the cache. *)
Definition zigbee_read_basic (short_addr ep timeout_ms : Z) : FW zigbee_basic_t :=
  take_now s_basic_done set_basic_done;;
  esp_zigbee_lock_acquire;;
  err ← locked 0 (sdk 0 (fun env => ezb_zcl_read_attr_cmd_req env
          (read_attr_ctrl short_addr ep EZB_ZCL_CLUSTER_ID_BASIC) basic_attr_field));
  esp_zigbee_lock_release;;
  if negb (err =? EZB_ERR_NONE) then mret (basic_failure (s32 err))
  else
    ok ← take_wait s_basic_done set_basic_done (ms_to_ticks timeout_ms);
    if negb ok then mret (basic_failure (-2))
    else run_pending 0;; vars s_basic_cache.

(** The fields of the request, or the early return of [zigbee_bind_common]. *)
Definition bind_addresses (remote_short remote_ep : Z) (to_local : bool)
    : FW (option zdo_bind_req) :=
  let cluster := EZB_ZCL_CLUSTER_ID_TEMPERATURE_MEASUREMENT in
  if to_local then
    short ← sdk_get ezb_nwk_get_short_address;
    own ← sdk_get ezb_nwk_get_extended_address;
    remote ← sdk_get (fun env => ezb_address_extended_by_short env remote_short);
    mret (match remote with
          | inl _ => None
          | inr remote =>
              Some (MkBindReq (u16 short) ESP_ZIGBEE_HA_THERMOSTAT_EP_ID remote_ep own remote
                              cluster EZB_ADDR_MODE_EXT)
          end)
  else
    own ← sdk_get ezb_nwk_get_extended_address;
    remote ← sdk_get (fun env => ezb_address_extended_by_short env remote_short);
    mret (match remote with
          | inl _ => None
          | inr remote =>
              Some (MkBindReq remote_short remote_ep ESP_ZIGBEE_HA_THERMOSTAT_EP_ID remote own
                              cluster EZB_ADDR_MODE_EXT)
          end).

Definition zigbee_bind_common (remote_short remote_ep : Z) (to_local : bool)
    (timeout_ms : Z) : FW Z :=
  p ← calloc;
  match p with
  | None => mret (-1)
  | Some bind_req =>
      take_now s_bind_done set_bind_done;;
      esp_zigbee_lock_acquire;;
      fields ← locked None (bind_addresses remote_short remote_ep to_local);
      match fields with
      | None => esp_zigbee_lock_release;; free bind_req;; mret (-1)
      | Some fields =>
          err ← locked 0 (sdk 0 (fun env => ezb_zdo_bind_req env fields bind_req));
          esp_zigbee_lock_release;;
          if negb (err =? EZB_ERR_NONE) then free bind_req;; mret (s32 err)
          else
            ok ← take_wait s_bind_done set_bind_done (ms_to_ticks timeout_ms);
            if negb ok then mret (-2)
            else run_pending 0;; vars s_bind_err
      end
  end.

Definition zigbee_bind_sensor (short_addr ep timeout_ms : Z) : FW Z :=
  zigbee_bind_common short_addr ep true timeout_ms.

Definition zigbee_subscribe_sensor (short_addr ep timeout_ms : Z) : FW Z :=
  zigbee_bind_common short_addr ep false timeout_ms.

Definition config_report_ctrl : cmd_ctrl :=
  MkCmdCtrl EZB_ADDR_MODE_NONE ESP_ZIGBEE_HA_THERMOSTAT_EP_ID 0 0
            EZB_ZCL_CLUSTER_ID_TEMPERATURE_MEASUREMENT.

Definition config_report_record : list report_record :=
  [MkReportRecord EZB_ZCL_REPORTING_SEND EZB_ZCL_ATTR_TEMPERATURE_MEASUREMENT_MEASURED_VALUE_ID
                  EZB_ZCL_ATTR_TYPE_INT16 1 10 200].

Definition zigbee_config_report (_short_addr _ep timeout_ms : Z) : FW Z :=
  take_now s_report_done set_report_done;;
  esp_zigbee_lock_acquire;;
  err ← locked 0 (sdk 0 (fun env => ezb_zcl_config_report_cmd_req env
          config_report_ctrl config_report_record));
  esp_zigbee_lock_release;;
  if negb (err =? EZB_ERR_NONE) then mret (s32 err)
  else
    ok ← take_wait s_report_done set_report_done (ms_to_ticks timeout_ms);
    if negb ok then mret (-2)
    else run_pending 0;; vars s_report_err.

Definition temp_attr_field : list Z :=
  [EZB_ZCL_ATTR_TEMPERATURE_MEASUREMENT_MEASURED_VALUE_ID;
   EZB_ZCL_ATTR_TEMPERATURE_MEASUREMENT_MIN_MEASURED_VALUE_ID;
   EZB_ZCL_ATTR_TEMPERATURE_MEASUREMENT_MAX_MEASURED_VALUE_ID;
   EZB_ZCL_ATTR_TEMPERATURE_MEASUREMENT_TOLERANCE_ID].

Definition temp_failure (err : Z) : zigbee_temp_t := MkZigbeeTemp err 0 0 0 0.

Definition zigbee_read_temp (short_addr ep timeout_ms : Z) : FW zigbee_temp_t :=
  take_now s_temp_done set_temp_done;;
  esp_zigbee_lock_acquire;;
  err ← locked 0 (sdk 0 (fun env => ezb_zcl_read_attr_cmd_req env
          (read_attr_ctrl short_addr ep EZB_ZCL_CLUSTER_ID_TEMPERATURE_MEASUREMENT)
          temp_attr_field));
  esp_zigbee_lock_release;;
  if negb (err =? EZB_ERR_NONE) then mret (temp_failure (s32 err))
  else
    ok ← take_wait s_temp_done set_temp_done (ms_to_ticks timeout_ms);
    if negb ok then mret (temp_failure (-2))
    else run_pending 0;; vars s_temp_cache.

Definition zigbee_get_last_temp : FW Z := vars s_last_temp.
End ZigbeeStack.

(** ** The firmware implements the API *)

#[export] Instance firmware_api `{FreeRtos, EzbConst} {E} `{EzbSdk E}
    : ZigbeeApi (firmware E) := {|
  ZigbeeApi.zigbee_get_short_addr := zigbee_get_short_addr;
  ZigbeeApi.zigbee_get_panid := zigbee_get_panid;
  ZigbeeApi.zigbee_get_channel := zigbee_get_channel;
  ZigbeeApi.zigbee_get_sensor_addr := zigbee_get_sensor_addr;
  ZigbeeApi.zigbee_open_network w d := zigbee_open_network d w;
  ZigbeeApi.zigbee_wait_annce w t := zigbee_wait_annce t w;
  ZigbeeApi.zigbee_find_sensor w a t := zigbee_find_sensor a t w;
  ZigbeeApi.zigbee_read_basic w a e t := zigbee_read_basic a e t w;
  ZigbeeApi.zigbee_bind_sensor w a e t := zigbee_bind_sensor a e t w;
  ZigbeeApi.zigbee_subscribe_sensor w a e t := zigbee_subscribe_sensor a e t w;
  ZigbeeApi.zigbee_config_report w a e t := zigbee_config_report a e t w;
  ZigbeeApi.zigbee_read_temp w a e t := zigbee_read_temp a e t w;
  ZigbeeApi.zigbee_get_last_temp := zigbee_get_last_temp
|}.
