(* ===== verification/ZigbeeStackFacts.v ===== *)
(** * The Zigbee side of the firmware: invariant and behaviour

    [EzbLaws E] is what the file relies on the SDK for: well-formed messages,
    and every accepted bind request answered at most once.  Under it no
    operation faults, leaks a request or returns with the stack lock held. *)

From Stdlib Require Import ZArith Lia.
From Stdlib Require Import Strings.Byte.
From stdpp Require Import base tactics list numbers option vector gmap sets.
From S2P Require Import Prelude Protocol ZigbeeApi Freertos ZigbeeStack.

(** ** Strings *)

(** A ZCL string: its length byte and that many bytes. *)
Definition zcl_string_ok (zcl : option (list byte)) : Prop :=
  match zcl with
  | None => True
  | Some [] => False
  | Some (z0 :: z) => (Z.to_nat (byte_to_Z z0) <= length z)%nat
  end.

Definition zcl_text (zcl : option (list byte)) : list byte :=
  match zcl with
  | Some (z0 :: z) => take (Z.to_nat (byte_to_Z z0)) z
  | _ => []
  end.

Lemma copy_zcl_string_some n zcl :
  (n <= 256)%nat -> zcl_string_ok zcl ->
  copy_zcl_string n zcl =
  Some (take (n - 1) (zcl_text zcl) ++ replicate (n - length (take (n - 1) (zcl_text zcl))) x00).
Proof.
  intros Hn Hok. unfold copy_zcl_string. destruct n as [|n]; [done|]. cbn [Nat.eqb].
  destruct zcl as [[|z0 z]|]; cbn [zcl_text zcl_string_ok] in *; [done| |by rewrite take_nil].
  pose proof (byte_to_Z_range z0) as Hz.
  destruct (Z.leb_spec (Z.of_nat (S n)) (byte_to_Z z0)).
  - rewrite u8_id by (unfold is_u8; lia).
    replace (Z.to_nat (Z.of_nat (S n) - 1)) with n by lia.
    rewrite (proj2 (Nat.ltb_ge _ _)), take_take by lia.
    rewrite length_take. do 2 f_equal; [f_equal; lia|]. f_equal. lia.
  - rewrite (proj2 (Nat.ltb_ge _ _)), take_take by lia.
    rewrite length_take. do 2 f_equal; [f_equal; lia|]. f_equal. lia.
Qed.

(** ** What the SDK promises *)

Section Contract.
Context `{EzbConst}.

Definition int16_ok (p : option (list byte)) : bool :=
  match p with Some (_ :: _ :: _) => true | _ => false end.

Definition match_ok (result : option match_desc_result) : Prop :=
  match result with
  | Some (MkMatchResult _ (Some rsp)) => mr_match_list rsp <> Some []
  | _ => True
  end.

Definition bind_ok (result : option bind_result) : Prop :=
  match result with
  | Some r => bres_error r = EZB_ERR_NONE -> bres_rsp_status r <> None
  | None => True
  end.

Definition read_attr_ok (message : option read_attr_rsp) : Prop :=
  match message with
  | None => True
  | Some m =>
      (rar_cluster_id m = EZB_ZCL_CLUSTER_ID_BASIC ->
       Forall (fun var => zcl_string_ok (var_attr_value var)) (rar_variables m)) /\
      (rar_cluster_id m = EZB_ZCL_CLUSTER_ID_TEMPERATURE_MEASUREMENT ->
       Forall (fun var => var_status var = EZB_ZCL_STATUS_SUCCESS ->
                          int16_ok (var_attr_value var) = true) (rar_variables m))
  end.

Definition report_ok (message : option report_attr) : Prop :=
  match message with
  | None => True
  | Some m =>
      rep_cluster_id m = EZB_ZCL_CLUSTER_ID_TEMPERATURE_MEASUREMENT ->
      Forall (fun var =>
        var_attr_id var = EZB_ZCL_ATTR_TEMPERATURE_MEASUREMENT_MEASURED_VALUE_ID ->
        int16_ok (var_attr_value var) = true) (rep_variables m)
  end.

Definition callback_ok (cb : zb_callback) : Prop :=
  match cb with
  | cb_signal _ | cb_alarm _ => True
  | cb_match result => match_ok result
  | cb_bind result _ => bind_ok result
  | cb_zcl (zcl_read_attr_rsp_cb m) => read_attr_ok m
  | cb_zcl (zcl_report_attr_cb m) => report_ok m
  | cb_zcl _ => True
  end.

(** The requests a list of callbacks answers. *)
Definition bind_ctxs (cbs : list zb_callback) : list Z :=
  omap (fun cb => match cb with cb_bind _ ctx => Some ctx | _ => None end) cbs.
End Contract.

(** [pending]: the bind requests the SDK has accepted and not yet answered. *)
Class EzbLaws (E : Type) `{EzbConst, EzbSdk E} := {
  pending : E -> gset Z;
  start_pending env m : pending (ezb_bdb_start_top_level_commissioning env m).1 = pending env;
  open_pending env d : pending (ezb_bdb_open_network env d).1 = pending env;
  match_pending env r : pending (ezb_zdo_match_desc_req env r).1 = pending env;
  read_pending env c l : pending (ezb_zcl_read_attr_cmd_req env c l).1 = pending env;
  report_pending env c l : pending (ezb_zcl_config_report_cmd_req env c l).1 = pending env;
  alarm_pending env m t : pending (alarm_timer_schedule env m t) = pending env;
  config_pending env c : pending (sdk_config env c).1 = pending env;
  task_pending env : pending (xTaskCreate_ok env).1 = pending env;
  alloc_pending env : pending (heap_alloc env).1 = pending env;
  bind_pending env r ctx :
    pending (ezb_zdo_bind_req env r ctx).1 =
    if (ezb_zdo_bind_req env r ctx).2 =? EZB_ERR_NONE then {[ctx]} ∪ pending env
    else pending env;
  callbacks_ok env t : Forall callback_ok (sdk_callbacks env t).2;
  callbacks_once env t : NoDup (bind_ctxs (sdk_callbacks env t).2);
  callbacks_pending env t :
    list_to_set (bind_ctxs (sdk_callbacks env t).2) ⊆ pending env /\
    pending (sdk_callbacks env t).1 =
      pending env ∖ list_to_set (bind_ctxs (sdk_callbacks env t).2)
}.

#[export] Hint Rewrite @start_pending @open_pending @match_pending @read_pending
  @report_pending @alarm_pending @config_pending @task_pending @alloc_pending : zbr_rw.

(** ** The invariant *)

Section Facts.
Context `{FreeRtos, EzbConst} {E : Type} `{EzbSdk E}.

(** A C string: the last character of the array is its terminator. *)
Definition terminated (v : vec byte 16) : Prop := last (vec_to_list v) = Some x00.

Record vars_ok (v : stack_vars) : Prop := {
  ok_annce : exists q, s_annce_q v = Some q /\ queue_length q = 4%nat /\ queue_ok q /\
               Forall is_u16 (queue_items q);
  ok_match : exists q, s_match_q v = Some q /\ queue_length q = 1%nat /\ queue_ok q /\
               Forall addr_typed (queue_items q);
  ok_basic_done : is_Some (s_basic_done v);
  ok_temp_done : is_Some (s_temp_done v);
  ok_bind_done : is_Some (s_bind_done v);
  ok_report_done : is_Some (s_report_done v);
  ok_basic : basic_typed (s_basic_cache v) /\ terminated (zb_manufacturer (s_basic_cache v)) /\
             terminated (zb_model (s_basic_cache v));
  ok_temp : temp_typed (s_temp_cache v);
  ok_last_temp : is_s16 (s_last_temp v);
  ok_last_sensor : is_u16 (s_last_sensor_addr v);
  ok_bind_err : is_s32 (s_bind_err v);
  ok_report_err : is_s32 (s_report_err v)
}.

Context `{!EzbLaws E}.

(** [own] is the blocks in the hands of the application task, [held] whether
    it has the lock; every other block is a request the SDK will answer.
    During a list of callbacks, [todo] is the requests still to be
    answered. *)
Record fw_inv (own : gset Z) (held : bool) (todo : gset Z) (s : firmware E) : Prop := {
  inv_vars : vars_ok (f_vars s);
  inv_fault : f_fault s = false;
  inv_locked : f_locked s = held;
  inv_heap : f_heap s = own ∪ todo ∪ pending (f_env s);
  inv_disj : own ## todo ∪ pending (f_env s) /\ todo ## pending (f_env s);
  inv_next : forall p, p ∈ f_heap s -> p < f_next s
}.

(** [fw_triple own held todo m own' held' todo' Q]: [m] takes the one state to
    the other and its result satisfies [Q]. *)
Definition fw_triple {A} own held todo (m : St (firmware E) A) own' held' todo'
    (Q : A -> Prop) : Prop :=
  hoare (fw_inv own held todo) m (fun a s => fw_inv own' held' todo' s /\ Q a).

Lemma fw_ret {A} o l t (a : A) (Q : A -> Prop) : Q a -> fw_triple o l t (mret a) o l t Q.
Proof. intros Ha s Hs. by split. Qed.

Lemma fw_bind {A B} o1 l1 t1 o2 l2 t2 o3 l3 t3 (m : St (firmware E) A) (k : A -> St _ B) R Q :
  fw_triple o1 l1 t1 m o2 l2 t2 R ->
  (forall a, R a -> fw_triple o2 l2 t2 (k a) o3 l3 t3 Q) ->
  fw_triple o1 l1 t1 (m ≫= k) o3 l3 t3 Q.
Proof.
  intros Hm Hk. eapply hoare_bind; [exact Hm|]. intros a s [Hs Ha]. by apply Hk.
Qed.

Lemma fw_weaken {A} o l t o' l' t' (m : St (firmware E) A) (Q Q' : A -> Prop) :
  fw_triple o l t m o' l' t' Q -> (forall a, Q a -> Q' a) -> fw_triple o l t m o' l' t' Q'.
Proof. intros Hm HQ s Hs. destruct (Hm s Hs). eauto. Qed.

Lemma fw_vars {A} o l t (f : stack_vars -> A) (Q : A -> Prop) :
  (forall v, vars_ok v -> Q (f v)) -> fw_triple o l t (vars f) o l t Q.
Proof. intros HQ s Hs. split; [done|]. apply HQ, Hs. Qed.

Lemma fw_upd o l t (f : stack_vars -> stack_vars) :
  (forall v, vars_ok v -> vars_ok (f v)) -> fw_triple o l t (upd f) o l t (fun _ => True).
Proof.
  intros Hf s [Hv Hfa Hl Hh Hd Hn]. split; [|done].
  unfold upd, step, modify. cbn [fst]. rewrite Hfa.
  split; cbn [f_vars f_fault f_locked f_heap f_env f_next]; auto.
Qed.

(** A call that leaves the accepted requests alone. *)
Lemma fw_sdk {A} o l t (d : A) f :
  (forall env, pending (f env).1 = pending env) ->
  fw_triple o l t (sdk d f) o l t (fun _ => True).
Proof.
  intros Hf s [Hv Hfa Hl Hh Hd Hn]. split; [|done]. unfold sdk. rewrite Hfa.
  specialize (Hf (f_env s)). destruct (f (f_env s)) as [env a]. cbn [fst] in *.
  split; cbn [f_vars f_fault f_locked f_heap f_env f_next]; rewrite ?Hf; auto.
Qed.

Lemma fw_sdk_get {A} o l t (f : E -> A) : fw_triple o l t (sdk_get f) o l t (fun _ => True).
Proof. intros s Hs. by split. Qed.

Lemma hoare_locked {A} o t (d : A) m Q :
  hoare (fw_inv o true t) m Q -> hoare (fw_inv o true t) (locked d m) Q.
Proof.
  intros Hm s Hs. unfold locked, gets, mbind, St_bind. rewrite (inv_locked _ _ _ _ Hs).
  by apply Hm.
Qed.

Lemma fw_locked {A} o t o' t' (d : A) m Q :
  fw_triple o true t m o' true t' Q -> fw_triple o true t (locked d m) o' true t' Q.
Proof. apply hoare_locked. Qed.

Lemma fw_release o l t : fw_triple o l t esp_zigbee_lock_release o false t (fun _ => True).
Proof.
  intros s [Hv Hfa Hl Hh Hd Hn]. split; [|done].
  unfold esp_zigbee_lock_release, step, modify. cbn [fst]. rewrite Hfa.
  split; cbn [f_vars f_fault f_locked f_heap f_env f_next]; auto.
Qed.

(** ** Allocation *)

Lemma fw_calloc o l t :
  hoare (fw_inv o l t) calloc (fun r s =>
    match r with
    | None => fw_inv o l t s
    | Some p => p ∉ o /\ fw_inv ({[p]} ∪ o) l t s
    end).
Proof.
  intros s Hs. unfold calloc, mbind, St_bind.
  pose proof (fw_sdk o l t false heap_alloc alloc_pending s Hs) as [Hs' _].
  destruct (sdk false heap_alloc s) as [s1 ok]. cbn [fst] in Hs'. destruct ok; [|done].
  destruct Hs' as [Hv Hfa Hl Hh [Hd1 Hd2] Hn].
  unfold gets, step, modify, mret, St_ret. cbn [snd fst]. rewrite Hfa.
  assert (Hp : f_next s1 ∉ f_heap s1) by (intros Hin; specialize (Hn _ Hin); lia).
  split; [set_solver|]. split; cbn [f_vars f_fault f_locked f_heap f_env f_next]; [done..| | |].
  - rewrite Hh. set_solver.
  - set_solver.
  - intros p [->%elem_of_singleton|Hp']%elem_of_union; [lia|]. specialize (Hn _ Hp'). lia.
Qed.

Lemma fw_free_step o l t o' t' p (s : firmware E) :
  fw_inv o l t s -> p ∈ o ∪ t -> o' ∪ t' = (o ∪ t) ∖ {[p]} -> o' ⊆ o -> t' ⊆ t ->
  fw_inv o' l t' (free p s).1.
Proof.
  intros [Hv Hfa Hl Hh [Hd1 Hd2] Hn] Hp Heq Ho Ht. unfold free, mbind, St_bind, gets.
  rewrite decide_True by set_solver. unfold step, modify. cbn [fst]. rewrite Hfa.
  split; cbn [f_vars f_fault f_locked f_heap f_env f_next]; [done..| | |].
  - rewrite Hh, Heq. set_solver.
  - set_solver.
  - intros q Hq. apply Hn. set_solver.
Qed.

Lemma fw_free_own o l t p :
  p ∉ o -> fw_triple ({[p]} ∪ o) l t (free p) o l t (fun _ => True).
Proof.
  intros Hp s Hs. split; [|done]. pose proof (inv_disj _ _ _ _ Hs).
  eapply fw_free_step; [exact Hs|set_solver..].
Qed.

Lemma fw_free_todo o l t p :
  p ∉ t -> fw_triple o l ({[p]} ∪ t) (free p) o l t (fun _ => True).
Proof.
  intros Hp s Hs. split; [|done]. pose proof (inv_disj _ _ _ _ Hs).
  eapply fw_free_step; [exact Hs|set_solver..].
Qed.

(** ** Assignments keep the variables well formed *)

Lemma give_some sem : is_Some sem -> is_Some (give sem).
Proof. intros [h ->]. by eexists. Qed.

Lemma send_to_annce q a :
  is_u16 a ->
  (exists q', q = Some q' /\ queue_length q' = 4%nat /\ queue_ok q' /\
     Forall is_u16 (queue_items q')) ->
  exists q', send_to q a = Some q' /\ queue_length q' = 4%nat /\ queue_ok q' /\
     Forall is_u16 (queue_items q').
Proof.
  intros Ha (q' & -> & Hl & Hok & HF). eexists. split; [done|]. rewrite send_length.
  auto using send_ok, send_forall.
Qed.

Lemma send_to_match q a :
  addr_typed a ->
  (exists q', q = Some q' /\ queue_length q' = 1%nat /\ queue_ok q' /\
     Forall addr_typed (queue_items q')) ->
  exists q', send_to q a = Some q' /\ queue_length q' = 1%nat /\ queue_ok q' /\
     Forall addr_typed (queue_items q').
Proof.
  intros Ha (q' & -> & Hl & Hok & HF). eexists. split; [done|]. rewrite send_length.
  auto using send_ok, send_forall.
Qed.

Lemma small_s32 z : - 256 <= z < 256 -> is_s32 z.
Proof. unfold is_s32. lia. Qed.

Lemma zero_s16 : is_s16 0.
Proof. unfold is_s16. lia. Qed.

Lemma zero_terminated : terminated (Vector.const x00 16).
Proof. reflexivity. Qed.

Lemma copied_terminated zcl l :
  copy_zcl_string 16 zcl = Some l -> zcl_string_ok zcl -> terminated (vec_of_list 16 x00 l).
Proof.
  intros Ec Hok. rewrite copy_zcl_string_some in Ec by (done || lia). apply (inj Some) in Ec as <-.
  set (t := take (16 - 1) (zcl_text zcl)).
  assert (Ht : (length t <= 15)%nat) by (unfold t; rewrite length_take; lia).
  unfold terminated. rewrite vec_of_list_to_list by (rewrite length_app, length_replicate; lia).
  rewrite last_app. destruct (16 - length t)%nat as [|k] eqn:Ek; [lia|].
  by rewrite replicate_S_end, last_snoc.
Qed.

#[local] Hint Resolve give_some send_to_annce send_to_match small_s32 zero_s16 zero_terminated : zbr.

(** Closes [vars_ok] of an assignment. *)
Ltac vars_ok_tac :=
  let H := fresh in
  intros [] H; destruct H; split; cbn in *; unfold basic_typed, temp_typed in *; cbn;
  try solve [eauto with zbr | intuition (eauto with zbr lia)].

(** ** Every callback keeps the invariant *)

Lemma match_outcome_some result :
  match_ok result -> exists out, match_outcome result = Some out /\ addr_typed out.
Proof.
  intros Hok. unfold match_outcome.
  assert (Hf : forall e, addr_typed (MkZigbeeAddr (s32 e) 0 0)).
  { intros e. unfold addr_typed; cbn. split; [auto with zbr|]. unfold is_u16, is_u8. lia. }
  destruct result as [[err [rsp|]]|]; cbn [mres_error mres_rsp] in *.
  - destruct (err =? _); [|eauto]. destruct (_ && _); [|eauto]. cbn [match_ok] in Hok.
    destruct (mr_match_list rsp) as [[|ep l]|]; [done| |eauto].
    eexists. split; [reflexivity|]. unfold addr_typed; cbn.
    split; [by apply small_s32|]. auto with zbr.
  - destruct (err =? _); eauto.
  - eexists. split; [reflexivity|]. apply (Hf (-1)).
Qed.

Lemma fw_zdo_match_result o l t result :
  match_ok result -> fw_triple o l t (zdo_match_result result) o l t (fun _ => True).
Proof.
  intros Hok. unfold zdo_match_result.
  destruct (match_outcome_some result Hok) as (out & -> & Hout). apply fw_upd. vars_ok_tac.
Qed.

Lemma fw_zdo_bind_result o l t result ctx :
  bind_ok result -> ctx ∉ t ->
  fw_triple o l ({[ctx]} ∪ t) (zdo_bind_result result ctx) o l t (fun _ => True).
Proof.
  intros Hok Hctx. unfold zdo_bind_result.
  eapply fw_bind; [apply fw_upd; vars_ok_tac|]. intros _ _.
  eapply fw_bind with (o2 := o) (l2 := l) (t2 := {[ctx]} ∪ t) (R := fun _ => True).
  { destruct result as [r|]; [|by apply fw_ret]. cbn [bind_ok] in Hok.
    destruct (Z.eqb_spec (bres_error r) EZB_ERR_NONE) as [He|He].
    - destruct (bres_rsp_status r) as [status|]; [|by destruct Hok]. apply fw_upd.
      destruct (status =? _); vars_ok_tac.
    - apply fw_upd. vars_ok_tac. }
  intros _ _. eapply fw_bind; [apply fw_upd; vars_ok_tac|]. intros _ _. by apply fw_free_todo.
Qed.

Lemma fw_for_each {A} o l t (f : A -> St (firmware E) unit) (P : A -> Prop) xs :
  (forall a, P a -> fw_triple o l t (f a) o l t (fun _ => True)) -> Forall P xs ->
  fw_triple o l t (for_each f xs) o l t (fun _ => True).
Proof.
  intros Hf. induction 1 as [|a xs Ha Hxs IH]; [by apply fw_ret|].
  cbn [for_each]. eapply fw_bind; [by apply Hf|]. by intros _ _.
Qed.

Lemma fw_load_int16 o l t p :
  int16_ok p = true -> fw_triple o l t (load_int16 p) o l t is_s16.
Proof.
  destruct p as [[|b0 [|b1 bs]]|]; try done. intros _. apply fw_ret. apply s16_range.
Qed.

Lemma fw_copy_zcl_field o l t zcl :
  zcl_string_ok zcl -> fw_triple o l t (copy_zcl_field zcl) o l t terminated.
Proof.
  intros Hok. unfold copy_zcl_field. destruct (copy_zcl_string 16 zcl) as [bs|] eqn:Ec.
  - apply fw_ret. by eapply copied_terminated.
  - by rewrite copy_zcl_string_some in Ec by (done || lia).
Qed.

Lemma fw_basic_variable o l t var :
  zcl_string_ok (var_attr_value var) ->
  fw_triple o l t (basic_variable var) o l t (fun _ => True).
Proof.
  intros Hok. unfold basic_variable. destruct (negb _); [by apply fw_ret|].
  repeat (case_match; [eapply fw_bind; [by apply fw_copy_zcl_field|];
    intros c Hc; apply fw_upd; vars_ok_tac|]).
  by apply fw_ret.
Qed.

Lemma fw_temp_variable o l t var :
  (var_status var = EZB_ZCL_STATUS_SUCCESS -> int16_ok (var_attr_value var) = true) ->
  fw_triple o l t (temp_variable var) o l t (fun _ => True).
Proof.
  intros Hok. unfold temp_variable.
  destruct (Z.eqb_spec (var_status var) EZB_ZCL_STATUS_SUCCESS) as [Hs|]; cbn [negb];
    [|by apply fw_ret].
  eapply fw_bind; [by apply fw_load_int16, Hok|]. intros value Hv. apply fw_upd.
  intros v Hvars. cbn zeta. repeat case_match; revert v Hvars; vars_ok_tac.
Qed.

Lemma fw_zcl_read_attr_rsp o l t m :
  read_attr_ok m -> fw_triple o l t (zcl_read_attr_rsp m) o l t (fun _ => True).
Proof.
  destruct m as [m|]; [|by intros; apply fw_ret]. intros [Hb Ht]. cbn [zcl_read_attr_rsp].
  assert (He : is_s32 (if rar_status m =? EZB_ZCL_STATUS_SUCCESS then 0 else -1))
    by (case_match; by apply small_s32).
  destruct (Z.eqb_spec (rar_cluster_id m) EZB_ZCL_CLUSTER_ID_BASIC) as [Hc|].
  - eapply fw_bind; [apply fw_upd; vars_ok_tac|]. intros _ _.
    eapply fw_bind; [eapply fw_for_each; [intros var; apply fw_basic_variable|by apply Hb]|].
    intros _ _. apply fw_upd. vars_ok_tac.
  - destruct (Z.eqb_spec (rar_cluster_id m) EZB_ZCL_CLUSTER_ID_TEMPERATURE_MEASUREMENT);
      [|by apply fw_ret].
    eapply fw_bind; [apply fw_upd; vars_ok_tac|].
    intros _ _.
    eapply fw_bind; [eapply fw_for_each; [intros var; apply fw_temp_variable|by apply Ht]|].
    intros _ _. apply fw_upd. vars_ok_tac.
Qed.

Lemma fw_zcl_report_attr o l t m :
  report_ok m -> fw_triple o l t (zcl_report_attr m) o l t (fun _ => True).
Proof.
  destruct m as [m|]; [|by intros; apply fw_ret]. intros Hr. cbn [zcl_report_attr report_ok] in *.
  destruct (Z.eqb_spec (rep_cluster_id m) EZB_ZCL_CLUSTER_ID_TEMPERATURE_MEASUREMENT);
    cbn [negb]; [|by apply fw_ret].
  eapply fw_bind with (R := fun _ => True).
  { destruct (rep_src m) as [[mode addr]|]; [case_match|]; try by apply fw_ret.
    apply fw_upd. vars_ok_tac. }
  intros _ _. eapply fw_for_each; [|by apply Hr]. intros var Hvar. unfold report_variable.
  destruct (Z.eqb_spec (var_attr_id var)
    EZB_ZCL_ATTR_TEMPERATURE_MEASUREMENT_MEASURED_VALUE_ID); [|by apply fw_ret].
  eapply fw_bind; [by apply fw_load_int16, Hvar|]. intros value Hv. apply fw_upd. vars_ok_tac.
Qed.

Lemma fw_zcl_config_report_rsp o l t status :
  fw_triple o l t (zcl_config_report_rsp status) o l t (fun _ => True).
Proof.
  unfold zcl_config_report_rsp. eapply fw_bind; [apply fw_upd; vars_ok_tac|]. intros _ _.
  eapply fw_bind with (R := fun _ => True).
  { destruct status; [case_match|]; try by apply fw_ret. apply fw_upd. vars_ok_tac. }
  intros _ _. apply fw_upd. vars_ok_tac.
Qed.

Lemma fw_start o l t mode :
  fw_triple o l t (zigbee_alarm_bdb_commissioning mode) o l t (fun _ => True).
Proof.
  eapply fw_bind; [apply fw_sdk; intros; apply start_pending|]. intros. by apply fw_ret.
Qed.

Lemma fw_app_signal_handler o l t sig :
  fw_triple o l t (zigbee_app_signal_handler sig) o l t (fun _ => True).
Proof.
  unfold zigbee_app_signal_handler. eapply fw_bind with (R := fun _ => True);
    [|intros; by apply fw_ret].
  assert (Hs : forall m ms, fw_triple o l t
    (sdk tt (fun env => (alarm_timer_schedule env m ms, tt))) o l t (fun _ => True))
    by (intros; apply fw_sdk; intros; apply alarm_pending).
  destruct sig; try case_match; try apply Hs; try apply fw_start; try by apply fw_ret.
  1, 2: eapply fw_bind; [apply fw_sdk_get|]; intros fresh _; case_match;
    [apply fw_start | by apply fw_ret].
  apply fw_upd. vars_ok_tac.
Qed.

(** A list of callbacks answers exactly the requests it names. *)
Lemma bind_ctxs_tail cb cbs : NoDup (bind_ctxs (cb :: cbs)) -> NoDup (bind_ctxs cbs).
Proof. destruct cb; cbn; intros Hnd; by inversion Hnd. Qed.

Lemma fw_run_callback o l cb cbs :
  callback_ok cb -> NoDup (bind_ctxs (cb :: cbs)) ->
  fw_triple o l (list_to_set (bind_ctxs (cb :: cbs))) (run_callback cb)
            o l (list_to_set (bind_ctxs cbs)) (fun _ => True).
Proof.
  intros Hcb Hnd.
  destruct cb as [sig|r|r ctx|[m|st|m|id]|arg]; cbn [run_callback callback_ok] in *.
  - eapply fw_bind; [apply fw_app_signal_handler|]. intros. by apply fw_ret.
  - by apply fw_zdo_match_result.
  - cbn in Hnd. apply NoDup_cons in Hnd as [Hctx _]. apply fw_zdo_bind_result; [done|].
    by rewrite elem_of_list_to_set.
  - by apply fw_zcl_read_attr_rsp.
  - apply fw_zcl_config_report_rsp.
  - by apply fw_zcl_report_attr.
  - by apply fw_ret.
  - apply fw_start.
Qed.

Lemma fw_run_callbacks o l cbs :
  Forall callback_ok cbs -> NoDup (bind_ctxs cbs) ->
  fw_triple o l (list_to_set (bind_ctxs cbs)) (for_each run_callback cbs) o l ∅ (fun _ => True).
Proof.
  induction 1 as [|cb cbs Hcb Hcbs IH]; intros Hnd; [by apply fw_ret|]. cbn [for_each].
  eapply fw_bind; [by apply fw_run_callback|]. intros _ _. apply IH. by eapply bind_ctxs_tail.
Qed.

(** The effect of callbacks on what [g] observes of the variables is [f], if
    that is the effect of each. *)
Lemma callbacks_observe {X} (g : stack_vars -> X) (f : X -> zb_callback -> X) :
  (forall cb o l t t' s, callback_ok cb -> fw_inv o l t s -> fw_inv o l t' (run_callback cb s).1 ->
     g (f_vars (run_callback cb s).1) = f (g (f_vars s)) cb) ->
  forall cbs o l s, Forall callback_ok cbs -> NoDup (bind_ctxs cbs) ->
  fw_inv o l (list_to_set (bind_ctxs cbs)) s ->
  g (f_vars (for_each run_callback cbs s).1) = fold_left f cbs (g (f_vars s)).
Proof.
  intros Hone cbs o l. induction cbs as [|cb cbs IH]; intros s Hok Hnd Hs; [done|].
  apply Forall_cons in Hok as [Hcb Hok]. cbn [for_each fold_left].
  destruct (fw_run_callback o l cb cbs Hcb Hnd s Hs) as [Hs1 _].
  rewrite <- (Hone cb o l _ _ s Hcb Hs Hs1). unfold mbind, St_bind.
  destruct (run_callback cb s) as [s1 []]. cbn [fst] in *.
  apply IH; [done| |done]. by eapply bind_ctxs_tail.
Qed.

(** ** Blocking keeps the invariant *)

(** The state the callbacks start from. *)
Lemma run_pending_start o l ticks s :
  fw_inv o l ∅ s ->
  let r := sdk_callbacks (f_env s) ticks in
  let s1 := MkFirmware r.1 (f_vars s) (f_heap s) (f_next s) (f_locked s) (f_fault s) in
  sdk [] (fun env => sdk_callbacks env ticks) s = (s1, r.2) /\
  fw_inv o l (list_to_set (bind_ctxs r.2)) s1.
Proof.
  intros [Hv Hfa Hl Hh [Hd1 Hd2] Hn]. cbv zeta. unfold sdk. rewrite Hfa.
  pose proof (callbacks_pending (f_env s) ticks) as [Hsub Hp].
  destruct (sdk_callbacks (f_env s) ticks) as [env cbs]; cbn [fst snd] in *. split; [done|].
  split; cbn [f_vars f_fault f_locked f_heap f_env f_next]; [done..| | |done].
  - rewrite Hh, Hp. rewrite (union_difference_L _ _ Hsub) at 1. set_solver.
  - rewrite Hp. set_solver.
Qed.

Lemma fw_run_pending o l ticks : fw_triple o l ∅ (run_pending ticks) o l ∅ (fun _ => True).
Proof.
  intros s Hs. unfold run_pending, gets, mbind, St_bind. destruct (f_locked s); [by split|].
  destruct (run_pending_start o l ticks s Hs) as [Es Hs1]. rewrite Es.
  apply fw_run_callbacks; [apply callbacks_ok|apply callbacks_once|done].
Qed.

Lemma fw_acquire o : fw_triple o false ∅ esp_zigbee_lock_acquire o true ∅ (fun _ => True).
Proof.
  unfold esp_zigbee_lock_acquire. eapply fw_bind; [apply fw_run_pending|]. intros _ _ s Hs.
  unfold gets, mbind, St_bind. rewrite (inv_locked _ _ _ _ Hs).
  destruct Hs as [Hv Hfa Hl Hh Hd Hn]. unfold step, modify. cbn [fst]. rewrite Hfa.
  split; [|done]. split; cbn [f_vars f_fault f_locked f_heap f_env f_next]; auto.
Qed.

(** A semaphore variable of the file. *)
Record sem_var (sem : stack_vars -> option semaphore)
    (set_sem : option semaphore -> stack_vars -> stack_vars) : Prop := {
  sem_some v : vars_ok v -> is_Some (sem v);
  sem_set v h : vars_ok v -> vars_ok (set_sem (Some h) v)
}.

Lemma fw_take_now o l t sem set_sem :
  sem_var sem set_sem -> fw_triple o l t (take_now sem set_sem) o l t (fun _ => True).
Proof.
  intros [Hsome Hset]. unfold take_now. eapply fw_bind; [apply fw_vars, Hsome|].
  intros h [h' ->]. destruct (xSemaphoreTake h') as [h2 ok].
  eapply fw_bind; [apply fw_upd; intros; by apply Hset|]. intros. by apply fw_ret.
Qed.

Lemma fw_take_wait o l sem set_sem ticks :
  sem_var sem set_sem -> fw_triple o l ∅ (take_wait sem set_sem ticks) o l ∅ (fun _ => True).
Proof.
  intros Hv. unfold take_wait. eapply fw_bind; [by apply fw_take_now|]. intros [] _.
  - by apply fw_ret.
  - eapply fw_bind; [apply fw_run_pending|]. intros _ _. by apply fw_take_now.
Qed.

Lemma basic_done_var : sem_var s_basic_done set_basic_done.
Proof. split; [apply ok_basic_done|intros v h; revert v; vars_ok_tac]. Qed.

Lemma temp_done_var : sem_var s_temp_done set_temp_done.
Proof. split; [apply ok_temp_done|intros v h; revert v; vars_ok_tac]. Qed.

Lemma bind_done_var : sem_var s_bind_done set_bind_done.
Proof. split; [apply ok_bind_done|intros v h; revert v; vars_ok_tac]. Qed.

Lemma report_done_var : sem_var s_report_done set_report_done.
Proof. split; [apply ok_report_done|intros v h; revert v; vars_ok_tac]. Qed.

(** A queue variable, whose items satisfy [P]. *)
Record queue_var {A} (q : stack_vars -> option (queue A))
    (set_q : option (queue A) -> stack_vars -> stack_vars) (n : nat) (P : A -> Prop) : Prop := {
  queue_some v : vars_ok v -> exists h, q v = Some h /\ queue_length h = n /\ queue_ok h /\
                                 Forall P (queue_items h);
  queue_set v h : vars_ok v -> queue_length h = n -> queue_ok h -> Forall P (queue_items h) ->
                  vars_ok (set_q (Some h) v)
}.

Definition received_ok {A} (P : A -> Prop) (r : option A) : Prop :=
  match r with Some a => P a | None => True end.

Lemma fw_receive_now {A} o l t q set_q n (P : A -> Prop) :
  queue_var q set_q n P -> fw_triple o l t (receive_now q set_q) o l t (received_ok P).
Proof.
  intros [Hsome Hset]. unfold receive_now.
  eapply fw_bind with (R := fun h => exists h', h = Some h' /\ queue_length h' = n /\
    queue_ok h' /\ Forall P (queue_items h')); [apply fw_vars, Hsome|].
  intros h (h' & -> & Hl & Hok & HF). pose proof (receive_length h') as Hl2.
  pose proof (receive_ok h' Hok) as Hok2. pose proof (receive_forall P h' HF) as [HF2 Ha].
  destruct (xQueueReceive h') as [h2 a]. cbn [fst snd] in *.
  eapply fw_bind; [apply fw_upd; intros; apply Hset; congruence || done|]. intros.
  by apply fw_ret.
Qed.

Lemma fw_receive_wait {A} o l q set_q n (P : A -> Prop) ticks :
  queue_var q set_q n P -> fw_triple o l ∅ (receive_wait q set_q ticks) o l ∅ (received_ok P).
Proof.
  intros Hv. unfold receive_wait. eapply fw_bind; [by eapply fw_receive_now|]. intros [a|] Ha.
  - by apply fw_ret.
  - eapply fw_bind; [apply fw_run_pending|]. intros _ _. by eapply fw_receive_now.
Qed.

Lemma annce_q_var : queue_var s_annce_q set_annce_q 4 is_u16.
Proof. split; [apply ok_annce|]. intros v h Hv ? ? ?. revert v Hv. vars_ok_tac. Qed.

Lemma match_q_var : queue_var s_match_q set_match_q 1 addr_typed.
Proof. split; [apply ok_match|]. intros v h Hv ? ? ?. revert v Hv. vars_ok_tac. Qed.

(** ** Every operation of the API keeps the invariant *)

(** [m] is called, and returns, without the lock and without allocations of
    its own; its result satisfies [Q]. *)
Definition api_op {A} (m : St (firmware E) A) (Q : A -> Prop) : Prop :=
  fw_triple ∅ false ∅ m ∅ false ∅ Q.

(** Takes the lock, makes a call, releases the lock. *)
Lemma fw_under_lock {A B} o (d : A) m Q (k : A -> St (firmware E) B) R :
  fw_triple o true ∅ m o true ∅ Q ->
  (forall a, Q a -> fw_triple o false ∅ (k a) o false ∅ R) ->
  fw_triple o false ∅
    (esp_zigbee_lock_acquire;; a ← locked d m; esp_zigbee_lock_release;; k a) o false ∅ R.
Proof.
  intros Hm Hk. eapply fw_bind; [apply fw_acquire|]. intros _ _.
  eapply fw_bind; [by apply fw_locked|]. intros a Ha.
  eapply fw_bind; [apply fw_release|]. intros _ _. by apply Hk.
Qed.

Lemma get_short_addr_ok : api_op zigbee_get_short_addr is_u16.
Proof. eapply fw_under_lock; [apply fw_sdk_get|]. intros a _. apply fw_ret, u16_range. Qed.

Lemma get_panid_ok : api_op zigbee_get_panid is_u16.
Proof. eapply fw_under_lock; [apply fw_sdk_get|]. intros a _. apply fw_ret, u16_range. Qed.

Lemma get_channel_ok : api_op zigbee_get_channel is_u8.
Proof. eapply fw_under_lock; [apply fw_sdk_get|]. intros a _. apply fw_ret, u8_range. Qed.

Lemma get_sensor_addr_ok : api_op zigbee_get_sensor_addr is_u16.
Proof. apply fw_vars, ok_last_sensor. Qed.

Lemma get_last_temp_ok : api_op zigbee_get_last_temp is_s16.
Proof. apply fw_vars, ok_last_temp. Qed.

Lemma open_network_ok d : api_op (zigbee_open_network d) is_s32.
Proof.
  eapply fw_under_lock; [apply fw_sdk; intros; apply open_pending|]. intros err _.
  apply fw_ret. case_match; [by apply small_s32 | apply s32_range].
Qed.

Lemma wait_annce_ok t : api_op (zigbee_wait_annce t) is_u16.
Proof.
  eapply fw_bind; [eapply fw_receive_wait, annce_q_var|]. intros [a|] Ha; apply fw_ret; [done|].
  unfold is_u16; cbn; lia.
Qed.

Lemma addr_failure_typed e : is_s32 e -> addr_typed (MkZigbeeAddr e 0 0).
Proof. intros He. unfold addr_typed, is_u16, is_u8; cbn. split; [done|lia]. Qed.

Lemma find_sensor_ok a t : api_op (zigbee_find_sensor a t) addr_typed.
Proof.
  unfold zigbee_find_sensor, api_op. eapply fw_bind with (R := fun _ => True).
  { unfold reset_match_q.
    eapply fw_bind with (R := fun h => exists h', h = Some h' /\ queue_length h' = 1%nat).
    - apply fw_vars. intros v Hv. destruct (ok_match v Hv) as (q & -> & Hl & _). eauto.
    - intros h (h' & -> & Hl). apply fw_upd. intros v Hv.
      apply (queue_set _ _ _ _ match_q_var); [done|by rewrite reset_length|apply reset_ok|].
      by rewrite reset_items. }
  intros _ _. eapply fw_under_lock; [apply fw_sdk; intros; apply match_pending|]. intros err _.
  destruct (negb _); [apply fw_ret, addr_failure_typed, s32_range|].
  eapply fw_bind; [eapply fw_receive_wait, match_q_var|]. intros [out|] Hout.
  - eapply fw_bind with (R := fun _ => True); [|intros; by apply fw_ret].
    case_match; [|by apply fw_ret]. apply fw_upd. destruct Hout as (_ & Ha & _). vars_ok_tac.
  - by apply fw_ret, addr_failure_typed, small_s32.
Qed.

(** The shape of the calls that wait on a semaphore. *)
Lemma fw_request {A} o sem set_sem (req : E -> E * Z) (fail : Z -> A) (read : stack_vars -> A)
    ticks (Q : A -> Prop) :
  sem_var sem set_sem -> (forall env, pending (req env).1 = pending env) ->
  (forall e, is_s32 e -> Q (fail e)) -> (forall v, vars_ok v -> Q (read v)) ->
  fw_triple o false ∅
    (take_now sem set_sem;;
     esp_zigbee_lock_acquire;;
     err ← locked 0 (sdk 0 req);
     esp_zigbee_lock_release;;
     if negb (err =? EZB_ERR_NONE) then mret (fail (s32 err))
     else
       ok ← take_wait sem set_sem ticks;
       if negb ok then mret (fail (-2))
       else run_pending 0;; vars read) o false ∅ Q.
Proof.
  intros Hv Hreq Hfail Hread. eapply fw_bind; [by apply fw_take_now|]. intros _ _.
  eapply fw_under_lock; [by apply fw_sdk|]. intros err _.
  destruct (negb _); [apply fw_ret, Hfail, s32_range|].
  eapply fw_bind; [by apply fw_take_wait|]. intros ok _.
  destruct (negb ok); [by apply fw_ret, Hfail, small_s32|].
  eapply fw_bind; [apply fw_run_pending|]. intros _ _. by apply fw_vars.
Qed.

(** A [zigbee_basic_t] whose strings are terminated. *)
Definition basic_strings (b : zigbee_basic_t) : Prop :=
  basic_typed b /\ terminated (zb_manufacturer b) /\ terminated (zb_model b).

Lemma read_basic_ok a ep t : api_op (zigbee_read_basic a ep t) basic_strings.
Proof.
  apply fw_request; [apply basic_done_var|intros; apply read_pending| |apply ok_basic].
  intros err He. split; [exact He|]. split; apply zero_terminated.
Qed.

Lemma read_temp_ok a ep t : api_op (zigbee_read_temp a ep t) temp_typed.
Proof.
  apply fw_request; [apply temp_done_var|intros; apply read_pending| |apply ok_temp].
  intros err He. unfold temp_typed; cbn. auto with zbr.
Qed.

Lemma config_report_ok a ep t : api_op (zigbee_config_report a ep t) is_s32.
Proof.
  apply (fw_request _ _ _ _ (fun e => e)); [apply report_done_var|intros; apply report_pending
    |done|apply ok_report_err].
Qed.

Lemma fw_bind_addresses o l t a ep to_local :
  fw_triple o l t (bind_addresses a ep to_local) o l t (fun _ => True).
Proof.
  unfold bind_addresses. destruct to_local;
    repeat (eapply fw_bind; [apply fw_sdk_get|]; intros ? _); by apply fw_ret.
Qed.

(** The request belongs to the caller until the SDK accepts it. *)
Lemma fw_bind_req o p r :
  p ∉ o ->
  hoare (fw_inv ({[p]} ∪ o) true ∅) (sdk 0 (fun env => ezb_zdo_bind_req env r p))
    (fun err => fw_inv (if err =? EZB_ERR_NONE then o else {[p]} ∪ o) true ∅).
Proof.
  intros Hp s [Hv Hfa Hl Hh [Hd1 Hd2] Hn]. unfold sdk. rewrite Hfa.
  pose proof (bind_pending (f_env s) r p) as Hb.
  destruct (ezb_zdo_bind_req (f_env s) r p) as [env err]. cbn [fst snd] in *.
  split; cbn [f_vars f_fault f_locked f_heap f_env f_next]; [done..| | |done];
    rewrite Hb; destruct (err =? EZB_ERR_NONE); set_solver.
Qed.

Lemma bind_common_ok a ep to_local t : api_op (zigbee_bind_common a ep to_local t) is_s32.
Proof.
  eapply hoare_bind; [apply fw_calloc|]. intros [p|].
  2: { intros s Hs. split; [done | by apply small_s32]. }
  intros s [Hp Hs]. revert s Hs. eapply (fw_bind _ _ _ ({[p]} ∪ ∅) false ∅);
    [by apply fw_take_now, bind_done_var|]. intros _ _.
  eapply fw_bind; [apply fw_acquire|]. intros _ _.
  eapply fw_bind; [apply fw_locked, fw_bind_addresses|]. intros [fields|] _.
  2: { eapply fw_bind; [apply fw_release|]. intros _ _.
       eapply fw_bind; [by apply fw_free_own|]. intros. by apply fw_ret, small_s32. }
  eapply hoare_bind; [by apply hoare_locked, fw_bind_req|]. intros err; cbv beta.
  destruct (err =? EZB_ERR_NONE); cbn [negb].
  - eapply fw_bind; [apply fw_release|]. intros _ _.
    eapply fw_bind; [apply fw_take_wait, bind_done_var|]. intros ok _.
    destruct (negb ok); [by apply fw_ret, small_s32|].
    eapply fw_bind; [apply fw_run_pending|]. intros _ _. by apply fw_vars, ok_bind_err.
  - eapply fw_bind; [apply fw_release|]. intros _ _.
    eapply fw_bind; [by apply fw_free_own|]. intros. apply fw_ret, s32_range.
Qed.

(** ** Start-up *)

(** The static variables before [zigbee_stack_start]. *)
Definition init_vars : stack_vars :=
  MkVars None None None None None None (basic_failure 0) (temp_failure 0) 0 0 0 0.

Definition init_firmware (env : E) : firmware E := MkFirmware env init_vars ∅ 0 false false.

(** [m] moves the environment, keeping the accepted requests, and the
    variables of a program that has not faulted. *)
Definition starts {A} (P : stack_vars -> Prop) (m : St (firmware E) A)
    (Q : A -> stack_vars -> Prop) : Prop :=
  forall env v, P v -> exists env' v',
    (m (MkFirmware env v ∅ 0 false false)).1 = MkFirmware env' v' ∅ 0 false false /\
    pending env' = pending env /\ Q (m (MkFirmware env v ∅ 0 false false)).2 v'.

Lemma starts_bind {A B} P R Q (m : St (firmware E) A) (k : A -> St _ B) :
  starts P m R -> (forall a, starts (R a) (k a) Q) -> starts P (m ≫= k) Q.
Proof.
  intros Hm Hk env v Hv. destruct (Hm env v Hv) as (env1 & v1 & E1 & Hp1 & HR).
  unfold mbind, St_bind. destruct (m _) as [s1 a]. cbn [fst snd] in *. subst s1.
  destruct (Hk a env1 v1 HR) as (env2 & v2 & E2 & Hp2 & HQ). exists env2, v2.
  by rewrite Hp2, Hp1.
Qed.

Lemma starts_create {A} P (a : A) :
  starts P (create a) (fun r v => P v /\ (r = None \/ r = Some a)).
Proof.
  intros env v Hv. unfold create, mbind, St_bind, sdk. cbn [f_fault f_env].
  pose proof (alloc_pending env) as Hp. destruct (heap_alloc env) as [env' ok].
  exists env', v. cbn. destruct ok; auto.
Qed.

Lemma starts_upd P f (Q : unit -> stack_vars -> Prop) :
  (forall v, P v -> Q tt (f v)) -> starts P (upd f) Q.
Proof. intros Hf env v Hv. exists env, (f v). cbn. auto. Qed.

(** What [zigbee_stack_start] assigns. *)
Record start_vars (v : stack_vars) : Prop := {
  start_annce : s_annce_q v = None \/ s_annce_q v = Some (new_queue 4);
  start_match : s_match_q v = None \/ s_match_q v = Some (new_queue 1);
  start_caches : s_basic_cache v = basic_failure 0 /\ s_temp_cache v = temp_failure 0 /\
    s_last_temp v = 0 /\ s_last_sensor_addr v = 0 /\ s_bind_err v = 0 /\ s_report_err v = 0
}.

Lemma start_vars_ok v : start_vars v -> handles_created v = true -> vars_ok v.
Proof.
  intros [Ha Hm (Hc1 & Hc2 & Hc3 & Hc4 & Hc5 & Hc6)] Hh. unfold handles_created in Hh.
  repeat (apply andb_prop in Hh as [Hh ?%bool_decide_eq_true]).
  apply bool_decide_eq_true in Hh.
  destruct Ha as [Ha|Ha]; [by rewrite Ha in Hh; destruct Hh|].
  destruct Hm as [Hm|Hm]; [rewrite Hm in *; by destruct H6|].
  split; rewrite ?Hc1, ?Hc2, ?Hc3, ?Hc4, ?Hc5, ?Hc6; try done.
  - eexists. split; [exact Ha|]. rewrite new_queue_length, new_queue_items.
    split_and!; auto using new_queue_ok.
  - eexists. split; [exact Hm|]. rewrite new_queue_length, new_queue_items.
    split_and!; auto using new_queue_ok.
Qed.

Lemma stack_start_vars :
  starts start_vars zigbee_stack_start (fun r v =>
    start_vars v /\ (r = ESP_ERR_NO_MEM \/ handles_created v = true)).
Proof.
  unfold zigbee_stack_start.
  do 6 (eapply starts_bind; [apply starts_create|]; intros ?; cbv beta;
    eapply starts_bind; [apply (starts_upd _ _ (fun _ => start_vars));
      intros [] [Hv Hq]; destruct Hv; split; cbn in *; auto|]; intros []).
  intros env v Hv. unfold vars, gets, mbind, St_bind. cbn [f_vars].
  destruct (handles_created v) eqn:Hh; cbn [negb]; [|exists env, v; by auto].
  unfold sdk. cbn [f_fault f_env]. pose proof (task_pending env) as Hp.
  destruct (xTaskCreate_ok env) as [env' ok]. exists env', v. cbn. auto.
Qed.

Lemma init_start_vars : start_vars init_vars.
Proof. split; cbn; auto. by split_and!. Qed.

Lemma stack_start_ok env :
  pending env = ∅ -> ESP_OK <> ESP_ERR_NO_MEM ->
  (zigbee_stack_start (init_firmware env)).2 = ESP_OK ->
  fw_inv ∅ false ∅ (zigbee_stack_start (init_firmware env)).1.
Proof.
  intros Hp Hne Hr.
  destruct (stack_start_vars env init_vars init_start_vars) as (env' & v' & Es & Hp' & Hv & Hh).
  fold (init_firmware env) in Es, Hh. rewrite Es. destruct Hh as [Hh|Hh]; [congruence|].
  split; cbn [f_vars f_fault f_locked f_heap f_env f_next]; try done.
  - by apply start_vars_ok.
  - rewrite Hp', Hp. set_solver.
Qed.

(** ** Everything the firmware can do once started *)

Inductive fw_reach : firmware E -> Prop :=
  | reach_start env :
      pending env = ∅ -> (zigbee_stack_start (init_firmware env)).2 = ESP_OK ->
      fw_reach (zigbee_stack_start (init_firmware env)).1
  | reach_idle s ticks : fw_reach s -> fw_reach (run_pending ticks s).1
  | reach_short_addr s : fw_reach s -> fw_reach (zigbee_get_short_addr s).1
  | reach_panid s : fw_reach s -> fw_reach (zigbee_get_panid s).1
  | reach_channel s : fw_reach s -> fw_reach (zigbee_get_channel s).1
  | reach_sensor_addr s : fw_reach s -> fw_reach (zigbee_get_sensor_addr s).1
  | reach_last_temp s : fw_reach s -> fw_reach (zigbee_get_last_temp s).1
  | reach_open d s : fw_reach s -> fw_reach (zigbee_open_network d s).1
  | reach_annce t s : fw_reach s -> fw_reach (zigbee_wait_annce t s).1
  | reach_find a t s : fw_reach s -> fw_reach (zigbee_find_sensor a t s).1
  | reach_basic a ep t s : fw_reach s -> fw_reach (zigbee_read_basic a ep t s).1
  | reach_bind a ep t s : fw_reach s -> fw_reach (zigbee_bind_sensor a ep t s).1
  | reach_subscribe a ep t s : fw_reach s -> fw_reach (zigbee_subscribe_sensor a ep t s).1
  | reach_report a ep t s : fw_reach s -> fw_reach (zigbee_config_report a ep t s).1
  | reach_temp a ep t s : fw_reach s -> fw_reach (zigbee_read_temp a ep t s).1.

Lemma fw_reach_inv s : ESP_OK <> ESP_ERR_NO_MEM -> fw_reach s -> fw_inv ∅ false ∅ s.
Proof.
  intros Hne. induction 1; try by apply stack_start_ok.
  - by apply (fw_run_pending ∅ false).
  - by apply get_short_addr_ok.
  - by apply get_panid_ok.
  - by apply get_channel_ok.
  - by apply get_sensor_addr_ok.
  - by apply get_last_temp_ok.
  - by apply open_network_ok.
  - by apply wait_annce_ok.
  - by apply find_sensor_ok.
  - by apply read_basic_ok.
  - by apply bind_common_ok.
  - by apply bind_common_ok.
  - by apply config_report_ok.
  - by apply read_temp_ok.
Qed.
End Facts.
