(* ===== verification/ZigbeeStackAnswers.v ===== *)
(** * The Zigbee side of the firmware: what each call answers

    The effect of a batch of callbacks on the announcement queue, the match
    queue and the temperature cache as folds over the batch; from these, what
    the waiting calls return. *)

From Stdlib Require Import ZArith Lia.
From Stdlib Require Import Strings.Byte.
From stdpp Require Import base tactics list numbers option vector gmap sets.
From S2P Require Import Prelude Protocol ZigbeeApi Freertos ZigbeeStack ZigbeeStackFacts.

Section Frames.
Context `{FreeRtos, EzbConst} {E : Type} `{EzbSdk E}.

(** [m] leaves what [g] observes of the variables alone. *)
Definition keeps {X A} (g : stack_vars -> X) (m : St (firmware E) A) : Prop :=
  forall s, g (f_vars (m s).1) = g (f_vars s).

Context {X : Type} (g : stack_vars -> X).

Lemma keeps_ret {A} (a : A) : keeps g (mret a).
Proof. done. Qed.

Lemma keeps_bind {A B} (m : St (firmware E) A) (k : A -> St _ B) :
  keeps g m -> (forall a, keeps g (k a)) -> keeps g (m ≫= k).
Proof.
  intros Hm Hk s. specialize (Hm s). unfold mbind, St_bind. destruct (m s) as [s1 a].
  cbn [fst] in Hm. by rewrite Hk.
Qed.

Lemma keeps_gets {A} (f : firmware E -> A) : keeps g (gets f).
Proof. done. Qed.

Lemma keeps_vars {A} (f : stack_vars -> A) : keeps g (vars f).
Proof. done. Qed.

Lemma keeps_step f : (forall s, f_vars (f s) = f_vars s) -> keeps g (step f).
Proof. intros Hf s. unfold step, modify. cbn. case_match; [done|]. by rewrite Hf. Qed.

Lemma keeps_upd f : (forall v, g (f v) = g v) -> keeps g (upd f).
Proof. intros Hf s. unfold upd, step, modify. cbn. case_match; [done|]. by cbn. Qed.

Lemma keeps_sdk {A} (d : A) f : keeps g (sdk d f).
Proof. intros s. unfold sdk. case_match; [done|]. by destruct (f (f_env s)). Qed.

Lemma keeps_for_each {A} (f : A -> St (firmware E) unit) l :
  (forall a, keeps g (f a)) -> keeps g (for_each f l).
Proof. intros Hf. induction l; [apply keeps_ret|]. cbn. by apply keeps_bind. Qed.
End Frames.

(** Applies the rules above along a program. *)
Ltac keeps_tac :=
  repeat (intros; match goal with
  | |- keeps _ (mret _) => apply keeps_ret
  | |- keeps _ (_ ≫= _) => apply keeps_bind
  | |- keeps _ (gets _) => apply keeps_gets
  | |- keeps _ (vars _) => apply keeps_vars
  | |- keeps _ (sdk_get _) => apply keeps_gets
  | |- keeps _ (sdk _ _) => apply keeps_sdk
  | |- keeps _ fault => apply keeps_step; reflexivity
  | |- keeps _ (upd _) => apply keeps_upd; intros []; try reflexivity
  | |- keeps _ (step _) => apply keeps_step; reflexivity
  | |- keeps _ (for_each _ _) => apply keeps_for_each
  | |- keeps _ (match ?x with _ => _ end) => destruct x
  | |- keeps _ (let _ := _ in _) => cbv zeta
  | |- keeps _ (free _) => unfold free
  | |- keeps _ (load_int16 _) => unfold load_int16
  | |- keeps _ (copy_zcl_field _) => unfold copy_zcl_field
  end).

Section Answers.
Context `{FreeRtos, EzbConst} {E : Type} `{EzbSdk E, !EzbLaws E}.

(** ** Sending to a bounded queue *)

Definition items {A} (q : option (queue A)) : list A :=
  match q with Some q => queue_items q | None => [] end.

(** Sending [l] one by one to a queue of length [n] holding [k]. *)
Definition push {A} (n : nat) (k l : list A) : list A := take n (k ++ l).

Lemma take_take_app {A} n (k l : list A) : take n (take n k ++ l) = take n (k ++ l).
Proof.
  rewrite !take_app, take_take, length_take, Nat.min_id. f_equal. f_equal. lia.
Qed.

Lemma push_step {A} n (k : list A) a l : push n (push n k [a]) l = push n k (a :: l).
Proof. unfold push. by rewrite take_take_app, <- app_assoc. Qed.

Lemma send_push {A} n (q : option (queue A)) a :
  (exists q', q = Some q' /\ queue_length q' = n /\ queue_ok q') ->
  items (send_to q a) = push n (items q) [a].
Proof.
  intros (q' & -> & Hl & Hok). unfold push, queue_ok in *. cbn [items send_to fmap option_fmap option_map].
  rewrite send_items, Hl in *. destruct (decide _).
  - rewrite take_ge; [done|]. rewrite length_app. cbn. lia.
  - rewrite take_app_le by lia. by rewrite take_ge by lia.
Qed.

(** ** The match queue *)

Definition match_item (k : list zigbee_addr_t) (cb : zb_callback) : list zigbee_addr_t :=
  match cb with
  | cb_match result => push 1 k (option_list (match_outcome result))
  | _ => k
  end.

Definition match_outcomes (cbs : list zb_callback) : list zigbee_addr_t :=
  omap (fun cb => match cb with cb_match result => match_outcome result | _ => None end) cbs.

Lemma match_items_fold k cbs :
  Forall callback_ok cbs -> (length k <= 1)%nat ->
  fold_left match_item cbs k = push 1 k (match_outcomes cbs).
Proof.
  intros Hok. revert k. induction Hok as [|cb cbs Hcb _ IH]; intros k Hk.
  { unfold push. cbn. by rewrite app_nil_r, take_ge. }
  cbn [fold_left]. rewrite IH.
  - destruct cb; try reflexivity. cbn [match_item match_outcomes omap list_omap].
    destruct (match_outcome_some _ Hcb) as (out & -> & _). apply push_step.
  - destruct cb; try done. cbn. unfold push. rewrite length_take. lia.
Qed.

Lemma keeps_other_match cb :
  (forall r, cb <> cb_match r) ->
  keeps (E := E) (fun v => items (s_match_q v)) (run_callback cb).
Proof.
  intros Hne. destruct cb as [[]|r|r ctx|[[m|]|st|[m|]|id]|arg]; try (by destruct (Hne r));
    cbn [run_callback]; unfold zigbee_app_signal_handler, zdo_bind_result,
      zigbee_zcl_action_handler, zcl_read_attr_rsp, zcl_config_report_rsp, zcl_report_attr,
      zigbee_alarm_bdb_commissioning, basic_variable, temp_variable, report_variable;
    keeps_tac.
  cbv zeta. by repeat case_match.
Qed.

(** ** Running one primitive on a well-formed state *)

Definition with_lock (b : bool) (s : firmware E) : firmware E :=
  MkFirmware (f_env s) (f_vars s) (f_heap s) (f_next s) b (f_fault s).

Definition with_env (env : E) (s : firmware E) : firmware E :=
  MkFirmware env (f_vars s) (f_heap s) (f_next s) (f_locked s) (f_fault s).

Definition with_vars (v : stack_vars) (s : firmware E) : firmware E :=
  MkFirmware (f_env s) v (f_heap s) (f_next s) (f_locked s) (f_fault s).

(** The callbacks that run when the application next blocks. *)
Definition batch (s : firmware E) (ticks : Z) : list zb_callback :=
  (sdk_callbacks (f_env s) ticks).2.

Lemma upd_eq f (s : firmware E) :
  f_fault s = false -> upd f s = (with_vars (f (f_vars s)) s, tt).
Proof. intros Hf. unfold upd, step, modify, with_vars. cbv beta. by rewrite Hf. Qed.

Lemma acquire_eq o (s : firmware E) :
  fw_inv o false ∅ s -> esp_zigbee_lock_acquire s = (with_lock true (run_pending 0 s).1, tt).
Proof.
  intros Hs. pose proof (fw_run_pending o false 0 s Hs) as [H3 _].
  unfold esp_zigbee_lock_acquire, mbind, St_bind. destruct (run_pending 0 s) as [s1 []].
  cbn [fst] in *. unfold gets. rewrite (inv_locked _ _ _ _ H3). unfold step, modify.
  rewrite (inv_fault _ _ _ _ H3). unfold with_lock. by rewrite (inv_fault _ _ _ _ H3).
Qed.

Lemma under_lock_eq {A B} o (s : firmware E) (d : A) f (k : A -> St (firmware E) B) :
  fw_inv o false ∅ s ->
  (esp_zigbee_lock_acquire;; a ← locked d (sdk d f); esp_zigbee_lock_release;; k a) s =
  let s1 := (run_pending 0 s).1 in
  k (f (f_env s1)).2 (with_env (f (f_env s1)).1 s1).
Proof.
  intros Hs. unfold mbind at 1, St_bind at 1. rewrite (acquire_eq o s Hs).
  pose proof (fw_run_pending o false 0 s Hs) as [H3 _]. destruct (run_pending 0 s) as [s1 []].
  destruct H3 as [_ Hfa Hl _ _ _]. cbn [fst] in *. destruct s1 as [env v hp nx lk fa];
  cbn in Hfa, Hl; subst.
  unfold locked, gets, mbind, St_bind, with_lock, with_env, sdk, esp_zigbee_lock_release, step,
    modify. cbn [f_locked f_fault f_env f_vars f_heap f_next fst snd].
  by destruct (f env).
Qed.

Section Receive.
Context {A : Type} (q : stack_vars -> option (queue A)).
Context (set_q : option (queue A) -> stack_vars -> stack_vars) (n : nat) (P : A -> Prop).
Context (Hq : queue_var q set_q n P).
Context (q_set : forall h v, q (set_q h v) = h).
Context (observed : list zb_callback -> list A).
Context (Hobs : forall o ticks s, fw_inv o false ∅ s ->
  items (q (f_vars (run_pending ticks s).1)) = push n (items (q (f_vars s))) (observed (batch s ticks))).

Lemma receive_now_eq o l t (s : firmware E) :
  fw_inv o l t s ->
  (receive_now q set_q s).2 = head (items (q (f_vars s))) /\
  items (q (f_vars (receive_now q set_q s).1)) = tail (items (q (f_vars s))) /\
  f_env (receive_now q set_q s).1 = f_env s.
Proof using Hq q_set.
  intros Hs. destruct (queue_some _ _ _ _ Hq (f_vars s) (inv_vars _ _ _ _ Hs)) as (h & Eh & _).
  unfold receive_now, vars, gets, mbind, St_bind. rewrite Eh.
  destruct (receive_items h) as [Ht Hh]. destruct (xQueueReceive h) as [h2 a]; cbn [fst snd] in *.
  rewrite upd_eq by (by eapply inv_fault). cbn. rewrite q_set. by cbn.
Qed.

(** The oldest item, or the first that the wait brings. *)
Lemma receive_wait_eq o ticks (s : firmware E) :
  (0 < n)%nat -> fw_inv o false ∅ s ->
  (receive_wait q set_q ticks s).2 =
  head (items (q (f_vars s)) ++ observed (batch s ticks)).
Proof using Hq q_set Hobs.
  intros Hn Hs. destruct (receive_now_eq o false ∅ s Hs) as (H3 & H4 & H5).
  destruct (fw_receive_now o false ∅ _ _ _ _ Hq s Hs) as [Hs1 _].
  unfold receive_wait, mbind at 1, St_bind at 1.
  destruct (receive_now q set_q s) as [s1 r]; cbn [fst snd] in *. subst r.
  destruct (items (q (f_vars s))) as [|a l] eqn:Ei; [|done]. cbn [head app tail] in *.
  pose proof (Hobs o ticks s1 Hs1) as Ho.
  destruct (fw_run_pending o false ticks s1 Hs1) as [Hs2 _].
  unfold mbind, St_bind. destruct (run_pending ticks s1) as [s2 []]; cbn [fst] in *.
  destruct (receive_now_eq o false ∅ s2 Hs2) as (-> & _ & _). rewrite Ho, H4.
  unfold batch. rewrite H5. unfold push. cbn [app].
  destruct n as [|n']; [lia|]. by destruct (observed (sdk_callbacks (f_env s) ticks).2).
Qed.
End Receive.

(** ** [zigbee_find_sensor] *)

Lemma match_after_pending o ticks s :
  fw_inv o false ∅ s ->
  items (s_match_q (f_vars (run_pending ticks s).1)) =
  push 1 (items (s_match_q (f_vars s))) (match_outcomes (batch s ticks)).
Proof.
  intros Hs. unfold run_pending, gets, mbind at 1, St_bind at 1. rewrite (inv_locked _ _ _ _ Hs).
  destruct (run_pending_start o false ticks s Hs) as (Es & Hs1). unfold mbind, St_bind. rewrite Es.
  rewrite (callbacks_observe (fun v => items (s_match_q v)) match_item) with (o := o) (l := false).
  - apply match_items_fold; [apply callbacks_ok|].
    destruct (ok_match _ (inv_vars _ _ _ _ Hs)) as (q & Eq & Hl & Hok & _).
    cbn. rewrite Eq. cbn. unfold queue_ok in Hok. lia.
  - intros cb o' l t t' s' Hcb Hi _. destruct cb as [sig|r|r ctx|m|arg].
    2: { cbn [run_callback match_item]. unfold zdo_match_result.
         destruct (match_outcome_some r Hcb) as (out & -> & _).
         rewrite upd_eq by (by eapply inv_fault). cbn. apply send_push.
         destruct (ok_match _ (inv_vars _ _ _ _ Hi)) as (q & Eq & Hl & Hok & _). eauto. }
    all: rewrite keeps_other_match; [done|by intros].
  - apply callbacks_ok.
  - apply callbacks_once.
  - done.
Qed.

Lemma reset_match_q_eq o l t (s : firmware E) :
  fw_inv o l t s ->
  fw_inv o l t (reset_match_q s).1 /\ items (s_match_q (f_vars (reset_match_q s).1)) = [] /\
  f_env (reset_match_q s).1 = f_env s.
Proof.
  intros Hs. destruct (ok_match _ (inv_vars _ _ _ _ Hs)) as (q & Eq & Hl & _).
  unfold reset_match_q, vars, gets, mbind, St_bind. rewrite Eq.
  pose proof (fw_upd o l t (set_match_q (Some (xQueueReset q)))) as Hu.
  split; [|rewrite upd_eq by (by eapply inv_fault); cbn; by rewrite reset_items].
  apply Hu; [|done]. intros v Hv. apply (queue_set _ _ _ _ match_q_var); [done|..].
  - by rewrite reset_length.
  - apply reset_ok.
  - by rewrite reset_items.
Qed.

(** The request the SDK gets, and its answer, once the lock is obtained in
    [s1]. *)
Definition ask {A} (f : E -> E * A) (s1 : firmware E) : firmware E * A :=
  (with_env (f (f_env s1)).1 s1, (f (f_env s1)).2).

Lemma inv_ask {A} o l t (f : E -> E * A) (s1 : firmware E) :
  (forall env, pending (f env).1 = pending env) -> fw_inv o l t s1 ->
  fw_inv o l t (ask f s1).1.
Proof.
  intros Hf [Hv Hfa Hl Hh Hd Hn]. cbn.
  split; cbn [f_vars f_fault f_locked f_heap f_env f_next with_env]; rewrite ?Hf; auto.
Qed.

Lemma find_sensor_answer a t (s : firmware E) :
  fw_inv ∅ false ∅ s ->
  let s1 := (run_pending 0 (reset_match_q s).1).1 in
  let '(s2, err) := ask (fun env => ezb_zdo_match_desc_req env (find_sensor_req a)) s1 in
  let '(s', r) := zigbee_find_sensor a t s in
  if err =? EZB_ERR_NONE then
    r = default (MkZigbeeAddr (-2) 0 0)
          (head (push 1 [] (match_outcomes (batch s 0)) ++
                 match_outcomes (batch s2 (ms_to_ticks t)))) /\
    (za_err r = 0 -> s_last_sensor_addr (f_vars s') = za_short_addr r)
  else r = MkZigbeeAddr (s32 err) 0 0.
Proof.
  intros Hs s1. unfold zigbee_find_sensor, mbind at 1, St_bind at 1.
  destruct (reset_match_q_eq ∅ false ∅ s Hs) as (Hs0 & Hq0 & He0).
  destruct (reset_match_q s) as [s0 []] eqn:Es0; cbn [fst] in *.
  rewrite (under_lock_eq ∅ s0) by done.
  destruct (fw_run_pending ∅ false 0 s0 Hs0) as [Hs1 _]. fold s1 in Hs1 |- *. cbv zeta.
  pose proof (match_after_pending ∅ 0 s0 Hs0) as Hq1. fold s1 in Hq1.
  unfold batch in Hq1. rewrite Hq0, He0 in Hq1. fold (batch s 0) in Hq1.
  pose proof (inv_ask ∅ false ∅ _ s1 (fun env => match_pending env (find_sensor_req a)) Hs1) as Hs2.
  unfold ask in *. cbn [fst snd] in *.
  set (s2 := with_env _ s1) in *. set (err := (ezb_zdo_match_desc_req _ _).2).
  destruct (err =? EZB_ERR_NONE); cbn [negb]; [|done].
  pose proof (receive_wait_eq s_match_q set_match_q 1 _ match_q_var (fun _ v => eq_refl)
    match_outcomes (fun o t' => match_after_pending o t') ∅ (ms_to_ticks t) s2 ltac:(lia) Hs2) as Hr.
  change (f_vars s2) with (f_vars s1) in Hr. rewrite Hq1 in Hr.
  destruct (fw_receive_wait ∅ false _ _ _ _ (ms_to_ticks t) match_q_var s2 Hs2) as [Hs3 _].
  unfold mbind, St_bind. destruct (receive_wait _ _ _ s2) as [s3 r]. cbn [fst snd] in *. subst r.
  destruct (head _) as [out|]; [|done]. destruct (Z.eqb_spec (za_err out) 0).
  - rewrite upd_eq by (by eapply inv_fault). by split.
  - by split.
Qed.

(** ** [zigbee_wait_annce] *)

Definition announced (cbs : list zb_callback) : list Z :=
  omap (fun cb => match cb with
                  | cb_signal (sig_device_annce a) => Some (u16 a)
                  | _ => None
                  end) cbs.

Definition annce_item (k : list Z) (cb : zb_callback) : list Z := push 4 k (announced [cb]).

Lemma annce_items_fold k cbs :
  (length k <= 4)%nat -> fold_left annce_item cbs k = push 4 k (announced cbs).
Proof.
  revert k. induction cbs as [|cb cbs IH]; intros k Hk.
  { unfold push. cbn. by rewrite app_nil_r, take_ge. }
  cbn [fold_left]. rewrite IH by (unfold annce_item, push; rewrite length_take; lia).
  unfold annce_item.
  assert (Ha : announced (cb :: cbs) = announced [cb] ++ announced cbs)
    by (unfold announced; cbn; by case_match).
  rewrite Ha. unfold push. by rewrite take_take_app, <- app_assoc.
Qed.

Lemma keeps_other_annce cb :
  announced [cb] = [] -> keeps (E := E) (fun v => items (s_annce_q v)) (run_callback cb).
Proof.
  intros Hne. destruct cb as [[]|r|r ctx|[[m|]|st|[m|]|id]|arg]; try done;
    cbn [run_callback]; unfold zigbee_app_signal_handler, zdo_bind_result, zdo_match_result,
      zigbee_zcl_action_handler, zcl_read_attr_rsp, zcl_config_report_rsp, zcl_report_attr,
      zigbee_alarm_bdb_commissioning, basic_variable, temp_variable, report_variable;
    keeps_tac.
  cbv zeta. by repeat case_match.
Qed.

Lemma annce_after_pending o ticks s :
  fw_inv o false ∅ s ->
  items (s_annce_q (f_vars (run_pending ticks s).1)) =
  push 4 (items (s_annce_q (f_vars s))) (announced (batch s ticks)).
Proof.
  intros Hs. unfold run_pending, gets, mbind at 1, St_bind at 1. rewrite (inv_locked _ _ _ _ Hs).
  destruct (run_pending_start o false ticks s Hs) as (Es & Hs1). unfold mbind, St_bind. rewrite Es.
  rewrite (callbacks_observe (fun v => items (s_annce_q v)) annce_item) with (o := o) (l := false).
  - apply annce_items_fold. destruct (ok_annce _ (inv_vars _ _ _ _ Hs)) as (q & Eq & Hl & Hok & _).
    cbn. rewrite Eq. cbn. unfold queue_ok in Hok. lia.
  - intros cb o' l t t' s' Hcb Hi _. destruct (ok_annce _ (inv_vars _ _ _ _ Hi)) as (q & Eq & Hl & Hok & _).
    destruct (announced [cb]) as [|x l'] eqn:Ea.
    + rewrite keeps_other_annce by done. unfold annce_item, push. rewrite Ea, app_nil_r.
      rewrite Eq. cbn. rewrite take_ge; [done|]. unfold queue_ok in Hok. lia.
    + unfold annce_item. rewrite Ea. destruct cb as [[]| | | |]; try done. injection Ea as <- <-.
      cbn [run_callback]. unfold zigbee_app_signal_handler, mbind, St_bind.
      rewrite upd_eq by (by eapply inv_fault). cbn. apply send_push. eauto.
  - apply callbacks_ok.
  - apply callbacks_once.
  - done.
Qed.

(** The oldest queued announcement, else the first of the wait; the queue
    keeps the first four that found room, in order. *)
Lemma wait_annce_answer t (s : firmware E) :
  fw_inv ∅ false ∅ s ->
  (zigbee_wait_annce t s).2 =
    default 0 (head (items (s_annce_q (f_vars s)) ++ announced (batch s (ms_to_ticks t)))) /\
  items (s_annce_q (f_vars (zigbee_wait_annce t s).1)) =
    match items (s_annce_q (f_vars s)) with
    | [] => tail (push 4 [] (announced (batch s (ms_to_ticks t))))
    | _ :: k => k
    end.
Proof.
  intros Hs. unfold zigbee_wait_annce, mbind, St_bind.
  pose proof (receive_wait_eq s_annce_q set_annce_q 4 _ annce_q_var (fun _ v => eq_refl)
    announced (fun o t' => annce_after_pending o t') ∅ (ms_to_ticks t) s ltac:(lia) Hs) as Hr.
  destruct (receive_wait s_annce_q set_annce_q (ms_to_ticks t) s) as [s' r] eqn:Er.
  cbn [snd] in Hr. subst r. split; [done|]. cbn.
  destruct (receive_now_eq s_annce_q set_annce_q 4 _ annce_q_var (fun _ v => eq_refl)
    ∅ false ∅ s Hs) as (H3 & H4 & H5).
  destruct (fw_receive_now ∅ false ∅ _ _ _ _ annce_q_var s Hs) as [Hs1 _].
  unfold receive_wait, mbind at 1, St_bind at 1 in Er.
  destruct (receive_now s_annce_q set_annce_q s) as [s1 r]; cbn [fst snd] in *. subst r.
  destruct (items (s_annce_q (f_vars s))) as [|x k] eqn:Ei; cbn [head tail] in *;
    [|by injection Er as <-].
  pose proof (annce_after_pending ∅ (ms_to_ticks t) s1 Hs1) as Ho.
  destruct (fw_run_pending ∅ false (ms_to_ticks t) s1 Hs1) as [Hs2 _].
  unfold mbind, St_bind in Er. destruct (run_pending _ s1) as [s2 []]; cbn [fst] in *.
  destruct (receive_now_eq s_annce_q set_annce_q 4 _ annce_q_var (fun _ v => eq_refl)
    ∅ false ∅ s2 Hs2) as (_ & H7 & _).
  rewrite Er in H7. cbn [fst] in H7. rewrite H7, Ho, H4. unfold batch. by rewrite H5.
Qed.

(** ** [zigbee_read_temp] *)

Definition int16 (p : option (list byte)) : Z :=
  match p with
  | Some (b0 :: b1 :: _) => from_le16_s (Le16 b0 b1)
  | _ => 0
  end.

(** The last value of attribute [id] that was read successfully, [d] if none
    was. *)
Fixpoint last_value (d id : Z) (vars : list attr_variable) : Z :=
  match vars with
  | [] => d
  | var :: vars =>
      last_value (if (var_status var =? EZB_ZCL_STATUS_SUCCESS) && (var_attr_id var =? id)
                  then int16 (var_attr_value var) else d) id vars
  end.

Definition temp_reading (m : read_attr_rsp) : zigbee_temp_t :=
  let value id := last_value 0 id (rar_variables m) in
  MkZigbeeTemp (if rar_status m =? EZB_ZCL_STATUS_SUCCESS then 0 else -1)
    (value EZB_ZCL_ATTR_TEMPERATURE_MEASUREMENT_MEASURED_VALUE_ID)
    (value EZB_ZCL_ATTR_TEMPERATURE_MEASUREMENT_MIN_MEASURED_VALUE_ID)
    (value EZB_ZCL_ATTR_TEMPERATURE_MEASUREMENT_MAX_MEASURED_VALUE_ID)
    (value EZB_ZCL_ATTR_TEMPERATURE_MEASUREMENT_TOLERANCE_ID).

(** The answers to temperature reads in a batch. *)
Definition temp_answers (cbs : list zb_callback) : list read_attr_rsp :=
  omap (fun cb => match cb with
                  | cb_zcl (zcl_read_attr_rsp_cb (Some m)) =>
                      if rar_cluster_id m =? EZB_ZCL_CLUSTER_ID_BASIC then None
                      else if rar_cluster_id m =? EZB_ZCL_CLUSTER_ID_TEMPERATURE_MEASUREMENT
                      then Some m else None
                  | _ => None
                  end) cbs.

Definition is_given (sem : option semaphore) : bool :=
  match sem with Some sem => sem_given sem | None => false end.

(** What the temperature reader sees of the variables. *)
Definition temp_view (v : stack_vars) : bool * zigbee_temp_t :=
  (is_given (s_temp_done v), s_temp_cache v).

Definition temp_item (x : bool * zigbee_temp_t) (cb : zb_callback) : bool * zigbee_temp_t :=
  match temp_answers [cb] with
  | m :: _ => (true, temp_reading m)
  | [] => x
  end.

Lemma temp_items_fold x cbs :
  fold_left temp_item cbs x =
  match last (temp_answers cbs) with Some m => (true, temp_reading m) | None => x end.
Proof.
  revert x. induction cbs as [|cb cbs IH]; intros x; [done|]. cbn [fold_left]. rewrite IH.
  assert (Ha : temp_answers (cb :: cbs) = temp_answers [cb] ++ temp_answers cbs)
    by apply (omap_app _ [cb] cbs).
  rewrite Ha, last_app. destruct (last (temp_answers cbs)); [done|].
  unfold temp_item.
  assert (Hl : (length (temp_answers [cb]) <= 1)%nat)
    by (unfold temp_answers; cbn; repeat case_match; cbn; lia).
  destruct (temp_answers [cb]) as [|m [|m' l]]; cbn in *; [done..|lia].
Qed.

Lemma keeps_other_temp cb :
  temp_answers [cb] = [] -> keeps (E := E) temp_view (run_callback cb).
Proof.
  intros Hne. destruct cb as [[]|r|r ctx|[[m|]|st|[m|]|id]|arg]; try done;
    cbn [run_callback]; unfold zigbee_app_signal_handler, zdo_bind_result, zdo_match_result,
      zigbee_zcl_action_handler, zcl_read_attr_rsp, zcl_config_report_rsp, zcl_report_attr,
      zigbee_alarm_bdb_commissioning, basic_variable, report_variable.
  all: try (unfold temp_answers in Hne; cbn in Hne;
    destruct (rar_cluster_id m =? EZB_ZCL_CLUSTER_ID_BASIC);
      [|destruct (rar_cluster_id m =? EZB_ZCL_CLUSTER_ID_TEMPERATURE_MEASUREMENT)]; try done).
  all: keeps_tac.
Qed.

(** The loop over the variables computes [last_value] in each field. *)
Lemma temp_variables_read o l t vs (s : firmware E) :
  NoDup temp_attr_field -> fw_inv o l t s ->
  Forall (fun var => var_status var = EZB_ZCL_STATUS_SUCCESS ->
                     int16_ok (var_attr_value var) = true) vs ->
  let c := s_temp_cache (f_vars s) in
  s_temp_cache (f_vars (for_each temp_variable vs s).1) =
  MkZigbeeTemp (zt_err c)
    (last_value (zt_measured c) EZB_ZCL_ATTR_TEMPERATURE_MEASUREMENT_MEASURED_VALUE_ID vs)
    (last_value (zt_min_measured c) EZB_ZCL_ATTR_TEMPERATURE_MEASUREMENT_MIN_MEASURED_VALUE_ID vs)
    (last_value (zt_max_measured c) EZB_ZCL_ATTR_TEMPERATURE_MEASUREMENT_MAX_MEASURED_VALUE_ID vs)
    (last_value (zt_tolerance c) EZB_ZCL_ATTR_TEMPERATURE_MEASUREMENT_TOLERANCE_ID vs).
Proof.
  intros Hnd Hs Hvs. revert s Hs. induction Hvs as [|var vs Hvar Hvs IH]; intros s Hs.
  { cbn. by destruct (s_temp_cache (f_vars s)). }
  destruct (fw_temp_variable o l t var Hvar s Hs) as [Hs1 _]. cbn [for_each]. cbv zeta.
  unfold mbind, St_bind.
  destruct (temp_variable var s) as [s1 []] eqn:Ev. cbn [fst] in Hs1.
  rewrite (IH s1 Hs1). cbn [last_value].
  unfold temp_attr_field in Hnd. rewrite !NoDup_cons, !not_elem_of_cons in Hnd.
  destruct Hnd as ((? & ? & ? & _) & (? & ? & _) & (? & _) & _).
  unfold temp_variable in Ev.
  destruct (Z.eqb_spec (var_status var) EZB_ZCL_STATUS_SUCCESS) as [Hst|]; cbn [negb andb] in *;
    [|by injection Ev as <-].
  specialize (Hvar Hst). destruct (var_attr_value var) as [[|b0 [|b1 bs]]|]; try done.
  cbn [load_int16 int16] in *. unfold mbind, St_bind, mret, St_ret in Ev.
  rewrite upd_eq in Ev by (by eapply inv_fault). injection Ev as <-. cbn [f_vars with_vars].
  set (id := var_attr_id var) in *.
  repeat (match goal with |- context [id =? ?b] => destruct (Z.eqb_spec id b) end);
    first [reflexivity | congruence].
Qed.

Lemma keeps_temp_done vs : keeps (E := E) s_temp_done (for_each temp_variable vs).
Proof.
  keeps_tac. unfold temp_variable. keeps_tac. cbv zeta. by repeat case_match.
Qed.

Lemma temp_cache_ok err :
  is_s32 err -> forall v, vars_ok v -> vars_ok (set_temp_cache (MkZigbeeTemp err 0 0 0 0) v).
Proof.
  intros He [] []. split; cbn in *; done.
Qed.

Section ReadTemp.
Context (Hids : NoDup temp_attr_field).

Lemma temp_answer_view o l t cb m ms (s s' : firmware E) :
  callback_ok cb -> temp_answers [cb] = m :: ms -> fw_inv o l t s ->
  s' = (run_callback cb s).1 -> temp_view (f_vars s') = (true, temp_reading m).
Proof using Hids EzbLaws0.
  intros Hcb Ha Hs ->. destruct cb as [| | |[[m'|]| | |]|]; try done.
  unfold temp_answers in Ha. cbn in Ha. destruct Hcb as [_ Ht].
  cbn [run_callback]. unfold zigbee_zcl_action_handler, zcl_read_attr_rsp.
  destruct (rar_cluster_id m' =? EZB_ZCL_CLUSTER_ID_BASIC); [done|].
  destruct (Z.eqb_spec (rar_cluster_id m') EZB_ZCL_CLUSTER_ID_TEMPERATURE_MEASUREMENT) as [Hc|];
    [|done].
  injection Ha as <- _. specialize (Ht Hc).
  set (err := if rar_status m' =? EZB_ZCL_STATUS_SUCCESS then 0 else -1).
  assert (He : is_s32 err) by (unfold err; case_match; by apply small_s32).
  pose proof (fw_upd o l t (set_temp_cache (MkZigbeeTemp err 0 0 0 0))
    (temp_cache_ok _ He) s Hs) as [Hs1 _].
  unfold mbind, St_bind. rewrite upd_eq in * by (by eapply inv_fault).
  cbn [fst] in Hs1. set (s1 := with_vars _ s) in *.
  pose proof (temp_variables_read o l t (rar_variables m') s1 Hids Hs1 Ht) as Hr.
  pose proof (keeps_temp_done (rar_variables m') s1) as Hk.
  pose proof (fw_for_each o l t temp_variable _ _ (fun v => fw_temp_variable o l t v) Ht s1 Hs1)
    as [Hs2 _].
  destruct (for_each temp_variable (rar_variables m') s1) as [s2 []]. cbn [fst] in *.
  rewrite upd_eq by (by eapply inv_fault). unfold temp_view. cbn [f_vars with_vars fst].
  destruct (ok_temp_done _ (inv_vars _ _ _ _ Hs2)) as [h Eh].
  f_equal; [|exact Hr]. cbn. rewrite Eh. cbn. apply give_given.
Qed.

Lemma temp_after_pending o ticks s :
  fw_inv o false ∅ s ->
  temp_view (f_vars (run_pending ticks s).1) =
  match last (temp_answers (batch s ticks)) with
  | Some m => (true, temp_reading m)
  | None => temp_view (f_vars s)
  end.
Proof using Hids.
  intros Hs. unfold run_pending, gets, mbind at 1, St_bind at 1. rewrite (inv_locked _ _ _ _ Hs).
  destruct (run_pending_start o false ticks s Hs) as (Es & Hs1). unfold mbind, St_bind. rewrite Es.
  rewrite (callbacks_observe temp_view temp_item) with (o := o) (l := false).
  - by rewrite temp_items_fold.
  - intros cb o' l t t' s' Hcb Hi _. unfold temp_item.
    destruct (temp_answers [cb]) as [|m ms] eqn:Ea; [by apply keeps_other_temp|].
    by eapply temp_answer_view.
  - apply callbacks_ok.
  - apply callbacks_once.
  - done.
Qed.

(** Taking a semaphore without waiting clears it. *)
Lemma take_temp_eq o l t (s : firmware E) :
  fw_inv o l t s ->
  let r := take_now s_temp_done set_temp_done s in
  fw_inv o l t r.1 /\ r.2 = (temp_view (f_vars s)).1 /\
  temp_view (f_vars r.1) = (false, (temp_view (f_vars s)).2) /\ f_env r.1 = f_env s.
Proof using.
  intros Hs. split; [by apply fw_take_now, Hs; apply temp_done_var|].
  destruct (ok_temp_done _ (inv_vars _ _ _ _ Hs)) as [h Eh].
  unfold take_now, vars, gets, mbind, St_bind, temp_view. rewrite Eh.
  destruct (take_given h) as [Hg Ht]. destruct (xSemaphoreTake h) as [h2 ok]; cbn [fst snd] in *.
  rewrite upd_eq by (by eapply inv_fault). cbn. by rewrite Hg, Ht.
Qed.

Lemma take_wait_unfold sem set_sem ticks (s : firmware E) :
  take_wait sem set_sem ticks s =
  let r := take_now sem set_sem s in
  if r.2 then (r.1, true) else take_now sem set_sem (run_pending ticks r.1).1.
Proof using.
  unfold take_wait, mbind at 1, St_bind at 1. destruct (take_now sem set_sem s) as [s1 []]; [done|].
  unfold mbind, St_bind. cbn. by destruct (run_pending ticks s1) as [s2 []].
Qed.

(** Waiting for an answer that is not there yet. *)
Lemma take_wait_temp ticks (s : firmware E) :
  fw_inv ∅ false ∅ s -> (temp_view (f_vars s)).1 = false ->
  let r := take_wait s_temp_done set_temp_done ticks s in
  fw_inv ∅ false ∅ r.1 /\
  match last (temp_answers (batch s ticks)) with
  | Some m => r.2 = true /\ s_temp_cache (f_vars r.1) = temp_reading m
  | None => r.2 = false
  end.
Proof using Hids.
  intros Hs Hg. split; [by apply fw_take_wait, Hs; apply temp_done_var|].
  cbv zeta. rewrite take_wait_unfold.
  destruct (take_temp_eq ∅ false ∅ s Hs) as (Hs1 & Hr & Hv & He).
  destruct (take_now s_temp_done set_temp_done s) as [s1 ok]; cbn [fst snd] in *.
  rewrite Hg in Hr. subst ok. pose proof (temp_after_pending ∅ ticks s1 Hs1) as Hp.
  unfold batch in Hp. rewrite He in Hp. fold (batch s ticks) in Hp.
  destruct (fw_run_pending ∅ false ticks s1 Hs1) as [Hs2 _].
  destruct (take_temp_eq ∅ false ∅ _ Hs2) as (_ & -> & Hv3 & _). rewrite Hp, Hv in *.
  destruct (last _) as [m|]; [|done]. split; [done|]. exact (f_equal snd Hv3).
Qed.

(** An answer that comes while the call waits is the one returned; without
    one the call reports [-2].  The batches at the lock and after the wake-up
    are assumed free of answers to other reads. *)
Lemma read_temp_answer a ep t (s : firmware E) :
  fw_inv ∅ false ∅ s ->
  let s0 := (take_now s_temp_done set_temp_done s).1 in
  let s1 := (run_pending 0 s0).1 in
  let '(s2, err) := ask (fun env => ezb_zcl_read_attr_cmd_req env
    (read_attr_ctrl a ep EZB_ZCL_CLUSTER_ID_TEMPERATURE_MEASUREMENT) temp_attr_field) s1 in
  let s3 := (take_wait s_temp_done set_temp_done (ms_to_ticks t) s2).1 in
  temp_answers (batch s0 0) = [] -> temp_answers (batch s3 0) = [] ->
  (zigbee_read_temp a ep t s).2 =
    if err =? EZB_ERR_NONE then
      match last (temp_answers (batch s2 (ms_to_ticks t))) with
      | Some m => temp_reading m
      | None => temp_failure (-2)
      end
    else temp_failure (s32 err).
Proof using Hids.
  intros Hs s0 s1. unfold zigbee_read_temp, mbind at 1, St_bind at 1.
  destruct (take_temp_eq ∅ false ∅ s Hs) as (Hs0 & _ & Hv0 & _). fold s0 in Hs0, Hv0.
  unfold s0 in Hs0, Hv0, s1 |- *.
  destruct (take_now s_temp_done set_temp_done s) as [s0' ok0]; cbn [fst snd] in *. clear s0.
  rewrite (under_lock_eq ∅ s0') by done. fold s1. cbv zeta.
  destruct (fw_run_pending ∅ false 0 s0' Hs0) as [Hs1 _]. fold s1 in Hs1.
  pose proof (temp_after_pending ∅ 0 s0' Hs0) as Hv1. fold s1 in Hv1.
  unfold ask.
  pose proof (inv_ask ∅ false ∅ _ s1 (fun env => read_pending env
    (read_attr_ctrl a ep EZB_ZCL_CLUSTER_ID_TEMPERATURE_MEASUREMENT) temp_attr_field) Hs1) as Hs2.
  unfold ask in Hs2. cbn [fst snd] in *.
  set (s2 := with_env _ s1) in *. set (err := (ezb_zcl_read_attr_cmd_req _ _ _).2).
  intros Hq0 Hq3. rewrite Hq0, Hv0 in Hv1. cbn [last] in Hv1.
  destruct (err =? EZB_ERR_NONE); cbn [negb]; [|done].
  destruct (take_wait_temp (ms_to_ticks t) s2 Hs2 (f_equal fst Hv1)) as [Hs3 Hm].
  unfold mbind, St_bind. destruct (take_wait _ _ _ s2) as [s3 ok]; cbn [fst snd] in *.
  pose proof (temp_after_pending ∅ 0 s3 Hs3) as Hv4. rewrite Hq3 in Hv4. cbn [last] in Hv4.
  destruct (last _) as [m|]; [destruct Hm as [-> Hm] | by subst ok]. cbn [negb].
  destruct (run_pending 0 s3) as [s4 []]; cbn [fst] in Hv4. cbn.
  rewrite <- Hm. exact (f_equal snd Hv4).
Qed.
End ReadTemp.
End Answers.
