(* ===== verification/ZigbeeStackTheorems.v ===== *)
(** * The Zigbee side of the firmware: theorems

    The statements a user of the API relies on, each with an instance on
    [script], an SDK that plays a list of batches of callbacks.  [script]
    drops what [EzbLaws] excludes, so that its laws hold of every state. *)

From Stdlib Require Import ZArith Lia.
From Stdlib Require Import Strings.Byte.
From stdpp Require Import base tactics list numbers option vector gmap sets.
From S2P Require Import Prelude Protocol ZigbeeApi Freertos ZigbeeStack ZigbeeStackFacts ZigbeeStackAnswers.

(** ** An SDK that plays a script *)

(** Values of the constants, for examples only. *)
#[export] Instance example_const : EzbConst := {|
  EZB_ERR_NONE := 0;
  ESP_OK := 0;
  ESP_ERR_NO_MEM := 0x101;
  ESP_FAIL := -1;
  EZB_BDB_STATUS_SUCCESS := 0;
  EZB_ZDP_STATUS_SUCCESS := 0;
  EZB_ZCL_STATUS_SUCCESS := 0;
  EZB_BDB_MODE_INITIALIZATION := 0;
  EZB_BDB_MODE_NETWORK_FORMATION := 4;
  EZB_BDB_MODE_NETWORK_STEERING := 2;
  EZB_AF_HA_PROFILE_ID := 0x104;
  EZB_ADDR_MODE_NONE := 0;
  EZB_ADDR_MODE_SHORT := 2;
  EZB_ADDR_MODE_EXT := 3;
  EZB_ZCL_CLUSTER_ID_BASIC := 0;
  EZB_ZCL_CLUSTER_ID_TEMPERATURE_MEASUREMENT := 0x402;
  EZB_ZCL_ATTR_BASIC_MANUFACTURER_NAME_ID := 4;
  EZB_ZCL_ATTR_BASIC_MODEL_IDENTIFIER_ID := 5;
  EZB_ZCL_ATTR_TEMPERATURE_MEASUREMENT_MEASURED_VALUE_ID := 0;
  EZB_ZCL_ATTR_TEMPERATURE_MEASUREMENT_MIN_MEASURED_VALUE_ID := 1;
  EZB_ZCL_ATTR_TEMPERATURE_MEASUREMENT_MAX_MEASURED_VALUE_ID := 2;
  EZB_ZCL_ATTR_TEMPERATURE_MEASUREMENT_TOLERANCE_ID := 3;
  EZB_ZCL_REPORTING_SEND := 0;
  EZB_ZCL_ATTR_TYPE_INT16 := 0x29
|}.

#[export] Instance zcl_string_ok_dec zcl : Decision (zcl_string_ok zcl).
Proof. destruct zcl as [[|]|]; cbn; apply _. Defined.

#[export] Instance callback_ok_dec cb : Decision (callback_ok cb).
Proof.
  destruct cb as [|[[e [r|]]|]|[[e r]|]|[[m|]|s|[m|]|i]|]; cbn; try apply _.
Defined.

Record script := MkScript {
  sc_pending : gset Z;
  sc_batches : list (list zb_callback);
  sc_err : Z
}.

(** The callbacks of a batch the SDK may make, and the requests left. *)
Fixpoint admissible (p : gset Z) (cbs : list zb_callback) : gset Z * list zb_callback :=
  match cbs with
  | [] => (p, [])
  | cb :: cbs =>
      if decide (callback_ok cb) then
        match cb with
        | cb_bind r ctx =>
            if decide (ctx ∈ p) then
              let '(p, cbs) := admissible (p ∖ {[ctx]}) cbs in (p, cb_bind r ctx :: cbs)
            else admissible p cbs
        | _ => let '(p, cbs) := admissible p cbs in (p, cb :: cbs)
        end
      else admissible p cbs
  end.

Lemma admissible_ok cbs : forall p,
  let '(p', cbs') := admissible p cbs in
  Forall callback_ok cbs' /\ NoDup (bind_ctxs cbs') /\
  list_to_set (bind_ctxs cbs') ⊆ p /\ p' = p ∖ list_to_set (bind_ctxs cbs').
Proof.
  induction cbs as [|cb cbs IH]; intros p; cbn [admissible].
  { split_and!; [constructor|constructor|set_solver|set_solver]. }
  destruct (decide (callback_ok cb)) as [Hok|]; [|apply IH].
  assert (Hother : (forall r c, cb <> cb_bind r c) ->
    let '(p', cbs') := (let '(p', cbs') := admissible p cbs in (p', cb :: cbs')) in
    Forall callback_ok cbs' /\ NoDup (bind_ctxs cbs') /\
    list_to_set (bind_ctxs cbs') ⊆ p /\ p' = p ∖ list_to_set (bind_ctxs cbs')).
  { intros Hne. specialize (IH p). destruct (admissible p cbs) as [p' cbs'].
    destruct IH as (H1 & H2 & H3). split; [by constructor|].
    destruct cb; try done. by destruct (Hne result user_ctx). }
  destruct cb as [|r|r ctx| |]; try (by apply Hother).
  destruct (decide (ctx ∈ p)) as [Hp|]; [|apply IH].
  specialize (IH (p ∖ {[ctx]})). destruct (admissible (p ∖ {[ctx]}) cbs) as [p' cbs'].
  destruct IH as (H1 & H2 & H3 & ->). cbn.
  split_and!; [by constructor| |set_solver|set_solver].
  constructor; [|done]. rewrite <- (elem_of_list_to_set (C := gset Z)). set_solver.
Qed.

#[export] Instance script_sdk : EzbSdk script := {|
  ezb_nwk_get_short_address _ := 0;
  ezb_nwk_get_panid _ := 0x1a62;
  ezb_nwk_get_current_channel _ := 13;
  ezb_nwk_get_extended_address _ := 0x00124b0001020304;
  ezb_address_extended_by_short _ a := inr (0x00124b0000000000 + a);
  ezb_bdb_is_factory_new _ := true;
  ezb_bdb_start_top_level_commissioning e _ := (e, 0);
  ezb_bdb_open_network e _ := (e, sc_err e);
  ezb_zdo_match_desc_req e _ := (e, sc_err e);
  ezb_zdo_bind_req e _ ctx :=
    (if sc_err e =? 0 then MkScript ({[ctx]} ∪ sc_pending e) (sc_batches e) (sc_err e) else e,
     sc_err e);
  ezb_zcl_read_attr_cmd_req e _ _ := (e, sc_err e);
  ezb_zcl_config_report_cmd_req e _ _ := (e, sc_err e);
  alarm_timer_schedule e _ _ := e;
  sdk_config e _ := (e, 0);
  xTaskCreate_ok e := (e, true);
  heap_alloc e := (e, true);
  sdk_callbacks e _ :=
    match sc_batches e with
    | [] => (e, [])
    | b :: bs => let '(p, cbs) := admissible (sc_pending e) b in (MkScript p bs (sc_err e), cbs)
    end
|}.

#[export] Program Instance script_laws : EzbLaws script := {| pending := sc_pending |}.
Solve Obligations with done.
Next Obligation. intros e r ctx. cbn. by destruct (sc_err e =? 0). Qed.
Next Obligation.
  intros [p [|b bs] err] t; cbn; [constructor|].
  pose proof (admissible_ok b p). destruct (admissible p b). tauto.
Qed.
Next Obligation.
  intros [p [|b bs] err] t; cbn; [constructor|].
  pose proof (admissible_ok b p). destruct (admissible p b). tauto.
Qed.
Next Obligation.
  intros [p [|b bs] err] t; cbn; [set_solver|].
  pose proof (admissible_ok b p). destruct (admissible p b). tauto.
Qed.

(** ** Theorems *)

Section Theorems.
Context `{FreeRtos, EzbConst} {E : Type} `{EzbSdk E, !EzbLaws E}.


(** C16: in every reachable state the queues hold at most four announcements
    and one match, and the values handed out are of their C types with
    NUL-terminated strings. *)
Theorem stack_bounds (s : firmware E) :
  ESP_OK <> ESP_ERR_NO_MEM -> fw_reach s ->
  (length (items (s_annce_q (f_vars s))) <= 4)%nat /\
  (length (items (s_match_q (f_vars s))) <= 1)%nat /\
  (forall a t, addr_typed (zigbee_find_sensor a t s).2) /\
  (forall a ep t, basic_strings (zigbee_read_basic a ep t s).2) /\
  (forall a ep t, temp_typed (zigbee_read_temp a ep t s).2) /\
  (forall a ep b t, is_s32 (zigbee_bind_common a ep b t s).2).
Proof.
  intros Hne Hr. pose proof (fw_reach_inv s Hne Hr) as Hs.
  destruct (ok_annce _ (inv_vars _ _ _ _ Hs)) as (q & -> & <- & Hq & _).
  destruct (ok_match _ (inv_vars _ _ _ _ Hs)) as (m & -> & <- & Hm & _).
  split_and!; [done|done|intros..].
  - by apply find_sensor_ok.
  - by apply read_basic_ok.
  - by apply read_temp_ok.
  - by apply bind_common_ok.
Qed.

(** C6: [zigbee_find_sensor] reports the SDK's error when the request is
    refused, [-2] when no answer comes, and else the first answer that came
    while it took the lock or waited; when that answer has no error its
    address becomes the remembered sensor. *)
Theorem find_sensor_first_answer a t (s : firmware E) :
  fw_inv ∅ false ∅ s ->
  let s1 := (run_pending 0 (reset_match_q s).1).1 in
  let '(s2, err) := ask (fun env => ezb_zdo_match_desc_req env (find_sensor_req a)) s1 in
  let '(s', r) := zigbee_find_sensor a t s in
  if err =? EZB_ERR_NONE then
    r = default (MkZigbeeAddr (-2) 0 0)
          (head (push 1 [] (match_outcomes (batch s 0)) ++
                 match_outcomes (batch s2 (ms_to_ticks t)))) /\
    (za_err r = 0 -> s_last_sensor_addr (f_vars s') = za_short_addr r)
  else r = MkZigbeeAddr (s32 err) 0 0.
Proof. apply find_sensor_answer. Qed.

(** C10: [zigbee_wait_annce] takes the oldest announcement queued, or the
    first that arrives during the wait, or returns 0; the others stay queued
    in order, and those that found four waiting are dropped. *)
Theorem wait_annce_fifo t (s : firmware E) :
  fw_inv ∅ false ∅ s ->
  (zigbee_wait_annce t s).2 =
    default 0 (head (items (s_annce_q (f_vars s)) ++ announced (batch s (ms_to_ticks t)))) /\
  items (s_annce_q (f_vars (zigbee_wait_annce t s).1)) =
    match items (s_annce_q (f_vars s)) with
    | [] => tail (push 4 [] (announced (batch s (ms_to_ticks t))))
    | _ :: k => k
    end.
Proof. apply wait_annce_answer. Qed.


(** A ZCL string is copied into an array of [n] characters without
    reading past its end: the text, cut to [n - 1] characters, then zeros, so
    that the last character is the terminator. *)
Theorem copy_zcl_string_terminates n zcl :
  (0 < n <= 256)%nat -> zcl_string_ok zcl ->
  exists dst, copy_zcl_string n zcl = Some dst /\ length dst = n /\
    dst = take (n - 1) (zcl_text zcl) ++ replicate (n - length (take (n - 1) (zcl_text zcl))) x00 /\
    last dst = Some x00.
Proof.
  intros Hn Hok. eexists. split; [apply copy_zcl_string_some; [lia|done]|].
  set (u := take (n - 1) (zcl_text zcl)).
  assert (Hu : (length u < n)%nat) by (unfold u; rewrite length_take; lia).
  split_and!; [rewrite length_app, length_replicate; lia|done|].
  rewrite last_app. destruct (n - length u)%nat as [|k] eqn:Ek; [lia|].
  by rewrite replicate_S_end, last_snoc.
Qed.

(** An answer without an error but also without a match (an empty list,
    or a status other than success) is queued with [err = EZB_ERR_NONE], the
    value that means success, and with address and endpoint 0. *)
Theorem no_match_is_success rsp :
  EZB_ERR_NONE = 0 ->
  mr_match_length rsp <= 0 \/ mr_status rsp <> EZB_ZDP_STATUS_SUCCESS ->
  match_outcome (Some (MkMatchResult EZB_ERR_NONE (Some rsp))) = Some (MkZigbeeAddr 0 0 0).
Proof.
  intros Hz Hno. unfold match_outcome. cbn [mres_error mres_rsp]. rewrite Z.eqb_refl.
  replace ((mr_status rsp =? EZB_ZDP_STATUS_SUCCESS) && (0 <? mr_match_length rsp)) with false.
  - by rewrite Hz.
  - symmetry. apply andb_false_iff. destruct Hno as [Hl|Hs]; [right; lia|left; by apply Z.eqb_neq].
Qed.
End Theorems.

(** ** Instances on a script *)

(** A started firmware that will see the batches [bs]. *)
Definition started (bs : list (list zb_callback)) : firmware script :=
  (zigbee_stack_start (init_firmware (MkScript ∅ bs 0))).1.

Lemma started_reach bs : fw_reach (started bs).
Proof. apply reach_start; reflexivity. Qed.

Lemma started_inv bs : fw_inv ∅ false ∅ (started bs).
Proof. apply fw_reach_inv; [discriminate | apply started_reach]. Qed.

(** A bind whose answer comes after the call gave up, and frees its request. *)
Definition late_bind : firmware script :=
  (run_pending 5 (zigbee_bind_sensor 0x1234 1 100
    (started [[]; []; [cb_bind (Some (MkBindResult 0 (Some 0))) 0]])).1).1.

Lemma late_bind_reach : fw_reach late_bind.
Proof. apply reach_idle, reach_bind, started_reach. Qed.

Definition annce (a : Z) : zb_callback := cb_signal (sig_device_annce a).

Definition found (a ep : Z) : zb_callback :=
  cb_match (Some (MkMatchResult 0 (Some (MkMatchRsp 0 1 a (Some [ep]))))).

(** 21.50 degrees, then the maximum, then a tolerance that failed. *)
Definition temp_message : read_attr_rsp :=
  MkReadAttrRsp 0x402 0
    [MkVariable 0 0 (Some [x66; x08]); MkVariable 0 2 (Some [xff; x7f]); MkVariable 1 3 None].

Definition temp_answer : zb_callback := cb_zcl (zcl_read_attr_rsp_cb (Some temp_message)).


Lemma stack_bounds_witness :
  (length (items (s_annce_q (f_vars late_bind))) <= 4)%nat /\
  (length (items (s_match_q (f_vars late_bind))) <= 1)%nat /\
  (forall a t, addr_typed (zigbee_find_sensor a t late_bind).2) /\
  (forall a ep t, basic_strings (zigbee_read_basic a ep t late_bind).2) /\
  (forall a ep t, temp_typed (zigbee_read_temp a ep t late_bind).2) /\
  (forall a ep b t, is_s32 (zigbee_bind_common a ep b t late_bind).2).
Proof. apply stack_bounds; [discriminate | exact late_bind_reach]. Defined.

(** A stale answer for another device arrives while the lock is taken and is
    the one that is returned. *)
Definition stale_answer : firmware script := started [[found 0x9999 7]; [found 0x1234 1]].

Lemma find_sensor_first_answer_witness :
  (zigbee_find_sensor 0x1234 100 stale_answer).2 = MkZigbeeAddr 0 0x9999 7.
Proof.
  pose proof (find_sensor_first_answer 0x1234 100 stale_answer (started_inv _)) as Hf.
  vm_compute in Hf. vm_compute. by destruct Hf.
Defined.

Lemma wait_annce_fifo_witness :
  (zigbee_wait_annce 250 (started [[annce 1; annce 2; annce 3; annce 4; annce 5]])).2 = 1.
Proof.
  pose proof (wait_annce_fifo 250 _ (started_inv [[annce 1; annce 2; annce 3; annce 4; annce 5]]))
    as Hf.
  vm_compute in Hf. vm_compute. by destruct Hf.
Defined.


Lemma copy_zcl_string_terminates_witness :
  exists dst, copy_zcl_string 4 (Some [x05; x61; x62; x63; x64; x65]) = Some dst /\ length dst = 4%nat /\
    dst = take 3 [x61; x62; x63; x64; x65] ++
          replicate (4 - length (take 3 [x61; x62; x63; x64; x65])) x00 /\
    last dst = Some x00.
Proof. apply (copy_zcl_string_terminates 4 (Some [x05; x61; x62; x63; x64; x65])); cbn; lia. Defined.

Lemma no_match_is_success_witness :
  match_outcome (Some (MkMatchResult 0 (Some (MkMatchRsp 0 0 0x1234 None)))) =
  Some (MkZigbeeAddr 0 0 0).
Proof.
  exact (no_match_is_success (MkMatchRsp 0 0 0x1234 None) eq_refl (or_introl (Z.le_refl 0))).
Defined.

(** ** The firmware as an implementation of the typed API

    [live E] is a firmware in a state of the invariant; every operation stays
    there, so [live E] discharges [ZigbeeApiTyped]. *)

Section Live.
Context `{FreeRtos, EzbConst} {E : Type} `{EzbSdk E, !EzbLaws E}.

Record live := MkLive { lv_fw : firmware E; lv_inv : fw_inv ∅ false ∅ lv_fw }.

Definition on_live {A} (m : St (firmware E) A) {Q} (Hm : api_op m Q) (l : live) : live * A :=
  (MkLive (m (lv_fw l)).1 (proj1 (Hm _ (lv_inv l))), (m (lv_fw l)).2).

#[export] Instance live_api : ZigbeeApi live := {|
  ZigbeeApi.zigbee_get_short_addr := on_live _ get_short_addr_ok;
  ZigbeeApi.zigbee_get_panid := on_live _ get_panid_ok;
  ZigbeeApi.zigbee_get_channel := on_live _ get_channel_ok;
  ZigbeeApi.zigbee_get_sensor_addr := on_live _ get_sensor_addr_ok;
  ZigbeeApi.zigbee_open_network l d := on_live _ (open_network_ok d) l;
  ZigbeeApi.zigbee_wait_annce l t := on_live _ (wait_annce_ok t) l;
  ZigbeeApi.zigbee_find_sensor l a t := on_live _ (find_sensor_ok a t) l;
  ZigbeeApi.zigbee_read_basic l a e t := on_live _ (read_basic_ok a e t) l;
  ZigbeeApi.zigbee_bind_sensor l a e t := on_live _ (bind_common_ok a e true t) l;
  ZigbeeApi.zigbee_subscribe_sensor l a e t := on_live _ (bind_common_ok a e false t) l;
  ZigbeeApi.zigbee_config_report l a e t := on_live _ (config_report_ok a e t) l;
  ZigbeeApi.zigbee_read_temp l a e t := on_live _ (read_temp_ok a e t) l;
  ZigbeeApi.zigbee_get_last_temp := on_live _ get_last_temp_ok
|}.

#[export] Instance live_typed : ZigbeeApiTyped live.
Proof.
  split; intros [s Hs]; intros; unfold on_live; cbn [snd];
    first [by apply get_short_addr_ok | by apply get_panid_ok | by apply get_channel_ok
      | by apply get_sensor_addr_ok | by apply open_network_ok | by apply wait_annce_ok
      | by apply find_sensor_ok | by apply read_basic_ok | by apply bind_common_ok
      | by apply config_report_ok | by apply read_temp_ok | by apply get_last_temp_ok].
Qed.
End Live.

Arguments live {_ _} E {_ _}.

Definition started_live (bs : list (list zb_callback)) : live script :=
  MkLive (started bs) (started_inv bs).
