(* ===== verification/RpcServer.v ===== *)
(** * The RPC server: zb_rpc_server/main/rpc_server.cpp

    [server E] is the file-scope state ([s_client_fd]) over an environment [E]
    that provides the connection ([Posix]), the Zigbee API of the firmware
    ([ZigbeeApi]) and the rest of what the file calls ([ServerEnv]: the PPP
    link state and the peeking [recv]).  [dispatch] is the chain of
    [invoke_one] calls, [serve_step] one turn of [serve_client]'s loop. *)

From Stdlib Require Import ZArith Lia.
From Stdlib Require Import Strings.Byte.
From stdpp Require Import base tactics list numbers option.
From S2P Require Import Prelude Protocol Reflection Posix Engine Rpc ZigbeeApi.

(** ** Constants and the environment *)

Definition k_rpc_timeout_ms : Z := 15000.
Definition k_annce_timeout_ms : Z := 180000.
Definition k_annce_slice_ms : Z := 250.

(** [recv_peek] is [recv(fd, &byte, 1, MSG_PEEK | MSG_DONTWAIT)]. *)
Class ServerEnv (E : Type) := {
  ppp_uart_is_connected : E -> bool;
  recv_peek : E -> Z -> sysret nat
}.

Record server (E : Type) := MkServer { s_client_fd : Z; s_env : E }.

Arguments MkServer {E} _ _.
Arguments s_client_fd {E} _.
Arguments s_env {E} _.

(** Lifts an operation of the environment to the server. *)
Definition in_env {E A} (f : E -> E * A) (s : server E) : server E * A :=
  let '(env, a) := f (s_env s) in (MkServer (s_client_fd s) env, a).

#[export] Instance server_posix {E} `{Posix E} : Posix (server E) := {|
  sys_read s n := in_env (fun env => sys_read env n) s;
  sys_write s bs := in_env (fun env => sys_write env bs) s;
  io_patience s := io_patience (s_env s)
|}.

Section RpcServer.
Context {E : Type} `{Posix E, ZigbeeApi E, ServerEnv E}.
Implicit Types s : server E.

Definition client_connected s : bool :=
  if s_client_fd s <? 0 then false
  else
    match recv_peek (s_env s) (s_client_fd s) with
    | SysOk (S _) => true
    | SysOk O => false
    | SysErr e => (e =? EAGAIN) || (e =? EWOULDBLOCK) || (e =? EINTR)
    end.

(** ** Handlers *)

Definition handle_get_short_addr s (_ : EmptyReq) : server E * U16Resp :=
  let '(s, v) := in_env zigbee_get_short_addr s in (s, MkU16Resp (to_le16 v)).

Definition handle_get_panid s (_ : EmptyReq) : server E * U16Resp :=
  let '(s, v) := in_env zigbee_get_panid s in (s, MkU16Resp (to_le16 v)).

Definition handle_get_channel s (_ : EmptyReq) : server E * U8Resp :=
  let '(s, v) := in_env zigbee_get_channel s in (s, MkU8Resp (Z_to_byte v)).

Definition handle_open_network s (request : OpenNetworkReq) : server E * I32Resp :=
  let '(s, v) :=
    in_env (fun w => zigbee_open_network w (byte_to_Z (onr_duration request))) s in
  (s, MkI32Resp (to_le32_s v)).

(** The loop of [handle_wait_annce]; [None] is the fuel running out. *)
Fixpoint wait_annce_loop (fuel : nat) s (remaining : Z) : option (server E * Z) :=
  if 0 <? remaining then
    match fuel with
    | O => None
    | S fuel =>
        if negb (ppp_uart_is_connected (s_env s)) || negb (client_connected s)
        then Some (s, 0)
        else
          let slice := if remaining <? k_annce_slice_ms then remaining else k_annce_slice_ms in
          let '(s, short_addr) := in_env (fun w => zigbee_wait_annce w slice) s in
          if negb (short_addr =? 0) then Some (s, short_addr)
          else wait_annce_loop fuel s (u32 (remaining - slice))
    end
  else Some (s, 0).

(** 180000 ms in slices of 250 ms. *)
Definition wait_annce_fuel : nat := 720.

Definition handle_wait_annce s (_ : EmptyReq) : server E * U16Resp :=
  let '(s, v) := default (s, 0) (wait_annce_loop wait_annce_fuel s k_annce_timeout_ms) in
  (s, MkU16Resp (to_le16 v)).

Definition handle_get_sensor_addr s (_ : EmptyReq) : server E * U16Resp :=
  let '(s, v) := in_env zigbee_get_sensor_addr s in (s, MkU16Resp (to_le16 v)).

Definition handle_find_sensor s (request : FindSensorReq) : server E * zb_addr_t :=
  let '(s, found) :=
    in_env (fun w => zigbee_find_sensor w (from_le16 (fsr_short_addr request))
                                        k_rpc_timeout_ms) s in
  (s, MkZbAddr (to_le32_s (za_err found)) (to_le16 (za_short_addr found))
               (Z_to_byte (za_ep found))).

Definition handle_read_basic s (request : zb_addr_t) : server E * zb_basic_t :=
  let '(s, basic) :=
    in_env (fun w => zigbee_read_basic w (from_le16 (zba_short_addr request))
                                       (byte_to_Z (zba_ep request)) k_rpc_timeout_ms) s in
  (s, MkZbBasic (to_le32_s (zb_err basic)) (zb_manufacturer basic) (zb_model basic)).

Definition handle_bind_sensor s (request : zb_addr_t) : server E * I32Resp :=
  let '(s, v) :=
    in_env (fun w => zigbee_bind_sensor w (from_le16 (zba_short_addr request))
                                        (byte_to_Z (zba_ep request)) k_rpc_timeout_ms) s in
  (s, MkI32Resp (to_le32_s v)).

Definition handle_subscribe_sensor s (request : zb_addr_t) : server E * I32Resp :=
  let '(s, v) :=
    in_env (fun w => zigbee_subscribe_sensor w (from_le16 (zba_short_addr request))
                                             (byte_to_Z (zba_ep request)) k_rpc_timeout_ms) s in
  (s, MkI32Resp (to_le32_s v)).

Definition handle_config_report s (request : zb_addr_t) : server E * I32Resp :=
  let '(s, v) :=
    in_env (fun w => zigbee_config_report w (from_le16 (zba_short_addr request))
                                          (byte_to_Z (zba_ep request)) k_rpc_timeout_ms) s in
  (s, MkI32Resp (to_le32_s v)).

Definition handle_read_temp s (request : zb_addr_t) : server E * zb_temp_t :=
  let '(s, temp) :=
    in_env (fun w => zigbee_read_temp w (from_le16 (zba_short_addr request))
                                      (byte_to_Z (zba_ep request)) k_rpc_timeout_ms) s in
  (s, MkZbTemp (to_le32_s (zt_err temp)) (to_le16_s (zt_measured temp))
               (to_le16_s (zt_min_measured temp)) (to_le16_s (zt_max_measured temp))
               (to_le16_s (zt_tolerance temp))).

Definition handle_get_last_temp s (_ : EmptyReq) : server E * I16Resp :=
  let '(s, v) := in_env zigbee_get_last_temp s in (s, MkI16Resp (to_le16_s v)).

(** ** [dispatch] *)

(** [if (result == no_match) result = invoke_one<...>(engine, header);] *)
Definition or_invoke (r : Engine (server E) * invoke_result) (d : rpc_desc)
    (F : server E -> d_req d -> server E * d_resp d) (header : FrameHeader)
    : Engine (server E) * invoke_result :=
  let '(e, result) := r in
  if decide (result = no_match) then invoke_one d F e header else (e, result).

Definition dispatch (e : Engine (server E)) (header : FrameHeader) : Engine (server E) * bool :=
  let r := invoke_one desc.get_short_addr handle_get_short_addr e header in
  let r := or_invoke r desc.get_panid handle_get_panid header in
  let r := or_invoke r desc.get_channel handle_get_channel header in
  let r := or_invoke r desc.open_network handle_open_network header in
  let r := or_invoke r desc.wait_annce handle_wait_annce header in
  let r := or_invoke r desc.find_sensor handle_find_sensor header in
  let r := or_invoke r desc.read_basic handle_read_basic header in
  let r := or_invoke r desc.bind_sensor handle_bind_sensor header in
  let r := or_invoke r desc.subscribe_sensor handle_subscribe_sensor header in
  let r := or_invoke r desc.config_report handle_config_report header in
  let r := or_invoke r desc.read_temp handle_read_temp header in
  let r := or_invoke r desc.get_last_temp handle_get_last_temp header in
  let r := or_invoke r desc.get_sensor_addr handle_get_sensor_addr header in
  let '(e, result) := r in
  if decide (result = no_match) then
    let '(e, ok) := discard_payload e (fh_size header) in
    if negb ok then (e, false)
    else let '(e, _) := send_error e ec_unknown_api in (e, false)
  else (e, bool_decide (result = handled)).

(** ** [serve_client] *)

(** One turn of the loop; [false] is its [break]. *)
Definition serve_step (e : Engine (server E)) : Engine (server E) * bool :=
  let '(e, r) := receive_header e in
  match r with
  | None =>
      if decide (last_error_ e <> ec_none)
      then let '(e, _) := send_error e (last_error_ e) in (e, false)
      else (e, false)
  | Some header => dispatch e header
  end.

(** The loop for at most [fuel] turns; [None] when it would go on. *)
Fixpoint serve_loop (fuel : nat) (e : Engine (server E)) : option (Engine (server E)) :=
  match fuel with
  | O => None
  | S fuel =>
      if ppp_uart_is_connected (s_env (fd_ e)) then
        let '(e, go) := serve_step e in
        if go then serve_loop fuel e else Some e
      else Some e
  end.

Definition serve_client (fuel : nat) s (client_fd : Z) : option (server E) :=
  let s := MkServer client_fd (s_env s) in
  e ← serve_loop fuel (new_engine s);
  Some (MkServer (-1) (s_env (fd_ e))).
End RpcServer.
