(* ===== verification/RpcServerFacts.v ===== *)
(** * The RPC server's behaviour

    [dispatch] is a lookup in a table of handlers; a turn of [serve_client]
    answers a well-formed request with exactly one frame, refuses everything
    else with an error frame and gives the connection up; and the announcement
    wait is 720 polls of 250 ms that end early when the client goes away. *)

From Stdlib Require Import ZArith Lia.
From Stdlib Require Import Strings.Byte.
From stdpp Require Import base tactics list numbers option.
From S2P Require Import Prelude Protocol Reflection Posix Engine Rpc ZigbeeApi RpcServer.

(** ** The server as a connection *)

#[export] Instance server_posix_laws {E} `{Posix E, !PosixLaws E} : PosixLaws (server E).
Proof. posix_component (@s_env E) in_env. Qed.

#[export] Program Instance server_stream {E} `{Posix E, !Stream E} : Stream (server E) := {|
  world_rest := Z * world_rest (W := E);
  rest s := (s_client_fd s, rest (s_env s));
  rx s := rx (s_env s);
  tx s := tx (s_env s);
  stream_ok s := stream_ok (s_env s)
|}.
Next Obligation.
  intros E ? ? [fd env] n Hok Hn; cbn in *.
  destruct (stream_read env n Hok Hn) as (w & Hok' & Ht & Hr & Hcase).
  exists (MkServer fd w). unfold in_env; cbn. rewrite Ht, Hr.
  repeat split; [done|]. destruct Hcase as [[-> Hrx]|(bs & Hbs & -> & Hrx)]; [by left|].
  right. eauto.
Qed.
Next Obligation.
  intros E ? ? [fd env] bs Hok Hn; cbn in *.
  destruct (stream_write env bs Hok Hn) as (w & Hok' & Ht & Hr & Hcase).
  exists (MkServer fd w). unfold in_env; cbn. rewrite Ht, Hr.
  repeat split; [done|]. destruct Hcase as [[-> Hrx]|(k & Hk & -> & Hrx)]; [by left|].
  right. eauto.
Qed.

Section Facts.
Context {E : Type} `{Posix E, ZigbeeApi E, ServerEnv E}.

(** ** The handler table *)

Record handler := MkHandler {
  h_desc : rpc_desc;
  h_fun : server E -> d_req h_desc -> server E * d_resp h_desc
}.

Definition handlers : list handler :=
  [ MkHandler desc.get_short_addr handle_get_short_addr;
    MkHandler desc.get_panid handle_get_panid;
    MkHandler desc.get_channel handle_get_channel;
    MkHandler desc.open_network handle_open_network;
    MkHandler desc.wait_annce handle_wait_annce;
    MkHandler desc.find_sensor handle_find_sensor;
    MkHandler desc.read_basic handle_read_basic;
    MkHandler desc.bind_sensor handle_bind_sensor;
    MkHandler desc.subscribe_sensor handle_subscribe_sensor;
    MkHandler desc.config_report handle_config_report;
    MkHandler desc.read_temp handle_read_temp;
    MkHandler desc.get_last_temp handle_get_last_temp;
    MkHandler desc.get_sensor_addr handle_get_sensor_addr ].

Definition handler_for (i : api_id) : option handler :=
  List.find (fun h => bool_decide (i = d_id (h_desc h))) handlers.

Definition invoke_handler (h : handler) (e : Engine (server E)) (header : FrameHeader)
    : Engine (server E) * bool :=
  let '(e, result) := invoke_one (h_desc h) (h_fun h) e header in
  (e, bool_decide (result = handled)).

Definition refuse_unknown (e : Engine (server E)) (header : FrameHeader)
    : Engine (server E) * bool :=
  let '(e, ok) := discard_payload e (fh_size header) in
  if negb ok then (e, false)
  else let '(e, _) := send_error e ec_unknown_api in (e, false).

Lemma invoke_one_match d F (e : Engine (server E)) header :
  fh_id header = d_id d -> (invoke_one d F e header).2 <> no_match.
Proof.
  intros Hi. unfold invoke_one. rewrite decide_False by tauto.
  repeat case_match; simplify_eq/=; try case_match; done.
Qed.

Lemma or_invoke_stop r d F header :
  r.2 <> no_match -> or_invoke (E := E) r d F header = r.
Proof. destruct r as [e r]. intros Hr. unfold or_invoke. by rewrite decide_False. Qed.

Lemma or_invoke_next e d F header :
  or_invoke (E := E) (e, no_match) d F header = invoke_one d F e header.
Proof. unfold or_invoke. by rewrite decide_True. Qed.

(** The chain of [if (result == no_match) result = invoke_one<...>] over a
    list of handlers stops at the first that matches. *)
Definition chain (hs : list handler) (header : FrameHeader) r :=
  fold_left (fun r h => or_invoke (E := E) r (h_desc h) (h_fun h) header) hs r.

Lemma chain_stop hs header r : r.2 <> no_match -> chain hs header r = r.
Proof.
  intros Hr. induction hs as [|h hs IH]; [done|].
  unfold chain in *. cbn. by rewrite or_invoke_stop.
Qed.

Lemma chain_find hs header e :
  chain hs header (e, no_match) =
  match List.find (fun h => bool_decide (fh_id header = d_id (h_desc h))) hs with
  | Some h => invoke_one (h_desc h) (h_fun h) e header
  | None => (e, no_match)
  end.
Proof.
  induction hs as [|h hs IH]; [done|]. cbn [List.find].
  change (chain (h :: hs) header (e, no_match)) with
    (chain hs header (or_invoke (e, no_match) (h_desc h) (h_fun h) header)).
  rewrite or_invoke_next. case_bool_decide as Hi.
  - by apply chain_stop, invoke_one_match.
  - by rewrite invoke_one_no_match.
Qed.

Lemma dispatch_chain e header :
  dispatch e header =
  let '(e', result) := chain handlers header (e, no_match) in
  if decide (result = no_match) then refuse_unknown e' header
  else (e', bool_decide (result = handled)).
Proof.
  unfold dispatch, chain, handlers. cbn [fold_left h_desc h_fun]. by rewrite or_invoke_next.
Qed.

Lemma dispatch_table e header :
  dispatch e header =
  match handler_for (fh_id header) with
  | Some h => invoke_handler h e header
  | None => refuse_unknown e header
  end.
Proof.
  rewrite dispatch_chain, chain_find. unfold handler_for.
  destruct (List.find _ handlers) as [h|] eqn:Ef; [|by rewrite decide_True].
  apply find_some in Ef as [_ Hi%bool_decide_eq_true]. unfold invoke_handler.
  pose proof (invoke_one_match (h_desc h) (h_fun h) e header Hi) as Hm.
  destruct (invoke_one _ _ e header) as [e' r]. by rewrite decide_False.
Qed.

Lemma handlers_ok :
  Forall (fun h => desc_ok (h_desc h) /\ handler_for (d_id (h_desc h)) = Some h) handlers.
Proof.
  unfold handlers.
  repeat (apply Forall_cons_2;
    [split; [split; [exact I|discriminate]|reflexivity]|]).
  apply Forall_nil_2.
Qed.

Lemma handlers_desc_ok h :
  In h handlers -> desc_ok (h_desc h) /\ handler_for (d_id (h_desc h)) = Some h.
Proof. intros Hh. exact (proj1 (Forall_forall _ _) handlers_ok h Hh). Qed.
(** ** One turn of the server on a connection without hard errors *)

Section OnStream.
Context `{!PosixLaws E, !Stream E}.
Implicit Types e : Engine (server E).

(** A well-formed request is answered by its handler with exactly one frame,
    nothing else is written, and the loop goes on. *)
Lemma serve_step_answers e h (req : d_req (h_desc h)) bs :
  In h handlers -> stream_ok (fd_ e) -> rx (fd_ e) = frame (d_id (h_desc h)) req ++ bs ->
  (forall s, io_step (fd_ e) s bs (tx (fd_ e)) -> stream_ok (h_fun h s req).1) ->
  exists s w, io_step (fd_ e) s bs (tx (fd_ e)) /\
    serve_step e = (MkEngine w ec_none, true) /\
    io_step (h_fun h s req).1 w (rx (h_fun h s req).1)
      (tx (h_fun h s req).1 ++ frame (d_id (h_desc h)) (h_fun h s req).2).
Proof using PosixLaws0.
  intros Hh Hok Hrx HF. destruct (handlers_desc_ok h Hh) as [[Hwf Herr] Hfor].
  destruct (receive_frame_header e _ _ _ Hok Hwf Hrx) as (s0 & E0 & Hok0 & Hrx0 & Htx0 & Hre0).
  destruct (invoke_one_ok (h_desc h) (h_fun h) (MkEngine s0 ec_none)
    (MkFrameHeader (d_id (h_desc h)) (Z.of_nat (wt_size (d_req (h_desc h))))) req bs
    (fun s => (h_fun h s req).1) (fun s => (h_fun h s req).2) Hok0 eq_refl eq_refl Hrx0)
    as (s & w & Hio & Einv & Hio2).
  { intros s (Hs1 & Hs2 & Hs3 & Hs4). cbn [fd_] in *. split; [by destruct (h_fun h s req)|].
    apply HF. unfold io_step. rewrite Hs2, Hs3, Hs4. auto. }
  exists s, w. unfold io_step in Hio; cbn [fd_] in Hio. rewrite Htx0, Hre0 in Hio.
  split; [done|]. unfold serve_step. rewrite E0, dispatch_table. cbn [fh_id].
  rewrite Hfor. unfold invoke_handler. rewrite Einv. by split.
Qed.

(** An id outside the catalog: the payload is discarded, an error frame is
    sent and the connection is given up. *)
Lemma serve_step_unknown e {T} `{WireType T} i (x : T) bs :
  stream_ok (fd_ e) -> api_id_wf i -> handler_for i = None ->
  rx (fd_ e) = frame i x ++ bs ->
  exists w code, serve_step e = (MkEngine w code, false) /\
    io_step (fd_ e) w bs (tx (fd_ e) ++ error_frame ec_unknown_api).
Proof using PosixLaws0.
  intros Hok Hwf Hfor Hrx.
  destruct (receive_frame_header e i x bs Hok Hwf Hrx) as (s0 & E0 & Hok0 & Hrx0 & Htx0 & Hre0).
  unfold serve_step. rewrite E0, dispatch_table. cbn [fh_id]. rewrite Hfor.
  unfold refuse_unknown. cbn [fh_size]. pose proof (wt_size_bound (T := T)) as Hb.
  destruct (discard_payload_stream (MkEngine s0 ec_none) (Z.of_nat (wt_size T)))
    as (s1 & E1 & Hok1 & Hrx1 & Htx1 & Hre1); cbn [fd_]; [done|lia| |].
  { rewrite Hrx0, length_app, encode_length. lia. }
  rewrite E1. cbn [negb last_error_]. unfold send_error.
  destruct (send_stream (MkEngine s1 ec_none) id_error
    (MkErrorResp (to_le32 (error_code_to_u32 ec_unknown_api))) Hok1)
    as (s2 & E2 & Hok2 & Hrx2 & Htx2 & Hre2).
  rewrite E2. exists s2, ec_none. split; [done|]. unfold io_step. cbn [fd_] in *.
  rewrite Nat2Z.id, Hrx0, drop_app_exact in Hrx1 by (by rewrite encode_length).
  rewrite Hrx2, Htx2, Hre2, Htx1, Hre1, Hrx1, Htx0, Hre0. auto.
Qed.

(** A known id with a payload of another size: an error frame, and the
    connection is given up with the payload unread. *)
Lemma serve_step_mismatch e h {T} `{WireType T} (x : T) bs :
  In h handlers -> stream_ok (fd_ e) -> wt_size T <> wt_size (d_req (h_desc h)) ->
  rx (fd_ e) = frame (d_id (h_desc h)) x ++ bs ->
  exists w, serve_step e = (MkEngine w ec_payload_mismatch, false) /\
    io_step (fd_ e) w (encode x ++ bs) (tx (fd_ e) ++ error_frame ec_payload_mismatch).
Proof using PosixLaws0.
  intros Hh Hok Hsz Hrx. destruct (handlers_desc_ok h Hh) as [[Hwf Herr] Hfor].
  destruct (receive_frame_header e _ _ _ Hok Hwf Hrx) as (s0 & E0 & Hok0 & Hrx0 & Htx0 & Hre0).
  unfold serve_step. rewrite E0, dispatch_table. cbn [fh_id]. rewrite Hfor.
  unfold invoke_handler.
  destruct (invoke_one_mismatch (h_desc h) (h_fun h) (MkEngine s0 ec_none)
    (MkFrameHeader (d_id (h_desc h)) (Z.of_nat (wt_size T)))) as (w & E1 & Hio);
    [done..|cbn; lia|].
  rewrite E1. exists w. split; [done|]. unfold io_step in *. cbn [fd_] in Hio.
  by rewrite Hrx0, Htx0, Hre0 in Hio.
Qed.

(** Twelve bytes that are not an acceptable header: one error frame naming
    the reason, and the connection is given up. *)
Lemma serve_step_bad_header e code :
  stream_ok (fd_ e) -> (12 <= length (rx (fd_ e)))%nat ->
  parse_header (take 12 (rx (fd_ e))) = inl code ->
  exists w, serve_step e = (MkEngine w code, false) /\
    io_step (fd_ e) w (drop 12 (rx (fd_ e))) (tx (fd_ e) ++ error_frame code).
Proof using PosixLaws0.
  intros Hok Hl Hp.
  destruct (receive_header_stream e Hok Hl) as (w0 & (Hok0 & Hrx0 & Htx0 & Hre0) & E0).
  rewrite Hp in E0. unfold serve_step. rewrite E0. cbn [last_error_].
  assert (Hc : code <> ec_none).
  { unfold parse_header in Hp. cbn zeta in Hp.
    destruct (negb _); [by simplify_eq|]. by destruct (_ <? _); simplify_eq. }
  rewrite decide_True by done. unfold send_error.
  destruct (send_stream (MkEngine w0 code) id_error
    (MkErrorResp (to_le32 (error_code_to_u32 code))) Hok0) as (w & E1 & Hio).
  rewrite E1. exists w. split; [done|]. unfold io_step in *. cbn [fd_] in Hio.
  by rewrite Hrx0, Htx0, Hre0 in Hio.
Qed.
End OnStream.

(** ** The announcement wait *)

(** One poll of the announcement queue. *)
Definition poll_annce (s : server E) : server E * Z :=
  in_env (fun w => zigbee_wait_annce w k_annce_slice_ms) s.

Definition client_waiting (s : server E) : bool :=
  ppp_uart_is_connected (s_env s) && client_connected s.

(** At most [n] polls, each made while the client is there, ending at the
    first announcement. *)
Inductive annce_wait : nat -> server E -> server E -> Z -> Prop :=
  | annce_timeout s : annce_wait 0 s s 0
  | annce_gone n s : client_waiting s = false -> annce_wait (S n) s s 0
  | annce_found n s s' v :
      client_waiting s = true -> poll_annce s = (s', v) -> v <> 0 -> annce_wait (S n) s s' v
  | annce_again n s s1 s' v :
      client_waiting s = true -> poll_annce s = (s1, 0) -> annce_wait n s1 s' v ->
      annce_wait (S n) s s' v.

Lemma wait_annce_loop_polls n : forall s,
  Z.of_nat n * k_annce_slice_ms < 2 ^ 32 ->
  exists s' v, wait_annce_loop n s (Z.of_nat n * k_annce_slice_ms) = Some (s', v) /\
    annce_wait n s s' v.
Proof.
  unfold k_annce_slice_ms. induction n as [|n IH]; intros s Hn.
  { exists s, 0. split; [done | constructor]. }
  cbn [wait_annce_loop]. rewrite (proj2 (Z.ltb_lt _ _)) by lia.
  destruct (negb (ppp_uart_is_connected (s_env s)) || negb (client_connected s)) eqn:Hgone.
  all: rewrite <- negb_andb in Hgone; fold (client_waiting s) in Hgone.
  { exists s, 0. split; [done|]. apply annce_gone. by apply negb_true_iff. }
  apply negb_false_iff in Hgone.
  unfold k_annce_slice_ms. rewrite (proj2 (Z.ltb_ge _ _)) by lia.
  change (in_env (fun w => zigbee_wait_annce w 250) s) with (poll_annce s).
  destruct (poll_annce s) as [s1 v] eqn:Ep. destruct (Z.eqb_spec v 0) as [->|Hv]; cbn [negb].
  - rewrite u32_id by (unfold is_u32; lia).
    replace (Z.of_nat (S n) * 250 - 250) with (Z.of_nat n * 250) by lia.
    destruct (IH s1) as (s' & v & Ew & Ha); [lia|]. exists s', v. split; [done|].
    by eapply annce_again.
  - exists s1, v. split; [done|]. by eapply annce_found.
Qed.

Lemma handle_wait_annce_polls (s : server E) r :
  exists s' v, handle_wait_annce s r = (s', MkU16Resp (to_le16 v)) /\ annce_wait 720 s s' v.
Proof.
  destruct (wait_annce_loop_polls 720 s) as (s' & v & Ew & Ha); [reflexivity|].
  exists s', v. split; [|done]. unfold handle_wait_annce, wait_annce_fuel.
  change k_annce_timeout_ms with (Z.of_nat 720 * k_annce_slice_ms). by rewrite Ew.
Qed.
End Facts.
