(* ===== verification/Device.v ===== *)
(** * The coordinator as the server sees it

    [device F] puts together what rpc_server.cpp runs on: a connection
    ([socket]), a firmware [F] with the Zigbee API, and the state of the PPP
    link.  [served F] is what the RPC promises of [F]: its own functions, with
    the timeouts of the server in place of the caller's and the announcement
    wait cut into slices. *)

From Stdlib Require Import ZArith Lia.
From Stdlib Require Import Strings.Byte.
From stdpp Require Import base tactics list numbers option vector.
From S2P Require Import Prelude Protocol Reflection Posix Engine Rpc ZigbeeApi RpcServer RpcServerFacts.

Record device (F : Type) := MkDevice { d_sock : socket; d_fw : F; d_ppp : bool }.

Arguments MkDevice {F} _ _ _.
Arguments d_sock {F} _.
Arguments d_fw {F} _.
Arguments d_ppp {F} _.

Definition on_sock {F A} (f : socket -> socket * A) (d : device F) : device F * A :=
  let '(s, a) := f (d_sock d) in (MkDevice s (d_fw d) (d_ppp d), a).

Definition on_fw {F A} (f : F -> F * A) (d : device F) : device F * A :=
  let '(fw, a) := f (d_fw d) in (MkDevice (d_sock d) fw (d_ppp d), a).

#[export] Instance device_posix {F} : Posix (device F) := {|
  sys_read d n := on_sock (fun s => sys_read s n) d;
  sys_write d bs := on_sock (fun s => sys_write s bs) d;
  io_patience d := io_patience (d_sock d)
|}.

#[export] Instance device_api {F} `{ZigbeeApi F} : ZigbeeApi (device F) := {|
  zigbee_get_short_addr := on_fw zigbee_get_short_addr;
  zigbee_get_panid := on_fw zigbee_get_panid;
  zigbee_get_channel := on_fw zigbee_get_channel;
  zigbee_get_sensor_addr := on_fw zigbee_get_sensor_addr;
  zigbee_open_network w d := on_fw (fun f => zigbee_open_network f d) w;
  zigbee_wait_annce w t := on_fw (fun f => zigbee_wait_annce f t) w;
  zigbee_find_sensor w a t := on_fw (fun f => zigbee_find_sensor f a t) w;
  zigbee_read_basic w a e t := on_fw (fun f => zigbee_read_basic f a e t) w;
  zigbee_bind_sensor w a e t := on_fw (fun f => zigbee_bind_sensor f a e t) w;
  zigbee_subscribe_sensor w a e t := on_fw (fun f => zigbee_subscribe_sensor f a e t) w;
  zigbee_config_report w a e t := on_fw (fun f => zigbee_config_report f a e t) w;
  zigbee_read_temp w a e t := on_fw (fun f => zigbee_read_temp f a e t) w;
  zigbee_get_last_temp := on_fw zigbee_get_last_temp
|}.

(** An open connection: peeking finds data, or would block. *)
#[export] Instance device_env {F} : ServerEnv (device F) := {|
  ppp_uart_is_connected := d_ppp;
  recv_peek d _ :=
    match so_rx (d_sock d) with
    | [] => SysErr EAGAIN
    | _ => SysOk 1%nat
    end
|}.

#[export] Instance device_posix_laws {F} : PosixLaws (device F).
Proof. posix_component (@d_sock F) on_sock. Qed.

#[export] Program Instance device_stream {F} : Stream (device F) := {|
  world_rest := F * bool;
  rest d := (d_fw d, d_ppp d);
  rx d := so_rx (d_sock d);
  tx d := so_tx (d_sock d);
  stream_ok d := socket_ok (d_sock d)
|}.
Next Obligation.
  intros F [s fw ppp] n Hok Hn. cbn in *.
  destruct (@stream_read socket _ socket_stream s n Hok Hn) as (s' & Hok' & Ht & _ & Hc).
  exists (MkDevice s' fw ppp). unfold on_sock; cbn -[socket_read] in *.
  split_and!; [done..|]. destruct Hc as [[E Hrx]|(bs & Hbs & E & Hrx)]; rewrite E;
    [by left|]. right. eauto.
Qed.
Next Obligation.
  intros F [s fw ppp] bs Hok Hn. cbn in *.
  destruct (@stream_write socket _ socket_stream s bs Hok Hn) as (s' & Hok' & Hr & _ & Hc).
  exists (MkDevice s' fw ppp). unfold on_sock; cbn -[socket_write] in *.
  split_and!; [done..|]. destruct Hc as [[E Ht]|(k & Hk & E & Ht)]; rewrite E;
    [by left|]. right. eauto.
Qed.

(** ** What the RPC promises *)

Record served (F : Type) := Served { sv_fw : F }.

Arguments Served {F} _.
Arguments sv_fw {F} _.

Section Served.
Context {F : Type} `{ZigbeeApi F}.

Definition on_served {A} (f : F -> F * A) (s : served F) : served F * A :=
  let '(fw, a) := f (sv_fw s) in (Served fw, a).

(** At most [n] slices of 250 ms, ending at the first announcement. *)
Fixpoint sliced_wait (n : nat) (f : F) : F * Z :=
  match n with
  | O => (f, 0)
  | S n =>
      let '(f, a) := zigbee_wait_annce f k_annce_slice_ms in
      if negb (a =? 0) then (f, a) else sliced_wait n f
  end.
End Served.

#[export] Instance served_api {F} `{ZigbeeApi F} : ZigbeeApi (served F) := {|
  zigbee_get_short_addr := on_served zigbee_get_short_addr;
  zigbee_get_panid := on_served zigbee_get_panid;
  zigbee_get_channel := on_served zigbee_get_channel;
  zigbee_get_sensor_addr := on_served zigbee_get_sensor_addr;
  zigbee_open_network w d := on_served (fun f => zigbee_open_network f d) w;
  zigbee_wait_annce w _ := on_served (sliced_wait 720) w;
  zigbee_find_sensor w a _ := on_served (fun f => zigbee_find_sensor f a k_rpc_timeout_ms) w;
  zigbee_read_basic w a e _ := on_served (fun f => zigbee_read_basic f a e k_rpc_timeout_ms) w;
  zigbee_bind_sensor w a e _ := on_served (fun f => zigbee_bind_sensor f a e k_rpc_timeout_ms) w;
  zigbee_subscribe_sensor w a e _ :=
    on_served (fun f => zigbee_subscribe_sensor f a e k_rpc_timeout_ms) w;
  zigbee_config_report w a e _ :=
    on_served (fun f => zigbee_config_report f a e k_rpc_timeout_ms) w;
  zigbee_read_temp w a e _ := on_served (fun f => zigbee_read_temp f a e k_rpc_timeout_ms) w;
  zigbee_get_last_temp := on_served zigbee_get_last_temp
|}.
