(* ===== verification/Keeps.v ===== *)
(** * What the RPC layer leaves alone

    The engine, the server's dispatch and the client's stubs only touch the
    world through the system calls of [Posix] and the functions of
    [ZigbeeApi].  So whatever those keep ([PosixKeeps P], [ApiKeeps P] for a
    predicate [P] of worlds), a call, an invocation, a turn of the server and
    a run of the application keep too.  The descriptors a program holds are
    such a predicate. *)

From Stdlib Require Import ZArith Lia.
From Stdlib Require Import Strings.Byte.
From stdpp Require Import base tactics list numbers option.
From S2P Require Import Prelude Protocol Reflection Posix Engine ZigbeeApi RpcServer RpcServerFacts.

Class PosixKeeps {W} `{Posix W} (P : W -> Prop) : Prop := {
  read_keeps w n : P w -> P (sys_read w n).1;
  write_keeps w bs : P w -> P (sys_write w bs).1
}.

Class ApiKeeps {W} `{ZigbeeApi W} (P : W -> Prop) : Prop := {
  keeps_get_short_addr w : P w -> P (zigbee_get_short_addr w).1;
  keeps_get_panid w : P w -> P (zigbee_get_panid w).1;
  keeps_get_channel w : P w -> P (zigbee_get_channel w).1;
  keeps_get_sensor_addr w : P w -> P (zigbee_get_sensor_addr w).1;
  keeps_open_network w d : P w -> P (zigbee_open_network w d).1;
  keeps_wait_annce w t : P w -> P (zigbee_wait_annce w t).1;
  keeps_find_sensor w a t : P w -> P (zigbee_find_sensor w a t).1;
  keeps_read_basic w a e t : P w -> P (zigbee_read_basic w a e t).1;
  keeps_bind_sensor w a e t : P w -> P (zigbee_bind_sensor w a e t).1;
  keeps_subscribe_sensor w a e t : P w -> P (zigbee_subscribe_sensor w a e t).1;
  keeps_config_report w a e t : P w -> P (zigbee_config_report w a e t).1;
  keeps_read_temp w a e t : P w -> P (zigbee_read_temp w a e t).1;
  keeps_get_last_temp w : P w -> P (zigbee_get_last_temp w).1
}.

(** ** The engine *)

Section Engine.
Context {W : Type} `{Posix W} (P : W -> Prop) `{!PosixKeeps P}.
Implicit Types (w : W) (e : Engine W).

Lemma write_loop_keeps fuel : forall w bs w' r,
  P w -> write_loop fuel w bs = Some (w', r) -> P w'.
Proof.
  induction fuel as [|fuel IH]; intros w [|b bs] w' r Hw Hr; cbn in Hr; simplify_eq; try done.
  pose proof (write_keeps w (b :: bs) Hw) as Hk.
  destruct (sys_write w (b :: bs)) as [w1 [[|k]|e]]; simplify_eq/=; [done|eauto|].
  case_bool; simplify_eq; eauto.
Qed.

Lemma write_all_keeps w bs : P w -> P (write_all w bs).1.
Proof.
  intros Hw. unfold write_all. destruct (write_loop _ w bs) as [[w' r]|] eqn:E; [|done].
  cbn. eauto using write_loop_keeps.
Qed.

Lemma read_loop_keeps fuel : forall w size acc w' r,
  P w -> read_loop fuel w size acc = Some (w', r) -> P w'.
Proof.
  induction fuel as [|fuel IH]; intros w [|size] acc w' r Hw Hr; cbn in Hr; simplify_eq; try done.
  pose proof (read_keeps w (S size) Hw) as Hk.
  destruct (sys_read w (S size)) as [w1 [[|b bs]|e]]; simplify_eq/=; [done|eauto|].
  case_bool; simplify_eq; eauto.
Qed.

Lemma read_all_keeps w n : P w -> P (read_all w n).1.
Proof.
  intros Hw. unfold read_all. destruct (read_loop _ w n []) as [[w' r]|] eqn:E; [|done].
  cbn. eauto using read_loop_keeps.
Qed.

(** [keep m as w r]: name the outcome of the step [m] and what it keeps. *)
Ltac keep lem x :=
  let H := fresh "Hk" in
  pose proof lem as H; destruct x; cbn [fst snd] in H.

Lemma receive_header_keeps e : P (fd_ e) -> P (fd_ (receive_header e).1).
Proof.
  intros He. unfold receive_header.
  keep (read_all_keeps (fd_ e) (wt_size WireHeader) He) (read_all (fd_ e) (wt_size WireHeader)).
  by repeat (case_match; cbn).
Qed.

Lemma receive_payload_keeps T `{WireType T} e h :
  P (fd_ e) -> P (fd_ (receive_payload T e h).1).
Proof.
  intros He. unfold receive_payload.
  keep (read_all_keeps (fd_ e) (wt_size T) He) (read_all (fd_ e) (wt_size T)).
  by repeat (case_match; cbn).
Qed.

Lemma send_id_keeps e i : P (fd_ e) -> P (fd_ (send_id e i).1).
Proof.
  intros He. unfold send_id. cbv zeta.
  match goal with |- context [write_all ?w ?b] => keep (write_all_keeps w b He) (write_all w b) end.
  done.
Qed.

Lemma send_keeps {T} `{WireType T} e i (x : T) : P (fd_ e) -> P (fd_ (send e i x).1).
Proof.
  intros He. unfold send. cbv zeta. destruct (is_empty_req T); [by apply send_id_keeps|].
  match goal with |- context [write_all ?w ?b] => keep (write_all_keeps w b He) (write_all w b) end.
  case_match; [|done].
  match goal with |- context [write_all ?w ?b] => keep (write_all_keeps w b Hk) (write_all w b) end.
  done.
Qed.

Lemma discard_loop_keeps fuel : forall w size w' r,
  P w -> discard_loop fuel w size = Some (w', r) -> P w'.
Proof.
  induction fuel as [|fuel IH]; intros w size w' r Hw Hr; cbn [discard_loop] in Hr;
    (destruct (0 <? size); [|by simplify_eq]); [done|]. cbv zeta in Hr.
  match type of Hr with context [read_all w ?n] =>
    keep (read_all_keeps w n Hw) (read_all w n) end.
  case_match; simplify_eq; eauto.
Qed.

Lemma discard_payload_keeps e size : P (fd_ e) -> P (fd_ (discard_payload e size).1).
Proof.
  intros He. unfold discard_payload.
  destruct (discard_loop _ _ _) as [[w r]|] eqn:E; [|done]. cbn. eauto using discard_loop_keeps.
Qed.

Lemma await_response_keeps d e : P (fd_ e) -> P (fd_ (await_response d e).1).
Proof.
  intros He. unfold await_response.
  keep (receive_header_keeps e He) (receive_header e). case_match; [|done].
  repeat case_decide.
  - keep (receive_payload_keeps ErrorResp e0 f Hk) (receive_payload ErrorResp e0 f). done.
  - keep (discard_payload_keeps e0 (fh_size f) Hk) (discard_payload e0 (fh_size f)). done.
  - by apply receive_payload_keeps.
Qed.

Lemma call_keeps d e (r : d_req d) : P (fd_ e) -> P (fd_ (call d e r).1).
Proof.
  intros He. unfold call. keep (send_keeps e (d_id d) r He) (send e (d_id d) r).
  case_match; [by apply await_response_keeps|done].
Qed.

Lemma call_empty_keeps d e : P (fd_ e) -> P (fd_ (call_empty d e).1).
Proof.
  intros He. unfold call_empty. keep (send_id_keeps e (d_id d) He) (send_id e (d_id d)).
  case_match; [by apply await_response_keeps|done].
Qed.

Lemma send_error_keeps e c : P (fd_ e) -> P (fd_ (send_error e c).1).
Proof. apply send_keeps. Qed.

Lemma invoke_one_keeps d F e h :
  (forall w r, P w -> P (F w r).1) -> P (fd_ e) -> P (fd_ (invoke_one d F e h).1).
Proof.
  intros HF He. unfold invoke_one. case_decide; [done|].
  keep (receive_payload_keeps (d_req d) e h He) (receive_payload (d_req d) e h).
  case_match.
  - keep (HF (fd_ e0) d0 Hk) (F (fd_ e0) d0).
    match goal with |- context [send ?x ?i ?y] => keep (send_keeps x i y Hk0) (send x i y) end.
    done.
  - case_decide; [|done].
    keep (send_error_keeps e0 (last_error_ e0) Hk) (send_error e0 (last_error_ e0)). done.
Qed.
End Engine.

(** ** The server *)

Section Server.
Context {E : Type} `{Posix E, ZigbeeApi E, ServerEnv E}.
Context (P : E -> Prop) `{!PosixKeeps P, !ApiKeeps P} (fd : Z).
Implicit Types (s : server E) (e : Engine (server E)).

(** [P] of the environment, and [fd] is the client being served. *)
Definition serving s : Prop := P (s_env s) /\ s_client_fd s = fd.

Lemma in_env_keeps {A} (f : E -> E * A) s :
  (forall w, P w -> P (f w).1) -> serving s -> serving (in_env f s).1.
Proof.
  intros Hf [Hs Hc]. unfold in_env. specialize (Hf _ Hs).
  by destruct (f (s_env s)).
Qed.

#[export] Instance serving_posix_keeps : PosixKeeps serving.
Proof.
  split; intros s x Hs; apply in_env_keeps; auto; intros; [by apply read_keeps|by apply write_keeps].
Qed.

Lemma wait_annce_loop_keeps fuel : forall s r s' v,
  serving s -> wait_annce_loop fuel s r = Some (s', v) -> serving s'.
Proof.
  induction fuel as [|fuel IH]; intros s r s' v Hs Hr; cbn [wait_annce_loop] in Hr;
    (destruct (0 <? r); [|by simplify_eq]); [done|].
  case_match; [by simplify_eq|]. cbv zeta in Hr.
  match type of Hr with context [in_env ?f s] =>
    pose proof (in_env_keeps f s ltac:(intros; by apply keeps_wait_annce) Hs) as Hk;
    destruct (in_env f s) end.
  case_match; simplify_eq; eauto.
Qed.

Ltac handler_keeps op :=
  let Hs := fresh "Hs" in let Hk := fresh "Hk" in intros Hs; unfold op;
  match goal with |- context [in_env ?f ?s] =>
    pose proof (in_env_keeps f s) as Hk; destruct (in_env f s) end;
  apply Hk; [|done]; intros;
  first [ by apply keeps_get_short_addr | by apply keeps_get_panid | by apply keeps_get_channel
        | by apply keeps_get_sensor_addr | by apply keeps_open_network | by apply keeps_find_sensor
        | by apply keeps_read_basic | by apply keeps_bind_sensor | by apply keeps_subscribe_sensor
        | by apply keeps_config_report | by apply keeps_read_temp | by apply keeps_get_last_temp ].

Lemma handler_keeps h : In h handlers -> forall s r, serving s -> serving (h_fun h s r).1.
Proof.
  intros Hh s r. repeat (destruct Hh as [<-|Hh]); [..|done]; cbn [h_fun h_desc] in *.
  - handler_keeps @handle_get_short_addr.
  - handler_keeps @handle_get_panid.
  - handler_keeps @handle_get_channel.
  - handler_keeps @handle_open_network.
  - intros Hs. unfold handle_wait_annce.
    destruct (wait_annce_loop _ _ _) as [[s' v]|] eqn:E1; [|done].
    cbn. eauto using wait_annce_loop_keeps.
  - handler_keeps @handle_find_sensor.
  - handler_keeps @handle_read_basic.
  - handler_keeps @handle_bind_sensor.
  - handler_keeps @handle_subscribe_sensor.
  - handler_keeps @handle_config_report.
  - handler_keeps @handle_read_temp.
  - handler_keeps @handle_get_last_temp.
  - handler_keeps @handle_get_sensor_addr.
Qed.

Lemma dispatch_keeps e h : serving (fd_ e) -> serving (fd_ (dispatch e h).1).
Proof.
  intros He. rewrite dispatch_table. unfold handler_for.
  destruct (List.find _ handlers) as [hd|] eqn:Ef.
  - apply find_some in Ef as [Hin _]. unfold invoke_handler.
    pose proof (invoke_one_keeps serving (h_desc hd) (h_fun hd) e h (handler_keeps hd Hin) He).
    by destruct (invoke_one _ _ _ _).
  - unfold refuse_unknown. pose proof (discard_payload_keeps serving e (fh_size h) He) as Hk.
    destruct (discard_payload _ _) as [e1 ok]. cbn in Hk. case_match; [done|].
    pose proof (send_error_keeps serving e1 ec_unknown_api Hk) as Hk2.
    by destruct (send_error _ _).
Qed.

Lemma serve_step_keeps e : serving (fd_ e) -> serving (fd_ (serve_step e).1).
Proof.
  intros He. unfold serve_step. pose proof (receive_header_keeps serving e He) as Hk.
  destruct (receive_header e) as [e1 [h|]]; cbn [fst] in Hk; [by apply dispatch_keeps|].
  case_decide; [|done]. pose proof (send_error_keeps serving e1 (last_error_ e1) Hk) as Hk2.
  by destruct (send_error _ _).
Qed.

Lemma serve_loop_keeps fuel : forall e e',
  serving (fd_ e) -> serve_loop fuel e = Some e' -> serving (fd_ e').
Proof.
  induction fuel as [|fuel IH]; intros e e' He Hl; cbn [serve_loop] in Hl; [done|].
  case_match; [|by simplify_eq]. pose proof (serve_step_keeps e He) as Hk.
  destruct (serve_step e) as [e1 go]. case_match; simplify_eq; eauto.
Qed.
End Server.
