(* ===== verification/RpcTask.v ===== *)
(** * The RPC server's task, [server_task] of zb_rpc_server/main/rpc_server.cpp, and an executable network it runs on

    The task never returns, so it is a state machine whose states are the
    heads of its three loops: waiting for the PPP link, accepting on a
    listener, and [serve_client]'s loop for one client.  [task_step] runs the
    code from one loop head to the next.  [board (device F)] is its
    executable environment. *)

From Stdlib Require Import ZArith Lia Strings.Byte Strings.String.
From stdpp Require Import base tactics list numbers option gmap.
From S2P Require Import Prelude Protocol Reflection Posix Engine ZigbeeApi RpcServer RpcServerFacts Sockets.
From S2P Require Import Keeps Device.

Definition portMAX_DELAY : Z := 2 ^ 32 - 1.

(** What the task uses of ppp_uart.c and FreeRTOS; [vTaskDelay_ms n] is
    [vTaskDelay(pdMS_TO_TICKS(n))]. *)
Class TaskEnv (E : Type) := {
  CONFIG_PPP_TCP_SERVER_PORT : Z;
  ppp_uart_wait_connected : Z -> St E bool;
  vTaskDelay_ms : Z -> St E unit
}.

Class TaskEnvLaws (E : Type) `{TaskEnv E, Ledger E} : Prop := {
  wait_connected_balanced t : balanced (ppp_uart_wait_connected t);
  delay_balanced t : balanced (vTaskDelay_ms t)
}.

Inductive task_pc :=
  | AtWait
  | AtAccept (listener : Z)
  | Serving (listener client : Z) (last_error : error_code).

Section Task.
Context {E : Type} `{Posix E, ZigbeeApi E, ServerEnv E, Sockets E, TaskEnv E}.
Implicit Types s : server E.

(** [close(listener)], and back to the wait for PPP. *)
Definition stop_listening (listener : Z) s : task_pc * server E :=
  let '(s, _) := in_env (sys_close listener) s in (AtWait, s).

(** The end of [serve_client] and the two calls after it. *)
Definition hang_up (listener client : Z) s : task_pc * server E :=
  let s := MkServer (-1) (s_env s) in
  let '(s, _) := in_env (sys_shutdown client SHUT_RDWR) s in
  let '(s, _) := in_env (sys_close client) s in
  (AtAccept listener, s).

Definition task_step (t : task_pc * server E) : task_pc * server E :=
  let '(pc, s) := t in
  match pc with
  | AtWait =>
      let '(s, _) := in_env (ppp_uart_wait_connected portMAX_DELAY) s in
      let '(s, listener) := in_env (create_listener CONFIG_PPP_TCP_SERVER_PORT) s in
      if listener <? 0 then
        let '(s, _) := in_env (vTaskDelay_ms 1000) s in (AtWait, s)
      else (AtAccept listener, s)
  | AtAccept listener =>
      if ppp_uart_is_connected (s_env s) then
        let '(s, client) := in_env (sys_accept listener) s in
        if client <? 0 then
          if (errno (s_env s) =? EAGAIN) || (errno (s_env s) =? EWOULDBLOCK)
          then (AtAccept listener, s)
          else stop_listening listener s
        else (Serving listener client ec_none, MkServer client (s_env s))
      else stop_listening listener s
  | Serving listener client code =>
      if ppp_uart_is_connected (s_env s) then
        let '(e, go) := serve_step (MkEngine s code) in
        if go then (Serving listener client (last_error_ e), fd_ e)
        else hang_up listener client (fd_ e)
      else hang_up listener client s
  end.

(** The task after [n] steps from its start. *)
Definition server_task (n : nat) s : task_pc * server E := Nat.iter n task_step (AtWait, s).

(** ** A client is served by [serve_client], and then released *)

Lemma serve_loop_task l c fuel : forall s code e,
  serve_loop fuel (MkEngine s code) = Some e ->
  exists n, Nat.iter n task_step (Serving l c code, s) = hang_up l c (fd_ e).
Proof.
  induction fuel as [|fuel IH]; intros s code e He; cbn [serve_loop fd_] in He; [done|].
  destruct (ppp_uart_is_connected (s_env s)) eqn:Ec.
  - destruct (serve_step (MkEngine s code)) as [[s1 code1] go] eqn:Es.
    assert (Hst : task_step (Serving l c code, s) =
      if go then (Serving l c code1, s1) else hang_up l c s1)
      by (cbn; rewrite Ec, Es; done).
    destruct go; [|simplify_eq; by exists 1%nat].
    destruct (IH s1 code1 e He) as [n Hn]. exists (S n).
    by rewrite Nat.iter_succ_r, Hst.
  - simplify_eq. exists 1%nat. cbn. by rewrite Ec.
Qed.

Lemma serve_client_task l c fuel s s' :
  serve_client fuel s c = Some s' ->
  exists n, Nat.iter n task_step (Serving l c ec_none, MkServer c (s_env s)) = hang_up l c s'.
Proof.
  unfold serve_client, new_engine. intros Hs. apply bind_Some in Hs as (e & He & [= <-]).
  apply (serve_loop_task l c) in He as [n Hn]. exists n. rewrite Hn. by unfold hang_up.
Qed.

(** ** What the task holds at each loop head *)

Section Holds.
Context `{Ledger E, !SocketLaws E, !TaskEnvLaws E}.
Context `{!forall R, PosixKeeps (owns (W := E) R), !forall R, ApiKeeps (owns (W := E) R)}.
Context (R : gset res).

Inductive task_holds : task_pc * server E -> Prop :=
  | Holds_wait s :
      owns R (s_env s) -> s_client_fd s = -1 -> task_holds (AtWait, s)
  | Holds_accept l s :
      0 <= l -> Fd l ∉ R -> owns ({[Fd l]} ∪ R) (s_env s) -> s_client_fd s = -1 ->
      task_holds (AtAccept l, s)
  | Holds_serving l c code s :
      0 <= l -> Fd l ∉ R -> 0 <= c -> Fd c ∉ ({[Fd l]} ∪ R) ->
      owns ({[Fd c]} ∪ ({[Fd l]} ∪ R)) (s_env s) -> s_client_fd s = c ->
      task_holds (Serving l c code, s).

(** The environment's part of a step in [in_env]. *)
Lemma in_env_step {A} (m : St E A) s s' a (P : E -> Prop) (Q : A -> E -> Prop) :
  hoare P m Q -> P (s_env s) -> in_env m s = (s', a) ->
  Q a (s_env s') /\ s_client_fd s' = s_client_fd s.
Proof.
  intros Hm HP. unfold in_env. specialize (Hm _ HP). destruct (m (s_env s)). by intros [= <- <-].
Qed.

Lemma stop_listening_holds l s :
  Fd l ∉ R -> owns ({[Fd l]} ∪ R) (s_env s) -> s_client_fd s = -1 ->
  task_holds (stop_listening l s).
Proof.
  intros Hl Hs Hc. unfold stop_listening. destruct (in_env (sys_close l) s) as [s' a] eqn:Ei.
  apply (in_env_step _ _ _ _ (owns ({[Fd l]} ∪ R)) (fun _ => owns (({[Fd l]} ∪ R) ∖ {[Fd l]}))) in Ei
    as [Ho Hc']; [|apply close_returns; set_solver|done].
  constructor; [|congruence]. unfold owns in *. set_solver.
Qed.

Lemma hang_up_holds l c s :
  0 <= l -> Fd l ∉ R -> Fd c ∉ ({[Fd l]} ∪ R) -> owns ({[Fd c]} ∪ ({[Fd l]} ∪ R)) (s_env s) ->
  task_holds (hang_up l c s).
Proof.
  intros Hl0 Hl Hc Hs. unfold hang_up. set (Rc := {[Fd c]} ∪ ({[Fd l]} ∪ R)) in *.
  destruct (in_env (sys_shutdown c SHUT_RDWR) _) as [s1 a1] eqn:E1.
  apply (in_env_step _ _ _ _ (owns Rc) (fun _ => owns Rc)) in E1 as [Ho1 Hc1];
    [|apply shutdown_borrows; set_solver|done].
  destruct (in_env (sys_close c) s1) as [s2 a2] eqn:E2.
  apply (in_env_step _ _ _ _ (owns Rc) (fun _ => owns (Rc ∖ {[Fd c]}))) in E2 as [Ho2 Hc2];
    [|apply close_returns; set_solver|done].
  constructor; [done..| |cbn in *; congruence]. unfold owns in *. set_solver.
Qed.

Lemma task_step_holds t : task_holds t -> task_holds (task_step t).
Proof.
  intros [s Hs Hc|l s Hl0 Hl Hs Hc|l c code s Hl0 Hl Hc0 Hcl Hs Hc]; cbn [task_step].
  - destruct (in_env (ppp_uart_wait_connected _) s) as [s1 a1] eqn:E1.
    apply (in_env_step _ _ _ _ (owns R) (fun _ => owns R)) in E1 as [Ho1 Hc1];
      [|apply wait_connected_balanced|done].
    destruct (in_env (create_listener _) s1) as [s2 l] eqn:E2.
    eapply in_env_step in E2 as [Ho2 Hc2]; [|apply (create_listener_obtains _ R)|done].
    destruct Ho2 as [[Hn Ho2]|(Hn & Hni & Ho2)].
    + rewrite (proj2 (Z.ltb_lt _ _)) by done.
      destruct (in_env (vTaskDelay_ms _) s2) as [s3 a3] eqn:E3.
      apply (in_env_step _ _ _ _ (owns R) (fun _ => owns R)) in E3 as [Ho3 Hc3];
        [|apply delay_balanced|done]. constructor; [done|congruence].
    + rewrite (proj2 (Z.ltb_ge _ _)) by done. constructor; [done..|congruence].
  - destruct (ppp_uart_is_connected _); [|by apply stop_listening_holds].
    destruct (in_env (sys_accept l) s) as [s1 c] eqn:E1.
    eapply in_env_step in E1 as [Ho1 Hc1]; [|apply (accept_obtains l ({[Fd l]} ∪ R)); set_solver|done].
    destruct Ho1 as [[Hn Ho1]|(Hn & Hni & Ho1)].
    + rewrite (proj2 (Z.ltb_lt _ _)) by done.
      case_match; [constructor; [done..|congruence]|].
      apply stop_listening_holds; [done..|congruence].
    + rewrite (proj2 (Z.ltb_ge _ _)) by done. by constructor.
  - destruct (ppp_uart_is_connected _); [|by apply hang_up_holds].
    pose proof (serve_step_keeps (owns ({[Fd c]} ∪ ({[Fd l]} ∪ R))) c (MkEngine s code)
      (conj Hs Hc)) as [Hs1 Hc1].
    destruct (serve_step _) as [e go]. cbn [fst] in *. destruct go; [by constructor|].
    by apply hang_up_holds.
Qed.

Lemma server_task_holds n s :
  owns R (s_env s) -> s_client_fd s = -1 -> task_holds (server_task n s).
Proof.
  intros Hs Hc. unfold server_task. induction n as [|n IH]; [by constructor|].
  by apply task_step_holds.
Qed.
End Holds.
End Task.

(** * An executable network

    [board C] is a connection [C] whose peers come and go through the sockets
    API: it holds descriptors, and [bd_script] says how the next socket calls
    turn out.  [board (device F)] is the executable environment of
    [server_task]. *)

(** [NetFail e]: the call fails with [errno] [e]; [NetClient bs]: [accept]
    finds a client that has sent [bs]. *)
Inductive net_event :=
  | NetOk
  | NetFail (e : Z)
  | NetClient (bs : list byte).

(** What connecting does to the connection: a client that has sent [bs] is
    accepted; nobody is left to come; what was written to it so far. *)
Class Plug (C : Type) := {
  plug_accept : list byte -> C -> C;
  plug_idle : C -> C;
  plug_sent : C -> list byte
}.

Record board (C : Type) := MkBoard {
  bd_dev : C;
  bd_held : gset res;
  bd_next : Z;
  bd_errno : Z;
  bd_script : list net_event;
  bd_sent : list (list byte)
}.

Arguments MkBoard {C} _ _ _ _ _ _.
Arguments bd_dev {C} _.
Arguments bd_held {C} _.
Arguments bd_next {C} _.
Arguments bd_errno {C} _.
Arguments bd_script {C} _.
Arguments bd_sent {C} _.

#[export] Instance board_ledger {C} : Ledger (board C) := bd_held.

Section Board.
Context {C : Type}.
Implicit Types b : board C.

Definition with_dev (d : C) b : board C :=
  MkBoard d (bd_held b) (bd_next b) (bd_errno b) (bd_script b) (bd_sent b).

Definition on_dev {A} (f : C -> C * A) b : board C * A :=
  let '(d, a) := f (bd_dev b) in (with_dev d b, a).

(** The next unused descriptor: above every one in use. *)
Definition fresh_fd b : Z := set_fold (fun r m => Z.max (r.2 + 1) m) (Z.max 3 (bd_next b)) (bd_held b).

(** How the next call turns out; past the script it succeeds. *)
Definition next_event : St (board C) net_event := fun b =>
  match bd_script b with
  | [] => (b, NetOk)
  | e :: es => (MkBoard (bd_dev b) (bd_held b) (bd_next b) (bd_errno b) es (bd_sent b), e)
  end.

Definition fail_with (e : Z) : St (board C) Z := fun b =>
  (MkBoard (bd_dev b) (bd_held b) (bd_next b) e (bd_script b) (bd_sent b), -1).

Definition open_fd : St (board C) Z := fun b =>
  let fd := fresh_fd b in
  (MkBoard (bd_dev b) ({[Fd fd]} ∪ bd_held b) (bd_next b) (bd_errno b) (bd_script b) (bd_sent b), fd).

Definition scripted (m : St (board C) Z) : St (board C) Z :=
  e ← next_event;
  match e with NetFail e => fail_with e | _ => m end.

(** With nobody left to come [accept] times out. *)
Definition board_accept `{Plug C} (_ : Z) : St (board C) Z := fun b =>
  match bd_script b with
  | [] => fail_with EAGAIN (with_dev (plug_idle (bd_dev b)) b)
  | NetClient bs :: es =>
      open_fd (MkBoard (plug_accept bs (bd_dev b)) (bd_held b) (bd_next b) (bd_errno b) es
                       (bd_sent b))
  | _ => scripted (fail_with EAGAIN) b
  end.

Definition board_close (fd : Z) : St (board C) Z := fun b =>
  (MkBoard (bd_dev b) (bd_held b ∖ {[Fd fd]}) (bd_next b) (bd_errno b) (bd_script b) (bd_sent b), 0).

(** Shutting a connection down delivers what was written to it. *)
Definition board_shutdown `{Plug C} (fd how : Z) : St (board C) Z := fun b =>
  (MkBoard (bd_dev b) (bd_held b) (bd_next b) (bd_errno b) (bd_script b)
           (bd_sent b ++ [plug_sent (bd_dev b)]), 0).

#[export] Instance board_sockets `{Plug C} : Sockets (board C) := {|
  sys_socket _ := scripted open_fd;
  sys_setsockopt _ _ := mret 0;
  sys_bind _ _ := scripted (mret 0);
  sys_listen _ _ := scripted (mret 0);
  sys_accept := board_accept;
  sys_connect _ _ := scripted (mret 0);
  sys_shutdown := board_shutdown;
  sys_close := board_close;
  errno := bd_errno;
  inet_pton _ := Some 0;
  htons z := z;
  htonl z := z
|}.

#[export] Instance board_posix `{Posix C} : Posix (board C) := {|
  sys_read b n := on_dev (fun d => sys_read d n) b;
  sys_write b bs := on_dev (fun d => sys_write d bs) b;
  io_patience b := io_patience (bd_dev b)
|}.

#[export] Instance board_posix_laws `{Posix C, !PosixLaws C} : PosixLaws (board C).
Proof. posix_component (@bd_dev C) on_dev. Qed.

End Board.

(** A bare connection: a client's bytes arrive in an empty socket. *)
#[export] Instance socket_plug : Plug socket := {|
  plug_accept bs _ := MkSocket bs [] [];
  plug_idle s := s;
  plug_sent := so_tx
|}.

(** The coordinator: when nobody is left to come its PPP link goes down. *)
#[export] Instance device_plug {F} : Plug (device F) := {|
  plug_accept bs d := MkDevice (MkSocket bs [] []) (d_fw d) (d_ppp d);
  plug_idle d := MkDevice (d_sock d) (d_fw d) false;
  plug_sent d := so_tx (d_sock d)
|}.

#[export] Instance board_env {F} : ServerEnv (board (device F)) := {|
  ppp_uart_is_connected b := d_ppp (bd_dev b);
  recv_peek b fd := recv_peek (bd_dev b) fd
|}.
#[export] Instance board_task_env {F} : TaskEnv (board (device F)) := {|
  CONFIG_PPP_TCP_SERVER_PORT := 5555;
  ppp_uart_wait_connected _ b :=
    (with_dev (MkDevice (d_sock (bd_dev b)) (d_fw (bd_dev b)) true) b, true);
  vTaskDelay_ms _ := mret tt
|}.



#[export] Instance board_api {C} `{ZigbeeApi C} : ZigbeeApi (board C) := {|
  zigbee_get_short_addr := on_dev zigbee_get_short_addr;
  zigbee_get_panid := on_dev zigbee_get_panid;
  zigbee_get_channel := on_dev zigbee_get_channel;
  zigbee_get_sensor_addr := on_dev zigbee_get_sensor_addr;
  zigbee_open_network w d := on_dev (fun f => zigbee_open_network f d) w;
  zigbee_wait_annce w t := on_dev (fun f => zigbee_wait_annce f t) w;
  zigbee_find_sensor w a t := on_dev (fun f => zigbee_find_sensor f a t) w;
  zigbee_read_basic w a e t := on_dev (fun f => zigbee_read_basic f a e t) w;
  zigbee_bind_sensor w a e t := on_dev (fun f => zigbee_bind_sensor f a e t) w;
  zigbee_subscribe_sensor w a e t := on_dev (fun f => zigbee_subscribe_sensor f a e t) w;
  zigbee_config_report w a e t := on_dev (fun f => zigbee_config_report f a e t) w;
  zigbee_read_temp w a e t := on_dev (fun f => zigbee_read_temp f a e t) w;
  zigbee_get_last_temp := on_dev zigbee_get_last_temp
|}.

(** ** The board keeps the laws *)

Section Laws.
Context {C : Type}.
Implicit Types b : board C.

Lemma on_dev_owns {A} R (f : C -> C * A) b : owns R b -> owns R (on_dev f b).1.
Proof. unfold on_dev. by destruct (f _). Qed.

#[export] Instance board_posix_keeps `{Posix C} R : PosixKeeps (owns (W := board C) R).
Proof. split; intros; by apply on_dev_owns. Qed.

#[export] Instance board_api_keeps `{ZigbeeApi C} R : ApiKeeps (owns (W := board C) R).
Proof. split; intros; by apply on_dev_owns. Qed.

#[export] Instance board_task_laws {F} : TaskEnvLaws (board (device F)).
Proof. split; by intros ? R b. Qed.

Lemma fresh_above (X : gset res) m :
  m <= set_fold (fun r m => Z.max (r.2 + 1) m) m X /\
  forall r, r ∈ X -> r.2 < set_fold (fun r m => Z.max (r.2 + 1) m) m X.
Proof.
  apply (set_fold_ind_L (fun z (X : gset res) => m <= z /\ forall r, r ∈ X -> r.2 < z)).
  - split; [lia|set_solver].
  - intros x Y z _ [Hm Hz]. split; [lia|]. intros r Hr.
    rewrite elem_of_union, elem_of_singleton in Hr. destruct Hr as [->|Hr]; [lia|].
    apply Hz in Hr. lia.
Qed.

Lemma fresh_fd_new b : 0 <= fresh_fd b /\ Fd (fresh_fd b) ∉ bd_held b.
Proof.
  unfold fresh_fd. destruct (fresh_above (bd_held b) (Z.max 3 (bd_next b))) as [Hm Hn].
  split; [lia|]. intros Hin. apply Hn in Hin. cbn in Hin. lia.
Qed.

Lemma open_fd_obtains : obtains KFd (open_fd (C := C)).
Proof. intros R b <-. right. destruct (fresh_fd_new b). by split_and!. Qed.

Lemma fail_with_owns R e : hoare (owns R) (fail_with (C := C) e) (fun n w => n < 0 /\ owns R w).
Proof. intros b Hb. by split. Qed.

Lemma next_event_balanced : balanced (next_event (C := C)).
Proof. intros R b Hb. unfold next_event. by destruct (bd_script b). Qed.

Lemma scripted_hoare R (m : St (board C) Z) Q :
  hoare (owns R) m Q -> (forall n w, n < 0 -> owns R w -> Q n w) -> hoare (owns R) (scripted m) Q.
Proof.
  intros Hm HQ. apply own_step; [apply next_event_balanced|]. intros [| |]; try done.
  intros b Hb. by apply HQ.
Qed.

#[export] Instance board_socket_laws `{Plug C} : SocketLaws (board C).
Proof.
  split; intros.
  - intros R. apply scripted_hoare; [apply open_fd_obtains|auto].
  - pose proof (scripted_hoare R (fail_with EAGAIN) (fun n w => n < 0 /\ owns R w)
      (fail_with_owns R EAGAIN) (fun _ _ => @conj _ _)) as Hs.
    intros b Hb. cbn. unfold board_accept. destruct (bd_script b) as [|[|e|bs] es] eqn:Es.
    + left. by split.
    + left. exact (Hs b Hb).
    + left. exact (Hs b Hb).
    + by apply open_fd_obtains.
  - by intros R _ b.
  - intros R _. apply scripted_hoare; [apply balanced_ret|done].
  - intros R _. apply scripted_hoare; [apply balanced_ret|done].
  - intros R _. apply scripted_hoare; [apply balanced_ret|done].
  - by intros R _ b.
  - intros R _ b <-. done.
Qed.
End Laws.
