(* ===== verification/RpcTheorems.v ===== *)
(** * The RPC layer and the server's task: theorems

    The wire format, the engine, the server's turn and its task: the
    statements a user of zb_rpc_shared and of the server relies on, each with
    an instance on executable connections. *)

From Stdlib Require Import ZArith Lia Strings.Byte.
From stdpp Require Import base tactics list numbers option vector gmap.
From S2P Require Import Prelude Protocol Reflection Dump Posix Engine Rpc ZigbeeApi RpcServer RpcServerFacts.
From S2P Require Import Device Freertos ZigbeeStackTheorems Sockets Keeps RpcTask ZigbeeStack.

(** ** The wire format *)


(** the log line of a payload is the longest prefix of its rendering that
    fits the 384-byte buffer with its terminator; [append] never writes past
    the buffer. *)
Theorem dump_longest_prefix T `{WireType T} (x : T) :
  dump x = take 383 (render (wt_type T) (wt_to x)).
Proof. apply dump_spec. Qed.

(** ** The engine *)

Section Engine.
Context {W : Type} `{Posix W}.

(** A header is accepted only if it announces at most 64 bytes and names
    a 32-bit id; one that is not leaves the reason, and never any other error,
    in [last_error]. *)
Theorem header_guard (e e' : Engine W) r :
  receive_header e = (e', r) ->
  match r with
  | Some h => 0 <= fh_size h <= k_max_payload /\ api_id_wf (fh_id h) /\ last_error_ e' = ec_none
  | None => last_error_ e' = ec_none \/ last_error_ e' = ec_bad_magic \/
            last_error_ e' = ec_oversized_payload
  end.
Proof. apply receive_header_safe. Qed.

Context `{!PosixLaws W, !Stream W}.

(** C13: however a connection fragments and interrupts the transfers, what one
    engine sends the other receives: the header with the id and size, then the
    payload itself, and nothing beyond it is consumed. *)
Theorem frame_delivered T `{WireType T} (e e2 e' : Engine W) i (x : T) bs :
  stream_ok (fd_ e) -> stream_ok (fd_ e2) -> api_id_wf i ->
  send e i x = (e', true) -> tx (fd_ e) = [] -> rx (fd_ e2) = tx (fd_ e') ++ bs ->
  exists w1 w2,
    receive_header e2 = (MkEngine w1 ec_none, Some (MkFrameHeader i (Z.of_nat (wt_size T)))) /\
    receive_payload T (MkEngine w1 ec_none) (MkFrameHeader i (Z.of_nat (wt_size T))) =
      (MkEngine w2 ec_none, Some x) /\
    rx w2 = bs.
Proof. apply frame_round_trip. Qed.

(** A call writes one frame; answered with a frame of its own id and type
    it returns the answer, consumes exactly that frame, and leaves the rest
    of the stream for the next call. *)
Theorem call_answered (d : rpc_desc) e (req : d_req d) (resp : d_resp d) bs :
  desc_ok d -> stream_ok (fd_ e) -> rx (fd_ e) = frame (d_id d) resp ++ bs ->
  exists w', call d e req = (MkEngine w' ec_none, Some resp) /\
    io_step (fd_ e) w' bs (tx (fd_ e) ++ frame (d_id d) req).
Proof.
  intros Hd Hok Hrx. unfold call.
  destruct (send_stream e (d_id d) req Hok) as (w1 & E & Hok1 & Hrx1 & Htx1 & Hre1). rewrite E.
  destruct (await_response_ok d Hd (MkEngine w1 (last_error_ e)) resp bs) as (w2 & E2 & Hio);
    [done|by cbn; rewrite Hrx1|].
  exists w2. split; [done|]. unfold io_step in *. cbn in Hio. by rewrite Htx1, Hre1 in Hio.
Qed.

(** Answered with an error frame, or with a well-formed frame of another
    id, a call fails and still consumes exactly that frame: the connection
    stays usable. *)
Theorem call_refused (d : rpc_desc) e (req : d_req d) T `{WireType T} i (x : T) code bs :
  stream_ok (fd_ e) -> api_id_wf i -> i <> id_error -> i <> d_id d ->
  rx (fd_ e) = error_frame code ++ bs \/ rx (fd_ e) = frame i x ++ bs ->
  exists w', call d e req = (MkEngine w' ec_none, None) /\
    io_step (fd_ e) w' bs (tx (fd_ e) ++ frame (d_id d) req).
Proof.
  intros Hok Hwf Herr Hne Hrx. unfold call.
  destruct (send_stream e (d_id d) req Hok) as (w1 & E & Hok1 & Hrx1 & Htx1 & Hre1). rewrite E.
  assert (exists w2, await_response d (MkEngine w1 (last_error_ e)) = (MkEngine w2 ec_none, None) /\
    io_step w1 w2 bs (tx w1)) as (w2 & E2 & Hio).
  { destruct Hrx as [Hrx|Hrx]; rewrite <- Hrx1 in Hrx;
      [exact (await_response_error d (MkEngine w1 (last_error_ e)) code bs Hok1 Hrx)
      | exact (await_response_unexpected d (MkEngine w1 (last_error_ e)) i x bs Hok1 Hwf Herr Hne Hrx)]. }
  exists w2. split; [done|]. unfold io_step in *. by rewrite Htx1, Hre1 in Hio.
Qed.

(** Answered with a frame of its own id but of another size, a call fails
    and leaves the payload on the stream, where the next call takes it for a
    header. *)
Theorem call_mismatch_desynchronises (d : rpc_desc) e (req : d_req d) T `{WireType T} (x : T) bs :
  desc_ok d -> stream_ok (fd_ e) -> wt_size T <> wt_size (d_resp d) ->
  rx (fd_ e) = frame (d_id d) x ++ bs ->
  exists w', call d e req = (MkEngine w' ec_payload_mismatch, None) /\
    io_step (fd_ e) w' (encode x ++ bs) (tx (fd_ e) ++ frame (d_id d) req).
Proof.
  intros Hd Hok Hsz Hrx. unfold call.
  destruct (send_stream e (d_id d) req Hok) as (w1 & E & Hok1 & Hrx1 & Htx1 & Hre1). rewrite E.
  destruct (await_response_mismatch d Hd (MkEngine w1 (last_error_ e)) x bs) as (w2 & E2 & Hio);
    [done|done|by cbn; rewrite Hrx1|].
  exists w2. split; [done|]. unfold io_step in *. cbn in Hio. by rewrite Htx1, Hre1 in Hio.
Qed.

(** C15: every answer to a call.  The answer of its own id and size is returned
    and exactly its frame is consumed; an error frame, or a well-formed frame
    of another id, fails the call and still consumes exactly that frame, so the
    connection stays usable; a frame of its own id but of another size fails it
    and leaves the payload on the stream, where the next call takes it for a
    header. *)
Theorem call_outcomes (d : rpc_desc) e (req : d_req d) bs : desc_ok d -> stream_ok (fd_ e) ->
  (forall resp, rx (fd_ e) = frame (d_id d) resp ++ bs -> exists w', call d e req = (MkEngine w' ec_none, Some resp) /\
     io_step (fd_ e) w' bs (tx (fd_ e) ++ frame (d_id d) req)) /\
  (forall T `(WireType T) i (x : T) code, api_id_wf i -> i <> id_error -> i <> d_id d ->
     rx (fd_ e) = error_frame code ++ bs \/ rx (fd_ e) = frame i x ++ bs -> exists w', call d e req = (MkEngine w' ec_none, None) /\
     io_step (fd_ e) w' bs (tx (fd_ e) ++ frame (d_id d) req)) /\
  (forall T `(WireType T) (x : T), wt_size T <> wt_size (d_resp d) -> rx (fd_ e) = frame (d_id d) x ++ bs ->
     exists w', call d e req = (MkEngine w' ec_payload_mismatch, None) /\
     io_step (fd_ e) w' (encode x ++ bs) (tx (fd_ e) ++ frame (d_id d) req)).
Proof.
  intros Hd Hok. split; [|split].
  - intros resp. by apply call_answered.
  - intros T HT i x code Hi He Hne. by apply (call_refused d e req T i x code bs).
  - intros T HT x Hs. by apply (call_mismatch_desynchronises d e req T x bs).
Qed.
End Engine.

(** ** The server's turn *)

Section Server.
Context {E : Type} `{Posix E, ZigbeeApi E, ServerEnv E}.
Implicit Types e : Engine (server E).

(** [dispatch], a chain of thirteen guarded [invoke_one] calls, is a lookup
    of the id in the table of handlers: the handler of that id runs, no other
    does, and an id without one is refused. *)
Theorem dispatch_is_lookup e header :
  dispatch e header =
  match handler_for (fh_id header) with
  | Some h => invoke_handler h e header
  | None => refuse_unknown e header
  end.
Proof. apply dispatch_table. Qed.

(** the announcement handler polls at most 720 times for 250 ms each, only
    while the client is there, and ends at the first announcement: it
    terminates, and a vanished client is noticed before the next poll. *)
Theorem wait_annce_polls (s : server E) r :
  exists s' v, handle_wait_annce s r = (s', MkU16Resp (to_le16 v)) /\ annce_wait 720 s s' v.
Proof. apply handle_wait_annce_polls. Qed.

Context `{!PosixLaws E, !Stream E}.

(** C11: a turn on a well-formed request runs its handler once and answers
    with exactly one frame of the request's id; what follows the request stays
    unread and the loop goes on. *)
Theorem turn_answers e (h : handler) (req : d_req (h_desc h)) bs :
  In h handlers -> stream_ok (fd_ e) -> rx (fd_ e) = frame (d_id (h_desc h)) req ++ bs ->
  (forall s, io_step (fd_ e) s bs (tx (fd_ e)) -> stream_ok (h_fun h s req).1) ->
  exists s w, io_step (fd_ e) s bs (tx (fd_ e)) /\
    serve_step e = (MkEngine w ec_none, true) /\
    io_step (h_fun h s req).1 w (rx (h_fun h s req).1)
      (tx (h_fun h s req).1 ++ frame (d_id (h_desc h)) (h_fun h s req).2).
Proof. apply serve_step_answers. Qed.

(** C12: a turn on anything else writes one error frame with the right code
    and gives the connection up: a bad header, a known id with a payload of
    another size, or an unknown id, whose payload is skipped. *)
Theorem turn_refuses e T `{WireType T} i (x : T) bs :
  stream_ok (fd_ e) -> api_id_wf i -> rx (fd_ e) = frame i x ++ bs ->
  match handler_for i with
  | None => exists w code, serve_step e = (MkEngine w code, false) /\
              io_step (fd_ e) w bs (tx (fd_ e) ++ error_frame ec_unknown_api)
  | Some h => wt_size T <> wt_size (d_req (h_desc h)) ->
              exists w, serve_step e = (MkEngine w ec_payload_mismatch, false) /\
                io_step (fd_ e) w (encode x ++ bs)
                  (tx (fd_ e) ++ error_frame ec_payload_mismatch)
  end.
Proof.
  intros Hok Hwf Hrx. destruct (handler_for i) as [h|] eqn:Hh.
  - intros Hsz. unfold handler_for in Hh. apply List.find_some in Hh as [Hin Hi].
    apply bool_decide_eq_true in Hi. subst i. by eapply serve_step_mismatch.
  - by eapply serve_step_unknown.
Qed.

(** twelve bytes that are no acceptable header are answered with one error
    frame naming the reason, and the connection is given up. *)
Theorem turn_rejects_header e code :
  stream_ok (fd_ e) -> (12 <= length (rx (fd_ e)))%nat ->
  parse_header (take 12 (rx (fd_ e))) = inl code ->
  exists w, serve_step e = (MkEngine w code, false) /\
    io_step (fd_ e) w (drop 12 (rx (fd_ e))) (tx (fd_ e) ++ error_frame code).
Proof. apply serve_step_bad_header. Qed.
End Server.

(** ** Instances *)


(** A connection that holds [bs], fragments and interrupts. *)
Definition choppy (bs : list byte) : Engine socket :=
  new_engine (MkSocket bs [] [EvChunk 2; EvIntr; EvChunk 0; EvIntr; EvChunk 4]).

Lemma choppy_ok bs : socket_ok (fd_ (choppy bs)).
Proof. repeat constructor. Qed.

Definition temp_reply : zb_temp_t :=
  MkZbTemp (to_le32_s 0) (to_le16_s 2150) (to_le16_s (-4000)) (to_le16_s 12500) (to_le16_s 0).

Definition some_addr : zb_addr_t := MkZbAddr (to_le32_s 0) (to_le16 0x1234) x01.

Lemma header_guard_witness :
  let '(e', r) := receive_header (choppy (frame id_read_temp some_addr)) in
  match r with
  | Some h => 0 <= fh_size h <= k_max_payload /\ api_id_wf (fh_id h) /\ last_error_ e' = ec_none
  | None => last_error_ e' = ec_none \/ last_error_ e' = ec_bad_magic \/
            last_error_ e' = ec_oversized_payload
  end.
Proof.
  destruct (receive_header (choppy (frame id_read_temp some_addr))) as [e' r] eqn:E.
  exact (header_guard _ e' r E).
Defined.

Lemma frame_delivered_witness :
  exists w1 w2,
    receive_header (choppy (frame id_read_temp temp_reply ++ [x00])) =
      (MkEngine w1 ec_none, Some (MkFrameHeader id_read_temp (Z.of_nat (wt_size zb_temp_t)))) /\
    receive_payload zb_temp_t (MkEngine w1 ec_none) (MkFrameHeader id_read_temp (Z.of_nat (wt_size zb_temp_t))) =
      (MkEngine w2 ec_none, Some temp_reply) /\
    rx w2 = [x00].
Proof.
  apply (frame_delivered zb_temp_t (choppy []) (choppy (frame id_read_temp temp_reply ++ [x00]))
    (send (choppy []) id_read_temp temp_reply).1 id_read_temp temp_reply [x00]);
    [apply choppy_ok | apply choppy_ok | exact I | reflexivity..].
Defined.

Lemma call_answered_witness :
  exists w', call desc.read_temp (choppy (frame id_read_temp temp_reply ++ [x00])) some_addr =
      (MkEngine w' ec_none, Some temp_reply) /\
    io_step (fd_ (choppy (frame id_read_temp temp_reply ++ [x00]))) w' [x00]
      ([] ++ frame id_read_temp some_addr).
Proof.
  refine (call_answered desc.read_temp (choppy (frame id_read_temp temp_reply ++ [x00])) some_addr
    temp_reply [x00] _ _ _); [split; [exact I|discriminate] | apply choppy_ok | reflexivity].
Defined.

Lemma call_outcomes_witness :
  exists w', call desc.read_temp (choppy (error_frame ec_unknown_api ++ [x00])) some_addr =
      (MkEngine w' ec_none, None) /\
    io_step (fd_ (choppy (error_frame ec_unknown_api ++ [x00]))) w' [x00]
      ([] ++ frame id_read_temp some_addr).
Proof.
  refine (proj1 (proj2 (call_outcomes desc.read_temp (choppy (error_frame ec_unknown_api ++ [x00])) some_addr [x00] _ _))
    EmptyReq _ id_get_panid MkEmptyReq ec_unknown_api _ _ _ _);
    [split; [exact I|discriminate] | apply choppy_ok | exact I | discriminate | discriminate | left; reflexivity].
Defined.

Lemma call_refused_witness :
  exists w', call desc.read_temp (choppy (error_frame ec_unknown_api ++ [x00])) some_addr =
      (MkEngine w' ec_none, None) /\
    io_step (fd_ (choppy (error_frame ec_unknown_api ++ [x00]))) w' [x00]
      ([] ++ frame id_read_temp some_addr).
Proof.
  refine (call_refused desc.read_temp (choppy (error_frame ec_unknown_api ++ [x00])) some_addr EmptyReq id_get_panid MkEmptyReq ec_unknown_api [x00]
    _ _ _ _ _);
    [apply choppy_ok | exact I | discriminate | discriminate | left; reflexivity].
Defined.

Lemma call_mismatch_desynchronises_witness :
  exists w', call desc.read_temp (choppy (frame id_read_temp some_addr)) some_addr =
      (MkEngine w' ec_payload_mismatch, None) /\
    io_step (fd_ (choppy (frame id_read_temp some_addr))) w' (encode some_addr ++ [])
      ([] ++ frame id_read_temp some_addr).
Proof.
  refine (call_mismatch_desynchronises desc.read_temp (choppy (frame id_read_temp some_addr))
    some_addr zb_addr_t some_addr [] _ _ _ _);
    [split; [exact I|discriminate] | apply choppy_ok | discriminate | by rewrite app_nil_r].
Defined.

(** A server on a started firmware, with [bs] received. *)
Definition server_with (bs : list byte) : Engine (server (device (live script))) :=
  new_engine (MkServer 5 (MkDevice (fd_ (choppy bs)) (started_live []) true)).

Lemma server_with_ok bs : stream_ok (fd_ (server_with bs)).
Proof. exact (choppy_ok bs). Qed.

Definition panid_handler : handler := MkHandler desc.get_panid
  (handle_get_panid (E := device (live script))).

Lemma turn_answers_witness :
  exists s w, io_step (fd_ (server_with (frame id_get_panid MkEmptyReq ++ [x00]))) s [x00] [] /\
    serve_step (server_with (frame id_get_panid MkEmptyReq ++ [x00])) = (MkEngine w ec_none, true) /\
    io_step (handle_get_panid s MkEmptyReq).1 w (rx (handle_get_panid s MkEmptyReq).1)
      (tx (handle_get_panid s MkEmptyReq).1 ++
       frame id_get_panid (handle_get_panid s MkEmptyReq).2).
Proof.
  refine (turn_answers (server_with (frame id_get_panid MkEmptyReq ++ [x00])) panid_handler
    MkEmptyReq [x00] _ _ _ _); [right; left; reflexivity | apply server_with_ok | reflexivity |].
  intros s (Hs & _). unfold panid_handler. cbn [h_fun]. destruct s as [fd [sk f p]].
  unfold handle_get_panid, in_env. cbn. exact Hs.
Defined.

Lemma turn_refuses_witness :
  exists w code, serve_step (server_with (frame (id_unnamed 99) some_addr)) =
      (MkEngine w code, false) /\
    io_step (fd_ (server_with (frame (id_unnamed 99) some_addr))) w []
      ([] ++ error_frame ec_unknown_api).
Proof.
  refine (turn_refuses (server_with (frame (id_unnamed 99) some_addr)) zb_addr_t (id_unnamed 99)
    some_addr [] (server_with_ok _) _ _); [cbn; lia | by rewrite app_nil_r].
Defined.

Lemma turn_rejects_header_witness :
  exists w, serve_step (server_with (replicate 12 x00)) = (MkEngine w ec_bad_magic, false) /\
    io_step (fd_ (server_with (replicate 12 x00))) w [] ([] ++ error_frame ec_bad_magic).
Proof.
  refine (turn_rejects_header (server_with (replicate 12 x00)) ec_bad_magic _ _ _);
    [apply server_with_ok | cbn; lia | reflexivity].
Defined.

(** * The server's task: theorems *)

Section Theorems.
Context {E : Type} `{Posix E, ZigbeeApi E, ServerEnv E, Sockets E, TaskEnv E}.

(** C17: at every loop head the task ever reaches, it holds the descriptors it
    started with and its listener and client, where it has them: none is
    leaked or closed twice whatever the network does, [s_client_fd] names the
    client while it is served and nothing otherwise. *)
Theorem task_leaks_nothing `{Ledger E, !SocketLaws E, !TaskEnvLaws E}
    `{!forall R, PosixKeeps (owns (W := E) R), !forall R, ApiKeeps (owns (W := E) R)} R n s pc s' :
  owns R (s_env s) -> s_client_fd s = -1 -> server_task n s = (pc, s') ->
  match pc with
  | AtWait => owns R (s_env s') /\ s_client_fd s' = -1
  | AtAccept l => Fd l ∉ R /\ owns ({[Fd l]} ∪ R) (s_env s') /\ s_client_fd s' = -1
  | Serving l c _ =>
      Fd l ∉ R /\ Fd c ∉ {[Fd l]} ∪ R /\ owns ({[Fd c]} ∪ ({[Fd l]} ∪ R)) (s_env s') /\
      s_client_fd s' = c
  end.
Proof.
  intros Ho Hc Ht. pose proof (server_task_holds R n s Ho Hc) as Hh. rewrite Ht in Hh.
  by inversion Hh; subst.
Qed.

End Theorems.

(** ** A run: [bind] fails once, a client that sends garbage, one that asks
    for the short address and leaves, and the PPP link goes down. *)

Definition run_board (es : list net_event) : server (board (device (live script))) :=
  MkServer (-1)
    (MkBoard (MkDevice (MkSocket [] [] []) (started_live []) false) {[Fd 0]} 3 0 es []).

Definition two_clients : list net_event :=
  [ NetOk; NetFail 98; NetOk; NetOk; NetOk;
    NetClient (replicate 12 x00); NetFail 11;
    NetClient (frame id_get_short_addr MkEmptyReq) ].

Example two_clients_run :
  let '(pc, s) := server_task 10 (run_board two_clients) in
  pc = AtWait /\ elements (held (s_env s)) = [Fd 0] /\
  bd_sent (s_env s) =
    [ error_frame ec_bad_magic; frame id_get_short_addr (MkU16Resp (to_le16 0)) ].
Proof. vm_compute. by split_and!. Qed.

Lemma task_leaks_nothing_witness :
  exists s', server_task 8 (run_board two_clients) = (AtAccept 3, s') /\
             owns ({[Fd 3]} ∪ {[Fd 0]}) (s_env s') /\ s_client_fd s' = -1.
Proof.
  destruct (server_task 8 (run_board two_clients)) as [pc s'] eqn:Es.
  assert (Hp : pc = AtAccept 3)
    by (change pc with (pc, s').1; rewrite <- Es; vm_compute; reflexivity).
  subst pc. exists s'. split; [reflexivity|].
  exact (proj2 (task_leaks_nothing {[Fd 0]} 8 (run_board two_clients) (AtAccept 3) s'
                  eq_refl eq_refl Es)).
Defined.

(** A client that closes at once. *)
Definition served_board : server (board (device (live script))) :=
  MkServer (-1) (MkBoard (MkDevice (MkSocket [] [] []) (started_live []) true)
                         {[Fd 3; Fd 4]} 3 0 [] []).

