(* ===== verification/SimTheorems.v ===== *)
(** * The host simulation: behaviour and theorems

    What the catalog elaborates to, what a turn of the server does, what the
    simulated temperature can be, and the descriptors of the two programs. *)

From Stdlib Require Import ZArith Lia Strings.Byte Strings.String.
From stdpp Require Import base tactics list numbers option vector gmap.
From S2P Require Import Prelude Protocol Reflection Dump Posix Engine Rpc Keeps AutoRpc Sockets Sim Device.
From S2P Require Import RpcTask.

(** ** The catalog *)

Section Catalog.
Context {E : Type}.

(** The handlers of the namespace, each with its descriptor of catalog.hpp. *)
Definition sim_handlers : list (handler (host E)) :=
  [ Handler desc.get_short_addr (on_sim sim.get_short_addr);
    Handler desc.get_panid (on_sim sim.get_panid);
    Handler desc.get_channel (on_sim sim.get_channel);
    Handler desc.open_network (on_sim sim.open_network);
    Handler desc.wait_annce (on_sim sim.wait_annce);
    Handler desc.find_sensor (on_sim sim.find_sensor);
    Handler desc.read_basic (on_sim sim.read_basic);
    Handler desc.bind_sensor (on_sim sim.bind_sensor);
    Handler desc.subscribe_sensor (on_sim sim.subscribe_sensor);
    Handler desc.config_report (on_sim sim.config_report);
    Handler desc.read_temp (on_sim sim.read_temp);
    Handler desc.get_last_temp (on_sim sim.get_last_temp) ].

Lemma sim_elaborates : rpc_handlers (W := host E) sim_members = Some sim_handlers.
Proof. reflexivity. Qed.

Lemma sim_handlers_descs : map hd_desc sim_handlers = sim_descs.
Proof. reflexivity. Qed.

(** The static assertion of catalog.hpp. *)
Lemma sim_compiles : verify_catalog (W := host E) sim_members = Some true.
Proof. vm_compute. reflexivity. Qed.

Definition sim_handler_for (i : api_id) : option (handler (host E)) :=
  List.find (fun h => bool_decide (i = d_id (hd_desc h))) sim_handlers.

Lemma sim_handlers_ok h :
  In h sim_handlers -> desc_ok (hd_desc h) /\ sim_handler_for (d_id (hd_desc h)) = Some h.
Proof.
  intros Hh. repeat (destruct Hh as [<-|Hh]); [..|done]; (split; [split|]); try done;
    cbn; unfold api_id_wf; done.
Qed.

Context `{Posix E}.
Implicit Types e : Engine (host E).

Lemma sim_dispatch e header :
  dispatch_ns sim_members e header =
  Some match sim_handler_for (fh_id header) with
       | Some h => invoke_one (hd_desc h) (hd_function h) e header
       | None => (e, no_match)
       end.
Proof.
  unfold dispatch_ns. rewrite sim_elaborates. cbn [mbind option_bind].
  by rewrite dispatch_handlers_find.
Qed.
End Catalog.

(** ** The simulated temperature *)

(** Thirteen to eighteen degrees, in whole degrees; the addresses are those
    the simulation starts with. *)
Definition sim_ok (s : sim.sim_vars) : Prop :=
  1300 <= sim.g_temp s <= 1800 /\ sim.g_temp s mod 100 = 0 /\
  sim.g_sensor_short s = 0x1956 /\ sim.g_sensor_ep s = 0x0a.

Lemma bump_temp_ok s : sim_ok s -> sim_ok (sim.bump_temp s).
Proof.
  intros (Ht & Hm & Hs & He). unfold sim.bump_temp. case_bool; [|done].
  assert (Hd : sim.g_temp s <= 1700).
  { pose proof (Z.div_mod (sim.g_temp s) 100 ltac:(lia)). lia. }
  unfold sim_ok. cbn. rewrite s16_id by (unfold is_s16; lia). split_and!; try lia; try done.
  by rewrite <- (Z.mul_1_l 100), Z.mod_add by lia.
Qed.

Lemma bump_temp_rises s :
  sim_ok s -> sim.g_temp (sim.bump_temp s) = Z.min 1800 (sim.g_temp s + 100).
Proof.
  intros (Ht & Hm & _). unfold sim.bump_temp. pose proof (Z.div_mod (sim.g_temp s) 100 ltac:(lia)).
  case_bool; [cbn; rewrite s16_id by (unfold is_s16; lia)|]; lia.
Qed.

(** ** The server over any connection *)

Section AnyConnection.
Context {E : Type} `{Posix E}.
Implicit Types e : Engine (host E).

Section Keeps.
Context (P : host E -> Prop) `{!PosixKeeps P}.
Context (HP : forall h, In h sim_handlers -> forall w r, P w -> P (hd_function h w r).1).

Lemma handle_commands_keeps e : P (fd_ e) -> P (fd_ (handle_commands e).1).
Proof.
  intros He. unfold handle_commands. pose proof (receive_header_keeps P e He) as Hk.
  destruct (receive_header e) as [e1 [h|]]; cbn [fst] in Hk.
  - case_decide; [done|]. rewrite sim_dispatch. cbn [default id].
    unfold sim_handler_for. destruct (List.find _ _) as [hd|] eqn:Ef.
    + apply find_some in Ef as [Hin Hm%bool_decide_eq_true].
      pose proof (invoke_one_keeps P _ _ e1 h (HP hd Hin) Hk) as Hk1.
      pose proof (invoke_one_matches hd e1 h Hm) as Hnm.
      destruct (invoke_one _ _ _ _) as [e2 r]. by rewrite decide_False.
    + rewrite decide_True by done. pose proof (discard_payload_keeps P e1 (fh_size h) Hk) as Hk1.
      destruct (discard_payload _ _) as [e2 ok]. cbn in Hk1. case_match; [done|].
      pose proof (send_error_keeps P e2 ec_unknown_api Hk1) as Hk2. by destruct (send_error _ _).
  - case_decide; [|done]. pose proof (send_error_keeps P e1 (last_error_ e1) Hk) as Hk1.
    by destruct (send_error _ _).
Qed.

Lemma command_loop_keeps fuel : forall e e',
  P (fd_ e) -> command_loop fuel e = Some e' -> P (fd_ e').
Proof.
  induction fuel as [|fuel IH]; intros e e' He Hl; cbn [command_loop] in Hl; [done|].
  pose proof (handle_commands_keeps e He) as Hk. destruct (handle_commands e) as [e1 go].
  case_match; simplify_eq; eauto.
Qed.
End Keeps.

Lemma on_env_sim {A} (f : St E A) (h : host E) : h_sim (on_env f h).1 = h_sim h.
Proof. unfold on_env. by destruct (f _). Qed.

#[export] Instance sim_ok_posix : PosixKeeps (fun h : host E => sim_ok (h_sim h)).
Proof. split; intros h x Hh; cbn; by rewrite on_env_sim. Qed.

Lemma on_sim_env {Req Resp} (f : sim.sim_vars -> Req -> sim.sim_vars * Resp) (w : host E) r :
  h_env (on_sim f w r).1 = h_env w.
Proof. unfold on_sim. by destruct (f _ _). Qed.

Lemma sim_function_env h (w : host E) r :
  In h sim_handlers -> h_env (hd_function h w r).1 = h_env w.
Proof. intros Hh. repeat (destruct Hh as [<-|Hh]); [..|done]; apply on_sim_env. Qed.

Lemma sim_functions_ok h :
  In h (sim_handlers (E := E)) -> forall w r, sim_ok (h_sim w) -> sim_ok (h_sim (hd_function h w r).1).
Proof.
  intros Hh w r Hw. repeat (destruct Hh as [<-|Hh]); [..|done]; try exact Hw;
    cbn [hd_function] in *; unfold on_sim.
  - unfold sim.find_sensor. cbn zeta. by destruct (_ || _).
  - unfold sim.read_basic. cbn zeta. by destruct (negb _).
  - unfold sim.read_temp. cbn zeta. destruct (negb _); [done|]. by apply bump_temp_ok.
  - by apply bump_temp_ok.
Qed.
End AnyConnection.

(** ** A turn of the server on a stream *)

#[export] Instance host_posix_laws {E} `{Posix E, !PosixLaws E} : PosixLaws (host E).
Proof. posix_component (@h_env E) on_env. Qed.

#[export] Program Instance host_stream {E} `{Posix E, !Stream E} : Stream (host E) := {|
  world_rest := sim.sim_vars * world_rest (W := E);
  rest h := (h_sim h, rest (h_env h));
  rx h := rx (h_env h);
  tx h := tx (h_env h);
  stream_ok h := stream_ok (h_env h)
|}.
Next Obligation.
  intros E ? ? [s env] n Hok Hn; cbn in *.
  destruct (stream_read env n Hok Hn) as (w & Hok' & Ht & Hr & Hcase).
  exists (MkHost s w). unfold on_env; cbn. rewrite Ht, Hr.
  repeat split; [done|]. destruct Hcase as [[-> Hrx]|(bs & Hbs & -> & Hrx)]; [by left|].
  right. eauto.
Qed.
Next Obligation.
  intros E ? ? [s env] bs Hok Hn; cbn in *.
  destruct (stream_write env bs Hok Hn) as (w & Hok' & Ht & Hr & Hcase).
  exists (MkHost s w). unfold on_env; cbn. rewrite Ht, Hr.
  repeat split; [done|]. destruct Hcase as [[-> Hrx]|(k & Hk & -> & Hrx)]; [by left|].
  right. eauto.
Qed.

Section OnStream.
Context {E : Type} `{Posix E, !PosixLaws E, !Stream E}.
Implicit Types e : Engine (host E).

(** A well-formed request: the function of its name runs once and its answer
    is the one frame written. *)
Lemma handle_commands_answers e h (req : d_req (hd_desc h)) bs :
  In h sim_handlers -> stream_ok (fd_ e) -> rx (fd_ e) = frame (d_id (hd_desc h)) req ++ bs ->
  exists s w, io_step (fd_ e) s bs (tx (fd_ e)) /\
    handle_commands e = (MkEngine w ec_none, true) /\
    io_step (hd_function h s req).1 w bs
      (tx (fd_ e) ++ frame (d_id (hd_desc h)) (hd_function h s req).2).
Proof using PosixLaws0.
  intros Hh Hok Hrx. destruct (sim_handlers_ok h Hh) as [[Hwf Herr] Hfor].
  destruct (receive_frame_header e _ _ _ Hok Hwf Hrx) as (s0 & E0 & Hok0 & Hrx0 & Htx0 & Hre0).
  assert (Hst : forall w, stream_ok w -> stream_ok (hd_function h w req).1 /\
    rx (hd_function h w req).1 = rx w /\ tx (hd_function h w req).1 = tx w).
  { intros w Hw. cbn. by rewrite (sim_function_env h w req Hh). }
  destruct (invoke_one_ok (hd_desc h) (hd_function h) (MkEngine s0 ec_none)
    (MkFrameHeader (d_id (hd_desc h)) (Z.of_nat (wt_size (d_req (hd_desc h))))) req bs
    (fun s => (hd_function h s req).1) (fun s => (hd_function h s req).2) Hok0 eq_refl eq_refl Hrx0)
    as (s & w & Hio & Einv & Hio2).
  { intros s (Hs1 & _). split; [by destruct (hd_function h s req)|]. by apply Hst. }
  exists s, w. destruct Hio as (Hs1 & Hs2 & Hs3 & Hs4). cbn [fd_] in *.
  split; [unfold io_step; by rewrite Hs2, Hs3, Hs4, Htx0, Hre0|].
  destruct (Hst s Hs1) as (_ & Hsr & Hstx). rewrite Hsr, Hstx, Hs2, Hs3, Htx0 in Hio2.
  split; [|done]. unfold handle_commands. rewrite E0. cbn [fh_id].
  rewrite decide_False by done. rewrite sim_dispatch. cbn [fh_id].
  rewrite Hfor. cbn [default id]. by rewrite Einv.
Qed.

(** An id that names no function of the namespace. *)
Lemma handle_commands_unknown e {T} `{WireType T} i (x : T) bs :
  stream_ok (fd_ e) -> api_id_wf i -> i <> id_error -> sim_handler_for (E := E) i = None ->
  rx (fd_ e) = frame i x ++ bs ->
  exists w code, handle_commands e = (MkEngine w code, false) /\
    io_step (fd_ e) w bs (tx (fd_ e) ++ error_frame ec_unknown_api).
Proof using PosixLaws0.
  intros Hok Hwf Hne Hfor Hrx.
  destruct (receive_frame_header e i x bs Hok Hwf Hrx) as (s0 & E0 & Hok0 & Hrx0 & Htx0 & Hre0).
  unfold handle_commands. rewrite E0. cbn [fh_id]. rewrite decide_False by done.
  rewrite sim_dispatch. cbn [fh_id]. rewrite Hfor. cbn [default id]. rewrite decide_True by done.
  cbn [fh_size]. pose proof (wt_size_bound (T := T)) as Hb.
  destruct (discard_payload_stream (MkEngine s0 ec_none) (Z.of_nat (wt_size T)))
    as (s1 & E1 & Hok1 & Hrx1 & Htx1 & Hre1); cbn [fd_]; [done|lia| |].
  { rewrite Hrx0, length_app, encode_length. lia. }
  rewrite E1. cbn [negb last_error_]. unfold send_error.
  destruct (send_stream (MkEngine s1 ec_none) id_error
    (MkErrorResp (to_le32 (error_code_to_u32 ec_unknown_api))) Hok1)
    as (s2 & E2 & Hok2 & Hrx2 & Htx2 & Hre2).
  rewrite E2. exists s2, ec_none. split; [done|]. unfold io_step. cbn [fd_] in *.
  rewrite Nat2Z.id, Hrx0, drop_app_exact in Hrx1 by (by rewrite encode_length).
  rewrite Hrx2, Htx2, Hre2, Htx1, Hre1, Hrx1, Htx0, Hre0. auto.
Qed.
End OnStream.

(** * The host simulation: theorems *)

(** ** Resources of the two programs *)

#[export] Instance engine_ledger {W} `{Ledger W} : Ledger (Engine W) := fun e => held (fd_ e).

Section Client.
Context {W : Type} `{Posix W, Sockets W, Ledger W, !SocketLaws W}.
Context `{!forall R, PosixKeeps (owns (W := W) R)}.

Lemma rpc_call_balanced d r : balanced (W := Engine W) (rpc_call_fn d r).
Proof. intros R e He. exact (call_keeps (owns R) d e r He). Qed.

Lemma rpc_call_empty_balanced d : balanced (W := Engine W) (rpc_call_fn_empty d).
Proof. intros R e He. exact (call_empty_keeps (owns R) d e He). Qed.

#[local] Hint Extern 1 (balanced (rpc_call_fn ?d ?r)) => exact (rpc_call_balanced d r) : own.
#[local] Hint Extern 1 (balanced (rpc_call_fn_empty ?d)) => exact (rpc_call_empty_balanced d) : own.

Lemma poll_temps_balanced n : balanced (W := Engine W) (poll_temps n).
Proof.
  induction n as [|n IH]; cbn [poll_temps]; [auto with own|].
  apply balanced_bind; [auto with own|]. intros [t|]; auto with own.
Qed.

#[local] Hint Resolve poll_temps_balanced : own.

(** The session ends with its descriptor closed and an exit code of 0 or 1. *)
Definition session_ends R (code : Z) (e : Engine W) : Prop :=
  (code = 0 \/ code = 1) /\ owns R e.

Lemma close_return_ends fd code R :
  Fd fd ∉ R -> code = 0 \/ code = 1 ->
  hoare (owns ({[Fd fd]} ∪ R)) (close_return fd code) (session_ends R).
Proof.
  intros Hfd Hc e He. unfold close_return.
  assert (Hw : owns (({[Fd fd]} ∪ R) ∖ {[Fd fd]}) (sys_close fd (fd_ e)).1)
    by (apply (close_returns fd); [set_solver|exact He]).
  destruct (sys_close fd (fd_ e)) as [w r]. split; [done|]. unfold owns, held, engine_ledger in *.
  cbn in *. set_solver.
Qed.

Ltac session :=
  repeat first [own_step1 | apply close_return_ends; [done|by auto]].

Lemma client_session_ends fd R :
  Fd fd ∉ R -> hoare (owns ({[Fd fd]} ∪ R)) (client_session fd) (session_ends R).
Proof. intros Hfd. unfold client_session, client_sensor. cbv zeta. session. Qed.

Lemma client_main_ends address port R :
  hoare (owns R) (client_main address port) (fun code w => (code = 0 \/ code = 1) /\ owns R w).
Proof.
  unfold client_main. eapply own_obtain; [apply rpc_connect_obtains|intros n Hn|intros n Hn Hni].
  - rewrite (proj2 (Z.ltb_lt _ _)) by done. apply own_ret. auto.
  - rewrite (proj2 (Z.ltb_ge _ _)) by done. intros w Hw.
    pose proof (client_session_ends n R Hni (new_engine w) Hw) as Hs.
    by destruct (client_session n (new_engine w)).
Qed.
End Client.

Section Server.
Context {E : Type} `{Posix E, Sockets E, Ledger E, !SocketLaws E}.
Context `{!forall R, PosixKeeps (owns (W := E) R)}.

Lemma host_owns_posix R : PosixKeeps (owns (W := host E) R).
Proof.
  split; intros h x Hh; cbn; unfold on_env.
  - pose proof (read_keeps (P := owns (W := E) R) (h_env h) x Hh). by destruct (sys_read _ _).
  - pose proof (write_keeps (P := owns (W := E) R) (h_env h) x Hh). by destruct (sys_write _ _).
Qed.

Lemma on_env_hoare {A} (m : St E A) R Q h :
  hoare (owns R) m Q -> owns R h -> Q (on_env m h).2 (h_env (on_env m h).1).
Proof. intros Hm Hh. specialize (Hm (h_env h) Hh). unfold on_env. by destruct (m _). Qed.

Lemma server_connection_obtains address port : obtains KFd (server_connection address port).
Proof.
  intros R. unfold server_connection.
  eapply own_obtain; [apply rpc_listen_obtains|intros l Hl|intros l Hl Hni].
  - rewrite (proj2 (Z.ltb_lt _ _)) by done. apply own_ret. auto with lia.
  - rewrite (proj2 (Z.ltb_ge _ _)) by done.
    eapply own_obtain_at; [apply rpc_accept_obtains; set_solver|intros c Hc|intros c Hc Hcn].
    + apply own_return; [auto with own|done|]. intros _. apply own_ret. auto.
    + change (KFd, c) with (Fd c) in *. change (KFd, l) with (Fd l) in *.
      replace ({[Fd c]} ∪ ({[Fd l]} ∪ R)) with ({[Fd l]} ∪ ({[Fd c]} ∪ R)) by set_solver.
      apply own_return; [auto with own|set_solver|]. intros _.
      apply own_ret. intros w Hw. right. split_and!; [done|set_solver|done].
Qed.

Lemma server_main_ends fuel address port R (h h' : host E) code :
  owns R h -> server_main fuel address port h = Some (h', code) ->
  (code = 0 \/ code = 1) /\ owns R h'.
Proof.
  intros Hh Hm. unfold server_main in Hm.
  pose proof (on_env_hoare _ R _ h (server_connection_obtains address port R) Hh) as Hc.
  destruct (on_env (server_connection address port) h) as [h1 c]. cbn [fst snd] in Hc.
  destruct Hc as [[Hn Ho]|(Hn & Hni & Ho)].
  { rewrite (proj2 (Z.ltb_lt _ _)) in Hm by done. simplify_eq. auto. }
  rewrite (proj2 (Z.ltb_ge _ _)) in Hm by done.
  destruct (command_loop fuel (new_engine h1)) as [e|] eqn:El; [|done]. cbn [mbind option_bind] in Hm.
  pose proof (host_owns_posix ({[Fd c]} ∪ R)) as Hpk.
  apply (command_loop_keeps (owns ({[Fd c]} ∪ R))) in El; [| |exact Ho].
  2:{ intros hd Hin w r Hw. unfold owns, held, host_ledger in *.
      by rewrite (sim_function_env hd w r Hin). }
  pose proof (on_env_hoare _ _ _ (fd_ e) (close_returns c ({[Fd c]} ∪ R) ltac:(set_solver)) El) as Hw.
  destruct (on_env (sys_close c) (fd_ e)) as [h4 a4]. simplify_eq/=. split; [auto|].
  unfold owns, held, host_ledger in *. set_solver.
Qed.
End Server.

(** ** The client over the simulation *)

(** The client's end of a connection to a running server: reading from an
    empty buffer lets the server take a turn of its loop. *)
Record sim_link := MkSimLink {
  sk_rx : list byte;
  sk_server : Engine (host socket);
  sk_serving : bool
}.

Definition sim_settle (l : sim_link) : sim_link :=
  if sk_serving l then
    let '(e, go) := handle_commands (sk_server l) in
    let s := h_env (fd_ e) in
    MkSimLink (sk_rx l ++ so_tx s)
      (MkEngine (MkHost (h_sim (fd_ e)) (MkSocket (so_rx s) [] (so_sched s))) (last_error_ e)) go
  else l.

#[export] Instance sim_link_posix : Posix sim_link := {|
  sys_read l n :=
    let l := match sk_rx l with [] => sim_settle l | _ => l end in
    (MkSimLink (drop n (sk_rx l)) (sk_server l) (sk_serving l), SysOk (take n (sk_rx l)));
  sys_write l bs :=
    let s := h_env (fd_ (sk_server l)) in
    (MkSimLink (sk_rx l)
       (MkEngine (MkHost (h_sim (fd_ (sk_server l))) (MkSocket (so_rx s ++ bs) (so_tx s) (so_sched s)))
                 (last_error_ (sk_server l)))
       (sk_serving l), SysOk (List.length bs));
  io_patience _ := 0%nat
|}.

#[export] Instance sim_link_plug : Plug sim_link := {|
  plug_accept _ l := l;
  plug_idle l := l;
  plug_sent _ := []
|}.

Definition sim_board : board sim_link :=
  MkBoard (MkSimLink [] (new_engine (MkHost sim.sim_start (MkSocket [] [] []))) true)
          {[Fd 2]} 3 0 [] [].

(** The whole of client.cpp against the whole of server.cpp: exit code 0, and
    the simulated sensor has warmed up to its maximum. *)
Example client_over_sim :
  let '(b, code) := client_main "127.0.0.1" 3333 sim_board in
  code = 0 /\ sim.g_temp (h_sim (fd_ (sk_server (bd_dev b)))) = 1800 /\
  elements (held b) = [Fd 2].
Proof. vm_compute. by split_and!. Qed.

(** ** Theorems *)

(** C23: the dispatcher generated from a namespace ([dispatch_ns]) and the fold
    over explicit handlers ([dispatch] of dispatch.hpp) agree on every header
    and every connection: both run [invoke_one] for the first handler with the
    header's id and report [no_match] otherwise. *)
Theorem dispatchers_agree {W} `{Posix W} (members : list (member W)) hs e header :
  rpc_handlers members = Some hs ->
  dispatch_ns members e header = Some (dispatch hs e header) /\
  dispatch hs e header =
    match List.find (fun h => bool_decide (fh_id header = d_id (hd_desc h))) hs with
    | Some h => invoke_one (hd_desc h) (hd_function h) e header
    | None => (e, no_match)
    end.
Proof.
  intros Hm. unfold dispatch_ns. rewrite Hm. cbn [mbind option_bind].
  by rewrite dispatch_handlers_find, dispatch_find.
Qed.

Definition idle_host : Engine (host socket) :=
  new_engine (MkHost sim.sim_start (MkSocket [] [] [])).

Lemma dispatchers_agree_witness :
  dispatch_ns sim_members idle_host (MkFrameHeader id_get_panid 0) =
  Some (dispatch sim_handlers idle_host (MkFrameHeader id_get_panid 0)).
Proof.
  exact (proj1 (dispatchers_agree sim_members sim_handlers idle_host
                  (MkFrameHeader id_get_panid 0) eq_refl)).
Defined.

(** The number the catalog prints is the decimal numeral [%u] prints, for
    every [unsigned] value, and [tmp] is never written out of bounds. *)
Theorem catalog_number out v : is_u32 v -> append_u32 out v = Some (out ++ fmt_u v).
Proof. apply append_u32_prints. Qed.

Lemma catalog_number_witness : append_u32 [] 4294967295 = Some (lit "4294967295").
Proof. rewrite (catalog_number [] 4294967295); [reflexivity|unfold is_u32; lia]. Defined.

(** whatever a client sends over whatever connection, for as long as it
    likes, the simulated temperature stays between 13 and 18 degrees in steps
    of one, and the simulated sensor keeps its address. *)
Theorem sim_temperature_bounded {E} `{Posix E} fuel (e e' : Engine (host E)) :
  sim_ok (h_sim (fd_ e)) -> command_loop fuel e = Some e' -> sim_ok (h_sim (fd_ e')).
Proof.
  intros He. apply (command_loop_keeps (fun h => sim_ok (h_sim h)) sim_functions_ok). exact He.
Qed.

(** A client that sends three requests and leaves. *)
Definition three_requests : Engine (host socket) :=
  new_engine (MkHost sim.sim_start
    (MkSocket (frame id_get_last_temp MkEmptyReq ++ frame id_get_last_temp MkEmptyReq ++
               frame id_get_panid MkEmptyReq) [] [])).

Lemma sim_temperature_bounded_witness :
  exists e, command_loop 4 three_requests = Some e /\ sim_ok (h_sim (fd_ e)) /\
            sim.g_temp (h_sim (fd_ e)) = 1500.
Proof.
  eexists. split; [vm_compute; reflexivity|]. split; [|reflexivity].
  eapply (sim_temperature_bounded 4 three_requests);
    [unfold sim_ok; cbn; split_and!; done|vm_compute; reflexivity].
Defined.

(** A turn of the simulation's server on a well-formed request runs the
    function of its name once, writes exactly one frame with its answer and
    goes on; a request for anything else, [get_sensor_addr] of the newer
    clients among it, is answered with [unknown_api] and ends the connection. *)
Theorem sim_turn {E} `{Posix E, !PosixLaws E, !Stream E} (e : Engine (host E)) bs :
  stream_ok (fd_ e) ->
  (forall h (req : d_req (hd_desc h)),
     In h sim_handlers -> rx (fd_ e) = frame (d_id (hd_desc h)) req ++ bs ->
     exists s w, io_step (fd_ e) s bs (tx (fd_ e)) /\
       handle_commands e = (MkEngine w ec_none, true) /\
       io_step (hd_function h s req).1 w bs
         (tx (fd_ e) ++ frame (d_id (hd_desc h)) (hd_function h s req).2)) /\
  (forall T `(WireType T) i (x : T),
     api_id_wf i -> i <> id_error -> sim_handler_for (E := E) i = None ->
     rx (fd_ e) = frame i x ++ bs ->
     exists w code, handle_commands e = (MkEngine w code, false) /\
       io_step (fd_ e) w bs (tx (fd_ e) ++ error_frame ec_unknown_api)).
Proof.
  intros Hok. split; intros; [by apply handle_commands_answers|].
  by apply (handle_commands_unknown e i x).
Qed.

Lemma sim_turn_witness :
  exists w code,
    handle_commands (new_engine (MkHost sim.sim_start
      (MkSocket (frame id_get_sensor_addr MkEmptyReq ++ []) [] [EvIntr; EvChunk 4]))) =
    (MkEngine w code, false).
Proof.
  refine (match proj2 (sim_turn (new_engine (MkHost sim.sim_start
      (MkSocket (frame id_get_sensor_addr MkEmptyReq ++ []) [] [EvIntr; EvChunk 4]))) [] _)
      EmptyReq _ id_get_sensor_addr MkEmptyReq _ _ _ _ with
    | ex_intro _ w (ex_intro _ code (conj E _)) => ex_intro _ w (ex_intro _ code E) end);
    try reflexivity; try done. repeat constructor.
Defined.

(** neither program of the host build leaks a descriptor, whatever the
    network does: each exits with code 0 or 1 holding what it started with. *)
Theorem host_programs_leak_nothing {W E}
    `{Posix W, Sockets W, Ledger W, !SocketLaws W, !forall R, PosixKeeps (owns (W := W) R)}
    `{Posix E, Sockets E, Ledger E, !SocketLaws E, !forall R, PosixKeeps (owns (W := E) R)}
    address port R (w : W) fuel (h h' : host E) code :
  owns R w -> owns R h -> server_main fuel address port h = Some (h', code) ->
  ((client_main address port w).2 = 0 \/ (client_main address port w).2 = 1) /\
  owns R (client_main address port w).1 /\
  (code = 0 \/ code = 1) /\ owns R h'.
Proof.
  intros Hw Hh Hs. destruct (client_main_ends address port R w Hw) as [Hc Ho].
  destruct (server_main_ends fuel address port R h h' code Hh Hs). by split_and!.
Qed.

Definition serving_board : host (board socket) :=
  MkHost sim.sim_start (MkBoard (MkSocket [] [] []) {[Fd 2]} 3 0
    [NetOk; NetOk; NetOk; NetClient (frame id_get_channel MkEmptyReq)] []).

Lemma host_programs_leak_nothing_witness :
  owns {[Fd 2]} (client_main "127.0.0.1" 3333 sim_board).1.
Proof.
  destruct (server_main 3 "127.0.0.1" 3333 serving_board) as [[h' code]|] eqn:Es.
  - exact (proj1 (proj2 (host_programs_leak_nothing "127.0.0.1" 3333 {[Fd 2]} sim_board 3
             serving_board h' code eq_refl eq_refl Es))).
  - exfalso. apply (f_equal (fun o => match o with Some _ => true | None => false end)) in Es.
    vm_compute in Es. discriminate.
Defined.
