(* ===== verification/EndToEnd.v ===== *)
(** * Client and server together

    [link F] is the two ends of one TCP connection: the client's socket
    buffer, and the server running [serve_client] on a [device F].  Whatever
    the client writes reaches the server; when the client reads and nothing
    is there, the server takes one turn of its loop.  On a link at rest every
    function of the client's API returns what the firmware's returns
    ([served F]), leaves the firmware in the state that call leaves it in, and
    the link at rest again: the RPC layer is transparent. *)

From Stdlib Require Import ZArith Lia.
From Stdlib Require Import Strings.Byte.
From stdpp Require Import base tactics list numbers option vector.
From S2P Require Import Prelude Protocol Reflection Posix Engine Rpc ClientApi ZigbeeApi ThermostatApp.
From S2P Require Import ThermostatFacts RpcServer RpcServerFacts Device.

Record link (F : Type) := MkLink {
  lk_rx : list byte;
  lk_sched : list sys_event;
  lk_server : Engine (server (device F));
  lk_serving : bool
}.

Arguments MkLink {F} _ _ _ _.
Arguments lk_rx {F} _.
Arguments lk_sched {F} _.
Arguments lk_server {F} _.
Arguments lk_serving {F} _.

Section Link.
Context {F : Type} `{ZigbeeApi F}.

Definition server_sock (e : Engine (server (device F))) : socket := d_sock (s_env (fd_ e)).

(** The server's socket with other contents. *)
Definition set_sock (s : socket) (e : Engine (server (device F))) : Engine (server (device F)) :=
  MkEngine (MkServer (s_client_fd (fd_ e)) (MkDevice s (d_fw (s_env (fd_ e))) (d_ppp (s_env (fd_ e)))))
           (last_error_ e).

(** One turn of [serve_client]'s loop, and the delivery of what it wrote. *)
Definition settle (l : link F) : link F :=
  if lk_serving l && d_ppp (s_env (fd_ (lk_server l))) then
    let '(e, go) := serve_step (lk_server l) in
    let s := server_sock e in
    MkLink (lk_rx l ++ so_tx s) (lk_sched l) (set_sock (MkSocket (so_rx s) [] (so_sched s)) e) go
  else l.

Definition link_transfer (l : link F) (n : nat) : link F * sysret nat :=
  match lk_sched l with
  | [] => (l, SysOk n)
  | EvIntr :: es => (MkLink (lk_rx l) es (lk_server l) (lk_serving l), SysErr EINTR)
  | EvFail e :: es => (MkLink (lk_rx l) es (lk_server l) (lk_serving l), SysErr e)
  | EvChunk k :: es => (MkLink (lk_rx l) es (lk_server l) (lk_serving l), SysOk (min (S k) n))
  end.

Definition link_read (l : link F) (n : nat) : link F * sysret (list byte) :=
  let l := match lk_rx l with [] => settle l | _ => l end in
  match link_transfer l n with
  | (l, SysOk k) =>
      (MkLink (drop k (lk_rx l)) (lk_sched l) (lk_server l) (lk_serving l),
       SysOk (take k (lk_rx l)))
  | (l, SysErr e) => (l, SysErr e)
  end.

Definition link_write (l : link F) (bs : list byte) : link F * sysret nat :=
  match link_transfer l (length bs) with
  | (l, SysOk k) =>
      let s := server_sock (lk_server l) in
      (MkLink (lk_rx l) (lk_sched l)
         (set_sock (MkSocket (so_rx s ++ take k bs) (so_tx s) (so_sched s)) (lk_server l))
         (lk_serving l), SysOk k)
  | (l, SysErr e) => (l, SysErr e)
  end.
End Link.

#[export] Instance link_posix {F} `{ZigbeeApi F} : Posix (link F) := {|
  sys_read := link_read;
  sys_write := link_write;
  io_patience l := length (lk_sched l)
|}.

#[local] Opaque Nat.min.

Section LinkLaws.
Context {F : Type} `{ZigbeeApi F}.

Lemma settle_sched (l : link F) : lk_sched (settle l) = lk_sched l.
Proof. unfold settle. case_match; [|done]. by destruct (serve_step _). Qed.

#[export] Instance link_posix_laws : PosixLaws (link F).
Proof.
  split; cbn; unfold link_read, link_write, link_transfer; intros l n l'.
  all: try (set (l0 := match lk_rx l with [] => settle l | _ => l end);
    assert (E0 : length (lk_sched l0) = length (lk_sched l))
      by (unfold l0; case_match; rewrite ?settle_sched; done); clearbody l0).
  all: match goal with |- context [match lk_sched ?x with _ => _ end] =>
         destruct (lk_sched x) as [|[|e|k] es] eqn:Es end;
    apply (f_equal length) in Es; intros; simplify_eq/=; rewrite ?length_take; cbn in *; lia.
Qed.

#[export] Program Instance link_stream : Stream (link F) := {|
  world_rest := Engine (server (device F)) * bool;
  rest l := (set_sock (MkSocket [] [] (so_sched (server_sock (lk_server l)))) (lk_server l),
             lk_serving l);
  rx := lk_rx;
  tx l := so_rx (server_sock (lk_server l));
  stream_ok l := Forall event_ok (lk_sched l) /\ so_tx (server_sock (lk_server l)) = []
|}.
Next Obligation.
  intros [rx sch e b] n [Hok Ht] Hn. exists (link_read (MkLink rx sch e b) n).1.
  cbn in *. unfold link_read, link_transfer. cbn [lk_rx].
  destruct rx as [|b0 rx]; [cbn in Hn; lia|].
  destruct sch as [|[|er|k] es]; cbn -[take drop]; [| |by inversion Hok|].
  - split_and!; try done. right. exists (take n (b0 :: rx)).
    split_and!; [|done|by rewrite take_drop]. rewrite nonempty_length, length_take. cbn in *. lia.
  - apply Forall_inv_tail in Hok. split_and!; try done. by left.
  - apply Forall_inv_tail in Hok. split_and!; try done. right.
    exists (take (min (S k) n) (b0 :: rx)).
    split_and!; [|done|by rewrite take_drop]. rewrite nonempty_length, length_take. cbn in *. lia.
Qed.
Next Obligation.
  intros [rx sch e b] bs [Hok Ht] Hn%nonempty_length.
  exists (link_write (MkLink rx sch e b) bs).1.
  cbn in *. unfold link_write, link_transfer. cbn [lk_sched].
  destruct sch as [|[|er|k] es]; cbn -[take]; [| |by inversion Hok|].
  - split_and!; try done. right. exists (length bs). split_and!; [lia|done|]. done.
  - apply Forall_inv_tail in Hok. split_and!; try done. by left.
  - apply Forall_inv_tail in Hok. split_and!; try done. right.
    eexists. split_and!; [|reflexivity|reflexivity]. lia.
Qed.
End LinkLaws.

(** ** One call over a link at rest *)

Section Remote.
Context {F : Type} `{ZigbeeApi F}.

(** Nothing in flight, and the server waiting for a request with firmware
    [f]. *)
Inductive at_rest : link F -> F -> Prop :=
  | At_rest sch fd sk f code :
      Forall event_ok sch -> 0 <= fd -> so_rx sk = [] -> so_tx sk = [] -> socket_ok sk ->
      at_rest (MkLink [] sch (MkEngine (MkServer fd (MkDevice sk f true)) code) true) f.

Lemma link_read_settle (l : link F) n :
  lk_rx l = [] -> lk_rx (settle l) <> [] -> link_read l n = link_read (settle l) n.
Proof.
  intros Hl Hs. unfold link_read. rewrite Hl. by destruct (lk_rx (settle l)).
Qed.

Lemma read_all_settle (l : link F) n :
  (0 < n)%nat -> lk_rx l = [] -> lk_rx (settle l) <> [] ->
  read_all l n = read_all (settle l) n.
Proof.
  intros Hn Hl Hs. unfold read_all.
  destruct (read_loop_total (io_fuel (settle l) n) (settle l) n []) as [r E]; [lia|].
  rewrite E. unfold io_fuel in *. cbn [io_patience link_posix] in *. rewrite settle_sched in E.
  destruct n as [|n]; [lia|]. cbn [Nat.add read_loop] in *.
  change (sys_read (W := link F)) with (@link_read F H) in *.
  by rewrite (link_read_settle l _ Hl Hs), E.
Qed.

Lemma await_settle d (l : link F) code code' :
  lk_rx l = [] -> lk_rx (settle l) <> [] ->
  await_response d (MkEngine l code) = await_response d (MkEngine (settle l) code').
Proof.
  intros Hl Hs. unfold await_response, receive_header. cbn [fd_].
  rewrite (read_all_settle l) by (done || (cbn; lia)). done.
Qed.

(** Sending a request over a link at rest. *)
Lemma send_at_rest {T} `{WireType T} i (x : T) l f :
  at_rest l f ->
  exists sch fd sk code, send (new_engine l) i x =
      (MkEngine (MkLink [] sch (MkEngine (MkServer fd (MkDevice sk f true)) code) true) ec_none,
       true) /\
    Forall event_ok sch /\ 0 <= fd /\ so_rx sk = frame i x /\ so_tx sk = [] /\ socket_ok sk.
Proof.
  intros [sch fd sk f' code Hsch Hfd Hrx Htx Hok].
  set (l0 := MkLink _ _ _ _).
  assert (Hl0 : stream_ok l0) by by split.
  destruct (send_stream (new_engine l0) i x Hl0) as (l1 & E & [Hs1 Ht1] & Hrx1 & Htx1 & Hre1).
  rewrite E. destruct l1 as [rx1 sch1 [[fd1 [sk1 f1 p1]] c1] b1].
  cbn in *. rewrite Hrx in Htx1. injection Hre1 as -> Hsc -> -> -> ->. subst rx1.
  exists sch1, fd, sk1, code. split_and!; try done.
  unfold socket_ok in *. by rewrite Hsc.
Qed.

(** The turn the server takes on it. *)
Lemma settle_answers h (req : d_req (h_desc h)) resp sch fd sk f f' code :
  In h handlers -> 0 <= fd -> so_rx sk = frame (d_id (h_desc h)) req -> so_tx sk = [] ->
  socket_ok sk ->
  (forall sk, so_rx sk = [] ->
     h_fun h (MkServer fd (MkDevice sk f true)) req = (MkServer fd (MkDevice sk f' true), resp)) ->
  exists sk' code',
    settle (MkLink [] sch (MkEngine (MkServer fd (MkDevice sk f true)) code) true) =
      MkLink (frame (d_id (h_desc h)) resp) sch
        (MkEngine (MkServer fd (MkDevice sk' f' true)) code') true /\
    so_rx sk' = [] /\ so_tx sk' = [] /\ socket_ok sk'.
Proof.
  intros Hh Hfd Hrx Htx Hok HF. set (e := MkEngine _ _).
  assert (Hok0 : stream_ok (fd_ e)) by exact Hok.
  destruct (serve_step_answers e h req [] Hh Hok0) as (s & w & (Hs1 & Hs2 & Hs3 & Hs4) & E & Hio).
  { cbn. by rewrite app_nil_r. }
  { intros [fd1 [sk1 f1 p1]] (Hk1 & Hk2 & Hk3 & Hk4). cbn in *.
    injection Hk4 as -> -> ->. by rewrite HF. }
  destruct s as [fd1 [sk1 f1 p1]]. cbn in Hs1, Hs2, Hs3, Hs4. injection Hs4 as -> -> ->.
  rewrite HF in Hio by done. destruct Hio as (Hw1 & Hw2 & Hw3 & Hw4).
  destruct w as [fd2 [sk2 f2 p2]]. cbn in Hw1, Hw2, Hw3, Hw4. injection Hw4 as -> -> ->.
  unfold settle. cbn [lk_serving lk_server e fd_ s_env d_ppp andb].
  fold e. rewrite E. cbn. rewrite Hw2, Hw3, Hs2, Hs3, Htx.
  exists (MkSocket [] [] (so_sched sk2)), ec_none. by split_and!.
Qed.

(** A call reaches its handler once and returns its answer. *)
Lemma remote_call h (req : d_req (h_desc h)) resp l f f' :
  In h handlers -> at_rest l f ->
  (forall fd sk, 0 <= fd -> so_rx sk = [] ->
     h_fun h (MkServer fd (MkDevice sk f true)) req = (MkServer fd (MkDevice sk f' true), resp)) ->
  exists l', call (h_desc h) (new_engine l) req = (MkEngine l' ec_none, Some resp) /\
    at_rest l' f'.
Proof.
  intros Hh Hl HF. unfold call.
  destruct (send_at_rest (d_id (h_desc h)) req l f Hl)
    as (sch & fd & sk & code & E & Hsch & Hfd & Hrx & Htx & Hok). rewrite E.
  set (l1 := MkLink [] sch _ true).
  destruct (settle_answers h req resp sch fd sk f f' code) as (sk' & code' & Es & Hrx' & Htx' & Hok');
    [done..| |]. { intros sk2 Hsk2. by apply HF. }
  fold l1 in Es. rewrite (await_settle _ l1 _ ec_none); [|done|rewrite Es; apply frame_nonempty].
  destruct (handlers_desc_ok h Hh) as [Hd _].
  destruct (await_response_ok (h_desc h) Hd (MkEngine (settle l1) ec_none) resp [])
    as (l2 & E2 & (Hs2 & Ht2) & Hrx2 & Htx2 & Hre2).
  { cbn [fd_]. rewrite Es. by split. }
  { cbn [fd_]. rewrite Es, app_nil_r. done. }
  exists l2. split; [done|]. cbn [fd_] in *. rewrite Es in Htx2, Hre2.
  destruct l2 as [rx2 sch2 [[fd2 [sk2 f2 p2]] c2] b2]. cbn in *.
  injection Hre2 as -> Hsc -> -> -> ->. subst rx2. rewrite Hrx' in Htx2.
  constructor; try done. unfold socket_ok in *. by rewrite Hsc.
Qed.
End Remote.

(** ** Every handler runs the firmware's function *)

Section Handlers.
Context {F : Type} `{ZigbeeApi F}.

(** On a connected device with nothing pending, handler [G] does to the
    firmware what [g] does and answers [w] of its result. *)
Definition lifts {Req Resp A} (G : server (device F) -> Req -> server (device F) * Resp)
    (req : Req) (g : F -> F * A) (w : A -> Resp) : Prop :=
  forall fd sk f, 0 <= fd -> so_rx sk = [] ->
    G (MkServer fd (MkDevice sk f true)) req =
    (MkServer fd (MkDevice sk (g f).1 true), w (g f).2).

Ltac lifts_tac op :=
  intros fd sk f _ _; unfold op, in_env; cbn; unfold on_fw; cbn;
  match goal with |- context [let '(_, _) := (let '(_, _) := ?x in _) in _] => by destruct x end.

Lemma lift_get_short_addr r :
  lifts handle_get_short_addr r zigbee_get_short_addr (fun v => MkU16Resp (to_le16 v)).
Proof. lifts_tac @handle_get_short_addr. Qed.

Lemma lift_get_panid r :
  lifts handle_get_panid r zigbee_get_panid (fun v => MkU16Resp (to_le16 v)).
Proof. lifts_tac @handle_get_panid. Qed.

Lemma lift_get_channel r :
  lifts handle_get_channel r zigbee_get_channel (fun v => MkU8Resp (Z_to_byte v)).
Proof. lifts_tac @handle_get_channel. Qed.

Lemma lift_get_sensor_addr r :
  lifts handle_get_sensor_addr r zigbee_get_sensor_addr (fun v => MkU16Resp (to_le16 v)).
Proof. lifts_tac @handle_get_sensor_addr. Qed.

Lemma lift_get_last_temp r :
  lifts handle_get_last_temp r zigbee_get_last_temp (fun v => MkI16Resp (to_le16_s v)).
Proof. lifts_tac @handle_get_last_temp. Qed.

Lemma lift_open_network r :
  lifts handle_open_network r (fun f => zigbee_open_network f (byte_to_Z (onr_duration r)))
    (fun v => MkI32Resp (to_le32_s v)).
Proof. lifts_tac @handle_open_network. Qed.

Lemma lift_find_sensor r :
  lifts handle_find_sensor r
    (fun f => zigbee_find_sensor f (from_le16 (fsr_short_addr r)) k_rpc_timeout_ms)
    (fun v => MkZbAddr (to_le32_s (za_err v)) (to_le16 (za_short_addr v)) (Z_to_byte (za_ep v))).
Proof. lifts_tac @handle_find_sensor. Qed.

(** The device and endpoint a request names. *)
Definition on_addr {A} (g : F -> Z -> Z -> Z -> F * A) (r : zb_addr_t) (f : F) : F * A :=
  g f (from_le16 (zba_short_addr r)) (byte_to_Z (zba_ep r)) k_rpc_timeout_ms.

Lemma lift_read_basic r :
  lifts handle_read_basic r (on_addr zigbee_read_basic r)
    (fun v => MkZbBasic (to_le32_s (zb_err v)) (zb_manufacturer v) (zb_model v)).
Proof. unfold on_addr. lifts_tac @handle_read_basic. Qed.

Lemma lift_bind_sensor r :
  lifts handle_bind_sensor r (on_addr zigbee_bind_sensor r) (fun v => MkI32Resp (to_le32_s v)).
Proof. unfold on_addr. lifts_tac @handle_bind_sensor. Qed.

Lemma lift_subscribe_sensor r :
  lifts handle_subscribe_sensor r (on_addr zigbee_subscribe_sensor r)
    (fun v => MkI32Resp (to_le32_s v)).
Proof. unfold on_addr. lifts_tac @handle_subscribe_sensor. Qed.

Lemma lift_config_report r :
  lifts handle_config_report r (on_addr zigbee_config_report r)
    (fun v => MkI32Resp (to_le32_s v)).
Proof. unfold on_addr. lifts_tac @handle_config_report. Qed.

Lemma lift_read_temp r :
  lifts handle_read_temp r (on_addr zigbee_read_temp r)
    (fun v => MkZbTemp (to_le32_s (zt_err v)) (to_le16_s (zt_measured v))
                (to_le16_s (zt_min_measured v)) (to_le16_s (zt_max_measured v))
                (to_le16_s (zt_tolerance v))).
Proof. unfold on_addr. lifts_tac @handle_read_temp. Qed.

(** The announcement wait of a client that stays connected. *)
Lemma wait_annce_loop_sliced n : forall fd sk (f : F),
  0 <= fd -> so_rx sk = [] -> Z.of_nat n * k_annce_slice_ms < 2 ^ 32 ->
  wait_annce_loop n (MkServer fd (MkDevice sk f true)) (Z.of_nat n * k_annce_slice_ms) =
  Some (MkServer fd (MkDevice sk (sliced_wait n f).1 true), (sliced_wait n f).2).
Proof.
  unfold k_annce_slice_ms. induction n as [|n IH]; intros fd sk f Hfd Hsk Hn; [done|].
  cbn [wait_annce_loop sliced_wait]. rewrite (proj2 (Z.ltb_lt _ _)) by lia.
  unfold client_connected. cbn [s_client_fd s_env ppp_uart_is_connected recv_peek device_env
    d_ppp d_sock negb orb]. rewrite (proj2 (Z.ltb_ge _ _)), Hsk by lia.
  cbn [Z.eqb EAGAIN EWOULDBLOCK EINTR orb negb Pos.eqb]. unfold k_annce_slice_ms.
  rewrite (proj2 (Z.ltb_ge _ _)) by lia.
  unfold in_env. cbn. unfold on_fw. cbn.
  destruct (zigbee_wait_annce f 250) as [f1 v]. destruct (Z.eqb_spec v 0) as [->|]; cbn [negb];
    [|done].
  rewrite u32_id by (unfold is_u32; lia).
  replace (Z.of_nat (S n) * 250 - 250) with (Z.of_nat n * 250) by lia. apply IH; [done..|lia].
Qed.

Lemma lift_wait_annce r :
  lifts handle_wait_annce r (sliced_wait 720) (fun v => MkU16Resp (to_le16 v)).
Proof.
  intros fd sk f Hfd Hsk. unfold handle_wait_annce, wait_annce_fuel.
  change k_annce_timeout_ms with (Z.of_nat 720 * k_annce_slice_ms).
  by rewrite (wait_annce_loop_sliced 720) by done.
Qed.
End Handlers.

(** ** The client's API refines the firmware's *)

Section Refinement.
Context {F : Type} `{ZigbeeApi F, !ZigbeeApiTyped F}.

(** An attached client on a link at rest, and the firmware it reaches. *)
Definition remote (c : client (link F)) (s : served F) : Prop :=
  0 <= g_fd c /\ at_rest (c_world c) (sv_fw s).

(** The function of the client's API that calls handler [h] with [req], and
    the firmware's function [g] it stands for. *)
Lemma remote_alike {A} (h : handler) (req : d_req (h_desc h)) (g : F -> F * A)
    (w : A -> d_resp (h_desc h)) (fail : A) (ok : d_resp (h_desc h) -> A) (Q : A -> Prop) :
  lifts (h_fun h) req g w -> In h handlers ->
  (forall f, Q (g f).2) -> (forall f, ok (w (g f).2) = (g f).2) ->
  steps_alike remote Q (with_call (fun e => call (h_desc h) e req) fail ok) (on_served g).
Proof.
  intros Hl Hh HQ Hok [fd l] [f] [Hfd Hr]. cbn in *.
  destruct (remote_call h req (w (g f).2) l f (g f).1 Hh Hr) as (l' & E & Hr').
  { intros. by apply Hl. }
  unfold with_call, attached, engine, on_served. cbn [g_fd c_world sv_fw].
  rewrite (proj2 (Z.leb_le _ _)) by done. cbn [negb]. rewrite E.
  specialize (HQ f). specialize (Hok f). destruct (g f) as [f' v]. cbn in *. by split.
Qed.

Lemma sliced_wait_typed n : forall f : F, is_u16 (sliced_wait n f).2.
Proof.
  induction n as [|n IH]; intros f; cbn; [unfold is_u16; lia|].
  pose proof (wait_annce_typed f k_annce_slice_ms) as Ht.
  destruct (zigbee_wait_annce f k_annce_slice_ms) as [f' v]. by destruct (negb _).
Qed.

Lemma byte_id v : is_u8 v -> byte_to_Z (Z_to_byte v) = v.
Proof. intros Hv. rewrite Z_to_byte_to_Z. by apply u8_id. Qed.

Lemma le16_id v : is_u16 v -> from_le16 (to_le16 v) = v.
Proof. intros Hv. rewrite from_to_le16. by apply u16_id. Qed.

Lemma le16_s_id v : is_s16 v -> from_le16_s (to_le16_s v) = v.
Proof. intros Hv. rewrite from_to_le16_s. by apply s16_id. Qed.

Lemma le32_s_id v : is_s32 v -> from_le32_s (to_le32_s v) = v.
Proof. intros Hv. rewrite from_to_le32_s. by apply s32_id. Qed.

#[local] Opaque sliced_wait.

#[local] Hint Resolve find_sensor_typed read_basic_typed read_temp_typed sliced_wait_typed : zbr.

(** Reduces one field of the simulation to [remote_alike] with handler [h],
    request [r] and the lemma [l] about the handler. *)
Ltac remote_tac h r l :=
  let L := fresh in
  pose proof (l F _ r) as L; unfold on_addr in L; cbn [to_wire fsr_short_addr zba_short_addr zba_ep
    onr_duration] in L;
  rewrite ?le16_id, ?byte_id in L by assumption;
  refine (remote_alike h r _ _ _ _ _ L _ _ _);
  [ repeat first [left; reflexivity | right] | intros f; auto with zbr | intros f; cbn ].

#[export] Instance remote_sim : ApiSim remote.
Proof.
  split.
  - remote_tac (MkHandler (E := device F) desc.get_short_addr handle_get_short_addr) MkEmptyReq
      @lift_get_short_addr. apply le16_id; auto with zbr.
  - remote_tac (MkHandler (E := device F) desc.get_panid handle_get_panid) MkEmptyReq @lift_get_panid.
    apply le16_id; auto with zbr.
  - remote_tac (MkHandler (E := device F) desc.get_channel handle_get_channel) MkEmptyReq @lift_get_channel.
    apply byte_id; auto with zbr.
  - remote_tac (MkHandler (E := device F) desc.get_sensor_addr handle_get_sensor_addr) MkEmptyReq
      @lift_get_sensor_addr. apply le16_id; auto with zbr.
  - remote_tac (MkHandler (E := device F) desc.get_last_temp handle_get_last_temp) MkEmptyReq @lift_get_last_temp.
    apply le16_s_id; auto with zbr.
  - intros d Hd. remote_tac (MkHandler (E := device F) desc.open_network handle_open_network)
      (MkOpenNetworkReq (Z_to_byte d)) @lift_open_network. apply le32_s_id; auto with zbr.
  - intros t. remote_tac (MkHandler (E := device F) desc.wait_annce handle_wait_annce) MkEmptyReq
      @lift_wait_annce. apply le16_id; auto with zbr.
  - intros a t Ha. remote_tac (MkHandler (E := device F) desc.find_sensor handle_find_sensor)
      (MkFindSensorReq (to_le16 a)) @lift_find_sensor.
    destruct (find_sensor_typed f a k_rpc_timeout_ms) as (H1 & H2 & H3).
    rewrite le32_s_id, le16_id, byte_id by done. by destruct (zigbee_find_sensor _ _ _).2.
  - intros a ep t Ha Hep. remote_tac (MkHandler (E := device F) desc.read_basic handle_read_basic)
      (to_wire a ep) @lift_read_basic.
    rewrite le32_s_id by apply read_basic_typed. by destruct (zigbee_read_basic _ _ _ _).2.
  - intros a ep t Ha Hep. remote_tac (MkHandler (E := device F) desc.bind_sensor handle_bind_sensor)
      (to_wire a ep) @lift_bind_sensor. apply le32_s_id; auto with zbr.
  - intros a ep t Ha Hep. remote_tac (MkHandler (E := device F) desc.subscribe_sensor handle_subscribe_sensor)
      (to_wire a ep) @lift_subscribe_sensor. apply le32_s_id; auto with zbr.
  - intros a ep t Ha Hep. remote_tac (MkHandler (E := device F) desc.config_report handle_config_report)
      (to_wire a ep) @lift_config_report. apply le32_s_id; auto with zbr.
  - intros a ep t Ha Hep. remote_tac (MkHandler (E := device F) desc.read_temp handle_read_temp)
      (to_wire a ep) @lift_read_temp.
    destruct (read_temp_typed f a ep k_rpc_timeout_ms) as (H1 & H2 & H3 & H4 & H5).
    rewrite le32_s_id, !le16_s_id by done. by destruct (zigbee_read_temp _ _ _ _).2.
Qed.
End Refinement.
