(* ===== verification/EndToEndTheorems.v ===== *)
(** * Client and server together: theorems *)

From Stdlib Require Import ZArith Lia.
From Stdlib Require Import Strings.Byte.
From Stdlib Require Import String.
From stdpp Require Import base tactics list numbers option vector gmap.
From S2P Require Import Prelude Protocol Reflection Posix Engine Rpc ClientApi ZigbeeApi ThermostatApp.
From S2P Require Import ThermostatFacts RpcServer RpcServerFacts Device EndToEnd Freertos ZigbeeStack.
From S2P Require Import ZigbeeStackTheorems.

Section Theorems.
Context {F : Type} `{ZigbeeApi F, !ZigbeeApiTyped F}.

(** C1: each of the thirteen functions of the client's API, called on a link
    at rest with arguments of their C types, returns what the firmware's
    function returns ([served F]: with the server's timeouts, the announcement
    wait in slices), leaves the firmware in the state that function leaves it
    in and the link at rest again.  The RPC layer, over a connection that
    fragments and interrupts at will, is transparent. *)
Theorem remote_api_refines_firmware : ApiSim (W1 := client (link F)) (W2 := served F) remote.
Proof. exact remote_sim. Qed.

End Theorems.

(** C4: whatever the Zigbee API answers, the calls of the application are a
    prefix of one of its four sequences, and the whole of it when it reports
    success: nothing is configured on a sensor that was not found, bound and
    subscribed before, and the address and endpoint are those found. *)
Theorem app_call_order {W} `{ZigbeeApi W} probing (w : app_world W) :
  exists tr l rest,
    calls (aw_events (run probing w).1) = calls (aw_events w) ++ tr /\
    app_sequence probing l /\ tr ++ rest = l /\ ((run probing w).2 = success -> rest = []).
Proof.
  destruct (run_emits probing w) as (tr & E & l & rest & Hl & Hr & Hs).
  exists tr, l, rest. by split_and!.
Qed.

(** ** Instances *)

(** A sensor that joins, answers and reports 21.50 degrees. *)
Definition ok_zcl (cluster : Z) (vars : list attr_variable) : zb_callback :=
  cb_zcl (zcl_read_attr_rsp_cb (Some (MkReadAttrRsp cluster 0 vars))).

Definition sensor_script : list (list zb_callback) :=
  [ []; []; [];                                   (* panid, channel, open *)
    []; [annce 0x1234];                           (* the second slice of the wait *)
    []; [found 0x1234 1];
    []; [ok_zcl 0 [MkVariable 0 4 (Some [x02; x41; x42])]]; [];
    []; [cb_bind (Some (MkBindResult 0 (Some 0))) 0]; [];
    []; [cb_bind (Some (MkBindResult 0 (Some 0))) 1]; [];
    []; [cb_zcl (zcl_config_report_rsp_cb (Some 0))]; [];
    []; [temp_answer]; [] ].

Definition fresh_link : link (live script) :=
  MkLink [] [EvChunk 6; EvIntr; EvChunk 0]
    (new_engine (MkServer 5 (MkDevice (MkSocket [] [] [EvIntr; EvChunk 3])
                                      (started_live sensor_script) true))) true.

Lemma fresh_link_remote : remote (MkClient 3 fresh_link) (Served (started_live sensor_script)).
Proof. split; [cbn; lia|]. constructor; try done; repeat constructor. Qed.

Lemma remote_api_refines_firmware_witness :
  (ClientApi.zigbee_get_panid (MkClient 3 fresh_link)).2 = 0x1a62.
Proof.
  destruct (sim_panid (ApiSim := remote_api_refines_firmware (F := live script)) _ _ fresh_link_remote)
    as (_ & E & _).
  exact E.
Defined.

