(* ===== verification/HostSys.v ===== *)
(** * The client's process: what serial_io.c, ppp_link.c and ppp_lwip.c share

    [proc E] is the process: the objects the three files allocate, by address
    ([p_links], [p_serials]), its threads, the static variables of ppp_lwip.c,
    and the operating system and lwIP [E].  Objects are reached through
    pointers, so that an object shared by two components is one object;
    reaching one that is not there, writing outside its buffers, or waiting
    for a thread that goes on forever, raises [p_fault].

    [HostSys] is the operating system, [Lwip] the lwIP library: its calls
    return the callbacks they make, which then run in the process. *)

From Stdlib Require Import ZArith Lia.
From Stdlib Require Import Strings.Byte Strings.String.
From stdpp Require Import base tactics list numbers option gmap.
From S2P Require Import Prelude Posix Sockets.

Definition BUF_SIZE : nat := 1518.

(** ** The operating system *)

(** The part of [struct termios] the code touches; [t_rest] is the rest. *)
Record termios := MkTermios {
  t_cflag : Z;
  t_ispeed : Z;
  t_ospeed : Z;
  t_vmin : Z;
  t_vtime : Z;
  t_rest : Z
}.

(** Who runs while the caller is preempted or blocked: a turn of a thread of
    the process, of lwIP's own thread, or a signal. *)
Inductive turn :=
  | TurnThread (t : Z)
  | TurnTcpip
  | TurnSignal.

Inductive open_flag :=
  | O_RDWR
  | O_NOCTTY
  | O_NONBLOCK_FLAG.

Class HostSys (E : Type) := {
  os_schedule : St E (list turn);
  os_open : string -> list open_flag -> St E Z;
  os_close : Z -> St E Z;
  (** The null pointer is 0. *)
  os_calloc : St E Z;
  os_free : Z -> St E unit;
  (** A thread other than 0, or 0 where [pthread_create] fails. *)
  os_thread_create : St E Z;
  os_thread_join : Z -> St E unit;
  os_read : Z -> nat -> St E (sysret (list byte));
  os_write : Z -> list byte -> St E Z;
  (** [poll] for input, and [select], on one descriptor. *)
  os_poll : Z -> Z -> St E Z;
  os_select : Z -> St E Z;
  (** [poll] for output. *)
  os_poll_out : Z -> Z -> St E Z;
  os_usleep : Z -> St E unit;
  (** [fcntl] with [F_GETFL] and [F_SETFL]. *)
  os_getfl : Z -> St E Z;
  os_setfl : Z -> Z -> St E Z;
  (** [getsockopt] with [SO_ERROR]; [None] where it fails. *)
  os_so_error : Z -> St E (option Z);
  O_NONBLOCK : Z;
  os_errno : E -> Z;
  (** [ioctl(fd, TUNSETIFF, ...)] with a name and [IFF_TUN]. *)
  os_tunsetiff : Z -> list byte -> St E Z;
  os_tunsetnocsum : Z -> St E Z;
  os_tcgetattr : Z -> St E (option termios);
  os_tcsetattr : Z -> termios -> St E Z;
  os_tiocmget : Z -> St E (option Z);
  os_tiocmset : Z -> Z -> St E Z;
  cfmakeraw : termios -> termios;
  CLOCAL : Z;
  CREAD : Z;
  CRTSCTS : Z;
  TIOCM_DTR : Z;
  TIOCM_RTS : Z;
  speed_t : Z -> Z
}.

Class HostLaws (E : Type) `{HostSys E, Ledger E} : Prop := {
  os_schedule_balanced : balanced os_schedule;
  os_open_obtains p fl : obtains KFd (os_open p fl);
  os_close_returns fd : returns (Fd fd) (os_close fd);
  os_calloc_allocates : allocates KBlock os_calloc;
  os_free_returns p : returns (Block p) (os_free p);
  os_thread_allocates : allocates KThread os_thread_create;
  os_join_returns t : returns (Thread t) (os_thread_join t);
  os_read_borrows fd n : borrows (Fd fd) (os_read fd n);
  os_write_borrows fd bs : borrows (Fd fd) (os_write fd bs);
  os_poll_borrows fd t : borrows (Fd fd) (os_poll fd t);
  os_select_borrows fd : borrows (Fd fd) (os_select fd);
  os_poll_out_borrows fd t : borrows (Fd fd) (os_poll_out fd t);
  os_getfl_borrows fd : borrows (Fd fd) (os_getfl fd);
  os_setfl_borrows fd fl : borrows (Fd fd) (os_setfl fd fl);
  os_so_error_borrows fd : borrows (Fd fd) (os_so_error fd);
  os_usleep_balanced n : balanced (os_usleep n);
  os_tunsetiff_borrows fd n : borrows (Fd fd) (os_tunsetiff fd n);
  os_tunsetnocsum_borrows fd : borrows (Fd fd) (os_tunsetnocsum fd);
  os_tcgetattr_borrows fd : borrows (Fd fd) (os_tcgetattr fd);
  os_tcsetattr_borrows fd t : borrows (Fd fd) (os_tcsetattr fd t);
  os_tiocmget_borrows fd : borrows (Fd fd) (os_tiocmget fd);
  os_tiocmset_borrows fd b : borrows (Fd fd) (os_tiocmset fd b)
}.

#[export] Hint Resolve os_schedule_balanced os_open_obtains os_close_returns os_calloc_allocates os_free_returns
  os_thread_allocates os_join_returns os_read_borrows os_write_borrows os_poll_borrows
  os_select_borrows
  os_poll_out_borrows os_getfl_borrows os_setfl_borrows os_so_error_borrows os_usleep_balanced os_tunsetiff_borrows os_tunsetnocsum_borrows
  os_tcgetattr_borrows os_tcsetattr_borrows os_tiocmget_borrows os_tiocmset_borrows : own.

(** ** lwIP *)

(** A packet as lwIP hands it over: the payloads of its pbufs, in order. *)
Definition pbuf_chain : Type := list (list byte).

(** The callbacks lwIP makes into ppp_lwip.c; [addressed]: the interface has
    an IPv4 address. *)
Inductive lwip_callback :=
  | cb_output (data : list byte)
  | cb_status (err_code : Z) (addressed : bool)
  | cb_ip4 (p : pbuf_chain)
  | cb_ip6 (p : pbuf_chain).

(** The fields of [ppp_pcb] that [configure_ppp_server] and
    [configure_ppp_client] write. *)
Record pcb_settings := MkPcbSettings {
  ps_passive : bool;
  ps_fsm_timeout_time : Z;
  ps_ouraddr : Z;
  ps_accept_remote : bool;
  ps_ask_for_local : bool;
  ps_hisaddr : Z;
  ps_accept_local : bool;
  ps_dnsaddr : Z;
  ps_usepeerdns : bool;
  ps_want_vj : bool;
  ps_allow_vj : bool;
  ps_want_ifaceid : bool;
  ps_allow_ifaceid : bool;
  ps_ipv6_accept_local : bool;
  ps_use_ip : bool
}.

Class Lwip (E : Type) := {
  ERR_OK : Z;
  ERR_ARG : Z;
  ERR_ABRT : Z;
  PPPERR_NONE : Z;
  (** [sys_init] to [sys_timeouts_init]. *)
  lwip_init_all : St E unit;
  tcpip_init : St E unit;
  (** The address of the new semaphore, 0 where the result is not [ERR_OK]. *)
  sys_sem_new : St E Z;
  sys_sem_free : Z -> St E unit;
  (** [tcpip_callback(f, arg) == ERR_OK]: [f] will run in lwIP's thread. *)
  tcpip_callback : St E bool;
  (** A new pcb with its default settings, or [None]. *)
  pppos_create : St E (option pcb_settings);
  ppp_listen : pcb_settings -> St E (Z * list lwip_callback);
  ppp_connect : pcb_settings -> St E (Z * list lwip_callback);
  ppp_close : St E (list lwip_callback);
  pppos_input : list byte -> St E (list lwip_callback);
  pppos_input_tcpip : list byte -> St E (list lwip_callback);
  sys_check_timeouts : St E (list lwip_callback);
  (** [pbuf_alloc(PBUF_RAW, len, PBUF_POOL)]: whether there was room. *)
  pbuf_alloc : Z -> St E bool;
  netif_output : list byte -> St E (list lwip_callback);
  netif_output_ip6 : list byte -> St E (list lwip_callback);
  (** The callback that starts the forwarder when the link is up. *)
  netdev_fwd_on_link_up : St E unit;
  ip4addr_aton : string -> option Z;
  lwip_ip4_input : pbuf_chain -> St E Z
}.

Class LwipLaws (E : Type) `{Lwip E, Ledger E} : Prop := {
  lwip_init_balanced : balanced lwip_init_all;
  tcpip_init_balanced : balanced tcpip_init;
  sys_sem_allocates : allocates KSem sys_sem_new;
  sys_sem_returns d : returns (Sem d) (sys_sem_free d);
  tcpip_callback_balanced : balanced tcpip_callback;
  pppos_input_tcpip_balanced bs : balanced (pppos_input_tcpip bs);
  pppos_create_balanced : balanced pppos_create;
  ppp_listen_balanced s : balanced (ppp_listen s);
  ppp_connect_balanced s : balanced (ppp_connect s);
  ppp_close_balanced : balanced ppp_close;
  pppos_input_balanced bs : balanced (pppos_input bs);
  sys_check_timeouts_balanced : balanced sys_check_timeouts;
  pbuf_alloc_balanced n : balanced (pbuf_alloc n);
  netif_output_balanced p : balanced (netif_output p);
  netif_output_ip6_balanced p : balanced (netif_output_ip6 p);
  on_link_up_balanced : balanced netdev_fwd_on_link_up;
  lwip_ip4_input_balanced p : balanced (lwip_ip4_input p)
}.

#[export] Hint Resolve lwip_init_balanced tcpip_init_balanced sys_sem_allocates
  sys_sem_returns tcpip_callback_balanced pppos_input_tcpip_balanced pppos_create_balanced ppp_listen_balanced
  ppp_connect_balanced ppp_close_balanced pppos_input_balanced sys_check_timeouts_balanced
  pbuf_alloc_balanced netif_output_balanced netif_output_ip6_balanced on_link_up_balanced
  lwip_ip4_input_balanced : own.

(** ** The objects *)

(** [ppp_config_t]; the two modes are [PPP_LINK_MODE_SERVER] and
    [PPP_LINK_MODE_CLIENT]. *)
Record ppp_config := MkPppConfig {
  pc_server : bool;
  pc_local_ip : string;
  pc_peer_ip : string;
  pc_dns_ip : string;
  pc_ipv6 : bool;
  pc_netdev : bool
}.

(** [struct ppp_link], its [io] included; [lk_output] is the serial object
    given to [ppp_link_set_output] with [serial_output], or [None]. *)
Record ppp_link := MkPppLink {
  lk_tun_fd : Z;
  lk_in_buf : list byte;
  lk_out_buf : list byte;
  lk_ppp_cfg : ppp_config;
  lk_output : option Z;
  lk_tun_thread : Z;
  lk_running : bool;
  lk_thread_started : bool
}.

Record serial_io := MkSerialIo {
  se_fd : Z;
  se_thread : Z;
  se_running : bool;
  se_verbose : bool;
  se_link : Z
}.

(** The static variables of ppp_lwip.c: [s_io] is the address of the link it
    belongs to (0 for [NULL]), [lw_ppp] the pcb. *)
Record lwip_vars := MkLwipVars {
  lw_io : Z;
  lw_ppp : option pcb_settings;
  lw_link_up : bool;
  lw_use_tcpip : bool
}.

(** The static variables of main.cpp. *)
Record main_vars := MkMainVars {
  g_stop_requested : bool;
  g_rpc_socket : Z
}.

(** Assignments to single fields. *)
Definition set_tun_fd (v : Z) (k : ppp_link) : ppp_link :=
  MkPppLink v (lk_in_buf k) (lk_out_buf k) (lk_ppp_cfg k) (lk_output k) (lk_tun_thread k)
    (lk_running k) (lk_thread_started k).
Definition set_in_buf (v : list byte) (k : ppp_link) : ppp_link :=
  MkPppLink (lk_tun_fd k) v (lk_out_buf k) (lk_ppp_cfg k) (lk_output k) (lk_tun_thread k)
    (lk_running k) (lk_thread_started k).
Definition set_out_buf (v : list byte) (k : ppp_link) : ppp_link :=
  MkPppLink (lk_tun_fd k) (lk_in_buf k) v (lk_ppp_cfg k) (lk_output k) (lk_tun_thread k)
    (lk_running k) (lk_thread_started k).
Definition set_output (v : option Z) (k : ppp_link) : ppp_link :=
  MkPppLink (lk_tun_fd k) (lk_in_buf k) (lk_out_buf k) (lk_ppp_cfg k) v (lk_tun_thread k)
    (lk_running k) (lk_thread_started k).
Definition set_tun_thread (v : Z) (k : ppp_link) : ppp_link :=
  MkPppLink (lk_tun_fd k) (lk_in_buf k) (lk_out_buf k) (lk_ppp_cfg k) (lk_output k) v
    (lk_running k) (lk_thread_started k).
Definition set_running (v : bool) (k : ppp_link) : ppp_link :=
  MkPppLink (lk_tun_fd k) (lk_in_buf k) (lk_out_buf k) (lk_ppp_cfg k) (lk_output k)
    (lk_tun_thread k) v (lk_thread_started k).
Definition set_started (v : bool) (k : ppp_link) : ppp_link :=
  MkPppLink (lk_tun_fd k) (lk_in_buf k) (lk_out_buf k) (lk_ppp_cfg k) (lk_output k)
    (lk_tun_thread k) (lk_running k) v.

Definition set_se_fd (v : Z) (k : serial_io) : serial_io :=
  MkSerialIo v (se_thread k) (se_running k) (se_verbose k) (se_link k).
Definition set_se_thread (v : Z) (k : serial_io) : serial_io :=
  MkSerialIo (se_fd k) v (se_running k) (se_verbose k) (se_link k).
Definition set_se_running (v : bool) (k : serial_io) : serial_io :=
  MkSerialIo (se_fd k) (se_thread k) v (se_verbose k) (se_link k).
Definition set_se_link (v : Z) (k : serial_io) : serial_io :=
  MkSerialIo (se_fd k) (se_thread k) (se_running k) (se_verbose k) v.

Definition set_io (v : Z) (l : lwip_vars) : lwip_vars :=
  MkLwipVars v (lw_ppp l) (lw_link_up l) (lw_use_tcpip l).
Definition set_pcb (v : option pcb_settings) (l : lwip_vars) : lwip_vars :=
  MkLwipVars (lw_io l) v (lw_link_up l) (lw_use_tcpip l).
Definition set_link_up (v : bool) (l : lwip_vars) : lwip_vars :=
  MkLwipVars (lw_io l) (lw_ppp l) v (lw_use_tcpip l).
Definition set_use_tcpip (v : bool) (l : lwip_vars) : lwip_vars :=
  MkLwipVars (lw_io l) (lw_ppp l) (lw_link_up l) v.

(** A thread's start routine and its argument. *)
Inductive thread_task :=
  | TunThread (link : Z)
  | SerialThread (serial : Z).

(** [p_threads]: the threads not joined yet, and whether each still runs. *)
Record proc (E : Type) := MkProc {
  p_links : gmap Z ppp_link;
  p_serials : gmap Z serial_io;
  p_threads : gmap Z (thread_task * bool);
  p_lwip : lwip_vars;
  p_main : main_vars;
  p_fault : bool;
  p_os : E
}.

Arguments MkProc {E} _ _ _ _ _ _ _.
Arguments p_links {E} _.
Arguments p_serials {E} _.
Arguments p_threads {E} _.
Arguments p_lwip {E} _.
Arguments p_main {E} _.
Arguments p_fault {E} _.
Arguments p_os {E} _.

Section Proc.
Context {E : Type}.
Implicit Types p : proc E.

Definition set_links (m : gmap Z ppp_link) p : proc E :=
  MkProc m (p_serials p) (p_threads p) (p_lwip p) (p_main p) (p_fault p) (p_os p).

Definition set_serials (m : gmap Z serial_io) p : proc E :=
  MkProc (p_links p) m (p_threads p) (p_lwip p) (p_main p) (p_fault p) (p_os p).

Definition set_threads (m : gmap Z (thread_task * bool)) p : proc E :=
  MkProc (p_links p) (p_serials p) m (p_lwip p) (p_main p) (p_fault p) (p_os p).

Definition set_lwip (l : lwip_vars) p : proc E :=
  MkProc (p_links p) (p_serials p) (p_threads p) l (p_main p) (p_fault p) (p_os p).

Definition set_main (v : main_vars) p : proc E :=
  MkProc (p_links p) (p_serials p) (p_threads p) (p_lwip p) v (p_fault p) (p_os p).

Definition os {A} (m : St E A) : St (proc E) A := fun p =>
  let '(e, a) := m (p_os p) in
  (MkProc (p_links p) (p_serials p) (p_threads p) (p_lwip p) (p_main p) (p_fault p) e, a).

Definition lwip_set (f : lwip_vars -> lwip_vars) : St (proc E) unit :=
  modify (fun p => set_lwip (f (p_lwip p)) p).

Definition proc_fault : St (proc E) unit := modify (fun p =>
  MkProc (p_links p) (p_serials p) (p_threads p) (p_lwip p) (p_main p) true (p_os p)).

(** [*link] and [*serial]: a fault where the address holds no such object. *)
Definition null_link : ppp_link :=
  MkPppLink (-1) [] [] (MkPppConfig true "" "" "" false false) None 0 false false.

Definition load_link (l : Z) : St (proc E) ppp_link :=
  m ← gets p_links;
  match (m : gmap Z ppp_link) !! l with
  | Some k => mret k
  | None => proc_fault;; mret null_link
  end.

Definition update_link (l : Z) (f : ppp_link -> ppp_link) : St (proc E) unit :=
  load_link l;;
  modify (fun p => set_links (alter f l (p_links p)) p).

Definition null_serial : serial_io := MkSerialIo (-1) 0 false false 0.

Definition load_serial (s : Z) : St (proc E) serial_io :=
  m ← gets p_serials;
  match (m : gmap Z serial_io) !! s with
  | Some k => mret k
  | None => proc_fault;; mret (null_serial)
  end.

Definition update_serial (s : Z) (f : serial_io -> serial_io) : St (proc E) unit :=
  load_serial s;;
  modify (fun p => set_serials (alter f s (p_serials p)) p).

Context `{HostSys E}.

(** [calloc] of an object and its start value; [free]. *)
Definition new_link (k : ppp_link) : St (proc E) Z :=
  l ← os os_calloc;
  (if l =? 0 then mret tt else modify (fun p => set_links (<[l := k]> (p_links p)) p));;
  mret l.

Definition free_link (l : Z) : St (proc E) unit :=
  os (os_free l);;
  modify (fun p => set_links (delete l (p_links p)) p).

Definition new_serial (k : serial_io) : St (proc E) Z :=
  s ← os os_calloc;
  (if s =? 0 then mret tt else modify (fun p => set_serials (<[s := k]> (p_serials p)) p));;
  mret s.

Definition free_serial (s : Z) : St (proc E) unit :=
  os (os_free s);;
  modify (fun p => set_serials (delete s (p_serials p)) p).

(** [pthread_create]: 0 where it fails. *)
Definition pthread_create (task : thread_task) : St (proc E) Z :=
  t ← os os_thread_create;
  (if t =? 0 then mret tt
   else modify (fun p => set_threads (<[t := (task, true)]> (p_threads p)) p));;
  mret t.
End Proc.

#[export] Instance proc_ledger {E} `{Ledger E} : Ledger (proc E) := fun p => held (p_os p).
