(* ===== verification/NetdevFwd.v ===== *)
(** * The TCP forwarder: zb_rpc_client/netdev_fwd.c

    A connection the peer opens over PPP is spliced to one the forwarder opens
    on the host: [netdev_recv] writes what arrives over PPP to the host's
    socket, a thread per connection ([host_to_pcb_thread]) the other way round.
    [fwd E] is the file's static variables, the connections by address, where
    each thread stands, the argument lwIP hands to the callbacks of each pcb,
    and the work queued for lwIP's thread.  Reaching a connection that was
    freed, a pcb lwIP has freed, or a request whose thread is not waiting for
    it raises [fw_fault].  A callback is atomic, and so is a thread's step from
    one call that waits to the next; diagnostics are left out. *)

From Stdlib Require Import ZArith Lia.
From Stdlib Require Import Strings.Byte Strings.String.
From stdpp Require Import base tactics list numbers option gmap.
From S2P Require Import Prelude Posix Sockets HostSys.

Definition NETDEV_BUF : nat := 2048.

(** What the file uses of the host's sockets; an address of [getaddrinfo] is
    opaque, [ht_patience] bounds the interruptions still to come. *)
Class HostTcp (E : Type) := {
  addrinfo : Type;
  ht_getaddrinfo : string -> Z -> St E (option (list addrinfo));
  ht_socket : addrinfo -> St E Z;
  ht_connect : Z -> addrinfo -> St E Z;
  ht_close : Z -> St E unit;
  (** With [SHUT_WR] (false) and [SHUT_RDWR] (true). *)
  ht_shutdown : Z -> bool -> St E unit;
  ht_read : Z -> nat -> St E (sysret (list byte));
  ht_write : Z -> list byte -> St E (sysret nat);
  ht_usleep : Z -> St E unit;
  ht_calloc : St E Z;
  ht_free : Z -> St E unit;
  ht_pthread_create : St E bool;
  ht_patience : E -> nat
}.

(** What it uses of lwIP's TCP; a pcb is its address. *)
Class LwipTcp (E : Type) := {
  ERR_VAL : Z;
  ERR_MEM : Z;
  tcp_write : Z -> list byte -> St E Z;
  tcp_output : Z -> St E unit;
  tcp_recved : Z -> Z -> St E unit;
  tcp_close : Z -> St E unit;
  (** The pcb is gone; its [err] callback is made by the caller below. *)
  tcp_abort_pcb : Z -> St E unit;
  tcp_nagle_disable : Z -> St E unit;
  tcp_new_ip4 : St E Z;
  tcp_bind_any : Z -> Z -> St E Z;
  tcp_listen : Z -> St E Z
}.

Record netdev_conn := MkConn {
  nc_pcb : Z;
  nc_host_fd : Z;
  nc_alive : bool
}.

(** Where a thread stands: at the head of its loop; with the rest of a buffer
    to pass on; waiting for [do_tcp_write] on the semaphore [done]; woken up,
    with the request's [err]. *)
Inductive pump :=
  | PumpRead
  | PumpWrite (rest : list byte)
  | PumpWait (done : Z) (rest : list byte)
  | PumpWritten (done err : Z) (rest : list byte).

(** What [tcpip_callback] queues; a [write_req] is on the stack of the thread
    of connection [c]. *)
Inductive work :=
  | netdev_start_listen_work
  | do_tcp_write_work (c pcb : Z) (data : list byte)
  | close_pcb_work (pcb : Z).

Record fwd (E : Type) := MkFwd {
  s_host : string;
  s_port : Z;
  s_enabled : bool;
  s_listening : bool;
  fw_conns : gmap Z netdev_conn;
  fw_pumps : gmap Z pump;
  fw_args : gmap Z Z;
  fw_queue : list work;
  fw_fault : bool;
  fw_env : E
}.

Arguments MkFwd {E} _ _ _ _ _ _ _ _ _ _.
Arguments s_host {E} _.
Arguments s_port {E} _.
Arguments s_enabled {E} _.
Arguments s_listening {E} _.
Arguments fw_conns {E} _.
Arguments fw_pumps {E} _.
Arguments fw_args {E} _.
Arguments fw_queue {E} _.
Arguments fw_fault {E} _.
Arguments fw_env {E} _.

Definition set_pcb_null (c : netdev_conn) : netdev_conn := MkConn 0 (nc_host_fd c) (nc_alive c).
Definition set_dead (c : netdev_conn) : netdev_conn := MkConn (nc_pcb c) (nc_host_fd c) false.

Section State.
Context {E : Type}.
Implicit Types f : fwd E.

Definition set_conns (m : gmap Z netdev_conn) f : fwd E :=
  MkFwd (s_host f) (s_port f) (s_enabled f) (s_listening f) m (fw_pumps f) (fw_args f)
    (fw_queue f) (fw_fault f) (fw_env f).
Definition set_pumps (m : gmap Z pump) f : fwd E :=
  MkFwd (s_host f) (s_port f) (s_enabled f) (s_listening f) (fw_conns f) m (fw_args f)
    (fw_queue f) (fw_fault f) (fw_env f).
Definition set_args (m : gmap Z Z) f : fwd E :=
  MkFwd (s_host f) (s_port f) (s_enabled f) (s_listening f) (fw_conns f) (fw_pumps f) m
    (fw_queue f) (fw_fault f) (fw_env f).
Definition set_queue (q : list work) f : fwd E :=
  MkFwd (s_host f) (s_port f) (s_enabled f) (s_listening f) (fw_conns f) (fw_pumps f) (fw_args f)
    q (fw_fault f) (fw_env f).
Definition set_fault f : fwd E :=
  MkFwd (s_host f) (s_port f) (s_enabled f) (s_listening f) (fw_conns f) (fw_pumps f) (fw_args f)
    (fw_queue f) true (fw_env f).
Definition set_listening f : fwd E :=
  MkFwd (s_host f) (s_port f) (s_enabled f) true (fw_conns f) (fw_pumps f) (fw_args f)
    (fw_queue f) (fw_fault f) (fw_env f).

Definition env {A} (m : St E A) : St (fwd E) A := fun f =>
  let '(e, a) := m (fw_env f) in
  (MkFwd (s_host f) (s_port f) (s_enabled f) (s_listening f) (fw_conns f) (fw_pumps f) (fw_args f)
     (fw_queue f) (fw_fault f) e, a).

(** [*c]; a fault where the connection is not there. *)
Definition load_conn (c : Z) : St (fwd E) netdev_conn := fun f =>
  match fw_conns f !! c with
  | Some k => (f, k)
  | None => (set_fault f, MkConn 0 (-1) false)
  end.

Definition update_conn (c : Z) (g : netdev_conn -> netdev_conn) : St (fwd E) unit :=
  load_conn c;;
  modify (fun f => set_conns (alter g c (fw_conns f)) f).

Definition free_conn (c : Z) : St (fwd E) unit :=
  modify (fun f => set_conns (delete c (fw_conns f)) f).
End State.

Section NetdevFwd.
Context {E : Type} `{Lwip E, HostTcp E, LwipTcp E}.

(** ** Configuration *)

(** [snprintf(s_host, 256, "%s", host)]; [None] is a null pointer. *)
Definition netdev_fwd_configure (host : option string) (port : Z) : St (fwd E) unit :=
  modify (fun f =>
    let h := match host with
             | Some h => if (h =? "")%string then s_host f else substring 0 255 h
             | None => s_host f
             end in
    MkFwd h port (negb (port =? 0)) (s_listening f) (fw_conns f) (fw_pumps f) (fw_args f)
      (fw_queue f) (fw_fault f) (fw_env f)).

Definition netdev_fwd_enabled (f : fwd E) : bool := s_enabled f.

(** ** The callbacks of a connection's pcb *)

(** The [while] loop over one pbuf; out of fuel is a fault
    ([write_pbuf_sends]). *)
Fixpoint write_pbuf (fuel : nat) (c : Z) (data : list byte) : St (fwd E) unit :=
  match data with
  | [] => mret tt
  | _ =>
      k ← load_conn c;
      if (0 <=? nc_host_fd k) && nc_alive k then
        match fuel with
        | O => modify set_fault
        | S fuel =>
            n ← env (ht_write (nc_host_fd k) data);
            match (n : sysret nat) with
            | SysErr e =>
                if e =? EINTR then write_pbuf fuel c data else update_conn c set_dead
            | SysOk n => write_pbuf fuel c (drop n data)
            end
        end
      else mret tt
  end.

Definition write_pbufs (c : Z) (p : pbuf_chain) : St (fwd E) unit :=
  for_each (fun data =>
    n ← gets (fun f => ht_patience (fw_env f));
    write_pbuf (List.length data + n) c data) p.

(** A null [p] is [None]. *)
Definition netdev_recv (arg pcb : Z) (p : option pbuf_chain) (err : Z) : St (fwd E) Z :=
  if arg =? 0 then mret ERR_ARG
  else if negb (err =? ERR_OK) then mret ERR_OK
  else
    match p with
    | None =>
        update_conn arg set_dead;;
        c ← load_conn arg;
        (if 0 <=? nc_host_fd c then env (ht_shutdown (nc_host_fd c) false) else mret tt);;
        mret ERR_OK
    | Some p =>
        write_pbufs arg p;;
        env (tcp_recved pcb (Z.of_nat (List.length (concat p))));;
        mret ERR_OK
    end.

Definition netdev_err (arg : Z) : St (fwd E) unit :=
  if arg =? 0 then mret tt
  else
    update_conn arg (fun c => set_dead (set_pcb_null c));;
    c ← load_conn arg;
    if 0 <=? nc_host_fd c then env (ht_shutdown (nc_host_fd c) true) else mret tt.

(** [tcp_abort]: lwIP calls the [err] callback of the pcb with its argument. *)
Definition tcp_abort (pcb : Z) : St (fwd E) unit :=
  args ← gets fw_args;
  env (tcp_abort_pcb pcb);;
  modify (fun f => set_args (delete pcb (fw_args f)) f);;
  match (args : gmap Z Z) !! pcb with
  | Some arg => netdev_err arg
  | None => mret tt
  end.

(** ** Work in lwIP's thread *)

Definition pump_at (c : Z) (pc : pump) : St (fwd E) unit :=
  modify (fun f => set_pumps (<[c := pc]> (fw_pumps f)) f).

(** lwIP frees a pcb after [err] and [tcp_close]; reaching it then is a
    fault. *)
Definition touch_pcb (pcb : Z) : St (fwd E) unit :=
  modify (fun f => match fw_args f !! pcb with Some _ => f | None => set_fault f end).

(** The [write_req] of the thread of [c]; it has to be waiting. *)
Definition do_tcp_write (c pcb : Z) (data : list byte) : St (fwd E) unit :=
  touch_pcb pcb;;
  err ← env (tcp_write pcb data);
  (if err =? ERR_OK then env (tcp_output pcb) else mret tt);;
  pumps ← gets fw_pumps;
  match (pumps : gmap Z pump) !! c with
  | Some (PumpWait done rest) => pump_at c (PumpWritten done err rest)
  | _ => modify set_fault
  end.

Definition close_pcb_cb (pcb : Z) : St (fwd E) unit :=
  touch_pcb pcb;;
  modify (fun f => set_args (delete pcb (fw_args f)) f);;
  env (tcp_close pcb).

(** ** The thread of a connection *)

(** The end of [host_to_pcb_thread]: the pcb is handed over, then the socket
    closed and the connection freed. *)
Definition pump_hand_over (c : Z) (k : netdev_conn) : St (fwd E) unit :=
  if negb (nc_pcb k =? 0) then
    update_conn c set_pcb_null;;
    queued ← env tcpip_callback;
    if queued : bool then modify (fun f => set_queue (fw_queue f ++ [close_pcb_work (nc_pcb k)]) f)
    else mret tt
  else mret tt.

Definition pump_free (c host_fd : Z) : St (fwd E) unit :=
  (if 0 <=? host_fd then
     env (ht_close host_fd);;
     update_conn c (fun k => MkConn (nc_pcb k) (-1) (nc_alive k))
   else mret tt);;
  env (ht_free c);;
  free_conn c;;
  modify (fun f => set_pumps (delete c (fw_pumps f)) f).

Definition pump_exit (c : Z) : St (fwd E) unit :=
  update_conn c set_dead;;
  k ← load_conn c;
  pump_hand_over c k;;
  pump_free c (nc_host_fd k).

(** What the inner loop does with the result of [tcp_write_sync]. *)
Definition pump_result (c : Z) (rest : list byte) (e : Z) : St (fwd E) unit :=
  if e =? ERR_MEM then env (ht_usleep 2000);; pump_at c (PumpWrite rest)
  else if negb (e =? ERR_OK) then update_conn c set_dead;; pump_at c PumpRead
  else pump_at c (PumpWrite []).

(** [tcp_write_sync] up to its wait. *)
Definition tcp_write_sync (c pcb : Z) (data : list byte) : St (fwd E) unit :=
  done ← env sys_sem_new;
  if done =? 0 then pump_result c data ERR_MEM
  else
    queued ← env tcpip_callback;
    if negb queued then
      env (sys_sem_free done);;
      pump_result c data ERR_VAL
    else
      modify (fun f => set_queue (fw_queue f ++ [do_tcp_write_work c pcb data]) f);;
      pump_at c (PumpWait done data).

(** A thread's step: to its next call of [read], or to its next wait. *)
Definition host_to_pcb_thread (c : Z) (pc : pump) : St (fwd E) unit :=
  k ← load_conn c;
  match pc with
  | PumpRead =>
      if nc_alive k && (0 <=? nc_host_fd k) && negb (nc_pcb k =? 0) then
        n ← env (ht_read (nc_host_fd k) NETDEV_BUF);
        match (n : sysret (list byte)) with
        | SysErr e => if e =? EINTR then mret tt else pump_exit c
        | SysOk [] => pump_exit c
        | SysOk buf => pump_at c (PumpWrite buf)
        end
      else pump_exit c
  | PumpWrite rest =>
      if Nat.ltb 0 (List.length rest) && nc_alive k && negb (nc_pcb k =? 0) then
        tcp_write_sync c (nc_pcb k) rest
      else pump_at c PumpRead
  | PumpWait _ _ => mret tt
  | PumpWritten done e rest =>
      env (sys_sem_free done);;
      pump_result c rest e
  end.

(** ** Connecting and accepting *)

Fixpoint connect_first (ais : list addrinfo) : St (fwd E) Z :=
  match ais with
  | [] => mret (-1)
  | ai :: ais =>
      fd ← env (ht_socket ai);
      if fd <? 0 then connect_first ais
      else
        r ← env (ht_connect fd ai);
        if r =? 0 then mret fd
        else
          env (ht_close fd);;
          connect_first ais
  end.

Definition linux_connect_host : St (fwd E) Z :=
  host ← gets s_host;
  port ← gets s_port;
  res ← env (ht_getaddrinfo host port);
  match (res : option (list addrinfo)) with
  | None => mret (-1)
  | Some ais => connect_first ais
  end.

(** [netdev_accept] once the host is connected. *)
Definition splice (newpcb host_fd : Z) : St (fwd E) Z :=
  c ← env ht_calloc;
  if c =? 0 then
    env (ht_close host_fd);;
    tcp_abort newpcb;;
    mret ERR_MEM
  else
    modify (fun f => set_conns (<[c := MkConn newpcb host_fd true]> (fw_conns f)) f);;
    modify (fun f => set_args (<[newpcb := c]> (fw_args f)) f);;
    env (tcp_nagle_disable newpcb);;
    started ← env ht_pthread_create;
    if negb started then
      env (ht_close host_fd);;
      env (ht_free c);;
      free_conn c;;
      tcp_abort newpcb;;
      mret ERR_ABRT
    else
      pump_at c PumpRead;;
      mret ERR_OK.

Definition netdev_accept (newpcb err : Z) : St (fwd E) Z :=
  if negb (err =? ERR_OK) || (newpcb =? 0) then mret ERR_VAL
  else
    host_fd ← linux_connect_host;
    if host_fd <? 0 then
      tcp_abort newpcb;;
      mret ERR_ABRT
    else splice newpcb host_fd.

(** ** Listening *)

Definition netdev_start_listen : St (fwd E) unit :=
  f ← gets (fun f : fwd E => f);
  if s_listening f || negb (s_enabled f) then mret tt
  else
    pcb ← env tcp_new_ip4;
    if pcb =? 0 then mret tt
    else
      e ← env (tcp_bind_any pcb (s_port f));
      if negb (e =? ERR_OK) then env (tcp_close pcb)
      else
        listen_pcb ← env (tcp_listen pcb);
        if listen_pcb =? 0 then env (tcp_close pcb)
        else modify set_listening.

Definition netdev_fwd_on_link_up : St (fwd E) unit :=
  f ← gets (fun f : fwd E => f);
  if negb (s_enabled f) || s_listening f then mret tt
  else
    queued ← env tcpip_callback;
    if queued : bool then modify (fun f => set_queue (fw_queue f ++ [netdev_start_listen_work]) f)
    else mret tt.

(** ** Everything that happens *)

Inductive fwd_event :=
  | FwdLinkUp
  | FwdAccept (pcb err : Z)
  | FwdRecv (pcb : Z) (p : option pbuf_chain) (err : Z)
  | FwdErr (pcb : Z)
  | FwdPump (c : Z)
  | FwdWork.

(** lwIP makes the callbacks of a pcb with the argument set for it; after
    [err] the pcb is gone. *)
Definition fwd_step (ev : fwd_event) : St (fwd E) unit :=
  f ← gets (fun f : fwd E => f);
  match ev with
  | FwdLinkUp => netdev_fwd_on_link_up
  | FwdAccept pcb err => netdev_accept pcb err;; mret tt
  | FwdRecv pcb p err =>
      match fw_args f !! pcb with
      | Some arg => netdev_recv arg pcb p err;; mret tt
      | None => mret tt
      end
  | FwdErr pcb =>
      match fw_args f !! pcb with
      | Some arg => modify (fun f => set_args (delete pcb (fw_args f)) f);; netdev_err arg
      | None => mret tt
      end
  | FwdPump c =>
      match fw_pumps f !! c with
      | Some pc => host_to_pcb_thread c pc
      | None => mret tt
      end
  | FwdWork =>
      match fw_queue f with
      | [] => mret tt
      | w :: q =>
          modify (set_queue q);;
          match w with
          | netdev_start_listen_work => netdev_start_listen
          | do_tcp_write_work c pcb data => do_tcp_write c pcb data
          | close_pcb_work pcb => close_pcb_cb pcb
          end
      end
  end.
End NetdevFwd.
