(* ===== verification/NetdevFacts.v ===== *)
(** * The TCP forwarder: facts

    A [fshape] is what a forwarder holds and shares; the rules follow the code
    from shape to shape, as ClientFacts.v does for the client.  [fwd_ok] says
    how connections, threads, pcbs and queued callbacks refer to each other,
    [ledger] that the forwarder holds what its connections need and no more;
    every step's change of the shape keeps both ([fwd_good]). *)

From Stdlib Require Import ZArith Lia.
From Stdlib Require Import Strings.Byte Strings.String.
From stdpp Require Import base tactics list numbers option gmap.
From S2P Require Import Prelude Posix Sockets HostSys NetdevFwd.

Class HostTcpLaws (E : Type) `{HostTcp E, Ledger E} : Prop := {
  getaddrinfo_balanced h p : balanced (ht_getaddrinfo h p);
  ht_socket_obtains ai : obtains KFd (ht_socket ai);
  ht_connect_borrows fd ai : borrows (Fd fd) (ht_connect fd ai);
  ht_close_returns fd : returns (Fd fd) (ht_close fd);
  ht_shutdown_borrows fd h : borrows (Fd fd) (ht_shutdown fd h);
  ht_read_borrows fd n : borrows (Fd fd) (ht_read fd n);
  ht_write_borrows fd bs : borrows (Fd fd) (ht_write fd bs);
  ht_usleep_balanced n : balanced (ht_usleep n);
  ht_calloc_allocates : allocates KBlock ht_calloc;
  ht_free_returns p : returns (Block p) (ht_free p);
  ht_pthread_create_balanced : balanced ht_pthread_create;
  ht_write_bounded fd bs e e' n : ht_write fd bs e = (e', SysOk n) -> (n <= List.length bs)%nat;
  ht_write_progress fd bs e e' : ht_write fd bs e = (e', SysOk O) -> bs = [];
  ht_write_patience fd bs e e' r :
    ht_write fd bs e = (e', r) -> (ht_patience e' <= ht_patience e)%nat;
  ht_write_interrupted fd bs e e' :
    ht_write fd bs e = (e', SysErr EINTR) -> (ht_patience e' < ht_patience e)%nat
}.

Class LwipTcpLaws (E : Type) `{LwipTcp E, Ledger E} : Prop := {
  tcp_write_balanced p bs : balanced (tcp_write p bs);
  tcp_output_balanced p : balanced (tcp_output p);
  tcp_recved_balanced p n : balanced (tcp_recved p n);
  tcp_close_balanced p : balanced (tcp_close p);
  tcp_abort_balanced p : balanced (tcp_abort_pcb p);
  tcp_nagle_balanced p : balanced (tcp_nagle_disable p);
  tcp_new_balanced : balanced tcp_new_ip4;
  tcp_bind_balanced p n : balanced (tcp_bind_any p n);
  tcp_listen_balanced p : balanced (tcp_listen p)
}.

(** What the host's sockets were given to send, and what was read of them;
    what the pcbs were given. *)
Class SpliceLog (E : Type) `{HostTcp E, LwipTcp E, Lwip E} := {
  ht_sent : E -> Z -> list byte;
  sent_ok fd bs e e' n :
    ht_write fd bs e = (e', SysOk n) -> ht_sent e' fd = ht_sent e fd ++ take n bs;
  sent_err fd bs e e' x : ht_write fd bs e = (e', SysErr x) -> ht_sent e' fd = ht_sent e fd
}.

#[export] Hint Resolve getaddrinfo_balanced ht_socket_obtains ht_connect_borrows ht_close_returns
  ht_shutdown_borrows ht_read_borrows ht_write_borrows ht_usleep_balanced ht_calloc_allocates
  ht_free_returns ht_pthread_create_balanced tcp_write_balanced tcp_output_balanced
  tcp_recved_balanced tcp_close_balanced tcp_abort_balanced tcp_nagle_balanced tcp_new_balanced
  tcp_bind_balanced tcp_listen_balanced : own.

Record fshape := MkFshape {
  fs_held : gset res;
  fs_conns : gmap Z netdev_conn;
  fs_pumps : gmap Z pump;
  fs_args : gmap Z Z;
  fs_queue : list work
}.

Section Fits.
Context {E : Type} `{Lwip E, HostTcp E, LwipTcp E, Ledger E}.
Implicit Types (f : fwd E) (s : fshape).

Record ffits s f : Prop := {
  ff_held : held (fw_env f) = fs_held s;
  ff_conns : fw_conns f = fs_conns s;
  ff_pumps : fw_pumps f = fs_pumps s;
  ff_args : fw_args f = fs_args s;
  ff_queue : fw_queue f = fs_queue s;
  ff_fault : fw_fault f = false
}.

Definition fholds (R : gset res) s : fshape :=
  MkFshape R (fs_conns s) (fs_pumps s) (fs_args s) (fs_queue s).
Definition fput (c : Z) (k : netdev_conn) s : fshape :=
  MkFshape (fs_held s) (<[c := k]> (fs_conns s)) (fs_pumps s) (fs_args s) (fs_queue s).
Definition fpump (c : Z) (pc : pump) s : fshape :=
  MkFshape (fs_held s) (fs_conns s) (<[c := pc]> (fs_pumps s)) (fs_args s) (fs_queue s).
Definition fqueue (q : list work) s : fshape :=
  MkFshape (fs_held s) (fs_conns s) (fs_pumps s) (fs_args s) q.

(** ** Rules *)

Lemma env_rule {A} s (m : St E A) (P : A -> gset res -> Prop) :
  hoare (owns (fs_held s)) m (fun a w => exists R, P a R /\ owns R w) ->
  hoare (ffits s) (env m) (fun a f => exists R, P a R /\ ffits (fholds R s) f).
Proof.
  intros Hm f [Hh ? ? ? ? ?]. specialize (Hm (fw_env f) Hh). unfold env.
  destruct (m (fw_env f)) as [w a]. cbn in *. destruct Hm as (R & HP & HR). exists R.
  split; [done|]. by split.
Qed.

Lemma env_step {A B} s (m : St E A) (k : A -> St (fwd E) B) Q :
  balanced m -> (forall a, hoare (ffits s) (k a) Q) -> hoare (ffits s) (env m ≫= k) Q.
Proof.
  intros Hm Hk. eapply hoare_bind.
  - apply (env_rule s m (fun _ R => R = fs_held s)). intros w Hw. exists (fs_held s). split; [done|]. by apply Hm.
  - intros a f (R & -> & Hf). apply Hk. by destruct s.
Qed.

Lemma env_use {A B} r s (m : St E A) (k : A -> St (fwd E) B) Q :
  borrows r m -> r ∈ fs_held s -> (forall a, hoare (ffits s) (k a) Q) ->
  hoare (ffits s) (env m ≫= k) Q.
Proof.
  intros Hm Hr Hk. eapply hoare_bind.
  - apply (env_rule s m (fun _ R => R = fs_held s)). intros w Hw. exists (fs_held s). split; [done|]. by apply Hm.
  - intros a f (R & -> & Hf). apply Hk. by destruct s.
Qed.

Lemma env_return {A B} r s (m : St E A) (k : A -> St (fwd E) B) Q :
  returns r m -> r ∈ fs_held s -> (forall a, hoare (ffits (fholds (fs_held s ∖ {[r]}) s)) (k a) Q) ->
  hoare (ffits s) (env m ≫= k) Q.
Proof.
  intros Hm Hr Hk. eapply hoare_bind.
  - apply (env_rule s m (fun _ R => R = fs_held s ∖ {[r]})). intros w Hw. eexists.
    split; [done|]. by apply Hm.
  - intros a f (R & -> & Hf). by apply Hk.
Qed.

Lemma env_obtain {B} kd s (m : St E Z) (k : Z -> St (fwd E) B) Q :
  obtains kd m ->
  (forall n, n < 0 -> hoare (ffits s) (k n) Q) ->
  (forall n, 0 <= n -> (kd, n) ∉ fs_held s ->
     hoare (ffits (fholds ({[(kd, n)]} ∪ fs_held s) s)) (k n) Q) ->
  hoare (ffits s) (env m ≫= k) Q.
Proof.
  intros Hm Hf Hs. eapply hoare_bind.
  - apply (env_rule s m (fun n R => (n < 0 /\ R = fs_held s) \/
      (0 <= n /\ (kd, n) ∉ fs_held s /\ R = {[(kd, n)]} ∪ fs_held s))).
    intros w Hw. destruct (Hm _ w Hw) as [[]|(? & ? & ?)]; [exists (fs_held s)|eexists]; eauto 6.
  - intros n f (R & [[Hn ->]|(Hn & Hni & ->)] & Hp); [apply Hf|apply Hs]; auto. by destruct s.
Qed.

Lemma env_alloc {B} kd s (m : St E Z) (k : Z -> St (fwd E) B) Q :
  allocates kd m ->
  hoare (ffits s) (k 0) Q ->
  (forall n, n <> 0 -> (kd, n) ∉ fs_held s ->
     hoare (ffits (fholds ({[(kd, n)]} ∪ fs_held s) s)) (k n) Q) ->
  hoare (ffits s) (env m ≫= k) Q.
Proof.
  intros Hm Hf Hs. eapply hoare_bind.
  - apply (env_rule s m (fun n R => (n = 0 /\ R = fs_held s) \/
      (n <> 0 /\ (kd, n) ∉ fs_held s /\ R = {[(kd, n)]} ∪ fs_held s))).
    intros w Hw. destruct (Hm _ w Hw) as [[]|(? & ? & ?)]; [exists (fs_held s)|eexists]; eauto 6.
  - intros n f (R & [[-> ->]|(Hn & Hni & ->)] & Hp); [apply Hf|apply Hs]; auto. by destruct s.
Qed.

Lemma fget_rule {A B} s (g : fwd E -> A) (k : A -> St (fwd E) B) Q :
  (forall f, ffits s f -> hoare (ffits s) (k (g f)) Q) -> hoare (ffits s) (gets g ≫= k) Q.
Proof. intros Hk f Hf. by apply (Hk f Hf). Qed.

Lemma fload_rule {B} c k0 s (k : netdev_conn -> St (fwd E) B) Q :
  fs_conns s !! c = Some k0 -> hoare (ffits s) (k k0) Q -> hoare (ffits s) (load_conn c ≫= k) Q.
Proof.
  intros Hc Hk f Hf. unfold load_conn, mbind, St_bind.
  rewrite (ff_conns _ _ Hf), Hc. by apply Hk.
Qed.

Lemma fupdate_end c k0 s g :
  fs_conns s !! c = Some k0 ->
  hoare (ffits s) (update_conn (E := E) c g) (fun _ => ffits (fput c (g k0) s)).
Proof.
  intros Hc. unfold update_conn. eapply fload_rule; [exact Hc|]. intros f [? Hcs ? ? ? ?].
  split; try done. cbn. rewrite Hcs. apply map_eq. intros i. destruct (decide (i = c)) as [->|Hi].
  - by rewrite lookup_alter_eq, lookup_insert_eq, Hc.
  - by rewrite lookup_alter_ne, lookup_insert_ne by done.
Qed.

Lemma fupdate_rule {B} c k0 s g (k : unit -> St (fwd E) B) Q :
  fs_conns s !! c = Some k0 -> hoare (ffits (fput c (g k0) s)) (k tt) Q ->
  hoare (ffits s) (update_conn c g ≫= k) Q.
Proof.
  intros Hc Hk. eapply hoare_bind; [by apply fupdate_end|]. by intros [].
Qed.

(** [modify] with one of the setters of NetdevFwd.v. *)
Lemma fmodify_rule {B} s s' g (k : unit -> St (fwd E) B) Q :
  (forall f, ffits s f -> ffits s' (g f)) -> hoare (ffits s') (k tt) Q ->
  hoare (ffits s) (modify g ≫= k) Q.
Proof. intros Hg Hk f Hf. by apply (Hk (g f)), Hg. Qed.

Lemma fits_at {A} s s' (m : St (fwd E) A) Q :
  s = s' -> hoare (ffits s') m Q -> hoare (ffits s) m Q.
Proof. by intros ->. Qed.

(** ** What a forwarder is like between steps *)

(** The pcb a queued callback is about, and the semaphore a thread waits on
    or is about to free. *)
Definition target (w : work) : option Z :=
  match w with
  | netdev_start_listen_work => None
  | do_tcp_write_work _ pcb _ | close_pcb_work pcb => Some pcb
  end.

Definition pump_sem (pc : pump) : option Z :=
  match pc with
  | PumpRead | PumpWrite _ => None
  | PumpWait d _ | PumpWritten d _ _ => Some d
  end.

(** A queued callback is about a pcb that is there: a write about the pcb of a
    connection whose thread waits for it, a close about one no connection has
    any more. *)
Definition work_ok s (w : work) : Prop :=
  match w with
  | netdev_start_listen_work => True
  | do_tcp_write_work c pcb data =>
      (exists k, fs_conns s !! c = Some k /\ nc_pcb k = pcb) /\ pcb <> 0 /\
      (exists d, fs_pumps s !! c = Some (PumpWait d data))
  | close_pcb_work pcb =>
      is_Some (fs_args s !! pcb) /\ forall c k, fs_conns s !! c = Some k -> nc_pcb k <> pcb
  end.

(** Every connection is held with its socket and has a thread; its pcb leads
    back to it, and every pcb's argument to its connection, unless the close
    is still queued; a pcb has at most one callback queued. *)
Record fwd_ok s : Prop := {
  ok_conns c k : fs_conns s !! c = Some k ->
    c <> 0 /\ Block c ∈ fs_held s /\ 0 <= nc_host_fd k /\ Fd (nc_host_fd k) ∈ fs_held s;
  ok_back c k : fs_conns s !! c = Some k -> nc_pcb k <> 0 -> fs_args s !! nc_pcb k = Some c;
  ok_fds c c' k k' : fs_conns s !! c = Some k -> fs_conns s !! c' = Some k' ->
    nc_host_fd k = nc_host_fd k' -> c = c';
  ok_pumps c : is_Some (fs_pumps s !! c) <-> is_Some (fs_conns s !! c);
  ok_sems c pc d : fs_pumps s !! c = Some pc -> pump_sem pc = Some d -> Sem d ∈ fs_held s;
  ok_sem_inj c c' pc pc' d : fs_pumps s !! c = Some pc -> fs_pumps s !! c' = Some pc' ->
    pump_sem pc = Some d -> pump_sem pc' = Some d -> c = c';
  ok_args pcb a : fs_args s !! pcb = Some a ->
    pcb <> 0 /\
    ((exists k, fs_conns s !! a = Some k /\ nc_pcb k = pcb) \/ close_pcb_work pcb ∈ fs_queue s);
  ok_work w : w ∈ fs_queue s -> work_ok s w;
  ok_targets : NoDup (omap target (fs_queue s))
}.

(** ** From the pcb to the host *)

Lemma set_dead_dead k : nc_alive k = false -> set_dead k = k.
Proof. destruct k; cbn. by intros ->. Qed.

Lemma fput_same c k s : fs_conns s !! c = Some k -> fput c k s = s.
Proof. intros Hc. destruct s. unfold fput. cbn in *. by rewrite insert_id. Qed.

Lemma fput_fput c k k' s : fput c k (fput c k' s) = fput c k s.
Proof. unfold fput. cbn. by rewrite insert_insert_eq. Qed.

Section Log.
Context `{!HostTcpLaws E, !SpliceLog E}.

Notation sent f k := (ht_sent (fw_env f) (nc_host_fd k)).

(** [data] or a first part of it went to the host; the connection lives on
    only if all did. *)
Definition passed_on s c k (data : list byte) f f' : Prop :=
  (ht_patience (fw_env f') <= ht_patience (fw_env f))%nat /\
  exists n, sent f' k = sent f k ++ take n data /\
    ((n = List.length data /\ ffits s f') \/ ffits (fput c (set_dead k) s) f').

Lemma passed_nil s c k f : ffits s f -> passed_on s c k [] f f.
Proof. intros Hf. split; [done|]. exists 0%nat. rewrite app_nil_r. split; [done|by left]. Qed.

Lemma passed_dead s c k data f :
  fs_conns s !! c = Some k -> nc_alive k = false -> ffits s f -> passed_on s c k data f f.
Proof.
  intros Hc Hd Hf. split; [done|]. exists 0%nat. rewrite app_nil_r. split; [done|right].
  by rewrite set_dead_dead, fput_same.
Qed.

Lemma write_pbuf_sends fuel c k s : forall data f,
  fs_conns s !! c = Some k -> 0 <= nc_host_fd k -> Fd (nc_host_fd k) ∈ fs_held s ->
  ffits s f -> (List.length data + ht_patience (fw_env f) <= fuel)%nat ->
  passed_on s c k data f (write_pbuf fuel c data f).1.
Proof.
  induction fuel as [|fuel IH]; intros data f Hc Hfd Hin Hf Hl.
  all: destruct data as [|b data]; cbn [write_pbuf]; [by apply passed_nil|].
  { cbn in Hl. lia. }
  unfold mbind at 1, St_bind at 1. unfold load_conn. rewrite (ff_conns _ _ Hf), Hc.
  rewrite (proj2 (Z.leb_le _ _) Hfd). cbn [andb].
  destruct (nc_alive k) eqn:Hal; [|by apply passed_dead].
  pose proof (ht_write_borrows (nc_host_fd k) (b :: data) (fs_held s) Hin (fw_env f) (ff_held _ _ Hf)) as Hh.
  unfold mbind, St_bind, env.
  destruct (ht_write (nc_host_fd k) (b :: data) (fw_env f)) as [e r] eqn:Ew. cbn in Hh.
  set (f1 := MkFwd _ _ _ _ _ _ _ _ _ e).
  assert (Hf1 : ffits s f1) by (destruct Hf; by split).
  pose proof (ht_write_patience _ _ _ _ _ Ew) as Hp.
  destruct r as [n|x].
  - pose proof (ht_write_bounded _ _ _ _ _ Ew) as Hn. pose proof (sent_ok _ _ _ _ _ Ew) as Hsent.
    destruct n as [|n]; [by apply ht_write_progress in Ew|].
    destruct (IH (drop (S n) (b :: data)) f1 Hc Hfd Hin Hf1) as (Hp' & m & Hm & Hr).
    { rewrite length_drop. cbn in *. lia. }
    split; [cbn in *; lia|]. exists (S n + m)%nat. split.
    + rewrite Hm. cbn [fw_env f1]. rewrite Hsent, <- app_assoc. f_equal.
      rewrite <- (take_drop (S n) (b :: data)) at 3.
      rewrite take_app_ge; rewrite length_take, Nat.min_l by done; [|lia]. do 2 f_equal. lia.
    + destruct Hr as [[-> Hr]|Hr]; [left|by right]. rewrite length_drop. split; [cbn in *; lia|done].
  - case_bool.
    + subst x. pose proof (ht_write_interrupted _ _ _ _ Ew) as Hp'.
      destruct (IH (b :: data) f1 Hc Hfd Hin Hf1) as (Hp2 & m & Hm & Hr); [cbn in *; lia|].
      split; [cbn in *; lia|]. exists m. cbn [fw_env f1] in Hm.
      by rewrite Hm, (sent_err _ _ _ _ _ Ew).
    + pose proof (fupdate_end c k s set_dead Hc f1 Hf1) as Hd.
      destruct (update_conn c set_dead f1) as [f2 []] eqn:Eu. cbn in Hd |- *.
      assert (He : fw_env f2 = e).
      { unfold update_conn, mbind, St_bind, load_conn, modify in Eu. cbn in Eu.
        rewrite (ff_conns _ _ Hf), Hc in Eu. by injection Eu as <-. }
      split; [rewrite He; cbn in *; lia|]. exists 0%nat.
      rewrite He, app_nil_r, (sent_err _ _ _ _ _ Ew). split; [done|by right].
Qed.

Lemma write_pbuf_dead fuel c k s data f :
  fs_conns s !! c = Some k -> nc_alive k = false -> ffits s f ->
  (write_pbuf fuel c data f).1 = f.
Proof.
  intros Hc Hd Hf. destruct fuel, data; cbn [write_pbuf]; try done;
    unfold mbind, St_bind, load_conn; rewrite (ff_conns _ _ Hf), Hc, Hd, andb_false_r; done.
Qed.

Lemma write_pbufs_dead c k s p : forall f,
  fs_conns s !! c = Some k -> nc_alive k = false -> ffits s f -> (write_pbufs c p f).1 = f.
Proof.
  induction p as [|data p IH]; intros f Hc Hd Hf; [done|]. unfold write_pbufs. cbn [for_each].
  rewrite St_seq, St_gets, (write_pbuf_dead _ c k s) by done. by apply IH.
Qed.

Lemma write_pbufs_sends c k s p : forall f,
  fs_conns s !! c = Some k -> 0 <= nc_host_fd k -> Fd (nc_host_fd k) ∈ fs_held s ->
  ffits s f -> passed_on s c k (concat p) f (write_pbufs c p f).1.
Proof.
  induction p as [|data p IH]; intros f Hc Hfd Hin Hf; [by apply passed_nil|].
  unfold write_pbufs. cbn [for_each concat]. rewrite St_seq, St_gets.
  set (f1 := (write_pbuf _ c data f).1).
  destruct (write_pbuf_sends (List.length data + ht_patience (fw_env f)) c k s data f Hc Hfd Hin Hf
    ltac:(lia)) as (Hp & n & Hn & Hr). fold f1 in Hp, Hn, Hr.
  destruct Hr as [[-> Hf1]|Hf1].
  - destruct (IH f1 Hc Hfd Hin Hf1) as (Hp' & m & Hm & Hr). unfold write_pbufs in *.
    split; [lia|]. exists (List.length data + m)%nat. split.
    + rewrite Hm, Hn, firstn_all, <- app_assoc. f_equal.
      rewrite take_app_ge by lia. do 2 f_equal. lia.
    + destruct Hr as [[-> Hr]|Hr]; [left|by right]. by rewrite length_app.
  - pose proof (write_pbufs_dead c (set_dead k) (fput c (set_dead k) s) p f1) as Hd.
    unfold write_pbufs in Hd. rewrite Hd; [|apply lookup_insert_eq|done|done].
    split; [done|]. exists (min n (List.length data)). split; [|by right].
    rewrite Hn. f_equal. rewrite take_app_le by lia.
    destruct (le_lt_dec n (List.length data)); [by rewrite Nat.min_l|].
    rewrite Nat.min_r, firstn_all, take_ge by lia. done.
Qed.
End Log.

(** ** Good shapes stay good *)

(** A connection that changes neither its socket nor its pcb. *)
Lemma fput_lookup s c k k' i j :
  fs_conns s !! c = Some k -> nc_host_fd k' = nc_host_fd k -> nc_pcb k' = nc_pcb k ->
  fs_conns (fput c k' s) !! i = Some j ->
  exists j0, fs_conns s !! i = Some j0 /\ nc_host_fd j = nc_host_fd j0 /\ nc_pcb j = nc_pcb j0.
Proof.
  intros Hc Hfd Hpcb Hi. cbn in Hi. apply lookup_insert_Some in Hi as [[-> <-]|[Hi Hj]]; [by exists k|by exists j].
Qed.

Lemma insert_is_Some_same {A} (m : gmap Z A) c a i :
  is_Some (m !! c) -> is_Some (<[c := a]> m !! i) <-> is_Some (m !! i).
Proof.
  intros Hc. rewrite lookup_insert_is_Some. destruct (decide (c = i)) as [->|]; naive_solver.
Qed.

Lemma ok_put s c k k' :
  fwd_ok s -> fs_conns s !! c = Some k -> nc_host_fd k' = nc_host_fd k -> nc_pcb k' = nc_pcb k ->
  fwd_ok (fput c k' s).
Proof.
  intros Hs Hc Hfd Hpcb. pose proof (fput_lookup s c k k') as Hl.
  split; try apply Hs.
  - intros i j (j0 & Hj & -> & _)%Hl; [by apply Hs|done..].
  - intros i j (j0 & Hj & _ & ->)%Hl; [by apply (ok_back s Hs)|done..].
  - intros i i' j j' (j0 & Hj & -> & _)%Hl (j0' & Hj' & -> & _)%Hl; try done. by apply (ok_fds s Hs).
  - intros i. cbn. rewrite insert_is_Some_same by eauto. apply Hs.
  - intros pcb a Ha. destruct (ok_args s Hs pcb a Ha) as [? [(j & Hj & Hp)|?]]; split; auto. left.
    cbn. destruct (decide (a = c)) as [->|Hn]; [exists k'|exists j];
      rewrite ?lookup_insert_eq, ?lookup_insert_ne by done; split; congruence.
  - intros w Hw. pose proof (ok_work s Hs w Hw) as Ho. destruct w as [|i pcb data|pcb]; [done| |].
    + destruct Ho as ((j & Hj & Hp) & Hr). split; [|exact Hr].
      cbn. destruct (decide (i = c)) as [->|Hn]; [exists k'|exists j];
        rewrite ?lookup_insert_eq, ?lookup_insert_ne by done; split; congruence.
    + destruct Ho as [Ha Hn]. split; [exact Ha|]. intros i j (j0 & Hj & _ & ->)%Hl; [by apply (Hn i)|done..].
Qed.

(** A thread that was not waiting moves on, to where it has no semaphore; the
    one it had, if any, may be gone. *)
Lemma ok_moved s R c pc pc' :
  fwd_ok s -> fs_pumps s !! c = Some pc -> (forall d r, pc <> PumpWait d r) -> pump_sem pc' = None ->
  (forall r, r ∈ fs_held s -> r ∈ R \/ exists d, r = Sem d /\ pump_sem pc = Some d) ->
  fwd_ok (fpump c pc' (fholds R s)).
Proof.
  intros Hs Hc Hw Hpc HR. split; cbn; try apply Hs.
  - intros i j Hj. destruct (ok_conns s Hs i j Hj) as (? & Hb & ? & Hf). split_and!; try done.
    + by destruct (HR _ Hb) as [|(d & [=] & _)].
    + by destruct (HR _ Hf) as [|(d & [=] & _)].
  - intros i. rewrite insert_is_Some_same by eauto. apply Hs.
  - intros i q d [[-> <-]|[Hi Hq]]%lookup_insert_Some Hd; [congruence|].
    destruct (HR _ (ok_sems s Hs i q d Hq Hd)) as [|(d' & [= <-] & Hd')]; [done|].
    by destruct (Hi (ok_sem_inj s Hs _ _ _ _ _ Hc Hq Hd' Hd)).
  - intros i i' q q' d [[-> <-]|[Hi Hq]]%lookup_insert_Some [[-> <-]|[Hi' Hq']]%lookup_insert_Some Hd Hd';
      try congruence. by apply (ok_sem_inj s Hs i i' q q' d).
  - intros w Hin. pose proof (ok_work s Hs w Hin) as Ho. destruct w as [|i pcb data|pcb]; [done| |done].
    destruct Ho as (? & ? & d & Hd). split_and!; try done. exists d. cbn.
    rewrite lookup_insert_ne; [done|]. intros ->. rewrite Hc in Hd. injection Hd as ->. by eapply Hw.
Qed.

(** After [err] the pcb is gone, for lwIP and for the connection. *)
Definition fgone (pcb c : Z) k s : fshape :=
  MkFshape (fs_held s) (<[c := set_dead (set_pcb_null k)]> (fs_conns s)) (fs_pumps s)
    (delete pcb (fs_args s)) (fs_queue s).

Lemma not_targeted s pcb w :
  pcb ∉ omap target (fs_queue s) -> w ∈ fs_queue s -> target w <> Some pcb.
Proof. intros Hn Hw Ht. apply Hn, list_elem_of_omap. eauto. Qed.

Lemma ok_gone s pcb c k :
  fwd_ok s -> fs_conns s !! c = Some k -> nc_pcb k = pcb -> pcb ∉ omap target (fs_queue s) ->
  fwd_ok (fgone pcb c k s).
Proof.
  intros Hs Hc Hpcb Ht. split; cbn; try apply Hs.
  - intros i j [[-> <-]|[Hi Hj]]%lookup_insert_Some; [by apply (ok_conns s Hs i k)|by apply Hs].
  - intros i j [[-> <-]|[Hi Hj]]%lookup_insert_Some Hn; [done|].
    pose proof (ok_back s Hs i j Hj Hn) as Hb. rewrite lookup_delete_ne; [done|]. intros He.
    rewrite <- He, <- Hpcb in Hb. rewrite (ok_back s Hs c k Hc) in Hb by congruence. by injection Hb.
  - intros i i' j j' [[-> <-]|[Hi Hj]]%lookup_insert_Some [[-> <-]|[Hi' Hj']]%lookup_insert_Some He;
      cbn in He; [done|by apply (ok_fds s Hs i i' k j')|by apply (ok_fds s Hs i i' j k)
        |by apply (ok_fds s Hs i i' j j')].
  - intros i. rewrite insert_is_Some_same by eauto. apply Hs.
  - intros q a [Hq Ha]%lookup_delete_Some.
    destruct (ok_args s Hs q a Ha) as [? [(j & Hj & Hp)|?]]; split; auto.
    left. exists j. rewrite lookup_insert_ne; [done|]. intros ->. congruence.
  - intros w Hw. pose proof (ok_work s Hs w Hw) as Ho. pose proof (not_targeted s pcb w Ht Hw) as Hn.
    destruct w as [|i q data|q]; [done| |]; cbn in Hn.
    + destruct Ho as ((j & Hj & Hp) & Hr). split; [|exact Hr]. exists j. cbn.
      rewrite lookup_insert_ne; [done|]. intros ->. congruence.
    + destruct Ho as [Ha Hno]. split; cbn; [by rewrite lookup_delete_ne by congruence|].
      intros i j [[-> <-]|[Hi Hj]]%lookup_insert_Some; cbn; [|by apply (Hno i)].
      destruct Ha as [a Ha]. apply (ok_args s Hs) in Ha as [? _]. congruence.
Qed.

(** The shape after a thread's end: its pcb's close is queued. *)
Definition fdone (c : Z) k s : fshape :=
  MkFshape (fs_held s ∖ {[Fd (nc_host_fd k)]} ∖ {[Block c]}) (delete c (fs_conns s))
    (delete c (fs_pumps s)) (fs_args s)
    (fs_queue s ++ if nc_pcb k =? 0 then [] else [close_pcb_work (nc_pcb k)]).

(** The pcb of a connection whose thread runs has nothing queued. *)
Lemma running_untargeted s c k pc :
  fwd_ok s -> fs_conns s !! c = Some k -> fs_pumps s !! c = Some pc ->
  (forall d r, pc <> PumpWait d r) -> nc_pcb k <> 0 -> nc_pcb k ∉ omap target (fs_queue s).
Proof.
  intros Hs Hc Hpc Hw Hn (w & Hin & Ht)%list_elem_of_omap. pose proof (ok_work s Hs w Hin) as Ho.
  destruct w as [|i q data|q]; [done| |]; injection Ht as ->.
  - destruct Ho as ((j & Hj & Hp) & _ & d & Hd).
    pose proof (ok_back s Hs c k Hc Hn) as Hb. rewrite <- Hp in Hb, Hn.
    rewrite (ok_back s Hs i j Hj Hn) in Hb. injection Hb as ->. rewrite Hpc in Hd. injection Hd as ->. by eapply Hw.
  - by apply (proj2 Ho c k).
Qed.

Lemma ok_done s c k pc :
  fwd_ok s -> fs_conns s !! c = Some k -> fs_pumps s !! c = Some pc -> (forall d r, pc <> PumpWait d r) ->
  fwd_ok (fdone c k s).
Proof.
  intros Hs Hc Hpc Hw. split; cbn.
  - intros i j [Hi Hj]%lookup_delete_Some. destruct (ok_conns s Hs i j Hj) as (? & Hb & ? & Hfd).
    rewrite !elem_of_difference, !elem_of_singleton. split_and!; try done; intros [= He]; [done|].
    by apply Hi, (ok_fds s Hs c i k j).
  - intros i j [Hi Hj]%lookup_delete_Some. by apply Hs.
  - intros i i' j j' [Hi Hj]%lookup_delete_Some [Hi' Hj']%lookup_delete_Some. by apply (ok_fds s Hs).
  - intros i. rewrite !lookup_delete_is_Some, (ok_pumps s Hs). done.
  - intros i q d [Hi Hq]%lookup_delete_Some Hd. pose proof (ok_sems s Hs i q d Hq Hd). set_solver.
  - intros i i' q q' d [Hi Hq]%lookup_delete_Some [Hi' Hq']%lookup_delete_Some. by apply (ok_sem_inj s Hs).
  - intros q a Ha. destruct (ok_args s Hs q a Ha) as [Hq [(j & Hj & Hp)|Hin]]; split; auto.
    + destruct (decide (a = c)) as [->|].
      * right. simplify_eq. rewrite (proj2 (Z.eqb_neq _ _) Hq). set_solver.
      * left. exists j. by rewrite lookup_delete_ne.
    + right. set_solver.
  - intros w [Hin|Hin]%elem_of_app.
    + pose proof (ok_work s Hs w Hin) as Ho. destruct w as [|i q data|q]; [done| |].
      * destruct Ho as ((j & Hj & Hp) & ? & d & Hd). assert (i <> c) by (intros ->; rewrite Hpc in Hd;
          injection Hd as ->; by eapply Hw).
        split_and!; [exists j|done|exists d]; cbn; by rewrite lookup_delete_ne.
      * split; [apply Ho|]. cbn. intros i j [_ Hj]%lookup_delete_Some. by apply (proj2 Ho i).
    + destruct (Z.eqb_spec (nc_pcb k) 0) as [|Hn]; [by apply not_elem_of_nil in Hin|].
      apply list_elem_of_singleton in Hin as ->. split; cbn; [rewrite (ok_back s Hs c k); eauto|].
      intros i j [Hi Hj]%lookup_delete_Some He. apply Hi.
      pose proof (ok_back s Hs c k Hc Hn) as Hb. rewrite <- He in Hb, Hn.
      rewrite (ok_back s Hs i j Hj Hn) in Hb. by injection Hb.
  - rewrite omap_app. destruct (Z.eqb_spec (nc_pcb k) 0) as [|Hn]; [rewrite app_nil_r; apply Hs|].
    cbn. apply NoDup_app. split_and!; [apply Hs| |apply NoDup_singleton].
    intros q Hq ->%list_elem_of_singleton. by apply (running_untargeted s c k pc).
Qed.

(** A new connection. *)
Definition faccepted (pcb c fd : Z) s : fshape :=
  MkFshape ({[Block c]} ∪ ({[Fd fd]} ∪ fs_held s)) (<[c := MkConn pcb fd true]> (fs_conns s))
    (<[c := PumpRead]> (fs_pumps s)) (<[pcb := c]> (fs_args s)) (fs_queue s).

Lemma ok_accepted s pcb c fd :
  fwd_ok s -> fs_args s !! pcb = None -> pcb <> 0 -> c <> 0 -> 0 <= fd -> Fd fd ∉ fs_held s ->
  fs_conns s !! c = None -> fwd_ok (faccepted pcb c fd s).
Proof.
  intros Hs Ha Hpcb Hc Hfd Hf Hn. split; cbn; try apply Hs.
  - intros i j [[-> <-]|[Hi Hj]]%lookup_insert_Some; cbn; [split_and!; try done; set_solver|].
    destruct (ok_conns s Hs i j Hj) as (? & ? & ? & ?). split_and!; try done; set_solver.
  - intros i j [[-> <-]|[Hi Hj]]%lookup_insert_Some Hne; cbn; [apply lookup_insert_eq|].
    pose proof (ok_back s Hs i j Hj Hne) as Hb. rewrite lookup_insert_ne; [done|]. congruence.
  - intros i i' j j' [[-> <-]|[Hi Hj]]%lookup_insert_Some [[-> <-]|[Hi' Hj']]%lookup_insert_Some He;
      cbn in He; [done| | |by apply (ok_fds s Hs i i' j j')];
      [destruct (ok_conns s Hs i' j' Hj') as (_ & _ & _ & Hin)
      |destruct (ok_conns s Hs i j Hj) as (_ & _ & _ & Hin)]; congruence.
  - intros i. rewrite !lookup_insert_is_Some, (ok_pumps s Hs). naive_solver.
  - intros i q d [[-> <-]|[Hi Hq]]%lookup_insert_Some Hd; [done|].
    pose proof (ok_sems s Hs i q d Hq Hd). set_solver.
  - intros i i' q q' d [[-> <-]|[Hi Hq]]%lookup_insert_Some [[-> <-]|[Hi' Hq']]%lookup_insert_Some Hd Hd';
      try done. by apply (ok_sem_inj s Hs i i' q q' d).
  - intros q a [[-> <-]|[Hq Hqa]]%lookup_insert_Some.
    + split; [done|]. left. eexists. by rewrite lookup_insert_eq.
    + destruct (ok_args s Hs q a Hqa) as [? [(j & Hj & Hp)|?]]; split; auto. left.
      exists j. rewrite lookup_insert_ne; [done|]. intros ->. congruence.
  - intros w Hw. pose proof (ok_work s Hs w Hw) as Ho. destruct w as [|i q data|q]; [done| |]; cbn.
    + destruct Ho as ((j & Hj & Hp) & ? & d & Hd). assert (i <> c) by congruence.
      split_and!; [exists j|done|exists d]; by rewrite lookup_insert_ne.
    + destruct Ho as [[a Hqa] Hno]. split.
      * rewrite lookup_insert_ne by congruence. eauto.
      * intros i j [[-> <-]|[Hi Hj]]%lookup_insert_Some; cbn; [congruence|by apply (Hno i)].
Qed.

(** Work is taken from the queue: a close takes the pcb's argument with it. *)
Lemma ok_closed s pcb q :
  fwd_ok s -> fs_queue s = close_pcb_work pcb :: q ->
  fwd_ok (MkFshape (fs_held s) (fs_conns s) (fs_pumps s) (delete pcb (fs_args s)) q).
Proof.
  intros Hs Hq. pose proof (ok_targets s Hs) as Ht. rewrite Hq in Ht. cbn in Ht.
  apply NoDup_cons in Ht as [Hnt Ht].
  assert (Hin : close_pcb_work pcb ∈ fs_queue s) by (rewrite Hq; apply list_elem_of_here).
  destruct (ok_work s Hs _ Hin) as [_ Hno].
  split; cbn; try apply Hs; [| | |done].
  - intros i j Hj Hn. rewrite lookup_delete_ne; [by apply Hs|]. intros He. by apply (Hno i j).
  - intros r a [Hr Ha]%lookup_delete_Some. destruct (ok_args s Hs r a Ha) as [? [?|Hw]]; split; auto. right.
    rewrite Hq in Hw. apply elem_of_cons in Hw as [Hw|Hw]; [congruence|done].
  - intros w Hw. assert (Hw' : w ∈ fs_queue s) by (rewrite Hq; by apply list_elem_of_further).
    pose proof (ok_work s Hs w Hw') as Ho. destruct w as [|i r data|r]; [done|exact Ho|].
    split; [|apply Ho]. cbn. rewrite lookup_delete_ne; [apply Ho|]. intros <-.
    apply Hnt, list_elem_of_omap. by eexists.
Qed.

(** A write was made: its thread is woken up. *)
Lemma ok_written s c pcb data q err d :
  fwd_ok s -> fs_queue s = do_tcp_write_work c pcb data :: q -> fs_pumps s !! c = Some (PumpWait d data) ->
  fwd_ok (fpump c (PumpWritten d err data) (fqueue q s)).
Proof.
  intros Hs Hq Hc. pose proof (ok_targets s Hs) as Ht. rewrite Hq in Ht. cbn in Ht.
  apply NoDup_cons in Ht as [Hnt Ht].
  assert (Hin : do_tcp_write_work c pcb data ∈ fs_queue s) by (rewrite Hq; apply list_elem_of_here).
  destruct (ok_work s Hs _ Hin) as ((k & Hk & Hp) & Hne & _).
  split; cbn; try apply Hs; [| | | | |done].
  - intros i. rewrite insert_is_Some_same by eauto. apply Hs.
  - intros i pc d' [[-> <-]|[Hi Hpc]]%lookup_insert_Some Hd; [|by apply (ok_sems s Hs i pc)].
    by apply (ok_sems s Hs i _ d' Hc).
  - intros i i' pc pc' d' [[-> <-]|[Hi Hpc]]%lookup_insert_Some [[-> <-]|[Hi' Hpc']]%lookup_insert_Some Hd Hd';
      [done|by apply (ok_sem_inj s Hs _ _ _ _ d' Hc Hpc')|by apply (ok_sem_inj s Hs _ _ _ _ d' Hpc Hc)
      |by apply (ok_sem_inj s Hs _ _ _ _ d' Hpc Hpc')].
  - intros r a Ha. destruct (ok_args s Hs r a Ha) as [? [?|Hw]]; split; auto. right.
    rewrite Hq in Hw. by apply elem_of_cons in Hw as [Hw|Hw].
  - intros w Hw. assert (Hw' : w ∈ fs_queue s) by (rewrite Hq; by apply list_elem_of_further).
    pose proof (ok_work s Hs w Hw') as Ho. destruct w as [|i r data'|r]; [done| |exact Ho].
    destruct Ho as ((j & Hj & Hr) & Hrn & d' & Hd'). split_and!; [by exists j|done|]. exists d'. cbn.
    rewrite lookup_insert_ne; [done|]. intros ->. apply Hnt, list_elem_of_omap.
    eexists. split; [exact Hw|]. cbn. congruence.
Qed.

Lemma ok_listened s q :
  fwd_ok s -> fs_queue s = netdev_start_listen_work :: q -> fwd_ok (fqueue q s).
Proof.
  intros Hs Hq. split; cbn; try apply Hs.
  - intros r a Ha. destruct (ok_args s Hs r a Ha) as [? [?|Hw]]; split; auto. right.
    rewrite Hq in Hw. by apply elem_of_cons in Hw as [Hw|Hw].
  - intros w Hw. apply (ok_work s Hs). rewrite Hq. by apply list_elem_of_further.
  - pose proof (ok_targets s Hs) as Ht. by rewrite Hq in Ht.
Qed.

Lemma ok_listen s : fwd_ok s -> fwd_ok (fqueue (fs_queue s ++ [netdev_start_listen_work]) s).
Proof.
  intros Hs. split; cbn; try apply Hs.
  - intros r a Ha. destruct (ok_args s Hs r a Ha) as [? [?|Hw]]; split; auto. right. set_solver.
  - intros w [Hw| ->%list_elem_of_singleton]%elem_of_app; [by apply (ok_work s Hs)|done].
  - rewrite omap_app. cbn. rewrite app_nil_r. apply Hs.
Qed.

(** A thread queues a write and waits. *)
Lemma ok_queued s c k data d :
  fwd_ok s -> fs_conns s !! c = Some k -> nc_pcb k <> 0 -> fs_pumps s !! c = Some (PumpWrite data) ->
  Sem d ∉ fs_held s ->
  fwd_ok (fpump c (PumpWait d data) (fqueue (fs_queue s ++ [do_tcp_write_work c (nc_pcb k) data])
    (fholds ({[Sem d]} ∪ fs_held s) s))).
Proof.
  intros Hs Hc Hn Hpc Hd. split; cbn; try apply Hs.
  - intros i j Hj. destruct (ok_conns s Hs i j Hj) as (? & ? & ? & ?). split_and!; try done; set_solver.
  - intros i. rewrite insert_is_Some_same by eauto. apply Hs.
  - intros i pc d' [[-> <-]|[Hi Hq]]%lookup_insert_Some He; [injection He as ->; set_solver|].
    pose proof (ok_sems s Hs i pc d' Hq He). set_solver.
  - intros i i' pc pc' d' [[-> <-]|[Hi Hq]]%lookup_insert_Some [[-> <-]|[Hi' Hq']]%lookup_insert_Some He He';
      [done| | |by apply (ok_sem_inj s Hs i i' pc pc' d')].
    + injection He as ->. by pose proof (ok_sems s Hs i' pc' d' Hq' He').
    + injection He' as ->. by pose proof (ok_sems s Hs i pc d' Hq He).
  - intros r a Ha. destruct (ok_args s Hs r a Ha) as [? [?|Hw]]; split; auto. right. set_solver.
  - intros w [Hw| ->%list_elem_of_singleton]%elem_of_app.
    + pose proof (ok_work s Hs w Hw) as Ho. destruct w as [|i r data'|r]; [done| |exact Ho].
      destruct Ho as (Hj & Hr & d' & Hd'). split_and!; [done..|]. exists d'. cbn.
      rewrite lookup_insert_ne; [done|]. intros ->. congruence.
    + split_and!; [by exists k|done|]. exists d. apply lookup_insert_eq.
  - rewrite omap_app. cbn. apply NoDup_app. split_and!; [apply Hs| |apply NoDup_singleton].
    intros q Hq ->%list_elem_of_singleton. by apply (running_untargeted s c k (PumpWrite data)).
Qed.

(** ** The ledger *)

(** What the forwarder holds for the connection [c]: its block, its socket and
    the semaphore its thread waits on. *)
Definition owned_at s (c : Z) (r : res) : Prop :=
  (exists k, fs_conns s !! c = Some k /\ (r = Block c \/ r = Fd (nc_host_fd k))) \/
  (exists pc d, fs_pumps s !! c = Some pc /\ pump_sem pc = Some d /\ r = Sem d).

(** Besides [R] it holds that and nothing else. *)
Record ledger (R : gset res) s : Prop := {
  led_held r : r ∈ fs_held s <-> r ∈ R \/ exists c, owned_at s c r;
  led_apart r c : r ∈ R -> ~ owned_at s c r
}.

Lemma owned_once s c i r : fwd_ok s -> owned_at s c r -> owned_at s i r -> i = c.
Proof.
  intros Hs [(k & Hk & Hr)|(pc & d & Hpc & Hd & Hr)] [(k' & Hk' & Hr')|(pc' & d' & Hpc' & Hd' & Hr')].
  - destruct Hr as [-> | ->], Hr' as [[=]|[=]]; [done|]. by apply (ok_fds s Hs i c k' k).
  - subst r. by destruct Hr as [[=]|[=]].
  - subst r. by destruct Hr' as [[=]|[=]].
  - subst r. injection Hr' as ->. by apply (ok_sem_inj s Hs i c pc' pc d').
Qed.

Lemma ledger_same R s s' :
  ledger R s -> fs_held s' = fs_held s -> (forall c r, owned_at s' c r <-> owned_at s c r) -> ledger R s'.
Proof.
  intros [Hl Ha] Hh Ho. split.
  - intros r. rewrite Hh, Hl. setoid_rewrite Ho. done.
  - intros r c. rewrite Ho. apply Ha.
Qed.

(** A step that concerns the connection [c] only. *)
Lemma ledger_frame R s s' c :
  fwd_ok s -> ledger R s ->
  (forall i, i <> c -> fs_conns s' !! i = fs_conns s !! i /\ fs_pumps s' !! i = fs_pumps s !! i) ->
  (forall r, r ∈ fs_held s' <-> (r ∈ fs_held s /\ ~ owned_at s c r) \/ owned_at s' c r) ->
  (forall r, r ∈ R -> ~ owned_at s' c r) ->
  ledger R s'.
Proof.
  intros Hs [Hl Ha] Hf Hh Hn.
  assert (Ho : forall i r, i <> c -> owned_at s' i r <-> owned_at s i r).
  { intros i r Hi. destruct (Hf i Hi) as [Hc Hp]. unfold owned_at. by rewrite Hc, Hp. }
  split.
  - intros r. rewrite Hh, Hl. split.
    + intros [[[Hr|[i Hi]] Hc]|Hc]; [by left| |by right; exists c].
      right. exists i. rewrite Ho; [done|]. by intros ->.
    + intros [Hr|[i Hi]]; [left; split; [by left|by apply Ha]|].
      destruct (decide (i = c)) as [->|Hic]; [by right|left]. apply Ho in Hi; [|done].
      split; [right; by exists i|]. intros Hc. apply Hic. by apply (owned_once s c i r).
  - intros r i Hr. destruct (decide (i = c)) as [->|Hic]; [by apply Hn|]. rewrite Ho by done. by apply Ha.
Qed.

Lemma owned_conn s c k r :
  fs_conns s !! c = Some k -> owned_at s c r <->
  r = Block c \/ r = Fd (nc_host_fd k) \/
  (exists pc d, fs_pumps s !! c = Some pc /\ pump_sem pc = Some d /\ r = Sem d).
Proof. intros Hk. unfold owned_at. rewrite Hk. naive_solver. Qed.

Lemma ledger_put R s c k k' :
  ledger R s -> fs_conns s !! c = Some k -> nc_host_fd k' = nc_host_fd k -> ledger R (fput c k' s).
Proof.
  intros Hl Hk Hfd. apply (ledger_same R s); [done..|]. intros i r. unfold owned_at. cbn.
  destruct (decide (i = c)) as [->|Hi]; [|by rewrite lookup_insert_ne by done].
  rewrite lookup_insert_eq, Hk. naive_solver congruence.
Qed.

(** Arguments and queue hold nothing. *)
Lemma ledger_else R s args q :
  ledger R s -> ledger R (MkFshape (fs_held s) (fs_conns s) (fs_pumps s) args q).
Proof. intros Hl. by apply (ledger_same R s). Qed.

Lemma ledger_written R s c d data err :
  ledger R s -> fs_pumps s !! c = Some (PumpWait d data) ->
  ledger R (fpump c (PumpWritten d err data) s).
Proof.
  intros Hl Hpc. apply (ledger_same R s); [done..|]. intros i r. unfold owned_at. cbn.
  destruct (decide (i = c)) as [->|Hi]; [|by rewrite lookup_insert_ne by done].
  rewrite lookup_insert_eq, Hpc. naive_solver congruence.
Qed.

Definition sem_set (pc : pump) : gset res :=
  match pump_sem pc with Some d => {[Sem d]} | None => ∅ end.

Lemma ledger_moved R s c pc pc' :
  fwd_ok s -> ledger R s -> fs_pumps s !! c = Some pc -> pump_sem pc' = None ->
  ledger R (fpump c pc' (fholds (fs_held s ∖ sem_set pc) s)).
Proof.
  intros Hs Hl Hpc Hn. destruct (proj1 (ok_pumps s Hs c) (ex_intro _ pc Hpc)) as [k Hk].
  assert (Ho : forall r, owned_at (fpump c pc' (fholds (fs_held s ∖ sem_set pc) s)) c r <->
    r = Block c \/ r = Fd (nc_host_fd k)).
  { intros r. rewrite (owned_conn _ c k) by done. cbn. rewrite lookup_insert_eq. naive_solver. }
  apply (ledger_frame R s _ c); [done..| | |].
  - intros i Hi. cbn. by rewrite lookup_insert_ne by done.
  - intros r. rewrite Ho. cbn. rewrite (owned_conn s c k), elem_of_difference by done.
    destruct (ok_conns s Hs c k Hk) as (_ & Hb & _ & Hf).
    unfold sem_set. split.
    + intros [Hr Hns]. destruct (decide (r = Block c)); [by right; left|].
      destruct (decide (r = Fd (nc_host_fd k))); [by right; right|]. left. split; [done|].
      intros [?|[?|(pc1 & d & Hpc1 & Hd & ->)]]; try done. rewrite Hpc in Hpc1. injection Hpc1 as <-.
      rewrite Hd in Hns. set_solver.
    + intros [[Hr Hno]|[-> | ->]].
      * split; [done|]. intros Hin. destruct (pump_sem pc) as [d|] eqn:Hd; [|set_solver].
        apply elem_of_singleton in Hin as ->. apply Hno. right. right. eauto.
      * split; [done|]. destruct (pump_sem pc); set_solver.
      * split; [done|]. destruct (pump_sem pc); set_solver.
  - intros r Hr Hown. apply (led_apart R s Hl r c Hr). apply Ho in Hown. rewrite (owned_conn s c k) by done.
    naive_solver.
Qed.

Lemma ledger_queued R s c data d :
  fwd_ok s -> ledger R s -> fs_pumps s !! c = Some (PumpWrite data) -> Sem d ∉ fs_held s ->
  ledger R (fpump c (PumpWait d data) (fholds ({[Sem d]} ∪ fs_held s) s)).
Proof.
  intros Hs Hl Hpc Hd. destruct (proj1 (ok_pumps s Hs c) (ex_intro _ _ Hpc)) as [k Hk].
  destruct (ok_conns s Hs c k Hk) as (_ & Hb & _ & Hf).
  assert (Ho : forall r, owned_at (fpump c (PumpWait d data) (fholds ({[Sem d]} ∪ fs_held s) s)) c r <->
    r = Sem d \/ owned_at s c r).
  { intros r. rewrite !(owned_conn _ c k) by done. cbn. rewrite lookup_insert_eq, Hpc. naive_solver. }
  apply (ledger_frame R s _ c); [done..| | |].
  - intros i Hi. cbn. by rewrite lookup_insert_ne by done.
  - intros r. rewrite Ho. cbn. rewrite elem_of_union, elem_of_singleton. split.
    + intros [-> |Hr]; [by right; left|].
      rewrite (owned_conn s c k) by done. rewrite Hpc.
      destruct (decide (r = Block c)); [naive_solver|].
      destruct (decide (r = Fd (nc_host_fd k))); naive_solver.
    + intros [[Hr _]|[-> |Hr]]; [by right|by left|right]. apply (led_held R s Hl). right. by exists c.
  - intros r Hr Hown. apply Ho in Hown as [-> |Hown]; [|by apply (led_apart R s Hl r c Hr)].
    apply Hd, (led_held R s Hl). by left.
Qed.

Lemma ledger_done R s c k pc :
  fwd_ok s -> ledger R s -> fs_conns s !! c = Some k -> fs_pumps s !! c = Some pc -> pump_sem pc = None ->
  ledger R (fdone c k s).
Proof.
  intros Hs Hl Hk Hpc Hn.
  assert (Ho : forall r, ~ owned_at (fdone c k s) c r).
  { intros r. unfold owned_at. cbn. rewrite !lookup_delete_eq. naive_solver. }
  apply (ledger_frame R s _ c); [done..| | |].
  - intros i Hi. cbn. by rewrite !lookup_delete_ne by done.
  - intros r. cbn. rewrite !elem_of_difference, !elem_of_singleton, (owned_conn s c k) by done.
    rewrite Hpc. naive_solver.
  - intros r _. apply Ho.
Qed.

Lemma ledger_accepted R s pcb c fd :
  fwd_ok s -> ledger R s -> Fd fd ∉ fs_held s -> Block c ∉ fs_held s -> fs_conns s !! c = None ->
  ledger R (faccepted pcb c fd s).
Proof.
  intros Hs Hl Hf Hb Hc.
  assert (Hp : fs_pumps s !! c = None).
  { destruct (fs_pumps s !! c) as [pc|] eqn:Hpc; [|done].
    destruct (proj1 (ok_pumps s Hs c) (ex_intro _ pc Hpc)) as [k Hk]. congruence. }
  assert (Ho : forall r, owned_at (faccepted pcb c fd s) c r <-> r = Block c \/ r = Fd fd).
  { intros r. unfold owned_at. cbn. rewrite !lookup_insert_eq. naive_solver. }
  assert (Hno : forall r, ~ owned_at s c r) by (intros r; unfold owned_at; rewrite Hc, Hp; naive_solver).
  apply (ledger_frame R s _ c); [done..| | |].
  - intros i Hi. cbn. by rewrite !lookup_insert_ne by done.
  - intros r. rewrite Ho. cbn. rewrite !elem_of_union, !elem_of_singleton. naive_solver.
  - intros r Hr [-> | ->]%Ho; [apply Hb|apply Hf]; apply (led_held R s Hl); by left.
Qed.

(** ** Both together *)

Record fwd_good (R : gset res) s : Prop := {
  fg_ok :> fwd_ok s;
  fg_ledger : ledger R s
}.

Section Good.
Context (R : gset res).

Lemma good_put s c k k' :
  fwd_good R s -> fs_conns s !! c = Some k -> nc_host_fd k' = nc_host_fd k -> nc_pcb k' = nc_pcb k ->
  fwd_good R (fput c k' s).
Proof. intros [Hs Hl] ???. split; [by apply (ok_put s c k)|by apply (ledger_put R s c k)]. Qed.

Lemma good_gone s pcb c k :
  fwd_good R s -> fs_conns s !! c = Some k -> nc_pcb k = pcb -> pcb ∉ omap target (fs_queue s) ->
  fwd_good R (fgone pcb c k s).
Proof.
  intros [Hs Hl] ???. split; [by apply ok_gone|].
  by apply (ledger_else R (fput c (set_dead (set_pcb_null k)) s)), (ledger_put R s c k).
Qed.

Lemma good_done s c k pc :
  fwd_good R s -> fs_conns s !! c = Some k -> fs_pumps s !! c = Some pc -> pump_sem pc = None ->
  fwd_good R (fdone c k s).
Proof.
  intros [Hs Hl] ?? Hn. split; [apply (ok_done s c k pc); try done|by apply (ledger_done R s c k pc)].
  by intros d r ->.
Qed.

Lemma good_accepted s pcb c fd :
  fwd_good R s -> fs_args s !! pcb = None -> pcb <> 0 -> c <> 0 -> 0 <= fd ->
  Fd fd ∉ fs_held s -> Block c ∉ fs_held s -> fwd_good R (faccepted pcb c fd s).
Proof.
  intros [Hs Hl] ????? Hb. assert (fs_conns s !! c = None).
  { destruct (fs_conns s !! c) as [k|] eqn:Ek; [|done].
    by destruct (ok_conns s Hs c k Ek) as (_ & ? & _). }
  split; [by apply ok_accepted|by apply ledger_accepted].
Qed.

Lemma good_closed s pcb q :
  fwd_good R s -> fs_queue s = close_pcb_work pcb :: q ->
  fwd_good R (MkFshape (fs_held s) (fs_conns s) (fs_pumps s) (delete pcb (fs_args s)) q).
Proof. intros [Hs Hl] ?. split; [by apply ok_closed|by apply ledger_else]. Qed.

Lemma good_written s c pcb data q err d :
  fwd_good R s -> fs_queue s = do_tcp_write_work c pcb data :: q ->
  fs_pumps s !! c = Some (PumpWait d data) -> fwd_good R (fpump c (PumpWritten d err data) (fqueue q s)).
Proof.
  intros [Hs Hl] ??. split; [by eapply ok_written|].
  by apply (ledger_else R (fpump c (PumpWritten d err data) s)), ledger_written.
Qed.

Lemma good_listened s q :
  fwd_good R s -> fs_queue s = netdev_start_listen_work :: q -> fwd_good R (fqueue q s).
Proof. intros [Hs Hl] ?. split; [by apply ok_listened|by apply ledger_else]. Qed.

Lemma good_listen s : fwd_good R s -> fwd_good R (fqueue (fs_queue s ++ [netdev_start_listen_work]) s).
Proof. intros [Hs Hl]. split; [by apply ok_listen|by apply ledger_else]. Qed.

Lemma good_queued s c k data d :
  fwd_good R s -> fs_conns s !! c = Some k -> nc_pcb k <> 0 -> fs_pumps s !! c = Some (PumpWrite data) ->
  Sem d ∉ fs_held s ->
  fwd_good R (fpump c (PumpWait d data) (fqueue (fs_queue s ++ [do_tcp_write_work c (nc_pcb k) data])
    (fholds ({[Sem d]} ∪ fs_held s) s))).
Proof.
  intros [Hs Hl] ????. split; [by apply ok_queued|].
  by apply (ledger_else R (fpump c (PumpWait d data) (fholds ({[Sem d]} ∪ fs_held s) s))), ledger_queued.
Qed.

Lemma good_moved s c pc pc' :
  fwd_good R s -> fs_pumps s !! c = Some pc -> (forall d r, pc <> PumpWait d r) -> pump_sem pc' = None ->
  fwd_good R (fpump c pc' (fholds (fs_held s ∖ sem_set pc) s)).
Proof.
  intros [Hs Hl] Hpc Hw Hn. split; [|by apply ledger_moved].
  apply (ok_moved s _ c pc); try done. intros r Hr. unfold sem_set.
  destruct (pump_sem pc) as [d|]; [|left; set_solver].
  destruct (decide (r = Sem d)) as [->|]; [right; by exists d|left; set_solver].
Qed.
End Good.

(** What a forwarder is like between steps; the process holds [R] besides. *)
Definition good (R : gset res) f : Prop := exists s, fwd_good R s /\ ffits s f.
End Fits.
