(* ===== verification/PppLwip.v ===== *)
(** * The glue to lwIP: zb_rpc_client/ppp_lwip.c, and [serial_output] of
      serial_io.c, which it calls through the link

    The callbacks lwIP makes ([run_callbacks]), the TUN side ([tun_output],
    [ppp_link_tun_poll]), the configuration of the PPP pcb, and start and stop.
    Diagnostics are left out.  The code is compiled with IPv4, IPv6, PPP_IPV6
    and VJ support (lwipopts.h). *)

From Stdlib Require Import ZArith Lia Strings.Byte Strings.String.
From stdpp Require Import base tactics list numbers option gmap.
From S2P Require Import Prelude Posix Sockets HostSys.

Definition ip6_header : list byte := [x00; x00; x86; xdd].
Definition ip4_header : list byte := [x00; x00; x08; x00].

Section PppLwip.
Context {E : Type} `{HostSys E, Lwip E}.

(** [netdev_fwd_enabled()]: the forwarder's own variable (netdev_fwd.c). *)
Context (netdev_fwd_enabled : bool).

(** ** serial_io.c: the output function of the link *)

Definition serial_output (ctx : Z) (data : list byte) : St (proc E) Z :=
  s ← load_serial ctx;
  written ← os (os_write (se_fd s) data);
  if written <? 0 then mret (-1) else mret written.

(** ** The callbacks *)

(** [ppp_link_status_cb]; every error only clears the flag. *)
Definition ppp_link_status_cb (err_code : Z) (addressed : bool) : St (proc E) unit :=
  (if negb (err_code =? PPPERR_NONE) then lwip_set (set_link_up false) else mret tt);;
  if err_code =? PPPERR_NONE then
    lwip_set (set_link_up true);;
    if netdev_fwd_enabled && addressed then os netdev_fwd_on_link_up else mret tt
  else mret tt.

(** [ppp_output_cb]; [io] is the link the pcb was created with. *)
Definition ppp_output_cb (io : Z) (data : list byte) : St (proc E) Z :=
  if io =? 0 then mret 0
  else
    k ← load_link io;
    match lk_output k with
    | Some ctx =>
        n ← serial_output ctx data;
        mret (if 0 <? n then n else 0)
    | None => mret 0
    end.

(** [memcpy(s_io->in_buf + offset, src, n)]: past its end it is a fault. *)
Definition copy_in_buf (io : Z) (offset : nat) (src : list byte) : St (proc E) unit :=
  k ← load_link io;
  if Nat.ltb (List.length (lk_in_buf k)) (offset + List.length src)
  then proc_fault
  else update_link io (fun k => set_in_buf
    (take offset (lk_in_buf k) ++ src ++ drop (offset + List.length src) (lk_in_buf k)) k).

(** The loop over the chain; the offset it ends at. *)
Fixpoint copy_chain (io : Z) (offset : nat) (n : pbuf_chain) : St (proc E) nat :=
  match n with
  | [] => mret offset
  | payload :: n =>
      copy_in_buf io offset payload;;
      copy_chain io (offset + List.length payload) n
  end.

Definition tun_output (p : pbuf_chain) (tun_header : list byte) : St (proc E) Z :=
  v ← gets p_lwip;
  if lw_io v =? 0 then mret ERR_ARG
  else
    k ← load_link (lw_io v);
    if lk_tun_fd k <? 0 then mret ERR_OK
    else
      copy_in_buf (lw_io v) 0 tun_header;;
      offset ← copy_chain (lw_io v) (List.length tun_header) p;
      k ← load_link (lw_io v);
      n ← os (os_write (lk_tun_fd k) (take offset (lk_in_buf k)));
      if negb (n =? Z.of_nat offset) then mret ERR_ABRT else mret ERR_OK.

Definition ip6_input (p : pbuf_chain) : St (proc E) Z := tun_output p ip6_header.

Definition ip4_input (p : pbuf_chain) : St (proc E) Z :=
  if netdev_fwd_enabled then os (lwip_ip4_input p) else tun_output p ip4_header.

Definition run_callback (cb : lwip_callback) : St (proc E) unit :=
  match cb with
  | cb_output data =>
      v ← gets p_lwip;
      ppp_output_cb (lw_io v) data;;
      mret tt
  | cb_status err_code addressed => ppp_link_status_cb err_code addressed
  | cb_ip4 p => ip4_input p;; mret tt
  | cb_ip6 p => ip6_input p;; mret tt
  end.

Definition run_callbacks (cbs : list lwip_callback) : St (proc E) unit :=
  for_each run_callback cbs.

Definition lwip_call (m : St E (list lwip_callback)) : St (proc E) unit :=
  cbs ← os m;
  run_callbacks cbs.

(** ** Serial input *)

Definition ppp_link_serial_input (data : list byte) : St (proc E) unit :=
  v ← gets p_lwip;
  match lw_ppp v with
  | None => mret tt
  | Some _ =>
      if lw_use_tcpip v then lwip_call (pppos_input_tcpip data)
      else lwip_call (pppos_input data)
  end.

(** ** Configuration *)

Definition configure_ppp_server (pcb : pcb_settings) (cfg : ppp_config) : option pcb_settings :=
  local_addr ← ip4addr_aton (pc_local_ip cfg);
  peer_addr ← ip4addr_aton (pc_peer_ip cfg);
  dns_addr ← ip4addr_aton (pc_dns_ip cfg);
  Some (MkPcbSettings true 1 local_addr true true peer_addr true dns_addr false
          (negb netdev_fwd_enabled) (negb netdev_fwd_enabled)
          (pc_ipv6 cfg) (pc_ipv6 cfg)
          (if pc_ipv6 cfg then true else ps_ipv6_accept_local pcb)
          (if pc_ipv6 cfg then true else ps_use_ip pcb)).

Definition configure_ppp_client (pcb : pcb_settings) (cfg : ppp_config) : option pcb_settings :=
  Some (MkPcbSettings (ps_passive pcb) 1 (ps_ouraddr pcb) (ps_accept_remote pcb)
          (ps_ask_for_local pcb) (ps_hisaddr pcb) (ps_accept_local pcb) (ps_dnsaddr pcb) true
          (negb netdev_fwd_enabled) (ps_allow_vj pcb) (pc_ipv6 cfg) (pc_ipv6 cfg)
          (ps_ipv6_accept_local pcb) (ps_use_ip pcb)).

(** ** State, start and stop *)

Definition ppp_link_is_up (p : proc E) : bool := lw_link_up (p_lwip p).

(** [ppp_stop_tcpip] runs in lwIP's thread while the caller waits. *)
Definition ppp_link_lwip_stop : St (proc E) unit :=
  v ← gets p_lwip;
  match lw_ppp v with
  | None => mret tt
  | Some _ =>
      if lw_use_tcpip v then
        done ← os sys_sem_new;
        if done =? 0 then mret tt
        else
          queued ← os tcpip_callback;
          (if queued : bool then lwip_call ppp_close else mret tt);;
          os (sys_sem_free done)
      else lwip_call ppp_close
  end.

(** [ppp_listen] or [ppp_connect]: whether it returned [ERR_OK]. *)
Definition open_session (m : pcb_settings -> St E (Z * list lwip_callback)) (pcb : pcb_settings)
    : St (proc E) bool :=
  lwip_set (set_pcb (Some pcb));;
  r ← os (m pcb);
  run_callbacks r.2;;
  mret (r.1 =? ERR_OK).

(** The common part of [ppp_setup_tcpip] and [ppp_link_lwip_init], from
    [pppos_create] on. *)
Definition ppp_setup (cfg : ppp_config) : St (proc E) bool :=
  pcb ← os pppos_create;
  lwip_set (set_pcb pcb);;
  match (pcb : option pcb_settings) with
  | None => mret false
  | Some pcb =>
      if pc_server cfg then
        match configure_ppp_server pcb cfg with
        | None => mret false
        | Some pcb => open_session ppp_listen pcb
        end
      else
        match configure_ppp_client pcb cfg with
        | None => mret false
        | Some pcb => open_session ppp_connect pcb
        end
  end.

Definition ppp_link_lwip_init (link : Z) : St (proc E) bool :=
  lwip_set (set_io link);;
  if link =? 0 then mret false
  else
    k ← load_link link;
    lwip_set (set_use_tcpip (netdev_fwd_enabled || pc_netdev (lk_ppp_cfg k)));;
    v ← gets p_lwip;
    if lw_use_tcpip v then
      os tcpip_init;;
      done ← os sys_sem_new;
      if done =? 0 then mret false
      else
        queued ← os tcpip_callback;
        if negb queued then os (sys_sem_free done);; mret false
        else
          ok ← ppp_setup (lk_ppp_cfg k);
          os (sys_sem_free done);;
          mret ok
    else
      os lwip_init_all;;
      ppp_setup (lk_ppp_cfg k).


(** ** The TUN poll *)

(** [if (!s_use_tcpip) sys_check_timeouts()] *)
Definition check_timeouts : St (proc E) unit :=
  v ← gets p_lwip;
  if lw_use_tcpip v then mret tt else lwip_call sys_check_timeouts.

(** A packet read from the TUN device: the header selects the output. *)
Definition tun_dispatch (header payload : list byte) : St (proc E) unit :=
  if bool_decide (header = ip6_header) then lwip_call (netif_output_ip6 payload)
  else if bool_decide (header = ip4_header) then lwip_call (netif_output payload)
  else mret tt.

Definition ppp_link_tun_poll (link : Z) : St (proc E) Z :=
  if link =? 0 then mret 0
  else
    k ← load_link link;
    if lk_tun_fd k <? 0 then
      os (os_usleep 100000);;
      check_timeouts;;
      mret 0
    else
      ready ← os (os_select (lk_tun_fd k));
      if ready <=? 0 then check_timeouts;; mret 0
      else
        r ← os (os_read (lk_tun_fd k) BUF_SIZE);
        match (r : sysret (list byte)) with
        | SysErr _ => mret (-1)
        | SysOk frame =>
            update_link link (fun k =>
              set_out_buf (frame ++ drop (List.length frame) (lk_out_buf k)) k);;
            if Nat.leb (List.length frame) 4 then mret 0
            else
              room ← os (pbuf_alloc (Z.of_nat (List.length frame - 4)));
              if negb room then mret (-1)
              else tun_dispatch (take 4 frame) (drop 4 frame);; mret 1
        end.
End PppLwip.

(** * Frames on the TUN device: facts

    What [tun_output] writes and when its copies leave [in_buf]; what
    [ppp_link_tun_poll] does with the frame it reads. *)

Section Tun.
Context {E : Type} `{HostSys E, Lwip E}.
Context (netdev_fwd_enabled : bool).
Implicit Types (p : proc E) (k : ppp_link) (c : pbuf_chain).

(** [p] with the link [l] in the state [k]. *)
Definition put_link (l : Z) (k : ppp_link) p : proc E := set_links (<[l := k]> (p_links p)) p.

Lemma load_put l k p : load_link l (put_link l k p) = (put_link l k p, k).
Proof. unfold load_link, put_link, mbind, St_bind. cbn. by rewrite lookup_insert_eq. Qed.

Lemma load_known l k p : p_links p !! l = Some k -> load_link l p = (p, k).
Proof. intros Hk. unfold load_link, mbind, St_bind. cbn. by rewrite Hk. Qed.

Lemma put_put l k k' p : put_link l k (put_link l k' p) = put_link l k p.
Proof. unfold put_link, set_links. cbn. by rewrite insert_insert_eq. Qed.

Lemma put_same l k p : p_links p !! l = Some k -> put_link l k p = p.
Proof. intros Hk. unfold put_link, set_links. rewrite insert_id by done. by destruct p. Qed.

Lemma update_put l f k p : update_link l f (put_link l k p) = (put_link l (f k) p, tt).
Proof.
  unfold update_link, mbind at 1, St_bind at 1. rewrite load_put. unfold modify. f_equal.
  unfold put_link, set_links. cbn. f_equal. apply map_eq. intros i.
  destruct (decide (i = l)) as [->|Hi].
  - by rewrite lookup_alter_eq, !lookup_insert_eq.
  - by rewrite lookup_alter_ne, !lookup_insert_ne by done.
Qed.

(** ** Copying into [in_buf] *)

(** [in_buf] after [bs] was copied to [o]. *)
Definition patched (o : nat) (bs : list byte) k : ppp_link :=
  set_in_buf (take o (lk_in_buf k) ++ bs ++ drop (o + List.length bs) (lk_in_buf k)) k.

Lemma patched_length o bs k :
  (o + List.length bs <= List.length (lk_in_buf k))%nat ->
  List.length (lk_in_buf (patched o bs k)) = List.length (lk_in_buf k).
Proof. intros Ho. cbn. rewrite !length_app, length_take, length_drop. lia. Qed.

Lemma patched_nil o k : patched o [] k = k.
Proof.
  unfold patched. cbn. rewrite Nat.add_0_r, take_drop. by destruct k.
Qed.

Lemma patched_patched o b1 b2 k :
  (o + List.length b1 + List.length b2 <= List.length (lk_in_buf k))%nat ->
  patched (o + List.length b1) b2 (patched o b1 k) = patched o (b1 ++ b2) k.
Proof.
  intros Hl. unfold patched, set_in_buf. cbn. f_equal. rewrite length_app.
  set (buf := lk_in_buf k) in *.
  rewrite take_app_ge, length_take, drop_app_ge by (rewrite ?length_take; lia).
  rewrite length_take, Nat.min_l by lia.
  replace (o + List.length b1 - o)%nat with (List.length b1) by lia.
  rewrite (take_app_exact b1) by done.
  rewrite drop_app_ge by lia.
  rewrite drop_drop, <- !app_assoc. do 4 f_equal. lia.
Qed.

Lemma patched_front b1 b2 k :
  (List.length b1 + List.length b2 <= List.length (lk_in_buf k))%nat ->
  patched (List.length b1) b2 (patched 0 b1 k) = patched 0 (b1 ++ b2) k.
Proof. exact (patched_patched 0 b1 b2 k). Qed.

Lemma copy_fits io o bs k p :
  (o + List.length bs <= List.length (lk_in_buf k))%nat ->
  copy_in_buf io o bs (put_link io k p) = (put_link io (patched o bs k) p, tt).
Proof.
  intros Ho. unfold copy_in_buf, mbind, St_bind. rewrite load_put.
  rewrite (proj2 (Nat.ltb_ge _ _)) by done. apply update_put.
Qed.

Lemma copy_overflows io o bs k p :
  (List.length (lk_in_buf k) < o + List.length bs)%nat ->
  p_fault (copy_in_buf io o bs (put_link io k p)).1 = true.
Proof.
  intros Ho. unfold copy_in_buf, mbind, St_bind. rewrite load_put.
  by rewrite (proj2 (Nat.ltb_lt _ _)).
Qed.

Lemma copy_chain_fits io c : forall o k p,
  (o + List.length (concat c) <= List.length (lk_in_buf k))%nat ->
  copy_chain io o c (put_link io k p) =
  (put_link io (patched o (concat c) k) p, (o + List.length (concat c))%nat).
Proof.
  induction c as [|bs c IH]; intros o k p Hl; cbn [copy_chain concat] in *.
  - by rewrite patched_nil, Nat.add_0_r.
  - rewrite length_app in Hl. unfold mbind, St_bind. rewrite copy_fits by lia.
    rewrite IH by (rewrite patched_length; lia).
    rewrite patched_patched, length_app by lia. f_equal. lia.
Qed.

(** A fault stays. *)
Definition faulty p : Prop := p_fault p = true.

Lemma faulty_load l : hoare faulty (load_link (E := E) l) (fun _ => faulty).
Proof.
  intros p Hp. unfold load_link, mbind, St_bind. cbn. by destruct (p_links p !! l).
Qed.

Lemma faulty_copy io o bs : hoare faulty (copy_in_buf (E := E) io o bs) (fun _ => faulty).
Proof.
  eapply hoare_bind; [apply faulty_load|]. intros k. destruct (Nat.ltb _ _); [by intros p Hp|].
  eapply hoare_bind; [apply faulty_load|]. by intros k0 p Hp.
Qed.

Lemma faulty_chain io c : forall o, hoare faulty (copy_chain (E := E) io o c) (fun _ => faulty).
Proof.
  induction c as [|bs c IH]; intros o; cbn [copy_chain]; [by intros p Hp|].
  eapply hoare_bind; [apply faulty_copy|]. intros ?. apply IH.
Qed.

Lemma faulty_os {A} (m : St E A) : hoare faulty (os m) (fun _ => faulty).
Proof. intros p Hp. unfold os. by destruct (m (p_os p)). Qed.

Lemma copy_chain_overflows io c : forall o k p,
  (List.length (lk_in_buf k) < o + List.length (concat c))%nat ->
  (o <= List.length (lk_in_buf k))%nat ->
  p_fault (copy_chain io o c (put_link io k p)).1 = true.
Proof.
  induction c as [|bs c IH]; intros o k p Hl Ho; cbn [copy_chain concat] in *; [cbn in Hl; lia|].
  rewrite length_app in Hl. rewrite St_seq.
  destruct (le_lt_dec (o + List.length bs) (List.length (lk_in_buf k))).
  - rewrite copy_fits by done. cbn [fst]. apply IH; rewrite patched_length; lia.
  - apply (faulty_chain io c _ _). by apply copy_overflows.
Qed.

(** ** Frames *)

Lemma tun_output_frame l k c hd p :
  lw_io (p_lwip p) = l -> l <> 0 -> p_links p !! l = Some k -> 0 <= lk_tun_fd k ->
  List.length hd = 4%nat ->
  (List.length (hd ++ concat c) <= List.length (lk_in_buf k))%nat ->
  tun_output c hd p =
  let '(q, n) := os (os_write (lk_tun_fd k) (hd ++ concat c))
                    (put_link l (patched 0 (hd ++ concat c) k) p) in
  (q, if n =? Z.of_nat (List.length (hd ++ concat c)) then ERR_OK else ERR_ABRT).
Proof.
  intros Hio Hl Hk Hfd Hh Hlen. rewrite length_app in Hlen.
  unfold tun_output. rewrite St_gets, Hio, (proj2 (Z.eqb_neq _ _) Hl).
  rewrite <- (put_same l k p Hk) at 1. unfold mbind, St_bind. rewrite load_put.
  rewrite (proj2 (Z.ltb_ge _ _) Hfd). rewrite copy_fits by lia.
  rewrite copy_chain_fits by (rewrite patched_length; lia). rewrite load_put.
  rewrite patched_front by lia. cbn [lk_tun_fd patched set_in_buf lk_in_buf].
  rewrite take_0, app_nil_l.
  rewrite take_app_exact by (rewrite length_app; done). rewrite length_app.
  destruct (os _ _) as [q n]. by destruct (n =? _).
Qed.

Lemma tun_output_overflow l k c hd p :
  lw_io (p_lwip p) = l -> l <> 0 -> p_links p !! l = Some k -> 0 <= lk_tun_fd k ->
  (List.length hd <= List.length (lk_in_buf k))%nat ->
  (List.length (lk_in_buf k) < List.length (hd ++ concat c))%nat ->
  p_fault (tun_output c hd p).1 = true.
Proof.
  intros Hio Hl Hk Hfd Hh Hlen. rewrite length_app in Hlen.
  unfold tun_output. rewrite St_gets, Hio, (proj2 (Z.eqb_neq _ _) Hl).
  rewrite <- (put_same l k p Hk). unfold mbind at 1, St_bind at 1. rewrite load_put.
  rewrite (proj2 (Z.ltb_ge _ _) Hfd). rewrite St_seq, copy_fits by lia. cbn [fst].
  set (m := fun offset : nat => _).
  assert (Hm : forall o, hoare faulty (m o) (fun _ => faulty)).
  { intros o. eapply hoare_bind; [apply faulty_load|]. intros k'.
    eapply hoare_bind; [apply faulty_os|]. intros n. destruct (negb _); by intros q Hq. }
  unfold mbind, St_bind.
  pose proof (copy_chain_overflows l c (List.length hd) (patched 0 hd k) p) as Hf.
  rewrite patched_length in Hf by lia. specialize (Hf ltac:(lia) ltac:(lia)).
  destruct (copy_chain l (List.length hd) c _) as [q o]. by apply Hm.
Qed.

(** The process after the poll has read [frame] in the world [e]. *)
Definition frame_read (l : Z) (frame : list byte) k (e : E) p : proc E :=
  (os (fun _ => (e, tt))
     (put_link l (set_out_buf (frame ++ drop (List.length frame) (lk_out_buf k)) k) p)).1.

Lemma tun_poll_frame l k hd payload ready e1 e2 e3 p :
  l <> 0 -> p_links p !! l = Some k -> 0 <= lk_tun_fd k ->
  List.length hd = 4%nat -> payload <> [] ->
  os_select (lk_tun_fd k) (p_os p) = (e1, ready) -> 0 < ready ->
  os_read (lk_tun_fd k) BUF_SIZE e1 = (e2, SysOk (hd ++ payload)) ->
  pbuf_alloc (Z.of_nat (List.length payload)) e2 = (e3, true) ->
  ppp_link_tun_poll netdev_fwd_enabled l p =
  ((tun_dispatch netdev_fwd_enabled hd payload (frame_read l (hd ++ payload) k e3 p)).1, 1).
Proof.
  intros Hl Hk Hfd Hh Hp%nonempty_length Hsel Hready Hread Hroom.
  unfold ppp_link_tun_poll. rewrite (proj2 (Z.eqb_neq _ _) Hl).
  unfold mbind, St_bind. rewrite (load_known l k p Hk), (proj2 (Z.ltb_ge _ _) Hfd).
  unfold os at 1. rewrite Hsel, (proj2 (Z.leb_gt _ _) Hready).
  unfold os at 1. cbn [p_os]. rewrite Hread. set (p2 := MkProc _ _ _ _ _ _ e2).
  rewrite <- (put_same l k p2 Hk), update_put.
  rewrite (proj2 (Nat.leb_gt _ _)) by (rewrite length_app; lia).
  replace (List.length (hd ++ payload) - 4)%nat with (List.length payload)
    by (rewrite length_app; lia).
  unfold os at 1. cbn [p_os put_link set_links p2]. rewrite Hroom. cbn [negb].
  rewrite take_app_exact, drop_app_exact by done. unfold frame_read, os. cbn [fst].
  by destruct (tun_dispatch _ _ _ _) as [q []].
Qed.
End Tun.
