(* ===== verification/PppLink.v ===== *)
(** * The PPP link object, the serial port and their threads: zb_rpc_client/ppp_link.c and serial_io.c

    [serial_read_task] and [tun_thread], and the signal handler of main.cpp;
    then the calls of the link object, then those of the serial port. *)

From Stdlib Require Import ZArith Lia Strings.Byte Strings.String.
From stdpp Require Import base tactics list numbers option gmap.
From S2P Require Import Prelude Posix Sockets HostSys PppLwip.

(** * The client's threads: [serial_read_task] of serial_io.c, [tun_thread] of
      ppp_link.c, and the signal handler of main.cpp

    A thread's turn is one trip round its loop.  [preempt] marks a point where
    the caller is preempted or blocked and whoever [os_schedule] names runs:
    threads, lwIP's own thread, the signal handler.  [pthread_join] waits; a
    thread that would not leave its loop at its next test is a fault. *)

Section Threads.
Context {E : Type} `{HostSys E, Lwip E, Sockets E}.
Context (netdev_fwd_enabled : bool).

(** [ppp_link_input] *)
Definition ppp_link_input (link : Z) (data : list byte) : St (proc E) unit :=
  ppp_link_serial_input netdev_fwd_enabled data.

(** ** The turns; false when the thread returns *)

Definition serial_read_task (serial : Z) : St (proc E) bool :=
  s ← load_serial serial;
  if negb (se_running s) then mret false
  else
    ready ← os (os_poll (se_fd s) 100);
    if ready <? 0 then
      e ← gets (fun p => os_errno (p_os p));
      mret (e =? EINTR)
    else if ready =? 0 then mret true
    else
      r ← os (os_read (se_fd s) 1024);
      match (r : sysret (list byte)) with
      | SysOk [] => mret true
      | SysOk buf =>
          (if negb (se_link s =? 0) then ppp_link_input (se_link s) buf else mret tt);;
          mret true
      | SysErr e => mret ((e =? EINTR) || (e =? EAGAIN) || (e =? EWOULDBLOCK))
      end.

Definition tun_thread (link : Z) : St (proc E) bool :=
  k ← load_link link;
  if lk_running k then ppp_link_tun_poll netdev_fwd_enabled link;; mret true
  else mret false.

Definition thread_turn (task : thread_task) : St (proc E) bool :=
  match task with
  | TunThread link => tun_thread link
  | SerialThread serial => serial_read_task serial
  end.

(** ** The signal handler *)

Definition on_signal : St (proc E) unit :=
  modify (fun p => set_main (MkMainVars true (g_rpc_socket (p_main p))) p);;
  fd ← gets (fun p => g_rpc_socket (p_main p));
  if 0 <=? fd then os (sys_shutdown fd SHUT_RDWR);; mret tt else mret tt.

(** ** Preemption *)

(** lwIP's thread runs once it was initialised. *)
Definition tcpip_turn : St (proc E) unit :=
  v ← gets p_lwip;
  if lw_use_tcpip v then lwip_call netdev_fwd_enabled sys_check_timeouts else mret tt.

Definition run_thread (t : Z) : St (proc E) unit :=
  m ← gets p_threads;
  match (m : gmap Z (thread_task * bool)) !! t with
  | Some (task, true) =>
      live ← thread_turn task;
      modify (fun p => set_threads (<[t := (task, live)]> (p_threads p)) p)
  | _ => mret tt
  end.

Definition run_turn (u : turn) : St (proc E) unit :=
  match u with
  | TurnThread t => run_thread t
  | TurnTcpip => tcpip_turn
  | TurnSignal => on_signal
  end.

Definition preempt : St (proc E) unit :=
  us ← os os_schedule;
  for_each run_turn us.

Definition pthread_join (t : Z) : St (proc E) unit :=
  preempt;;
  run_thread t;;
  m ← gets p_threads;
  match (m : gmap Z (thread_task * bool)) !! t with
  | Some (_, false) =>
      os (os_thread_join t);;
      modify (fun p => set_threads (delete t (p_threads p)) p)
  | _ => proc_fault
  end.
End Threads.

(** * The PPP link object: zb_rpc_client/ppp_link.c

    The calls return what the C functions return; a null [link] is 0.
    Diagnostics are left out. *)

Definition IFNAMSIZ : nat := 16.

(** [ppp_link_config_t]; [None] is a null pointer. *)
Record ppp_link_config := MkPppLinkConfig {
  plc_tun_dev : option string;
  plc_tun_if : option string;
  plc_ppp : option ppp_config
}.

(** [strncpy(dst, src, n)] into an array of [n] zeros. *)
Definition strncpy (src : string) (n : nat) : list byte :=
  let bs := take n (list_byte_of_string src) in
  bs ++ replicate (n - List.length bs) x00.

(** A fresh object after [calloc] and the four assignments. *)
Definition link_at_rest (cfg : ppp_config) : ppp_link :=
  MkPppLink (-1) (replicate BUF_SIZE x00) (replicate BUF_SIZE x00) cfg None 0 false false.

Section PppLink.
Context {E : Type} `{HostSys E, Lwip E, Sockets E}.
Context (netdev_fwd_enabled : bool).

(** The TUN device of a link; whether it could be opened. *)
Definition open_tun (link : Z) (tun_dev tun_if : string) : St (proc E) bool :=
  fd ← os (os_open tun_dev [O_RDWR]);
  update_link link (set_tun_fd fd);;
  if fd <? 0 then free_link link;; mret false
  else
    r ← os (os_tunsetiff fd (strncpy tun_if IFNAMSIZ));
    if r <? 0 then
      os (os_close fd);;
      free_link link;;
      mret false
    else
      os (os_tunsetnocsum fd);;
      mret true.

Definition ppp_link_create (config : option ppp_link_config) : St (proc E) Z :=
  match config with
  | None => mret 0
  | Some config =>
      match plc_ppp config with
      | None => mret 0
      | Some ppp =>
          link ← new_link (link_at_rest ppp);
          if link =? 0 then mret 0
          else
            match plc_tun_dev config, plc_tun_if config with
            | Some tun_dev, Some tun_if =>
                ok ← open_tun link tun_dev tun_if;
                mret (if ok : bool then link else 0)
            | _, _ => mret link
            end
      end
  end.

Definition ppp_link_start (link : Z) : St (proc E) bool :=
  if link =? 0 then mret false
  else
    ok ← ppp_link_lwip_init netdev_fwd_enabled link;
    if negb ok then mret false
    else
      update_link link (set_running true);;
      preempt netdev_fwd_enabled;;
      t ← pthread_create (TunThread link);
      if t =? 0 then update_link link (set_running false);; mret false
      else
        update_link link (set_tun_thread t);;
        preempt netdev_fwd_enabled;;
        update_link link (set_started true);;
        mret true.

Definition stop_tun_thread (link : Z) : St (proc E) unit :=
  k ← load_link link;
  if lk_thread_started k then
    update_link link (set_running false);;
    pthread_join netdev_fwd_enabled (lk_tun_thread k);;
    update_link link (set_started false)
  else mret tt.

Definition ppp_link_stop (link : Z) : St (proc E) unit :=
  if link =? 0 then mret tt
  else
    stop_tun_thread link;;
    preempt netdev_fwd_enabled;;
    ppp_link_lwip_stop netdev_fwd_enabled.

Definition ppp_link_destroy (link : Z) : St (proc E) unit :=
  if link =? 0 then mret tt
  else
    stop_tun_thread link;;
    k ← load_link link;
    (if 0 <=? lk_tun_fd k then os (os_close (lk_tun_fd k)) else mret 0);;
    free_link link.

(** [fn] and [ctx]: [serial_output] and its object, or both null. *)
Definition ppp_link_set_output (link : Z) (output : option Z) : St (proc E) unit :=
  if link =? 0 then mret tt else update_link link (set_output output).

Definition ppp_link_io (link : Z) : Z := link.
End PppLink.

(** * The serial port: zb_rpc_client/serial_io.c

    Opening with its error exits, attaching to a link, closing;
    [serial_output] is in PppLwip.v, the reading thread is above.
    The dump of the traffic ([verbose]) and the diagnostics are left out. *)

Section SerialIo.
Context {E : Type} `{HostSys E, Lwip E, Sockets E}.
Context (netdev_fwd_enabled : bool).

(** [speed_t b] is the constant [B<b>] of termios.h. *)
Definition baud_to_speed (baud : Z) : Z :=
  if bool_decide (baud ∈ [9600; 19200; 38400; 57600; 115200; 230400; 460800; 921600])
  then speed_t baud
  else speed_t 115200.

Definition serial_set_modem_lines (fd : Z) : St (proc E) Z :=
  status ← os (os_tiocmget fd);
  match (status : option Z) with
  | None => mret 0
  | Some status => os (os_tiocmset fd (Z.lor status (Z.lor TIOCM_DTR TIOCM_RTS)));; mret 0
  end.

(** The settings [serial_io_open] makes from the port's own. *)
Definition serial_tty (baud : Z) (tty : termios) : termios :=
  let tty := cfmakeraw tty in
  MkTermios (Z.land (Z.lor (t_cflag tty) (Z.lor CLOCAL CREAD)) (Z.lnot CRTSCTS))
    (baud_to_speed baud) (baud_to_speed baud) 0 0 (t_rest tty).

(** [close(serial->fd); free(serial); return NULL;] *)
Definition serial_give_up (serial fd : Z) : St (proc E) Z :=
  os (os_close fd);;
  free_serial serial;;
  mret 0.

Definition serial_io_open (device : string) (baud : Z) (verbose : bool) : St (proc E) Z :=
  serial ← new_serial (MkSerialIo 0 0 false verbose 0);
  if serial =? 0 then mret 0
  else
    fd ← os (os_open device [O_RDWR; O_NOCTTY; O_NONBLOCK_FLAG]);
    update_serial serial (set_se_fd fd);;
    if fd <? 0 then free_serial serial;; mret 0
    else
      tty ← os (os_tcgetattr fd);
      match (tty : option termios) with
      | None => serial_give_up serial fd
      | Some tty =>
          r ← os (os_tcsetattr fd (serial_tty baud tty));
          if negb (r =? 0) then serial_give_up serial fd
          else
            serial_set_modem_lines fd;;
            update_serial serial (set_se_running true);;
            t ← pthread_create (SerialThread serial);
            if t =? 0 then serial_give_up serial fd
            else
              update_serial serial (set_se_thread t);;
              preempt netdev_fwd_enabled;;
              mret serial
      end.

Definition serial_io_attach (link serial : Z) : St (proc E) unit :=
  update_serial serial (set_se_link link);;
  preempt netdev_fwd_enabled;;
  ppp_link_set_output link (Some serial).

Definition serial_io_close (serial : Z) : St (proc E) unit :=
  if serial =? 0 then mret tt
  else
    update_serial serial (set_se_running false);;
    s ← load_serial serial;
    pthread_join netdev_fwd_enabled (se_thread s);;
    s ← load_serial serial;
    (if negb (se_link s =? 0) then
       ppp_link_set_output (se_link s) None;;
       update_serial serial (set_se_link 0)
     else mret tt);;
    os (os_close (se_fd s));;
    free_serial serial.
End SerialIo.
