(* ===== verification/ClientMain.v ===== *)
(** * The client program: zb_rpc_client/main.cpp

    [client_main] is [main] over the process of HostSys.v, with the threads of
    PppLink.v running wherever the program is preempted or blocked, the
    Zigbee API of ClientApi.v on the socket [connect_rpc] returns, and the
    application of ThermostatApp.v.  Diagnostics are left out. *)

From Stdlib Require Import ZArith Lia.
From Stdlib Require Import Strings.Byte Strings.String Strings.Ascii.
From stdpp Require Import base tactics list numbers option gmap.
From S2P Require Import Prelude Protocol Posix ZigbeeApi ClientApi ThermostatApp Sockets HostSys PppLwip.
From S2P Require Import PppLink.

(** ** The command line *)

(** [Options], and [zb_rpc::k_default_host] of zb_rpc_shared. *)
Definition k_default_host : string := "192.168.11.2".

Record Options := MkOptions {
  device : string;
  host : string;
  port : Z;
  baud : Z;
  wait_seconds : Z;
  verbose : bool
}.

Definition default_options : Options :=
  MkOptions "/dev/ttyUSB1" k_default_host k_default_port 115200 60 false.

(** [atoi], for numbers within [int]. *)
Definition is_digit (c : ascii) : bool :=
  (48 <=? Z.of_nat (nat_of_ascii c)) && (Z.of_nat (nat_of_ascii c) <=? 57).

Fixpoint atoi_digits (acc : Z) (s : string) : Z :=
  match s with
  | EmptyString => acc
  | String c s =>
      if is_digit c then atoi_digits (acc * 10 + (Z.of_nat (nat_of_ascii c) - 48)) s else acc
  end.

Definition is_space (c : ascii) : bool :=
  bool_decide (Z.of_nat (nat_of_ascii c) ∈ [32; 9; 10; 11; 12; 13]).

Fixpoint atoi (s : string) : Z :=
  match s with
  | EmptyString => 0
  | String c s' =>
      if is_space c then atoi s'
      else if Ascii.eqb c "-" then - atoi_digits 0 s'
      else if Ascii.eqb c "+" then atoi_digits 0 s'
      else atoi_digits 0 s
  end.

(** What [getopt_long] returns, call by call: an option with its argument, or
    '?' for one it does not know. *)
Inductive selected :=
  | opt_device (arg : string)
  | opt_baud (arg : string)
  | opt_host (arg : string)
  | opt_port (arg : string)
  | opt_wait (arg : string)
  | opt_verbose
  | opt_help
  | opt_unknown.

(** [exit_help]: the process exits with code 0. *)
Inductive parsed :=
  | parse_ok (o : Options)
  | parse_bad
  | exit_help.

Fixpoint parse_options (args : list selected) (o : Options) : parsed :=
  match args with
  | [] => if (0 <? baud o) && (0 <? port o) && (0 <? wait_seconds o) then parse_ok o else parse_bad
  | a :: args =>
      match a with
      | opt_device s =>
          parse_options args (MkOptions s (host o) (port o) (baud o) (wait_seconds o) (verbose o))
      | opt_baud s =>
          parse_options args (MkOptions (device o) (host o) (port o) (atoi s) (wait_seconds o) (verbose o))
      | opt_host s =>
          parse_options args (MkOptions (device o) s (port o) (baud o) (wait_seconds o) (verbose o))
      | opt_port s =>
          parse_options args
            (MkOptions (device o) (host o) (u16 (atoi s)) (baud o) (wait_seconds o) (verbose o))
      | opt_wait s =>
          parse_options args (MkOptions (device o) (host o) (port o) (baud o) (atoi s) (verbose o))
      | opt_verbose =>
          parse_options args (MkOptions (device o) (host o) (port o) (baud o) (wait_seconds o) true)
      | opt_help => exit_help
      | opt_unknown => parse_bad
      end
  end.

(** ** The process as the API sees it *)

(** main.cpp calls nothing of netdev_fwd.c: the forwarder is off. *)
Notation preempt := (preempt false).

Section Process.
Context {E : Type} `{HostSys E, Lwip E, Sockets E, Posix E}.

(** While the main thread waits in a call on the connection, others run. *)
#[export] Instance proc_posix : Posix (proc E) := {|
  sys_read p n := let '(p, _) := preempt p in os (fun e => sys_read e n) p;
  sys_write p bs := let '(p, _) := preempt p in os (fun e => sys_write e bs) p;
  io_patience p := io_patience (p_os p)
|}.

Definition usleep (us : Z) : St (proc E) unit :=
  os (os_usleep us);;
  preempt.

(** An operation of the process, with the variable of zigbee_api.h beside it. *)
Definition in_proc {A} (m : St (proc E) A) : St (client (proc E)) A := fun c =>
  let '(p, a) := m (c_world c) in (MkClient (g_fd c) p, a).

(** The two macros as thermostat_app.hpp defines them for the host. *)
#[export] Instance client_app_env : AppEnv (client (proc E)) := {|
  ZB_APP_LOG c _ _ := c;
  ZB_APP_SLEEP_MS c ms := (in_proc (usleep (u32 (ms * 1000))) c).1
|}.

Definition stop_requested : St (proc E) bool := gets (fun p => g_stop_requested (p_main p)).

Definition set_rpc_socket (fd : Z) : St (proc E) unit :=
  modify (fun p => set_main (MkMainVars (g_stop_requested (p_main p)) fd) p).

(** ** Waiting for the link *)

Fixpoint wait_link_loop (n : nat) : St (proc E) bool :=
  match n with
  | O => mret false
  | S n =>
      stop ← stop_requested;
      if stop : bool then mret false
      else
        up ← gets ppp_link_is_up;
        if up : bool then mret true
        else
          usleep 100000;;
          wait_link_loop n
  end.

Definition wait_for_link (seconds : Z) : St (proc E) bool :=
  wait_link_loop (Z.to_nat (seconds * 10)).

(** ** Connecting *)

(** [poll]: interrupted means that the signal handler has run. *)
Definition poll_out (fd : Z) : St (proc E) Z :=
  preempt;;
  ready ← os (os_poll_out fd 200);
  e ← gets (fun p => errno (p_os p));
  (if (ready <? 0) && (e =? EINTR) then on_signal else mret tt);;
  mret ready.

(** The [do ... while]; [poll_loop_once]: it never comes to a second turn. *)
Fixpoint poll_loop (fuel : nat) (fd : Z) : St (proc E) Z :=
  match fuel with
  | O => proc_fault;; mret (-1)
  | S fuel =>
      ready ← poll_out fd;
      e ← gets (fun p => errno (p_os p));
      stop ← stop_requested;
      if (ready <? 0) && (e =? EINTR) && negb stop then poll_loop fuel fd else mret ready
  end.

(** Whether [connect] succeeds in the end. *)
Definition connect_finishes (fd : Z) (address : sockaddr_in) : St (proc E) bool :=
  result ← os (sys_connect fd address);
  if result =? 0 then mret true
  else
    e ← gets (fun p => errno (p_os p));
    if (e =? EINPROGRESS) || (e =? EWOULDBLOCK) || (e =? EINTR) then
      ready ← poll_loop 1 fd;
      if 0 <? ready then
        error ← os (os_so_error fd);
        mret (bool_decide (error = Some 0))
      else mret false
    else mret false.

Fixpoint connect_attempts (n : nat) (address : sockaddr_in) : St (proc E) Z :=
  match n with
  | O => mret (-1)
  | S n =>
      stop ← stop_requested;
      if stop : bool then mret (-1)
      else
        socket_fd ← os (sys_socket IPPROTO_TCP);
        if socket_fd <? 0 then mret (-1)
        else
          flags ← os (os_getfl socket_fd);
          nonblocking ← (if flags <? 0 then mret false
                         else r ← os (os_setfl socket_fd (Z.lor flags O_NONBLOCK));
                              mret (negb (r <? 0)));
          if negb nonblocking then os (sys_close socket_fd);; mret (-1)
          else
            connected ← connect_finishes socket_fd address;
            if connected : bool then os (os_setfl socket_fd flags);; mret socket_fd
            else
              os (sys_close socket_fd);;
              stop ← stop_requested;
              (if stop : bool then mret tt else usleep 200000);;
              connect_attempts n address
  end.

Definition connect_rpc (host : string) (port : Z) : St (proc E) Z :=
  match inet_pton host with
  | None => mret (-1)
  | Some a => connect_attempts 50 (MkSockaddr (htons port) a)
  end.

(** ** main *)

(** [g_rpc_socket = socket_fd; zigbee_rpc::attach(socket_fd);] *)
Definition publish (socket_fd : Z) : St (client (proc E)) unit :=
  in_proc preempt;;
  in_proc (set_rpc_socket socket_fd);;
  in_proc preempt;;
  attach socket_fd;;
  in_proc preempt.

(** [g_rpc_socket = -1; shutdown(...); close(...);] *)
Definition retire (socket_fd : Z) : St (client (proc E)) unit :=
  in_proc preempt;;
  in_proc (set_rpc_socket (-1));;
  in_proc preempt;;
  in_proc (os (sys_shutdown socket_fd SHUT_RDWR));;
  in_proc (os (sys_close socket_fd));;
  in_proc preempt.

(** [thermostat_app::run] with the cache, and once more without it on a new
    connection: the result, and the socket that is open then or -1. *)
Definition run_twice (host : string) (port socket_fd : Z) : St (client (proc E)) (Result * Z) :=
  result ← run true;
  stop ← in_proc stop_requested;
  if bool_decide (result = retry_without_cache) && negb stop then
    detach;;
    retire socket_fd;;
    socket_fd ← in_proc (connect_rpc host port);
    if 0 <=? socket_fd then
      publish socket_fd;;
      result ← run false;
      mret (result, socket_fd)
    else mret (result, socket_fd)
  else mret (result, socket_fd).

(** The connected client: whether the application succeeded. *)
Definition serve_connection (host : string) (port socket_fd : Z) : St (client (proc E)) bool :=
  publish socket_fd;;
  stop ← in_proc stop_requested;
  r ← (if stop : bool then mret (failure, socket_fd) else run_twice host port socket_fd);
  detach;;
  (if 0 <=? r.2 then retire r.2 else mret tt);;
  mret (bool_decide (r.1 = success)).

Definition rpc_session (host : string) (port : Z) : St (client (proc E)) bool :=
  socket_fd ← in_proc (connect_rpc host port);
  if 0 <=? socket_fd then serve_connection host port socket_fd else mret false.

Definition client_ppp : ppp_config :=
  MkPppConfig true "192.168.11.1" "192.168.11.2" "8.8.8.8" false false.

Definition client_link_config : ppp_link_config :=
  MkPppLinkConfig (Some "/dev/net/tun"%string) (Some "tun0"%string) (Some client_ppp).

(** From [bool success = false;] to the end of the [else if] chain. *)
Definition use_link (options : Options) : St (client (proc E)) bool :=
  stop ← in_proc stop_requested;
  if stop : bool then mret false
  else
    up ← in_proc (wait_for_link (wait_seconds options));
    if negb up then mret false
    else rpc_session (host options) (port options).

(** [main] from [serial_io_attach] on, with both objects there. *)
Definition main_attached (options : Options) (serial link : Z) : St (client (proc E)) Z :=
  in_proc (serial_io_attach false link serial);;
  ok ← in_proc (ppp_link_start false link);
  if negb ok then
    in_proc (ppp_link_stop false link);;
    in_proc (serial_io_close false serial);;
    in_proc (ppp_link_destroy false link);;
    mret 1
  else
    success ← use_link options;
    in_proc (ppp_link_stop false link);;
    in_proc (serial_io_close false serial);;
    in_proc (ppp_link_destroy false link);;
    mret (if success : bool then 0 else 1).

(** [main] from [ppp_link_create] on. *)
Definition main_opened (options : Options) (serial : Z) : St (client (proc E)) Z :=
  link ← in_proc (ppp_link_create (Some client_link_config));
  if link =? 0 then in_proc (serial_io_close false serial);; mret 1
  else main_attached options serial link.

Definition client_main (args : list selected) : St (client (proc E)) Z :=
  match parse_options args default_options with
  | exit_help => mret 0
  | parse_bad => mret 1
  | parse_ok options =>
      serial ← in_proc (serial_io_open false (device options) (baud options) (verbose options));
      if serial =? 0 then mret 1 else main_opened options serial
  end.
End Process.
