(* ===== verification/ThreadKeeps.v ===== *)
(** * What the client's threads, its application and its API leave alone

    Whatever the calls to the operating system keep, a preemption keeps; what
    every function of the API keeps, the application keeps. *)

From Stdlib Require Import ZArith Lia Strings.Byte Strings.String.
From stdpp Require Import base tactics list numbers option gmap.
From S2P Require Import Prelude Posix Sockets HostSys PppLwip PppLink ClientMain Protocol Reflection Engine.
From S2P Require Import ZigbeeApi ClientApi ThermostatApp Keeps.

(** * What the client's threads leave alone

    The threads of the client's process, lwIP's callbacks and the signal
    handler reach the operating system through few calls.  Whatever those keep
    ([TurnKeeps P]), a preemption keeps ([preempt_keeps]).  The interruptions a
    transfer still has to expect are such a thing, so reading and writing on
    the connection end, whoever runs in between ([proc_posix_laws]). *)

Definition kept {W A} (P : W -> Prop) (m : St W A) : Prop := hoare P m (fun _ => P).

Create HintDb kept.

Class TurnKeeps {E : Type} `{HostSys E, Lwip E, Sockets E} (P : E -> Prop) : Prop := {
  kept_schedule : kept P os_schedule;
  kept_poll fd t : kept P (os_poll fd t);
  kept_select fd : kept P (os_select fd);
  kept_read fd n : kept P (os_read fd n);
  kept_write fd bs : kept P (os_write fd bs);
  kept_usleep us : kept P (os_usleep us);
  kept_shutdown fd how : kept P (sys_shutdown fd how);
  kept_input bs : kept P (pppos_input bs);
  kept_input_tcpip bs : kept P (pppos_input_tcpip bs);
  kept_timeouts : kept P sys_check_timeouts;
  kept_alloc n : kept P (pbuf_alloc n);
  kept_output bs : kept P (netif_output bs);
  kept_output_ip6 bs : kept P (netif_output_ip6 bs);
  kept_link_up : kept P netdev_fwd_on_link_up;
  kept_ip4_input c : kept P (lwip_ip4_input c)
}.

#[export] Hint Resolve kept_schedule kept_poll kept_select kept_read kept_write kept_usleep
  kept_shutdown kept_input kept_input_tcpip kept_timeouts kept_alloc kept_output kept_output_ip6
  kept_link_up kept_ip4_input : kept.

Section Threads.
Context {E : Type} `{HostSys E, Lwip E, Sockets E} (P : E -> Prop) `{!TurnKeeps P}.
Context (fwd : bool).

(** The process [p] runs on an operating system in [P]. *)
Definition on_os (p : proc E) : Prop := P (p_os p).

Lemma kept_os {A} (m : St E A) : kept P m -> kept on_os (os m).
Proof. intros Hm p Hp. specialize (Hm (p_os p) Hp). unfold os, on_os. by destruct (m (p_os p)). Qed.

Lemma kept_ret {A} (a : A) : kept on_os (mret a).
Proof. by intros p Hp. Qed.

Lemma kept_bind {A B} (m : St (proc E) A) (k : A -> St (proc E) B) :
  kept on_os m -> (forall a, kept on_os (k a)) -> kept on_os (m ≫= k).
Proof. intros Hm Hk. eapply hoare_bind; [exact Hm|exact Hk]. Qed.

Lemma kept_gets {A} (f : proc E -> A) : kept on_os (gets f).
Proof. by intros p Hp. Qed.

Lemma kept_modify f : (forall p, p_os (f p) = p_os p) -> kept on_os (modify f).
Proof. intros Hf p Hp. unfold on_os. cbn. by rewrite Hf. Qed.

Lemma kept_for_each {A} (f : A -> St (proc E) unit) l :
  (forall a, kept on_os (f a)) -> kept on_os (for_each f l).
Proof. intros Hf. apply hoare_for_each. intros a _. apply Hf. Qed.

Lemma kept_fault : kept on_os proc_fault.
Proof. by apply kept_modify. Qed.

Lemma kept_load_link l : kept on_os (load_link l).
Proof.
  apply kept_bind; [apply kept_gets|]. intros m. destruct (m !! l); [apply kept_ret|].
  apply kept_bind; [apply kept_fault|]. intros u. apply kept_ret.
Qed.

Lemma kept_load_serial s : kept on_os (load_serial s).
Proof.
  apply kept_bind; [apply kept_gets|]. intros m. destruct (m !! s); [apply kept_ret|].
  apply kept_bind; [apply kept_fault|]. intros u. apply kept_ret.
Qed.

Lemma kept_lwip_set f : kept on_os (lwip_set f).
Proof. by apply kept_modify. Qed.

Lemma kept_update_link l f : kept on_os (update_link l f).
Proof. unfold update_link. apply kept_bind; [apply kept_load_link|]. intros k. by apply kept_modify. Qed.
End Threads.

#[export] Hint Resolve kept_ret kept_gets kept_load_link kept_load_serial kept_fault kept_lwip_set
  kept_update_link : kept.

Ltac kept_call := solve [eauto 3 with kept typeclass_instances].

(** Walks through a program down to the calls it makes. *)
Ltac kept_walk :=
  repeat match goal with
  | |- kept _ (_ ≫= _) => apply kept_bind; [|intros ?]
  | |- kept _ (if ?b then _ else _) => destruct b
  | |- kept _ (match ?x with _ => _ end) => destruct x
  | |- kept _ (os _) => apply kept_os
  | |- kept _ (for_each _ _) => apply kept_for_each; intros ?
  | |- kept _ (modify _) => by apply kept_modify
  | _ => kept_call
  | _ => progress cbv zeta
  end.

Section Turns.
Context {E : Type} `{HostSys E, Lwip E, Sockets E} (P : E -> Prop) `{!TurnKeeps P}.
Context (fwd : bool).

Lemma kept_copy_chain io o c : kept (on_os P) (copy_chain io o c).
Proof. revert o. induction c as [|b c IH]; intros o; cbn [copy_chain]; unfold copy_in_buf; kept_walk. Qed.

Lemma kept_tun_output c hd : kept (on_os P) (tun_output c hd).
Proof. unfold tun_output, copy_in_buf. kept_walk; apply kept_copy_chain. Qed.

Lemma kept_lwip_call m : kept P m -> kept (on_os P) (lwip_call fwd m).
Proof.
  intros Hm. unfold lwip_call, run_callbacks. kept_walk. unfold run_callback, ppp_output_cb,
    serial_output, ppp_link_status_cb, ip4_input, ip6_input. kept_walk; apply kept_tun_output.
Qed.

Lemma kept_run_thread t : kept (on_os P) (run_thread fwd t).
Proof.
  unfold run_thread, thread_turn, tun_thread, serial_read_task, ppp_link_tun_poll, tun_dispatch,
    check_timeouts, ppp_link_input, ppp_link_serial_input.
  kept_walk; apply kept_lwip_call; kept_call.
Qed.

Lemma preempt_keeps : kept (on_os P) (PppLink.preempt fwd).
Proof.
  unfold preempt, run_turn, tcpip_turn, on_signal.
  kept_walk; [apply kept_run_thread|apply kept_lwip_call; kept_call].
Qed.
End Turns.

(** ** Transfers end *)

Section Transfers.
Context {E : Type} `{HostSys E, Lwip E, Sockets E, Posix E}.
Context `{!PosixLaws E, !forall n, TurnKeeps (E := E) (fun e => (io_patience e <= n)%nat)}.

Lemma preempt_patience (p : proc E) :
  (io_patience (p_os (preempt p).1) <= io_patience (p_os p))%nat.
Proof. apply (preempt_keeps (fun e => (io_patience e <= io_patience (p_os p))%nat) false p). unfold on_os. lia. Qed.

#[export] Instance proc_posix_laws : PosixLaws (proc E).
Proof.
  assert (Hcall : forall A (m : St E A) (p p' : proc E) r,
    (let '(q, _) := preempt p in os m q) = (p', r) ->
    exists e e', (io_patience e <= io_patience p)%nat /\ m e = (e', r) /\ io_patience p' = io_patience e').
  { intros A m p p' r Hm. pose proof (preempt_patience p) as Hp.
    destruct (preempt p) as [q u]. unfold os in Hm. cbn in *.
    destruct (m (p_os q)) as [e' a] eqn:Em. injection Hm as <- <-. by exists (p_os q), e'. }
  apply (posix_laws_over (C := E)); intros *; apply Hcall.
Qed.
End Transfers.

(** * What the application and the client's API leave alone

    Whatever every function of the API keeps, a run of the application keeps;
    and the API of ClientApi.v keeps whatever reads and writes on its
    connection keep, along with the descriptor it is attached to. *)

Class EnvKeeps {W} `{AppEnv W} (P : W -> Prop) : Prop := {
  log_keeps w fmt args : P w -> P (ZB_APP_LOG w fmt args);
  sleep_keeps w ms : P w -> P (ZB_APP_SLEEP_MS w ms)
}.

Section App.
Context {W : Type} `{ZigbeeApi W, AppEnv W} (P : W -> Prop) `{!ApiKeeps P, !EnvKeeps P}.

Definition keeps {A} (m : St W A) : Prop := hoare P m (fun _ => P).

Lemma app_keeps_ret {A} (a : A) : keeps (mret a).
Proof. by intros w Hw. Qed.

Lemma app_keeps_bind {A B} (m : St W A) (k : A -> St W B) :
  keeps m -> (forall a, keeps (k a)) -> keeps (m ≫= k).
Proof. intros Hm Hk. eapply hoare_bind; [exact Hm|exact Hk]. Qed.

Lemma keeps_log fmt args : keeps (log fmt args).
Proof. intros w Hw. by apply log_keeps. Qed.

Lemma keeps_sleep ms : keeps (sleep_ms ms).
Proof. intros w Hw. by apply sleep_keeps. Qed.

(** Walks through the application: binds, early returns, logs and calls. *)
Ltac keep_walk :=
  repeat match goal with
  | |- keeps (mret _) => apply app_keeps_ret
  | |- keeps (log _ _) => apply keeps_log
  | |- keeps (sleep_ms _) => apply keeps_sleep
  | |- keeps (_ ≫= _) => apply app_keeps_bind; [|intros ?]
  | |- keeps (if ?b then _ else _) => destruct b
  | |- keeps (match ?x with Some _ => _ | None => _ end) => destruct x
  | |- keeps (let '(_, _) := ?x in _) => destruct x
  | _ => progress cbv zeta
  end.

Lemma keeps_readings n : keeps (readings n).
Proof.
  induction n as [|n IH]; cbn [readings]; [apply app_keeps_ret|].
  keep_walk; [|exact IH]. intros w Hw. by apply keeps_get_last_temp.
Qed.

Lemma keeps_print a : keeps (print_temp_attrs a).
Proof. unfold print_temp_attrs. keep_walk. Qed.

Lemma keeps_probe panid channel : keeps (probe panid channel).
Proof.
  unfold probe. keep_walk; intros w Hw; [by apply keeps_get_sensor_addr|by apply keeps_find_sensor].
Qed.

Lemma keeps_commission panid : keeps (commission panid).
Proof.
  unfold commission. keep_walk; try apply keeps_readings; intros w Hw;
    first [by apply keeps_open_network|by apply keeps_wait_annce|by apply keeps_find_sensor
      |by apply keeps_read_basic|by apply keeps_bind_sensor|by apply keeps_subscribe_sensor
      |by apply keeps_config_report].
Qed.

Lemma keeps_read_and_print sensor : keeps (read_and_print sensor).
Proof.
  unfold read_and_print. keep_walk; [|apply keeps_print]. intros w Hw. by apply keeps_read_temp.
Qed.

Lemma run_keeps probing : keeps (run probing).
Proof.
  unfold run. apply app_keeps_bind; [intros w Hw; by apply keeps_get_panid|]. intros panid.
  apply app_keeps_bind; [intros w Hw; by apply keeps_get_channel|]. intros channel.
  apply app_keeps_bind; [destruct (_ && _); [apply keeps_probe|apply app_keeps_ret]|].
  intros [[sensor [|]]|]; [apply keeps_read_and_print| |apply app_keeps_ret].
  apply app_keeps_bind; [apply keeps_commission|].
  intros [s|]; [apply keeps_read_and_print|apply app_keeps_ret].
Qed.
End App.

(** ** The API over a connection *)

Section Client.
Context {W : Type} `{Posix W} (P : W -> Prop) `{!PosixKeeps P} (fd : Z).

(** [P] of the world, and the API is attached to [fd]. *)
Definition attached_to (c : client W) : Prop := P (c_world c) /\ g_fd c = fd.

Lemma with_call_keeps {R A} (call : Engine W -> Engine W * option R) (fail : A) ok c :
  (forall e, P (fd_ e) -> P (fd_ (call e).1)) ->
  attached_to c -> attached_to (with_call call fail ok c).1.
Proof.
  intros Hcall [Hp Hfd]. unfold with_call. destruct (negb (attached c)); [done|].
  specialize (Hcall (engine c) Hp). destruct (call (engine c)) as [e r]. by split.
Qed.

#[export] Instance client_api_keeps : ApiKeeps attached_to.
Proof.
  split; intros; apply with_call_keeps; try done; intros eng He;
    first [by apply call_keeps|by apply call_empty_keeps].
Qed.
End Client.
