(* ===== verification/ClientFacts.v ===== *)
(** * What the client's process holds and shares, step by step

    A [shape] is everything about the process the safety of its pointers
    depends on: what it holds, its objects up to the contents of their
    buffers, which thread works on which object, the link [s_io] points to and
    the socket the signal handler will shut down.  [fits s] are the processes
    without a fault of the shape [s]; the rules below follow a program from
    shape to shape.  In a [safe] shape any turn of any thread, callback or
    signal keeps the shape ([preempt_steady]). *)

From Stdlib Require Import ZArith Lia.
From Stdlib Require Import Strings.Byte Strings.String.
From stdpp Require Import base tactics list numbers option gmap.
From S2P Require Import Prelude Posix Sockets HostSys PppLwip PppLink.

Definition blank (k : ppp_link) : ppp_link :=
  set_out_buf [] (set_in_buf (replicate (List.length (lk_in_buf k)) x00) k).

Record shape := MkShape {
  sh_held : gset res;
  sh_links : gmap Z ppp_link;
  sh_serials : gmap Z serial_io;
  sh_threads : gmap Z thread_task;
  sh_io : Z;
  sh_socket : Z
}.

Definition with_held (R : gset res) (s : shape) : shape :=
  MkShape R (sh_links s) (sh_serials s) (sh_threads s) (sh_io s) (sh_socket s).
Definition with_links (m : gmap Z ppp_link) (s : shape) : shape :=
  MkShape (sh_held s) m (sh_serials s) (sh_threads s) (sh_io s) (sh_socket s).
Definition with_serials (m : gmap Z serial_io) (s : shape) : shape :=
  MkShape (sh_held s) (sh_links s) m (sh_threads s) (sh_io s) (sh_socket s).
Definition with_threads (m : gmap Z thread_task) (s : shape) : shape :=
  MkShape (sh_held s) (sh_links s) (sh_serials s) m (sh_io s) (sh_socket s).
Definition with_io (l : Z) (s : shape) : shape :=
  MkShape (sh_held s) (sh_links s) (sh_serials s) (sh_threads s) l (sh_socket s).
Definition with_socket (fd : Z) (s : shape) : shape :=
  MkShape (sh_held s) (sh_links s) (sh_serials s) (sh_threads s) (sh_io s) fd.

Notation hold r s := (with_held ({[r]} ∪ sh_held s) s).
Notation release r s := (with_held (sh_held s ∖ {[r]}) s).

(** Every pointer some turn may follow leads to an object, every descriptor it
    may use is held, and [in_buf] is as long as its declaration says. *)
Record safe (s : shape) : Prop := {
  safe_links l k : sh_links s !! l = Some k ->
    l <> 0 /\ Block l ∈ sh_held s /\ List.length (lk_in_buf k) = BUF_SIZE /\
    (lk_tun_fd k < 0 \/ Fd (lk_tun_fd k) ∈ sh_held s) /\
    forall x, lk_output k = Some x -> is_Some (sh_serials s !! x);
  safe_serials x k : sh_serials s !! x = Some k ->
    x <> 0 /\ Block x ∈ sh_held s /\ Fd (se_fd k) ∈ sh_held s;
  safe_threads t task : sh_threads s !! t = Some task ->
    Thread t ∈ sh_held s /\
    match task with
    | TunThread l => is_Some (sh_links s !! l)
    | SerialThread x => is_Some (sh_serials s !! x)
    end;
  safe_io : sh_io s = 0 \/ is_Some (sh_links s !! sh_io s);
  safe_socket : sh_socket s < 0 \/ Fd (sh_socket s) ∈ sh_held s
}.

(** Packets within the MRU of a PPP link fit the buffer behind the header. *)
Definition cb_fits (cb : lwip_callback) : Prop :=
  match cb with
  | cb_ip4 p | cb_ip6 p => (4 + List.length (concat p) <= BUF_SIZE)%nat
  | _ => True
  end.

Class LwipFits (E : Type) `{Lwip E} : Prop := {
  listen_fits s w : Forall cb_fits (ppp_listen s w).2.2;
  connect_fits s w : Forall cb_fits (ppp_connect s w).2.2;
  close_fits w : Forall cb_fits (ppp_close w).2;
  input_fits bs w : Forall cb_fits (pppos_input bs w).2;
  input_tcpip_fits bs w : Forall cb_fits (pppos_input_tcpip bs w).2;
  timeouts_fit w : Forall cb_fits (sys_check_timeouts w).2;
  output_fits p w : Forall cb_fits (netif_output p w).2;
  output_ip6_fits p w : Forall cb_fits (netif_output_ip6 p w).2
}.

#[export] Hint Resolve listen_fits connect_fits close_fits input_fits input_tcpip_fits
  timeouts_fit output_fits output_ip6_fits : own.

Lemma blank_set_out v k : blank (set_out_buf v k) = blank k.
Proof. done. Qed.

Lemma blank_set_in v k :
  List.length v = List.length (lk_in_buf k) -> blank (set_in_buf v k) = blank k.
Proof. intros Hl. unfold blank, set_out_buf, set_in_buf. cbn. by rewrite Hl. Qed.

Lemma blank_fields k k0 :
  blank k = k0 ->
  lk_tun_fd k = lk_tun_fd k0 /\ lk_output k = lk_output k0 /\ lk_tun_thread k = lk_tun_thread k0 /\
  lk_thread_started k = lk_thread_started k0 /\
  List.length (lk_in_buf k) = List.length (lk_in_buf k0) /\ lk_running k = lk_running k0.
Proof. intros <-. cbn. rewrite length_replicate. by split_and!. Qed.

Section Fits.
Context {E : Type} `{HostSys E, Lwip E, Sockets E, Ledger E}.
Implicit Types (s : shape) (p : proc E).

Record fits s p : Prop := {
  fits_held : held p = sh_held s;
  fits_links : blank <$> p_links p = sh_links s;
  fits_serials : p_serials p = sh_serials s;
  fits_threads : fst <$> p_threads p = sh_threads s;
  fits_io : lw_io (p_lwip p) = sh_io s;
  fits_socket : g_rpc_socket (p_main p) = sh_socket s;
  fits_fault : p_fault p = false
}.

Definition steady {A} s (m : St (proc E) A) : Prop := hoare (fits s) m (fun _ => fits s).

(** ** Rules *)

Lemma steady_ret {A} s (a : A) : steady s (mret a).
Proof. by intros p Hp. Qed.

Lemma steady_bind {A B} s (m : St (proc E) A) (k : A -> St (proc E) B) :
  steady s m -> (forall a, steady s (k a)) -> steady s (m ≫= k).
Proof. intros Hm Hk. eapply hoare_bind; [exact Hm|exact Hk]. Qed.

Lemma steady_for_each {A} s (f : A -> St (proc E) unit) l :
  (forall a, In a l -> steady s (f a)) -> steady s (for_each f l).
Proof. apply hoare_for_each. Qed.

Lemma fit_step {A B} s (m : St (proc E) A) (k : A -> St (proc E) B) Q :
  steady s m -> (forall a, hoare (fits s) (k a) Q) -> hoare (fits s) (m ≫= k) Q.
Proof. intros Hm Hk. eapply hoare_bind; [exact Hm|exact Hk]. Qed.

(** Calls of the operating system: what they do to what is held. *)
Lemma fit_os {A} s (m : St E A) (P : A -> gset res -> Prop) :
  hoare (owns (sh_held s)) m (fun a w => exists R, P a R /\ owns R w) ->
  hoare (fits s) (os m) (fun a p => exists R, P a R /\ fits (with_held R s) p).
Proof.
  intros Hm p [Hh ? ? ? ? ? ?]. specialize (Hm (p_os p) Hh). unfold os.
  destruct (m (p_os p)) as [w a]. cbn in *. destruct Hm as (R & HP & HR). exists R.
  split; [done|]. by split.
Qed.

Lemma steady_os {A} s (m : St E A) : balanced m -> steady s (os m).
Proof.
  intros Hm p Hp.
  destruct (fit_os s m (fun _ R => R = sh_held s)) with (s := p) as (R & -> & HR); [|done|by destruct s].
  intros w Hw. exists (sh_held s). split; [done|]. by apply Hm.
Qed.

Lemma steady_os_use {A} r s (m : St E A) : borrows r m -> r ∈ sh_held s -> steady s (os m).
Proof.
  intros Hm Hr p Hp.
  destruct (fit_os s m (fun _ R => R = sh_held s)) with (s := p) as (R & -> & HR); [|done|by destruct s].
  intros w Hw. exists (sh_held s). split; [done|]. by apply Hm.
Qed.

Lemma fit_obtain {B} kd s (m : St E Z) (k : Z -> St (proc E) B) Q :
  obtains kd m ->
  (forall n, n < 0 -> hoare (fits s) (k n) Q) ->
  (forall n, 0 <= n -> (kd, n) ∉ sh_held s -> hoare (fits (hold (kd, n) s)) (k n) Q) ->
  hoare (fits s) (os m ≫= k) Q.
Proof.
  intros Hm Hf Hs. eapply hoare_bind.
  - apply (fit_os s m (fun n R => (n < 0 /\ R = sh_held s) \/
      (0 <= n /\ (kd, n) ∉ sh_held s /\ R = {[(kd, n)]} ∪ sh_held s))).
    intros w Hw. destruct (Hm _ w Hw) as [[]|(? & ? & ?)]; [exists (sh_held s)|eexists]; eauto 6.
  - intros n p (R & [[Hn ->]|(Hn & Hni & ->)] & Hp); [apply Hf|apply Hs]; auto. by destruct s.
Qed.

Lemma fit_alloc {B} kd s (m : St E Z) (k : Z -> St (proc E) B) Q :
  allocates kd m ->
  hoare (fits s) (k 0) Q ->
  (forall n, n <> 0 -> (kd, n) ∉ sh_held s -> hoare (fits (hold (kd, n) s)) (k n) Q) ->
  hoare (fits s) (os m ≫= k) Q.
Proof.
  intros Hm Hf Hs. eapply hoare_bind.
  - apply (fit_os s m (fun n R => (n = 0 /\ R = sh_held s) \/
      (n <> 0 /\ (kd, n) ∉ sh_held s /\ R = {[(kd, n)]} ∪ sh_held s))).
    intros w Hw. destruct (Hm _ w Hw) as [[]|(? & ? & ?)]; [exists (sh_held s)|eexists]; eauto 6.
  - intros n p (R & [[-> ->]|(Hn & Hni & ->)] & Hp); [apply Hf|apply Hs]; auto. by destruct s.
Qed.

Lemma fit_return {A B} r s (m : St E A) (k : A -> St (proc E) B) Q :
  returns r m -> r ∈ sh_held s -> (forall a, hoare (fits (release r s)) (k a) Q) ->
  hoare (fits s) (os m ≫= k) Q.
Proof.
  intros Hm Hr Hk. eapply hoare_bind.
  - apply (fit_os s m (fun _ R => R = sh_held s ∖ {[r]})). intros w Hw. eexists.
    split; [done|]. by apply Hm.
  - intros a p (R & -> & Hp). by apply Hk.
Qed.

(** The variables. *)
Lemma fit_gets {A B} s (f : proc E -> A) (k : A -> St (proc E) B) Q :
  (forall p, fits s p -> hoare (fits s) (k (f p)) Q) -> hoare (fits s) (gets f ≫= k) Q.
Proof. intros Hk p Hp. by apply (Hk p Hp). Qed.

Lemma fit_get_lwip {B} s (k : lwip_vars -> St (proc E) B) Q :
  (forall v, lw_io v = sh_io s -> hoare (fits s) (k v) Q) -> hoare (fits s) (gets p_lwip ≫= k) Q.
Proof. intros Hk p Hp. apply Hk; [apply Hp|done]. Qed.

Lemma steady_lwip_set s f : (forall v, lw_io (f v) = lw_io v) -> steady s (lwip_set f).
Proof. intros Hf p []. split; try done. cbn. by rewrite Hf. Qed.

Lemma fit_set_io {B} l s (k : unit -> St (proc E) B) Q :
  hoare (fits (with_io l s)) (k tt) Q -> hoare (fits s) (lwip_set (set_io l) ≫= k) Q.
Proof. intros Hk p []. apply Hk. by split. Qed.

(** The objects. *)
Lemma fit_load_link {B} l k0 s (k : ppp_link -> St (proc E) B) Q :
  sh_links s !! l = Some k0 -> (forall x, blank x = k0 -> hoare (fits s) (k x) Q) ->
  hoare (fits s) (load_link l ≫= k) Q.
Proof.
  intros Hl Hk p Hp. unfold load_link. pose proof (fits_links _ _ Hp) as Hm.
  rewrite <- Hm, lookup_fmap in Hl. unfold mbind, St_bind. cbn.
  destruct (p_links p !! l) as [x|]; [|done]. injection Hl as Hx. by apply Hk.
Qed.

Lemma fit_load_serial {B} x k0 s (k : serial_io -> St (proc E) B) Q :
  sh_serials s !! x = Some k0 -> hoare (fits s) (k k0) Q ->
  hoare (fits s) (load_serial x ≫= k) Q.
Proof.
  intros Hx Hk p Hp. unfold load_serial. pose proof (fits_serials _ _ Hp) as Hm.
  rewrite <- Hm in Hx. unfold mbind, St_bind. cbn. rewrite Hx. by apply Hk.
Qed.

Lemma fit_update_link' l k0 k1 s f :
  sh_links s !! l = Some k0 -> (forall x, blank x = k0 -> blank (f x) = k1) ->
  hoare (fits s) (update_link (E := E) l f) (fun _ => fits (with_links (<[l := k1]> (sh_links s)) s)).
Proof.
  intros Hl Hf. unfold update_link. eapply fit_load_link; [exact Hl|]. intros x Hx p Hp.
  destruct Hp as [? Hlk ? ? ? ? ?]. split; try done. cbn. rewrite <- Hlk in Hl |- *.
  apply map_eq. intros i. rewrite lookup_fmap. destruct (decide (i = l)) as [->|Hi].
  - rewrite lookup_alter_eq, lookup_insert_eq. rewrite lookup_fmap in Hl.
    destruct (p_links p !! l) as [y|]; [|done]. injection Hl as Hy. cbn. by rewrite (Hf y Hy).
  - by rewrite lookup_alter_ne, lookup_insert_ne, lookup_fmap by done.
Qed.

Lemma fit_update_link {B} l k0 k1 s f (k : unit -> St (proc E) B) Q :
  sh_links s !! l = Some k0 -> (forall x, blank x = k0 -> blank (f x) = k1) ->
  hoare (fits (with_links (<[l := k1]> (sh_links s)) s)) (k tt) Q ->
  hoare (fits s) (update_link l f ≫= k) Q.
Proof.
  intros Hl Hf Hk. eapply hoare_bind; [by eapply fit_update_link'|]. by intros [].
Qed.

Lemma steady_update_link l k0 s f :
  sh_links s !! l = Some k0 -> (forall x, blank x = k0 -> blank (f x) = k0) ->
  steady s (update_link l f).
Proof.
  intros Hl Hf p Hp. pose proof (fit_update_link' l k0 k0 s f Hl Hf p Hp) as Hr.
  cbn in Hr. rewrite insert_id in Hr by done. by destruct s.
Qed.

Lemma fit_update_serial' x k0 s f :
  sh_serials s !! x = Some k0 ->
  hoare (fits s) (update_serial (E := E) x f)
    (fun _ => fits (with_serials (<[x := f k0]> (sh_serials s)) s)).
Proof.
  intros Hx. unfold update_serial.
  eapply fit_load_serial; [exact Hx|]. intros p [? ? Hse ? ? ? ?]. split; try done. cbn.
  rewrite Hse. apply map_eq. intros i. destruct (decide (i = x)) as [->|Hi].
  - by rewrite lookup_alter_eq, lookup_insert_eq, Hx.
  - by rewrite lookup_alter_ne, lookup_insert_ne by done.
Qed.

Lemma fit_update_serial {B} x k0 s f (k : unit -> St (proc E) B) Q :
  sh_serials s !! x = Some k0 ->
  hoare (fits (with_serials (<[x := f k0]> (sh_serials s)) s)) (k tt) Q ->
  hoare (fits s) (update_serial x f ≫= k) Q.
Proof.
  intros Hx Hk. eapply hoare_bind; [by apply fit_update_serial'|]. by intros [].
Qed.

(** ** The callbacks *)

Context `{!HostLaws E, !LwipLaws E, !SocketLaws E, !LwipFits E}.
Context (netdev_fwd_enabled : bool).

Section Turns.
Context (s : shape) (Hs : safe s).

Lemma io_link : sh_io s <> 0 -> exists k0, sh_links s !! sh_io s = Some k0.
Proof. intros Hn. by destruct (safe_io s Hs) as [?|[k0 ?]]; [|exists k0]. Qed.

Lemma serial_output_steady x data : is_Some (sh_serials s !! x) -> steady s (serial_output x data).
Proof.
  intros [k0 Hx]. unfold serial_output. apply (fit_load_serial _ k0); [done|].
  destruct (safe_serials s Hs _ _ Hx) as (_ & _ & Hfd).
  apply fit_step; [by eapply steady_os_use; [auto with own|]|]. intros n.
  destruct (n <? 0); apply steady_ret.
Qed.

Lemma output_cb_steady data : steady s (ppp_output_cb (sh_io s) data).
Proof.
  unfold ppp_output_cb. destruct (Z.eqb_spec (sh_io s) 0); [apply steady_ret|].
  destruct io_link as [k0 Hk]; [done|]. apply (fit_load_link _ k0); [done|]. intros k Hk0.
  apply blank_fields in Hk0. destruct Hk0 as (_ & Ho & _). rewrite Ho.
  destruct (lk_output k0) as [x|] eqn:Ex; [|apply steady_ret].
  apply fit_step; [|intros; apply steady_ret].
  apply serial_output_steady. by apply (safe_links s Hs _ _ Hk).
Qed.

Lemma status_cb_steady e a : steady s (ppp_link_status_cb netdev_fwd_enabled e a).
Proof.
  unfold ppp_link_status_cb.
  apply fit_step; [destruct (negb _); [by apply steady_lwip_set|apply steady_ret]|]. intros _.
  destruct (e =? PPPERR_NONE); [|apply steady_ret].
  apply fit_step; [by apply steady_lwip_set|]. intros _.
  destruct (_ && _); [apply steady_os; auto with own|apply steady_ret].
Qed.

Lemma copy_in_buf_steady io k0 o src :
  sh_links s !! io = Some k0 -> (o + List.length src <= List.length (lk_in_buf k0))%nat ->
  steady s (copy_in_buf io o src).
Proof.
  intros Hk Hl. unfold copy_in_buf. apply (fit_load_link _ k0); [done|]. intros k Hk0.
  pose proof (blank_fields _ _ Hk0) as (_ & _ & _ & _ & Hlen & _).
  destruct (Nat.ltb_spec (List.length (lk_in_buf k)) (o + List.length src)); [lia|].
  apply (steady_update_link _ k0); [done|]. intros x Hx. rewrite <- Hx.
  pose proof (blank_fields _ _ Hx) as (_ & _ & _ & _ & Hlx & _).
  apply blank_set_in. rewrite !length_app, length_take, length_drop. lia.
Qed.

Lemma copy_chain_steady io k0 n : forall o,
  sh_links s !! io = Some k0 -> (o + List.length (concat n) <= List.length (lk_in_buf k0))%nat ->
  steady s (copy_chain io o n).
Proof.
  induction n as [|payload n IH]; intros o Hk Hl; cbn [copy_chain concat] in *;
    [apply steady_ret|].
  rewrite length_app in Hl. apply fit_step; [eapply copy_in_buf_steady; [done|lia]|].
  intros _. apply IH; [done|lia].
Qed.

Lemma tun_output_steady (c : pbuf_chain) hd :
  List.length hd = 4%nat -> (4 + List.length (concat c) <= BUF_SIZE)%nat ->
  steady s (tun_output c hd).
Proof.
  intros Hh Hp. unfold tun_output. apply fit_get_lwip. intros v ->.
  destruct (Z.eqb_spec (sh_io s) 0); [apply steady_ret|].
  destruct io_link as [k0 Hk]; [done|].
  destruct (safe_links s Hs _ _ Hk) as (_ & _ & Hb & Hfd & _).
  apply (fit_load_link _ k0); [done|]. intros k (Hf & _)%blank_fields. rewrite Hf.
  destruct (Z.ltb_spec (lk_tun_fd k0) 0); [apply steady_ret|].
  apply fit_step; [eapply copy_in_buf_steady; [done|lia]|]. intros _.
  apply fit_step; [eapply copy_chain_steady; [done|lia]|]. intros o.
  apply (fit_load_link _ k0); [done|]. intros k' (Hf' & _)%blank_fields. rewrite Hf'.
  apply fit_step; [eapply steady_os_use; [auto with own|]; by destruct Hfd; [lia|]|].
  intros m. destruct (negb _); apply steady_ret.
Qed.

Lemma callback_steady cb : cb_fits cb -> steady s (run_callback netdev_fwd_enabled cb).
Proof.
  intros Hf. destruct cb as [data|e a|p|p]; cbn [run_callback cb_fits] in *.
  - apply fit_get_lwip. intros v ->. apply fit_step; [apply output_cb_steady|].
    intros; apply steady_ret.
  - apply status_cb_steady.
  - apply fit_step; [|intros; apply steady_ret]. unfold ip4_input.
    destruct netdev_fwd_enabled; [apply steady_os; auto with own|by apply tun_output_steady].
  - apply fit_step; [by apply tun_output_steady|intros; apply steady_ret].
Qed.

Lemma callbacks_steady cbs :
  Forall cb_fits cbs -> steady s (run_callbacks netdev_fwd_enabled cbs).
Proof.
  intros Hf. apply steady_for_each. intros cb Hin. apply callback_steady.
  rewrite Forall_forall in Hf. by apply Hf, list_elem_of_In.
Qed.

Lemma lwip_call_steady m :
  balanced m -> (forall w, Forall cb_fits (m w).2) -> steady s (lwip_call netdev_fwd_enabled m).
Proof.
  intros Hm Hf p Hp. unfold lwip_call, mbind, St_bind.
  pose proof (steady_os s m Hm p Hp) as Hp'. specialize (Hf (p_os p)). unfold os in *.
  destruct (m (p_os p)) as [w cbs]. by apply callbacks_steady.
Qed.

(** ** The turns *)

Hint Extern 1 (hoare (fits _) (mret _) _) => apply steady_ret : own.
Hint Extern 1 (hoare (fits _) (lwip_call _ _) _) => apply lwip_call_steady : own.
Hint Extern 1 (steady _ (lwip_call _ _)) => apply lwip_call_steady : own.
Hint Extern 1 (steady _ (mret _)) => apply steady_ret : own.

Lemma serial_input_steady data : steady s (ppp_link_serial_input netdev_fwd_enabled data).
Proof.
  unfold ppp_link_serial_input. apply fit_get_lwip. intros v _.
  destruct (lw_ppp v); [|apply steady_ret]. destruct (lw_use_tcpip v); auto with own.
Qed.

Lemma check_timeouts_steady : steady s (check_timeouts netdev_fwd_enabled).
Proof.
  unfold check_timeouts. apply fit_get_lwip. intros v _. destruct (lw_use_tcpip v); auto with own.
Qed.

Lemma tun_dispatch_steady hd payload : steady s (tun_dispatch netdev_fwd_enabled hd payload).
Proof. unfold tun_dispatch. repeat case_bool_decide; auto with own. Qed.

Lemma tun_poll_steady l : is_Some (sh_links s !! l) -> steady s (ppp_link_tun_poll netdev_fwd_enabled l).
Proof.
  intros [k0 Hk]. unfold ppp_link_tun_poll. destruct (l =? 0); [apply steady_ret|].
  destruct (safe_links s Hs _ _ Hk) as (_ & _ & _ & Hfd & _).
  apply (fit_load_link _ k0); [done|]. intros k (Hf & _)%blank_fields. rewrite Hf.
  destruct (Z.ltb_spec (lk_tun_fd k0) 0).
  { apply fit_step; [apply steady_os; auto with own|]. intros _.
    apply fit_step; [apply check_timeouts_steady|auto with own]. }
  destruct Hfd as [Hfd|Hfd]; [lia|].
  apply fit_step; [eapply steady_os_use; [auto with own|done]|]. intros ready.
  destruct (ready <=? 0); [apply fit_step; [apply check_timeouts_steady|auto with own]|].
  apply fit_step; [eapply steady_os_use; [auto with own|done]|].
  intros [frame|e]; [|apply steady_ret].
  apply fit_step; [by apply (steady_update_link _ k0)|]. intros _.
  destruct (Nat.leb _ _); [apply steady_ret|].
  apply fit_step; [apply steady_os; auto with own|]. intros room.
  destruct (negb room); [apply steady_ret|].
  apply fit_step; [apply tun_dispatch_steady|auto with own].
Qed.

Lemma serial_task_steady x :
  is_Some (sh_serials s !! x) -> steady s (serial_read_task netdev_fwd_enabled x).
Proof.
  intros [k0 Hx]. unfold serial_read_task. apply (fit_load_serial _ k0); [done|].
  destruct (safe_serials s Hs _ _ Hx) as (_ & _ & Hfd).
  destruct (negb (se_running k0)); [apply steady_ret|].
  apply fit_step; [eapply steady_os_use; [auto with own|done]|]. intros ready.
  destruct (ready <? 0); [apply fit_gets; intros; apply steady_ret|].
  destruct (ready =? 0); [apply steady_ret|].
  apply fit_step; [eapply steady_os_use; [auto with own|done]|].
  intros [[|b bs]|e]; try apply steady_ret.
  apply fit_step; [|auto with own].
  destruct (negb _); [apply serial_input_steady|apply steady_ret].
Qed.

Lemma run_thread_steady t : steady s (run_thread netdev_fwd_enabled t).
Proof.
  unfold run_thread. apply fit_gets. intros p Hp.
  destruct (p_threads p !! t) as [[task [|]]|] eqn:Et; try apply steady_ret.
  assert (Ht : sh_threads s !! t = Some task).
  { rewrite <- (fits_threads _ _ Hp), lookup_fmap, Et. done. }
  destruct (safe_threads s Hs _ _ Ht) as [_ Hobj].
  apply fit_step.
  - destruct task; cbn [thread_turn]; [|by apply serial_task_steady]. unfold tun_thread.
    destruct Hobj as [k0 Hk]. apply (fit_load_link _ k0); [done|]. intros k _.
    destruct (lk_running k); [|apply steady_ret].
    apply fit_step; [apply tun_poll_steady; eauto|auto with own].
  - intros live q []. split; try done. cbn. rewrite fmap_insert. cbn.
    rewrite fits_threads0. by apply insert_id.
Qed.

Lemma on_signal_steady : steady s on_signal.
Proof.
  unfold on_signal. apply fit_step; [by intros p []|]. intros _.
  apply fit_gets. intros p ->%fits_socket. destruct (Z.leb_spec 0 (sh_socket s)); [|apply steady_ret].
  apply fit_step; [|auto with own]. eapply steady_os_use; [auto with own|].
  destruct (safe_socket s Hs); [lia|done].
Qed.

(** Whoever runs while the caller waits, the shape stays. *)
Lemma preempt_steady : steady s (preempt netdev_fwd_enabled).
Proof.
  unfold preempt. apply fit_step; [apply steady_os; auto with own|]. intros us.
  apply steady_for_each. intros [t| |] _; cbn [run_turn].
  - apply run_thread_steady.
  - unfold tcpip_turn. apply fit_get_lwip. intros v _. destruct (lw_use_tcpip v); auto with own.
  - apply on_signal_steady.
Qed.
End Turns.
End Fits.
