(* ===== verification/ClientLife.v ===== *)
(** * Start and stop of the client's objects, from shape to shape

    First single steps, then [serial_io_attach], [ppp_link_start],
    [ppp_link_stop], [serial_io_close] and [ppp_link_destroy] on objects that
    are there. *)

From Stdlib Require Import ZArith Lia Strings.Byte Strings.String.
From stdpp Require Import base tactics list numbers option gmap.
From S2P Require Import Prelude Posix Sockets HostSys PppLwip PppLink ClientFacts.

(** * The steps of the client's start and stop, from shape to shape *)

#[local] Opaque BUF_SIZE.

(** The shapes a successful [serial_io_open] and [ppp_link_create] lead to. *)
Definition opened (x fd t : Z) (v : bool) (s : shape) : shape :=
  MkShape ({[Thread t]} ∪ ({[Fd fd]} ∪ ({[Block x]} ∪ sh_held s))) (sh_links s)
    (<[x := MkSerialIo fd t true v 0]> (sh_serials s)) (<[t := SerialThread x]> (sh_threads s))
    (sh_io s) (sh_socket s).

Definition created (l fd : Z) (cfg : ppp_config) (s : shape) : shape :=
  MkShape ({[Fd fd]} ∪ ({[Block l]} ∪ sh_held s))
    (<[l := blank (set_tun_fd fd (link_at_rest cfg))]> (sh_links s)) (sh_serials s)
    (sh_threads s) (sh_io s) (sh_socket s).

Section Steps.
Context {E : Type} `{HostSys E, Lwip E, Sockets E, Ledger E}.
Context `{!HostLaws E, !LwipLaws E, !SocketLaws E, !LwipFits E}.
Context (netdev_fwd_enabled : bool).
Implicit Types (s : shape) (p : proc E).

(** ** Objects and threads come and go *)

Lemma fit_new_link {B} s c (k : Z -> St (proc E) B) Q :
  hoare (fits s) (k 0) Q ->
  (forall l, l <> 0 -> Block l ∉ sh_held s ->
     hoare (fits (hold (Block l) (with_links (<[l := blank c]> (sh_links s)) s))) (k l) Q) ->
  hoare (fits s) (new_link c ≫= k) Q.
Proof.
  intros Hf Hs p Hp. unfold new_link, mbind, St_bind, os.
  pose proof (os_calloc_allocates (sh_held s) (p_os p) (fits_held _ _ Hp)) as Ha.
  destruct (os_calloc (p_os p)) as [w l]. cbn in Ha.
  destruct Ha as [[-> Hw]|(Hl & Hn & Hw)]; [apply Hf|].
  - destruct Hp. by split.
  - rewrite (proj2 (Z.eqb_neq _ _) Hl). apply Hs; [done..|]. destruct Hp. split; try done.
    cbn. by rewrite fmap_insert, fits_links.
Qed.

Lemma fit_new_serial {B} s c (k : Z -> St (proc E) B) Q :
  hoare (fits s) (k 0) Q ->
  (forall x, x <> 0 -> Block x ∉ sh_held s ->
     hoare (fits (hold (Block x) (with_serials (<[x := c]> (sh_serials s)) s))) (k x) Q) ->
  hoare (fits s) (new_serial c ≫= k) Q.
Proof.
  intros Hf Hs p Hp. unfold new_serial, mbind, St_bind, os.
  pose proof (os_calloc_allocates (sh_held s) (p_os p) (fits_held _ _ Hp)) as Ha.
  destruct (os_calloc (p_os p)) as [w x]. cbn in Ha.
  destruct Ha as [[-> Hw]|(Hx & Hn & Hw)]; [apply Hf|].
  - destruct Hp. by split.
  - rewrite (proj2 (Z.eqb_neq _ _) Hx). apply Hs; [done..|]. destruct Hp. split; try done.
    cbn. by rewrite fits_serials.
Qed.

Lemma fit_pthread_create {B} s task (k : Z -> St (proc E) B) Q :
  hoare (fits s) (k 0) Q ->
  (forall t, t <> 0 -> Thread t ∉ sh_held s ->
     hoare (fits (hold (Thread t) (with_threads (<[t := task]> (sh_threads s)) s))) (k t) Q) ->
  hoare (fits s) (pthread_create task ≫= k) Q.
Proof.
  intros Hf Hs p Hp. unfold pthread_create, mbind, St_bind, os.
  pose proof (os_thread_allocates (sh_held s) (p_os p) (fits_held _ _ Hp)) as Ha.
  destruct (os_thread_create (p_os p)) as [w t]. cbn in Ha.
  destruct Ha as [[-> Hw]|(Ht & Hn & Hw)]; [apply Hf|].
  - destruct Hp. by split.
  - rewrite (proj2 (Z.eqb_neq _ _) Ht). apply Hs; [done..|]. destruct Hp. split; try done.
    cbn. by rewrite fmap_insert, fits_threads.
Qed.

Lemma fit_free_link s l :
  Block l ∈ sh_held s ->
  hoare (fits s) (free_link (E := E) l)
    (fun _ => fits (release (Block l) (with_links (delete l (sh_links s)) s))).
Proof.
  intros Hl. unfold free_link. eapply fit_return; [auto with own|done|]. intros _ p [].
  split; try done. cbn. by rewrite fmap_delete, fits_links.
Qed.

Lemma fit_free_serial s x :
  Block x ∈ sh_held s ->
  hoare (fits s) (free_serial (E := E) x)
    (fun _ => fits (release (Block x) (with_serials (delete x (sh_serials s)) s))).
Proof.
  intros Hx. unfold free_serial. eapply fit_return; [auto with own|done|]. intros _ p [].
  split; try done. cbn. by rewrite fits_serials.
Qed.

Lemma fit_seq {A B} s s' (m : St (proc E) A) (k : St (proc E) B) Q :
  hoare (fits s) m (fun _ => fits s') -> hoare (fits s') k Q -> hoare (fits s) (m;; k) Q.
Proof. intros Hm Hk. eapply hoare_seq; [exact Hm|exact Hk]. Qed.

(** ** A thread told to stop can be joined *)

Definition told_to_stop s (task : thread_task) : Prop :=
  match task with
  | TunThread l => exists k, sh_links s !! l = Some k /\ lk_running k = false
  | SerialThread x => exists k, sh_serials s !! x = Some k /\ se_running k = false
  end.

Lemma stopped_turn s task :
  told_to_stop s task ->
  hoare (fits s) (thread_turn netdev_fwd_enabled task) (fun live p => live = false /\ fits s p).
Proof.
  destruct task as [l|x]; cbn [told_to_stop thread_turn]; intros (k0 & Hk & Hr).
  - unfold tun_thread. apply (fit_load_link _ k0); [done|].
    intros k (_ & _ & _ & _ & _ & ->)%blank_fields. rewrite Hr. by intros p Hp.
  - unfold serial_read_task. apply (fit_load_serial _ k0); [done|]. rewrite Hr. by intros p Hp.
Qed.

Lemma fit_pthread_join s t task :
  safe s -> sh_threads s !! t = Some task -> told_to_stop s task ->
  hoare (fits s) (pthread_join netdev_fwd_enabled t)
    (fun _ => fits (release (Thread t) (with_threads (delete t (sh_threads s)) s))).
Proof.
  intros Hs Ht Hstop. destruct (safe_threads s Hs _ _ Ht) as [Hheld _]. unfold pthread_join.
  apply fit_step; [by apply preempt_steady|]. intros _.
  apply (hoare_bind _ (fun _ p => fits s p /\ p_threads p !! t = Some (task, false))).
  - unfold run_thread. intros p Hp. cbn. unfold mbind, St_bind. cbn.
    pose proof (fits_threads _ _ Hp) as Hm. rewrite <- Hm, lookup_fmap in Ht.
    destruct (p_threads p !! t) as [[task' live]|] eqn:Et; [|done]. cbn in Ht. simplify_eq.
    destruct live; [|done]. pose proof (stopped_turn s task Hstop p Hp) as Hturn.
    destruct (thread_turn netdev_fwd_enabled task p) as [q live]. cbn in Hturn.
    destruct Hturn as [-> []]. cbn. rewrite lookup_insert_eq. split; [|done].
    split; try done. cbn. rewrite fmap_insert. cbn. rewrite fits_threads. apply insert_id.
    rewrite <- Hm, lookup_fmap, Et. done.
  - intros _ p [Hp Et]. unfold mbind at 1, St_bind at 1. cbn. rewrite Et.
    clear Et. revert p Hp. change (hoare (fits s)
      (os (os_thread_join t);; modify (fun p => set_threads (delete t (p_threads p)) p))
      (fun _ => fits (release (Thread t) (with_threads (delete t (sh_threads s)) s)))).
    eapply (fit_return (Thread t)); [auto with own|done|]. intros _ p [].
    split; try done. cbn. by rewrite fmap_delete, fits_threads.
Qed.

(** ** The operations *)

Lemma set_modem_lines_steady s fd : Fd fd ∈ sh_held s -> steady (E := E) s (serial_set_modem_lines fd).
Proof.
  intros Hfd. unfold serial_set_modem_lines.
  apply fit_step; [eapply steady_os_use; [auto with own|done]|]. intros [st|]; [|apply steady_ret].
  apply fit_step; [eapply steady_os_use; [auto with own|done]|]. intros. apply steady_ret.
Qed.

Lemma safe_opened x fd t v s :
  safe s -> x <> 0 -> safe (opened x fd t v s).
Proof.
  intros [Hl Hse Ht Hio Hso] Hx. split; cbn.
  - intros l k Hk. destruct (Hl l k Hk) as (? & ? & ? & Hfd & Ho). split_and!; try done.
    + set_solver.
    + set_solver.
    + intros y Hy. apply lookup_insert_is_Some. destruct (decide (x = y)); eauto.
  - intros y k [[-> <-]|[Hn Hk]]%lookup_insert_Some; cbn; [set_solver|].
    destruct (Hse y k Hk) as (? & ? & ?). split; [done|]. set_solver.
  - intros u task [[-> <-]|[Hn Hk]]%lookup_insert_Some.
    + split; [set_solver|]. rewrite lookup_insert_eq. eauto.
    + destruct (Ht u task Hk) as [? Hobj]. split; [set_solver|]. destruct task; [done|].
      apply lookup_insert_is_Some. destruct (decide (x = serial)); eauto.
  - done.
  - set_solver.
Qed.

Lemma hoare_at {A} s s' (m : St (proc E) A) Q :
  s = s' -> hoare (fits s') m Q -> hoare (fits s) m Q.
Proof. by intros ->. Qed.

Lemma fits_eq s s' p : s = s' -> fits s p -> fits s' p.
Proof. by intros ->. Qed.

Lemma fresh_link s l : safe s -> Block l ∉ sh_held s -> sh_links s !! l = None.
Proof.
  intros Hs Hn. destruct (sh_links s !! l) as [k|] eqn:E'; [|done].
  by destruct (safe_links s Hs l k E') as (_ & ? & _).
Qed.

Lemma fresh_serial s x : safe s -> Block x ∉ sh_held s -> sh_serials s !! x = None.
Proof.
  intros Hs Hn. destruct (sh_serials s !! x) as [k|] eqn:E'; [|done].
  by destruct (safe_serials s Hs x k E') as (_ & ? & _).
Qed.

Lemma fresh_thread s t : safe s -> Thread t ∉ sh_held s -> sh_threads s !! t = None.
Proof.
  intros Hs Hn. destruct (sh_threads s !! t) as [k|] eqn:E'; [|done].
  by destruct (safe_threads s Hs t k E') as [? _].
Qed.
End Steps.

(** Equality of shapes built by the rules. *)
Ltac shape_eq :=
  unfold with_held, with_links, with_serials, with_threads, with_io, with_socket, opened, created;
  cbn [sh_held sh_links sh_serials sh_threads sh_io sh_socket];
  try match goal with
  | |- MkShape _ _ _ _ _ _ = ?s => is_var s; destruct s; cbn in *
  end;
  f_equal;
  rewrite ?insert_insert_eq, ?delete_insert_eq, ?insert_id, ?delete_id by done;
  try done; try set_solver.

Section Operations.
Context {E : Type} `{HostSys E, Lwip E, Sockets E, Ledger E}.
Context `{!HostLaws E, !LwipLaws E, !SocketLaws E, !LwipFits E}.
Context (netdev_fwd_enabled : bool).
Implicit Types (s : shape) (p : proc E).

Definition serial_open_post (s : shape) (v : bool) (n : Z) (p : proc E) : Prop :=
  (n = 0 /\ fits s p) \/
  exists fd t, n <> 0 /\ Block n ∉ sh_held s /\ 0 <= fd /\ Fd fd ∉ sh_held s /\
    t <> 0 /\ Thread t ∉ sh_held s /\ fits (opened n fd t v s) p.

(** The error exits of [serial_io_open] after the port is open. *)
Lemma fit_give_up s x fd c v :
  safe s -> Block x ∉ sh_held s -> Fd fd ∉ sh_held s ->
  hoare (fits (hold (Fd fd) (hold (Block x) (with_serials (<[x := c]> (sh_serials s)) s))))
    (serial_give_up x fd) (serial_open_post s v).
Proof.
  intros Hs Hx Hfd. unfold serial_give_up.
  eapply (fit_return (Fd fd)); [auto with own|set_solver|].
  intros _. eapply fit_seq; [apply fit_free_serial; set_solver|].
  intros p Hp. left. split; [done|]. eapply fits_eq; [|exact Hp].
  pose proof (fresh_serial s x Hs Hx). shape_eq.
Qed.

Lemma serial_open_fits s dev baud v :
  safe s ->
  hoare (fits s) (serial_io_open netdev_fwd_enabled dev baud v) (serial_open_post s v).
Proof.
  intros Hs. unfold serial_io_open. apply fit_new_serial; [by left|]. intros x Hx Hfx.
  pose proof (fresh_serial s x Hs Hfx) as Hnx.
  rewrite (proj2 (Z.eqb_neq _ _) Hx).
  eapply fit_obtain; [auto with own| |].
  - intros fd Hfd. eapply fit_update_serial; [apply lookup_insert_eq|].
    rewrite (proj2 (Z.ltb_lt _ _) Hfd). eapply fit_seq; [apply fit_free_serial; set_solver|].
    intros p Hp. left. split; [done|]. eapply fits_eq; [|exact Hp]. shape_eq.
  - intros fd Hfd Hffd. eapply fit_update_serial; [apply lookup_insert_eq|].
    rewrite (proj2 (Z.ltb_ge _ _) Hfd).
    set (at_ := fun thread running =>
      hold (Fd fd) (hold (Block x)
        (with_serials (<[x := MkSerialIo fd thread running v 0]> (sh_serials s)) s))).
    apply (hoare_at _ (at_ 0 false)); [unfold at_; shape_eq|].
    assert (Hg : forall thread running,
      hoare (fits (at_ thread running)) (serial_give_up x fd) (serial_open_post s v)).
    { intros. apply fit_give_up; [done..|set_solver]. }
    assert (Hin : forall thread running, Fd fd ∈ sh_held (at_ thread running)) by set_solver.
    apply fit_step; [eapply steady_os_use; [auto with own|apply Hin]|].
    intros [tty|]; [|apply Hg].
    apply fit_step; [eapply steady_os_use; [auto with own|apply Hin]|]. intros r.
    destruct (negb (r =? 0)); [apply Hg|].
    apply fit_step; [by apply set_modem_lines_steady|]. intros _.
    eapply fit_update_serial; [apply lookup_insert_eq|].
    apply (hoare_at _ (at_ 0 true)); [unfold at_; shape_eq|].
    apply fit_pthread_create; [apply Hg|]. intros t Ht Hft.
    rewrite (proj2 (Z.eqb_neq _ _) Ht).
    eapply fit_update_serial; [apply lookup_insert_eq|].
    apply (hoare_at _ (opened x fd t v s)); [unfold at_; shape_eq|].
    apply fit_step; [apply preempt_steady; by apply safe_opened|]. intros _ p Hp.
    right. exists fd, t. split_and!; try done. all: unfold at_ in *; set_solver.
Qed.

Lemma blank_set_tun fd x y : blank x = blank y -> blank (set_tun_fd fd x) = blank (set_tun_fd fd y).
Proof.
  destruct x, y. unfold blank, set_in_buf, set_out_buf, set_tun_fd. cbn. congruence.
Qed.

Lemma open_tun_fits s l dev ifn cfg :
  safe s -> Block l ∉ sh_held s ->
  hoare (fits (hold (Block l) (with_links (<[l := blank (link_at_rest cfg)]> (sh_links s)) s)))
    (open_tun l dev ifn)
    (fun ok p => (ok = false /\ fits s p) \/
       exists fd, ok = true /\ 0 <= fd /\ Fd fd ∉ sh_held s /\ fits (created l fd cfg s) p).
Proof.
  intros Hs Hfl. pose proof (fresh_link s l Hs Hfl) as Hnl. unfold open_tun.
  eapply fit_obtain; [auto with own| |]; intros fd Hfd.
  - eapply fit_update_link; [apply lookup_insert_eq|intros x Hx; by apply blank_set_tun|].
    rewrite (proj2 (Z.ltb_lt _ _) Hfd). eapply fit_seq; [apply fit_free_link; set_solver|].
    intros p Hp. left. split; [done|]. eapply fits_eq; [|exact Hp]. shape_eq.
  - intros Hffd.
    eapply fit_update_link; [apply lookup_insert_eq|intros x Hx; by apply blank_set_tun|].
    rewrite (proj2 (Z.ltb_ge _ _) Hfd).
    apply (hoare_at _ (created l fd cfg s)); [shape_eq|].
    apply fit_step; [eapply steady_os_use; [auto with own|set_solver]|]. intros r.
    destruct (r <? 0).
    + eapply (fit_return (Fd fd)); [auto with own|set_solver|]. intros _.
      eapply fit_seq; [apply fit_free_link; set_solver|].
      intros p Hp. left. split; [done|]. eapply fits_eq; [|exact Hp]. shape_eq.
    + apply fit_step; [eapply steady_os_use; [auto with own|set_solver]|]. intros _ p Hp.
      right. exists fd. split_and!; try done. set_solver.
Qed.

Lemma link_create_fits s dev ifn cfg :
  safe s ->
  hoare (fits s)
    (ppp_link_create (Some (MkPppLinkConfig (Some dev) (Some ifn) (Some cfg))))
    (fun l p => (l = 0 /\ fits s p) \/
       exists fd, l <> 0 /\ Block l ∉ sh_held s /\ 0 <= fd /\ Fd fd ∉ sh_held s /\
         fits (created l fd cfg s) p).
Proof.
  intros Hs. unfold ppp_link_create. cbn. apply fit_new_link; [by left|]. intros l Hl Hfl.
  rewrite (proj2 (Z.eqb_neq _ _) Hl).
  eapply hoare_bind; [by apply open_tun_fits|]. cbn.
  intros ok p [[-> Hp]|(fd & -> & ? & ? & Hp)]; [by left|]. right. exists fd. by split_and!.
Qed.
End Operations.

(** * Start and stop of the client's objects, from shape to shape

    [serial_io_attach], [ppp_link_start], [ppp_link_stop], [serial_io_close]
    and [ppp_link_destroy] on objects that are there. *)

#[local] Opaque BUF_SIZE.

Section Life.
Context {E : Type} `{HostSys E, Lwip E, Sockets E, Ledger E}.
Context `{!HostLaws E, !LwipLaws E, !SocketLaws E, !LwipFits E}.
Context (netdev_fwd_enabled : bool).
Implicit Types (s : shape) (p : proc E).

(** ** Safe shapes stay safe *)

Lemma safe_created l fd cfg s : safe s -> l <> 0 -> safe (created l fd cfg s).
Proof.
  intros [Hl Hse Ht Hio Hso] Hn. split; cbn.
  - intros i k [[-> <-]|[Hi Hk]]%lookup_insert_Some.
    + split_and!; [done|set_solver| |set_solver|done].
      unfold blank, link_at_rest; cbn; by rewrite !length_replicate.
    + destruct (Hl i k Hk) as (? & ? & ? & Hfd & Ho). split_and!; try done; set_solver.
  - intros y k Hk. destruct (Hse y k Hk) as (? & ? & ?). split; [done|]. set_solver.
  - intros u task Hk. destruct (Ht u task Hk) as [? Hobj]. split; [set_solver|].
    destruct task; [|done]. apply lookup_insert_is_Some. destruct (decide (l = link)); eauto.
  - destruct Hio as [?|?]; [by left|]. right. apply lookup_insert_is_Some.
    destruct (decide (l = sh_io s)); eauto.
  - set_solver.
Qed.

Lemma safe_put_link l k k1 s :
  safe s -> sh_links s !! l = Some k ->
  lk_tun_fd k1 = lk_tun_fd k -> lk_in_buf k1 = lk_in_buf k ->
  (forall x, lk_output k1 = Some x -> is_Some (sh_serials s !! x)) ->
  safe (with_links (<[l := k1]> (sh_links s)) s).
Proof.
  intros [Hl Hse Ht Hio Hso] Hk Hfd Hb Ho. split; cbn; try done.
  - intros i c [[-> <-]|[Hi Hc]]%lookup_insert_Some; [|by apply Hl].
    destruct (Hl i k Hk) as (? & ? & ? & ? & _). rewrite Hfd, Hb. by split_and!.
  - intros u task Hu. destruct (Ht u task Hu) as [? Hobj]. split; [done|].
    destruct task; [|done]. apply lookup_insert_is_Some. destruct (decide (l = link)); eauto.
  - destruct Hio as [?|?]; [by left|]. right. apply lookup_insert_is_Some.
    destruct (decide (l = sh_io s)); eauto.
Qed.

Lemma safe_same_link l k k1 s :
  safe s -> sh_links s !! l = Some k ->
  lk_tun_fd k1 = lk_tun_fd k -> lk_in_buf k1 = lk_in_buf k -> lk_output k1 = lk_output k ->
  safe (with_links (<[l := k1]> (sh_links s)) s).
Proof.
  intros Hs Hk Hfd Hb Ho. apply (safe_put_link l k); [done..|]. rewrite Ho.
  by destruct (safe_links s Hs l k Hk) as (_ & _ & _ & _ & ?).
Qed.

Lemma safe_put_serial x k k1 s :
  safe s -> sh_serials s !! x = Some k -> se_fd k1 = se_fd k ->
  safe (with_serials (<[x := k1]> (sh_serials s)) s).
Proof.
  intros [Hl Hse Ht Hio Hso] Hk Hfd. split; cbn; try done.
  - intros i c Hc. destruct (Hl i c Hc) as (? & ? & ? & ? & Ho). split_and!; try done.
    intros y Hy. apply lookup_insert_is_Some. destruct (decide (x = y)); eauto.
  - intros i c [[-> <-]|[Hi Hc]]%lookup_insert_Some; [|by apply Hse].
    destruct (Hse i k Hk) as (? & ? & ?). rewrite Hfd. by split_and!.
  - intros u task Hu. destruct (Ht u task Hu) as [? Hobj]. split; [done|].
    destruct task; [done|]. apply lookup_insert_is_Some. destruct (decide (x = serial)); eauto.
Qed.

Lemma safe_hold r s : safe s -> safe (hold r s).
Proof.
  intros [Hl Hse Ht Hio Hso]. split; cbn; [| | |done|set_solver].
  - intros l k Hk. destruct (Hl l k Hk) as (? & ? & ? & ? & ?). split_and!; try done; set_solver.
  - intros x k Hk. destruct (Hse x k Hk) as (? & ? & ?). split_and!; try done; set_solver.
  - intros t task Hk. destruct (Ht t task Hk). split; [set_solver|done].
Qed.

Lemma safe_io_at s l : safe s -> is_Some (sh_links s !! l) -> safe (with_io l s).
Proof. intros [] Hk. split; cbn; eauto. Qed.

Definition without_thread (t : Z) (s : shape) : shape :=
  release (Thread t) (with_threads (delete t (sh_threads s)) s).

Lemma safe_without_thread s t : safe s -> safe (without_thread t s).
Proof.
  intros [Hl Hse Ht Hio Hso]. split; cbn.
  - intros l k Hk. destruct (Hl l k Hk) as (? & ? & ? & ? & ?).
    split_and!; try done; set_solver.
  - intros x k Hk. destruct (Hse x k Hk) as (? & ? & ?). split_and!; try done; set_solver.
  - intros u task [Hu Hk]%lookup_delete_Some. destruct (Ht u task Hk). split; [set_solver|done].
  - done.
  - set_solver.
Qed.

Definition with_tun_thread (l t : Z) (k : ppp_link) (s : shape) : shape :=
  MkShape ({[Thread t]} ∪ sh_held s) (<[l := k]> (sh_links s)) (sh_serials s)
    (<[t := TunThread l]> (sh_threads s)) l (sh_socket s).

Lemma safe_with_tun_thread s l t k kl :
  safe s -> sh_links s !! l = Some kl ->
  lk_tun_fd k = lk_tun_fd kl -> lk_in_buf k = lk_in_buf kl -> lk_output k = lk_output kl ->
  safe (with_tun_thread l t k s).
Proof.
  intros Hs Hk Hfd Hb Ho.
  pose proof (safe_same_link l kl k s Hs Hk Hfd Hb Ho) as Hp.
  assert (Hl : is_Some (<[l := k]> (sh_links s) !! l)) by (rewrite lookup_insert_eq; eauto).
  apply (safe_io_at _ l), (safe_hold (Thread t)) in Hp; [|exact Hl].
  destruct Hp as [? ? Ht ? ?]. split; cbn in *; try done.
  intros u v [[-> <-]|[Hu Hv]]%lookup_insert_Some; [|by apply Ht]. split; [set_solver|done].
Qed.

(** An assignment to a field commutes with forgetting the buffers. *)
Lemma blank_set_output o x k : blank x = k -> blank (set_output o x) = set_output o k.
Proof. by intros <-. Qed.
Lemma blank_set_tun_thread t x k : blank x = k -> blank (set_tun_thread t x) = set_tun_thread t k.
Proof. by intros <-. Qed.
Lemma blank_set_running b x k : blank x = k -> blank (set_running b x) = set_running b k.
Proof. by intros <-. Qed.
Lemma blank_set_started b x k : blank x = k -> blank (set_started b x) = set_started b k.
Proof. by intros <-. Qed.

Hint Resolve blank_set_output blank_set_tun_thread blank_set_running blank_set_started : own.

(** ** Attach *)

Lemma attach_fits s l x kl kx :
  safe s -> l <> 0 -> sh_links s !! l = Some kl -> sh_serials s !! x = Some kx ->
  hoare (fits s) (serial_io_attach netdev_fwd_enabled l x)
    (fun _ => fits (with_links (<[l := set_output (Some x) kl]> (sh_links s))
                      (with_serials (<[x := set_se_link l kx]> (sh_serials s)) s))).
Proof.
  intros Hs Hl Hkl Hkx. unfold serial_io_attach.
  eapply fit_update_serial; [done|].
  apply fit_step; [apply preempt_steady; by apply (safe_put_serial _ kx)|]. intros _.
  unfold ppp_link_set_output. rewrite (proj2 (Z.eqb_neq _ _) Hl).
  apply (fit_update_link' l kl _ (with_serials (<[x := set_se_link l kx]> (sh_serials s)) s));
    [done|]. auto with own.
Qed.

(** ** lwIP's start and stop *)

Lemma open_session_steady s m pcb :
  safe s -> (forall pcb, balanced (m pcb)) -> (forall pcb w, Forall cb_fits (m pcb w).2.2) ->
  steady s (open_session netdev_fwd_enabled m pcb).
Proof.
  intros Hs Hm Hf. unfold open_session.
  apply fit_step; [by apply steady_lwip_set|]. intros _ p Hp. unfold mbind, St_bind.
  pose proof (steady_os s (m pcb) (Hm pcb) p Hp) as Hp'. specialize (Hf pcb (p_os p)).
  unfold os in *. destruct (m pcb (p_os p)) as [w [r cbs]]. cbn in *.
  pose proof (callbacks_steady netdev_fwd_enabled s Hs cbs Hf _ Hp') as Hq.
  unfold run_callbacks in Hq. by destruct (for_each _ _ _).
Qed.

Lemma ppp_setup_steady s cfg : safe s -> steady s (ppp_setup netdev_fwd_enabled cfg).
Proof.
  intros Hs. unfold ppp_setup. apply fit_step; [apply steady_os; auto with own|]. intros pcb.
  apply fit_step; [by apply steady_lwip_set|]. intros _.
  destruct pcb as [pcb|]; [|apply steady_ret].
  destruct (pc_server cfg); [destruct (configure_ppp_server _ _ _)|destruct (configure_ppp_client _ _ _)];
    try apply steady_ret; apply open_session_steady; auto with own.
Qed.

(** A semaphore for work in lwIP's thread: made, used and freed. *)
Lemma with_sem {A} s (f : Z -> St (proc E) A) :
  steady s (f 0) ->
  (forall d, d <> 0 -> Sem d ∉ sh_held s ->
     hoare (fits (hold (Sem d) s)) (f d) (fun _ => fits s)) ->
  steady s (d ← os sys_sem_new; f d).
Proof. intros Hf Hs. eapply fit_alloc; [auto with own|done|done]. Qed.

Lemma sem_done s d {A} (a : A) :
  Sem d ∉ sh_held s ->
  hoare (fits (hold (Sem d) s)) (os (sys_sem_free d);; mret a) (fun _ => fits s).
Proof.
  intros Hd. eapply (fit_return (Sem d)); [auto with own|set_solver|]. intros _ p Hp.
  eapply fits_eq; [|exact Hp]. shape_eq.
Qed.

Lemma lwip_init_fits s l kl :
  safe s -> l <> 0 -> sh_links s !! l = Some kl ->
  hoare (fits s) (ppp_link_lwip_init netdev_fwd_enabled l) (fun _ => fits (with_io l s)).
Proof.
  intros Hs Hl Hk. unfold ppp_link_lwip_init. apply fit_set_io.
  assert (Hs' : safe (with_io l s)) by (apply safe_io_at; eauto).
  rewrite (proj2 (Z.eqb_neq _ _) Hl).
  apply (fit_load_link _ kl); [done|]. intros k _.
  apply fit_step; [by apply steady_lwip_set|]. intros _.
  apply fit_get_lwip. intros v _. destruct (lw_use_tcpip v).
  - apply fit_step; [apply steady_os; auto with own|]. intros _.
    apply with_sem; [apply steady_ret|]. intros d Hd Hfd.
    rewrite (proj2 (Z.eqb_neq _ _) Hd).
    apply fit_step; [apply steady_os; auto with own|]. intros [|]; cbn [negb].
    + apply fit_step; [by apply ppp_setup_steady, safe_hold|]. intros ok. by apply sem_done.
    + by apply sem_done.
  - apply fit_step; [apply steady_os; auto with own|]. intros _. by apply ppp_setup_steady.
Qed.

Lemma lwip_stop_steady s : safe s -> steady s (ppp_link_lwip_stop netdev_fwd_enabled).
Proof.
  intros Hs. unfold ppp_link_lwip_stop. apply fit_get_lwip. intros v _.
  destruct (lw_ppp v); [|apply steady_ret].
  destruct (lw_use_tcpip v); [|apply lwip_call_steady; auto with own].
  apply with_sem; [apply steady_ret|]. intros d Hd Hfd. rewrite (proj2 (Z.eqb_neq _ _) Hd).
  apply fit_step; [apply steady_os; auto with own|]. intros queued.
  apply fit_step.
  - destruct queued; [|apply steady_ret].
    apply lwip_call_steady; [by apply safe_hold|auto with own..].
  - intros []. pose proof (sem_done s d tt Hfd) as Hd'. intros q Hq. specialize (Hd' q Hq).
    unfold mbind, St_bind in Hd'. by destruct (os (sys_sem_free d) q) as [? []].
Qed.

(** ** Start *)

Definition tun_started (t : Z) (k : ppp_link) : ppp_link :=
  set_started true (set_tun_thread t (set_running true k)).

Lemma link_start_fits s l kl :
  safe s -> l <> 0 -> sh_links s !! l = Some kl -> lk_running kl = false ->
  hoare (fits s) (ppp_link_start netdev_fwd_enabled l)
    (fun ok p => (ok = false /\ fits (with_io l s) p) \/
       exists t, ok = true /\ Thread t ∉ sh_held s /\
         fits (with_tun_thread l t (tun_started t kl) s) p).
Proof.
  intros Hs Hl Hk Hrun. unfold ppp_link_start. rewrite (proj2 (Z.eqb_neq _ _) Hl).
  eapply hoare_bind; [by eapply lwip_init_fits|]. intros [|]; cbn [negb]; [|by intros q Hq; left].
  assert (Hs' : safe (with_io l s)) by (apply safe_io_at; eauto).
  assert (Hstop : set_running false (set_running true kl) = kl)
    by (destruct kl; unfold set_running; cbn in *; by rewrite Hrun).
  eapply (fit_update_link l kl (set_running true kl)); [done|auto with own|].
  apply fit_step; [by apply preempt_steady, (safe_same_link l kl)|].
  intros _. apply fit_pthread_create.
  - cbn. eapply fit_update_link; [apply lookup_insert_eq|eauto with own|].
    intros q Hq. left. split; [done|]. eapply fits_eq; [|exact Hq]. rewrite Hstop. shape_eq.
  - intros t Ht Hft. rewrite (proj2 (Z.eqb_neq _ _) Ht).
    eapply fit_update_link; [apply lookup_insert_eq|eauto with own|].
    apply (hoare_at _ (with_tun_thread l t (set_tun_thread t (set_running true kl)) s));
      [unfold with_tun_thread; shape_eq|].
    apply fit_step; [by apply preempt_steady, (safe_with_tun_thread _ _ _ _ kl)|].
    intros _. eapply fit_update_link; [apply lookup_insert_eq|eauto with own|].
    intros q Hq. right. exists t. split_and!; [done..|]. eapply fits_eq; [|exact Hq].
    unfold with_tun_thread. shape_eq.
Qed.

(** ** Stop *)

(** What stopping leaves of a link. *)
Definition halted (k : ppp_link) : ppp_link := set_started false (set_running false k).

Definition stopped_shape (l : Z) (k : ppp_link) (s : shape) : shape :=
  without_thread (lk_tun_thread k) (with_links (<[l := halted k]> (sh_links s)) s).

Lemma stop_tun_thread_fits s l kl :
  safe s -> sh_links s !! l = Some kl -> lk_thread_started kl = true ->
  sh_threads s !! lk_tun_thread kl = Some (TunThread l) ->
  hoare (fits s) (stop_tun_thread netdev_fwd_enabled l) (fun _ => fits (stopped_shape l kl s)).
Proof.
  intros Hs Hk Hst Ht. unfold stop_tun_thread. apply (fit_load_link _ kl); [done|].
  intros k (_ & _ & -> & -> & _)%blank_fields. rewrite Hst.
  eapply (fit_update_link l kl); [done|eauto with own|].
  eapply fit_seq.
  { apply (fit_pthread_join _ _ _ (TunThread l)); [by apply (safe_same_link l kl)|done|].
    cbn. rewrite lookup_insert_eq. eauto. }
  eapply hoare_weaken; [eapply (fit_update_link' l)|done|].
  - cbn. apply lookup_insert_eq.
  - eauto with own.
  - intros ? q Hq. eapply fits_eq; [|exact Hq]. unfold stopped_shape, without_thread, halted.
    shape_eq.
Qed.

Lemma stop_tun_thread_idle s l kl :
  sh_links s !! l = Some kl -> lk_thread_started kl = false ->
  steady s (stop_tun_thread netdev_fwd_enabled l).
Proof.
  intros Hk Hst. unfold stop_tun_thread. apply (fit_load_link _ kl); [done|].
  intros k (_ & _ & _ & -> & _)%blank_fields. rewrite Hst. apply steady_ret.
Qed.

Lemma safe_stopped s l kl : safe s -> sh_links s !! l = Some kl -> safe (stopped_shape l kl s).
Proof. intros Hs Hk. by apply safe_without_thread, (safe_same_link l kl). Qed.

(** [ppp_link_stop], of a running link and of one that failed to start. *)
Lemma link_stop_fits s l kl :
  safe s -> l <> 0 -> sh_links s !! l = Some kl -> lk_thread_started kl = true ->
  sh_threads s !! lk_tun_thread kl = Some (TunThread l) ->
  hoare (fits s) (ppp_link_stop netdev_fwd_enabled l) (fun _ => fits (stopped_shape l kl s)).
Proof.
  intros Hs Hl Hk Hst Ht. unfold ppp_link_stop. rewrite (proj2 (Z.eqb_neq _ _) Hl).
  pose proof (safe_stopped s l kl Hs Hk).
  eapply fit_seq; [by apply stop_tun_thread_fits|].
  apply fit_step; [by apply preempt_steady|]. intros _. by apply lwip_stop_steady.
Qed.

Lemma link_stop_idle s l kl :
  safe s -> l <> 0 -> sh_links s !! l = Some kl -> lk_thread_started kl = false ->
  steady s (ppp_link_stop netdev_fwd_enabled l).
Proof.
  intros Hs Hl Hk Hst. unfold ppp_link_stop. rewrite (proj2 (Z.eqb_neq _ _) Hl).
  apply fit_step; [by eapply stop_tun_thread_idle|]. intros _.
  apply fit_step; [by apply preempt_steady|]. intros _. by apply lwip_stop_steady.
Qed.

(** ** Close and destroy *)

Definition closed_shape (x : Z) (kx : serial_io) (s : shape) : shape :=
  MkShape (sh_held s ∖ {[Thread (se_thread kx)]} ∖ {[Fd (se_fd kx)]} ∖ {[Block x]})
    (if se_link kx =? 0 then sh_links s else alter (set_output None) (se_link kx) (sh_links s))
    (delete x (sh_serials s)) (delete (se_thread kx) (sh_threads s)) (sh_io s) (sh_socket s).

Definition destroyed_shape (l : Z) (kl : ppp_link) (s : shape) : shape :=
  MkShape (sh_held s ∖ {[Fd (lk_tun_fd kl)]} ∖ {[Block l]})
    (delete l (sh_links s)) (sh_serials s) (sh_threads s) (sh_io s) (sh_socket s).

Lemma link_destroy_fits s l kl :
  l <> 0 -> sh_links s !! l = Some kl -> lk_thread_started kl = false ->
  0 <= lk_tun_fd kl -> Fd (lk_tun_fd kl) ∈ sh_held s -> Block l ∈ sh_held s ->
  hoare (fits s) (ppp_link_destroy netdev_fwd_enabled l) (fun _ => fits (destroyed_shape l kl s)).
Proof.
  intros Hl Hk Hst Hfd Hf Hb. unfold ppp_link_destroy. rewrite (proj2 (Z.eqb_neq _ _) Hl).
  apply fit_step; [by eapply stop_tun_thread_idle|]. intros _.
  apply (fit_load_link _ kl); [done|]. intros k (-> & _)%blank_fields.
  rewrite (proj2 (Z.leb_le _ _) Hfd).
  eapply (fit_return (Fd (lk_tun_fd kl))); [auto with own|done|]. intros _.
  apply fit_free_link. set_solver.
Qed.

Lemma alter_some {A} (f : A -> A) (i : Z) (m : gmap Z A) a :
  m !! i = Some a -> alter f i m = <[i := f a]> m.
Proof.
  intros Hi. apply map_eq. intros j. destruct (decide (i = j)) as [->|Hj].
  - by rewrite lookup_alter_eq, lookup_insert_eq, Hi.
  - by rewrite lookup_alter_ne, lookup_insert_ne.
Qed.

Lemma serial_close_fits s x kx :
  safe s -> x <> 0 -> sh_serials s !! x = Some kx ->
  sh_threads s !! se_thread kx = Some (SerialThread x) ->
  (se_link kx = 0 \/ is_Some (sh_links s !! se_link kx)) ->
  hoare (fits s) (serial_io_close netdev_fwd_enabled x) (fun _ => fits (closed_shape x kx s)).
Proof.
  intros Hs Hx Hk Ht Hlk. unfold serial_io_close. rewrite (proj2 (Z.eqb_neq _ _) Hx).
  destruct (safe_serials s Hs x kx Hk) as (_ & Hb & Hf).
  eapply fit_update_serial; [done|].
  eapply fit_load_serial; [apply lookup_insert_eq|]. cbn [se_thread set_se_running].
  eapply fit_seq.
  { apply (fit_pthread_join _ _ _ (SerialThread x)); [by apply (safe_put_serial x kx)|done|].
    cbn. rewrite lookup_insert_eq. eauto. }
  eapply fit_load_serial; [apply lookup_insert_eq|]. cbn [se_link se_fd set_se_running].
  set (at_ := fun links k => MkShape (sh_held s ∖ {[Thread (se_thread kx)]}) links
    (<[x := k]> (sh_serials s)) (delete (se_thread kx) (sh_threads s)) (sh_io s) (sh_socket s)).
  apply (hoare_at _ (at_ (sh_links s) (set_se_running false kx))); [unfold at_; shape_eq|].
  apply (hoare_bind _ (fun _ p => exists k, fits (at_ (if se_link kx =? 0 then sh_links s
    else alter (set_output None) (se_link kx) (sh_links s)) k) p)).
  - destruct (Z.eqb_spec (se_link kx) 0) as [|Hn]; cbn [negb]; [intros p Hp; by eexists|].
    destruct Hlk as [?|[kl Hkl]]; [done|].
    unfold ppp_link_set_output. rewrite (proj2 (Z.eqb_neq _ _) Hn).
    eapply fit_update_link; [exact Hkl|eauto with own|].
    eapply hoare_weaken; [|done|].
    { apply (fit_update_serial' x (set_se_running false kx)). cbn. apply lookup_insert_eq. }
    intros u q Hq. eexists. eapply fits_eq; [|exact Hq]. unfold at_.
    rewrite (alter_some (set_output None) _ _ kl Hkl). shape_eq.
  - intros _ p [k Hp]. revert p Hp. change (hoare (fits (at_ (if se_link kx =? 0 then sh_links s
      else alter (set_output None) (se_link kx) (sh_links s)) k))
      (os (os_close (se_fd kx));; free_serial x) (fun _ => fits (closed_shape x kx s))).
    eapply (fit_return (Fd (se_fd kx))); [auto with own|set_solver|]. intros _.
    eapply hoare_weaken; cycle 1;
      [intros ? Hq; exact Hq| |apply fit_free_serial; set_solver].
    intros u q Hq. eapply fits_eq; [|exact Hq]. unfold at_, closed_shape. shape_eq.
Qed.
End Life.
