(* ===== verification/ClientBoard.v ===== *)
(** * An executable host for the client program

    [board (wires C)]: the board's descriptors, blocks and threads, with what
    is on the wires: [C] the TCP connection, [wr_rx] what the descriptors have
    to read and [wr_tx] what was written to them, and [wr_schedule] who runs
    at the next preemption points.  Its lwIP brings the link up when it is
    told so on the line and passes packets through. *)

From Stdlib Require Import ZArith Lia.
From Stdlib Require Import Strings.Byte Strings.String.
From stdpp Require Import base tactics list numbers option gmap.
From S2P Require Import Prelude Posix Sockets Keeps RpcTask HostSys ThreadKeeps ClientFacts.

Record wires (C : Type) := MkWires {
  wr_conn : C;
  wr_schedule : list (list turn);
  wr_rx : list (Z * list byte);
  wr_tx : list (Z * list byte)
}.

Arguments MkWires {C} _ _ _ _.
Arguments wr_conn {C} _.
Arguments wr_schedule {C} _.
Arguments wr_rx {C} _.
Arguments wr_tx {C} _.

Section Wires.
Context {C : Type}.
Notation host := (board (wires C)).

#[export] Instance wires_plug : Plug (wires C) := {|
  plug_accept _ w := w;
  plug_idle w := w;
  plug_sent _ := []
|}.

Definition on_conn {A} (f : C -> C * A) (w : wires C) : wires C * A :=
  let '(c, a) := f (wr_conn w) in (MkWires c (wr_schedule w) (wr_rx w) (wr_tx w), a).

#[export] Instance wires_posix `{Posix C} : Posix (wires C) := {|
  sys_read w n := on_conn (fun c => sys_read c n) w;
  sys_write w bs := on_conn (fun c => sys_write c bs) w;
  io_patience w := io_patience (wr_conn w)
|}.

#[export] Instance wires_posix_laws `{Posix C, !PosixLaws C} : PosixLaws (wires C).
Proof. posix_component (@wr_conn C) on_conn. Qed.

(** A resource of the kind [kd] at an address not in use. *)
Definition allot (kd : res_kind) : St host Z := fun b =>
  let n := fresh_fd b in
  (MkBoard (bd_dev b) ({[(kd, n)]} ∪ bd_held b) (bd_next b) (bd_errno b) (bd_script b) (bd_sent b), n).

Definition give_back (r : res) : St host unit := fun b =>
  (MkBoard (bd_dev b) (bd_held b ∖ {[r]}) (bd_next b) (bd_errno b) (bd_script b) (bd_sent b), tt).

Definition next_turns : St host (list turn) := on_dev (fun w =>
  match wr_schedule w with
  | [] => (w, [])
  | us :: s => (MkWires (wr_conn w) s (wr_rx w) (wr_tx w), us)
  end).

(** The oldest bytes for [fd], if any arrived. *)
Definition next_bytes (fd : Z) (n : nat) : St host (sysret (list byte)) := on_dev (fun w =>
  match wr_rx w with
  | (fd', bs) :: rx =>
      if fd' =? fd then (MkWires (wr_conn w) (wr_schedule w) rx (wr_tx w), SysOk (take n bs))
      else (w, SysErr EAGAIN)
  | [] => (w, SysErr EAGAIN)
  end).

Definition put_bytes (fd : Z) (bs : list byte) : St host Z := on_dev (fun w =>
  (MkWires (wr_conn w) (wr_schedule w) (wr_rx w) (wr_tx w ++ [(fd, bs)]), Z.of_nat (List.length bs))).

#[export] Instance wires_host : HostSys host := {|
  os_schedule := next_turns;
  os_open _ _ := scripted open_fd;
  os_close := board_close;
  os_calloc := allot KBlock;
  os_free p := give_back (Block p);
  os_thread_create := allot KThread;
  os_thread_join t := give_back (Thread t);
  os_read := next_bytes;
  os_write := put_bytes;
  os_poll _ _ := mret 1;
  os_select _ := mret 1;
  os_poll_out _ _ := mret 1;
  os_usleep _ := mret tt;
  os_getfl _ := mret 2;
  os_setfl _ _ := mret 0;
  os_so_error _ := mret (Some 0);
  O_NONBLOCK := 2048;
  os_errno := bd_errno;
  os_tunsetiff _ _ := scripted (mret 0);
  os_tunsetnocsum _ := mret 0;
  os_tcgetattr _ := mret (Some (MkTermios 0 0 0 0 0 0));
  os_tcsetattr _ _ := scripted (mret 0);
  os_tiocmget _ := mret (Some 0);
  os_tiocmset _ _ := mret 0;
  cfmakeraw t := t;
  CLOCAL := 2048;
  CREAD := 128;
  CRTSCTS := 2147483648;
  TIOCM_DTR := 2;
  TIOCM_RTS := 4;
  speed_t b := b
|}.

(** On the line ['U'] brings the link up, ['D'] takes it down; anything else
    is an IPv4 packet. *)
Definition line_input (bs : list byte) : list lwip_callback :=
  if bool_decide (bs = [x55]) then [cb_status 0 true]
  else if bool_decide (bs = [x44]) then [cb_status 5 false]
  else [cb_ip4 [take 1500 bs]].

#[export] Instance wires_lwip : Lwip host := {|
  ERR_OK := 0;
  ERR_ARG := -16;
  ERR_ABRT := -13;
  PPPERR_NONE := 0;
  lwip_init_all := mret tt;
  tcpip_init := mret tt;
  sys_sem_new := allot KSem;
  sys_sem_free d := give_back (Sem d);
  tcpip_callback := mret true;
  pppos_create := mret (Some (MkPcbSettings false 6 0 false false 0 false 0 false true true
                                false false false false));
  ppp_listen _ := mret (0, [cb_output [x4c]]);
  ppp_connect _ := mret (0, [cb_output [x43]]);
  ppp_close := mret [cb_output [x54]; cb_status 5 false];
  pppos_input bs := mret (line_input bs);
  pppos_input_tcpip bs := mret (line_input bs);
  sys_check_timeouts := mret [];
  pbuf_alloc _ := mret true;
  netif_output bs := mret [cb_output bs];
  netif_output_ip6 bs := mret [cb_output bs];
  netdev_fwd_on_link_up := mret tt;
  ip4addr_aton _ := Some 0;
  lwip_ip4_input _ := mret 0
|}.

(** ** It keeps the laws *)

Lemma allot_allocates kd : allocates kd (allot kd).
Proof.
  intros R b <-. right. unfold allot. cbn.
  destruct (fresh_above (bd_held b) (Z.max 3 (bd_next b))) as [Hm Hn]. unfold fresh_fd.
  split_and!; [lia| |done]. intros Hin. apply Hn in Hin. cbn in Hin. lia.
Qed.

Lemma give_back_returns r : returns r (give_back r).
Proof. by intros R _ b <-. Qed.

Lemma on_dev_balanced {A} (f : wires C -> wires C * A) : balanced (on_dev f).
Proof. intros R b Hb. by apply on_dev_owns. Qed.

Lemma scripted_balanced (m : St host Z) : balanced m -> balanced (scripted m).
Proof. intros Hm R. apply scripted_hoare; [apply Hm|done]. Qed.

Lemma open_obtains : obtains KFd (scripted (open_fd (C := wires C))).
Proof. intros R. apply scripted_hoare; [apply open_fd_obtains|auto]. Qed.

Lemma board_close_returns fd : returns (Fd fd) (board_close (C := wires C) fd).
Proof. by intros R _ b <-. Qed.

Hint Resolve allot_allocates give_back_returns on_dev_balanced scripted_balanced open_obtains
  board_close_returns : own.

#[export] Instance wires_host_laws : HostLaws host.
Proof.
  split; intros; cbn; unfold next_turns, next_bytes, put_bytes;
    first [solve [auto with own]|apply balanced_borrows; auto with own].
Qed.

#[export] Instance wires_lwip_laws : LwipLaws host.
Proof. split; intros; cbn; auto with own. Qed.

(** Only the calls on the connection use it up. *)
#[export] Instance wires_turn_keeps `{Posix C} n :
  TurnKeeps (E := host) (fun e => (io_patience e <= n)%nat).
Proof.
  split; intros; intros e He; cbn in *; try done.
  all: unfold next_turns, next_bytes, put_bytes, on_dev; repeat case_match; simplify_eq; done.
Qed.

#[export] Instance wires_lwip_fits : LwipFits host.
Proof.
  assert (Hl : forall bs, Forall cb_fits (line_input bs)).
  { intros bs. unfold line_input. assert (Hf : Forall cb_fits [cb_ip4 [take 1500 bs]]).
    { apply Forall_cons. split; [|constructor]. cbn [cb_fits concat]. rewrite app_nil_r, length_take.
      unfold BUF_SIZE. lia. }
    do 2 (case_bool_decide; [by repeat constructor|]). exact Hf. }
  split; intros; cbn; auto; by repeat constructor.
Qed.
End Wires.

#[export] Hint Resolve allot_allocates give_back_returns on_dev_balanced scripted_balanced
  open_obtains board_close_returns : own.
