(* ===== verification/NetdevTheorems.v ===== *)
(** * The TCP forwarder, and packets between lwIP and the TUN device: theorems *)

From Stdlib Require Import ZArith Lia Strings.Byte Strings.String.
From stdpp Require Import base tactics list numbers option gmap.
From S2P Require Import Prelude Posix Sockets Keeps RpcTask HostSys ClientFacts ClientBoard NetdevFwd.
From S2P Require Import NetdevFacts PppLwip.

(** * The TCP forwarder: theorems *)

(** Nothing lwIP's thread is asked to do is refused, and threads start. *)
Class FwdResources (E : Type) `{Lwip E, HostTcp E} : Prop := {
  callback_queued (e : E) : (tcpip_callback e).2 = true;
  thread_starts (e : E) : (ht_pthread_create e).2 = true
}.

(** Runs the assignments of a step. *)
Ltac st_cbn := unfold mbind, St_bind, modify in *; cbn in *.

Section Steps.
Context {E : Type} `{Lwip E, HostTcp E, LwipTcp E, Ledger E}.
Context `{!LwipLaws E, !HostTcpLaws E, !LwipTcpLaws E, !SpliceLog E}.
Implicit Types (f : fwd E) (s : fshape).

Lemma env_last {A} s (m : St E A) : balanced m -> hoare (ffits s) (env m) (fun _ => ffits s).
Proof.
  intros Hm f Hf.
  destruct (env_rule s m (fun _ R => R = fs_held s)) with (s := f) as (R & -> & Hf'); [|done|].
  - intros w Hw. exists (fs_held s). split; [done|]. by apply Hm.
  - by destruct s.
Qed.

Lemma env_last_use {A} r s (m : St E A) :
  borrows r m -> r ∈ fs_held s -> hoare (ffits s) (env m) (fun _ => ffits s).
Proof.
  intros Hm Hr f Hf.
  destruct (env_rule s m (fun _ R => R = fs_held s)) with (s := f) as (R & -> & Hf'); [|done|].
  - intros w Hw. exists (fs_held s). split; [done|]. by apply Hm.
  - by destruct s.
Qed.

Lemma env_known {A B} s (m : St E A) v (k : A -> St (fwd E) B) Q :
  balanced m -> (forall e, (m e).2 = v) -> hoare (ffits s) (k v) Q ->
  hoare (ffits s) (env m ≫= k) Q.
Proof.
  intros Hm Hv Hk f Hf. pose proof (env_last s m Hm f Hf) as Hf'. specialize (Hv (fw_env f)).
  unfold mbind, St_bind, env in *. destruct (m (fw_env f)) as [e a]. cbn in Hv, Hf'. subst a.
  by apply Hk.
Qed.

Lemma pump_at_fits s c pc : hoare (ffits s) (pump_at (E := E) c pc) (fun _ => ffits (fpump c pc s)).
Proof. intros f [? ? Hp ? ? ?]. split; try done. cbn. by rewrite Hp. Qed.

Lemma connect_first_fits s ais :
  hoare (ffits s) (connect_first ais) (fun n f => (n < 0 /\ ffits s f) \/
    (0 <= n /\ Fd n ∉ fs_held s /\ ffits (fholds ({[Fd n]} ∪ fs_held s) s) f)).
Proof.
  induction ais as [|ai ais IH]; cbn [connect_first]; [by intros f Hf; left|].
  eapply env_obtain; [auto with own| |]; intros fd Hfd.
  - by rewrite (proj2 (Z.ltb_lt _ _) Hfd).
  - intros Hf. rewrite (proj2 (Z.ltb_ge _ _) Hfd).
    eapply (env_use (Fd fd)); [auto with own|set_solver|]. intros r.
    destruct (r =? 0); [intros f Hff; right; by split_and!|].
    eapply (env_return (Fd fd)); [auto with own|set_solver|]. intros _.
    apply (fits_at _ s); [|exact IH]. destruct s. unfold fholds. cbn in *. f_equal. set_solver.
Qed.

Lemma connect_host_fits s :
  hoare (ffits s) linux_connect_host (fun n f => (n < 0 /\ ffits s f) \/
    (0 <= n /\ Fd n ∉ fs_held s /\ ffits (fholds ({[Fd n]} ∪ fs_held s) s) f)).
Proof.
  unfold linux_connect_host. apply fget_rule. intros f1 _. apply fget_rule. intros f2 _.
  apply env_step; [auto with own|]. intros [ais|]; [apply connect_first_fits|].
  by intros f Hf; left.
Qed.

(** ** The callbacks *)

Context (R : gset res).

Lemma recv_good s pcb a k p err :
  fwd_good R s -> fs_args s !! pcb = Some a -> fs_conns s !! a = Some k ->
  hoare (ffits s) (netdev_recv a pcb p err) (fun _ => good R).
Proof.
  intros Hs Ha Hk. destruct (ok_conns s Hs a k Hk) as (Hn & _ & Hfd & Hin).
  assert (Hd : fwd_good R (fput a (set_dead k) s)) by (by apply (good_put R s a k)).
  unfold netdev_recv. rewrite (proj2 (Z.eqb_neq _ _) Hn).
  destruct (negb (err =? ERR_OK)); [intros f Hf; by exists s|].
  destruct p as [p|].
  - intros f Hf. rewrite St_seq.
    destruct (write_pbufs_sends a k s p f Hk Hfd Hin Hf) as (_ & n & _ & [[_ Hf']|Hf']);
      [set (s' := s) in *|set (s' := fput a (set_dead k) s) in *].
    all: exists s'; split; [done|];
      apply (env_step s' (tcp_recved pcb (Z.of_nat (List.length (concat p)))) (fun _ => mret ERR_OK)
        (fun _ => ffits s')); [auto with own|by intros _ q Hq|done].
  - eapply fupdate_rule; [exact Hk|]. eapply fload_rule; [apply lookup_insert_eq|]. cbn.
    rewrite (proj2 (Z.leb_le _ _) Hfd).
    eapply (env_use (Fd (nc_host_fd k))); [auto with own|done|]. intros _ f Hf. by eexists.
Qed.

(** [err]: lwIP has forgotten the pcb's argument before it calls. *)
Lemma err_fits s pcb a k :
  fwd_good R s -> fs_conns s !! a = Some k ->
  hoare (ffits s) (modify (fun f => set_args (delete pcb (fw_args f)) f);; netdev_err a)
    (fun _ => ffits (fgone pcb a k s)).
Proof.
  intros Hs Hk. destruct (ok_conns s Hs a k Hk) as (Hn & _ & Hfd & Hin).
  eapply (fmodify_rule _ (MkFshape (fs_held s) (fs_conns s) (fs_pumps s)
    (delete pcb (fs_args s)) (fs_queue s))).
  { intros f []. split; try done. cbn. congruence. }
  unfold netdev_err. rewrite (proj2 (Z.eqb_neq _ _) Hn).
  eapply fupdate_rule; [exact Hk|]. eapply fload_rule; [apply lookup_insert_eq|]. cbn [nc_host_fd set_dead set_pcb_null].
  rewrite (proj2 (Z.leb_le _ _) Hfd).
  apply (env_last_use (Fd (nc_host_fd k)) (fgone pcb a k s)); [auto with own|exact Hin].
Qed.

(** ** The thread *)

Context `{!FwdResources E}.

Lemma hand_over_fits s c k :
  fs_conns s !! c = Some k ->
  hoare (ffits s) (pump_hand_over c k) (fun _ f => exists k',
    ffits (MkFshape (fs_held s) (<[c := k']> (fs_conns s)) (fs_pumps s) (fs_args s)
      (fs_queue s ++ if nc_pcb k =? 0 then [] else [close_pcb_work (nc_pcb k)])) f).
Proof.
  intros Hk. unfold pump_hand_over. destruct (nc_pcb k =? 0); cbn [negb].
  - intros f Hf. exists k. rewrite app_nil_r, insert_id by done. by destruct s.
  - eapply fupdate_rule; [exact Hk|].
    apply (env_known _ _ true); [auto with own|apply callback_queued|].
    intros f [? ? ? ? Hq ?]. exists (set_pcb_null k). split; try done. cbn. by rewrite Hq.
Qed.

Lemma pump_free_fits s c k fd :
  fs_conns s !! c = Some k -> 0 <= fd -> Fd fd ∈ fs_held s -> Block c ∈ fs_held s ->
  hoare (ffits s) (pump_free c fd) (fun _ =>
    ffits (MkFshape (fs_held s ∖ {[Fd fd]} ∖ {[Block c]}) (delete c (fs_conns s))
      (delete c (fs_pumps s)) (fs_args s) (fs_queue s))).
Proof.
  intros Hk Hfd Hin Hb. unfold pump_free. rewrite (proj2 (Z.leb_le _ _) Hfd).
  apply (hoare_bind _ (fun _ => ffits (fput c (MkConn (nc_pcb k) (-1) (nc_alive k))
    (fholds (fs_held s ∖ {[Fd fd]}) s)))).
  { eapply (env_return (Fd fd)); [auto with own|done|]. intros _.
    exact (fupdate_end c k (fholds (fs_held s ∖ {[Fd fd]}) s)
      (fun k => MkConn (nc_pcb k) (-1) (nc_alive k)) Hk). }
  intros _. eapply (env_return (Block c)); [auto with own|set_solver|]. intros _ f [? Hc Hp ? ? ?].
  unfold free_conn. st_cbn.
  split; try done; cbn; [|by rewrite Hp]. by rewrite Hc, delete_insert_eq.
Qed.

Lemma pump_exit_fits s c k :
  fwd_good R s -> fs_conns s !! c = Some k -> hoare (ffits s) (pump_exit c) (fun _ => ffits (fdone c k s)).
Proof.
  intros Hs Hk. destruct (ok_conns s Hs c k Hk) as (Hn & Hb & Hfd & Hin).
  unfold pump_exit.
  eapply fupdate_rule; [exact Hk|]. eapply fload_rule; [apply lookup_insert_eq|].
  eapply hoare_bind; [apply hand_over_fits, lookup_insert_eq|]. cbn [fput fs_held fs_conns fs_pumps fs_args fs_queue nc_pcb nc_host_fd set_dead].
  intros u f [k' Hf]. rewrite insert_insert_eq in Hf.
  match type of Hf with ffits ?s1 f =>
    pose proof (pump_free_fits s1 c k' (nc_host_fd k) (lookup_insert_eq _ _ _) Hfd Hin Hb f Hf) as Hd
  end. cbn in Hd. by rewrite delete_insert_eq in Hd.
Qed.

Lemma pump_exit_good s c k pc :
  fwd_good R s -> fs_conns s !! c = Some k -> fs_pumps s !! c = Some pc -> pump_sem pc = None ->
  hoare (ffits s) (pump_exit c) (fun _ => good R).
Proof.
  intros Hs Hk Hpc Hw f Hf. exists (fdone c k s). split; [by apply (good_done R s c k pc)|by apply pump_exit_fits].
Qed.

(** A thread that is not waiting goes on without its semaphore. *)
Lemma pump_at_good s c pc pc' :
  fwd_good R s -> fs_pumps s !! c = Some pc -> (forall d r, pc <> PumpWait d r) -> pump_sem pc' = None ->
  hoare (ffits (fholds (fs_held s ∖ sem_set pc) s)) (pump_at c pc') (fun _ => good R).
Proof.
  intros Hs Hpc Hw Hpc' f Hf. eexists. split; [by apply (good_moved R s c pc)|by apply pump_at_fits].
Qed.

Lemma pump_result_good s c pc rest e :
  fwd_good R s -> fs_pumps s !! c = Some pc -> (forall d r, pc <> PumpWait d r) ->
  hoare (ffits (fholds (fs_held s ∖ sem_set pc) s)) (pump_result c rest e) (fun _ => good R).
Proof.
  intros Hs Hpc Hw. unfold pump_result. destruct (e =? ERR_MEM).
  { apply env_step; [auto with own|]. intros _. by apply (pump_at_good s c pc). }
  destruct (negb (e =? ERR_OK)); [|by apply (pump_at_good s c pc)].
  destruct (proj1 (ok_pumps s Hs c) (ex_intro _ pc Hpc)) as [k Hk].
  eapply fupdate_rule; [exact Hk|].
  apply (pump_at_good (fput c (set_dead k) s) c pc); try done. by apply (good_put R s c k).
Qed.

(** A thread without a semaphore keeps what it holds. *)
Lemma no_sem s pc : pump_sem pc = None -> s = fholds (fs_held s ∖ sem_set pc) s.
Proof. intros Hn. unfold sem_set. rewrite Hn, difference_empty_L. by destruct s. Qed.

Lemma write_sync_good s c k rest :
  fwd_good R s -> fs_conns s !! c = Some k -> nc_pcb k <> 0 -> fs_pumps s !! c = Some (PumpWrite rest) ->
  hoare (ffits s) (tcp_write_sync c (nc_pcb k) rest) (fun _ => good R).
Proof.
  intros Hs Hk Hn Hpc. unfold tcp_write_sync. eapply env_alloc; [auto with own| |].
  - cbn. rewrite (no_sem s (PumpWrite rest)) at 1 by done. by apply (pump_result_good s c (PumpWrite rest)).
  - intros d Hd Hfd. rewrite (proj2 (Z.eqb_neq _ _) Hd).
    apply (env_known _ _ true); [auto with own|apply callback_queued|]. cbn [negb].
    eapply (fmodify_rule _ (fqueue (fs_queue s ++ [do_tcp_write_work c (nc_pcb k) rest])
      (fholds ({[Sem d]} ∪ fs_held s) s))).
    { intros f [? ? ? ? Hq ?]. split; try done. cbn. by rewrite Hq. }
    intros f Hf. eexists. split; [by apply (good_queued R s c k rest d)|by apply pump_at_fits].
Qed.

Lemma thread_good s c pc :
  fwd_good R s -> fs_pumps s !! c = Some pc -> hoare (ffits s) (host_to_pcb_thread c pc) (fun _ => good R).
Proof.
  intros Hs Hpc. destruct (proj1 (ok_pumps s Hs c) (ex_intro _ pc Hpc)) as [k Hk].
  destruct (ok_conns s Hs c k Hk) as (Hn & Hb & Hfd & Hin).
  assert (Hsame : hoare (ffits s) (mret tt) (fun _ => good R)) by (intros f Hf; by exists s).
  assert (Hat : forall pc', pump_sem pc = None -> pump_sem pc' = None ->
    hoare (ffits s) (pump_at c pc') (fun _ => good R)).
  { intros pc' Hn1 Hn2. rewrite (no_sem s pc) at 1 by done. apply (pump_at_good s c pc); try done.
    by intros d r ->. }
  unfold host_to_pcb_thread. eapply fload_rule; [exact Hk|]. destruct pc as [|rest|d rest|d e rest].
  - destruct (_ && _); [|by apply (pump_exit_good s c k PumpRead)].
    eapply (env_use (Fd (nc_host_fd k))); [auto with own|done|].
    intros [[|b buf]|e]; [by apply (pump_exit_good s c k PumpRead)|by apply Hat|].
    destruct (e =? EINTR); [done|by apply (pump_exit_good s c k PumpRead)].
  - destruct (_ && _) eqn:Hgo; [|by apply Hat]. apply andb_true_iff in Hgo as [_ Hp].
    apply negb_true_iff, Z.eqb_neq in Hp. by apply write_sync_good.
  - exact Hsame.
  - eapply (env_return (Sem d)); [auto with own|by apply (ok_sems s Hs c (PumpWritten d e rest))|]. intros _.
    by apply (pump_result_good s c (PumpWritten d e rest)).
Qed.

(** ** Accepting, listening, closing *)

Lemma abort_good s pcb :
  fwd_good R s -> fs_args s !! pcb = None -> hoare (ffits s) (tcp_abort pcb) (fun _ => good R).
Proof.
  intros Hs Ha. unfold tcp_abort. apply fget_rule. intros f0 Hf0. rewrite (ff_args _ _ Hf0), Ha.
  apply env_step; [auto with own|]. intros _ f [? ? ? Hargs ? ?]. exists s. split; [done|].
  st_cbn. split; try done. cbn. by rewrite Hargs, delete_id.
Qed.

Lemma splice_good s pcb fd :
  fwd_good R s -> fs_args s !! pcb = None -> pcb <> 0 -> 0 <= fd -> Fd fd ∉ fs_held s ->
  hoare (ffits (fholds ({[Fd fd]} ∪ fs_held s) s)) (splice pcb fd) (fun _ => good R).
Proof.
  intros Hs Ha Hpcb Hfd Hnew. unfold splice. eapply env_alloc; [auto with own| |].
  - cbn. eapply (env_return (Fd fd)); [auto with own|set_solver|]. intros _.
    eapply hoare_bind; [|intros u f Hf; exact Hf].
    apply (fits_at _ s); [|by apply abort_good]. destruct s. unfold fholds. cbn in *. f_equal. set_solver.
  - intros c Hc Hfc. rewrite (proj2 (Z.eqb_neq _ _) Hc).
    assert (Hb : Block c ∉ fs_held s) by (cbn in Hfc; set_solver).
    pose proof (good_accepted R s pcb c fd Hs Ha Hpcb Hc Hfd Hnew Hb) as Hok.
    eapply (fmodify_rule _ (MkFshape ({[Block c]} ∪ ({[Fd fd]} ∪ fs_held s))
      (<[c := MkConn pcb fd true]> (fs_conns s)) (fs_pumps s) (fs_args s) (fs_queue s))).
    { intros f [? Hcs ? ? ? ?]. split; try done. cbn. by rewrite Hcs. }
    eapply (fmodify_rule _ (MkFshape ({[Block c]} ∪ ({[Fd fd]} ∪ fs_held s))
      (<[c := MkConn pcb fd true]> (fs_conns s)) (fs_pumps s) (<[pcb := c]> (fs_args s)) (fs_queue s))).
    { intros f [? ? ? Has ? ?]. split; try done. cbn. by rewrite Has. }
    apply env_step; [auto with own|]. intros _.
    apply (env_known _ _ true); [auto with own|apply thread_starts|]. cbn [negb].
    intros f [? ? Hp ? ? ?]. exists (faccepted pcb c fd s). split; [done|].
    unfold pump_at. st_cbn. split; try done. cbn. by rewrite Hp.
Qed.

Lemma accept_good s pcb err :
  fwd_good R s -> fs_args s !! pcb = None -> hoare (ffits s) (netdev_accept pcb err) (fun _ => good R).
Proof.
  intros Hs Ha. unfold netdev_accept.
  destruct (Z.eqb_spec pcb 0) as [|Hpcb]; [rewrite orb_true_r; intros f Hf; by exists s|].
  destruct (err =? ERR_OK); cbn [negb orb]; [|intros f Hf; by exists s].
  eapply hoare_bind; [apply connect_host_fits|]. cbn beta.
  intros fd f [[Hfd Hf]|(Hfd & Hnew & Hf)].
  - rewrite (proj2 (Z.ltb_lt _ _) Hfd).
    refine (hoare_bind (ffits s) (fun _ => good R) (fun _ => good R) (tcp_abort pcb) (fun _ => mret ERR_ABRT)
      (abort_good s pcb Hs Ha) _ f Hf). by intros u q Hq.
  - rewrite (proj2 (Z.ltb_ge _ _) Hfd). by apply (splice_good s pcb fd).
Qed.

Lemma listen_good s : fwd_good R s -> hoare (ffits s) netdev_start_listen (fun _ => good R).
Proof.
  intros Hs. assert (Hsame : hoare (ffits s) (mret tt) (fun _ => good R)) by (intros f Hf; by exists s).
  assert (Hlast : forall p, hoare (ffits s) (env (tcp_close p)) (fun _ => good R)).
  { intros p f Hf. exists s. split; [done|]. by apply (env_last s); [auto with own|]. }
  unfold netdev_start_listen. apply fget_rule. intros f0 _. destruct (_ || _); [done|].
  apply env_step; [auto with own|]. intros pcb. destruct (pcb =? 0); [done|].
  apply env_step; [auto with own|]. intros e. destruct (negb _); [apply Hlast|].
  apply env_step; [auto with own|]. intros l. destruct (l =? 0); [apply Hlast|].
  intros f []. exists s. split; [done|]. by split.
Qed.

Lemma link_up_good s : fwd_good R s -> hoare (ffits s) netdev_fwd_on_link_up (fun _ => good R).
Proof.
  intros Hs. unfold netdev_fwd_on_link_up. apply fget_rule. intros f0 _.
  destruct (_ || _); [intros f Hf; by exists s|].
  apply (env_known _ _ true); [auto with own|apply callback_queued|].
  intros f [? ? ? ? Hq ?]. eexists. split; [by apply good_listen|].
  split; try done. cbn. by rewrite Hq.
Qed.

(** ** Steps *)

(** What lwIP can do next: a new connection's pcb is none of the forwarder's;
    no data arrives for a pcb whose close is still queued, and no error for one
    that any queued callback is about. *)
Definition admissible (ev : fwd_event) f : Prop :=
  match ev with
  | FwdAccept pcb _ => fw_args f !! pcb = None
  | FwdRecv pcb _ _ => close_pcb_work pcb ∉ fw_queue f
  | FwdErr pcb => pcb ∉ omap target (fw_queue f)
  | _ => True
  end.

Lemma St_ignore {A} (m : St (fwd E) A) f : ((m;; mret tt) f).1 = (m f).1.
Proof. unfold mbind, St_bind. by destruct (m f). Qed.

(** Where the argument of a pcb leads. *)
Lemma live_conn s pcb a :
  fwd_good R s -> fs_args s !! pcb = Some a -> close_pcb_work pcb ∉ fs_queue s ->
  exists k, fs_conns s !! a = Some k /\ nc_pcb k = pcb.
Proof. intros Hs Ha Hq. by destruct (ok_args s Hs pcb a Ha) as [_ [?|?]]. Qed.

Lemma touch_rule s pcb : is_Some (fs_args s !! pcb) -> hoare (ffits s) (touch_pcb (E := E) pcb) (fun _ => ffits s).
Proof. intros [a Ha] f Hf. cbn. by rewrite (ff_args _ _ Hf), Ha. Qed.

(** lwIP's thread takes the callback [w] from the queue. *)
Lemma work_good s w q :
  fwd_good R s -> fs_queue s = w :: q ->
  hoare (ffits (fqueue q s))
    (match w with
     | netdev_start_listen_work => netdev_start_listen
     | do_tcp_write_work c pcb data => do_tcp_write c pcb data
     | close_pcb_work pcb => close_pcb_cb pcb
     end) (fun _ => good R).
Proof.
  intros Hs Hq. assert (Hin : w ∈ fs_queue s) by (rewrite Hq; apply list_elem_of_here).
  pose proof (ok_work s Hs w Hin) as Ho. destruct w as [|c pcb data|pcb].
  - apply (listen_good (fqueue q s)). by apply good_listened.
  - destruct Ho as ((k & Hk & <-) & Hn & d & Hd). pose proof (ok_back s Hs c k Hk Hn) as Hb.
    unfold do_tcp_write. eapply hoare_seq; [apply (touch_rule (fqueue q s)); eauto|].
    apply env_step; [auto with own|]. intros err.
    apply (hoare_seq _ (ffits (fqueue q s))).
    { destruct (err =? ERR_OK); [apply env_last; auto with own|by intros f Hf]. }
    apply fget_rule. intros f Hf. rewrite (ff_pumps _ _ Hf). cbn. rewrite Hd.
    intros f' Hf'. eexists. split; [by eapply (good_written R s c (nc_pcb k) data q err d)|by apply pump_at_fits].
  - destruct Ho as [Ha Hno]. unfold close_pcb_cb.
    eapply hoare_seq; [by apply (touch_rule (fqueue q s))|].
    eapply (fmodify_rule _ (MkFshape (fs_held s) (fs_conns s) (fs_pumps s) (delete pcb (fs_args s)) q)).
    { intros f [? ? ? Hargs ? ?]. split; try done. cbn. by rewrite Hargs. }
    intros f Hf. eexists. split; [by apply good_closed|]. by apply env_last; [auto with own|].
Qed.

Lemma step_good ev f : good R f -> admissible ev f -> good R (fwd_step ev f).1.
Proof.
  intros (s & Hs & Hf) Ha. unfold fwd_step. rewrite St_gets.
  pose proof (ff_args _ _ Hf) as Hargs. pose proof (ff_queue _ _ Hf) as Hq.
  destruct ev as [|pcb err|pcb p err|pcb|c|]; cbn [admissible] in Ha.
  - by apply (link_up_good s).
  - rewrite Hargs in Ha. rewrite St_ignore. by apply (accept_good s pcb err).
  - destruct (fw_args f !! pcb) as [a|] eqn:Ea; [|by exists s].
    rewrite Hargs in Ea. rewrite Hq in Ha.
    destruct (live_conn s pcb a Hs Ea Ha) as (k & Hk & Hp). rewrite St_ignore.
    by apply (recv_good s pcb a k p err).
  - destruct (fw_args f !! pcb) as [a|] eqn:Ea; [|by exists s]. rewrite Hargs in Ea. rewrite Hq in Ha.
    destruct (live_conn s pcb a Hs Ea) as (k & Hk & Hp).
    { intros Hin. apply Ha, list_elem_of_omap. by eexists. }
    exists (fgone pcb a k s). split; [by apply good_gone|by apply err_fits].
  - destruct (fw_pumps f !! c) as [pc|] eqn:Ec; [|by exists s].
    rewrite (ff_pumps _ _ Hf) in Ec. by apply (thread_good s c pc).
  - destruct (fw_queue f) as [|w q] eqn:Eq; [by exists s|]. rewrite St_seq.
    apply (work_good s w q); [done|congruence|]. destruct Hf. by split.
Qed.

(** The forwarder after the events [evs], all of them admissible. *)
Inductive runs_to : fwd E -> list fwd_event -> fwd E -> Prop :=
  | runs_nil f : runs_to f [] f
  | runs_cons f ev evs f' :
      admissible ev f -> runs_to (fwd_step ev f).1 evs f' -> runs_to f (ev :: evs) f'.

Lemma runs_good f evs f' : runs_to f evs f' -> good R f -> good R f'.
Proof. induction 1; [done|]. intros Hg. apply IHruns_to. by apply step_good. Qed.

(** ** A freed connection *)

Lemma write_pbuf_gone fuel c data f :
  fw_conns f !! c = None ->
  (write_pbuf fuel c data f).1 = if decide (data = []) then f else set_fault f.
Proof.
  intros Hc. destruct data as [|b data]; [by destruct fuel|].
  destruct fuel; cbn [write_pbuf]; unfold mbind, St_bind, load_conn; by rewrite Hc.
Qed.

Lemma write_pbufs_gone c p f :
  fw_conns f !! c = None ->
  (write_pbufs c p f).1 = if decide (concat p = []) then f else set_fault f.
Proof.
  revert f. induction p as [|data p IH]; intros f Hc; [done|].
  unfold write_pbufs in *. cbn [for_each concat]. rewrite St_seq, St_gets.
  rewrite write_pbuf_gone by done. destruct data as [|b data]; cbn [decide app]; [by apply IH|].
  rewrite IH by done. by repeat case_decide.
Qed.

Lemma recv_gone c pcb p f :
  fw_conns f !! c = None -> c <> 0 -> (forall q, p = Some q -> concat q <> []) ->
  fw_fault (netdev_recv c pcb p ERR_OK f).1 = true.
Proof.
  intros Hc Hn Hp. unfold netdev_recv. rewrite (proj2 (Z.eqb_neq _ _) Hn). rewrite Z.eqb_refl. cbn [negb].
  destruct p as [p|].
  - rewrite St_seq, write_pbufs_gone by done. rewrite decide_False by by apply Hp.
    unfold mbind, St_bind, env. by destruct (tcp_recved _ _ _).
  - unfold update_conn, load_conn, modify, mbind, St_bind. rewrite Hc. cbn.
    by rewrite lookup_alter_eq, Hc.
Qed.

Lemma err_gone pcb c f :
  fw_conns f !! c = None -> c <> 0 ->
  fw_fault ((modify (fun f => set_args (delete pcb (fw_args f)) f);; netdev_err c) f).1 = true.
Proof.
  intros Hc Hn. unfold netdev_err. rewrite (proj2 (Z.eqb_neq _ _) Hn).
  unfold update_conn, load_conn, modify, mbind, St_bind. cbn. rewrite Hc. cbn.
  by rewrite lookup_alter_eq, Hc.
Qed.

Lemma write_to_freed c pcb data f :
  fw_args f !! pcb = None -> fw_fault (do_tcp_write c pcb data f).1 = true.
Proof.
  intros Ha. unfold do_tcp_write, touch_pcb, pump_at, modify, gets, mbind, St_bind, env. rewrite Ha.
  cbn. destruct (tcp_write pcb data (fw_env f)) as [e err].
  destruct (err =? ERR_OK); cbn; [destruct (tcp_output pcb e) as [e' u]; cbn|];
    destruct (fw_pumps f !! c) as [[]|]; done.
Qed.

(** ** Theorems *)

(** A forwarder without connections. *)
Definition fwd_start f : Prop :=
  held (fw_env f) = R /\ fw_conns f = ∅ /\ fw_pumps f = ∅ /\ fw_args f = ∅ /\ fw_queue f = [] /\
  fw_fault f = false.

Lemma start_good f : fwd_start f -> good R f.
Proof.
  intros (HR & Hc & Hp & Ha & Hq & Hf). exists (MkFshape R ∅ ∅ ∅ []). split; [split|by split].
  - split; cbn; try done; [|by intros w ?%not_elem_of_nil|apply NoDup_nil_2].
    intros c. split; intros [? ?]; done.
  - assert (Ho : forall c r, ~ owned_at (MkFshape R ∅ ∅ ∅ []) c r).
    { intros c r [(? & [=] & _)|(? & ? & [=] & _)]. }
    split; cbn; [|by intros]. intros r. split; [by left|]. intros [|[c Hr]]; [done|by apply Ho in Hr].
Qed.



(** C31: what [admissible] excludes goes wrong.  A thread that ends frees its
    connection and leaves the closing of the pcb to lwIP's thread; until then
    the pcb's callbacks keep the connection as their argument, and data, the
    end of the stream or an error reaches freed memory.  A thread that writes
    leaves that to lwIP's thread too; when the pcb fails before, lwIP's thread
    writes to the freed pcb. *)
Theorem freed_connection_reached f c k :
  good R f -> fw_conns f !! c = Some k -> fw_args f !! nc_pcb k = Some c ->
  let ended := (pump_exit c f).1 in
  (fw_fault ended = false /\ fw_conns ended !! c = None /\
   (close_pcb_work (nc_pcb k) ∈ fw_queue ended) /\
   (forall p, (forall q, p = Some q -> concat q <> []) ->
      fw_fault (fwd_step (FwdRecv (nc_pcb k) p ERR_OK) ended).1 = true) /\
   fw_fault (fwd_step (FwdErr (nc_pcb k)) ended).1 = true) /\
  (forall data q, fw_queue f = do_tcp_write_work c (nc_pcb k) data :: q ->
     let failed := (fwd_step (FwdErr (nc_pcb k)) f).1 in
     fw_fault failed = false /\ fw_fault (fwd_step FwdWork failed).1 = true).
Proof.
  intros (s & Hs & Hf) Hk Ha ended.
  assert (Hk' := Hk). rewrite (ff_conns _ _ Hf) in Hk'. assert (Ha' := Ha). rewrite (ff_args _ _ Hf) in Ha'.
  destruct (ok_conns s Hs c k Hk') as (Hn & _). destruct (ok_args s Hs _ _ Ha') as [Hpcb _].
  split.
  - pose proof (pump_exit_fits s c k Hs Hk' f Hf) as [_ Hc _ Hargs Hq Hfa]. fold ended in Hc, Hargs, Hq, Hfa.
    cbn in Hc, Hargs, Hq. rewrite (proj2 (Z.eqb_neq _ _) Hpcb) in Hq.
    assert (Hgone : fw_conns ended !! c = None) by (rewrite Hc; apply lookup_delete_eq).
    split_and!; [done|done|rewrite Hq; set_solver|intros p Hp|]; unfold fwd_step; rewrite St_gets, Hargs, Ha'.
    + rewrite St_ignore. by apply recv_gone.
    + by apply err_gone.
  - intros data q Hq failed.
    assert (Hfit : ffits (fgone (nc_pcb k) c k s) failed).
    { unfold failed, fwd_step. rewrite St_gets, Ha. by apply err_fits. }
    split; [apply Hfit|]. rewrite (ff_queue _ _ Hf) in Hq.
    unfold fwd_step. rewrite St_gets, (ff_queue _ _ Hfit). cbn. rewrite Hq, St_seq.
    apply write_to_freed. cbn. rewrite (ff_args _ _ Hfit). apply lookup_delete_eq.
Qed.
End Steps.

(** ** An executable host *)

Notation host := (board (wires socket)).

(** What [fd] was given, among all that was written. *)
Definition sent_on (fd : Z) (tx : list (Z * list byte)) : list byte :=
  concat (map (fun x => if x.1 =? fd then x.2 else []) tx).

#[export] Instance wires_host_tcp : HostTcp host := {|
  addrinfo := unit;
  ht_getaddrinfo _ _ := mret (Some [tt]);
  ht_socket _ := scripted open_fd;
  ht_connect _ _ := scripted (mret 0);
  ht_close fd := board_close fd;; mret tt;
  ht_shutdown _ _ := mret tt;
  ht_read := next_bytes;
  ht_write fd bs := put_bytes fd bs;; mret (SysOk (List.length bs));
  ht_usleep _ := mret tt;
  ht_calloc := allot KBlock;
  ht_free p := give_back (Block p);
  ht_pthread_create := mret true;
  ht_patience _ := 0%nat
|}.

#[export] Instance wires_lwip_tcp : LwipTcp host := {|
  ERR_VAL := -6;
  ERR_MEM := -1;
  tcp_write _ _ := mret 0;
  tcp_output _ := mret tt;
  tcp_recved _ _ := mret tt;
  tcp_close _ := mret tt;
  tcp_abort_pcb _ := mret tt;
  tcp_nagle_disable _ := mret tt;
  tcp_new_ip4 := mret 30;
  tcp_bind_any _ _ := mret 0;
  tcp_listen p := mret p
|}.

#[export] Instance wires_splice_log : SpliceLog host.
Proof.
  refine {| ht_sent e fd := sent_on fd (wr_tx (bd_dev e)) |}.
  - intros fd bs e e' n [= <- <-]. unfold sent_on. cbn. rewrite map_app, concat_app. cbn.
    by rewrite Z.eqb_refl, app_nil_r, firstn_all.
  - intros fd bs e e' x Hw. discriminate Hw.
Defined.

#[export] Instance wires_host_tcp_laws : HostTcpLaws host.
Proof.
  split; intros; cbn; try (apply balanced_borrows); try solve [auto with own].
  - apply on_dev_balanced.
  - apply balanced_bind; [apply on_dev_balanced|auto with own].
  - match goal with H : _ = (_, SysOk _) |- _ => injection H as _ <- end. done.
  - match goal with H : _ = (_, SysOk _) |- _ => injection H as _ Hn end. by destruct bs.
  - match goal with H : _ = (_, SysErr _) |- _ => discriminate H end.
Qed.

#[export] Instance wires_lwip_tcp_laws : LwipTcpLaws host.
Proof. split; intros; cbn; auto with own. Qed.

#[export] Instance wires_fwd_resources : FwdResources host.
Proof. by split. Qed.

(** A forwarder to port 80 whose host will send ["A"], then end the stream. *)
Definition fresh_fwd : fwd host :=
  MkFwd "127.0.0.1" 80 true true ∅ ∅ ∅ [] false
    (MkBoard (MkWires (MkSocket [] [] []) [] [(3, [x41]); (3, [])] []) {[Fd 2]} 3 0 [] []).

Definition run_fwd (evs : list fwd_event) (f : fwd host) : fwd host :=
  foldl (fun f ev => (fwd_step ev f).1) f evs.

(** A connection is accepted, data passes either way, the host ends it, and
    lwIP's thread closes the pcb. *)
Definition one_connection : list fwd_event :=
  [FwdAccept 20 0; FwdRecv 20 (Some [[x42]; [x43; x44]]) 0; FwdPump 4; FwdPump 4; FwdPump 4; FwdWork;
   FwdPump 4; FwdPump 4; FwdPump 4; FwdWork].

Example one_connection_ends :
  let f := run_fwd one_connection fresh_fwd in
  fw_fault f = false /\ fw_args f = ∅ /\ fw_conns f = ∅ /\ elements (held (fw_env f)) = [Fd 2] /\
  sent_on 3 (wr_tx (bd_dev (fw_env f))) = [x42; x43; x44].
Proof. vm_compute. by split_and!. Qed.

(** A host where no thread can be started. *)
Definition threadless : HostTcp host := {|
  addrinfo := unit;
  ht_getaddrinfo _ _ := mret (Some [tt]);
  ht_socket _ := scripted open_fd;
  ht_connect _ _ := scripted (mret 0);
  ht_close fd := board_close fd;; mret tt;
  ht_shutdown _ _ := mret tt;
  ht_read := next_bytes;
  ht_write fd bs := put_bytes fd bs;; mret (SysOk (List.length bs));
  ht_usleep _ := mret tt;
  ht_calloc := allot KBlock;
  ht_free p := give_back (Block p);
  ht_pthread_create := mret false;
  ht_patience _ := 0%nat
|}.

(** Without a thread the connection is freed before [tcp_abort] makes the
    [err] callback with it. *)
Example accept_without_thread :
  fw_fault (@netdev_accept host _ threadless _ 20 0 fresh_fwd).1 = true.
Proof. vm_compute. reflexivity. Qed.

Lemma fresh_fwd_starts : fwd_start {[Fd 2]} fresh_fwd.
Proof. by split_and!. Qed.

Lemma accepted_good : good {[Fd 2]} (run_fwd [FwdAccept 20 0] fresh_fwd).
Proof. apply (step_good {[Fd 2]}); [|done]. apply start_good, fresh_fwd_starts. Qed.


(** The forwarder when a write of ["A"] is queued. *)
Definition write_queued : fwd host := run_fwd [FwdAccept 20 0; FwdPump 4; FwdPump 4] fresh_fwd.

Lemma write_queued_good : good {[Fd 2]} write_queued.
Proof.
  apply (runs_good {[Fd 2]} fresh_fwd [FwdAccept 20 0; FwdPump 4; FwdPump 4]);
    [|apply start_good, fresh_fwd_starts].
  unfold write_queued, run_fwd. cbn [foldl].
  repeat (apply runs_cons; [done|]). apply runs_nil.
Qed.

Lemma freed_connection_reached_witness :
  fw_fault (fwd_step (FwdRecv 20 None (ERR_OK (E := host))) (pump_exit 4 write_queued).1).1 = true /\
  fw_fault (fwd_step FwdWork (fwd_step (FwdErr 20) write_queued).1).1 = true.
Proof.
  assert (Hk : fw_conns write_queued !! 4 = Some (MkConn 20 3 true)) by (vm_compute; reflexivity).
  assert (Ha : fw_args write_queued !! 20 = Some 4) by (vm_compute; reflexivity).
  destruct (freed_connection_reached {[Fd 2]} write_queued 4 _ write_queued_good Hk Ha)
    as ((_ & _ & _ & Hr & _) & Hw).
  split.
  - apply (Hr None). intros q Hq. discriminate Hq.
  - apply (Hw [x41] []). vm_compute. reflexivity.
Defined.


(** * Packets between lwIP and the TUN device: theorems *)

(** lwIP's output for the family a header stands for. *)
Definition family_output {E} `{Lwip E} (hd payload : list byte) : St E (list lwip_callback) :=
  if bool_decide (hd = ip6_header) then netif_output_ip6 payload else netif_output payload.

(** C27: a packet from lwIP, however many pbufs it is split over, goes to the
    TUN device in one write, its family's header in front; a TUN device that
    delivers such a frame has exactly that packet passed to lwIP's output of
    that family.  A packet that does not leave room for the header is copied
    past the end of [in_buf]. *)
Theorem tun_frames {E} `{HostSys E, Lwip E} fwd l k (c : pbuf_chain) hd (p : proc E) :
  hd ∈ [ip4_header; ip6_header] -> concat c <> [] ->
  l <> 0 -> p_links p !! l = Some k -> 0 <= lk_tun_fd k -> List.length (lk_in_buf k) = BUF_SIZE ->
  let frame := hd ++ concat c in
  (lw_io (p_lwip p) = l -> (List.length frame <= BUF_SIZE)%nat ->
     tun_output c hd p =
     let '(q, n) := os (os_write (lk_tun_fd k) frame) (put_link l (patched 0 frame k) p) in
     (q, if n =? Z.of_nat (List.length frame) then ERR_OK else ERR_ABRT)) /\
  (lw_io (p_lwip p) = l -> (BUF_SIZE < List.length frame)%nat ->
     p_fault (tun_output c hd p).1 = true) /\
  (forall ready e1 e2 e3,
     os_select (lk_tun_fd k) (p_os p) = (e1, ready) -> 0 < ready ->
     os_read (lk_tun_fd k) BUF_SIZE e1 = (e2, SysOk frame) ->
     pbuf_alloc (Z.of_nat (List.length (concat c))) e2 = (e3, true) ->
     ppp_link_tun_poll fwd l p =
     ((lwip_call fwd (family_output hd (concat c)) (frame_read l frame k e3 p)).1, 1)).
Proof.
  intros Hhd Hc Hl Hk Hfd Hb frame.
  assert (Hh : List.length hd = 4%nat) by (set_unfold; naive_solver).
  split_and!.
  - intros Hio Hf. apply (tun_output_frame l k); [done..|]. by rewrite Hb.
  - intros Hio Hf. apply (tun_output_overflow l k); try done; rewrite Hb; [unfold BUF_SIZE; lia|done].
  - intros ready e1 e2 e3 Hsel Hready Hread Hroom.
    rewrite (tun_poll_frame fwd l k hd (concat c) ready e1 e2 e3) by done.
    unfold tun_dispatch, family_output. case_bool_decide; [done|].
    rewrite bool_decide_eq_true_2; [done|]. set_unfold. naive_solver.
Qed.

(** A link on descriptor 7 of a host with a frame to read. *)
Definition tun_proc : proc (board (wires socket)) :=
  MkProc {[5 := MkPppLink 7 (replicate BUF_SIZE x00) [] (MkPppConfig true "" "" "" false false)
                  None 0 true false]} ∅ ∅ (MkLwipVars 5 None false false) (MkMainVars false (-1)) false
    (MkBoard (MkWires (MkSocket [] [] []) [] [(7, ip4_header ++ [x45; x46; x47])] [])
       {[Fd 7; Block 5]} 3 0 [] []).

#[local] Opaque BUF_SIZE.

Lemma tun_frames_witness :
  (tun_output [[x45]; [x46; x47]] ip4_header tun_proc).2 = (ERR_OK (E := board (wires socket))) /\
  p_fault (tun_output [replicate 1000 x45; replicate 515 x46] ip4_header tun_proc).1 = true /\
  (ppp_link_tun_poll false 5 tun_proc).2 = 1.
Proof.
  assert (Hk : p_links tun_proc !! 5 = Some (MkPppLink 7 (replicate BUF_SIZE x00) []
    (MkPppConfig true "" "" "" false false) None 0 true false)) by apply lookup_insert_eq.
  assert (Hb : List.length (replicate BUF_SIZE x00) = BUF_SIZE) by apply length_replicate.
  assert (Hin : ip4_header ∈ [ip4_header; ip6_header]) by set_solver.
  pose proof (tun_frames false 5 _ [[x45]; [x46; x47]] ip4_header tun_proc Hin ltac:(done)
    ltac:(done) Hk ltac:(cbn; lia) Hb) as (Hw & _ & Hr).
  pose proof (tun_frames false 5 _ [replicate 1000 x45; replicate 515 x46] ip4_header tun_proc Hin
    ltac:(done) ltac:(done) Hk ltac:(cbn; lia) Hb) as (_ & Ho & _).
  split_and!.
  - rewrite Hw; [reflexivity|done|]. apply Nat.leb_le. vm_compute. reflexivity.
  - apply Ho; [done|]. apply Nat.ltb_lt. vm_compute. reflexivity.
  - rewrite (Hr 1 _ _ _ eq_refl ltac:(lia) eq_refl eq_refl). reflexivity.
Defined.
