(* ===== verification/ClientTheorems.v ===== *)
(** * The client program: theorems

    Whatever the operating system, lwIP and the network do, whenever the
    threads and the signal handler run, the client neither touches what is not
    there nor keeps what it no longer needs. *)

From Stdlib Require Import ZArith Lia.
From Stdlib Require Import Strings.Byte Strings.String.
From stdpp Require Import base tactics list numbers option gmap.
From S2P Require Import Prelude Protocol Posix Engine ZigbeeApi ClientApi ThermostatApp Sockets Keeps HostSys.
From S2P Require Import PppLwip PppLink ClientMain ThreadKeeps ClientFacts ClientLife RpcTask ClientBoard.
From S2P Require Import EndToEnd EndToEndTheorems Device ThermostatFacts ZigbeeStackTheorems.

#[local] Opaque BUF_SIZE.

Section Session.
Context {E : Type} `{HostSys E, Lwip E, Sockets E, Posix E, Ledger E}.
Context `{!HostLaws E, !LwipLaws E, !SocketLaws E, !LwipFits E}.
Context `{!forall R, PosixKeeps (owns (W := E) R)}.
Implicit Types (s : shape) (p : proc E) (c : client (proc E)).

Lemma usleep_steady s us : safe s -> steady s (usleep us).
Proof.
  intros Hs. unfold usleep. apply fit_step; [apply steady_os; auto with own|].
  intros _. by apply preempt_steady.
Qed.

Lemma wait_for_link_steady s n : safe s -> steady s (wait_for_link n).
Proof.
  intros Hs. unfold wait_for_link. induction (Z.to_nat (n * 10)) as [|k IH]; cbn [wait_link_loop];
    [apply steady_ret|].
  apply fit_gets. intros p _. destruct (g_stop_requested _); [apply steady_ret|].
  apply fit_gets. intros q _. destruct (ppp_link_is_up q); [apply steady_ret|].
  apply fit_step; [by apply usleep_steady|]. intros _. exact IH.
Qed.

(** ** Connecting *)

(** An interrupted [poll] has run the handler. *)
Lemma poll_out_fits s fd :
  safe s -> Fd fd ∈ sh_held s ->
  hoare (fits s) (poll_out fd) (fun ready p => fits s p /\
    (ready < 0 -> errno (p_os p) = EINTR -> g_stop_requested (p_main p) = true)).
Proof.
  intros Hs Hfd. unfold poll_out. apply fit_step; [by apply preempt_steady|]. intros _.
  apply fit_step; [eapply steady_os_use; [auto with own|done]|]. intros ready p Hp.
  unfold mbind, St_bind. cbn.
  destruct (Z.ltb_spec ready 0), (Z.eqb_spec (errno (p_os p)) EINTR); cbn; [|split; [done|lia]..|].
  2: { split; [done|]. lia. }
  - pose proof (on_signal_steady s Hs p Hp) as Hq.
    assert (Hstop : g_stop_requested (p_main (on_signal p).1) = true).
    { unfold on_signal, mbind, St_bind, os. cbn. destruct (0 <=? _); [|done].
      by destruct (sys_shutdown _ _ _). }
    by destruct (on_signal p).
Qed.

Lemma poll_loop_once s fd :
  safe s -> Fd fd ∈ sh_held s -> steady s (poll_loop 1 fd).
Proof.
  intros Hs Hfd. cbn [poll_loop]. eapply hoare_bind; [by apply poll_out_fits|]. cbn.
  intros ready p [Hp Hstop]. rewrite St_gets. unfold stop_requested. rewrite St_gets.
  destruct (Z.ltb_spec ready 0), (Z.eqb_spec (errno (p_os p)) EINTR); try exact Hp.
  rewrite Hstop by done. exact Hp.
Qed.

Lemma connect_finishes_steady s fd a :
  safe s -> Fd fd ∈ sh_held s -> steady s (connect_finishes fd a).
Proof.
  intros Hs Hfd. unfold connect_finishes.
  apply fit_step; [eapply steady_os_use; [auto with own|done]|]. intros r.
  destruct (r =? 0); [apply steady_ret|]. apply fit_gets. intros p _.
  destruct (_ || _); [|apply steady_ret].
  apply fit_step; [by apply poll_loop_once|]. intros ready.
  destruct (0 <? ready); [|apply steady_ret].
  apply fit_step; [eapply steady_os_use; [auto with own|done]|]. intros. apply steady_ret.
Qed.

(** A new socket, or none. *)
Definition connected s (n : Z) p : Prop :=
  (n < 0 /\ fits s p) \/ (0 <= n /\ Fd n ∉ sh_held s /\ fits (hold (Fd n) s) p).

Lemma connect_fails s : hoare (fits s) (mret (-1)) (connected s).
Proof. intros p Hp. left. by split. Qed.

Lemma connect_attempts_fits s n a :
  safe s -> hoare (fits s) (connect_attempts n a) (connected s).
Proof.
  intros Hs. induction n as [|n IH]; cbn [connect_attempts]; [apply connect_fails|].
  apply fit_gets. intros p _. destruct (g_stop_requested _); [apply connect_fails|].
  eapply fit_obtain; [auto with own| |]; intros fd Hfd.
  - rewrite (proj2 (Z.ltb_lt _ _) Hfd). apply connect_fails.
  - intros Hf. rewrite (proj2 (Z.ltb_ge _ _) Hfd).
    assert (Hin : Fd fd ∈ sh_held (hold (Fd fd) s)) by set_solver.
    assert (Hsafe : safe (hold (Fd fd) s)) by (by apply safe_hold).
    assert (Hback : release (Fd fd) (hold (Fd fd) s) = s) by shape_eq.
    apply fit_step; [eapply steady_os_use; [auto with own|exact Hin]|]. intros flags.
    apply fit_step.
    { destruct (flags <? 0); [apply steady_ret|].
      apply fit_step; [eapply steady_os_use; [auto with own|exact Hin]|]. intros. apply steady_ret. }
    intros [|]; cbn [negb].
    + apply fit_step; [by apply connect_finishes_steady|]. intros [|].
      * apply fit_step; [eapply steady_os_use; [auto with own|exact Hin]|].
        intros _ q Hq. right. by split_and!.
      * eapply (fit_return (Fd fd)); [auto with own|exact Hin|]. intros _.
        apply (hoare_at _ s); [exact Hback|]. apply fit_gets. intros q _.
        apply fit_step; [|intros _; exact IH].
        destruct (g_stop_requested _); [apply steady_ret|by apply usleep_steady].
    + eapply (fit_return (Fd fd)); [auto with own|exact Hin|]. intros _.
      apply (hoare_at _ s); [exact Hback|apply connect_fails].
Qed.

Lemma connect_rpc_fits s h n : safe s -> hoare (fits s) (connect_rpc h n) (connected s).
Proof.
  intros Hs. unfold connect_rpc. destruct (inet_pton h); [by apply connect_attempts_fits|].
  apply connect_fails.
Qed.

(** ** The session *)

(** The process has the shape [s], and the API is attached to [fd]. *)
Notation api_at s fd := (attached_to (fits s) fd).

#[local] Instance fits_posix_keeps s (Hs : safe s) : PosixKeeps (fits s).
Proof.
  split; intros p x Hp; cbn; pose proof (preempt_steady false s Hs p Hp) as Hq;
    destruct (PppLink.preempt false p) as [q []]; cbn in Hq.
  - apply (steady_os s (fun e => sys_read e x)); [|done]. intros R w Hw. by apply read_keeps.
  - apply (steady_os s (fun e => sys_write e x)); [|done]. intros R w Hw. by apply write_keeps.
Qed.

Lemma fit_in_proc {A} s fd (m : St (proc E) A) Q :
  hoare (fits s) m Q ->
  hoare (api_at s fd) (in_proc m) (fun a c => Q a (c_world c) /\ g_fd c = fd).
Proof.
  intros Hm c [Hc Hfd]. specialize (Hm _ Hc). unfold in_proc. by destruct (m (c_world c)).
Qed.

Lemma api_bind {A B} s s' fd (m : St (proc E) A) (k : A -> St (client (proc E)) B) Q :
  hoare (fits s) m (fun _ => fits s') -> (forall a, hoare (api_at s' fd) (k a) Q) ->
  hoare (api_at s fd) (in_proc m ≫= k) Q.
Proof. intros Hm Hk. eapply hoare_bind; [by apply fit_in_proc|]. intros a. exact (Hk a). Qed.

Lemma api_step {A B} s fd (m : St (proc E) A) (k : A -> St (client (proc E)) B) Q :
  steady s m -> (forall a, hoare (api_at s fd) (k a) Q) -> hoare (api_at s fd) (in_proc m ≫= k) Q.
Proof. apply api_bind. Qed.

Lemma api_steady {A} s fd (m : St (proc E) A) :
  steady s m -> hoare (api_at s fd) (in_proc m) (fun _ => api_at s fd).
Proof. apply fit_in_proc. Qed.

Lemma run_fits s fd probing : safe s -> keeps (api_at s fd) (run probing).
Proof.
  intros Hs. pose proof (fits_posix_keeps s Hs). apply run_keeps; [apply _|].
  split; [done|]. intros c ms [Hc Hfd]. cbn.
  by apply (fit_in_proc s fd (usleep (u32 (ms * 1000))) (fun _ => fits s)); [apply usleep_steady|].
Qed.

Lemma safe_at_socket s fd : safe s -> Fd fd ∈ sh_held s -> safe (with_socket fd s).
Proof. intros [] Hfd. split; cbn; auto. Qed.

Lemma safe_no_socket s : safe s -> safe (with_socket (-1) s).
Proof. intros []. split; cbn; auto. left. lia. Qed.

Lemma set_socket_fits s fd :
  hoare (fits s) (set_rpc_socket fd) (fun _ => fits (with_socket fd s)).
Proof. intros p []. by split. Qed.

Lemma close_fits s fd :
  Fd fd ∈ sh_held s -> hoare (fits s) (os (sys_close fd)) (fun _ => fits (release (Fd fd) s)).
Proof.
  intros Hfd p Hp.
  destruct (fit_os s (sys_close fd) (fun _ R => R = sh_held s ∖ {[Fd fd]})) with (s := p)
    as (R & -> & Hq); [|done|done].
  intros w Hw. eexists. split; [done|]. by apply close_returns.
Qed.

Lemma publish_fits s fd old :
  safe s -> Fd fd ∈ sh_held s ->
  hoare (api_at s old) (publish fd) (fun _ => api_at (with_socket fd s) fd).
Proof.
  intros Hs Hfd. pose proof (safe_at_socket s fd Hs Hfd). unfold publish.
  apply api_step; [by apply preempt_steady|]. intros _.
  apply (api_bind _ (with_socket fd s)); [apply set_socket_fits|]. intros _.
  apply (api_step (with_socket fd s) old); [by apply preempt_steady|]. intros _.
  apply (hoare_bind _ (fun _ => api_at (with_socket fd s) fd)); [by intros c [Hc _]|].
  intros _. apply api_steady. by apply preempt_steady.
Qed.

(** Retiring the socket closes it; the handler cannot reach it any more. *)
Lemma retire_fits s fd api :
  safe s -> Fd fd ∈ sh_held s -> safe (with_socket (-1) (release (Fd fd) s)) ->
  hoare (api_at s api) (retire fd)
    (fun _ => api_at (with_socket (-1) (release (Fd fd) s)) api).
Proof.
  intros Hs Hfd Hs'. pose proof (safe_no_socket s Hs). unfold retire.
  apply api_step; [by apply preempt_steady|]. intros _.
  apply (api_bind _ (with_socket (-1) s)); [apply set_socket_fits|]. intros _.
  apply api_step; [by apply preempt_steady|]. intros _.
  apply api_step; [eapply steady_os_use; [auto with own|done]|]. intros _.
  apply (api_bind _ (with_socket (-1) (release (Fd fd) s))); [by apply (close_fits (with_socket (-1) s))|].
  intros _. apply api_steady. by apply preempt_steady.
Qed.

Lemma detach_fits s fd : hoare (api_at s fd) detach (fun _ => api_at s (-1)).
Proof. by intros c [Hc _]. Qed.

(** ** A session returns to where it began *)

Context (s : shape) (Hs : safe s) (Hsock : sh_socket s = -1).

(** The shape with the connection [fd] open and published. *)
Definition online (fd : Z) : shape := with_socket fd (hold (Fd fd) s).

Lemma safe_online fd : safe (online fd).
Proof. apply safe_at_socket; [by apply safe_hold|set_solver]. Qed.

Lemma retire_online fd api :
  Fd fd ∉ sh_held s -> hoare (api_at (online fd) api) (retire fd) (fun _ => api_at s api).
Proof.
  intros Hf. assert (Hb : with_socket (-1) (release (Fd fd) (online fd)) = s).
  { unfold online. destruct s; cbn in *. shape_eq. }
  pose proof (retire_fits (online fd) fd api (safe_online fd)) as Hr. rewrite Hb in Hr.
  apply Hr; [unfold online; set_solver|exact Hs].
Qed.

Lemma publish_online fd api :
  Fd fd ∉ sh_held s ->
  hoare (api_at (hold (Fd fd) s) api) (publish fd) (fun _ => api_at (online fd) fd).
Proof. intros Hf. apply publish_fits; [by apply safe_hold|set_solver]. Qed.

(** The end of [run_twice]: a published connection, or none. *)
Definition served (r : Result * Z) (c : client (proc E)) : Prop :=
  (r.2 < 0 /\ api_at s (-1) c) \/
  (0 <= r.2 /\ Fd r.2 ∉ sh_held s /\ api_at (online r.2) r.2 c).

Lemma run_twice_fits h n fd :
  0 <= fd -> Fd fd ∉ sh_held s -> hoare (api_at (online fd) fd) (run_twice h n fd) served.
Proof.
  intros Hn Hf. unfold run_twice. pose proof (safe_online fd) as Hon.
  apply (hoare_bind _ (fun _ => api_at (online fd) fd)); [by apply run_fits|]. intros r.
  apply api_step; [intros p Hp; exact Hp|]. intros stop.
  destruct (_ && _); [|intros c Hc; right; by split_and!].
  apply (hoare_bind _ (fun _ => api_at (online fd) (-1))); [apply detach_fits|]. intros _.
  apply (hoare_bind _ (fun _ => api_at s (-1))); [by apply retire_online|]. intros _.
  eapply hoare_bind; [by apply fit_in_proc, connect_rpc_fits|]. cbn.
  intros fd' c [[[Hn' Hc]|(Hn' & Hf' & Hc)] Hg].
  - rewrite (proj2 (Z.leb_gt _ _) Hn'). left. by split_and!.
  - rewrite (proj2 (Z.leb_le _ _) Hn'). revert c Hc Hg.
    assert (Hrun : hoare (api_at (hold (Fd fd') s) (-1))
      (publish fd';; result ← run false; mret (result, fd')) served).
    { apply (hoare_bind _ (fun _ => api_at (online fd') fd')); [by apply publish_online|]. intros _.
      apply (hoare_bind _ (fun _ => api_at (online fd') fd')); [by apply run_fits, safe_online|].
      intros r' c Hc. right. by split_and!. }
    intros c Hc Hg. apply Hrun. by split.
Qed.

Lemma serve_connection_fits h n fd api :
  0 <= fd -> Fd fd ∉ sh_held s ->
  hoare (api_at (hold (Fd fd) s) api) (serve_connection h n fd) (fun _ => api_at s (-1)).
Proof.
  intros Hn Hf. unfold serve_connection.
  apply (hoare_bind _ (fun _ => api_at (online fd) fd)); [by apply publish_online|]. intros _.
  apply api_step; [intros p Hp; exact Hp|]. intros stop.
  apply (hoare_bind _ served).
  { destruct stop; [intros c Hc; right; by split_and!|by apply run_twice_fits]. }
  intros [r fd']. cbn [fst snd].
  apply (hoare_bind _ (fun _ c => (fd' < 0 /\ api_at s (-1) c) \/
    (0 <= fd' /\ Fd fd' ∉ sh_held s /\ api_at (online fd') (-1) c))).
  { intros c [[? [? ?]]|(? & ? & [? ?])]; [left|right]; by split_and!. }
  intros _ c [[Hn' Hc]|(Hn' & Hf' & Hc)].
  - rewrite (proj2 (Z.leb_gt _ _) Hn'). exact Hc.
  - rewrite (proj2 (Z.leb_le _ _) Hn'). revert c Hc.
    change (hoare (api_at (online fd') (-1))
      (retire fd';; mret (bool_decide (r = success))) (fun _ => api_at s (-1))).
    apply (hoare_bind _ (fun _ => api_at s (-1))); [by apply retire_online|].
    by intros _ c Hc.
Qed.

(** The process is as before; the API is attached as before or detached. *)
Definition session_over (api : Z) (c : client (proc E)) : Prop :=
  fits s (c_world c) /\ (g_fd c = api \/ g_fd c = -1).

Lemma rpc_session_fits h n api :
  hoare (api_at s api) (rpc_session h n) (fun _ => session_over api).
Proof.
  unfold rpc_session. eapply hoare_bind; [by apply fit_in_proc, connect_rpc_fits|]. cbn.
  intros fd c [[[Hn Hc]|(Hn & Hf & Hc)] Hg].
  - rewrite (proj2 (Z.leb_gt _ _) Hn). split; [exact Hc|by left].
  - rewrite (proj2 (Z.leb_le _ _) Hn).
    destruct (serve_connection_fits h n fd api Hn Hf c (conj Hc Hg)). split; auto.
Qed.

Lemma use_link_fits o api : hoare (api_at s api) (use_link o) (fun _ => session_over api).
Proof.
  unfold use_link. apply api_step; [intros p Hp; exact Hp|]. intros [|].
  { intros c [Hc Hg]. split; auto. }
  apply api_step; [by apply wait_for_link_steady|]. intros [|]; cbn [negb].
  - apply rpc_session_fits.
  - intros c [Hc Hg]. split; auto.
Qed.
End Session.

(** ** The whole program *)

Section Main.
Context {E : Type} `{HostSys E, Lwip E, Sockets E, Posix E, Ledger E}.
Context `{!HostLaws E, !LwipLaws E, !SocketLaws E, !LwipFits E}.
Context `{!forall R, PosixKeeps (owns (W := E) R)}.
Implicit Types (s : shape) (p : proc E) (c : client (proc E)).

(** A process that holds [R], with no object, thread or published socket of
    the client, and no fault. *)
Record resting (R : gset res) p : Prop := {
  rest_held : held p = R;
  rest_links : p_links p = ∅;
  rest_serials : p_serials p = ∅;
  rest_threads : p_threads p = ∅;
  rest_socket : g_rpc_socket (p_main p) = -1;
  rest_fault : p_fault p = false
}.

Definition idle_shape (R : gset res) (io : Z) : shape := MkShape R ∅ ∅ ∅ io (-1).

Lemma resting_fits R p : resting R p <-> fits (idle_shape R (lw_io (p_lwip p))) p.
Proof.
  split; intros [Hh Hli Hse Hth]; split; cbn in *; try done.
  - by rewrite Hli.
  - by rewrite Hth.
  - by apply fmap_empty_inv in Hli.
  - by apply fmap_empty_inv in Hth.
Qed.

Lemma safe_idle R : safe (idle_shape R 0).
Proof. split; cbn; try done; auto. left. lia. Qed.

(** The objects of a running client. *)
Variables (R : gset res) (x fd t l tfd : Z) (v : bool).
Hypothesis (Hx : x <> 0) (Hfx : Block x ∉ R) (Hfd : 0 <= fd) (Hffd : Fd fd ∉ R)
  (Ht : t <> 0) (Hft : Thread t ∉ R).

Definition shape1 : shape := opened x fd t v (idle_shape R 0).

Lemma safe1 : safe shape1.
Proof. apply safe_opened; [apply safe_idle|done]. Qed.

Lemma end1 : closed_shape x (MkSerialIo fd t true v 0) shape1 = idle_shape R 0.
Proof. unfold closed_shape, shape1, idle_shape. cbn. shape_eq. Qed.

Hypothesis (Hl : l <> 0) (Hfl : Block l ∉ sh_held shape1) (Htfd : 0 <= tfd)
  (Hftfd : Fd tfd ∉ sh_held shape1).

Definition link0 : ppp_link := blank (set_tun_fd tfd (link_at_rest client_ppp)).

(** In [serial_io_attach], and after it. *)
Definition shape_attaching : shape :=
  let s := created l tfd client_ppp shape1 in
  with_serials (<[x := MkSerialIo fd t true v l]> (sh_serials s)) s.

Definition shape2 : shape :=
  with_links (<[l := set_output (Some x) link0]> (sh_links shape_attaching)) shape_attaching.

Lemma safe2 : safe shape2.
Proof.
  apply (safe_put_link l link0); [|apply lookup_insert_eq|done..|].
  - unfold shape_attaching. cbv zeta. apply (safe_put_serial x (MkSerialIo fd t true v 0)); [|apply lookup_insert_eq|done].
    apply safe_created; [apply safe1|done].
  - intros y [= <-]. cbn. rewrite lookup_insert_eq. eauto.
Qed.

Lemma attach12 :
  hoare (fits (created l tfd client_ppp shape1)) (serial_io_attach (E := E) false l x)
    (fun _ => fits shape2).
Proof.
  exact (attach_fits false (created l tfd client_ppp shape1) l x link0 (MkSerialIo fd t true v 0)
    (safe_created _ _ _ _ safe1 Hl) Hl (lookup_insert_eq _ _ _) (lookup_insert_eq _ _ _)).
Qed.

(** The objects of the attached client, the link in the state [kl]. *)
Definition with_link (kl : ppp_link) (io : Z) : shape :=
  MkShape (sh_held shape2) (<[l := kl]> (sh_links shape2)) (sh_serials shape2)
    (sh_threads shape2) io (-1).

Lemma end2 io kl :
  lk_tun_fd kl = tfd ->
  destroyed_shape l kl (closed_shape x (MkSerialIo fd t true v l) (with_link kl io)) =
  idle_shape R io.
Proof.
  intros Hk. unfold destroyed_shape, closed_shape, with_link, shape2, shape_attaching, shape1,
    opened, created, idle_shape in *.
  cbn in *. rewrite Hk, (proj2 (Z.eqb_neq _ _) Hl). f_equal.
  - set_solver.
  - apply map_eq. intros i. destruct (decide (i = l)) as [->|]; by simplify_map_eq.
  - apply map_eq. intros i. destruct (decide (i = x)) as [->|]; by simplify_map_eq.
  - apply map_eq. intros i. destruct (decide (i = t)) as [->|]; by simplify_map_eq.
Qed.

Lemma safe_with_link kl :
  lk_tun_fd kl = tfd -> lk_in_buf kl = lk_in_buf link0 -> lk_output kl = Some x ->
  safe (with_link kl l).
Proof.
  intros Hfd' Hb Ho.
  assert (Hs : safe (with_links (<[l := kl]> (sh_links shape2)) shape2)).
  { apply (safe_same_link l (set_output (Some x) link0)); [apply safe2|apply lookup_insert_eq|done..]. }
  apply (safe_io_at _ l) in Hs; [exact Hs|]. cbn. rewrite lookup_insert_eq. eauto.
Qed.

(** [ppp_link_stop] takes the TUN thread away again. *)
Lemma stopped2 u kl :
  Thread u ∉ sh_held shape2 -> lk_tun_thread kl = u ->
  stopped_shape l kl (with_tun_thread l u kl shape2) = with_link (halted kl) l.
Proof.
  intros Hu Hk. pose proof (fresh_thread shape2 u safe2 Hu) as Hn.
  unfold stopped_shape, without_thread, with_tun_thread, with_link. cbn [sh_threads sh_held with_links].
  rewrite Hk. unfold with_held, with_threads, with_links.
  cbn [sh_held sh_links sh_serials sh_threads sh_io sh_socket]. f_equal.
  - set_solver.
  - by rewrite insert_insert_eq.
  - by rewrite delete_insert_id.
Qed.

(** Closing the port leaves the link's descriptor and block alone. *)
Lemma kept_fd :
  Fd tfd ∈ sh_held shape2 ∖ {[Thread t]} ∖ {[Fd fd]} ∖ {[Block x]}.
Proof.
  rewrite !elem_of_difference, !elem_of_singleton.
  split_and!; [|by intros [=]|intros [= ->]|by intros [=]].
  - apply elem_of_union_l. by apply elem_of_singleton.
  - apply Hftfd. apply elem_of_union_r, elem_of_union_l. by apply elem_of_singleton.
Qed.

Lemma kept_block :
  Block l ∈ sh_held shape2 ∖ {[Thread t]} ∖ {[Fd fd]} ∖ {[Block x]}.
Proof.
  rewrite !elem_of_difference, !elem_of_singleton.
  split_and!; [|by intros [=]|by intros [=]|intros [= ->]].
  - apply elem_of_union_r, elem_of_union_l. by apply elem_of_singleton.
  - apply Hfl. do 2 apply elem_of_union_r. apply elem_of_union_l. by apply elem_of_singleton.
Qed.

(** The last two calls, from a link whose thread is not running. *)
Lemma shut_down kl io :
  safe (with_link kl io) -> lk_thread_started kl = false -> lk_tun_fd kl = tfd ->
  hoare (fits (with_link kl io))
    (serial_io_close (E := E) false x;; ppp_link_destroy false l)
    (fun _ => resting R).
Proof.
  intros Hs Hst Hk.
  assert (Hkx : sh_serials shape2 !! x = Some (MkSerialIo fd t true v l)) by apply lookup_insert_eq.
  eapply fit_seq.
  { apply (serial_close_fits false _ x (MkSerialIo fd t true v l)); try done.
    - apply lookup_insert_eq.
    - right. cbn. rewrite lookup_insert_eq. eauto. }
  eapply hoare_weaken; [|done|].
  { apply (link_destroy_fits false _ l (set_output None kl)); try done; cbn.
    - rewrite (proj2 (Z.eqb_neq _ _) Hl). by rewrite lookup_alter_eq, lookup_insert_eq.
    - by rewrite Hk.
    - rewrite Hk. apply kept_fd.
    - apply kept_block. }
  intros u q Hq. change (fits (destroyed_shape l kl
    (closed_shape x (MkSerialIo fd t true v l) (with_link kl io))) q) in Hq.
  rewrite end2 in Hq by done. apply resting_fits. by rewrite (fits_io _ _ Hq).
Qed.

(** ** The steps of [main] *)

(** What the process is like, whatever the API is attached to. *)
Definition world (P : proc E -> Prop) c : Prop := P (c_world c).

Lemma in_world {A} P (m : St (proc E) A) Q :
  hoare P m Q -> hoare (world P) (in_proc m) (fun a => world (Q a)).
Proof. intros Hm c Hc. specialize (Hm _ Hc). unfold in_proc. by destruct (m (c_world c)). Qed.

Definition exit_code (code : Z) c : Prop := (code = 0 \/ code = 1) /\ world (resting R) c.

Lemma exit_ret code : code = 0 \/ code = 1 -> hoare (world (resting R)) (mret code) exit_code.
Proof. intros Hc c Hr. by split. Qed.

(** [ppp_link_stop], [serial_io_close], [ppp_link_destroy] and the return. *)
Lemma leave_main s kl io code :
  hoare (fits s) (ppp_link_stop false l) (fun _ => fits (with_link kl io)) ->
  safe (with_link kl io) -> lk_thread_started kl = false -> lk_tun_fd kl = tfd ->
  code = 0 \/ code = 1 ->
  hoare (world (fits s))
    (in_proc (ppp_link_stop false l);; in_proc (serial_io_close false x);;
     in_proc (ppp_link_destroy false l);; mret code) exit_code.
Proof.
  intros Hstop Hs Hst Hk Hc.
  eapply hoare_bind; [by apply in_world|]. intros u.
  pose proof (in_world _ _ _ (shut_down kl io Hs Hst Hk)) as Hd.
  intros c Hw. specialize (Hd c Hw). unfold mbind, St_bind, in_proc in *.
  destruct (serial_io_close false x (c_world c)) as [q []]. cbn in *.
  destruct (ppp_link_destroy false l q) as [q' []]. by split.
Qed.
End Main.

Section ClientMain.
Context {E : Type} `{HostSys E, Lwip E, Sockets E, Posix E, Ledger E}.
Context `{!HostLaws E, !LwipLaws E, !SocketLaws E, !LwipFits E}.
Context `{!forall R, PosixKeeps (owns (W := E) R)}.

Lemma main_attached_exits R x fd t l tfd v o :
  x <> 0 -> Block x ∉ R -> 0 <= fd -> Fd fd ∉ R -> t <> 0 -> Thread t ∉ R ->
  l <> 0 -> Block l ∉ sh_held (shape1 R x fd t v) -> 0 <= tfd ->
  Fd tfd ∉ sh_held (shape1 R x fd t v) ->
  hoare (world (E := E) (fits (created l tfd client_ppp (shape1 R x fd t v))))
    (main_attached o x l) (exit_code R).
Proof.
  intros Hx Hfx Hfd Hffd Ht Hft Hl Hfl Htfd Hftfd.
  pose proof (safe2 R x fd t l tfd v Hx Hl) as Hs2.
  set (kl := set_output (Some x) (link0 tfd)) in *.
  assert (Hk : sh_links (shape2 R x fd t l tfd v) !! l = Some kl) by apply lookup_insert_eq.
  assert (Hw0 : with_link R x fd t l tfd v kl l = with_io l (shape2 R x fd t l tfd v)).
  { unfold with_link. rewrite insert_id by done. done. }
  pose proof (safe_with_link R x fd t l tfd v Hx Hl) as Hsl. unfold main_attached.
  eapply hoare_bind; [by apply in_world, (attach12 R x fd t l tfd v)|]. intros [].
  apply (hoare_bind _ (fun ok => world (fun p =>
    (ok = false /\ fits (with_link R x fd t l tfd v kl l) p) \/
    exists u, ok = true /\ Thread u ∉ sh_held (shape2 R x fd t l tfd v) /\
      fits (with_tun_thread l u (tun_started u kl) (shape2 R x fd t l tfd v)) p))).
  { apply in_world. rewrite Hw0. by apply link_start_fits. }
  intros ok c [[-> Hc]|(u & -> & Hu & Hc)]; cbn [negb].
  - apply (leave_main R x fd t l tfd v Hx Hfx Hfd Hffd Ht Hft Hl Hfl Htfd Hftfd
      (with_link R x fd t l tfd v kl l) kl l 1); auto.
    apply (link_stop_idle false _ l kl); auto. cbn. by rewrite lookup_insert_eq.
  - pose proof (safe_with_tun_thread _ l u (tun_started u kl) kl Hs2 Hk eq_refl eq_refl eq_refl) as Hst.
    set (sh := with_tun_thread l u (tun_started u kl) (shape2 R x fd t l tfd v)) in *.
    assert (Huse : hoare (world (fits sh)) (use_link o) (fun _ => world (fits sh))).
    { intros d Hd. exact (proj1 (use_link_fits sh Hst eq_refl o (g_fd d) d (conj Hd eq_refl))). }
    refine (hoare_bind (world (fits sh)) _ (exit_code R) (use_link o) _ Huse _ c Hc).
    intros success.
    apply (leave_main R x fd t l tfd v Hx Hfx Hfd Hffd Ht Hft Hl Hfl Htfd Hftfd sh
      (halted (tun_started u kl)) l); try done.
    + assert (Heq : stopped_shape l (tun_started u kl) sh = with_link R x fd t l tfd v (halted (tun_started u kl)) l)
        by (by apply stopped2).
      rewrite <- Heq.
      apply (link_stop_fits false _ l (tun_started u kl)); try done; cbn; by rewrite lookup_insert_eq.
    + by apply Hsl.
    + destruct success; auto.
Qed.

Lemma main_opened_exits R x fd t v o :
  x <> 0 -> Block x ∉ R -> 0 <= fd -> Fd fd ∉ R -> t <> 0 -> Thread t ∉ R ->
  hoare (world (E := E) (fits (shape1 R x fd t v))) (main_opened o x) (exit_code R).
Proof.
  intros Hx Hfx Hfd Hffd Ht Hft. pose proof (safe1 R x fd t v Hx) as Hs. unfold main_opened.
  eapply hoare_bind; [by apply in_world, link_create_fits|].
  intros l c [[-> Hc]|(tfd & Hl & Hfl & Htfd & Hftfd & Hc)].
  - refine (hoare_bind (world (fits (shape1 R x fd t v))) (fun _ => world (resting R))
      (exit_code R) (in_proc (serial_io_close false x)) (fun _ => mret 1) _ _ c Hc);
      [|intros _; apply exit_ret; auto].
    apply in_world. eapply hoare_weaken; [|done|].
    + apply (serial_close_fits false _ x (MkSerialIo fd t true v 0)); try done;
        try apply lookup_insert_eq. by left.
    + cbn beta. intros u q Hq. rewrite end1 in Hq by done. apply resting_fits.
      by rewrite (fits_io _ _ Hq).
  - rewrite (proj2 (Z.eqb_neq _ _) Hl). by apply (main_attached_exits R x fd t l tfd v o).
Qed.

End ClientMain.

(** ** Transfers *)

(** C26: reading, writing and discarding on the client's connection end by
    themselves, whichever threads, lwIP callbacks and signals run while the
    client waits, provided the connection is interrupted finitely often and the
    others do not add to that; the fuel of the loops is never used up. *)
Theorem client_transfers_end {E} `{HostSys E, Lwip E, Sockets E, Posix E, !PosixLaws E}
    `{!forall n, TurnKeeps (E := E) (fun e => (io_patience e <= n)%nat)} (p : proc E) :
  (forall n, exists r, read_loop (io_fuel p n) p n [] = Some r /\ read_all p n = r) /\
  (forall bs, exists r, write_loop (io_fuel p (length bs)) p bs = Some r /\ write_all p bs = r) /\
  (forall size, is_u32 size -> is_Some (discard_loop (Z.to_nat size) p size)).
Proof.
  split_and!.
  - intros n. unfold read_all. destruct (read_loop_total (io_fuel p n) p n []) as [r ->]; eauto.
  - intros bs. unfold write_all. destruct (write_loop_total (io_fuel p (length bs)) p bs) as [r ->]; eauto.
  - intros size Hs. apply discard_loop_total; unfold is_u32 in Hs; lia.
Qed.

(** ** The client against the firmware *)

(** The link comes up by the first byte on the line; a packet from the peer
    and one from the TUN device pass; then SIGINT arrives when [n] more turns
    are over. *)
Definition host_board (n : nat) : board (wires (link (live script))) :=
  MkBoard
    (MkWires fresh_link
       ([[]; []; []; []; [TurnThread 5; TurnThread 8; TurnThread 8]; [TurnThread 5]] ++
        replicate n [] ++ [[TurnSignal]])
       [(4, [x55]); (7, [x00; x00; x08; x00; x45; x60]); (4, [x45; x61])] [])
    {[Fd 2]} 3 0 [] [].

Definition host_client (n : nat) : client (proc (board (wires (link (live script))))) :=
  MkClient (-1) (MkProc ∅ ∅ ∅ (MkLwipVars 0 None false false) (MkMainVars false (-1)) false
                   (host_board n)).

(** The whole client against the whole firmware: exit code 0; the first LCP
    frame, the packets either way and the terminate request on the wires. *)
Example client_over_firmware :
  let '(c, code) := client_main [] (host_client 1000) in
  code = 0 /\ elements (held (c_world c)) = [Fd 2] /\
  wr_tx (bd_dev (p_os (c_world c))) =
    [(4, [x4c]); (4, [x45; x60]); (7, [x00; x00; x08; x00; x45; x61]); (4, [x54])].
Proof. vm_compute. by split_and!. Qed.

Lemma host_client_rests n : resting {[Fd 2]} (c_world (host_client n)).
Proof. by split. Qed.


(** A client that is interrupted twice while two threads and a signal run. *)
Definition interrupted_client : proc (board (wires socket)) :=
  MkProc {[5 := MkPppLink 7 (replicate BUF_SIZE x00) [] (MkPppConfig true "" "" "" false false)
                  None 8 true true]} {[6 := MkSerialIo 4 9 false true 5]}
    {[8 := (TunThread 5, true); 9 := (SerialThread 6, true)]}
    (MkLwipVars 5 None true false) (MkMainVars false 3) false
    (MkBoard (MkWires (MkSocket [x41; x42] [] [EvIntr; EvChunk 0; EvIntr])
        [[TurnThread 8]; [TurnThread 9; TurnSignal]; []] [(4, [x55])] [])
       {[Fd 3; Fd 4; Fd 7; Block 5; Block 6; Thread 8; Thread 9]} 10 0 [] []).

Lemma client_transfers_end_witness :
  exists r, read_loop (io_fuel interrupted_client 2) interrupted_client 2 [] = Some r /\
    read_all interrupted_client 2 = r /\ r.2 = Some [x41; x42].
Proof.
  destruct (proj1 (client_transfers_end interrupted_client) 2%nat) as (r & Hr & Hall).
  exists r. split_and!; [exact Hr|exact Hall|]. rewrite <- Hall. vm_compute. reflexivity.
Defined.
