(* ===== verification/QrArray.v ===== *)
(** * Arrays and bits of the QR code generator: tools/qrtext/qrcodegen.h

    The generator works on [uint8_t] arrays its caller provides.  An array is
    the list of its bytes; reading or writing outside it and a failing
    [assert] end the program, so the functions of the file return options and
    [None] is such an end.  A [for] loop is [foldm] over the list of its index
    values.  [bits_of] and [bits] are the bits of a number and of an array,
    most significant first, which is how the file fills its bit buffers. *)

From Stdlib Require Import ZArith Lia List.
From stdpp Require Import base tactics list numbers option.
From S2P Require Import Prelude.

(** ** Arrays *)

Notation arr := (list Z).

Definition bytes_ok (a : arr) : Prop := Forall is_u8 a.

Definition rd (a : arr) (i : Z) : option Z :=
  if 0 <=? i then a !! Z.to_nat i else None.

Definition wr (a : arr) (i v : Z) : option arr :=
  if (0 <=? i) && (i <? Z.of_nat (length a)) then Some (<[Z.to_nat i := v]> a) else None.

(** [memset(a, 0, n)] *)
Definition clear (a : arr) (n : Z) : option arr :=
  if (0 <=? n) && (n <=? Z.of_nat (length a))
  then Some (replicate (Z.to_nat n) 0 ++ drop (Z.to_nat n) a) else None.

Definition assert (b : bool) : option unit := if b then Some tt else None.

(** ** Loops *)

(** [a], [a + 1], ... below [b] *)
Definition zrange (a b : Z) : list Z :=
  map (fun i => a + Z.of_nat i) (seq 0 (Z.to_nat (b - a))).

Fixpoint foldm {I S} (f : I -> S -> option S) (l : list I) (s : S) : option S :=
  match l with
  | [] => Some s
  | i :: l => s ← f i s; foldm f l s
  end.

Definition b2z (b : bool) : Z := if b then 1 else 0.

(** [((x >> i) & 1) != 0] *)
Definition getBit (x i : Z) : bool := negb (Z.land (Z.shiftr x i) 1 =? 0).

(** [val]'s [numBits] low bits, most significant first. *)
Definition bits_of (numBits : nat) (val : Z) : list bool :=
  map (fun i => Z.testbit val (Z.of_nat i)) (rev (seq 0 numBits)).

Definition bits (a : arr) : list bool := concat (map (bits_of 8) a).

(** The number with these bits. *)
Definition of_bits (bs : list bool) : Z := fold_left (fun n b => 2 * n + b2z b) bs 0.

(** ** Lemmas *)

Lemma rd_lookup a i v : rd a i = Some v -> 0 <= i /\ a !! Z.to_nat i = Some v.
Proof. unfold rd. destruct (Z.leb_spec 0 i); [done|discriminate]. Qed.

Lemma rd_some a i : 0 <= i < Z.of_nat (length a) -> exists v, rd a i = Some v.
Proof.
  intros Hi. unfold rd. rewrite (proj2 (Z.leb_le _ _)) by lia.
  apply lookup_lt_is_Some_2. lia.
Qed.

Lemma rd_is_u8 a i v : bytes_ok a -> rd a i = Some v -> is_u8 v.
Proof. intros Ha [_ Hv]%rd_lookup. by apply (Forall_lookup_1 _ _ _ _ Ha Hv). Qed.

Lemma rd_bound a i v : rd a i = Some v -> 0 <= i < Z.of_nat (length a).
Proof. intros [Hi Hv]%rd_lookup. apply lookup_lt_Some in Hv. lia. Qed.

Lemma wr_some a i v : 0 <= i < Z.of_nat (length a) -> wr a i v = Some (<[Z.to_nat i := v]> a).
Proof.
  intros Hi. unfold wr. rewrite (proj2 (Z.leb_le _ _)), (proj2 (Z.ltb_lt _ _)) by lia. done.
Qed.

Lemma wr_inv a i v a' : wr a i v = Some a' ->
  0 <= i < Z.of_nat (length a) /\ a' = <[Z.to_nat i := v]> a.
Proof.
  unfold wr. destruct (Z.leb_spec 0 i), (Z.ltb_spec i (Z.of_nat (length a))); try discriminate.
  intros [= <-]. split; [lia|done].
Qed.

Lemma wr_length a i v a' : wr a i v = Some a' -> length a' = length a.
Proof. intros [_ ->]%wr_inv. apply length_insert. Qed.

Lemma wr_bytes a i v a' : bytes_ok a -> is_u8 v -> wr a i v = Some a' -> bytes_ok a'.
Proof. intros Ha Hv [_ ->]%wr_inv. by apply Forall_insert. Qed.

Lemma rd_wr a i v a' j : wr a i v = Some a' -> rd a' j = if j =? i then Some v else rd a j.
Proof.
  intros [Hi ->]%wr_inv. unfold rd. destruct (Z.leb_spec 0 j), (Z.eqb_spec j i); subst; try lia; try done.
  - apply list_lookup_insert_eq. lia.
  - apply list_lookup_insert_ne. lia.
Qed.

Lemma clear_inv a n a' : clear a n = Some a' ->
  0 <= n <= Z.of_nat (length a) /\ a' = replicate (Z.to_nat n) 0 ++ drop (Z.to_nat n) a.
Proof.
  unfold clear. destruct (Z.leb_spec 0 n), (Z.leb_spec n (Z.of_nat (length a))); try discriminate.
  intros [= <-]. split; [lia|done].
Qed.

Lemma clear_some a n : 0 <= n <= Z.of_nat (length a) ->
  clear a n = Some (replicate (Z.to_nat n) 0 ++ drop (Z.to_nat n) a).
Proof. intros Hn. unfold clear. rewrite !(proj2 (Z.leb_le _ _)) by lia. done. Qed.

Lemma clear_length a n a' : clear a n = Some a' -> length a' = length a.
Proof. intros [Hn ->]%clear_inv. rewrite length_app, length_replicate, length_drop. lia. Qed.

Lemma clear_bytes a n a' : bytes_ok a -> clear a n = Some a' -> bytes_ok a'.
Proof.
  intros Ha [Hn ->]%clear_inv. apply Forall_app. split; [|by apply Forall_drop].
  apply Forall_replicate. unfold is_u8. lia.
Qed.

Lemma zrange_cons a b : a < b -> zrange a b = a :: zrange (a + 1) b.
Proof.
  intros Hab. unfold zrange. replace (Z.to_nat (b - a)) with (S (Z.to_nat (b - (a + 1)))) by lia.
  cbn [seq map]. f_equal; [lia|]. rewrite <- (seq_shift _ 0), map_map. apply map_ext. lia.
Qed.

Lemma zrange_nil a b : b <= a -> zrange a b = [].
Proof. intros Hab. unfold zrange. by replace (Z.to_nat (b - a)) with 0%nat by lia. Qed.

Lemma zrange_length a b : length (zrange a b) = Z.to_nat (b - a).
Proof. unfold zrange. by rewrite length_map, length_seq. Qed.

Lemma elem_of_zrange a b i : i ∈ zrange a b <-> a <= i < b.
Proof.
  unfold zrange. rewrite list_elem_of_fmap. setoid_rewrite elem_of_seq. split.
  - intros (k & -> & Hk). lia.
  - intros Hi. exists (Z.to_nat (i - a)). lia.
Qed.

Lemma zrange_snoc a b : a <= b -> zrange a (b + 1) = zrange a b ++ [b].
Proof.
  intros Hab. unfold zrange. replace (Z.to_nat (b + 1 - a)) with (S (Z.to_nat (b - a))) by lia.
  rewrite seq_S, map_app. cbn. do 2 f_equal. lia.
Qed.

Lemma zrange_app a b c : a <= b <= c -> zrange a c = zrange a b ++ zrange b c.
Proof.
  intros Hb. unfold zrange.
  replace (Z.to_nat (c - a)) with (Z.to_nat (b - a) + Z.to_nat (c - b))%nat by lia.
  rewrite seq_app, map_app. f_equal. cbn [Nat.add].
  generalize (Z.to_nat (c - b)). intros n. apply list_eq. intros i.
  rewrite !list_lookup_fmap. destruct (decide (i < n)%nat).
  - rewrite !lookup_seq_lt by done. cbn. f_equal. lia.
  - by rewrite !lookup_seq_ge by lia.
Qed.

Lemma zrange_lookup a b i : (i < Z.to_nat (b - a))%nat -> zrange a b !! i = Some (a + Z.of_nat i).
Proof. intros Hi. unfold zrange. rewrite list_lookup_fmap, lookup_seq_lt by done. done. Qed.

Lemma NoDup_zrange a b : NoDup (zrange a b).
Proof.
  unfold zrange. apply (NoDup_fmap_2_strong (fun i => a + Z.of_nat i)); [|apply NoDup_seq].
  intros x y _ _ Hxy. lia.
Qed.

Section Foldm.
Context {I S : Type}.
Implicit Types (f : I -> S -> option S).

Lemma foldm_app f l js s : foldm f (l ++ js) s = s' ← foldm f l s; foldm f js s'.
Proof.
  revert s. induction l as [|i l IH]; intros s; [done|]. cbn. by destruct (f i s); cbn.
Qed.

(** A loop that keeps [P] and never ends the program. *)
Lemma foldm_keeps (P : S -> Prop) f l s :
  (forall i s, i ∈ l -> P s -> exists s', f i s = Some s' /\ P s') ->
  P s -> exists s', foldm f l s = Some s' /\ P s'.
Proof.
  revert s. induction l as [|i l IH]; intros s Hf Hs; [by exists s|].
  destruct (Hf i s) as (s1 & E & H1); [apply list_elem_of_here|done|]. cbn. rewrite E. cbn.
  apply IH; [|done]. intros j t Hj. apply Hf. by apply list_elem_of_further.
Qed.

(** With an invariant that says how far the loop has come. *)
Lemma foldm_invariant (P : nat -> S -> Prop) f l s :
  (forall n i s, l !! n = Some i -> P n s -> exists s', f i s = Some s' /\ P (Datatypes.S n) s') ->
  P 0%nat s -> exists s', foldm f l s = Some s' /\ P (length l) s'.
Proof.
  revert P s. induction l as [|i l IH]; intros P s Hf Hs; [by exists s|].
  destruct (Hf 0%nat i s) as (s1 & E & H1); [done..|]. cbn. rewrite E. cbn.
  apply (IH (fun n => P (Datatypes.S n))); [|done]. intros n j t Hj. by apply Hf.
Qed.

Lemma foldm_ext f g l s : (forall i s, i ∈ l -> f i s = g i s) -> foldm f l s = foldm g l s.
Proof.
  revert s. induction l as [|i l IH]; intros s Hfg; [done|]. cbn.
  rewrite Hfg by apply list_elem_of_here. destruct (g i s); [|done]. cbn.
  apply IH. intros j t Hj. apply Hfg. by apply list_elem_of_further.
Qed.
End Foldm.

Lemma foldm_pointwise {I S} (f g : I -> S -> option S) l s : (forall i s, f i s = g i s) -> foldm f l s = foldm g l s.
Proof. intros H. by apply foldm_ext. Qed.

Lemma foldm_map {I J S} (g : J -> I) (f : I -> S -> option S) js s :
  foldm f (map g js) s = foldm (fun j => f (g j)) js s.
Proof. revert s. induction js as [|j js IH]; intros s; [done|]. cbn. by destruct (f (g j) s); cbn. Qed.

(** Nested loops as one. *)
Lemma foldm_nested {I J S} (g : I -> J -> S -> option S) l js s :
  foldm (fun i s => foldm (g i) js s) l s = foldm (fun '(i, j) s => g i j s) (list_prod l js) s.
Proof.
  revert s. induction l as [|i l IH]; intros s; [done|]. cbn [foldm list_prod]. rewrite foldm_app, foldm_map.
  destruct (foldm (g i) js s); [apply IH|done].
Qed.

(** ** Bits *)

Lemma getBit_testbit x i : 0 <= i -> getBit x i = Z.testbit x i.
Proof.
  intros Hi. unfold getBit. change 1 with (Z.ones 1). rewrite Z.land_ones by lia.
  change (2 ^ 1) with 2. rewrite <- Z.bit0_mod, Z.shiftr_spec, Z.add_0_l by lia. by destruct (Z.testbit x i).
Qed.

Lemma land_1_testbit x i : 0 <= i -> Z.land (Z.shiftr x i) 1 = b2z (Z.testbit x i).
Proof.
  intros Hi. change 1 with (Z.ones 1) at 1. rewrite Z.land_ones by lia.
  change (2 ^ 1) with 2. rewrite <- Z.bit0_mod, Z.shiftr_spec, Z.add_0_l by lia. by destruct (Z.testbit x i).
Qed.

Lemma bits_of_S n v : bits_of (S n) v = Z.testbit v (Z.of_nat n) :: bits_of n v.
Proof. unfold bits_of. by rewrite seq_S, rev_app_distr. Qed.

Lemma bits_of_length n v : length (bits_of n v) = n.
Proof. unfold bits_of. by rewrite length_map, length_rev, length_seq. Qed.

Lemma bits_app a b : bits (a ++ b) = bits a ++ bits b.
Proof. unfold bits. by rewrite map_app, concat_app. Qed.

Lemma bits_length a : length (bits a) = (8 * length a)%nat.
Proof.
  unfold bits. induction a as [|x a IH]; [done|]. cbn [map concat length]. rewrite length_app, bits_of_length, IH. lia.
Qed.

Lemma of_bits_snoc bs b : of_bits (bs ++ [b]) = 2 * of_bits bs + b2z b.
Proof. unfold of_bits. by rewrite fold_left_app. Qed.

Lemma of_bits_range bs : 0 <= of_bits bs < 2 ^ Z.of_nat (length bs).
Proof.
  induction bs as [|b bs IH] using rev_ind; [done|]. rewrite of_bits_snoc, length_app. cbn [length].
  replace (Z.of_nat (length bs + 1)) with (Z.succ (Z.of_nat (length bs))) by lia.
  rewrite Z.pow_succ_r by lia. destruct b; unfold b2z; lia.
Qed.

Lemma bits_of_snoc n v : bits_of (S n) v = bits_of n (v / 2) ++ [Z.odd v].
Proof.
  unfold bits_of. cbn [seq]. rewrite <- (seq_shift n 0). cbn [rev]. rewrite map_app. f_equal.
  rewrite <- map_rev, map_map. apply map_ext. intros i.
  rewrite Nat2Z.inj_succ. symmetry. by apply Z.div2_bits; lia.
Qed.

(** Reading back what was written. *)
Lemma of_bits_of n : forall v, 0 <= v < 2 ^ Z.of_nat n -> of_bits (bits_of n v) = v.
Proof.
  induction n as [|n IH]; intros v Hv; [cbn in *; lia|].
  rewrite bits_of_snoc, of_bits_snoc, IH.
  - rewrite (Z.div_mod v 2) at 3 by lia. rewrite Zmod_odd. destruct (Z.odd v); unfold b2z; lia.
  - rewrite Nat2Z.inj_succ, Z.pow_succ_r in Hv by lia.
    split; [apply Z.div_pos; lia|apply Z.div_lt_upper_bound; lia].
Qed.

(** ** Reading and writing behind a prefix *)

Lemma rd_mid pre c t i : i = Z.of_nat (length pre) -> rd (pre ++ c :: t) i = Some c.
Proof.
  intros ->. unfold rd. rewrite (proj2 (Z.leb_le _ _)), Nat2Z.id by lia. by apply list_lookup_middle.
Qed.

Lemma wr_mid pre c t i v : i = Z.of_nat (length pre) -> wr (pre ++ c :: t) i v = Some (pre ++ v :: t).
Proof.
  intros ->. rewrite wr_some by (rewrite length_app; cbn; lia). rewrite Nat2Z.id. f_equal.
  rewrite insert_app_r_alt, Nat.sub_diag by lia. done.
Qed.

Lemma rd_app_l a b i : i < Z.of_nat (length a) -> rd (a ++ b) i = rd a i.
Proof. intros Hi. unfold rd. destruct (Z.leb_spec 0 i); [|done]. apply lookup_app_l. lia. Qed.

Lemma wr_app_l a b i v a' : wr a i v = Some a' -> wr (a ++ b) i v = Some (a' ++ b).
Proof.
  intros [Hi ->]%wr_inv. rewrite wr_some by (rewrite length_app; lia). f_equal. apply insert_app_l. lia.
Qed.

(** The loop in the goal, by an invariant [P n s] of the state after [n] rounds, or by one
    that every round keeps. *)
Ltac loop_invariant P :=
  match goal with |- context [@foldm ?I ?S ?f ?l ?s] =>
    let s' := fresh "s" in let E := fresh "E" in let H := fresh "Hinv" in
    destruct (@foldm_invariant I S P f l s) as (s' & E & H); [| |rewrite E; clear E] end.

Ltac loop_keeps P :=
  match goal with |- context [@foldm ?I ?S ?f ?l ?s] =>
    let s' := fresh "s" in let E := fresh "E" in let H := fresh "Hinv" in
    destruct (@foldm_keeps I S P f l s) as (s' & E & H); [| |rewrite E; clear E] end.

Lemma rd_nat a n : rd a (Z.of_nat n) = a !! n.
Proof. unfold rd. by rewrite (proj2 (Z.leb_le _ _)), Nat2Z.id by lia. Qed.

Lemma rd_head c t : rd (c :: t) 0 = Some c.
Proof. done. Qed.

(** ** Local arrays *)

(** What an array on the stack holds before it is written: any bytes. *)
Class Uninit := {
  uninit : Z -> arr;
  uninit_length n : 0 <= n -> length (uninit n) = Z.to_nat n;
  uninit_bytes n : bytes_ok (uninit n)
}.

(** A stack of zeros *)
Definition zero_stack : Uninit.
Proof.
  refine {| uninit n := replicate (Z.to_nat n) 0 |}.
  - intros n _. apply length_replicate.
  - intros n. apply Forall_replicate. unfold is_u8. lia.
Defined.

(** ** Assertions *)

Lemma assert_true b : b = true -> assert b = Some tt.
Proof. by intros ->. Qed.

(** The next [assert] of the goal holds, by arithmetic. *)
Ltac pass_assert :=
  rewrite assert_true by (rewrite ?andb_true_iff, ?negb_true_iff, ?Z.leb_le, ?Z.ltb_lt, ?Z.eqb_eq, ?Z.eqb_neq; lia);
  cbn [mbind option_bind].
