(* ===== verification/QrField.v ===== *)
(** * The Reed-Solomon arithmetic of the QR code generator: tools/qrtext/qrcodegen.h

    [reedSolomonMultiply] is the product of the field GF(2^8/0x11D): it is
    additive in each argument, so its laws on all pairs and triples of bytes
    follow from those on the eight powers of two ([linear_ext]), which are
    evaluated.  A polynomial is the list of its coefficients, highest first,
    and [eval] its value.  [reedSolomonComputeDivisor] builds the product of
    the [x - 2^i]; the data followed by [reedSolomonComputeRemainder] has all
    the [2^i] as roots; words that do differ in more than [degree] places. *)

From Stdlib Require Import ZArith Lia List.
From stdpp Require Import base tactics list numbers option.
From S2P Require Import Prelude QrArray.

(** ** The code *)

(** One round of the Russian peasant multiplication, without the addition. *)
Definition xtime (z : Z) : Z := u8 (Z.lxor (Z.shiftl z 1) (Z.shiftr z 7 * 0x11D)).

Definition reedSolomonMultiply (x y : Z) : Z :=
  fold_left (fun z i => let z := xtime z in
                        u8 (Z.lxor z (Z.land (Z.shiftr y i) 1 * x)))
            (rev (zrange 0 8)) 0.

Definition qrcodegen_REED_SOLOMON_DEGREE_MAX : Z := 30.

(** The body of the inner loop of [reedSolomonComputeDivisor]. *)
Definition divisor_step (degree root j : Z) (result : arr) : option arr :=
  c ← rd result j;
  result ← wr result j (reedSolomonMultiply c root);
  if j + 1 <? degree then
    c ← rd result j; c1 ← rd result (j + 1); wr result j (Z.lxor c c1)
  else Some result.

Definition reedSolomonComputeDivisor (degree : Z) (result : arr) : option arr :=
  assert ((1 <=? degree) && (degree <=? qrcodegen_REED_SOLOMON_DEGREE_MAX));;
  result ← clear result degree;
  result ← wr result (degree - 1) 1;
  p ← foldm (fun i '(result, root) =>
               result ← foldm (divisor_step degree root) (zrange 0 degree) result;
               Some (result, reedSolomonMultiply root 0x02))
            (zrange 0 degree) (result, 1);
  Some p.1.

(** [memmove(&a[0], &a[1], n)] *)
Definition shift_down (a : arr) (n : Z) : option arr :=
  if (0 <=? n) && (n <? Z.of_nat (length a))
  then Some (take (Z.to_nat n) (drop 1 a) ++ drop (Z.to_nat n) a) else None.

(** One byte of the data: a step of the division. *)
Definition remainder_step (data generator : arr) (degree i : Z) (result : arr) : option arr :=
  d ← rd data i; r0 ← rd result 0;
  let factor := Z.lxor d r0 in
  result ← shift_down result (degree - 1);
  result ← wr result (degree - 1) 0;
  foldm (fun j result => c ← rd result j; g ← rd generator j;
                         wr result j (Z.lxor c (reedSolomonMultiply g factor)))
        (zrange 0 degree) result.

Definition reedSolomonComputeRemainder (data : arr) (dataLen : Z) (generator : arr) (degree : Z)
    (result : arr) : option arr :=
  assert ((1 <=? degree) && (degree <=? qrcodegen_REED_SOLOMON_DEGREE_MAX));;
  result ← clear result degree;
  foldm (remainder_step data generator degree) (zrange 0 dataLen) result.

(** ** The field *)

Declare Scope gf_scope.
Delimit Scope gf_scope with gf.
Infix "⊕" := Z.lxor (at level 50, left associativity) : gf_scope.
Infix "⊗" := reedSolomonMultiply (at level 40, left associativity) : gf_scope.
Local Open Scope gf_scope.

Create HintDb gf discriminated.

Lemma is_u8_testbit z i : is_u8 z -> 8 <= i -> Z.testbit z i = false.
Proof. intros Hz Hi. rewrite <- (Z.mod_small z (2 ^ 8)) by done. apply Z.mod_pow2_bits_high. lia. Qed.

Lemma u8_land z : u8 z = Z.land z (Z.ones 8).
Proof. unfold u8. by rewrite Z.land_ones. Qed.

Lemma land_lxor_l a b c : Z.land (a ⊕ b) c = Z.land a c ⊕ Z.land b c.
Proof.
  apply Z.bits_inj'. intros n _. rewrite Z.land_spec, !Z.lxor_spec, !Z.land_spec.
  by destruct (Z.testbit a n), (Z.testbit b n), (Z.testbit c n).
Qed.

Lemma u8_lxor a b : u8 (a ⊕ b) = u8 a ⊕ u8 b.
Proof. rewrite !u8_land. apply land_lxor_l. Qed.

Lemma lxor_u8 a b : is_u8 a -> is_u8 b -> is_u8 (a ⊕ b).
Proof. intros Ha Hb. rewrite <- (u8_id a), <- (u8_id b), <- u8_lxor by done. apply u8_range. Qed.

Lemma xtime_u8 z : is_u8 (xtime z).
Proof. apply u8_range. Qed.

Lemma mul_u8 x y : is_u8 (x ⊗ y).
Proof. unfold reedSolomonMultiply. cbn [zrange rev map seq app fold_left Z.sub Z.to_nat]. apply u8_range. Qed.

Lemma is_u8_0 : is_u8 0. Proof. unfold is_u8. lia. Qed.
Lemma is_u8_1 : is_u8 1. Proof. unfold is_u8. lia. Qed.
Lemma is_u8_2 : is_u8 2. Proof. unfold is_u8. lia. Qed.

#[export] Hint Resolve lxor_u8 xtime_u8 mul_u8 is_u8_0 is_u8_1 is_u8_2 : gf.

Lemma lxor_swap a b c d : (a ⊕ b) ⊕ (c ⊕ d) = (a ⊕ c) ⊕ (b ⊕ d).
Proof. rewrite !Z.lxor_assoc. f_equal. rewrite <- !Z.lxor_assoc. f_equal. apply Z.lxor_comm. Qed.

Lemma lxor_cancel a b : (a ⊕ b) ⊕ b = a.
Proof. by rewrite Z.lxor_assoc, Z.lxor_nilpotent, Z.lxor_0_r. Qed.

Lemma lxor_eq_0 a b : a ⊕ b = 0 -> a = b.
Proof. apply Z.lxor_eq. Qed.

(** *** Additivity *)

Lemma bit_cases z n : Z.land (Z.shiftr z n) 1 = 0 \/ Z.land (Z.shiftr z n) 1 = 1.
Proof. change 1 with (Z.ones 1) at 1 2. rewrite Z.land_ones by lia. change (2 ^ 1) with 2. change (Z.ones 1) with 1.
  pose proof (Z.mod_pos_bound (Z.shiftr z n) 2 eq_refl). lia. Qed.

Lemma top_bit z : is_u8 z -> Z.shiftr z 7 = 0 \/ Z.shiftr z 7 = 1.
Proof. unfold is_u8. intros Hz. rewrite Z.shiftr_div_pow2 by lia. change (2 ^ 7) with 128.
  change (2 ^ 8) with 256 in Hz. assert (0 <= z / 128 < 2); [|lia].
  split; [apply Z.div_pos|apply Z.div_lt_upper_bound]; lia. Qed.

Lemma xtime_add a b : is_u8 a -> is_u8 b -> xtime (a ⊕ b) = xtime a ⊕ xtime b.
Proof.
  intros Ha Hb. unfold xtime. rewrite <- u8_lxor, lxor_swap, <- Z.shiftl_lxor. do 2 f_equal.
  rewrite Z.shiftr_lxor. by destruct (top_bit a Ha) as [-> | ->], (top_bit b Hb) as [-> | ->].
Qed.

Lemma mul_add_l y a b : is_u8 a -> is_u8 b -> (a ⊕ b) ⊗ y = (a ⊗ y) ⊕ (b ⊗ y).
Proof.
  intros Ha Hb. unfold reedSolomonMultiply.
  cut (forall l za zb, is_u8 za -> is_u8 zb ->
    fold_left (fun z i => u8 (xtime z ⊕ Z.land (Z.shiftr y i) 1 * (a ⊕ b))) l (za ⊕ zb) =
    fold_left (fun z i => u8 (xtime z ⊕ Z.land (Z.shiftr y i) 1 * a)) l za ⊕
    fold_left (fun z i => u8 (xtime z ⊕ Z.land (Z.shiftr y i) 1 * b)) l zb).
  { intros Hl. by apply (Hl _ 0 0). }
  induction l as [|i l IH]; intros za zb Hza Hzb; [done|]. cbn [fold_left].
  rewrite <- IH by apply u8_range. f_equal. rewrite <- u8_lxor, lxor_swap, <- xtime_add by done. do 2 f_equal.
  destruct (bit_cases y i) as [-> | ->]; by rewrite ?Z.mul_0_l, ?Z.mul_1_l.
Qed.

Lemma mul_add_r x a b : is_u8 x -> is_u8 a -> is_u8 b -> x ⊗ (a ⊕ b) = (x ⊗ a) ⊕ (x ⊗ b).
Proof.
  intros Hx Ha Hb. unfold reedSolomonMultiply.
  cut (forall l za zb, is_u8 za -> is_u8 zb ->
    fold_left (fun z i => u8 (xtime z ⊕ Z.land (Z.shiftr (a ⊕ b) i) 1 * x)) l (za ⊕ zb) =
    fold_left (fun z i => u8 (xtime z ⊕ Z.land (Z.shiftr a i) 1 * x)) l za ⊕
    fold_left (fun z i => u8 (xtime z ⊕ Z.land (Z.shiftr b i) 1 * x)) l zb).
  { intros Hl. by apply (Hl _ 0 0). }
  induction l as [|i l IH]; intros za zb Hza Hzb; [done|]. cbn [fold_left].
  rewrite <- IH by apply u8_range. f_equal. rewrite <- u8_lxor, lxor_swap, <- xtime_add by done. do 2 f_equal.
  rewrite Z.shiftr_lxor, land_lxor_l.
  destruct (bit_cases a i) as [-> | ->], (bit_cases b i) as [-> | ->];
    by rewrite ?Z.lxor_nilpotent, ?Z.lxor_0_l, ?Z.lxor_0_r, ?Z.mul_0_l, ?Z.mul_1_l, ?Z.lxor_nilpotent, ?Z.lxor_0_l, ?Z.lxor_0_r.
Qed.

Definition additive (f : Z -> Z) : Prop := forall a b, is_u8 a -> is_u8 b -> f (a ⊕ b) = f a ⊕ f b.

(** Additive maps that agree on the powers of two agree on the bytes. *)
Lemma linear_ext f g : additive f -> additive g ->
  forallb (fun i => f (2 ^ i) =? g (2 ^ i)) (zrange 0 8) = true ->
  forall x, is_u8 x -> f x = g x.
Proof.
  intros Hf Hg Hb. assert (Hi : forall i, 0 <= i < 8 -> f (2 ^ i) = g (2 ^ i)).
  { intros i Hi. rewrite forallb_forall in Hb. apply Z.eqb_eq, Hb, list_elem_of_In, elem_of_zrange. lia. }
  assert (H0 : forall h, additive h -> h 0 = 0).
  { intros h Hh. generalize (Hh 0 0 is_u8_0 is_u8_0). rewrite !Z.lxor_nilpotent. done. }
  cut (forall n : nat, (n <= 8)%nat -> forall x, 0 <= x < 2 ^ Z.of_nat n -> f x = g x).
  { intros Hn x Hx. by apply (Hn 8%nat). }
  induction n as [|n IH]; intros Hn x Hx.
  { cbn in Hx. replace x with 0 by lia. by rewrite !H0. }
  rewrite Nat2Z.inj_succ, Z.pow_succ_r in Hx by lia.
  destruct (Z.lt_ge_cases x (2 ^ Z.of_nat n)); [apply IH; lia|].
  set (y := x - 2 ^ Z.of_nat n). assert (Hxy : x = y ⊕ 2 ^ Z.of_nat n).
  { rewrite <- Z.add_nocarry_lxor; [lia|]. apply Z.bits_inj'. intros k Hk.
    rewrite Z.land_spec, Z.bits_0, Z.pow2_bits_eqb by lia. destruct (Z.eqb_spec (Z.of_nat n) k) as [<-|]; [|by rewrite andb_false_r].
    rewrite <- (Z.mod_small y (2 ^ Z.of_nat n)) by lia. by rewrite Z.mod_pow2_bits_high by lia. }
  assert (2 ^ Z.of_nat n <= 2 ^ 7) by (apply Z.pow_le_mono_r; lia).
  assert (is_u8 y /\ is_u8 (2 ^ Z.of_nat n)) as [] by (unfold is_u8; lia).
  rewrite Hxy, Hf, Hg by done. f_equal; [apply IH; lia|apply Hi; lia].
Qed.

(** *** Laws *)

Lemma additive_mul_l y : additive (fun x => x ⊗ y).
Proof. intros a b Ha Hb. by apply mul_add_l. Qed.

Lemma additive_mul_r x : is_u8 x -> additive (fun y => x ⊗ y).
Proof. intros Hx a b Ha Hb. by apply mul_add_r. Qed.

Lemma additive_comp f g : (forall x, is_u8 (g x)) -> additive f -> additive g -> additive (fun x => f (g x)).
Proof. intros Hu Hf Hg a b Ha Hb. by rewrite Hg, Hf. Qed.

#[local] Hint Resolve additive_mul_l additive_mul_r additive_comp : gf.

Lemma pow2_u8 i : i ∈ zrange 0 8 -> is_u8 (2 ^ i).
Proof. rewrite elem_of_zrange. intros Hi. unfold is_u8. split; [lia|]. apply Z.pow_lt_mono_r; lia. Qed.

Lemma forallb_zrange (P : Z -> bool) a b : (forall i, i ∈ zrange a b -> P i = true) -> forallb P (zrange a b) = true.
Proof. intros HP. apply forallb_forall. intros i Hi. by apply HP, list_elem_of_In. Qed.

Lemma mul_comm x y : is_u8 x -> is_u8 y -> x ⊗ y = y ⊗ x.
Proof.
  intros Hx Hy. revert x Hx. apply linear_ext; [auto with gf..|].
  apply forallb_zrange. intros i Hi. apply Z.eqb_eq. pose proof (pow2_u8 i Hi) as Hu.
  revert y Hy. apply linear_ext; [auto with gf..|].
  assert (H : forallb (fun i => forallb (fun j => (2 ^ i ⊗ 2 ^ j =? 2 ^ j ⊗ 2 ^ i)) (zrange 0 8)) (zrange 0 8) = true)
    by (vm_compute; reflexivity).
  rewrite forallb_forall in H. apply H. by apply list_elem_of_In.
Qed.

Lemma mul_1_r x : is_u8 x -> x ⊗ 1 = x.
Proof. revert x. apply (linear_ext _ (fun x => x)); [auto with gf|done|]. vm_compute. reflexivity. Qed.

Lemma mul_2_r x : is_u8 x -> x ⊗ 2 = xtime x.
Proof. revert x. apply linear_ext; [auto with gf|exact xtime_add|]. vm_compute. reflexivity. Qed.

Lemma mul_1_l x : is_u8 x -> 1 ⊗ x = x.
Proof. intros Hx. rewrite mul_comm, mul_1_r; auto with gf. Qed.

Lemma mul_0_r x : is_u8 x -> x ⊗ 0 = 0.
Proof. intros Hx. change 0 with (0 ⊕ 0) at 1. rewrite mul_add_r by auto with gf. apply Z.lxor_nilpotent. Qed.

Lemma mul_0_l x : 0 ⊗ x = 0.
Proof. change 0 with (0 ⊕ 0) at 1. rewrite mul_add_l by auto with gf. apply Z.lxor_nilpotent. Qed.

Lemma mul_assoc x y z : is_u8 x -> is_u8 y -> is_u8 z -> x ⊗ (y ⊗ z) = x ⊗ y ⊗ z.
Proof.
  intros Hx Hy Hz. revert x Hx. apply (linear_ext (fun x => x ⊗ (y ⊗ z)) (fun x => x ⊗ y ⊗ z));
    [auto with gf|apply (additive_comp (fun w => w ⊗ z) (fun x => x ⊗ y)); auto with gf|].
  apply forallb_zrange. intros i Hi. apply Z.eqb_eq. pose proof (pow2_u8 i Hi).
  revert y Hy. apply (linear_ext (fun y => 2 ^ i ⊗ (y ⊗ z)) (fun y => 2 ^ i ⊗ y ⊗ z));
    [apply (additive_comp (fun w => 2 ^ i ⊗ w) (fun y => y ⊗ z)); auto with gf
    |apply (additive_comp (fun w => w ⊗ z) (fun y => 2 ^ i ⊗ y)); auto with gf|].
  apply forallb_zrange. intros j Hj. apply Z.eqb_eq. pose proof (pow2_u8 j Hj).
  revert z Hz. apply (linear_ext (fun z => 2 ^ i ⊗ (2 ^ j ⊗ z)) (fun z => 2 ^ i ⊗ 2 ^ j ⊗ z));
    [apply (additive_comp (fun w => 2 ^ i ⊗ w) (fun z => 2 ^ j ⊗ z)); auto with gf|auto with gf|].
  assert (Hb : forallb (fun i => forallb (fun j => forallb (fun k =>
    2 ^ i ⊗ (2 ^ j ⊗ 2 ^ k) =? 2 ^ i ⊗ 2 ^ j ⊗ 2 ^ k) (zrange 0 8)) (zrange 0 8)) (zrange 0 8) = true)
    by (vm_compute; reflexivity).
  rewrite forallb_forall in Hb. specialize (Hb i). rewrite forallb_forall in Hb.
  apply Hb; by apply list_elem_of_In.
Qed.

#[local] Opaque reedSolomonMultiply xtime.

(** *** Powers of two, inverses *)

(** [2^i] in the field. *)
Definition alpha (i : nat) : Z := Nat.iter i xtime 1.

Lemma alpha_u8 i : is_u8 (alpha i).
Proof. destruct i; [apply is_u8_1|apply xtime_u8]. Qed.
#[export] Hint Resolve alpha_u8 : gf.

Lemma alpha_add i j : alpha (i + j) = alpha i ⊗ alpha j.
Proof.
  induction i as [|i IH]; [by rewrite mul_1_l by apply alpha_u8|].
  change (xtime (alpha (i + j)) = xtime (alpha i) ⊗ alpha j).
  rewrite <- (mul_2_r (alpha i)), <- (mul_comm 2), IH, <- (mul_2_r (_ ⊗ _)), (mul_comm _ 2) by auto with gf.
  rewrite mul_assoc; auto with gf.
Qed.

Lemma alpha_255 : alpha 255 = 1.
Proof. vm_compute. reflexivity. Qed.

Fixpoint powers (n : nat) (z : Z) : list Z :=
  match n with O => [] | S n => z :: powers n (xtime z) end.

Lemma powers_alpha n : forall i, map alpha (seq i n) = powers n (alpha i).
Proof. induction n as [|n IH]; intros i; [done|]. cbn [seq map powers]. by rewrite IH. Qed.

Lemma powers_onto :
  (let ps := powers 255 1 in forallb (fun x => existsb (Z.eqb x) ps) (zrange 1 256)) = true.
Proof. vm_compute. reflexivity. Qed.

(** The nonzero bytes are the first 255 powers of two. *)
Lemma alpha_onto x : is_u8 x -> x <> 0 -> exists i, (i < 255)%nat /\ x = alpha i.
Proof.
  intros Hx Hx0.
  pose proof powers_onto as H. rewrite forallb_forall in H. specialize (H x).
  rewrite existsb_exists in H. destruct H as (y & Hy & E).
  - apply list_elem_of_In, elem_of_zrange. unfold is_u8 in Hx. lia.
  - apply Z.eqb_eq in E as <-. change 1 with (alpha 0) in Hy. rewrite <- powers_alpha in Hy. apply in_map_iff in Hy as (i & <- & Hi%in_seq). exists i. split; [lia|done].
Qed.

Lemma alpha_nonzero i : (i <= 255)%nat -> alpha i <> 0.
Proof.
  intros Hi E. assert (H : alpha 255 = alpha (255 - i) ⊗ alpha i) by (rewrite <- alpha_add; f_equal; lia).
  rewrite E, mul_0_r, alpha_255 in H by auto with gf. discriminate.
Qed.

Lemma alpha_NoDup : NoDup (map alpha (seq 0 255)).
Proof.
  apply NoDup_ListNoDup, (NoDup_incl_NoDup (l := zrange 1 256)).
  - apply NoDup_ListNoDup, NoDup_zrange.
  - by rewrite length_map, length_seq, zrange_length.
  - intros x Hx%list_elem_of_In%elem_of_zrange.
    destruct (alpha_onto x) as (i & Hi & ->); [unfold is_u8; lia|lia|].
    apply in_map, in_seq. lia.
Qed.

Lemma alpha_inj i j : (i < 255)%nat -> (j < 255)%nat -> alpha i = alpha j -> i = j.
Proof.
  intros Hi Hj E. apply (NoDup_lookup _ _ _ (alpha i) alpha_NoDup).
  - by rewrite list_lookup_fmap, lookup_seq_lt.
  - rewrite list_lookup_fmap, lookup_seq_lt by done. cbn. by rewrite E.
Qed.

Lemma inverse x : is_u8 x -> x <> 0 -> exists y, is_u8 y /\ y ⊗ x = 1.
Proof.
  intros Hx H0. destruct (alpha_onto x Hx H0) as (i & Hi & ->). exists (alpha (255 - i)).
  split; [auto with gf|]. rewrite <- alpha_add, <- alpha_255. f_equal. lia.
Qed.

Lemma mul_eq_0 x y : is_u8 x -> is_u8 y -> x ⊗ y = 0 -> x = 0 \/ y = 0.
Proof.
  intros Hx Hy E. destruct (decide (x = 0)) as [|H0]; [by left|right].
  destruct (inverse x Hx H0) as (z & Hz & Hzx). rewrite <- (mul_1_l y), <- Hzx, <- mul_assoc, E by done. by apply mul_0_r.
Qed.

(** ** Polynomials *)

Definition eval (p : arr) (a : Z) : Z := fold_left (fun r c => r ⊗ a ⊕ c) p 0.

Definition gpow (a : Z) (n : nat) : Z := Nat.iter n (reedSolomonMultiply a) 1.

Lemma gpow_u8 a n : is_u8 (gpow a n).
Proof. destruct n; [apply is_u8_1|apply mul_u8]. Qed.

Lemma eval_snoc p c a : eval (p ++ [c]) a = eval p a ⊗ a ⊕ c.
Proof. unfold eval. by rewrite fold_left_app. Qed.

Lemma eval_u8 p a : bytes_ok p -> is_u8 (eval p a).
Proof.
  intros Hp. destruct p as [|c p] using rev_ind; [apply is_u8_0|]. rewrite eval_snoc.
  apply lxor_u8; [apply mul_u8|]. apply Forall_app in Hp as [_ Hc]. by inversion Hc.
Qed.
#[export] Hint Resolve gpow_u8 eval_u8 : gf.

Lemma gpow_S a n : is_u8 a -> gpow a (S n) = gpow a n ⊗ a.
Proof. intros Ha. change (a ⊗ gpow a n = gpow a n ⊗ a). apply mul_comm; auto with gf. Qed.

Lemma gpow_alpha i n : gpow (alpha i) n = alpha (i * n).
Proof. induction n as [|n IH]; [by rewrite Nat.mul_0_r|]. change (alpha i ⊗ gpow (alpha i) n = alpha (i * S n)).
  rewrite IH, <- alpha_add. f_equal. lia. Qed.

Lemma eval_app p q a : is_u8 a -> bytes_ok p -> bytes_ok q ->
  eval (p ++ q) a = eval p a ⊗ gpow a (length q) ⊕ eval q a.
Proof.
  intros Ha Hp. induction q as [|c q IH] using rev_ind; intros Hq.
  - rewrite app_nil_r. cbn. rewrite mul_1_r by auto with gf. by rewrite Z.lxor_0_r.
  - apply Forall_app in Hq as [Hq Hc]; apply Forall_inv in Hc.
    rewrite app_assoc, !eval_snoc, IH, length_app by done. cbn [length]. rewrite Nat.add_1_r, gpow_S by done.
    assert (is_u8 (eval p a) /\ is_u8 (eval q a)) as [] by auto with gf.
    rewrite mul_add_l, <- mul_assoc, Z.lxor_assoc; auto with gf.
Qed.

Lemma eval_cons c q a : is_u8 a -> is_u8 c -> bytes_ok q -> eval (c :: q) a = c ⊗ gpow a (length q) ⊕ eval q a.
Proof.
  intros Ha Hc Hq. change (c :: q) with ([c] ++ q). rewrite eval_app; [|done|by constructor|done].
  cbn. by rewrite mul_0_l, Z.lxor_0_l.
Qed.

(** ** The generator polynomial *)

(** [r] times [x - root], without the leading coefficient. *)
Fixpoint times_root (root : Z) (r : arr) : arr :=
  match r with
  | [] => []
  | c :: r => c ⊗ root ⊕ hd 0 r :: times_root root r
  end.

Lemma times_root_length root r : length (times_root root r) = length r.
Proof. induction r; cbn; congruence. Qed.

Lemma hd_u8 r : bytes_ok r -> is_u8 (hd 0 r).
Proof. intros [|]; [apply is_u8_0|done]. Qed.

Lemma times_root_bytes root r : bytes_ok r -> bytes_ok (times_root root r).
Proof.
  induction 1; constructor; [|done]. apply lxor_u8; [apply mul_u8|by apply hd_u8].
Qed.
Lemma bytes_cons c r : is_u8 c -> bytes_ok r -> bytes_ok (c :: r).
Proof. by constructor. Qed.
#[export] Hint Resolve hd_u8 times_root_bytes bytes_cons : gf.

Lemma times_root_eval root r a : is_u8 root -> is_u8 a -> bytes_ok r ->
  eval (hd 0 r :: times_root root r) a = (a ⊕ root) ⊗ eval r a.
Proof.
  intros Hroot Ha. induction 1 as [|c r Hc Hr IH]; [|].
  { change (0 ⊗ a ⊕ 0 = (a ⊕ root) ⊗ 0). rewrite mul_0_l, mul_0_r; auto with gf. }
  set (L := length r). assert (Hu : is_u8 (eval r a)) by auto with gf.
  rewrite eval_cons in IH by auto with gf. rewrite times_root_length in IH. fold L in IH.
  cbn [hd times_root]. rewrite !(eval_cons _ _ a Ha) by auto 7 with gf.
  cbn [length]. rewrite times_root_length. fold L.
  rewrite (mul_add_l _ (c ⊗ root)), (Z.lxor_assoc (c ⊗ root ⊗ _)), IH by auto with gf.
  rewrite (mul_add_r (a ⊕ root)) by auto with gf. rewrite <- Z.lxor_assoc. f_equal.
  rewrite gpow_S, (mul_add_l _ a root) by auto with gf. f_equal.
  - rewrite (mul_comm _ a), !mul_assoc, (mul_comm c a); auto with gf.
  - rewrite (mul_comm c root), <- mul_assoc; auto with gf.
Qed.

Lemma times_root_zeros root k r :
  times_root root (replicate (S k) 0 ++ r) = replicate k 0 ++ hd 0 r :: times_root root r.
Proof.
  induction k as [|k IH]; [cbn; by rewrite mul_0_l|].
  change (0 ⊗ root ⊕ 0 :: times_root root (replicate (S k) 0 ++ r) = 0 :: replicate k 0 ++ hd 0 r :: times_root root r).
  by rewrite mul_0_l, IH.
Qed.

Lemma divisor_step_mid degree root pre c r rest :
  degree = Z.of_nat (length pre + S (length r)) ->
  divisor_step degree root (Z.of_nat (length pre)) (pre ++ c :: r ++ rest) =
  Some ((pre ++ [c ⊗ root ⊕ hd 0 r]) ++ r ++ rest).
Proof.
  intros Hd. unfold divisor_step. rewrite rd_mid by done. cbn [mbind option_bind].
  rewrite wr_mid by done. cbn [mbind option_bind]. rewrite <- app_assoc. destruct r as [|c1 r]; cbn [length] in Hd.
  - rewrite (proj2 (Z.ltb_ge _ _)) by lia. cbn. by rewrite Z.lxor_0_r.
  - rewrite (proj2 (Z.ltb_lt _ _)) by lia. rewrite (rd_mid pre _ _ (Z.of_nat (length pre))) by done. cbn [mbind option_bind].
    replace (rd _ (Z.of_nat (length pre) + 1)) with (Some c1); [cbn [mbind option_bind]; by rewrite wr_mid|].
    symmetry. change (pre ++ c ⊗ root :: (c1 :: r) ++ rest) with (pre ++ [c ⊗ root] ++ c1 :: r ++ rest).
    rewrite app_assoc, rd_mid; [done|rewrite length_app; cbn; lia].
Qed.

Lemma divisor_row degree root rest : forall r pre,
  degree = Z.of_nat (length pre + length r) ->
  foldm (divisor_step degree root) (zrange (Z.of_nat (length pre)) degree) (pre ++ r ++ rest) =
  Some (pre ++ times_root root r ++ rest).
Proof.
  induction r as [|c r IH]; intros pre Hd; cbn [length] in Hd; [by rewrite zrange_nil by lia|].
  rewrite zrange_cons by lia. cbn [foldm app].
  rewrite divisor_step_mid by lia. cbn [mbind option_bind].
  replace (Z.of_nat (length pre) + 1) with (Z.of_nat (length (pre ++ [c ⊗ root ⊕ hd 0 r]))) by (rewrite length_app; cbn; lia).
  rewrite IH by (rewrite length_app; cbn [length]; lia). by rewrite <- app_assoc.
Qed.

(** The product of the [x - 2^i], [i < n]. *)
Fixpoint gprod (n : nat) (a : Z) : Z :=
  match n with O => 1 | S i => (a ⊕ alpha i) ⊗ gprod i a end.

Definition is_divisor (d : nat) (g : arr) : Prop :=
  length g = d /\ bytes_ok g /\ forall a, is_u8 a -> eval (1 :: g) a = gprod d a.

(** One round of the outer loop: from [n] factors to [n + 1]. *)
Lemma divisor_round d n t rest : (n < d)%nat -> is_divisor n t ->
  exists t', is_divisor (S n) t' /\
    foldm (divisor_step (Z.of_nat d) (alpha n)) (zrange 0 (Z.of_nat d)) (tl (replicate (d - n) 0 ++ 1 :: t) ++ rest) =
    Some (tl (replicate (d - S n) 0 ++ 1 :: t') ++ rest).
Proof.
  intros Hn (Ht & Hb & He). exists (times_root (alpha n) (1 :: t)).
  assert (bytes_ok (1 :: t)) by (constructor; auto with gf). split.
  { split; [by rewrite times_root_length, <- Ht|]. split; [by apply times_root_bytes|].
    intros a Ha. cbn [gprod]. rewrite <- He by done. by apply (times_root_eval (alpha n) (1 :: t)); auto with gf. }
  replace (d - n)%nat with (S (d - S n)) by lia. cbn [replicate app tl].
  pose proof (divisor_row (Z.of_nat d) (alpha n) rest (replicate (d - S n) 0 ++ 1 :: t) []) as E.
  cbn [length app Nat.add] in E. change (Z.of_nat 0) with 0 in E. rewrite E
    by (rewrite length_app, length_replicate; cbn [length]; lia).
  do 2 f_equal. destruct (d - S n)%nat as [|k]; [done|]. by rewrite times_root_zeros.
Qed.

Theorem divisor_spec degree result :
  1 <= degree <= 30 -> degree <= Z.of_nat (length result) ->
  exists g, is_divisor (Z.to_nat degree) g /\
    reedSolomonComputeDivisor degree result = Some (g ++ drop (Z.to_nat degree) result).
Proof.
  intros Hd Hl. unfold reedSolomonComputeDivisor, qrcodegen_REED_SOLOMON_DEGREE_MAX, assert.
  rewrite !(proj2 (Z.leb_le _ _)) by lia. cbn [andb mbind option_bind].
  rewrite clear_some by lia. cbn [mbind option_bind]. set (d := Z.to_nat degree).
  set (rest := drop d result). replace degree with (Z.of_nat d) by lia.
  replace (replicate d 0) with (replicate (d - 1) 0 ++ [0]) by
    (change [0] with (replicate 1 0); rewrite <- replicate_add; f_equal; lia).
  rewrite <- app_assoc. change ([0] ++ rest) with (0 :: rest). rewrite wr_mid by (rewrite length_replicate; lia). cbn [mbind option_bind].
  loop_invariant (fun n '(r, root) => root = alpha n /\ exists t, is_divisor n t /\
    r = tl (replicate (d - n) 0 ++ 1 :: t) ++ rest).
  - intros n i [r root] Hi (-> & t & Ht & ->).
    apply lookup_lt_Some in Hi. rewrite zrange_length in Hi.
    destruct (divisor_round d n t rest) as (t' & Ht' & ->); [lia|done|]. cbn [mbind option_bind].
    eexists (_, _). split; [done|]. split; [by rewrite mul_2_r by auto with gf|]. by exists t'.
  - split; [done|]. exists []. split.
    + split; [done|]. split; [constructor|]. intros a Ha. cbn. by rewrite mul_0_l.
    + replace (d - 0)%nat with (S (d - 1)) by lia. cbn. by rewrite <- app_assoc.
  - destruct s as [r root], Hinv as (-> & t & Ht & ->). exists t. rewrite zrange_length in *. replace (Z.to_nat (Z.of_nat d - 0)) with d in * by lia.
    split; [done|]. cbn. by rewrite Nat.sub_diag.
Qed.

Lemma divisor_roots d g i : is_divisor d g -> (i < d)%nat -> eval (1 :: g) (alpha i) = 0.
Proof.
  intros (_ & _ & Hg) Hi. rewrite Hg by auto with gf. clear Hg. induction d as [|d IH]; [lia|]. cbn.
  destruct (decide (i = d)) as [->|]; [by rewrite Z.lxor_nilpotent, mul_0_l|].
  rewrite IH by lia. apply mul_0_r. auto with gf.
Qed.

(** ** The remainder *)

(** [r] plus [f] times [g] *)
Definition axpy (f : Z) (r g : arr) : arr := zip_with (fun c g => c ⊕ g ⊗ f) r g.

Lemma axpy_length f r g : length r = length g -> length (axpy f r g) = length r.
Proof. intros Hl. unfold axpy. rewrite length_zip_with. lia. Qed.

Lemma axpy_bytes f r g : bytes_ok r -> bytes_ok (axpy f r g).
Proof.
  intros Hr. revert g. induction Hr; intros [|y g]; constructor; [by apply lxor_u8; auto with gf|apply IHHr].
Qed.

Lemma axpy_eval f r g a : is_u8 f -> is_u8 a -> length r = length g -> bytes_ok r -> bytes_ok g ->
  eval (axpy f r g) a = eval r a ⊕ eval g a ⊗ f.
Proof.
  intros Hf Ha. revert g. induction r as [|c r IH]; intros [|y g] Hl Hr Hg; try discriminate.
  { cbn. by rewrite mul_0_l. }
  inversion_clear Hr. inversion_clear Hg. cbn in Hl. change (axpy f (c :: r) (y :: g)) with (c ⊕ y ⊗ f :: axpy f r g).
  assert (bytes_ok (axpy f r g)) by (by apply axpy_bytes).
  assert (is_u8 (eval r a) /\ is_u8 (eval g a)) as [] by auto with gf.
  rewrite !eval_cons, axpy_length, IH, !mul_add_l by auto with gf.
  rewrite lxor_swap. replace (length g) with (length r) by lia. do 2 f_equal.
  rewrite <- !mul_assoc by auto with gf. f_equal. apply mul_comm; auto with gf.
Qed.

Lemma axpy_loop f degree gen rest : forall r g gpre pre,
  length r = length g -> length gpre = length pre -> degree = Z.of_nat (length pre + length r) ->
  gen = gpre ++ g ->
  foldm (fun j result => c ← rd result j; g ← rd gen j; wr result j (c ⊕ g ⊗ f))
    (zrange (Z.of_nat (length pre)) degree) (pre ++ r ++ rest) = Some (pre ++ axpy f r g ++ rest).
Proof.
  induction r as [|c r IH]; intros [|y g] gpre pre Hl Hp Hd Hg; try discriminate; cbn [length] in *.
  { by rewrite zrange_nil by lia. }
  rewrite zrange_cons by lia. cbn [foldm app]. rewrite (rd_mid pre _ _ (Z.of_nat (length pre))) by done.
  cbn [mbind option_bind]. rewrite Hg at 1. rewrite (rd_mid gpre) by lia. cbn [mbind option_bind].
  rewrite wr_mid by done. cbn [mbind option_bind].
  specialize (IH g (gpre ++ [y]) (pre ++ [c ⊕ y ⊗ f])). rewrite !length_app in IH. cbn [length] in IH.
  rewrite <- !app_assoc in IH. cbn [app] in IH.
  replace (Z.of_nat (length pre) + 1) with (Z.of_nat (length pre + 1)) by lia.
  apply IH; [lia..|done].
Qed.

Lemma shift_row r0 r rest n : n = Z.of_nat (length r) ->
  exists x, shift_down (r0 :: r ++ rest) n = Some (r ++ x :: rest).
Proof.
  intros ->. unfold shift_down.
  rewrite (proj2 (Z.leb_le _ _)), (proj2 (Z.ltb_lt _ _)) by (cbn [length]; rewrite ?length_app; lia).
  cbn [andb drop]. rewrite drop_0, Nat2Z.id, take_app_length.
  destruct (exists_last (l := r0 :: r)) as (l & x & E); [done|].
  exists x. do 2 f_equal. change (r0 :: r ++ rest) with ((r0 :: r) ++ rest). rewrite E, <- app_assoc.
  apply drop_app_length'. apply (f_equal length) in E. rewrite length_app in E. cbn in E. lia.
Qed.

(** One byte of data more. *)
Lemma remainder_round data g grest d n c r rest a :
  is_divisor d g -> data !! n = Some c -> bytes_ok data ->
  length r = d -> (0 < d)%nat -> bytes_ok r ->
  exists r', remainder_step data (g ++ grest) (Z.of_nat d) (Z.of_nat n) (r ++ rest) = Some (r' ++ rest) /\
    length r' = d /\ bytes_ok r' /\
    (is_u8 a -> eval (1 :: g) a = 0 -> eval r a = eval (take n data) a ⊗ gpow a d ->
     eval r' a = eval (take (S n) data) a ⊗ gpow a d).
Proof.
  intros (Hgl & Hgb & _) Hc Hdata Hr Hd Hrb. destruct r as [|r0 r]; [cbn in Hr; lia|]. cbn in Hr.
  inversion_clear Hrb. assert (is_u8 c) by (by apply (Forall_lookup_1 _ _ _ _ Hdata Hc)).
  assert (Hb0 : bytes_ok (r ++ [0])) by (apply Forall_app; split; [done|apply bytes_cons; [auto with gf|apply Forall_nil_2]]).
  unfold remainder_step. rewrite rd_nat, Hc. cbn [app mbind option_bind]. rewrite rd_head. cbn [mbind option_bind].
  destruct (shift_row r0 r rest (Z.of_nat d - 1)) as (x & E); [lia|]. rewrite E. cbn [mbind option_bind]. rewrite wr_mid by lia. cbn [mbind option_bind].
  exists (axpy (c ⊕ r0) (r ++ [0]) g). split; [|split; [|split]].
  - pose proof (axpy_loop (c ⊕ r0) (Z.of_nat d) g rest (r ++ [0]) g [] []) as El. cbn [length app Nat.add] in El.
    change (Z.of_nat 0) with 0 in El. rewrite <- app_assoc in El. cbn [app] in El.
    rewrite <- El; [|rewrite ?length_app; cbn; lia..|done]. apply foldm_ext. intros j s Hj.
    apply elem_of_zrange in Hj. by rewrite (rd_app_l g) by lia.
  - rewrite axpy_length; rewrite length_app; cbn; lia.
  - by apply axpy_bytes.
  - intros Ha Hroot Hev. assert (is_u8 (eval (take n data) a) /\ is_u8 (eval r a) /\ is_u8 (gpow a d)) as (? & ? & ?).
    { split; [|auto with gf]. apply eval_u8. by apply Forall_take. }
    rewrite eval_cons, Hgl in Hroot by auto with gf. rewrite mul_1_l in Hroot by auto with gf. apply lxor_eq_0 in Hroot.
    rewrite (take_S_r _ _ _ Hc), eval_snoc, axpy_eval by (auto with gf; rewrite length_app; cbn; lia).
    rewrite <- Hroot, eval_snoc, Z.lxor_0_r, (mul_add_l _ _ c), <- mul_assoc, (mul_comm a), mul_assoc, <- Hev by auto with gf.
    rewrite eval_cons, (mul_add_l a), <- mul_assoc, <- gpow_S by auto with gf. rewrite Hr.
    rewrite (mul_add_r _ c), (mul_comm c), (mul_comm r0) by auto with gf.
    rewrite (Z.lxor_comm (_ ⊗ r0)), !Z.lxor_assoc. f_equal. apply Z.lxor_comm.
Qed.

(** The data followed by the remainder is a multiple of the divisor. *)
Theorem remainder_spec data dataLen d g grest result :
  is_divisor d g -> bytes_ok data -> 0 <= dataLen <= Z.of_nat (length data) ->
  1 <= Z.of_nat d <= 30 -> (d <= length result)%nat ->
  exists r, reedSolomonComputeRemainder data dataLen (g ++ grest) (Z.of_nat d) result = Some (r ++ drop d result) /\
    length r = d /\ bytes_ok r /\
    forall i, (i < d)%nat -> eval (take (Z.to_nat dataLen) data ++ r) (alpha i) = 0.
Proof.
  intros Hg Hdata Hn Hd Hl. unfold reedSolomonComputeRemainder, qrcodegen_REED_SOLOMON_DEGREE_MAX, assert.
  rewrite !(proj2 (Z.leb_le _ _)) by lia. cbn [andb mbind option_bind].
  rewrite clear_some, Nat2Z.id by lia. cbn [mbind option_bind]. set (rest := drop d result).
  loop_invariant (fun n s => exists r, s = r ++ rest /\ length r = d /\ bytes_ok r /\
    forall i, (i < d)%nat -> eval r (alpha i) = eval (take n data) (alpha i) ⊗ gpow (alpha i) d).
  - intros n k s Hk (r & -> & Hr & Hb & He). pose proof (lookup_lt_Some _ _ _ Hk) as Hlt. rewrite zrange_length in Hlt.
    rewrite zrange_lookup in Hk by done. injection Hk as <-.
    destruct (lookup_lt_is_Some_2 data n) as [c Hc]; [lia|].
    destruct (remainder_round data g grest d n c r rest 0 Hg Hc Hdata Hr) as (r1 & E & Hr1 & Hb1 & _); [lia|done|].
    rewrite Z.add_0_l, E. exists (r1 ++ rest). split; [done|]. exists r1. split; [done|]. split; [done|]. split; [done|].
    intros i Hi. destruct (remainder_round data g grest d n c r rest (alpha i) Hg Hc Hdata Hr) as (r2 & E2 & _ & _ & H2); [lia|done|].
    rewrite E in E2. injection E2 as E2. apply app_inv_tail in E2 as ->.
    apply H2; [auto with gf|by apply (divisor_roots d)|by apply He].
  - exists (replicate d 0). split; [done|]. split; [by rewrite length_replicate|].
    split; [apply Forall_replicate; auto with gf|]. intros i Hi. rewrite take_0. change (eval [] _) with 0. rewrite mul_0_l.
    clear. induction d as [|d IH]; [done|]. cbn [replicate].
    rewrite eval_cons, mul_0_l, Z.lxor_0_l by (auto with gf; apply Forall_replicate; auto with gf). done.
  - destruct Hinv as (r & -> & Hr & Hb & He). exists r. split; [done|]. split; [done|]. split; [done|].
    rewrite zrange_length, Z.sub_0_r in He. intros i Hi.
    rewrite eval_app, Hr, He, Z.lxor_nilpotent by (auto with gf; by apply Forall_take). done.
Qed.

(** ** Distance *)

(** A word as its terms [c x^i], [x] the position's power of two, and their sum. *)
Definition syndrome (ts : list (Z * Z)) (i : nat) : Z := foldr (fun '(c, x) s => c ⊗ gpow x i ⊕ s) 0 ts.

Fixpoint terms (p : arr) : list (Z * Z) :=
  match p with
  | [] => []
  | c :: p => if decide (c = 0) then terms p else (c, alpha (length p)) :: terms p
  end.

Definition term_ok (t : Z * Z) : Prop := is_u8 t.1 /\ t.1 <> 0 /\ is_u8 t.2.

Lemma terms_ok p : bytes_ok p -> Forall term_ok (terms p).
Proof.
  induction 1 as [|c p Hc Hp IH]; [constructor|]. cbn. case_decide; [done|]. constructor; [|done].
  split; [done|]. split; [done|]. cbn. auto with gf.
Qed.

Lemma terms_eval p i : bytes_ok p -> eval p (alpha i) = syndrome (terms p) i.
Proof.
  induction 1 as [|c p Hc Hp IH]; [done|]. rewrite eval_cons, IH by auto with gf. cbn. case_decide as E.
  - by rewrite E, mul_0_l, Z.lxor_0_l.
  - cbn. by rewrite !gpow_alpha, Nat.mul_comm.
Qed.

Lemma terms_positions p : (length p <= 255)%nat -> NoDup (terms p).*2 /\
  Forall (fun x => exists i, x = alpha i /\ (i < length p)%nat) (terms p).*2.
Proof.
  induction p as [|c p IH]; cbn [length]; intros Hl; [split; constructor|]. destruct IH as [H1 H2]; [lia|].
  assert (Hw : Forall (fun x => exists i, x = alpha i /\ (i < S (length p))%nat) (terms p).*2).
  { revert H2. apply List.Forall_impl. intros x (i & -> & Hi). exists i. split; [done|lia]. }
  cbn [terms]. case_decide; [done|]. cbn. split; [|by constructor; [exists (length p); split; [done|lia]|]].
  constructor; [|done]. intros Hin%list_elem_of_In. rewrite Forall_forall in H2. destruct (H2 _ Hin) as (i & E & Hi).
  apply alpha_inj in E; lia.
Qed.

(** The sums of [c (x - x0) x^i] of the sums of [c x^i]. *)
Definition eliminate (x0 : Z) (ts : list (Z * Z)) : list (Z * Z) := map (fun '(c, x) => (c ⊗ (x ⊕ x0), x)) ts.

Lemma syndrome_u8 ts i : is_u8 (syndrome ts i).
Proof. induction ts as [|[c x] ts IH]; cbn; auto with gf. Qed.
#[local] Hint Resolve syndrome_u8 : gf.

Lemma syndrome_eliminate x0 ts i : is_u8 x0 -> Forall term_ok ts ->
  syndrome (eliminate x0 ts) i = syndrome ts (S i) ⊕ syndrome ts i ⊗ x0.
Proof.
  intros Hx0. induction 1 as [|[c x] ts (Hc & _ & Hx) Hts IH]; [cbn; by rewrite mul_0_l|].
  cbn [fst snd] in *. cbn [syndrome eliminate map foldr]. fold (syndrome ts i) (syndrome ts (S i)).
  change (foldr _ 0 (map _ ts)) with (syndrome (eliminate x0 ts) i).
  rewrite IH, (mul_add_l x0) by auto with gf. rewrite (lxor_swap (c ⊗ gpow x (S i))). f_equal.
  rewrite (mul_add_r c), (mul_add_l (gpow x i)), gpow_S by auto with gf. f_equal.
  - rewrite <- mul_assoc, (mul_comm x); auto with gf.
  - rewrite <- !mul_assoc, (mul_comm x0); auto with gf.
Qed.

Lemma eliminate_ok x0 ts : is_u8 x0 -> x0 ∉ ts.*2 -> Forall term_ok ts -> Forall term_ok (eliminate x0 ts).
Proof.
  intros Hx0 Hn. induction 1 as [|[c x] ts (Hc & Hc0 & Hx) Hts IH]; [constructor|].
  cbn in Hn, Hc, Hc0, Hx. apply not_elem_of_cons in Hn as [Hxx Hn]. constructor; [|by apply IH].
  split; cbn; [auto with gf|]. split; [|done].
  intros E. apply mul_eq_0 in E as [E|E]; auto with gf. apply lxor_eq_0 in E. congruence.
Qed.

Lemma eliminate_positions x0 ts : (eliminate x0 ts).*2 = ts.*2.
Proof. induction ts as [|[c x] ts IH]; [done|]. cbn. f_equal. apply IH. Qed.

(** As many vanishing sums as terms: there are no terms. *)
Lemma few_terms n : forall ts d, length ts = n -> (n <= d)%nat -> Forall term_ok ts -> NoDup ts.*2 ->
  (forall i, (i < d)%nat -> syndrome ts i = 0) -> ts = [].
Proof.
  induction n as [|n IH]; intros [|[c x] ts] d Hl Hd Hts Hnd Hs; [done|discriminate..|].
  inversion Hts as [|? ? (Hc & Hc0 & Hx) Hts']; subst. cbn in Hc, Hc0, Hx, Hnd, Hl.
  inversion_clear Hnd as [|? ? Hnx Hnd']. exfalso.
  assert (E : eliminate x ts = []).
  { apply (IH _ (d - 1)%nat); [unfold eliminate; rewrite length_map; lia|lia|by apply eliminate_ok|by rewrite eliminate_positions|].
    intros i Hi. assert (He : syndrome (eliminate x ((c, x) :: ts)) i = 0).
    { rewrite syndrome_eliminate, !Hs by (done || lia). cbn. by rewrite mul_0_l. }
    cbn in He. by rewrite Z.lxor_nilpotent, mul_0_r, mul_0_l, Z.lxor_0_l in He by auto with gf. }
  destruct ts as [|[? ?] ?]; [|discriminate]. specialize (Hs 0%nat). cbn in Hs.
  rewrite mul_1_r, Z.lxor_0_r in Hs by done. apply Hc0, Hs. lia.
Qed.

Definition distance (u v : arr) : nat := length (filter (fun p => p.1 <> p.2) (zip u v)).

Lemma distance_terms u v : length u = length v -> bytes_ok u -> bytes_ok v ->
  distance u v = length (terms (axpy 1 u v)).
Proof.
  intros Hl Hu. revert v Hl. induction Hu as [|c u Hc Hu IH]; intros [|y v] Hl Hv; try discriminate; [done|].
  inversion_clear Hv. unfold distance. cbn [zip zip_with axpy terms]. rewrite mul_1_r by done.
  rewrite filter_cons. cbn [fst snd]. injection Hl as Hl.
  destruct (decide (c = y)) as [->|Hne].
  - rewrite Z.lxor_nilpotent, decide_False, decide_True by tauto. by apply IH.
  - rewrite decide_True by done. rewrite decide_False by (intros E%lxor_eq_0; done).
    cbn [length]. f_equal. by apply IH.
Qed.

(** Two different words of at most 255 bytes with these roots differ in more than [d] bytes. *)
Theorem codeword_distance d u v :
  length u = length v -> (length u <= 255)%nat -> bytes_ok u -> bytes_ok v ->
  (forall i, (i < d)%nat -> eval u (alpha i) = 0) -> (forall i, (i < d)%nat -> eval v (alpha i) = 0) ->
  u <> v -> (d < distance u v)%nat.
Proof.
  intros Hl H255 Hu Hv Eu Ev Huv. rewrite distance_terms by done. set (w := axpy 1 u v).
  assert (bytes_ok w) by (by apply axpy_bytes). assert (length w = length u) by (by apply axpy_length).
  destruct (Nat.lt_ge_cases d (length (terms w))) as [|Hd]; [done|]. exfalso. apply Huv.
  destruct (terms_positions w) as [Hnd _]; [lia|].
  assert (Hw : terms w = []).
  { apply (few_terms (length (terms w)) _ d); [done|done|by apply terms_ok|done|]. intros i Hi.
    rewrite <- terms_eval by done. unfold w. rewrite axpy_eval, Eu, Ev by auto with gf. by rewrite mul_0_l. }
  assert (Hd0 : distance u v = 0%nat) by (rewrite distance_terms by done; unfold w in Hw; by rewrite Hw).
  clear -Hl Hd0. revert v Hl Hd0. induction u as [|c u IH]; intros [|y v] Hl Hd; try discriminate; [done|].
  unfold distance in *. cbn [zip zip_with] in Hd. rewrite filter_cons in Hd. cbn [fst snd] in Hd.
  destruct (decide (c = y)) as [->|Hne]; [|rewrite decide_True in Hd by done; discriminate].
  rewrite decide_False in Hd by tauto. f_equal. apply IH; [by injection Hl|done].
Qed.
