(* ===== verification/QrSegments.v ===== *)
(** * Segments of a QR code: tools/qrtext/qrcodegen.h

    The functions that pack text, bytes and ECI designators into bits
    ([appendBitsToBuffer], the [qrcodegen_make]... functions, the bit counts),
    with the bits they leave ([pack], [payload_bits]) and a reader of those
    bits ([parse]) that recovers what was packed.

    The C enums are their values; a C string is the list of its bytes without
    the terminator. *)

From Stdlib Require Import ZArith Lia List.
From Stdlib Require Import Strings.String Strings.Ascii.
From stdpp Require Import base tactics list numbers option.
From S2P Require Import Prelude QrArray.
Local Open Scope Z_scope.

(** ** Enums and the segment *)

Definition qrcodegen_Mode_NUMERIC : Z := 1.
Definition qrcodegen_Mode_ALPHANUMERIC : Z := 2.
Definition qrcodegen_Mode_BYTE : Z := 4.
Definition qrcodegen_Mode_KANJI : Z := 8.
Definition qrcodegen_Mode_ECI : Z := 7.

Definition qrcodegen_VERSION_MIN : Z := 1.
Definition qrcodegen_VERSION_MAX : Z := 40.

Definition INT16_MAX : Z := 32767.
Definition SIZE_MAX : Z := 2 ^ 64 - 1.

(** [data] is what the segment's buffer holds. *)
Record qrcodegen_Segment := {
  seg_mode : Z;
  seg_numChars : Z;
  seg_data : arr;
  seg_bitLength : Z
}.

(** ** Bits into a buffer *)

Definition append_bit (val i : Z) : arr * Z -> option (arr * Z) := fun '(buffer, bitLen) =>
  b ← rd buffer (Z.shiftr bitLen 3);
  buffer ← wr buffer (Z.shiftr bitLen 3)
    (Z.lor b (Z.shiftl (Z.land (Z.shiftr val i) 1) (7 - Z.land bitLen 7)));
  Some (buffer, bitLen + 1).

Definition appendBitsToBuffer (val numBits : Z) (buffer : arr) (bitLen : Z) : option (arr * Z) :=
  assert ((0 <=? numBits) && (numBits <=? 16) && (Z.shiftr val numBits =? 0));;
  foldm (append_bit val) (rev (zrange 0 numBits)) (buffer, bitLen).

(** ** Text classes *)

Definition bytes_of_string (s : string) : list Z := map (fun c => Z.of_N (N_of_ascii c)) (list_ascii_of_string s).

Definition ALPHANUMERIC_CHARSET : list Z := bytes_of_string "0123456789ABCDEFGHIJKLMNOPQRSTUVWXYZ $%*+-./:".

(** [strchr(s, c) - s], which also finds the terminator. *)
Fixpoint strchr_from (s : list Z) (c i : Z) : option Z :=
  match s with
  | [] => if c =? 0 then Some i else None
  | x :: s => if x =? c then Some i else strchr_from s c (i + 1)
  end.

Definition strchr (s : list Z) (c : Z) : option Z := strchr_from s c 0.

Fixpoint qrcodegen_isAlphanumeric (text : list Z) : bool :=
  match text with
  | [] => true
  | c :: text => match strchr ALPHANUMERIC_CHARSET c with None => false | Some _ => qrcodegen_isAlphanumeric text end
  end.

(** A [char] is signed. *)
Definition s8 (z : Z) : Z := to_signed 8 z.

Fixpoint qrcodegen_isNumeric (text : list Z) : bool :=
  match text with
  | [] => true
  | c :: text => if (s8 c <? 48) || (57 <? s8 c) then false else qrcodegen_isNumeric text
  end.

(** ** Lengths *)

Definition calcSegmentBitLength (mode numChars : Z) : option Z :=
  if INT16_MAX <? numChars then Some (-1) else
  result ← (if mode =? qrcodegen_Mode_NUMERIC then Some ((numChars * 10 + 2) / 3)
            else if mode =? qrcodegen_Mode_ALPHANUMERIC then Some ((numChars * 11 + 1) / 2)
            else if mode =? qrcodegen_Mode_BYTE then Some (numChars * 8)
            else if mode =? qrcodegen_Mode_KANJI then Some (numChars * 13)
            else if (mode =? qrcodegen_Mode_ECI) && (numChars =? 0) then Some (3 * 8)
            else None);
  assert (0 <=? result);;
  if INT16_MAX <? result then Some (-1) else Some result.

Definition qrcodegen_calcSegmentBufferSize (mode numChars : Z) : option Z :=
  temp ← calcSegmentBitLength mode numChars;
  if temp =? -1 then Some SIZE_MAX else
  assert ((0 <=? temp) && (temp <=? INT16_MAX));;
  Some ((temp + 7) / 8).

Definition numCharCountBits (mode version : Z) : option Z :=
  assert ((qrcodegen_VERSION_MIN <=? version) && (version <=? qrcodegen_VERSION_MAX));;
  let i := (version + 7) / 17 in
  if mode =? qrcodegen_Mode_NUMERIC then rd [10; 12; 14] i
  else if mode =? qrcodegen_Mode_ALPHANUMERIC then rd [9; 11; 13] i
  else if mode =? qrcodegen_Mode_BYTE then rd [8; 16; 16] i
  else if mode =? qrcodegen_Mode_KANJI then rd [8; 10; 12] i
  else if mode =? qrcodegen_Mode_ECI then Some 0
  else None.

(** The loop of [getTotalBits]; an early return is a result. *)
Fixpoint getTotalBits_from (segs : list qrcodegen_Segment) (version result : Z) : option Z :=
  match segs with
  | [] => assert ((0 <=? result) && (result <=? INT16_MAX));; Some result
  | seg :: segs =>
    let numChars := seg_numChars seg in
    let bitLength := seg_bitLength seg in
    assert ((0 <=? numChars) && (numChars <=? INT16_MAX));;
    assert ((0 <=? bitLength) && (bitLength <=? INT16_MAX));;
    ccbits ← numCharCountBits (seg_mode seg) version;
    assert ((0 <=? ccbits) && (ccbits <=? 16));;
    if Z.shiftl 1 ccbits <=? numChars then Some (-1) else
    let result := result + (4 + ccbits + bitLength) in
    if INT16_MAX <? result then Some (-1) else getTotalBits_from segs version result
  end.

Definition getTotalBits (segs : list qrcodegen_Segment) (version : Z) : option Z := getTotalBits_from segs version 0.

(** ** Making segments *)

(** [memcpy(buf, data, n)] *)
Definition copy_in (buf data : arr) (n : Z) : option arr :=
  if (0 <=? n) && (n <=? Z.of_nat (List.length data)) && (n <=? Z.of_nat (List.length buf))
  then Some (take (Z.to_nat n) data ++ drop (Z.to_nat n) buf) else None.

Definition qrcodegen_makeBytes (data : arr) (len : Z) (buf : arr) : option qrcodegen_Segment :=
  bitLength ← calcSegmentBitLength qrcodegen_Mode_BYTE len;
  assert (negb (bitLength =? -1));;
  buf ← (if 0 <? len then copy_in buf data len else Some buf);
  Some {| seg_mode := qrcodegen_Mode_BYTE; seg_numChars := len; seg_data := buf; seg_bitLength := bitLength |}.

(** One digit: [accumData], [accumCount], the buffer and its bit length. *)
Definition numeric_step (c : Z) : Z * Z * arr * Z -> option (Z * Z * arr * Z) :=
  fun '(accumData, accumCount, buf, bitLength) =>
  assert ((48 <=? s8 c) && (s8 c <=? 57));;
  let accumData := u32 (accumData * 10 + (s8 c - 48)) in
  let accumCount := accumCount + 1 in
  if accumCount =? 3 then
    p ← appendBitsToBuffer accumData 10 buf bitLength;
    Some (0, 0, p.1, p.2)
  else Some (accumData, accumCount, buf, bitLength).

Definition qrcodegen_makeNumeric (digits : list Z) (buf : arr) : option qrcodegen_Segment :=
  let len := Z.of_nat (List.length digits) in
  bitLen ← calcSegmentBitLength qrcodegen_Mode_NUMERIC len;
  assert (negb (bitLen =? -1));;
  buf ← (if 0 <? bitLen then clear buf ((bitLen + 7) / 8) else Some buf);
  s ← foldm numeric_step digits (0, 0, buf, 0);
  let '(accumData, accumCount, buf, bitLength) := s in
  p ← (if 0 <? accumCount then appendBitsToBuffer accumData (accumCount * 3 + 1) buf bitLength
       else Some (buf, bitLength));
  assert (p.2 =? bitLen);;
  Some {| seg_mode := qrcodegen_Mode_NUMERIC; seg_numChars := len; seg_data := p.1; seg_bitLength := p.2 |}.

Definition alphanumeric_step (c : Z) : Z * Z * arr * Z -> option (Z * Z * arr * Z) :=
  fun '(accumData, accumCount, buf, bitLength) =>
  temp ← strchr ALPHANUMERIC_CHARSET c;
  let accumData := u32 (accumData * 45 + temp) in
  let accumCount := accumCount + 1 in
  if accumCount =? 2 then
    p ← appendBitsToBuffer accumData 11 buf bitLength;
    Some (0, 0, p.1, p.2)
  else Some (accumData, accumCount, buf, bitLength).

Definition qrcodegen_makeAlphanumeric (text : list Z) (buf : arr) : option qrcodegen_Segment :=
  let len := Z.of_nat (List.length text) in
  bitLen ← calcSegmentBitLength qrcodegen_Mode_ALPHANUMERIC len;
  assert (negb (bitLen =? -1));;
  buf ← (if 0 <? bitLen then clear buf ((bitLen + 7) / 8) else Some buf);
  s ← foldm alphanumeric_step text (0, 0, buf, 0);
  let '(accumData, accumCount, buf, bitLength) := s in
  p ← (if 0 <? accumCount then appendBitsToBuffer accumData 6 buf bitLength else Some (buf, bitLength));
  assert (p.2 =? bitLen);;
  Some {| seg_mode := qrcodegen_Mode_ALPHANUMERIC; seg_numChars := len; seg_data := p.1; seg_bitLength := p.2 |}.

Definition qrcodegen_makeEci (assignVal : Z) (buf : arr) : option qrcodegen_Segment :=
  p ← (if assignVal <? 0 then None
       else if assignVal <? Z.shiftl 1 7 then
         buf ← clear buf 1; appendBitsToBuffer assignVal 8 buf 0
       else if assignVal <? Z.shiftl 1 14 then
         buf ← clear buf 2;
         p ← appendBitsToBuffer 2 2 buf 0; appendBitsToBuffer assignVal 14 p.1 p.2
       else if assignVal <? 1000000 then
         buf ← clear buf 3;
         p ← appendBitsToBuffer 6 3 buf 0;
         p ← appendBitsToBuffer (Z.shiftr assignVal 10) 11 p.1 p.2;
         appendBitsToBuffer (Z.land assignVal 0x3FF) 10 p.1 p.2
       else None);
  Some {| seg_mode := qrcodegen_Mode_ECI; seg_numChars := 0; seg_data := p.1; seg_bitLength := p.2 |}.

(** ** What a bit buffer holds *)

(** The buffer's first [cap] bits are [bs] and zeros. *)
Definition holds (cap : nat) (buf : arr) (bs : list bool) : Prop :=
  bytes_ok buf /\ (List.length bs <= cap)%nat /\
  exists rest, bits buf = bs ++ replicate (cap - List.length bs) false ++ rest.

Lemma bits_of_lookup n v i : (i < n)%nat -> bits_of n v !! i = Some (Z.testbit v (Z.of_nat (n - 1 - i))).
Proof.
  revert i. induction n as [|n IH]; intros i Hi; [lia|]. rewrite bits_of_S.
  destruct i as [|i]; cbn [lookup list_lookup]; [do 2 f_equal; lia|]. rewrite IH by lia. do 3 f_equal. lia.
Qed.

Lemma bits_lookup a q r : (r < 8)%nat ->
  bits a !! (8 * q + r)%nat = v ← a !! q; Some (Z.testbit v (Z.of_nat (7 - r))).
Proof.
  intros Hr. revert q. induction a as [|x a IH]; intros q.
  { apply lookup_ge_None. cbn. lia. }
  change (bits (x :: a)) with (bits_of 8 x ++ bits a). destruct q as [|q].
  - rewrite lookup_app_l, bits_of_lookup by (rewrite ?bits_of_length; lia). cbn. do 3 f_equal.
  - rewrite lookup_app_r by (rewrite bits_of_length; lia). rewrite bits_of_length.
    replace (8 * S q + r - 8)%nat with (8 * q + r)%nat by lia. apply IH.
Qed.

Lemma nat_div8 i : exists q r, (r < 8)%nat /\ i = (8 * q + r)%nat.
Proof.
  exists (i / 8)%nat, (i mod 8)%nat. split; [by apply Nat.mod_upper_bound|apply Nat.div_mod; done].
Qed.

Lemma shiftr_3 i : Z.shiftr (Z.of_nat i) 3 = Z.of_nat (i / 8).
Proof. rewrite Z.shiftr_div_pow2 by lia. by rewrite Nat2Z.inj_div. Qed.

Lemma land_7 i : Z.land (Z.of_nat i) 7 = Z.of_nat (i mod 8).
Proof. change 7 with (Z.ones 3). rewrite Z.land_ones by lia. by rewrite Nat2Z.inj_mod. Qed.

Lemma split_8 (q r : nat) : (r < 8)%nat -> ((8 * q + r) / 8 = q /\ (8 * q + r) mod 8 = r)%nat.
Proof.
  intros Hr. rewrite (Nat.mul_comm 8), Nat.add_comm. rewrite Nat.div_add, Nat.Div0.mod_add by done.
  rewrite Nat.div_small, Nat.mod_small by done. split; [lia|done].
Qed.

(** Bit [i] of the data, as the encoder reads it. *)
Lemma read_bit a i b : bits a !! i = Some b ->
  exists v, rd a (Z.shiftr (Z.of_nat i) 3) = Some v /\
            Z.testbit v (7 - Z.land (Z.of_nat i) 7) = b.
Proof.
  destruct (nat_div8 i) as (q & r & Hr & ->). rewrite bits_lookup, shiftr_3, land_7, rd_nat by done.
  destruct (split_8 q r Hr) as [-> ->]. destruct (a !! q) as [v|]; [|discriminate].
  cbn. intros [= <-]. exists v. split; [done|]. f_equal. lia.
Qed.

Lemma testbit_lor_shift x b s j : 0 <= s -> 0 <= j ->
  Z.testbit (Z.lor x (Z.shiftl (b2z b) s)) j = Z.testbit x j || (b && (j =? s)).
Proof.
  intros Hs Hj. rewrite Z.lor_spec, Z.shiftl_spec by done. f_equal.
  destruct (Z.eqb_spec j s) as [->|Hne]; [rewrite Z.sub_diag; by destruct b|].
  rewrite andb_false_r. destruct b; [|by rewrite Z.bits_0]. unfold b2z.
  destruct (Z.lt_ge_cases j s); [by rewrite Z.testbit_neg_r by lia|].
  change 1 with (2 ^ 0). rewrite Z.pow2_bits_eqb by lia. apply Z.eqb_neq. lia.
Qed.

Lemma lor_u8 x y : is_u8 x -> is_u8 y -> is_u8 (Z.lor x y).
Proof.
  intros Hx Hy. rewrite <- (u8_id x), <- (u8_id y) by done. unfold u8.
  rewrite <- !Z.land_ones, <- Z.land_lor_distr_l, Z.land_ones by lia. apply u8_range.
Qed.

Lemma lor_bit_u8 x b s : is_u8 x -> 0 <= s < 8 -> is_u8 (Z.lor x (Z.shiftl (b2z b) s)).
Proof.
  intros Hx Hs. apply lor_u8; [done|]. unfold is_u8. rewrite Z.shiftl_mul_pow2 by lia.
  assert (0 < 2 ^ s <= 2 ^ 7) by (split; [lia|apply Z.pow_le_mono_r; lia]). destruct b; unfold b2z; lia.
Qed.

(** Setting a bit of an array. *)
Lemma bits_set a q r x b : a !! q = Some x -> (r < 8)%nat -> bits a !! (8 * q + r)%nat = Some false ->
  bits (<[q := Z.lor x (Z.shiftl (b2z b) (7 - Z.of_nat r))]> a) = <[(8 * q + r)%nat := b]> (bits a).
Proof.
  intros Hq Hr Hf. apply list_eq. intros i. destruct (nat_div8 i) as (q' & r' & Hr' & ->).
  pose proof (lookup_lt_Some _ _ _ Hq) as Hlt. rewrite bits_lookup by done.
  rewrite bits_lookup, Hq in Hf by done. cbn in Hf. injection Hf as Hf.
  destruct (decide (q' = q)) as [->|Hne].
  - rewrite list_lookup_insert_eq by done. cbn [mbind option_bind]. rewrite testbit_lor_shift by lia.
    destruct (decide (r' = r)) as [->|Hr2].
    + rewrite list_lookup_insert_eq by (rewrite bits_length; lia).
      replace (7 - Z.of_nat r) with (Z.of_nat (7 - r)) by lia. by rewrite Hf, Z.eqb_refl, andb_true_r.
    + rewrite list_lookup_insert_ne, bits_lookup, Hq by lia. cbn [mbind option_bind].
      rewrite (proj2 (Z.eqb_neq _ _)), andb_false_r, orb_false_r by lia. done.
  - rewrite !list_lookup_insert_ne, bits_lookup by lia. done.
Qed.

Lemma append_bit_spec cap buf bs val i :
  holds cap buf bs -> 0 <= i -> (List.length bs < cap)%nat ->
  exists buf', append_bit val i (buf, Z.of_nat (List.length bs)) = Some (buf', Z.of_nat (List.length bs + 1)) /\
    holds cap buf' (bs ++ [Z.testbit val i]) /\ List.length buf' = List.length buf.
Proof.
  intros (Hb & _ & rest & E) Hi Hlt. set (n := List.length bs) in *.
  assert (Hn : bits buf !! n = Some false).
  { rewrite E, lookup_app_r, Nat.sub_diag by done. replace (cap - n)%nat with (S (cap - S n)) by lia. done. }
  unfold append_bit. rewrite shiftr_3, land_7, rd_nat, land_1_testbit by done.
  destruct (nat_div8 n) as (q & r & Hr & Hqr). rewrite Hqr in Hn. rewrite Hqr.
  destruct (split_8 q r Hr) as [-> ->].
  pose proof Hn as Hn'. rewrite bits_lookup in Hn' by done. destruct (buf !! q) as [x|] eqn:Hx; [|discriminate].
  cbn [mbind option_bind]. pose proof (lookup_lt_Some _ _ _ Hx) as Hq. rewrite wr_some, Nat2Z.id by lia. cbn [mbind option_bind].
  eexists. split; [do 2 f_equal; lia|]. rewrite length_insert. split; [|done].
  assert (Hu : is_u8 x) by (by apply (Forall_lookup_1 _ _ _ _ Hb Hx)).
  split; [apply Forall_insert; [done|apply lor_bit_u8; [done|lia]]|].
  rewrite length_app. cbn [List.length]. fold n. split; [lia|]. exists rest.
  rewrite bits_set, E by done. rewrite <- Hqr, insert_app_r_alt by done. fold n. rewrite Nat.sub_diag, <- app_assoc. f_equal.
  replace (cap - n)%nat with (S (cap - (n + 1))) by lia. done.
Qed.

Lemma append_bits_loop cap val n : forall buf bs,
  holds cap buf bs -> (List.length bs + n <= cap)%nat ->
  exists buf', foldm (append_bit val) (rev (zrange 0 (Z.of_nat n))) (buf, Z.of_nat (List.length bs)) =
      Some (buf', Z.of_nat (List.length bs + n)) /\
    holds cap buf' (bs ++ bits_of n val) /\ List.length buf' = List.length buf.
Proof.
  induction n as [|n IH]; intros buf bs Hh Hn.
  { exists buf. rewrite app_nil_r, Nat.add_0_r. done. }
  rewrite Nat2Z.inj_succ, <- Z.add_1_r, zrange_snoc, rev_app_distr by lia. cbn [rev app foldm].
  destruct (append_bit_spec cap buf bs val (Z.of_nat n)) as (b1 & -> & H1 & L1); [done|lia..|]. cbn [mbind option_bind].
  destruct (IH b1 (bs ++ [Z.testbit val (Z.of_nat n)])) as (b2 & E & H2 & L2); [done|rewrite length_app; cbn; lia|].
  rewrite length_app in E. cbn [List.length] in E. exists b2. rewrite E. split; [do 2 f_equal; lia|].
  rewrite bits_of_S. rewrite <- app_assoc in H2. split; [done|congruence].
Qed.

(** [appendBitsToBuffer] appends the value's bits. *)
Lemma appendBits_spec cap buf bs val numBits :
  holds cap buf bs -> 0 <= numBits <= 16 -> 0 <= val < 2 ^ numBits ->
  (List.length bs + Z.to_nat numBits <= cap)%nat ->
  exists buf', appendBitsToBuffer val numBits buf (Z.of_nat (List.length bs)) =
      Some (buf', Z.of_nat (List.length bs + Z.to_nat numBits)) /\
    holds cap buf' (bs ++ bits_of (Z.to_nat numBits) val) /\ List.length buf' = List.length buf.
Proof.
  intros Hh Hn Hv Hc. unfold appendBitsToBuffer, assert.
  rewrite !(proj2 (Z.leb_le _ _)) by lia. rewrite Z.shiftr_div_pow2, Z.div_small, Z.eqb_refl by lia.
  cbn [andb mbind option_bind]. replace (zrange 0 numBits) with (zrange 0 (Z.of_nat (Z.to_nat numBits))) by (f_equal; lia). by apply append_bits_loop.
Qed.

Lemma clear_holds buf n a' : bytes_ok buf -> clear buf n = Some a' -> holds (8 * Z.to_nat n) a' [].
Proof.
  intros Hb E. split; [by apply (clear_bytes _ _ _ Hb E)|]. apply clear_inv in E as [Hn ->].
  split; [cbn; lia|]. exists (bits (drop (Z.to_nat n) buf)). rewrite bits_app, app_nil_l. cbn [List.length]. rewrite Nat.sub_0_r. f_equal.
  induction (Z.to_nat n) as [|k IH]; [done|]. replace (8 * S k)%nat with (8 + 8 * k)%nat by lia.
  rewrite replicate_add, <- IH. done.
Qed.
