(* ===== verification/QrPayload.v ===== *)
(** * What the segments of a QR code say: tools/qrtext/qrcodegen.h

    A [payload] is a segment's content and [payload_bits] its bits as the QR
    code standard lays them out; the functions of QrSegments.v that make
    segments make segments of these bits ([is_segment]), and [parse_payload]
    reads the content back.  Digits and alphanumeric characters are packed in
    groups, which a section treats for any group size. *)

From Stdlib Require Import ZArith Lia List.
From stdpp Require Import base tactics list numbers option.
From S2P Require Import Prelude QrArray QrSegments.
Local Open Scope Z_scope.

(** ** Groups of digits *)

Section Pack.
Context (base : Z) (k w : nat).

(** A group of [m] digits has [w m + 1] bits. *)
Definition group_width (m : nat) : nat := (w * m + 1)%nat.

Definition value (ds : list Z) : Z := fold_left (fun v d => v * base + d) ds 0.

Definition group_bits (ds : list Z) : list bool := bits_of (group_width (length ds)) (value ds).

(** The bits of the digits [ds], [pend] being the current group's. *)
Fixpoint pack_from (pend ds : list Z) : list bool :=
  match ds with
  | [] => if decide (pend = []) then [] else group_bits pend
  | d :: ds =>
    if decide (length (pend ++ [d]) = k) then group_bits (pend ++ [d]) ++ pack_from [] ds
    else pack_from (pend ++ [d]) ds
  end.

(** The [m] digits of [v] *)
Fixpoint digits (m : nat) (v : Z) : list Z :=
  match m with O => [] | S m => digits m (v / base) ++ [v mod base] end.

(** Reading [n] digits *)
Fixpoint unpack (fuel n : nat) (bs : list bool) : option (list Z * list bool) :=
  match fuel, n with
  | _, O => Some ([], bs)
  | O, _ => None
  | S fuel, _ =>
    let m := Nat.min k n in
    let v := of_bits (take (group_width m) bs) in
    if decide (group_width m <= length bs)%nat then
      if v <? base ^ Z.of_nat m then
        p ← unpack fuel (n - m) (drop (group_width m) bs); Some (digits m v ++ p.1, p.2)
      else None
    else None
  end.

Context (Hk : (0 < k)%nat) (Hbase : 1 < base)
  (Hw : forall m, (m <= k)%nat -> base ^ Z.of_nat m <= 2 ^ Z.of_nat (group_width m))
  (Hmax : (group_width k <= 16)%nat).

Definition digit_ok (d : Z) : Prop := 0 <= d < base.

Lemma value_snoc ds d : value (ds ++ [d]) = value ds * base + d.
Proof. unfold value. by rewrite fold_left_app. Qed.

Lemma value_range ds : Forall digit_ok ds -> 0 <= value ds < base ^ Z.of_nat (length ds).
Proof.
  induction ds as [|d ds IH] using rev_ind; [done|]. intros [H Hd]%Forall_app. apply IH in H. apply Forall_inv in Hd.
  rewrite value_snoc, length_app. cbn [length]. replace (Z.of_nat (length ds + 1)) with (Z.succ (Z.of_nat (length ds))) by lia.
  rewrite Z.pow_succ_r by lia. unfold digit_ok in Hd. nia.
Qed.

Lemma digits_value ds : Forall digit_ok ds -> digits (length ds) (value ds) = ds.
Proof.
  induction ds as [|d ds IH] using rev_ind; [done|]. intros [H Hd]%Forall_app. apply Forall_inv in Hd. unfold digit_ok in Hd.
  rewrite length_app, Nat.add_comm, value_snoc. cbn [length Nat.add digits].
  rewrite Z.div_add_l, Z.div_small, Z.add_0_r, IH by (done || lia).
  rewrite Z.add_comm, Z.mod_add, Z.mod_small by lia. done.
Qed.

Lemma group_range ds : Forall digit_ok ds -> (length ds <= k)%nat ->
  0 <= value ds < 2 ^ Z.of_nat (group_width (length ds)).
Proof. intros Hd Hl. pose proof (value_range ds Hd). specialize (Hw _ Hl). lia. Qed.

Lemma unpack_group fuel n g rest :
  Forall digit_ok g -> length g = Nat.min k n -> (0 < n)%nat ->
  unpack (S fuel) n (group_bits g ++ rest) =
  p ← unpack fuel (n - length g) rest; Some (g ++ p.1, p.2).
Proof.
  intros Hg Hl Hn. unfold unpack at 1. fold unpack. destruct n as [|n]; [lia|]. rewrite <- Hl.
  assert (Hlen : length (group_bits g) = group_width (length g)) by apply bits_of_length.
  rewrite decide_True by (rewrite length_app, Hlen; lia).
  rewrite <- Hlen, take_app_length, drop_app_length. unfold group_bits at 1.
  rewrite of_bits_of by (apply group_range; [done|lia]).
  rewrite (proj2 (Z.ltb_lt _ _)) by (by apply value_range).
  unfold group_bits. rewrite of_bits_of by (apply group_range; [done|lia]). by rewrite digits_value.
Qed.

(** Reading back what was packed. *)
Lemma unpack_pack ds : forall pend fuel rest,
  Forall digit_ok (pend ++ ds) -> (length pend < k)%nat -> (length (pend ++ ds) <= fuel)%nat ->
  unpack fuel (length (pend ++ ds)) (pack_from pend ds ++ rest) = Some (pend ++ ds, rest).
Proof.
  induction ds as [|d ds IH]; intros pend fuel rest Hok Hp Hf.
  - rewrite app_nil_r in *. cbn [pack_from]. destruct pend as [|x pend]; [by destruct fuel|].
    destruct fuel as [|fuel]; [cbn in Hf; lia|]. rewrite decide_False by done.
    rewrite unpack_group by (done || lia || (cbn; lia)). rewrite Nat.sub_diag. destruct fuel; cbn; by rewrite ?app_nil_r.
  - replace (pend ++ d :: ds) with ((pend ++ [d]) ++ ds) in * by (by rewrite <- app_assoc). cbn [pack_from].
    assert (Hl : length (pend ++ [d]) = S (length pend)) by (rewrite length_app; cbn; lia).
    case_decide as E; [|apply IH; [done|lia|done]].
    rewrite length_app in Hf. destruct fuel as [|fuel]; [lia|].
    apply Forall_app in Hok as [Hg Hds]. rewrite <- (app_assoc (group_bits _)), unpack_group; [|done|rewrite (length_app (pend ++ [d])); lia..].
    replace (length ((pend ++ [d]) ++ ds) - length (pend ++ [d]))%nat with (length ds) by (rewrite (length_app (pend ++ [d])); lia).
    specialize (IH [] fuel rest). cbn [app length] in IH. rewrite IH; [done|done|done|lia].
Qed.

Lemma unpack_all ds rest : Forall digit_ok ds ->
  unpack (length ds) (length ds) (pack_from [] ds ++ rest) = Some (ds, rest).
Proof. intros Hds. by apply (unpack_pack ds []). Qed.

Lemma pack_length ds : forall pend, (length pend < k)%nat ->
  let n := (length pend + length ds)%nat in
  length (pack_from pend ds) =
  ((n / k) * group_width k + if decide (n mod k = 0) then 0 else group_width (n mod k))%nat.
Proof.
  induction ds as [|d ds IH]; intros pend Hp n; subst n; cbn [length pack_from].
  - rewrite Nat.add_0_r, Nat.div_small, Nat.mod_small by done. cbn [Nat.mul Nat.add].
    destruct pend as [|x pend]; [done|]. rewrite decide_False, decide_False by done. apply bits_of_length.
  - assert (Hl : length (pend ++ [d]) = S (length pend)) by (rewrite length_app; cbn; lia).
    case_decide as E.
    + rewrite length_app. unfold group_bits. rewrite bits_of_length, E.
      specialize (IH [] Hk). cbn [length Nat.add] in IH. rewrite IH.
      replace (length pend + S (length ds))%nat with (length ds + 1 * k)%nat by lia.
      rewrite Nat.div_add, Nat.Div0.mod_add by lia. lia.
    + rewrite IH by lia. by replace (length (pend ++ [d]) + length ds)%nat with (length pend + S (length ds))%nat by lia.
Qed.

(** One character of a packing loop. *)
Definition pack_step (dig : Z -> option Z) (c : Z) : Z * Z * arr * Z -> option (Z * Z * arr * Z) :=
  fun '(accumData, accumCount, buf, bitLength) =>
  d ← dig c;
  let accumData := u32 (accumData * base + d) in
  let accumCount := accumCount + 1 in
  if accumCount =? Z.of_nat k then
    p ← appendBitsToBuffer accumData (Z.of_nat (group_width k)) buf bitLength;
    Some (0, 0, p.1, p.2)
  else Some (accumData, accumCount, buf, bitLength).

Lemma pack_loop dig cap text : forall ds pend buf bs,
  Forall2 (fun c d => dig c = Some d) text ds -> Forall digit_ok (pend ++ ds) -> (length pend < k)%nat ->
  holds cap buf bs -> (length bs + length (pack_from pend ds) <= cap)%nat ->
  exists pend' buf' bs',
    foldm (pack_step dig) text (value pend, Z.of_nat (length pend), buf, Z.of_nat (length bs)) =
      Some (value pend', Z.of_nat (length pend'), buf', Z.of_nat (length bs')) /\
    (length pend' < k)%nat /\ Forall digit_ok pend' /\ holds cap buf' bs' /\ length buf' = length buf /\
    bs' ++ pack_from pend' [] = bs ++ pack_from pend ds.
Proof.
  induction text as [|c text IH]; intros ds pend buf bs Ht Hok Hp Hh Hc.
  - apply Forall2_nil_inv_l in Ht as ->. exists pend, buf, bs. rewrite app_nil_r in Hok. done.
  - apply Forall2_cons_inv_l in Ht as (d & ds' & Hd & Ht & ->).
    replace (pend ++ d :: ds') with ((pend ++ [d]) ++ ds') in Hok by (by rewrite <- app_assoc).
    assert (Hl : length (pend ++ [d]) = S (length pend)) by (rewrite length_app; cbn; lia).
    pose proof Hok as [Hg Hds]%Forall_app. cbn [foldm pack_from] in *. unfold pack_step at 2. rewrite Hd. cbn [mbind option_bind].
    assert (Hv : 0 <= value (pend ++ [d]) < 2 ^ 16).
    { pose proof (group_range _ Hg ltac:(lia)) as Hr.
      assert (group_width (length (pend ++ [d])) <= 16)%nat by (unfold group_width in *; nia).
      assert (2 ^ Z.of_nat (group_width (length (pend ++ [d]))) <= 2 ^ 16) by (apply Z.pow_le_mono_r; lia). lia. }
    rewrite <- value_snoc, u32_id by (unfold is_u32; lia).
    replace (Z.of_nat (length pend) + 1) with (Z.of_nat (length (pend ++ [d]))) by lia.
    case_decide as E.
    + rewrite (proj2 (Z.eqb_eq _ _)) by lia.
      destruct (appendBits_spec cap buf bs (value (pend ++ [d])) (Z.of_nat (group_width k))) as (b1 & -> & H1 & L1).
      * done.
      * lia.
      * rewrite <- E. apply group_range; [done|lia].
      * rewrite Nat2Z.id. rewrite length_app in Hc. unfold group_bits in Hc. rewrite bits_of_length, E in Hc. lia.
      * cbn [mbind option_bind fst snd]. rewrite Nat2Z.id in H1 |- *. rewrite <- E in H1.
        change (bits_of _ _) with (group_bits (pend ++ [d])) in H1.
        destruct (IH ds' [] b1 (bs ++ group_bits (pend ++ [d]))) as (p' & b' & bs' & E' & ? & ? & ? & ? & E2); [done|done|exact Hk|done|..].
        { rewrite length_app in *. lia. }
        exists p', b', bs'. rewrite <- app_assoc in E2. split; [|split_and!; try done; congruence].
        rewrite <- E'. do 2 f_equal. rewrite length_app. unfold group_bits. by rewrite bits_of_length, E.
    + rewrite (proj2 (Z.eqb_neq _ _)) by lia. apply IH; [done|done|lia|done|done].
Qed.

(** The loop and the last, incomplete group. *)
Lemma pack_all dig cap text ds buf :
  Forall2 (fun c d => dig c = Some d) text ds -> Forall digit_ok ds ->
  holds cap buf [] -> (length (pack_from [] ds) <= cap)%nat ->
  exists pend buf1 n1,
    foldm (pack_step dig) text (0, 0, buf, 0) = Some (value pend, Z.of_nat (length pend), buf1, n1) /\
    (length pend < k)%nat /\
    forall W, (0 < length pend -> W = Z.of_nat (group_width (length pend)))%nat ->
      exists buf2, (if 0 <? Z.of_nat (length pend) then appendBitsToBuffer (value pend) W buf1 n1 else Some (buf1, n1)) =
          Some (buf2, Z.of_nat (length (pack_from [] ds))) /\
        holds cap buf2 (pack_from [] ds) /\ length buf2 = length buf.
Proof.
  intros Ht Hd Hh Hc.
  destruct (pack_loop dig cap text ds [] buf []) as (pend & b1 & bs1 & E & Hl & Hp & H1 & L1 & E1); [done..|].
  exists pend, b1, (Z.of_nat (length bs1)). split; [done|]. split; [done|]. intros W HW. cbn [app] in E1.
  destruct pend as [|x pend].
  - cbn [pack_from] in E1. rewrite app_nil_r in E1. subst bs1. exists b1. done.
  - rewrite HW by (cbn; lia). rewrite (proj2 (Z.ltb_lt _ _)) by (cbn; lia).
    change (pack_from (x :: pend) []) with (group_bits (x :: pend)) in E1.
    assert (Hlen : (length bs1 + group_width (length (x :: pend)) = length (pack_from [] ds))%nat).
    { rewrite <- E1, length_app. unfold group_bits. by rewrite bits_of_length. }
    destruct (appendBits_spec cap b1 bs1 (value (x :: pend)) (Z.of_nat (group_width (length (x :: pend))))) as (b2 & -> & H2 & L2).
    + done.
    + unfold group_width in *. nia.
    + apply group_range; [done|lia].
    + rewrite Nat2Z.id. lia.
    + rewrite Nat2Z.id in H2 |- *. exists b2. change (bits_of _ _) with (group_bits (x :: pend)) in H2.
      rewrite E1 in H2. split; [do 3 f_equal; lia|]. split; [done|congruence].
Qed.
End Pack.

(** ** Payloads *)

Definition numeric_value (c : Z) : Z := c - 48.
Definition numeric_char (d : Z) : Z := d + 48.
Definition alphanumeric_value (c : Z) : Z := default 0 (strchr ALPHANUMERIC_CHARSET c).
Definition alphanumeric_char (d : Z) : Z := nth (Z.to_nat d) ALPHANUMERIC_CHARSET 0.

Inductive payload :=
  | PNumeric (text : list Z)
  | PAlphanumeric (text : list Z)
  | PBytes (bs : list Z)
  | PEci (assignVal : Z).

Definition eci_bits (v : Z) : list bool :=
  if v <? 2 ^ 7 then bits_of 8 v
  else if v <? 2 ^ 14 then [true; false] ++ bits_of 14 v
  else [true; true; false] ++ bits_of 11 (Z.shiftr v 10) ++ bits_of 10 (Z.land v 0x3FF).

Definition numeric_bits (text : list Z) : list bool := pack_from 10 3 3 [] (map numeric_value text).
Definition alphanumeric_bits (text : list Z) : list bool := pack_from 45 2 5 [] (map alphanumeric_value text).

Definition payload_bits (p : payload) : list bool :=
  match p with
  | PNumeric text => numeric_bits text
  | PAlphanumeric text => alphanumeric_bits text
  | PBytes bs => bits bs
  | PEci v => eci_bits v
  end.

Definition payload_mode (p : payload) : Z :=
  match p with
  | PNumeric _ => qrcodegen_Mode_NUMERIC
  | PAlphanumeric _ => qrcodegen_Mode_ALPHANUMERIC
  | PBytes _ => qrcodegen_Mode_BYTE
  | PEci _ => qrcodegen_Mode_ECI
  end.

Definition payload_count (p : payload) : Z :=
  match p with
  | PNumeric text | PAlphanumeric text | PBytes text => Z.of_nat (length text)
  | PEci _ => 0
  end.

Definition numeric_ok (c : Z) : Prop := 48 <= c <= 57.
Definition alphanumeric_ok (c : Z) : Prop := c <> 0 /\ strchr ALPHANUMERIC_CHARSET c <> None.

Definition payload_ok (p : payload) : Prop :=
  match p with
  | PNumeric text => Forall numeric_ok text
  | PAlphanumeric text => Forall alphanumeric_ok text
  | PBytes bs => bytes_ok bs
  | PEci v => 0 <= v < 1000000
  end.

(** The payload's text; a designator has none. *)
Definition payload_text (p : payload) : list Z :=
  match p with PNumeric text | PAlphanumeric text | PBytes text => text | PEci _ => [] end.

(** The segment with this content. *)
Definition is_segment (p : payload) (seg : qrcodegen_Segment) : Prop :=
  seg_mode seg = payload_mode p /\ seg_numChars seg = payload_count p /\
  seg_bitLength seg = Z.of_nat (length (payload_bits p)) /\
  (exists rest, bits (seg_data seg) = payload_bits p ++ rest) /\
  0 <= payload_count p <= INT16_MAX /\ Z.of_nat (length (payload_bits p)) <= INT16_MAX.

(** Reading a payload of [n] characters, after its mode and count. *)
Definition parse_payload (mode : Z) (n : nat) (bs : list bool) : option (payload * list bool) :=
  if mode =? qrcodegen_Mode_NUMERIC then
    p ← unpack 10 3 3 n n bs; Some (PNumeric (map numeric_char p.1), p.2)
  else if mode =? qrcodegen_Mode_ALPHANUMERIC then
    p ← unpack 45 2 5 n n bs; Some (PAlphanumeric (map alphanumeric_char p.1), p.2)
  else if mode =? qrcodegen_Mode_BYTE then
    p ← unpack 256 1 7 n n bs; Some (PBytes p.1, p.2)
  else if mode =? qrcodegen_Mode_ECI then
    match bs with
    | false :: _ => Some (PEci (of_bits (take 8 bs)), drop 8 bs)
    | true :: false :: bs => Some (PEci (of_bits (take 14 bs)), drop 14 bs)
    | true :: true :: false :: bs => Some (PEci (of_bits (take 21 bs)), drop 21 bs)
    | _ => None
    end
  else None.

(** ** Lemmas *)

(** Which mode it is, and the binds up to the next step that is not evaluated. *)
Ltac modes :=
  cbn [Z.eqb Pos.eqb mbind option_bind andb qrcodegen_Mode_NUMERIC qrcodegen_Mode_ALPHANUMERIC qrcodegen_Mode_BYTE
       qrcodegen_Mode_KANJI qrcodegen_Mode_ECI].

Lemma numeric_widths m : (m <= 3)%nat -> 10 ^ Z.of_nat m <= 2 ^ Z.of_nat (group_width 3 m).
Proof. intros Hm. destruct m as [|[|[|[|]]]]; [vm_compute; discriminate..|lia]. Qed.

Lemma alphanumeric_widths m : (m <= 2)%nat -> 45 ^ Z.of_nat m <= 2 ^ Z.of_nat (group_width 5 m).
Proof. intros Hm. destruct m as [|[|[|]]]; [vm_compute; discriminate..|lia]. Qed.

Lemma byte_widths m : (m <= 1)%nat -> 256 ^ Z.of_nat m <= 2 ^ Z.of_nat (group_width 7 m).
Proof. intros Hm. destruct m as [|[|]]; [vm_compute; discriminate..|lia]. Qed.

#[local] Hint Resolve numeric_widths alphanumeric_widths byte_widths : core.

Lemma strchr_from_some s c i j : c <> 0 -> strchr_from s c i = Some j ->
  i <= j < i + Z.of_nat (length s) /\ nth (Z.to_nat (j - i)) s 0 = c.
Proof.
  intros Hc. revert i. induction s as [|x s IH]; intros i; cbn [strchr_from length].
  - rewrite (proj2 (Z.eqb_neq _ _)) by done. discriminate.
  - destruct (Z.eqb_spec x c) as [->|].
    + intros [= ->]. rewrite Z.sub_diag. split; [lia|done].
    + intros [Hj E]%IH. split; [lia|]. by replace (Z.to_nat (j - i)) with (S (Z.to_nat (j - (i + 1)))) by lia.
Qed.

Lemma alphanumeric_inv c : alphanumeric_ok c ->
  strchr ALPHANUMERIC_CHARSET c = Some (alphanumeric_value c) /\ digit_ok 45 (alphanumeric_value c) /\
  alphanumeric_char (alphanumeric_value c) = c.
Proof.
  intros [Hc Hs]. unfold alphanumeric_value. destruct (strchr ALPHANUMERIC_CHARSET c) as [i|] eqn:E; [|done].
  split; [done|]. apply strchr_from_some in E as [Hi E]; [|done]. change (Z.of_nat (length ALPHANUMERIC_CHARSET)) with 45 in Hi.
  split; [unfold digit_ok; cbn; lia|]. unfold alphanumeric_char. cbn. by rewrite Z.sub_0_r in E.
Qed.

Lemma numeric_digits_ok text : Forall numeric_ok text -> Forall (digit_ok 10) (map numeric_value text).
Proof. intros H. apply Forall_fmap. revert H. apply List.Forall_impl. unfold numeric_ok, digit_ok, numeric_value. cbn. lia. Qed.

Lemma alphanumeric_digits_ok text : Forall alphanumeric_ok text -> Forall (digit_ok 45) (map alphanumeric_value text).
Proof. intros H. apply Forall_fmap. revert H. apply List.Forall_impl. intros c Hc. by apply alphanumeric_inv. Qed.

Lemma map_id_Forall (P : Z -> Prop) (f : Z -> Z) l : Forall P l -> (forall x, P x -> f x = x) -> map f l = l.
Proof. intros Hl Hf. induction Hl as [|x l Hx Hl IH]; [done|]. cbn. by rewrite Hf, IH. Qed.

Lemma bits_pack bs : bits bs = pack_from 256 1 7 [] bs.
Proof.
  induction bs as [|b bs IH]; [done|]. change (bits (b :: bs)) with (bits_of 8 b ++ bits bs).
  rewrite IH. cbn [pack_from app length]. rewrite decide_True by done. done.
Qed.

Lemma bits_of_app n m v : bits_of (n + m) v = bits_of n (Z.shiftr v (Z.of_nat m)) ++ bits_of m v.
Proof.
  induction n as [|n IH]; [done|]. cbn [Nat.add]. rewrite !bits_of_S, IH, Z.shiftr_spec by lia.
  rewrite Nat2Z.inj_add. done.
Qed.

Lemma bits_of_land n v : bits_of n (Z.land v (Z.ones (Z.of_nat n))) = bits_of n v.
Proof.
  unfold bits_of. apply map_ext_in. intros i Hi%in_rev%in_seq.
  rewrite Z.land_spec, Z.ones_spec_low by lia. apply andb_true_r.
Qed.

Lemma eci_long v : bits_of 11 (Z.shiftr v 10) ++ bits_of 10 (Z.land v 0x3FF) = bits_of 21 v.
Proof. change 0x3FF with (Z.ones (Z.of_nat 10)). rewrite (bits_of_land 10 v). by rewrite <- (bits_of_app 11 10). Qed.

Lemma take_bits n v rest : take n (bits_of n v ++ rest) = bits_of n v.
Proof. rewrite <- (bits_of_length n v) at 1. apply take_app_length. Qed.

Lemma drop_bits n v rest : drop n (bits_of n v ++ rest) = rest.
Proof. rewrite <- (bits_of_length n v) at 1. apply drop_app_length. Qed.

Lemma eci_lengths v : length (eci_bits v) = 8%nat \/ length (eci_bits v) = 16%nat \/ length (eci_bits v) = 24%nat.
Proof. unfold eci_bits. repeat case_match; cbn; rewrite ?bits_of_length; auto. Qed.

(** A payload is read back from its bits. *)
Lemma parse_payload_bits p rest : payload_ok p ->
  parse_payload (payload_mode p) (Z.to_nat (payload_count p)) (payload_bits p ++ rest) = Some (p, rest).
Proof.
  intros Hp. destruct p as [t|t|t|v]; cbn [payload_mode payload_count payload_bits payload_ok] in *;
    rewrite ?Nat2Z.id; unfold parse_payload, qrcodegen_Mode_NUMERIC, qrcodegen_Mode_ALPHANUMERIC, qrcodegen_Mode_BYTE, qrcodegen_Mode_ECI;
    cbn [Z.eqb Pos.eqb].
  - unfold numeric_bits. rewrite <- (length_map numeric_value t).
    rewrite (unpack_all 10 3 3); [|lia|lia|auto|vm_compute; lia|by apply numeric_digits_ok].
    cbn [mbind option_bind fst snd]. rewrite map_map, (map_id_Forall numeric_ok); [done|done|]. unfold numeric_char, numeric_value. lia.
  - unfold alphanumeric_bits. rewrite <- (length_map alphanumeric_value t).
    rewrite (unpack_all 45 2 5); [|lia|lia|auto|vm_compute; lia|by apply alphanumeric_digits_ok].
    cbn [mbind option_bind fst snd]. rewrite map_map, (map_id_Forall alphanumeric_ok); [done|done|]. intros c Hc. by apply alphanumeric_inv.
  - rewrite bits_pack, (unpack_all 256 1 7); [done|lia|lia|auto|vm_compute; lia|exact Hp].
  - unfold eci_bits. destruct (Z.ltb_spec v (2 ^ 7)); [|destruct (Z.ltb_spec v (2 ^ 14))].
    + assert (E : Z.testbit v 7 = false).
      { rewrite <- (Z.mod_small v (2 ^ 7)) by lia. by apply Z.mod_pow2_bits_high. }
      pose proof (bits_of_S 7 v) as Eb. change (Z.of_nat 7) with 7 in Eb. rewrite E in Eb. rewrite Eb. cbn [app].
      change (false :: bits_of 7 v ++ rest) with ((false :: bits_of 7 v) ++ rest).
      rewrite <- Eb, take_bits, drop_bits, of_bits_of; [done|cbn; lia].
    + cbn [app]. rewrite take_bits, drop_bits, of_bits_of; [done|cbn; lia].
    + rewrite eci_long. cbn [app]. rewrite take_bits, drop_bits, of_bits_of; [done|cbn; lia].
Qed.

(** *** The makers *)

Lemma is_segment_of p buf n :
  n = Z.of_nat (length (payload_bits p)) -> 0 <= payload_count p <= INT16_MAX -> n <= INT16_MAX ->
  (exists rest, bits buf = payload_bits p ++ rest) ->
  is_segment p {| seg_mode := payload_mode p; seg_numChars := payload_count p; seg_data := buf; seg_bitLength := n |}.
Proof. intros -> [Hc0 Hc] Hn Hb. unfold is_segment. cbn. split_and!; done. Qed.

Lemma holds_prefix cap buf bs : holds cap buf bs -> exists rest, bits buf = bs ++ rest.
Proof. intros (_ & _ & rest & ->). by eexists. Qed.

Lemma cleared buf n : bytes_ok buf -> 0 <= (n + 7) / 8 <= Z.of_nat (length buf) -> 0 <= n ->
  exists buf1, (if 0 <? n then clear buf ((n + 7) / 8) else Some buf) = Some buf1 /\
    holds (8 * Z.to_nat ((n + 7) / 8)) buf1 [] /\ length buf1 = length buf.
Proof.
  intros Hb Hl Hn. destruct (Z.ltb_spec 0 n).
  - rewrite clear_some by done. eexists. split; [done|].
    pose proof (clear_some buf _ Hl) as E. split; [by apply (clear_holds buf)|by apply (clear_length _ _ _ E)].
  - replace n with 0 by lia. exists buf. split; [done|]. split; [|done]. split; [done|]. split; [cbn; lia|].
    exists (bits buf). done.
Qed.

Lemma numeric_step_pack c s : numeric_step c s = pack_step 10 3 3 (fun c => assert ((48 <=? s8 c) && (s8 c <=? 57));; Some (s8 c - 48)) c s.
Proof. destruct s as [[[? ?] ?] ?]. cbn. by destruct (_ && _). Qed.

Lemma alphanumeric_step_pack c s : alphanumeric_step c s = pack_step 45 2 5 (strchr ALPHANUMERIC_CHARSET) c s.
Proof. by destruct s as [[[? ?] ?] ?]. Qed.

Lemma s8_digit c : numeric_ok c -> s8 c = c.
Proof. unfold numeric_ok. intros Hc. apply to_signed_id; lia. Qed.

Lemma calcSegmentBitLength_numeric n : 0 <= n <= INT16_MAX -> (n * 10 + 2) / 3 <= INT16_MAX ->
  calcSegmentBitLength qrcodegen_Mode_NUMERIC n = Some ((n * 10 + 2) / 3).
Proof.
  intros Hn Hb. unfold calcSegmentBitLength. rewrite (proj2 (Z.ltb_ge _ _)) by lia. modes.
  unfold assert. assert (0 <= (n * 10 + 2) / 3) by (apply Z.div_pos; lia).
  rewrite (proj2 (Z.leb_le _ _)) by done. cbn [mbind option_bind]. by rewrite (proj2 (Z.ltb_ge _ _)) by lia.
Qed.

Lemma calcSegmentBitLength_alphanumeric n : 0 <= n <= INT16_MAX -> (n * 11 + 1) / 2 <= INT16_MAX ->
  calcSegmentBitLength qrcodegen_Mode_ALPHANUMERIC n = Some ((n * 11 + 1) / 2).
Proof.
  intros Hn Hb. unfold calcSegmentBitLength. rewrite (proj2 (Z.ltb_ge _ _)) by lia. modes.
  unfold assert. assert (0 <= (n * 11 + 1) / 2) by (apply Z.div_pos; lia).
  rewrite (proj2 (Z.leb_le _ _)) by done. cbn [mbind option_bind]. by rewrite (proj2 (Z.ltb_ge _ _)) by lia.
Qed.

Lemma calcSegmentBitLength_bytes n : 0 <= n -> n * 8 <= INT16_MAX ->
  calcSegmentBitLength qrcodegen_Mode_BYTE n = Some (n * 8).
Proof.
  intros Hn Hb. unfold calcSegmentBitLength. unfold INT16_MAX in *. rewrite (proj2 (Z.ltb_ge _ _)) by lia. modes.
  unfold assert. rewrite (proj2 (Z.leb_le _ _)) by lia. cbn [mbind option_bind]. by rewrite (proj2 (Z.ltb_ge _ _)) by lia.
Qed.

Lemma split_mod (n k : nat) : (0 < k)%nat ->
  exists q r, (r < k)%nat /\ n = (k * q + r)%nat /\ (n / k = q)%nat /\ (n mod k = r)%nat.
Proof.
  intros Hk. exists (n / k)%nat, (n mod k)%nat. split; [apply Nat.mod_upper_bound; lia|].
  split; [apply Nat.div_mod; lia|done].
Qed.

Lemma numeric_bits_length t : Z.of_nat (length (numeric_bits t)) = (Z.of_nat (length t) * 10 + 2) / 3.
Proof.
  unfold numeric_bits. rewrite (pack_length 10 3 3) by (cbn; lia). cbn [length Nat.add]. rewrite length_map.
  destruct (split_mod (length t) 3) as (q & r & Hr & E & -> & ->); [lia|]. rewrite E. unfold group_width.
  destruct r as [|[|[|]]]; [..|lia]; case_decide; try discriminate; Z.to_euclidean_division_equations; lia.
Qed.

Lemma alphanumeric_bits_length t : Z.of_nat (length (alphanumeric_bits t)) = (Z.of_nat (length t) * 11 + 1) / 2.
Proof.
  unfold alphanumeric_bits. rewrite (pack_length 45 2 5) by (cbn; lia). cbn [length Nat.add]. rewrite length_map.
  destruct (split_mod (length t) 2) as (q & r & Hr & E & -> & ->); [lia|]. rewrite E. unfold group_width.
  destruct r as [|[|]]; [..|lia]; case_decide; try discriminate; Z.to_euclidean_division_equations; lia.
Qed.

(** What a maker leaves: the payload's segment in a buffer of the same size. *)
Definition made (p : payload) (buf : arr) (r : option qrcodegen_Segment) : Prop :=
  exists seg, r = Some seg /\ is_segment p seg /\ length (seg_data seg) = length buf /\ bytes_ok (seg_data seg).

Lemma made_of p buf n buf2 cap :
  holds cap buf2 (payload_bits p) -> length buf2 = length buf ->
  n = Z.of_nat (length (payload_bits p)) -> 0 <= payload_count p <= INT16_MAX -> n <= INT16_MAX ->
  made p buf (Some {| seg_mode := payload_mode p; seg_numChars := payload_count p; seg_data := buf2; seg_bitLength := n |}).
Proof.
  intros Hh Hl Hn Hc Hm. eexists. split; [done|]. split; [|split; [done|apply Hh]].
  apply is_segment_of; [done..|]. by apply (holds_prefix cap).
Qed.

Lemma div8_cap n : (n <= 8 * Z.to_nat ((Z.of_nat n + 7) / 8))%nat.
Proof. Z.to_euclidean_division_equations. lia. Qed.

Theorem makeNumeric_spec text buf :
  Forall numeric_ok text -> bytes_ok buf ->
  Z.of_nat (length (numeric_bits text)) <= INT16_MAX ->
  (Z.of_nat (length (numeric_bits text)) + 7) / 8 <= Z.of_nat (length buf) ->
  made (PNumeric text) buf (qrcodegen_makeNumeric text buf).
Proof.
  intros Ht Hb Hn Hl. pose proof (numeric_bits_length text) as Hlen.
  assert (Hcnt : 0 <= Z.of_nat (length text) <= INT16_MAX) by (rewrite Hlen in Hn; Z.to_euclidean_division_equations; lia).
  unfold qrcodegen_makeNumeric. rewrite calcSegmentBitLength_numeric by (rewrite <- ?Hlen; done).
  rewrite <- Hlen. set (n := length (numeric_bits text)) in *. cbn [mbind option_bind].
  unfold assert at 1. rewrite (proj2 (Z.eqb_neq _ _)) by lia. cbn [negb mbind option_bind].
  destruct (cleared buf (Z.of_nat n)) as (buf1 & -> & H1 & L1); [done|split; [apply Z.div_pos; lia|done]|lia|].
  cbn [mbind option_bind]. rewrite (foldm_pointwise _ _ text _ numeric_step_pack).
  destruct (pack_all 10 3 3 ltac:(lia) ltac:(lia) ltac:(auto) ltac:(vm_compute; lia)
    (fun c => assert ((48 <=? s8 c) && (s8 c <=? 57));; Some (s8 c - 48)) (8 * Z.to_nat ((Z.of_nat n + 7) / 8)) text (map numeric_value text) buf1)
    as (pend & b2 & n2 & -> & Hp & Hfin); [|by apply numeric_digits_ok|done|apply div8_cap|].
  { apply Forall2_fmap_r, Forall_Forall2_diag. revert Ht. apply List.Forall_impl. intros c Hc. unfold assert.
    rewrite s8_digit, !(proj2 (Z.leb_le _ _)) by (done || (unfold numeric_ok in Hc; lia)). done. }
  cbn [mbind option_bind]. destruct (Hfin (Z.of_nat (length pend) * 3 + 1)) as (b3 & -> & H3 & L3).
  { intros _. unfold group_width. lia. }
  cbn [mbind option_bind fst snd]. fold (numeric_bits text) n. unfold assert. rewrite Z.eqb_refl. cbn [mbind option_bind].
  apply (made_of (PNumeric text) buf _ b3 _ H3); [congruence|done..].
Qed.

Theorem makeAlphanumeric_spec text buf :
  Forall alphanumeric_ok text -> bytes_ok buf ->
  Z.of_nat (length (alphanumeric_bits text)) <= INT16_MAX ->
  (Z.of_nat (length (alphanumeric_bits text)) + 7) / 8 <= Z.of_nat (length buf) ->
  made (PAlphanumeric text) buf (qrcodegen_makeAlphanumeric text buf).
Proof.
  intros Ht Hb Hn Hl. pose proof (alphanumeric_bits_length text) as Hlen.
  assert (Hcnt : 0 <= Z.of_nat (length text) <= INT16_MAX) by (rewrite Hlen in Hn; Z.to_euclidean_division_equations; lia).
  unfold qrcodegen_makeAlphanumeric. rewrite calcSegmentBitLength_alphanumeric by (rewrite <- ?Hlen; done).
  rewrite <- Hlen. set (n := length (alphanumeric_bits text)) in *. cbn [mbind option_bind].
  unfold assert at 1. rewrite (proj2 (Z.eqb_neq _ _)) by lia. cbn [negb mbind option_bind].
  destruct (cleared buf (Z.of_nat n)) as (buf1 & -> & H1 & L1); [done|split; [apply Z.div_pos; lia|done]|lia|].
  cbn [mbind option_bind]. rewrite (foldm_pointwise _ _ text _ alphanumeric_step_pack).
  destruct (pack_all 45 2 5 ltac:(lia) ltac:(lia) ltac:(auto) ltac:(vm_compute; lia)
    (strchr ALPHANUMERIC_CHARSET) (8 * Z.to_nat ((Z.of_nat n + 7) / 8)) text (map alphanumeric_value text) buf1)
    as (pend & b2 & n2 & -> & Hp & Hfin); [|by apply alphanumeric_digits_ok|done|apply div8_cap|].
  { apply Forall2_fmap_r, Forall_Forall2_diag. revert Ht. apply List.Forall_impl. intros c Hc. by apply alphanumeric_inv. }
  cbn [mbind option_bind]. destruct (Hfin 6) as (b3 & -> & H3 & L3).
  { intros Hp1. unfold group_width. lia. }
  cbn [mbind option_bind fst snd]. fold (alphanumeric_bits text) n. unfold assert. rewrite Z.eqb_refl. cbn [mbind option_bind].
  apply (made_of (PAlphanumeric text) buf _ b3 _ H3); [congruence|done..].
Qed.

Theorem makeBytes_spec data buf :
  bytes_ok data -> bytes_ok buf -> Z.of_nat (length data) * 8 <= INT16_MAX -> (length data <= length buf)%nat ->
  made (PBytes data) buf (qrcodegen_makeBytes data (Z.of_nat (length data)) buf).
Proof.
  intros Hd Hb Hn Hl. unfold qrcodegen_makeBytes. rewrite calcSegmentBitLength_bytes by (done || lia). cbn [mbind option_bind].
  unfold assert at 1. rewrite (proj2 (Z.eqb_neq _ _)) by lia. cbn [negb mbind option_bind].
  assert (E : (if 0 <? Z.of_nat (length data) then copy_in buf data (Z.of_nat (length data)) else Some buf) =
      Some (data ++ drop (length data) buf)).
  { destruct (Z.ltb_spec 0 (Z.of_nat (length data))).
    - unfold copy_in. rewrite !(proj2 (Z.leb_le _ _)), Nat2Z.id, firstn_all by lia. done.
    - destruct data; [done|cbn in *; lia]. }
  rewrite E. cbn [mbind option_bind].
  eexists. split; [done|]. split.
  - apply (is_segment_of (PBytes data)).
    + cbn. rewrite bits_length. lia.
    + cbn. unfold INT16_MAX in *. lia.
    + lia.
    + exists (bits (drop (length data) buf)). apply bits_app.
  - cbn. split; [rewrite length_app, length_drop; lia|]. apply Forall_app. split; [done|by apply Forall_drop].
Qed.

(** [p ← appendBitsToBuffer ...; k] on a buffer with enough room. *)
Lemma append_then {A} cap buf bs n val numBits (k : arr * Z -> option A) :
  holds cap buf bs -> n = Z.of_nat (length bs) -> 0 <= numBits <= 16 -> 0 <= val < 2 ^ numBits ->
  (length bs + Z.to_nat numBits <= cap)%nat ->
  exists buf', (p ← appendBitsToBuffer val numBits buf n; k p) = k (buf', Z.of_nat (length (bs ++ bits_of (Z.to_nat numBits) val))) /\
    holds cap buf' (bs ++ bits_of (Z.to_nat numBits) val) /\ length buf' = length buf.
Proof.
  intros Hh -> Hn Hv Hc. destruct (appendBits_spec cap buf bs val numBits Hh Hn Hv Hc) as (b & -> & H & L).
  exists b. cbn [mbind option_bind]. rewrite length_app, bits_of_length. done.
Qed.

Lemma append_last cap buf bs n val numBits :
  holds cap buf bs -> n = Z.of_nat (length bs) -> 0 <= numBits <= 16 -> 0 <= val < 2 ^ numBits ->
  (length bs + Z.to_nat numBits <= cap)%nat ->
  exists buf', appendBitsToBuffer val numBits buf n = Some (buf', Z.of_nat (length (bs ++ bits_of (Z.to_nat numBits) val))) /\
    holds cap buf' (bs ++ bits_of (Z.to_nat numBits) val) /\ length buf' = length buf.
Proof.
  intros Hh Hl Hn Hv Hc. destruct (append_then cap buf bs n val numBits Some Hh Hl Hn Hv Hc) as (b & E & H).
  exists b. split; [|done]. rewrite <- E. by destruct (appendBitsToBuffer _ _ _ _).
Qed.

(** There is room for the next bits. *)
Ltac room := rewrite ?length_app, ?bits_of_length; cbn [length]; lia.

Theorem makeEci_spec v buf :
  0 <= v < 1000000 -> bytes_ok buf -> Z.of_nat (length (eci_bits v)) <= 8 * Z.of_nat (length buf) ->
  made (PEci v) buf (qrcodegen_makeEci v buf).
Proof.
  intros Hv Hb Hl.
  assert (Hfin : forall cap buf2, length buf2 = length buf -> holds cap buf2 (eci_bits v) ->
    made (PEci v) buf (Some {| seg_mode := qrcodegen_Mode_ECI; seg_numChars := 0; seg_data := buf2;
                               seg_bitLength := Z.of_nat (length (eci_bits v)) |})).
  { intros cap buf2 Hl2 H2. apply (made_of (PEci v) buf _ buf2 _ H2 Hl2); [done|cbn; unfold INT16_MAX; lia|].
    cbn. destruct (eci_lengths v) as [-> | [-> | ->]]; unfold INT16_MAX; lia. }
  unfold qrcodegen_makeEci. rewrite (proj2 (Z.ltb_ge _ _)) by lia. change (Z.shiftl 1 7) with (2 ^ 7). change (Z.shiftl 1 14) with (2 ^ 14).
  unfold eci_bits in Hfin, Hl. destruct (Z.ltb_spec v (2 ^ 7)); [|destruct (Z.ltb_spec v (2 ^ 14))].
  - rewrite bits_of_length in Hl. rewrite clear_some by lia. cbn [mbind option_bind].
    pose proof (clear_some buf 1 ltac:(lia)) as Ec. pose proof (clear_holds buf 1 _ Hb Ec) as Hc.
    destruct (append_last 8 _ [] 0 v 8 Hc) as (b & -> & H2 & L2); [done|lia..|room|].
    cbn [mbind option_bind fst snd]. apply (Hfin 8%nat); [|exact H2]. rewrite L2. by apply (clear_length _ _ _ Ec).
  - rewrite length_app, bits_of_length in Hl. cbn [length] in Hl. rewrite clear_some by lia. cbn [mbind option_bind].
    pose proof (clear_some buf 2 ltac:(lia)) as Ec. pose proof (clear_holds buf 2 _ Hb Ec) as Hc.
    destruct (append_last 16 _ [] 0 2 2 Hc) as (b & -> & H2 & L2); [done|lia..|room|].
    cbn [mbind option_bind fst snd]. destruct (append_last 16 _ _ _ v 14 H2 eq_refl) as (b3 & -> & H3 & L3); [lia..|room|].
    cbn [mbind option_bind fst snd]. apply (Hfin 16%nat); [|exact H3]. rewrite L3, L2. by apply (clear_length _ _ _ Ec).
  - rewrite !length_app, !bits_of_length in Hl. cbn [length] in Hl. rewrite (proj2 (Z.ltb_lt _ _)) by lia. rewrite clear_some by lia. cbn [mbind option_bind].
    pose proof (clear_some buf 3 ltac:(lia)) as Ec. pose proof (clear_holds buf 3 _ Hb Ec) as Hc.
    destruct (append_last 24 _ [] 0 6 3 Hc) as (b & -> & H2 & L2); [done|lia..|room|]. cbn [mbind option_bind fst snd].
    destruct (append_last 24 _ _ _ (Z.shiftr v 10) 11 H2 eq_refl) as (b3 & -> & H3 & L3); [lia| |room|].
    { rewrite Z.shiftr_div_pow2 by lia. split; [apply Z.div_pos; lia|apply Z.div_lt_upper_bound; lia]. }
    cbn [mbind option_bind fst snd].
    destruct (append_last 24 _ _ _ (Z.land v 0x3FF) 10 H3 eq_refl) as (b4 & -> & H4 & L4); [lia| |room|].
    { change 0x3FF with (Z.ones 10). rewrite Z.land_ones by lia. apply Z.mod_pos_bound. lia. }
    cbn [mbind option_bind fst snd]. rewrite <- app_assoc in H4 |- *. apply (Hfin 24%nat); [|exact H4].
    rewrite L4, L3, L2. by apply (clear_length _ _ _ Ec).
Qed.
