(* ===== verification/QrGrid.v ===== *)
(** * The module grid of a QR code: tools/qrtext/qrcodegen.h

    The grid of a code of size [n] is an array whose first byte is [n] and whose
    further bytes hold the modules row by row.  Everything that draws function
    modules is a sequence of [setModule]s fixed by the version ([draw]), whose
    last write to a module decides it ([painted]). *)

From Stdlib Require Import ZArith Lia List.
From stdpp Require Import base tactics list numbers option.
From S2P Require Import Prelude QrArray QrSegments.
Local Open Scope Z_scope.

(** ** Modules *)

Definition qrcodegen_getSize (qrcode : arr) : option Z :=
  result ← rd qrcode 0;
  assert ((qrcodegen_VERSION_MIN * 4 + 17 <=? result) && (result <=? qrcodegen_VERSION_MAX * 4 + 17));;
  Some result.

Definition in_bounds (qrsize x y : Z) : bool := (0 <=? x) && (x <? qrsize) && (0 <=? y) && (y <? qrsize).

Definition getModule (qrcode : arr) (x y : Z) : option bool :=
  qrsize ← rd qrcode 0;
  assert ((21 <=? qrsize) && (qrsize <=? 177) && in_bounds qrsize x y);;
  let index := y * qrsize + x in
  v ← rd qrcode (Z.shiftr index 3 + 1);
  Some (getBit v (Z.land index 7)).

Definition qrcodegen_getModule (qrcode : arr) (x y : Z) : option bool :=
  qrsize ← rd qrcode 0;
  if in_bounds qrsize x y then getModule qrcode x y else Some false.

Definition setModule (qrcode : arr) (x y : Z) (isBlack : bool) : option arr :=
  qrsize ← rd qrcode 0;
  assert ((21 <=? qrsize) && (qrsize <=? 177) && in_bounds qrsize x y);;
  let index := y * qrsize + x in
  let bitIndex := Z.land index 7 in
  let byteIndex := Z.shiftr index 3 + 1 in
  v ← rd qrcode byteIndex;
  wr qrcode byteIndex
    (if isBlack then Z.lor v (Z.shiftl 1 bitIndex) else Z.land v (Z.lxor (Z.shiftl 1 bitIndex) 0xFF)).

Definition setModuleBounded (qrcode : arr) (x y : Z) (isBlack : bool) : option arr :=
  qrsize ← rd qrcode 0;
  if in_bounds qrsize x y then setModule qrcode x y isBlack else Some qrcode.

Definition fillRectangle (left top width height : Z) (qrcode : arr) : option arr :=
  foldm (fun dy qrcode =>
    foldm (fun dx qrcode => setModule qrcode (left + dx) (top + dy) true) (zrange 0 width) qrcode)
  (zrange 0 height) qrcode.

(** ** The grid as an image *)

Definition grid (n : Z) (q : arr) : Prop :=
  rd q 0 = Some n /\ 21 <= n <= 177 /\ bytes_ok q /\ (n * n + 7) / 8 + 1 <= Z.of_nat (length q).

Definition pix (q : arr) (x y : Z) : bool := default false (getModule q x y).

Definition inside (n x y : Z) : Prop := 0 <= x < n /\ 0 <= y < n.

Lemma in_bounds_spec n x y : in_bounds n x y = true <-> inside n x y.
Proof. unfold in_bounds, inside. rewrite !andb_true_iff, !Z.leb_le, !Z.ltb_lt. lia. Qed.

Lemma in_bounds_out n x y : in_bounds n x y = false <-> ~ inside n x y.
Proof. rewrite <- in_bounds_spec. by destruct (in_bounds n x y). Qed.

(** The byte and bit of module [(x, y)] *)
Definition cell_byte (n x y : Z) : Z := Z.shiftr (y * n + x) 3 + 1.
Definition cell_bit (n x y : Z) : Z := Z.land (y * n + x) 7.

Lemma cell_arith n x y : cell_byte n x y = (y * n + x) / 8 + 1 /\ cell_bit n x y = (y * n + x) mod 8.
Proof.
  unfold cell_byte, cell_bit. rewrite Z.shiftr_div_pow2 by lia. change 7 with (Z.ones 3). by rewrite Z.land_ones by lia.
Qed.

Lemma cell_range n x y : inside n x y -> 1 <= cell_byte n x y < (n * n + 7) / 8 + 1 /\ 0 <= cell_bit n x y < 8.
Proof.
  intros [Hx Hy]. destruct (cell_arith n x y) as [-> ->]. assert (0 <= y * n + x < n * n) by nia.
  split; [|apply Z.mod_pos_bound; lia]. Z.to_euclidean_division_equations. lia.
Qed.

Lemma cell_inj n x y x' y' : inside n x y -> inside n x' y' ->
  cell_byte n x y = cell_byte n x' y' -> cell_bit n x y = cell_bit n x' y' -> x = x' /\ y = y'.
Proof.
  intros [Hx Hy] [Hx' Hy']. destruct (cell_arith n x y) as [-> ->], (cell_arith n x' y') as [-> ->]. intros Hb Hm.
  assert (y * n + x = y' * n + x').
  { rewrite (Z.div_mod (y * n + x) 8), (Z.div_mod (y' * n + x') 8) by lia. lia. }
  assert (y = y') by nia. nia.
Qed.

Lemma grid_cell n q x y : grid n q -> inside n x y -> exists v, rd q (cell_byte n x y) = Some v /\ is_u8 v.
Proof.
  intros (_ & _ & Hb & Hl) Hin. pose proof (cell_range n x y Hin). destruct (rd_some q (cell_byte n x y)) as [v Hv]; [lia|].
  exists v. split; [done|]. by apply (rd_is_u8 q _ _ Hb Hv).
Qed.

Lemma grid_assert n x y : 21 <= n <= 177 -> inside n x y ->
  assert ((21 <=? n) && (n <=? 177) && in_bounds n x y) = Some tt.
Proof. intros Hn Hin. unfold assert. rewrite !(proj2 (Z.leb_le _ _)) by lia. by rewrite (proj2 (in_bounds_spec n x y)) by done. Qed.

Lemma getModule_cell n q x y : grid n q -> inside n x y ->
  getModule q x y = v ← rd q (cell_byte n x y); Some (Z.testbit v (cell_bit n x y)).
Proof.
  intros (H0 & Hn & _) Hin. unfold getModule. rewrite H0. cbn [mbind option_bind]. rewrite grid_assert by done. cbn [mbind option_bind].
  fold (cell_byte n x y) (cell_bit n x y). destruct (rd q (cell_byte n x y)) as [v|]; [|done]. cbn [mbind option_bind].
  rewrite getBit_testbit; [done|]. by apply cell_range.
Qed.

Lemma getModule_pix n q x y : grid n q -> inside n x y -> getModule q x y = Some (pix q x y).
Proof.
  intros Hg Hin. unfold pix. rewrite (getModule_cell n) by done.
  destruct (grid_cell n q x y Hg Hin) as (v & -> & _). done.
Qed.

Lemma qrcodegen_getModule_in n q x y : grid n q -> inside n x y -> qrcodegen_getModule q x y = Some (pix q x y).
Proof.
  intros Hg Hin. unfold qrcodegen_getModule. rewrite (proj1 Hg). cbn [mbind option_bind].
  rewrite (proj2 (in_bounds_spec n x y)) by done. by apply (getModule_pix n).
Qed.

Lemma qrcodegen_getModule_out n q x y : grid n q -> ~ inside n x y -> qrcodegen_getModule q x y = Some false.
Proof.
  intros Hg Hin. unfold qrcodegen_getModule. rewrite (proj1 Hg). cbn [mbind option_bind].
  by rewrite (proj2 (in_bounds_out n x y)).
Qed.

Lemma getSize_grid n q : grid n q -> qrcodegen_getSize q = Some n.
Proof.
  intros (H0 & Hn & _). unfold qrcodegen_getSize. rewrite H0. cbn [mbind option_bind]. unfold assert, qrcodegen_VERSION_MIN, qrcodegen_VERSION_MAX.
  by rewrite !(proj2 (Z.leb_le _ _)) by lia.
Qed.

(** The new byte *)
Definition set_bit (v i : Z) (b : bool) : Z :=
  if b then Z.lor v (Z.shiftl 1 i) else Z.land v (Z.lxor (Z.shiftl 1 i) 0xFF).

Lemma set_bit_testbit v i b j : is_u8 v -> 0 <= i < 8 -> 0 <= j < 8 ->
  Z.testbit (set_bit v i b) j = if j =? i then b else Z.testbit v j.
Proof.
  intros Hv Hi Hj. unfold set_bit. destruct b.
  - change 1 with (b2z true) at 1. rewrite testbit_lor_shift by lia. destruct (j =? i); [apply orb_true_r|apply orb_false_r].
  - rewrite Z.land_spec, Z.lxor_spec. change 0xFF with (Z.ones 8). rewrite Z.ones_spec_low by lia.
    rewrite <- (Z.lor_0_l (Z.shiftl 1 i)). change 1 with (b2z true) at 1. rewrite testbit_lor_shift, Z.bits_0 by lia.
    destruct (j =? i); cbn; [apply andb_false_r|apply andb_true_r].
Qed.

Lemma set_bit_u8 v i b : is_u8 v -> 0 <= i < 8 -> is_u8 (set_bit v i b).
Proof.
  intros Hv Hi. unfold set_bit. destruct b; [by apply (lor_bit_u8 v true)|].
  rewrite <- (u8_id v) by done. unfold u8. rewrite <- Z.land_ones by lia.
  rewrite <- Z.land_assoc, (Z.land_comm (Z.ones 8)), Z.land_assoc, Z.land_ones by lia. apply u8_range.
Qed.

Lemma pix_cell n q x y v : grid n q -> inside n x y -> rd q (cell_byte n x y) = Some v ->
  pix q x y = Z.testbit v (cell_bit n x y).
Proof. intros Hg Hin Hv. unfold pix. by rewrite (getModule_cell n), Hv by done. Qed.

(** One module changes. *)
Lemma setModule_spec n q x y b : grid n q -> inside n x y ->
  exists q', setModule q x y b = Some q' /\ grid n q' /\ length q' = length q /\
    forall x' y', inside n x' y' -> pix q' x' y' = if (x' =? x) && (y' =? y) then b else pix q x' y'.
Proof.
  intros Hg Hin. pose proof Hg as (H0 & Hn & Hb & Hl). pose proof (cell_range n x y Hin) as [Hr Hi].
  destruct (grid_cell n q x y Hg Hin) as (v & Hv & Hvu).
  assert (E : setModule q x y b = wr q (cell_byte n x y) (set_bit v (cell_bit n x y) b)).
  { unfold setModule. rewrite H0. cbn [mbind option_bind]. rewrite grid_assert by done. cbn [mbind option_bind].
    fold (cell_byte n x y) (cell_bit n x y). by rewrite Hv. }
  rewrite E. pose proof (wr_some q (cell_byte n x y) (set_bit v (cell_bit n x y) b) ltac:(lia)) as Ew.
  rewrite Ew. eexists. split; [done|]. set (q' := <[_:=_]> q) in *.
  assert (Hg' : grid n q').
  { split; [|split; [done|split]].
    - rewrite (rd_wr _ _ _ _ _ Ew), (proj2 (Z.eqb_neq _ _)) by lia. done.
    - apply (wr_bytes _ _ _ _ Hb (set_bit_u8 v _ b Hvu Hi) Ew).
    - by rewrite (wr_length _ _ _ _ Ew). }
  split; [done|]. split; [apply (wr_length _ _ _ _ Ew)|]. intros x' y' Hin'. pose proof (cell_range n x' y' Hin') as [_ Hi'].
  destruct (grid_cell n q x' y' Hg Hin') as (v' & Hv' & _). rewrite (pix_cell n q x' y' v') by done.
  rewrite (pix_cell n q' x' y' (if cell_byte n x' y' =? cell_byte n x y then set_bit v (cell_bit n x y) b else v'));
    [|done|done|rewrite (rd_wr _ _ _ _ _ Ew); by case_match].
  destruct (Z.eqb_spec (cell_byte n x' y') (cell_byte n x y)) as [Eb|Nb].
  - rewrite set_bit_testbit by done. rewrite Eb, Hv in Hv'. injection Hv' as ->.
    destruct (Z.eqb_spec (cell_bit n x' y') (cell_bit n x y)) as [Ei|Ni].
    + destruct (cell_inj n x' y' x y) as [-> ->]; [done..|]. by rewrite !Z.eqb_refl.
    + destruct (Z.eqb_spec x' x), (Z.eqb_spec y' y); subst; done.
  - destruct (Z.eqb_spec x' x), (Z.eqb_spec y' y); subst; done.
Qed.

(** ** Sequences of writes *)

Notation op := (Z * Z * bool)%type.

Definition draw (ops : list op) (q : arr) : option arr :=
  foldm (fun '(x, y, b) q => setModule q x y b) ops q.

(** What the writes leave in a module, if any goes there. *)
Definition painted (ops : list op) (x y : Z) : option bool :=
  fold_left (fun o '(a, b, c) => if (x =? a) && (y =? b) then Some c else o) ops None.

Definition op_in (n : Z) (o : op) : Prop := inside n o.1.1 o.1.2.

Lemma painted_app l k x y : painted (l ++ k) x y = match painted k x y with Some c => Some c | None => painted l x y end.
Proof.
  unfold painted. rewrite fold_left_app. generalize (fold_left (fun o '(a, b, c) => if (x =? a) && (y =? b) then Some c else o) l None).
  assert (H : forall o, fold_left (fun o '(a, b, c) => if (x =? a) && (y =? b) then Some c else o) k o =
    match fold_left (fun o '(a, b, c) => if (x =? a) && (y =? b) then Some c else o) k None with Some c => Some c | None => o end); [|exact H].
  induction k as [|[[a b] c] k IH] using rev_ind; intros o; [done|]. rewrite !fold_left_app. cbn.
  destruct ((x =? a) && (y =? b)); [done|]. apply IH.
Qed.

Lemma painted_cons a b c l x y :
  painted ((a, b, c) :: l) x y = match painted l x y with Some c => Some c | None => if (x =? a) && (y =? b) then Some c else None end.
Proof. change ((a, b, c) :: l) with ([(a, b, c)] ++ l). by rewrite painted_app. Qed.

(** A module that no write goes to. *)
Lemma painted_none ops x y : (forall c, ~ In (x, y, c) ops) -> painted ops x y = None.
Proof.
  induction ops as [|[[a b] c] ops IH]; intros H; [done|]. rewrite painted_cons, IH.
  - destruct (Z.eqb_spec x a), (Z.eqb_spec y b); try done. subst. destruct (H c). by left.
  - intros c' Hc. apply (H c'). by right.
Qed.

(** A module that is written one value only. *)
Lemma painted_some ops x y c : In (x, y, c) ops -> (forall c', In (x, y, c') ops -> c' = c) -> painted ops x y = Some c.
Proof.
  induction ops as [|[[a b] c1] ops IH]; [done|]. intros Hin Hc. rewrite painted_cons.
  destruct (painted ops x y) as [c2|] eqn:E.
  - destruct (in_dec (prod_eq_dec) (x, y, c) ops) as [Hin'|Hn].
    + apply IH; [done|]. intros c' H'. apply Hc. by right.
    + exfalso. assert (Hnone : painted ops x y = None); [|congruence]. apply painted_none.
      intros c' H'. assert (c' = c) as -> by (apply Hc; by right). done.
  - destruct Hin as [[= -> -> ->]|Hin]; [by rewrite !Z.eqb_refl|].
    discriminate IH; [done|]. intros c' H'. apply Hc. by right.
Qed.

Lemma draw_spec n ops : forall q, grid n q -> Forall (op_in n) ops ->
  exists q', draw ops q = Some q' /\ grid n q' /\ length q' = length q /\
    forall x y, inside n x y -> pix q' x y = default (pix q x y) (painted ops x y).
Proof.
  induction ops as [|[[a b] c] ops IH]; intros q Hg Hops; [by exists q|].
  inversion_clear Hops as [|? ? Hab Hops']. destruct (setModule_spec n q a b c Hg Hab) as (q1 & E & Hg1 & L1 & P1).
  unfold draw. cbn [foldm]. rewrite E. cbn [mbind option_bind]. destruct (IH q1 Hg1 Hops') as (q2 & E2 & Hg2 & L2 & P2).
  exists q2. split; [exact E2|]. split; [done|]. split; [congruence|]. intros x y Hin.
  rewrite P2, P1, painted_cons by done. destruct (painted ops x y); [done|]. by destruct ((x =? a) && (y =? b)).
Qed.

(** [f] writes [ops] to a grid of size [n]. *)
Definition draws (n : Z) (f : arr -> option arr) (ops : list op) : Prop :=
  Forall (op_in n) ops /\ forall q, grid n q -> f q = draw ops q.

Lemma draws_spec n f ops q : draws n f ops -> grid n q ->
  exists q', f q = Some q' /\ grid n q' /\ length q' = length q /\
    forall x y, inside n x y -> pix q' x y = default (pix q x y) (painted ops x y).
Proof. intros [Hi Hf] Hg. rewrite Hf by done. by apply draw_spec. Qed.

Lemma draws_set n x y b : inside n x y -> draws n (fun q => setModule q x y b) [(x, y, b)].
Proof. intros Hin. split; [by constructor|]. intros q _. unfold draw. cbn [foldm]. by destruct (setModule q x y b). Qed.

Lemma draws_none n : draws n Some [].
Proof. by split. Qed.

Lemma draws_seq n f g o1 o2 : draws n f o1 -> draws n g o2 -> draws n (fun q => q ← f q; g q) (o1 ++ o2).
Proof.
  intros [I1 H1] [I2 H2]. split; [by apply Forall_app|]. intros q Hg. unfold draw. rewrite foldm_app.
  fold (draw o1 q). rewrite H1 by done. destruct (draw_spec n o1 q Hg I1) as (q1 & -> & Hg1 & _). cbn. by apply H2.
Qed.

Lemma draws_loop {I} n (f : I -> arr -> option arr) (o : I -> list op) l :
  (forall i, In i l -> draws n (f i) (o i)) -> draws n (foldm f l) (flat_map o l).
Proof.
  induction l as [|i l IH]; intros H; [apply draws_none|]. cbn [flat_map].
  apply (draws_seq n (f i) (foldm f l)); [apply H; by left|]. apply IH. intros j Hj. apply H. by right.
Qed.

Lemma draws_ext n f g ops : (forall q, f q = g q) -> draws n f ops -> draws n g ops.
Proof. intros E [Hi Hf]. split; [done|]. intros q Hg. by rewrite <- E, Hf. Qed.

Definition rect (left top width height : Z) : list op :=
  flat_map (fun dy => map (fun dx => (left + dx, top + dy, true)) (zrange 0 width)) (zrange 0 height).

Lemma In_zrange a b i : In i (zrange a b) <-> a <= i < b.
Proof. by rewrite <- list_elem_of_In, elem_of_zrange. Qed.

Lemma In_rect l t w h x y c : In (x, y, c) (rect l t w h) <-> l <= x < l + w /\ t <= y < t + h /\ c = true.
Proof.
  unfold rect. rewrite in_flat_map. split.
  - intros (dy & Hdy & (dx & [= <- <- <-] & Hdx)%in_map_iff). apply In_zrange in Hdx, Hdy. lia.
  - intros (Hx & Hy & ->). exists (y - t). rewrite In_zrange. split; [lia|]. apply in_map_iff. exists (x - l). rewrite In_zrange.
    split; [|lia]. by replace (l + (x - l)) with x by lia; replace (t + (y - t)) with y by lia.
Qed.

Lemma draws_fillRectangle n l t w h : 0 <= l -> l + w <= n -> 0 <= t -> t + h <= n ->
  draws n (fillRectangle l t w h) (rect l t w h).
Proof.
  intros Hl Hw Ht Hh. unfold fillRectangle, rect. apply draws_loop. intros dy Hdy%In_zrange.
  replace (map _ (zrange 0 w)) with (flat_map (fun dx => [(l + dx, t + dy, true)]) (zrange 0 w)) by (induction (zrange 0 w); cbn; congruence).
  apply draws_loop. intros dx Hdx%In_zrange. apply draws_set. split; lia.
Qed.

Lemma draws_bounded n x y b : 21 <= n <= 177 ->
  draws n (fun q => setModuleBounded q x y b) (if in_bounds n x y then [(x, y, b)] else []).
Proof.
  intros Hn. destruct (in_bounds n x y) eqn:E.
  - pose proof (proj1 (in_bounds_spec n x y) E) as Hin. destruct (draws_set n x y b Hin) as [Hi Hf]. split; [done|].
    intros q Hg. rewrite <- Hf by done. unfold setModuleBounded. rewrite (proj1 Hg). cbn. by rewrite E.
  - split; [constructor|]. intros q Hg. unfold setModuleBounded. rewrite (proj1 Hg). cbn. by rewrite E.
Qed.
