(* ===== verification/QrFunction.v ===== *)
(** * Function modules of a QR code: tools/qrtext/qrcodegen.h

    Timing, finder, alignment, version and format patterns: what the code draws
    as sequences of writes, where ([is_function]), and how many modules they
    leave for data. *)

From Stdlib Require Import ZArith Lia List.
From stdpp Require Import base tactics list numbers option.
From S2P Require Import Prelude QrArray QrSegments QrGrid.
Local Open Scope Z_scope.

(** ** The code *)

Section Code.
Context `{Uninit}.

(** The loop's state is the array and [pos]. *)
Definition getAlignmentPatternPositions (version : Z) (result : arr) : option (Z * arr) :=
  if version =? 1 then Some (0, result) else
  let numAlign := version / 7 + 2 in
  let step := if version =? 32 then 26
              else (version * 4 + numAlign * 2 + 1) / (numAlign * 2 - 2) * 2 in
  p ← foldm (fun i '(result, pos) => result ← wr result i (u8 pos); Some (result, pos - step))
            (rev (zrange 1 numAlign)) (result, version * 4 + 10);
  result ← wr p.1 0 6;
  Some (numAlign, result).

(** The three finder corners *)
Definition finder_corner (numAlign i j : Z) : bool :=
  ((i =? 0) && (j =? 0)) || ((i =? 0) && (j =? numAlign - 1)) || ((i =? numAlign - 1) && (j =? 0)).

Definition initializeFunctionModules (version : Z) (qrcode : arr) : option arr :=
  let qrsize := version * 4 + 17 in
  qrcode ← clear qrcode ((qrsize * qrsize + 7) / 8 + 1);
  qrcode ← wr qrcode 0 (u8 qrsize);
  (* timing patterns *)
  qrcode ← fillRectangle 6 0 1 qrsize qrcode;
  qrcode ← fillRectangle 0 6 qrsize 1 qrcode;
  (* finder patterns and format bits *)
  qrcode ← fillRectangle 0 0 9 9 qrcode;
  qrcode ← fillRectangle (qrsize - 8) 0 8 9 qrcode;
  qrcode ← fillRectangle 0 (qrsize - 8) 9 8 qrcode;
  (* alignment patterns *)
  p ← getAlignmentPatternPositions version (uninit 7);
  let '(numAlign, alignPatPos) := p in
  qrcode ← foldm (fun i qrcode => foldm (fun j qrcode =>
      if negb (finder_corner numAlign i j) then
        xi ← rd alignPatPos i; yj ← rd alignPatPos j; fillRectangle (xi - 2) (yj - 2) 5 5 qrcode
      else Some qrcode) (zrange 0 numAlign) qrcode) (zrange 0 numAlign) qrcode;
  (* version blocks *)
  if 7 <=? version then
    qrcode ← fillRectangle (qrsize - 11) 0 3 6 qrcode;
    fillRectangle 0 (qrsize - 11) 6 3 qrcode
  else Some qrcode.

(** [a], [a + 2], ... below [b] *)
Definition zrange2 (a b : Z) : list Z := map (fun k => a + 2 * k) (zrange 0 ((b - a + 1) / 2)).

Definition version_rem (version : Z) : Z :=
  fold_left (fun rem _ => Z.lxor (Z.shiftl rem 1) (Z.shiftr rem 11 * 0x1F25)) (zrange 0 12) version.

(** One finder module, in all three corners *)
Definition draw_finder (qrsize dy dx : Z) (qrcode : arr) : option arr :=
  let dist := if Z.abs dx <? Z.abs dy then Z.abs dy else Z.abs dx in
  if (dist =? 2) || (dist =? 4) then
    qrcode ← setModuleBounded qrcode (3 + dx) (3 + dy) false;
    qrcode ← setModuleBounded qrcode (qrsize - 4 + dx) (3 + dy) false;
    setModuleBounded qrcode (3 + dx) (qrsize - 4 + dy) false
  else Some qrcode.

Definition draw_alignment (xi yj : Z) (qrcode : arr) : option arr :=
  foldm (fun dy qrcode => foldm (fun dx qrcode =>
    setModule qrcode (xi + dx) (yj + dy) ((dx =? 0) && (dy =? 0)))
    (zrange (-1) (1 + 1)) qrcode) (zrange (-1) (1 + 1)) qrcode.

(** One bit of the version, in both blocks *)
Definition draw_version (qrsize i j : Z) : Z * arr -> option (Z * arr) := fun '(bits, qrcode) =>
  let k := qrsize - 11 + j in
  qrcode ← setModule qrcode k i (negb (Z.land bits 1 =? 0));
  qrcode ← setModule qrcode i k (negb (Z.land bits 1 =? 0));
  Some (Z.shiftr bits 1, qrcode).

Definition drawWhiteFunctionModules (qrcode : arr) (version : Z) : option arr :=
  qrsize ← qrcodegen_getSize qrcode;
  qrcode ← foldm (fun i qrcode => qrcode ← setModule qrcode 6 i false; setModule qrcode i 6 false)
                 (zrange2 7 (qrsize - 7)) qrcode;
  qrcode ← foldm (fun dy qrcode => foldm (draw_finder qrsize dy) (zrange (-4) (4 + 1)) qrcode)
                 (zrange (-4) (4 + 1)) qrcode;
  p ← getAlignmentPatternPositions version (uninit 7);
  let '(numAlign, alignPatPos) := p in
  qrcode ← foldm (fun i qrcode => foldm (fun j qrcode =>
      if finder_corner numAlign i j then Some qrcode else
        xi ← rd alignPatPos i; yj ← rd alignPatPos j; draw_alignment xi yj qrcode)
      (zrange 0 numAlign) qrcode) (zrange 0 numAlign) qrcode;
  if 7 <=? version then
    let bits := Z.lor (Z.shiftl version 12) (version_rem version) in
    assert (Z.shiftr bits 18 =? 0);;
    p ← foldm (fun i st => foldm (fun j st => draw_version qrsize i j st) (zrange 0 3) st)
              (zrange 0 6) (bits, qrcode);
    Some p.2
  else Some qrcode.

Definition format_rem (data : Z) : Z :=
  fold_left (fun rem _ => Z.lxor (Z.shiftl rem 1) (Z.shiftr rem 9 * 0x537)) (zrange 0 10) data.

(** The 15 format bits *)
Definition format_word (data : Z) : Z := Z.lxor (Z.lor (Z.shiftl data 10) (format_rem data)) 0x5412.

Definition drawFormatBits (ecl mask : Z) (qrcode : arr) : option arr :=
  assert ((0 <=? mask) && (mask <=? 7));;
  e ← rd [1; 0; 3; 2] ecl;
  let data := Z.lor (Z.shiftl e 3) mask in
  let bits := format_word data in
  assert (Z.shiftr bits 15 =? 0);;
  (* first copy *)
  qrcode ← foldm (fun i qrcode => setModule qrcode 8 i (getBit bits i)) (zrange 0 (5 + 1)) qrcode;
  qrcode ← setModule qrcode 8 7 (getBit bits 6);
  qrcode ← setModule qrcode 8 8 (getBit bits 7);
  qrcode ← setModule qrcode 7 8 (getBit bits 8);
  qrcode ← foldm (fun i qrcode => setModule qrcode (14 - i) 8 (getBit bits i)) (zrange 9 15) qrcode;
  (* second copy *)
  qrsize ← qrcodegen_getSize qrcode;
  qrcode ← foldm (fun i qrcode => setModule qrcode (qrsize - 1 - i) 8 (getBit bits i)) (zrange 0 8) qrcode;
  qrcode ← foldm (fun i qrcode => setModule qrcode 8 (qrsize - 15 + i) (getBit bits i)) (zrange 8 15) qrcode;
  setModule qrcode 8 (qrsize - 8) true.
End Code.

(** ** Facts that are evaluated per version *)

Definition qrsize_of (version : Z) : Z := version * 4 + 17.

Definition version_ok (v : Z) : Prop := 1 <= v <= 40.

Lemma all_versions (P : Z -> bool) : forallb P (zrange 1 41) = true -> forall v, version_ok v -> P v = true.
Proof.
  intros H v Hv. rewrite forallb_forall in H. apply H, In_zrange. unfold version_ok in Hv. lia.
Qed.

(** The alignment patterns' coordinates *)
Definition align (v : Z) : list Z :=
  if v =? 1 then [] else
  let numAlign := v / 7 + 2 in
  let step := if v =? 32 then 26 else (v * 4 + numAlign * 2 + 1) / (numAlign * 2 - 2) * 2 in
  6 :: map (fun i => v * 4 + 10 - step * (numAlign - 1 - i)) (zrange 1 numAlign).

Definition num_align (v : Z) : Z := Z.of_nat (length (align v)).

Lemma getAlignment_spec v result : version_ok v -> length result = 7%nat ->
  getAlignmentPatternPositions v result = Some (num_align v, align v ++ drop (length (align v)) result).
Proof.
  intros Hv Hl. assert (Hin : In v (zrange 1 41)) by (apply In_zrange; unfold version_ok in Hv; lia).
  destruct result as [|r0 [|r1 [|r2 [|r3 [|r4 [|r5 [|r6 [|]]]]]]]]; try discriminate Hl.
  vm_compute in Hin. repeat (destruct Hin as [<-|Hin]; [vm_compute; reflexivity|]). destruct Hin.
Qed.

Definition align_at (v i : Z) : Z := nth (Z.to_nat i) (align v) 0.

(** What [o a b] draws for the alignment patterns' centres *)
Definition align_ops (v : Z) (o : Z -> Z -> list op) : list op :=
  flat_map (fun i => flat_map (fun j =>
    if finder_corner (num_align v) i j then [] else o (align_at v i) (align_at v j))
    (zrange 0 (num_align v))) (zrange 0 (num_align v)).

Definition align_centres (v : Z) : list (Z * Z) :=
  flat_map (fun i => flat_map (fun j =>
    if finder_corner (num_align v) i j then [] else [(align_at v i, align_at v j)])
    (zrange 0 (num_align v))) (zrange 0 (num_align v)).

Lemma In_align_ops v o e : In e (align_ops v o) <-> exists a b, In (a, b) (align_centres v) /\ In e (o a b).
Proof.
  unfold align_ops, align_centres. rewrite in_flat_map. split.
  - intros (i & Hi & (j & Hj & He)%in_flat_map). destruct (finder_corner _ i j) eqn:Ec; [done|].
    exists (align_at v i), (align_at v j). split; [|done]. rewrite in_flat_map. exists i. split; [done|].
    rewrite in_flat_map. exists j. split; [done|]. rewrite Ec. by left.
  - intros (a & b & (i & Hi & (j & Hj & He)%in_flat_map)%in_flat_map & Ho). exists i. split; [done|].
    rewrite in_flat_map. exists j. split; [done|]. destruct (finder_corner _ i j); [done|].
    destruct He as [[= <- <-]|[]]. done.
Qed.

(** The centres leave room for the patterns, away from the finder patterns. *)
Lemma align_centres_room v a b : version_ok v -> In (a, b) (align_centres v) ->
  6 <= a <= qrsize_of v - 7 /\ 6 <= b <= qrsize_of v - 7 /\
  ~ (a < 12 /\ b < 12) /\ ~ (qrsize_of v - 14 <= a /\ b < 12) /\ ~ (a < 12 /\ qrsize_of v - 14 <= b).
Proof.
  intros Hv Hin.
  pose proof (all_versions (fun v => forallb (fun '(a, b) =>
    (6 <=? a) && (a <=? qrsize_of v - 7) && (6 <=? b) && (b <=? qrsize_of v - 7) &&
    negb ((a <? 12) && (b <? 12)) && negb ((qrsize_of v - 14 <=? a) && (b <? 12)) &&
    negb ((a <? 12) && (qrsize_of v - 14 <=? b))) (align_centres v)) ltac:(vm_compute; reflexivity) v Hv) as H.
  rewrite forallb_forall in H. specialize (H _ Hin). cbv beta iota in H.
  rewrite !andb_true_iff, !negb_true_iff, !andb_false_iff, !Z.leb_le, !Z.leb_gt, !Z.ltb_ge in H. lia.
Qed.

(** ** The function modules *)

Definition in_rect (l t w h x y : Z) : bool := (l <=? x) && (x <? l + w) && (t <=? y) && (y <? t + h).

Definition is_function (v x y : Z) : bool :=
  let n := qrsize_of v in
  (x =? 6) || (y =? 6) || in_rect 0 0 9 9 x y || in_rect (n - 8) 0 8 9 x y || in_rect 0 (n - 8) 9 8 x y ||
  existsb (fun '(a, b) => in_rect (a - 2) (b - 2) 5 5 x y) (align_centres v) ||
  ((7 <=? v) && (in_rect (n - 11) 0 3 6 x y || in_rect 0 (n - 11) 6 3 x y)).

Lemma in_rect_spec l t w h x y : in_rect l t w h x y = true <-> l <= x < l + w /\ t <= y < t + h.
Proof. unfold in_rect. rewrite !andb_true_iff, !Z.leb_le, !Z.ltb_lt. lia. Qed.

Lemma In_rect_in_rect l t w h x y c : In (x, y, c) (rect l t w h) <-> in_rect l t w h x y = true /\ c = true.
Proof. rewrite In_rect, in_rect_spec. tauto. Qed.

(** A loop over the alignment patterns *)
Definition over_alignment (v : Z) (positions : arr) (f : Z -> Z -> arr -> option arr) : arr -> option arr :=
  foldm (fun i => foldm (fun j q =>
    if finder_corner (num_align v) i j then Some q else xi ← rd positions i; yj ← rd positions j; f xi yj q)
    (zrange 0 (num_align v))) (zrange 0 (num_align v)).

Lemma rd_align v rest i : 0 <= i < num_align v -> rd (align v ++ rest) i = Some (align_at v i).
Proof.
  intros Hi. rewrite rd_app_l by (unfold num_align in Hi; lia). unfold rd. rewrite (proj2 (Z.leb_le _ _)) by lia.
  unfold align_at. rewrite nth_lookup. unfold num_align in Hi.
  destruct (lookup_lt_is_Some_2 (align v) (Z.to_nat i)) as [x Hx]; [lia|]. by rewrite Hx.
Qed.

Lemma draws_alignment v rest f o n :
  (forall a b, In (a, b) (align_centres v) -> draws n (f a b) (o a b)) ->
  draws n (over_alignment v (align v ++ rest) f) (align_ops v o).
Proof.
  intros Hf. unfold over_alignment, align_ops. apply draws_loop. intros i Hi. apply draws_loop. intros j Hj.
  pose proof Hi as Hi'. pose proof Hj as Hj'. apply In_zrange in Hi', Hj'.
  destruct (finder_corner (num_align v) i j) eqn:Ec; [apply draws_none|].
  eapply draws_ext; [|apply Hf].
  - intros q. rewrite !rd_align by done. done.
  - unfold align_centres. rewrite in_flat_map. exists i. split; [done|]. rewrite in_flat_map. exists j. split; [done|].
    rewrite Ec. by left.
Qed.

Definition init_ops (v : Z) : list op :=
  let n := qrsize_of v in
  rect 6 0 1 n ++ rect 0 6 n 1 ++ rect 0 0 9 9 ++ rect (n - 8) 0 8 9 ++ rect 0 (n - 8) 9 8 ++
  align_ops v (fun a b => rect (a - 2) (b - 2) 5 5) ++
  (if 7 <=? v then rect (n - 11) 0 3 6 ++ rect 0 (n - 11) 6 3 else []).

Lemma In_init_ops v x y c : inside (qrsize_of v) x y ->
  In (x, y, c) (init_ops v) <-> c = true /\ is_function v x y = true.
Proof.
  intros [Hx Hy]. unfold init_ops, is_function. set (n := qrsize_of v) in *.
  rewrite !in_app_iff, In_align_ops, !In_rect, !orb_true_iff, existsb_exists, !in_rect_spec, !Z.eqb_eq.
  assert (Ha : (exists a b, In (a, b) (align_centres v) /\ In (x, y, c) (rect (a - 2) (b - 2) 5 5)) <->
    c = true /\ exists ab, In ab (align_centres v) /\ (let '(a, b) := ab in in_rect (a - 2) (b - 2) 5 5 x y) = true).
  { split.
    - intros (a & b & Hin & [Hr ->]%In_rect_in_rect). split; [done|]. by exists (a, b).
    - intros (-> & [a b] & Hin & Hr). exists a, b. split; [done|]. by apply In_rect_in_rect. }
  rewrite Ha. destruct (7 <=? v); cbn [andb]; rewrite ?in_app_iff, ?In_rect, ?orb_true_iff, ?in_rect_spec;
    destruct c; try (split; [intros Hc|intros [Hc _]]; exfalso; intuition congruence); cbn [In];
    split; intros Hc; intuition lia.
Qed.

Lemma draws_init v : version_ok v -> forall rest,
  draws (qrsize_of v) (fun q =>
    let n := qrsize_of v in
    q ← fillRectangle 6 0 1 n q; q ← fillRectangle 0 6 n 1 q; q ← fillRectangle 0 0 9 9 q;
    q ← fillRectangle (n - 8) 0 8 9 q; q ← fillRectangle 0 (n - 8) 9 8 q;
    q ← foldm (fun i q => foldm (fun j q =>
      if negb (finder_corner (num_align v) i j) then
        xi ← rd (align v ++ rest) i; yj ← rd (align v ++ rest) j; fillRectangle (xi - 2) (yj - 2) 5 5 q
      else Some q) (zrange 0 (num_align v)) q) (zrange 0 (num_align v)) q;
    if 7 <=? v then q ← fillRectangle (n - 11) 0 3 6 q; fillRectangle 0 (n - 11) 6 3 q else Some q) (init_ops v).
Proof.
  intros Hv rest. unfold version_ok in Hv. unfold init_ops. cbv zeta. assert (Hn : qrsize_of v = v * 4 + 17) by done.
  do 5 (apply (draws_seq (qrsize_of v)); [apply draws_fillRectangle; lia|]). apply (draws_seq (qrsize_of v)).
  - eapply draws_ext; [|apply (draws_alignment v rest (fun a b => fillRectangle (a - 2) (b - 2) 5 5))].
    { intros q. unfold over_alignment. apply foldm_pointwise. intros i s. apply foldm_pointwise. intros j t.
      by destruct (finder_corner _ i j). }
    intros a b Hab. pose proof (align_centres_room v a b Hv Hab). apply draws_fillRectangle; lia.
  - destruct (Z.leb_spec 7 v); [|apply draws_none]. apply (draws_seq (qrsize_of v)); apply draws_fillRectangle; lia.
Qed.

(** [initializeFunctionModules] marks the function modules. *)
Theorem initialize_spec `{Uninit} v q : version_ok v -> bytes_ok q ->
  (qrsize_of v * qrsize_of v + 7) / 8 + 1 <= Z.of_nat (length q) ->
  exists q', initializeFunctionModules v q = Some q' /\ grid (qrsize_of v) q' /\ length q' = length q /\
    forall x y, inside (qrsize_of v) x y -> pix q' x y = is_function v x y.
Proof.
  intros Hv Hq Hl. pose proof Hv as Hv'. unfold version_ok in Hv'. set (n := qrsize_of v) in *.
  assert (Hn : n = v * 4 + 17) by done. assert (0 <= (n * n + 7) / 8) by (apply Z.div_pos; [pose proof (Z.square_nonneg n)|]; lia).
  assert (Hu : is_u8 n) by (unfold is_u8; lia).
  pose proof (clear_some q ((n * n + 7) / 8 + 1) ltac:(lia)) as Ec.
  set (q1 := replicate _ 0 ++ drop _ q) in Ec.
  pose proof (wr_some q1 0 n ltac:(rewrite (clear_length _ _ _ Ec); lia)) as Ew.
  set (q2 := <[_:=n]> q1) in Ew.
  assert (Hg : grid n q2).
  { split; [|split; [lia|split]].
    - by rewrite (rd_wr _ _ _ _ _ Ew).
    - apply (wr_bytes _ _ _ _ (clear_bytes _ _ _ Hq Ec) Hu Ew).
    - by rewrite (wr_length _ _ _ _ Ew), (clear_length _ _ _ Ec). }
  assert (Hz : forall x y, inside n x y -> pix q2 x y = false).
  { intros x y Hin. pose proof (cell_range n x y Hin) as [Hr _].
    rewrite (pix_cell n q2 x y 0); [apply Z.bits_0|done|done|].
    rewrite (rd_wr _ _ _ _ _ Ew), (proj2 (Z.eqb_neq _ _)) by lia.
    unfold q1. rewrite rd_app_l by (rewrite length_replicate; lia). unfold rd.
    rewrite (proj2 (Z.leb_le _ _)) by lia. apply lookup_replicate_2. lia. }
  destruct (draws_spec n _ _ q2 (draws_init v Hv (drop (length (align v)) (uninit 7))) Hg) as (q3 & E & Hg3 & L3 & P3).
  exists q3. split; [|split; [done|split]].
  - unfold initializeFunctionModules. fold (qrsize_of v). fold n. rewrite Ec. cbn [mbind option_bind].
    rewrite u8_id by (unfold is_u8; lia). rewrite Ew. cbn [mbind option_bind].
    rewrite getAlignment_spec by (done || (rewrite uninit_length; done)). exact E.
  - by rewrite L3, (wr_length _ _ _ _ Ew), (clear_length _ _ _ Ec).
  - intros x y Hin. rewrite P3, Hz by done. destruct (is_function v x y) eqn:Ef.
    + rewrite (painted_some _ _ _ true); [done|by apply In_init_ops|]. intros c Hc. by apply In_init_ops in Hc as [-> _].
    + rewrite painted_none; [done|]. intros c Hc. apply In_init_ops in Hc as [_ Hc]; [|done]. congruence.
Qed.

(** ** The white modules *)

Definition bounded (n x y : Z) (b : bool) : list op := if in_bounds n x y then [(x, y, b)] else [].

Definition finder_ops (n dy dx : Z) : list op :=
  let dist := if Z.abs dx <? Z.abs dy then Z.abs dy else Z.abs dx in
  if (dist =? 2) || (dist =? 4) then
    bounded n (3 + dx) (3 + dy) false ++ bounded n (n - 4 + dx) (3 + dy) false ++ bounded n (3 + dx) (n - 4 + dy) false
  else [].

Definition alignment_ops (a b : Z) : list op :=
  flat_map (fun dy => flat_map (fun dx => [(a + dx, b + dy, (dx =? 0) && (dy =? 0))]) (zrange (-1) 2)) (zrange (-1) 2).

Fixpoint version_ops (n bits : Z) (l : list (Z * Z)) : list op :=
  match l with
  | [] => []
  | (i, j) :: l =>
    (n - 11 + j, i, negb (Z.land bits 1 =? 0)) :: (i, n - 11 + j, negb (Z.land bits 1 =? 0)) ::
    version_ops n (Z.shiftr bits 1) l
  end.

Definition version_bits (v : Z) : Z := Z.lor (Z.shiftl v 12) (version_rem v).

Definition white_ops (v : Z) : list op :=
  let n := qrsize_of v in
  flat_map (fun i => [(6, i, false); (i, 6, false)]) (zrange2 7 (n - 7)) ++
  flat_map (fun dy => flat_map (finder_ops n dy) (zrange (-4) 5)) (zrange (-4) 5) ++
  align_ops v alignment_ops ++
  (if 7 <=? v then version_ops n (version_bits v) (list_prod (zrange 0 6) (zrange 0 3)) else []).

Lemma In_zrange2 a b i : In i (zrange2 a b) -> a <= i < b.
Proof.
  unfold zrange2. intros (k & <- & Hk%In_zrange)%in_map_iff. Z.to_euclidean_division_equations. lia.
Qed.

Lemma draws_finder n dy dx : 21 <= n <= 177 -> draws n (draw_finder n dy dx) (finder_ops n dy dx).
Proof.
  intros Hn. unfold draw_finder, finder_ops. cbv zeta. case_match; [|apply draws_none].
  apply (draws_seq n); [by apply draws_bounded|]. apply (draws_seq n); by apply draws_bounded.
Qed.

Lemma version_loop n l : forall bits q, grid n q ->
  Forall (fun '(i, j) => 0 <= i < n /\ 0 <= n - 11 + j < n) l ->
  foldm (fun '(i, j) st => draw_version n i j st) l (bits, q) =
  (q' ← draw (version_ops n bits l) q; Some (Z.shiftr bits (Z.of_nat (length l)), q')).
Proof.
  induction l as [|[i j] l IH]; intros bits q Hg Hl; [cbn; by rewrite Z.shiftr_0_r|].
  inversion_clear Hl as [|? ? Hij Hl']. cbv beta iota in Hij. destruct Hij as [Hi Hj]. cbn [foldm version_ops]. unfold draw at 1. cbn [foldm]. unfold draw_version at 2.
  destruct (setModule_spec n q (n - 11 + j) i (negb (Z.land bits 1 =? 0)) Hg) as (q1 & -> & Hg1 & _); [by split|].
  cbn [mbind option_bind].
  destruct (setModule_spec n q1 i (n - 11 + j) (negb (Z.land bits 1 =? 0)) Hg1) as (q2 & -> & Hg2 & _); [by split|].
  cbn [mbind option_bind]. rewrite IH by done. unfold draw. destruct (foldm _ (version_ops _ _ _) q2); [|done]. cbn [mbind option_bind length].
  rewrite Z.shiftr_shiftr by lia. do 3 f_equal. lia.
Qed.

Lemma version_ops_in n l : forall bits, Forall (fun '(i, j) => 0 <= i < n /\ 0 <= n - 11 + j < n) l ->
  Forall (op_in n) (version_ops n bits l).
Proof.
  induction l as [|[i j] l IH]; intros bits Hl; [constructor|]. inversion_clear Hl as [|? ? Hij Hl']. cbv beta iota in Hij. destruct Hij as [Hi Hj].
  constructor; [by split|]. constructor; [by split|]. by apply IH.
Qed.

Lemma draws_white_patterns v rest : version_ok v -> draws (qrsize_of v) (fun q =>
    let n := qrsize_of v in
    q ← foldm (fun i q => q ← setModule q 6 i false; setModule q i 6 false) (zrange2 7 (n - 7)) q;
    q ← foldm (fun dy q => foldm (draw_finder n dy) (zrange (-4) 5) q) (zrange (-4) 5) q;
    q ← over_alignment v (align v ++ rest) draw_alignment q;
    if 7 <=? v then
      p ← foldm (fun i st => foldm (fun j st => draw_version n i j st) (zrange 0 3) st) (zrange 0 6) (version_bits v, q);
      Some p.2
    else Some q) (white_ops v).
Proof.
  intros Hv. unfold white_ops. cbv zeta. set (n := qrsize_of v).
  assert (Hn : 21 <= n <= 177) by (unfold n, qrsize_of; unfold version_ok in Hv; lia).
  apply (draws_seq n); [|apply (draws_seq n); [|apply (draws_seq n)]].
  - apply draws_loop. intros i Hi%In_zrange2. apply (draws_seq n _ _ [_] [_]); apply draws_set; split; lia.
  - apply draws_loop. intros dy Hdy. apply draws_loop. intros dx Hdx. by apply draws_finder.
  - apply draws_alignment. intros a b Hab. pose proof (align_centres_room v a b Hv Hab). unfold draw_alignment, alignment_ops.
    apply draws_loop. intros dy Hdy%In_zrange. apply draws_loop. intros dx Hdx%In_zrange. apply draws_set.
    fold n in H. split; lia.
  - destruct (Z.leb_spec 7 v); [|apply draws_none].
    assert (Hl : Forall (fun '(i, j) => 0 <= i < n /\ 0 <= n - 11 + j < n) (list_prod (zrange 0 6) (zrange 0 3))).
    { apply Forall_forall. intros [i j] [Hi%In_zrange Hj%In_zrange]%in_prod_iff. lia. }
    split; [by apply version_ops_in|]. intros q Hg. rewrite foldm_nested, version_loop by done.
    by destruct (draw _ q).
Qed.

(** [drawWhiteFunctionModules] draws [white_ops]. *)
Theorem drawWhite_spec `{Uninit} v q : version_ok v -> grid (qrsize_of v) q ->
  exists q', drawWhiteFunctionModules q v = Some q' /\ grid (qrsize_of v) q' /\ length q' = length q /\
    forall x y, inside (qrsize_of v) x y -> pix q' x y = default (pix q x y) (painted (white_ops v) x y).
Proof.
  intros Hv Hg. destruct (draws_spec _ _ _ q (draws_white_patterns v (drop (length (align v)) (uninit 7)) Hv) Hg) as (q1 & E & R).
  exists q1. split; [|done]. rewrite <- E. unfold drawWhiteFunctionModules. rewrite (getSize_grid _ _ Hg). cbn [mbind option_bind].
  rewrite getAlignment_spec by (done || (rewrite uninit_length; done)).
  change (Z.lor (Z.shiftl v 12) (version_rem v)) with (version_bits v).
  assert (Ea : assert (Z.shiftr (version_bits v) 18 =? 0) = Some tt).
  { unfold assert. by rewrite (all_versions (fun v => Z.shiftr (version_bits v) 18 =? 0) ltac:(vm_compute; reflexivity) v Hv). }
  rewrite Ea. done.
Qed.

Lemma In_version_ops n x y c l : forall bits, In (x, y, c) (version_ops n bits l) ->
  exists i j, In (i, j) l /\ ((x = n - 11 + j /\ y = i) \/ (x = i /\ y = n - 11 + j)).
Proof.
  induction l as [|[i j] l IH]; intros bits; [done|]. cbn [version_ops].
  intros [[= <- <- _]|[[= <- <- _]|H]]; [exists i, j..|].
  - split; [by left|by left].
  - split; [by left|by right].
  - destruct (IH _ H) as (i' & j' & Hin & Hx). exists i', j'. split; [by right|done].
Qed.

Lemma In_bounded n x y b a c d : In (a, c, d) (bounded n x y b) <-> a = x /\ c = y /\ d = b /\ inside n x y.
Proof.
  unfold bounded. rewrite <- in_bounds_spec. destruct (in_bounds n x y); cbn; [|intuition discriminate].
  split; [intros [[= -> -> ->]|[]]; done|intros (-> & -> & -> & _); by left].
Qed.

(** They only touch function modules. *)
Lemma white_ops_function v x y c : version_ok v -> In (x, y, c) (white_ops v) -> is_function v x y = true.
Proof.
  intros Hv Hin. unfold is_function. set (n := qrsize_of v) in *.
  rewrite !orb_true_iff, andb_true_iff, orb_true_iff, existsb_exists, !in_rect_spec, !Z.eqb_eq.
  unfold white_ops in Hin. rewrite !in_app_iff in Hin. destruct Hin as [Hin|[Hin|[Hin|Hin]]].
  - apply in_flat_map in Hin as (i & _ & [[= <- _ _]|[[= _ <- _]|[]]]); tauto.
  - apply in_flat_map in Hin as (dy & Hdy%In_zrange & (dx & Hdx%In_zrange & Hin)%in_flat_map). unfold finder_ops in Hin. cbv zeta in Hin.
    destruct (_ || _); [|done]. rewrite !in_app_iff, !In_bounded in Hin. unfold inside in Hin. fold n in Hin. lia.
  - apply In_align_ops in Hin as (a & b & Hab & (dy & Hdy%In_zrange & (dx & Hdx%In_zrange & [[= <- <- _]|[]])%in_flat_map)%in_flat_map).
    left. right. exists (a, b). split; [done|]. apply in_rect_spec. lia.
  - destruct (Z.leb_spec 7 v); [|done]. apply In_version_ops in Hin as (i & j & [Hi%In_zrange Hj%In_zrange]%in_prod_iff & Hx).
    fold n in Hx. right. split; [done|]. lia.
Qed.
