(* ===== verification/QrFormat.v ===== *)
(** * Format and version words of a QR code: tools/qrtext/qrcodegen.h

    Where the two copies of the format bits are, that [drawFormatBits] writes
    the word of the level and mask there, how it is read back, and how far
    apart different words are. *)

From Stdlib Require Import ZArith Lia List.
From stdpp Require Import base tactics list numbers option.
From S2P Require Import Prelude QrArray QrSegments QrGrid QrFunction.
Local Open Scope Z_scope.

Definition qrcodegen_Ecc_LOW : Z := 0.
Definition qrcodegen_Ecc_MEDIUM : Z := 1.
Definition qrcodegen_Ecc_QUARTILE : Z := 2.
Definition qrcodegen_Ecc_HIGH : Z := 3.

Definition ecl_ok (ecl : Z) : Prop := 0 <= ecl <= 3.
Definition mask_ok (mask : Z) : Prop := 0 <= mask <= 7.

(** The level's two bits *)
Definition ecl_bits (ecl : Z) : Z := nth (Z.to_nat ecl) [1; 0; 3; 2] 0.

Definition format_data (ecl mask : Z) : Z := Z.lor (Z.shiftl (ecl_bits ecl) 3) mask.

(** Bit [i]'s modules *)
Definition format_cell1 (i : Z) : Z * Z :=
  if i <? 6 then (8, i) else if i =? 6 then (8, 7) else if i =? 7 then (8, 8) else if i =? 8 then (7, 8) else (14 - i, 8).

Definition format_cell2 (n i : Z) : Z * Z := if i <? 8 then (n - 1 - i, 8) else (8, n - 15 + i).

Definition format_ops (n bits : Z) : list op :=
  flat_map (fun i => [(8, i, getBit bits i)]) (zrange 0 6) ++
  [(8, 7, getBit bits 6)] ++ [(8, 8, getBit bits 7)] ++ [(7, 8, getBit bits 8)] ++
  flat_map (fun i => [(14 - i, 8, getBit bits i)]) (zrange 9 15) ++
  flat_map (fun i => [(n - 1 - i, 8, getBit bits i)]) (zrange 0 8) ++
  flat_map (fun i => [(8, n - 15 + i, getBit bits i)]) (zrange 8 15) ++
  [(8, n - 8, true)].

Lemma In_single {I} (f : I -> op) l e : In e (flat_map (fun i => [f i]) l) <-> exists i, e = f i /\ In i l.
Proof. rewrite in_flat_map. split; [intros (i & Hi & [<-|[]]); eauto|intros (i & -> & Hi); exists i; split; [done|by left]]. Qed.

Lemma In_format_ops n bits x y c : In (x, y, c) (format_ops n bits) <->
  (exists i, 0 <= i < 15 /\ c = Z.testbit bits i /\ ((x, y) = format_cell1 i \/ (x, y) = format_cell2 n i)) \/
  (x = 8 /\ y = n - 8 /\ c = true).
Proof.
  unfold format_ops. rewrite !in_app_iff, !In_single. setoid_rewrite In_zrange. cbn [In]. split.
  - unfold format_cell1, format_cell2.
    intros [(i & [= -> -> ->] & Hi)|[[[= <- <- <-]|[]]|[[[= <- <- <-]|[]]|[[[= <- <- <-]|[]]|[(i & [= -> -> ->] & Hi)|
      [(i & [= -> -> ->] & Hi)|[(i & [= -> -> ->] & Hi)|[[= <- <- <-]|[]]]]]]]]]; [left..|by right].
    + exists i. rewrite getBit_testbit, (proj2 (Z.ltb_lt i 6)) by lia. split; [lia|]. auto.
    + exists 6. rewrite getBit_testbit by lia. cbn. auto with lia.
    + exists 7. rewrite getBit_testbit by lia. cbn. auto with lia.
    + exists 8. rewrite getBit_testbit by lia. cbn. auto with lia.
    + exists i. rewrite getBit_testbit, (proj2 (Z.ltb_ge i 6)), !(proj2 (Z.eqb_neq _ _)) by lia. split; [lia|]. auto.
    + exists i. rewrite getBit_testbit, (proj2 (Z.ltb_lt i 8)) by lia. split; [lia|]. auto.
    + exists i. rewrite getBit_testbit, (proj2 (Z.ltb_ge i 8)) by lia. split; [lia|]. auto.
  - intros [(i & Hi & -> & [E|E])|(-> & -> & ->)]; [| |by repeat (left + right)].
    + unfold format_cell1 in E. rewrite <- (getBit_testbit bits i) by lia.
      destruct (Z.ltb_spec i 6); [|destruct (Z.eqb_spec i 6); [|destruct (Z.eqb_spec i 7); [|destruct (Z.eqb_spec i 8)]]]; injection E as -> ->.
      * left. exists i. split; [done|lia].
      * subst. right. left. by left.
      * subst. right. right. left. by left.
      * subst. right. right. right. left. by left.
      * do 4 right. left. exists i. split; [done|lia].
    + unfold format_cell2 in E. rewrite <- (getBit_testbit bits i) by lia. destruct (Z.ltb_spec i 8); injection E as -> ->.
      * do 5 right. left. exists i. split; [done|lia].
      * do 6 right. left. exists i. split; [done|lia].
Qed.

Lemma draws_format n bits : 21 <= n <= 177 -> draws n (fun q =>
    q ← foldm (fun i q => setModule q 8 i (getBit bits i)) (zrange 0 6) q;
    q ← setModule q 8 7 (getBit bits 6); q ← setModule q 8 8 (getBit bits 7); q ← setModule q 7 8 (getBit bits 8);
    q ← foldm (fun i q => setModule q (14 - i) 8 (getBit bits i)) (zrange 9 15) q;
    q ← foldm (fun i q => setModule q (n - 1 - i) 8 (getBit bits i)) (zrange 0 8) q;
    q ← foldm (fun i q => setModule q 8 (n - 15 + i) (getBit bits i)) (zrange 8 15) q;
    setModule q 8 (n - 8) true) (format_ops n bits).
Proof.
  intros Hn. unfold format_ops.
  apply (draws_seq n); [apply draws_loop; intros i Hi%In_zrange; apply draws_set; split; lia|].
  do 3 (apply (draws_seq n); [apply draws_set; split; lia|]).
  do 3 (apply (draws_seq n); [apply draws_loop; intros i Hi%In_zrange; apply draws_set; split; lia|]).
  apply draws_set; split; lia.
Qed.

Lemma format_words ecl mask : ecl_ok ecl -> mask_ok mask ->
  0 <= format_word (format_data ecl mask) < 2 ^ 15 /\
  Z.shiftr (Z.lxor (format_word (format_data ecl mask)) 0x5412) 10 = format_data ecl mask.
Proof.
  intros He Hm.
  assert (H : forallb (fun e => forallb (fun m => let w := format_word (format_data e m) in
    (0 <=? w) && (w <? 2 ^ 15) && (Z.shiftr (Z.lxor w 0x5412) 10 =? format_data e m)) (zrange 0 8)) (zrange 0 4) = true)
    by (vm_compute; reflexivity).
  rewrite forallb_forall in H. specialize (H ecl). rewrite forallb_forall in H. unfold ecl_ok, mask_ok in *.
  specialize (H ltac:(apply In_zrange; lia) mask ltac:(apply In_zrange; lia)). cbv zeta in H.
  rewrite !andb_true_iff, Z.leb_le, Z.ltb_lt, Z.eqb_eq in H. tauto.
Qed.

(** [drawFormatBits] writes the word's bits and the dark module. *)
Theorem drawFormat_spec n ecl mask q : ecl_ok ecl -> mask_ok mask -> grid n q ->
  exists q', drawFormatBits ecl mask q = Some q' /\ grid n q' /\ length q' = length q /\
    forall x y, inside n x y ->
      pix q' x y = default (pix q x y) (painted (format_ops n (format_word (format_data ecl mask))) x y).
Proof.
  intros He Hm Hg. pose proof (format_words ecl mask He Hm) as [Hw _]. pose proof Hg as (_ & Hn & _).
  set (w := format_word (format_data ecl mask)) in *.
  destruct (draws_spec _ _ _ q (draws_format n w Hn) Hg) as (q1 & E & R). exists q1. split; [|done].
  assert (Ee : rd [1; 0; 3; 2] ecl = Some (ecl_bits ecl)).
  { unfold ecl_ok in He. assert (ecl = 0 \/ ecl = 1 \/ ecl = 2 \/ ecl = 3) as [-> |[-> |[-> | ->]]] by lia; done. }
  unfold drawFormatBits. unfold assert at 1. unfold mask_ok in Hm. rewrite !(proj2 (Z.leb_le _ _)) by lia. cbn [andb mbind option_bind].
  rewrite Ee. cbn [mbind option_bind]. fold (format_data ecl mask). fold w. unfold assert at 1.
  rewrite Z.shiftr_div_pow2, Z.div_small, Z.eqb_refl by lia. cbn [mbind option_bind].
  change (zrange 0 (5 + 1)) with (zrange 0 6). rewrite <- E. clear E R.
  (* the size is read half way *)
  pose proof (draws_loop n (fun i q => setModule q 8 i (getBit w i)) (fun i => [(8, i, getBit w i)]) (zrange 0 6)) as D1.
  destruct (draws_spec n _ _ q (D1 ltac:(intros i Hi%In_zrange; apply draws_set; split; lia)) Hg) as (a1 & -> & G1 & _). cbn [mbind option_bind].
  destruct (setModule_spec n a1 8 7 (getBit w 6) G1) as (a2 & -> & G2 & _); [split; lia|]. cbn [mbind option_bind].
  destruct (setModule_spec n a2 8 8 (getBit w 7) G2) as (a3 & -> & G3 & _); [split; lia|]. cbn [mbind option_bind].
  destruct (setModule_spec n a3 7 8 (getBit w 8) G3) as (a4 & -> & G4 & _); [split; lia|]. cbn [mbind option_bind].
  pose proof (draws_loop n (fun i q => setModule q (14 - i) 8 (getBit w i)) (fun i => [(14 - i, 8, getBit w i)]) (zrange 9 15)) as D5.
  destruct (draws_spec n _ _ a4 (D5 ltac:(intros i Hi%In_zrange; apply draws_set; split; lia)) G4) as (a5 & -> & G5 & _). cbn [mbind option_bind].
  by rewrite (getSize_grid n a5 G5).
Qed.

(** An equation of cells, by its coordinates. *)
Ltac pair_lia :=
  let H := fresh in let H1 := fresh in let H2 := fresh in
  intros H; pose proof (f_equal fst H) as H1; pose proof (f_equal snd H) as H2; cbn [fst snd] in H1, H2; lia.

Lemma format_cells_inside n i : 21 <= n -> 0 <= i < 15 ->
  inside n (format_cell1 i).1 (format_cell1 i).2 /\ inside n (format_cell2 n i).1 (format_cell2 n i).2.
Proof. intros Hn Hi. unfold format_cell1, format_cell2, inside. repeat case_match; cbn; lia. Qed.

(** Both copies hold the word. *)
Lemma painted_format n bits i : 21 <= n -> 0 <= i < 15 ->
  painted (format_ops n bits) (format_cell1 i).1 (format_cell1 i).2 = Some (Z.testbit bits i) /\
  painted (format_ops n bits) (format_cell2 n i).1 (format_cell2 n i).2 = Some (Z.testbit bits i).
Proof.
  intros Hn Hi. assert (Hinj : forall j x y, 0 <= j < 15 -> (x, y) = format_cell1 i \/ (x, y) = format_cell2 n i ->
    (x, y) = format_cell1 j \/ (x, y) = format_cell2 n j -> j = i).
  { intros j x y Hj. unfold format_cell1, format_cell2. intros [E|E] [F|F]; rewrite E in F;
      revert F; repeat match goal with |- context [if ?b then _ else _] => let H := fresh in destruct b eqn:H end;
      rewrite ?Z.ltb_lt, ?Z.ltb_ge, ?Z.eqb_eq, ?Z.eqb_neq in *; pair_lia. }
  assert (Hdark : forall x y, (x, y) = format_cell1 i \/ (x, y) = format_cell2 n i -> ~ (x = 8 /\ y = n - 8)).
  { intros x y. unfold format_cell1, format_cell2. intros [E|E] [-> ->]; revert E; repeat case_match;
      rewrite ?Z.ltb_lt, ?Z.ltb_ge, ?Z.eqb_eq, ?Z.eqb_neq in *; pair_lia. }
  assert (Hp : forall x y, (x, y) = format_cell1 i \/ (x, y) = format_cell2 n i ->
    painted (format_ops n bits) x y = Some (Z.testbit bits i)).
  { intros x y Hxy. apply painted_some; [apply In_format_ops; left; by exists i|].
    intros c [(j & Hj & -> & Hc)|(H8 & H9 & _)]%In_format_ops; [f_equal; by apply (Hinj j x y)|].
    by destruct (Hdark x y Hxy). }
  split; apply Hp; rewrite <- surjective_pairing; auto.
Qed.

Lemma format_function v bits x y c : version_ok v -> In (x, y, c) (format_ops (qrsize_of v) bits) -> is_function v x y = true.
Proof.
  intros Hv Hin. unfold is_function. set (n := qrsize_of v) in *.
  assert (Hn : 21 <= n) by (unfold n, qrsize_of; unfold version_ok in Hv; lia).
  rewrite !orb_true_iff, !in_rect_spec. do 2 left. apply In_format_ops in Hin as [(i & Hi & _ & [E|E])|(-> & -> & _)].
  - unfold format_cell1 in E. revert E. repeat case_match; rewrite ?Z.ltb_lt, ?Z.ltb_ge, ?Z.eqb_eq, ?Z.eqb_neq in *; pair_lia.
  - unfold format_cell2 in E. revert E. repeat case_match; rewrite ?Z.ltb_lt, ?Z.ltb_ge, ?Z.eqb_eq, ?Z.eqb_neq in *; pair_lia.
  - lia.
Qed.

(** ** Reading the format *)

(** The word in the first copy *)
Definition format_read (image : Z -> Z -> bool) : Z :=
  of_bits (map (fun i => let c := format_cell1 (Z.of_nat i) in image c.1 c.2) (rev (seq 0 15))).

Definition format_mask (word : Z) : Z := Z.land (Z.shiftr (Z.lxor word 0x5412) 10) 7.
Definition format_ecl (word : Z) : Z := ecl_bits (Z.shiftr (Z.lxor word 0x5412) 13).

Lemma format_read_spec image w : 0 <= w < 2 ^ 15 ->
  (forall i, 0 <= i < 15 -> image (format_cell1 i).1 (format_cell1 i).2 = Z.testbit w i) -> format_read image = w.
Proof.
  intros Hw Hi. unfold format_read. rewrite <- (of_bits_of 15 w Hw) at 1. f_equal. unfold bits_of. apply map_ext_in.
  intros i Hin. apply in_rev, in_seq in Hin. apply Hi. lia.
Qed.

Lemma format_decode ecl mask : ecl_ok ecl -> mask_ok mask ->
  format_mask (format_word (format_data ecl mask)) = mask /\ format_ecl (format_word (format_data ecl mask)) = ecl.
Proof.
  intros He Hm.
  assert (H : forallb (fun e => forallb (fun m => let w := format_word (format_data e m) in
    (format_mask w =? m) && (format_ecl w =? e)) (zrange 0 8)) (zrange 0 4) = true) by (vm_compute; reflexivity).
  rewrite forallb_forall in H. specialize (H ecl). rewrite forallb_forall in H. unfold ecl_ok, mask_ok in *.
  specialize (H ltac:(apply In_zrange; lia) mask ltac:(apply In_zrange; lia)). cbv zeta in H.
  rewrite !andb_true_iff, !Z.eqb_eq in H. tauto.
Qed.

(** ** Distances *)

(** The bits in which [a] and [b] differ, of their low [n]. *)
Definition bit_distance (n a b : Z) : nat := length (filter (fun i => Z.testbit (Z.lxor a b) i = true) (zrange 0 n)).

(** All pairs of words of [l] at different places are [d] bits apart. *)
Definition far_apart (n : Z) (d : nat) (l : list (Z * Z)) : bool :=
  forallb (fun p => forallb (fun q => (p.1 =? q.1) || (d <=? bit_distance n p.2 q.2)%nat) l) l.

Lemma far_apart_spec n d l p q : far_apart n d l = true -> In p l -> In q l -> p.1 <> q.1 ->
  (d <= bit_distance n p.2 q.2)%nat.
Proof.
  unfold far_apart. intros H Hp Hq Hne. rewrite forallb_forall in H. specialize (H p Hp).
  rewrite forallb_forall in H. specialize (H q Hq). rewrite orb_true_iff, Z.eqb_eq, Nat.leb_le in H. tauto.
Qed.

Definition format_list : list (Z * Z) := map (fun d => (d, format_word d)) (zrange 0 32).
Definition version_list : list (Z * Z) := map (fun v => (v, version_bits v)) (zrange 7 41).

Lemma format_far d1 d2 : 0 <= d1 < 32 -> 0 <= d2 < 32 -> d1 <> d2 ->
  (7 <= bit_distance 15 (format_word d1) (format_word d2))%nat.
Proof.
  intros H1 H2 Hne. apply (far_apart_spec 15 7 format_list (d1, format_word d1) (d2, format_word d2)); [vm_compute; reflexivity|..|done];
    apply in_map_iff; eexists; (split; [done|apply In_zrange; lia]).
Qed.

Lemma version_far v1 v2 : 7 <= v1 <= 40 -> 7 <= v2 <= 40 -> v1 <> v2 ->
  (8 <= bit_distance 18 (version_bits v1) (version_bits v2))%nat.
Proof.
  intros H1 H2 Hne. apply (far_apart_spec 18 8 version_list (v1, version_bits v1) (v2, version_bits v2)); [vm_compute; reflexivity|..|done];
    apply in_map_iff; eexists; (split; [done|apply In_zrange; lia]).
Qed.

Lemma format_data_inj e1 m1 e2 m2 : ecl_ok e1 -> mask_ok m1 -> ecl_ok e2 -> mask_ok m2 ->
  format_data e1 m1 = format_data e2 m2 -> e1 = e2 /\ m1 = m2.
Proof.
  intros He1 Hm1 He2 Hm2 E. destruct (format_decode e1 m1 He1 Hm1) as [A1 B1], (format_decode e2 m2 He2 Hm2) as [A2 B2].
  rewrite E in A1, B1. split; congruence.
Qed.

Lemma format_data_range e m : ecl_ok e -> mask_ok m -> 0 <= format_data e m < 32.
Proof.
  intros He Hm. assert (H : forallb (fun e => forallb (fun m => (0 <=? format_data e m) && (format_data e m <? 32)) (zrange 0 8)) (zrange 0 4) = true)
    by (vm_compute; reflexivity).
  rewrite forallb_forall in H. specialize (H e). rewrite forallb_forall in H. unfold ecl_ok, mask_ok in *.
  specialize (H ltac:(apply In_zrange; lia) m ltac:(apply In_zrange; lia)). rewrite andb_true_iff, Z.leb_le, Z.ltb_lt in H. done.
Qed.
