(* ===== verification/QrCodewords.v ===== *)
(** * Codewords of a QR code: tools/qrtext/qrcodegen.h

    How many codewords a version has, and [addEccAndInterleave]: the data is cut
    into blocks, each block gets its Reed-Solomon bytes, and the blocks' bytes
    are interleaved.  [codeword_pos] is where byte [j] of block [i] goes; reading
    the blocks back ([deinterleave]) gives the data, and every block is a
    Reed-Solomon codeword. *)

From Stdlib Require Import ZArith Lia List.
From stdpp Require Import base tactics list numbers option.
From S2P Require Import Prelude QrArray QrField QrSegments QrGrid QrFunction QrFormat.
Local Open Scope Z_scope.

(** ** The code *)

Definition ECC_CODEWORDS_PER_BLOCK : list (list Z) :=
  [
   [-1; 7; 10; 15; 20; 26; 18; 20; 24; 30; 18; 20; 24; 26; 30; 22; 24; 28; 30; 28; 28; 28; 28; 30; 30; 26; 28; 30;
    30; 30; 30; 30; 30; 30; 30; 30; 30; 30; 30; 30; 30];
   [-1; 10; 16; 26; 18; 24; 16; 18; 22; 22; 26; 30; 22; 22; 24; 24; 28; 28; 26; 26; 26; 26; 28; 28; 28; 28; 28; 28;
    28; 28; 28; 28; 28; 28; 28; 28; 28; 28; 28; 28; 28];
   [-1; 13; 22; 18; 26; 18; 24; 18; 22; 20; 24; 28; 26; 24; 20; 30; 24; 28; 28; 26; 30; 28; 30; 30; 30; 30; 28; 30;
    30; 30; 30; 30; 30; 30; 30; 30; 30; 30; 30; 30; 30];
   [-1; 17; 28; 22; 16; 22; 28; 26; 26; 24; 28; 24; 28; 22; 24; 24; 30; 28; 28; 26; 28; 30; 24; 30; 30; 30; 30; 30;
    30; 30; 30; 30; 30; 30; 30; 30; 30; 30; 30; 30; 30]
  ].

Definition NUM_ERROR_CORRECTION_BLOCKS : list (list Z) :=
  [
   [-1; 1; 1; 1; 1; 1; 2; 2; 2; 2; 4; 4; 4; 4; 4; 6; 6; 6; 6; 7; 8; 8; 9; 9; 10; 12; 12; 12; 13; 14; 15; 16; 17; 18;
    19; 19; 20; 21; 22; 24; 25];
   [-1; 1; 1; 1; 2; 2; 4; 4; 4; 5; 5; 5; 8; 9; 9; 10; 10; 11; 13; 14; 16; 17; 17; 18; 20; 21; 23; 25; 26; 28; 29; 31;
    33; 35; 37; 38; 40; 43; 45; 47; 49];
   [-1; 1; 1; 2; 2; 4; 4; 6; 6; 8; 8; 8; 10; 12; 16; 12; 17; 16; 18; 21; 20; 23; 23; 25; 27; 29; 34; 34; 35; 38; 40;
    43; 45; 48; 51; 53; 56; 59; 62; 65; 68];
   [-1; 1; 1; 2; 4; 4; 4; 5; 6; 8; 8; 11; 11; 16; 16; 18; 16; 19; 21; 25; 25; 25; 34; 30; 32; 35; 37; 40; 42; 45; 48;
    51; 54; 57; 60; 63; 66; 70; 74; 77; 81]
  ].

(** [t[e][v]] *)
Definition table_at (t : list (list Z)) (e v : Z) : option Z :=
  if 0 <=? e then row ← t !! Z.to_nat e; rd row v else None.

Definition getNumRawDataModules (ver : Z) : option Z :=
  assert ((qrcodegen_VERSION_MIN <=? ver) && (ver <=? qrcodegen_VERSION_MAX));;
  let result := (16 * ver + 128) * ver + 64 in
  let result := if 2 <=? ver then
                  let numAlign := ver / 7 + 2 in
                  let result := result - ((25 * numAlign - 10) * numAlign - 55) in
                  if 7 <=? ver then result - 36 else result
                else result in
  assert ((208 <=? result) && (result <=? 29648));;
  Some result.

Definition getNumDataCodewords (version ecl : Z) : option Z :=
  assert ((0 <=? ecl) && (ecl <? 4));;
  raw ← getNumRawDataModules version;
  e ← table_at ECC_CODEWORDS_PER_BLOCK ecl version;
  b ← table_at NUM_ERROR_CORRECTION_BLOCKS ecl version;
  Some (raw / 8 - e * b).

(** [data] from [dat] on, where the pointer [dat] points. *)
Definition at_ptr (data : arr) (dat : Z) : arr := drop (Z.to_nat dat) data.

Section Code.
Context `{Uninit}.

(** One block.  The Reed-Solomon bytes go to the work area behind the data, which
    no block's data reaches. *)
Definition add_block (dataLen numBlocks numShortBlocks shortBlockDataLen blockEccLen : Z) (rsdiv : arr) (i : Z) :
    arr * Z * arr -> option (arr * Z * arr) := fun '(data, dat, result) =>
  let datLen := shortBlockDataLen + (if i <? numShortBlocks then 0 else 1) in
  ecc ← reedSolomonComputeRemainder (at_ptr data dat) datLen rsdiv blockEccLen (at_ptr data dataLen);
  let data := take (Z.to_nat dataLen) data ++ ecc in
  p ← foldm (fun j '(result, k) =>
               let k := if j =? shortBlockDataLen then k - numShortBlocks else k in
               b ← rd data (dat + j); result ← wr result k b; Some (result, k + numBlocks))
            (zrange 0 datLen) (result, i);
  p ← foldm (fun j '(result, k) =>
               b ← rd data (dataLen + j); result ← wr result k b; Some (result, k + numBlocks))
            (zrange 0 blockEccLen) (p.1, dataLen + i);
  Some (data, dat + datLen, p.1).

Definition addEccAndInterleave (data : arr) (version ecl : Z) (result : arr) : option (arr * arr) :=
  assert ((0 <=? ecl) && (ecl <? 4) && (qrcodegen_VERSION_MIN <=? version) && (version <=? qrcodegen_VERSION_MAX));;
  numBlocks ← table_at NUM_ERROR_CORRECTION_BLOCKS ecl version;
  blockEccLen ← table_at ECC_CODEWORDS_PER_BLOCK ecl version;
  raw ← getNumRawDataModules version;
  let rawCodewords := raw / 8 in
  dataLen ← getNumDataCodewords version ecl;
  let numShortBlocks := numBlocks - rawCodewords mod numBlocks in
  let shortBlockDataLen := rawCodewords / numBlocks - blockEccLen in
  rsdiv ← reedSolomonComputeDivisor blockEccLen (uninit qrcodegen_REED_SOLOMON_DEGREE_MAX);
  s ← foldm (add_block dataLen numBlocks numShortBlocks shortBlockDataLen blockEccLen rsdiv)
            (zrange 0 numBlocks) (data, 0, result);
  Some (s.1.1, s.2).
End Code.

(** ** The layout of a version and level *)

Record layout := {
  lay_blocks : Z;
  lay_ecc : Z;
  lay_modules : Z;
  lay_raw : Z;
  lay_data : Z;
  lay_short_blocks : Z;
  lay_short_len : Z
}.

Definition layout_of (v e : Z) : option layout :=
  b ← table_at NUM_ERROR_CORRECTION_BLOCKS e v;
  c ← table_at ECC_CODEWORDS_PER_BLOCK e v;
  raw ← getNumRawDataModules v;
  d ← getNumDataCodewords v e;
  Some {| lay_blocks := b; lay_ecc := c; lay_modules := raw; lay_raw := raw / 8; lay_data := d;
          lay_short_blocks := b - (raw / 8) mod b; lay_short_len := (raw / 8) / b - c |}.

Record layout_ok (v : Z) (l : layout) : Prop := {
  lo_blocks : 1 <= lay_blocks l <= 81;
  lo_short_blocks : 1 <= lay_short_blocks l <= lay_blocks l;
  lo_ecc : 1 <= lay_ecc l <= 30;
  lo_short_len : 1 <= lay_short_len l;
  lo_word : lay_short_len l + 1 + lay_ecc l <= 255;
  lo_data : lay_data l = lay_blocks l * lay_short_len l + lay_blocks l - lay_short_blocks l;
  lo_raw : lay_raw l = lay_data l + lay_blocks l * lay_ecc l;
  lo_modules : 8 * lay_raw l <= lay_modules l <= 8 * lay_raw l + 7;
  lo_buffer : lay_raw l <= (qrsize_of v * qrsize_of v + 7) / 8 + 1;
  lo_range : 9 <= lay_data l <= 2956
}.

Definition layout_okb (v : Z) (l : layout) : bool :=
  (1 <=? lay_blocks l) && (lay_blocks l <=? 81) && (1 <=? lay_short_blocks l) && (lay_short_blocks l <=? lay_blocks l) &&
  (1 <=? lay_ecc l) && (lay_ecc l <=? 30) && (1 <=? lay_short_len l) && (lay_short_len l + 1 + lay_ecc l <=? 255) &&
  (lay_data l =? lay_blocks l * lay_short_len l + lay_blocks l - lay_short_blocks l) &&
  (lay_raw l =? lay_data l + lay_blocks l * lay_ecc l) &&
  (8 * lay_raw l <=? lay_modules l) && (lay_modules l <=? 8 * lay_raw l + 7) &&
  (lay_raw l <=? (qrsize_of v * qrsize_of v + 7) / 8 + 1) && (9 <=? lay_data l) && (lay_data l <=? 2956).

Lemma layout_spec v e : version_ok v -> ecl_ok e -> exists l, layout_of v e = Some l /\ layout_ok v l.
Proof.
  intros Hv He.
  assert (H : forallb (fun v => forallb (fun e => match layout_of v e with Some l => layout_okb v l | None => false end)
    (zrange 0 4)) (zrange 1 41) = true) by (vm_compute; reflexivity).
  pose proof (all_versions _ H v Hv) as Hb. cbv beta in Hb. rewrite forallb_forall in Hb.
  specialize (Hb e ltac:(apply In_zrange; unfold ecl_ok in He; lia)). destruct (layout_of v e) as [l|]; [|done].
  exists l. split; [done|]. unfold layout_okb in Hb. rewrite !andb_true_iff, !Z.leb_le, !Z.eqb_eq in Hb.
  constructor; lia.
Qed.

(** ** Where the bytes go *)

Section Positions.
Context (v : Z) (l : layout) (Hl : layout_ok v l).

Definition block_len (i : Z) : Z := lay_short_len l + (if i <? lay_short_blocks l then 0 else 1).

(** Where block [i]'s data starts *)
Definition block_start (i : Z) : Z := i * lay_short_len l + Z.max 0 (i - lay_short_blocks l).

Definition data_pos (i j : Z) : Z :=
  if j <? lay_short_len l then j * lay_blocks l + i else lay_short_len l * lay_blocks l + i - lay_short_blocks l.

Definition ecc_pos (i j : Z) : Z := lay_data l + j * lay_blocks l + i.

Definition codeword_pos (i j : Z) : Z := if j <? block_len i then data_pos i j else ecc_pos i (j - block_len i).

Definition pos_ok (i j : Z) : Prop := 0 <= i < lay_blocks l /\ 0 <= j < block_len i + lay_ecc l.

Lemma block_len_range i : lay_short_len l <= block_len i <= lay_short_len l + 1.
Proof. unfold block_len. case_match; lia. Qed.

Lemma block_start_S i : 0 <= i -> block_start (i + 1) = block_start i + block_len i.
Proof. intros Hi. unfold block_start, block_len. destruct (Z.ltb_spec i (lay_short_blocks l)); lia. Qed.

Lemma block_start_end : block_start (lay_blocks l) = lay_data l.
Proof. destruct Hl. unfold block_start. lia. Qed.

Lemma block_fits i : 0 <= i < lay_blocks l -> 0 <= block_start i /\ block_start i + block_len i <= lay_data l.
Proof.
  intros Hi. destruct Hl. unfold block_start, block_len. destruct (Z.ltb_spec i (lay_short_blocks l)); split; nia.
Qed.

Lemma data_pos_range i j : 0 <= i < lay_blocks l -> 0 <= j < block_len i -> 0 <= data_pos i j < lay_data l.
Proof.
  intros Hi Hj. destruct Hl. unfold data_pos, block_len in *.
  destruct (Z.ltb_spec i (lay_short_blocks l)), (Z.ltb_spec j (lay_short_len l)); nia.
Qed.

Lemma ecc_pos_range i j : 0 <= i < lay_blocks l -> 0 <= j < lay_ecc l -> lay_data l <= ecc_pos i j < lay_raw l.
Proof. intros Hi Hj. destruct Hl. unfold ecc_pos. nia. Qed.

Lemma codeword_pos_range i j : pos_ok i j -> 0 <= codeword_pos i j < lay_raw l.
Proof.
  intros [Hi Hj]. unfold codeword_pos. destruct (Z.ltb_spec j (block_len i)).
  - pose proof (data_pos_range i j Hi ltac:(lia)). destruct Hl. nia.
  - pose proof (ecc_pos_range i (j - block_len i) Hi ltac:(lia)). destruct Hl. nia.
Qed.

Lemma row_col_inj b i j i' j' : 0 <= i < b -> 0 <= i' < b -> j * b + i = j' * b + i' -> i = i' /\ j = j'.
Proof. intros Hi Hi' E. assert (j = j') by nia. nia. Qed.

(** No two bytes share a place. *)
Lemma codeword_pos_inj i j i' j' : pos_ok i j -> pos_ok i' j' -> codeword_pos i j = codeword_pos i' j' -> i = i' /\ j = j'.
Proof.
  intros [Hi Hj] [Hi' Hj']. unfold codeword_pos. pose proof Hl as [].
  destruct (Z.ltb_spec j (block_len i)), (Z.ltb_spec j' (block_len i')); intros E.
  - unfold data_pos in E. assert (Hk : forall i j, 0 <= j < block_len i -> lay_short_len l <= j -> j = lay_short_len l /\ lay_short_blocks l <= i).
    { intros k m. unfold block_len. destruct (Z.ltb_spec k (lay_short_blocks l)); lia. }
    destruct (Z.ltb_spec j (lay_short_len l)), (Z.ltb_spec j' (lay_short_len l)).
    + by apply (row_col_inj (lay_blocks l)).
    + destruct (Hk i' j'); [lia..|]. exfalso. nia.
    + destruct (Hk i j); [lia..|]. exfalso. nia.
    + destruct (Hk i j), (Hk i' j'); lia.
  - pose proof (data_pos_range i j Hi ltac:(lia)). pose proof (ecc_pos_range i' (j' - block_len i') Hi' ltac:(lia)). lia.
  - pose proof (data_pos_range i' j' Hi' ltac:(lia)). pose proof (ecc_pos_range i (j - block_len i) Hi ltac:(lia)). lia.
  - unfold ecc_pos in E. destruct (row_col_inj (lay_blocks l) i (j - block_len i) i' (j' - block_len i')) as [-> ?]; lia.
Qed.
End Positions.

(** ** Interleaving *)

(** A loop that copies [n] bytes of [src] to the places [pos j]. *)
Lemma copy_loop (src : arr) (o : Z) (kf : Z -> Z -> Z) (kk pos val : Z -> Z) (step n : Z) (res : arr) :
  0 <= n ->
  (forall j, 0 <= j < n -> kf j (kk j) = pos j /\ kk (j + 1) = pos j + step) ->
  (forall j, 0 <= j < n -> 0 <= pos j < Z.of_nat (length res)) ->
  (forall j j', 0 <= j < n -> 0 <= j' < n -> pos j = pos j' -> j = j') ->
  (forall j, 0 <= j < n -> rd src (o + j) = Some (val j)) ->
  bytes_ok res -> bytes_ok src ->
  exists res', foldm (fun j '(res, k) => let k := kf j k in
                        b ← rd src (o + j); res ← wr res k b; Some (res, k + step)) (zrange 0 n) (res, kk 0) = Some (res', kk n) /\
    length res' = length res /\ bytes_ok res' /\
    (forall j, 0 <= j < n -> rd res' (pos j) = Some (val j)) /\
    (forall p, (forall j, 0 <= j < n -> p <> pos j) -> rd res' p = rd res p).
Proof.
  intros Hn Hk Hpos Hinj Hsrc Hb Hsb.
  loop_invariant (fun m '(r, k) => k = kk (Z.of_nat m) /\ length r = length res /\ bytes_ok r /\
    (forall j, 0 <= j < Z.of_nat m -> rd r (pos j) = Some (val j)) /\
    (forall p, (forall j, 0 <= j < Z.of_nat m -> p <> pos j) -> rd r p = rd res p)).
  - intros m i [r k] Hi (-> & Hl & Hrb & Hw & Hr). pose proof (lookup_lt_Some _ _ _ Hi) as Hlt. rewrite zrange_length in Hlt.
    rewrite zrange_lookup in Hi by done. injection Hi as <-. rewrite Z.add_0_l.
    destruct (Hk (Z.of_nat m)) as [E1 E2]; [lia|]. cbv zeta. rewrite E1, Hsrc by lia. cbn [mbind option_bind].
    pose proof (wr_some r (pos (Z.of_nat m)) (val (Z.of_nat m)) ltac:(rewrite Hl; apply Hpos; lia)) as Ew. rewrite Ew. cbn [mbind option_bind].
    eexists (_, _). split; [done|]. rewrite Nat2Z.inj_succ, <- Z.add_1_r. split; [done|]. split; [by rewrite (wr_length _ _ _ _ Ew)|].
    split; [apply (wr_bytes _ _ _ _ Hrb (rd_is_u8 _ _ _ Hsb (Hsrc (Z.of_nat m) ltac:(lia))) Ew)|]. split.
    + intros j Hj. rewrite (rd_wr _ _ _ _ _ Ew). destruct (Z.eqb_spec (pos j) (pos (Z.of_nat m))) as [Ep|Np].
      * apply Hinj in Ep as ->; [done|lia..].
      * apply Hw. assert (j <> Z.of_nat m) by congruence. lia.
    + intros p Hp. rewrite (rd_wr _ _ _ _ _ Ew), (proj2 (Z.eqb_neq _ _)) by (apply Hp; lia). apply Hr. intros j Hj. apply Hp. lia.
  - split; [done|]. split; [done|]. split; [done|]. split; [lia|done].
  - destruct s as [r k], Hinv as (-> & H). rewrite zrange_length, Z.sub_0_r, Z2Nat.id in * by done. exists r. done.
Qed.

Section Interleave.
Context (v : Z) (l : layout) (Hl : layout_ok v l).
Context (data0 : arr).

(** Block [i]'s data *)
Definition block_data (i : Z) : arr :=
  take (Z.to_nat (block_len l i)) (drop (Z.to_nat (block_start l i)) data0).

(** A word with the block's data whose polynomial has the divisor's roots *)
Definition block_word (i : Z) (w : arr) : Prop :=
  exists ecc, w = block_data i ++ ecc /\ length ecc = Z.to_nat (lay_ecc l) /\ bytes_ok ecc /\
    forall k, (k < Z.to_nat (lay_ecc l))%nat -> eval w (alpha k) = 0.

(** The word is at its places. *)
Definition placed (i : Z) (w res : arr) : Prop :=
  forall j b, w !! j = Some b -> rd res (codeword_pos l i (Z.of_nat j)) = Some b.

Definition blocks_inv (n : Z) : arr * Z * arr -> Prop := fun '(data, dat, res) =>
  dat = block_start l n /\ length data = length data0 /\ bytes_ok data /\
  take (Z.to_nat (lay_data l)) data = take (Z.to_nat (lay_data l)) data0 /\ bytes_ok res /\
  (lay_raw l <= Z.of_nat (length res)) /\
  forall i, 0 <= i < n -> exists w, block_word i w /\ placed i w res.

Lemma take_block i data : 0 <= i < lay_blocks l ->
  take (Z.to_nat (lay_data l)) data = take (Z.to_nat (lay_data l)) data0 ->
  take (Z.to_nat (block_len l i)) (at_ptr data (block_start l i)) = block_data i.
Proof.
  intros Hi E. unfold block_data, at_ptr. destruct (block_fits v l Hl i Hi) as [H0 H1].
  pose proof (block_len_range l i). destruct Hl.
  apply (f_equal (fun a => take (Z.to_nat (block_len l i)) (drop (Z.to_nat (block_start l i)) a))) in E.
  rewrite !skipn_firstn_comm, !take_take in E. rewrite Nat.min_l in E by lia. exact E.
Qed.

Lemma length_block_data i : 0 <= i < lay_blocks l -> (lay_data l <= Z.of_nat (length data0)) ->
  length (block_data i) = Z.to_nat (block_len l i).
Proof.
  intros Hi Hd. unfold block_data. destruct (block_fits v l Hl i Hi). rewrite length_take, length_drop. lia.
Qed.

Lemma rd_nth_some a i : 0 <= i < Z.of_nat (length a) -> rd a i = Some (nth (Z.to_nat i) a 0).
Proof.
  intros Hi. unfold rd. rewrite (proj2 (Z.leb_le _ _)) by lia. rewrite nth_lookup.
  destruct (lookup_lt_is_Some_2 a (Z.to_nat i)) as [x ->]; [lia|done].
Qed.

(** One block *)
Lemma add_block_spec g grest i st : 0 <= i < lay_blocks l -> is_divisor (Z.to_nat (lay_ecc l)) g ->
  lay_raw l <= Z.of_nat (length data0) -> blocks_inv i st ->
  exists st', add_block (lay_data l) (lay_blocks l) (lay_short_blocks l) (lay_short_len l) (lay_ecc l) (g ++ grest) i st = Some st' /\
    blocks_inv (i + 1) st' /\ length st'.2 = length st.2.
Proof.
  intros Hi Hg Hraw. destruct st as [[data dat] res]. intros (-> & Hdl & Hdb & Hdt & Hrb & Hrl & Hprev).
  pose proof (block_fits v l Hl i Hi) as [F0 F1]. pose proof (block_len_range l i) as Hbl.
  pose proof (lo_ecc v l Hl) as He. pose proof (lo_raw v l Hl) as Hr. pose proof (lo_blocks v l Hl) as Hb.
  pose proof (lo_short_len v l Hl) as Hs.
  set (n := block_len l i) in *. set (d := lay_data l) in *. set (E := lay_ecc l) in *.
  assert (HE : d + E <= Z.of_nat (length data)) by nia.
  unfold add_block. fold n.
  destruct (remainder_spec (at_ptr data (block_start l i)) n (Z.to_nat E) g grest (at_ptr data d)) as (ecc & Eecc & Le & Be & Re).
  { done. } { by apply Forall_drop. } { unfold at_ptr. rewrite length_drop. lia. } { lia. } { unfold at_ptr. rewrite length_drop. lia. }
  rewrite Z2Nat.id in Eecc by lia. change (lay_short_len l + (if i <? lay_short_blocks l then 0 else 1)) with n.
  rewrite Eecc. cbn [mbind option_bind]. unfold n in Re. rewrite take_block in Re by done.
  set (data1 := take (Z.to_nat d) data ++ ecc ++ drop (Z.to_nat E) (at_ptr data d)).
  assert (L1 : length data1 = length data).
  { unfold data1, at_ptr. rewrite !length_app, length_take, !length_drop. lia. }
  assert (T1 : take (Z.to_nat d) data1 = take (Z.to_nat d) data).
  { unfold data1. apply take_app_length'. rewrite length_take. lia. }
  assert (Bd1 : bytes_ok data1).
  { unfold data1. apply Forall_app. split; [by apply Forall_take|]. apply Forall_app. split; [done|]. by do 2 apply Forall_drop. }
  set (w := block_data i ++ ecc). assert (Lw : length (block_data i) = Z.to_nat n) by (apply length_block_data; [done|lia]).
  set (val := fun j => nth (Z.to_nat j) w 0).
  assert (Hval1 : forall j, 0 <= j < n -> rd data1 (block_start l i + j) = Some (val j)).
  { intros j Hj. rewrite rd_nth_some by lia. f_equal. unfold val, w. rewrite app_nth1 by lia. rewrite <- (take_block i data) by done. fold n.
    unfold at_ptr. rewrite !nth_lookup. rewrite lookup_take_lt, lookup_drop by lia.
    rewrite <- (lookup_take_lt data1 (Z.to_nat d)), T1, lookup_take_lt by lia. do 2 f_equal. lia. }
  assert (Hval2 : forall j, 0 <= j < E -> rd data1 (d + j) = Some (val (n + j))).
  { intros j Hj. rewrite rd_nth_some by lia. f_equal. unfold val, w, data1. rewrite (app_nth2 (block_data i)), (app_nth2 (take _ _)) by (rewrite ?length_take; lia).
    rewrite length_take, Lw, app_nth1 by lia. f_equal. lia. }
  destruct (copy_loop data1 (block_start l i) (fun j k => if j =? lay_short_len l then k - lay_short_blocks l else k)
    (fun j => if j <=? lay_short_len l then j * lay_blocks l + i else data_pos l i (lay_short_len l) + lay_blocks l)
    (data_pos l i) val (lay_blocks l) n res) as (res1 & E1 & Lr1 & B1 & W1 & O1).
  { lia. }
  { intros j Hj. unfold data_pos. destruct (Z.leb_spec j (lay_short_len l)), (Z.eqb_spec j (lay_short_len l)), (Z.ltb_spec j (lay_short_len l)),
      (Z.leb_spec (j + 1) (lay_short_len l)), (Z.ltb_spec (lay_short_len l) (lay_short_len l)); try lia; split; nia. }
  { intros j Hj. pose proof (data_pos_range v l Hl i j Hi Hj). nia. }
  { intros j j' Hj Hj' Ep. apply (codeword_pos_inj v l Hl i j i j'); [split; [done|fold n E; lia]..|].
    unfold codeword_pos. fold n. by rewrite !(proj2 (Z.ltb_lt _ _)) by lia. }
  { exact Hval1. } { done. } { done. }
  rewrite (proj2 (Z.leb_le 0 (lay_short_len l))), Z.mul_0_l, Z.add_0_l in E1 by lia. cbv zeta in E1. rewrite E1. cbn [mbind option_bind fst snd].
  destruct (copy_loop data1 d (fun j k => k) (fun j => d + j * lay_blocks l + i) (ecc_pos l i) (fun j => val (n + j)) (lay_blocks l) E res1)
    as (res2 & E2 & Lr2 & B2 & W2 & O2).
  { lia. } { intros j Hj. unfold ecc_pos. fold d. lia. }
  { intros j Hj. pose proof (ecc_pos_range v l Hl i j Hi Hj). lia. }
  { intros j j' Hj Hj' Ep. unfold ecc_pos in Ep. nia. } { exact Hval2. } { done. } { done. }
  rewrite Z.mul_0_l, Z.add_0_r in E2. cbv zeta in E2. rewrite E2. cbn [mbind option_bind fst snd].
  eexists. split; [done|].
  assert (Hpos : forall i' j, pos_ok l i' j -> i' <> i -> rd res2 (codeword_pos l i' j) = rd res (codeword_pos l i' j)).
  { intros i' j Hp Hne. rewrite O2, O1; [done|intros m Hm Ep..].
    - apply Hne, (codeword_pos_inj v l Hl i' j i m Hp); [split; [done|fold n E; lia]|]. rewrite Ep. unfold codeword_pos. fold n.
      by rewrite (proj2 (Z.ltb_lt _ _)) by lia.
    - apply Hne, (codeword_pos_inj v l Hl i' j i (n + m) Hp); [split; [done|fold n E; lia]|]. rewrite Ep. unfold codeword_pos. fold n.
      rewrite (proj2 (Z.ltb_ge _ _)) by lia. f_equal. lia. }
  assert (Hw : block_word i w).
  { exists ecc. split; [done|]. fold E. split; [done|]. split; [done|]. intros k Hk. by apply Re. }
  assert (Lww : length w = Z.to_nat (n + E)) by (unfold w; rewrite length_app; lia).
  assert (Hpl : placed i w res2).
  { intros j b Hb'. pose proof (lookup_lt_Some _ _ _ Hb') as Hlt. unfold codeword_pos. fold n.
    assert (Hv : val (Z.of_nat j) = b) by (unfold val; rewrite Nat2Z.id, nth_lookup, Hb'; done).
    destruct (Z.ltb_spec (Z.of_nat j) n).
    - rewrite O2; [by rewrite W1, Hv by lia|]. intros m Hm Ep. pose proof (data_pos_range v l Hl i (Z.of_nat j) Hi ltac:(fold n; lia)).
      pose proof (ecc_pos_range v l Hl i m Hi Hm). lia.
    - rewrite W2 by lia. do 2 f_equal. rewrite <- Hv. f_equal. lia. }
  split; [|cbn; congruence]. split; [by rewrite block_start_S by lia|]. split; [congruence|].
  split; [done|]. split; [by fold d; rewrite T1|]. split; [done|]. split; [lia|]. intros i' Hi'. destruct (decide (i' = i)) as [->|Hne]; [by exists w|].
  destruct (Hprev i') as (w' & Hw' & Hp'); [lia|]. exists w'. split; [done|]. intros j b Hj. rewrite Hpos; [by apply Hp'| |done].
  split; [lia|]. destruct Hw' as (ecc' & -> & Le' & _). apply lookup_lt_Some in Hj.
  rewrite length_app, length_block_data in Hj by lia. pose proof (block_len_range l i'). fold E. lia.
Qed.

(** The codewords' bytes at block [i]'s places *)
Definition word_at (res : arr) (i : Z) : arr :=
  map (fun j => nth (Z.to_nat (codeword_pos l i j)) res 0) (zrange 0 (block_len l i + lay_ecc l)).

(** The blocks' data, put together again *)
Definition deinterleave (res : arr) : arr :=
  concat (map (fun i => take (Z.to_nat (block_len l i)) (word_at res i)) (zrange 0 (lay_blocks l))).

Lemma placed_word_at i w res : 0 <= i < lay_blocks l -> lay_data l <= Z.of_nat (length data0) ->
  block_word i w -> placed i w res -> word_at res i = w.
Proof.
  intros Hi Hd (ecc & -> & Le & _) Hp. pose proof (block_len_range l i). pose proof (lo_short_len v l Hl). pose proof (lo_ecc v l Hl).
  apply list_eq. intros j. unfold word_at. rewrite list_lookup_fmap.
  destruct (decide (j < Z.to_nat (block_len l i + lay_ecc l))%nat) as [Hj|Hj].
  - rewrite zrange_lookup by lia. cbn [fmap option_fmap option_map]. rewrite Z.add_0_l.
    destruct (lookup_lt_is_Some_2 (block_data i ++ ecc) j) as [b Hb]; [rewrite length_app, length_block_data; lia|].
    pose proof (Hp j b Hb) as Hr. apply rd_lookup in Hr as [_ Hr]. by rewrite Hb, nth_lookup, Hr.
  - rewrite !lookup_ge_None_2; [done|rewrite length_app, length_block_data; lia|rewrite zrange_length; lia].
Qed.

Lemma concat_blocks n : 0 <= n <= lay_blocks l ->
  concat (map block_data (zrange 0 n)) = take (Z.to_nat (block_start l n)) data0.
Proof.
  intros Hn. replace n with (Z.of_nat (Z.to_nat n)) in * by lia. induction (Z.to_nat n) as [|m IH].
  - rewrite zrange_nil by lia. unfold block_start. rewrite Z.mul_0_l, Z.max_l by (destruct Hl; lia). done.
  - rewrite Nat2Z.inj_succ, <- Z.add_1_r, zrange_snoc, map_app, concat_app, IH by lia. cbn [map concat]. rewrite app_nil_r.
    rewrite block_start_S by lia. unfold block_data. pose proof (block_fits v l Hl (Z.of_nat m)) as [? _]; [lia|].
    pose proof (block_len_range l (Z.of_nat m)). pose proof (lo_short_len v l Hl).
    rewrite Z2Nat.inj_add by lia. by rewrite take_take_drop.
Qed.
End Interleave.

(** [addEccAndInterleave] places Reed-Solomon words of the data. *)
Theorem addEcc_spec `{Uninit} v e l data result : version_ok v -> ecl_ok e -> layout_of v e = Some l ->
  bytes_ok data -> bytes_ok result -> lay_raw l <= Z.of_nat (length data) -> lay_raw l <= Z.of_nat (length result) ->
  exists data' result', addEccAndInterleave data v e result = Some (data', result') /\
    length data' = length data /\ length result' = length result /\ bytes_ok data' /\ bytes_ok result' /\
    deinterleave l result' = take (Z.to_nat (lay_data l)) data /\
    forall i, 0 <= i < lay_blocks l -> block_word l data i (word_at l result' i).
Proof.
  intros Hv He Hl Hd Hr Ld Lr. destruct (layout_spec v e Hv He) as (l' & El & Hok). rewrite Hl in El. injection El as <-.
  pose proof (lo_raw v l Hok) as Hraw. pose proof (lo_blocks v l Hok) as Hb. pose proof (lo_ecc v l Hok) as Hecc.
  unfold addEccAndInterleave. unfold version_ok, ecl_ok in Hv, He. unfold assert, qrcodegen_VERSION_MIN, qrcodegen_VERSION_MAX.
  rewrite !(proj2 (Z.leb_le _ _)), (proj2 (Z.ltb_lt _ _)) by lia. cbn [andb mbind option_bind].
  unfold layout_of in Hl. destruct (table_at NUM_ERROR_CORRECTION_BLOCKS e v) as [b|]; [|discriminate].
  destruct (table_at ECC_CODEWORDS_PER_BLOCK e v) as [c|]; [|discriminate].
  destruct (getNumRawDataModules v) as [raw|]; [|discriminate].
  destruct (getNumDataCodewords v e) as [d|]; [|discriminate]. cbn [mbind option_bind] in *. injection Hl as Hl.
  assert (Ec : lay_ecc l = c) by (by rewrite <- Hl). 
  destruct (divisor_spec c (uninit qrcodegen_REED_SOLOMON_DEGREE_MAX)) as (g & Hg & ->).
  { lia. } { rewrite uninit_length by done. unfold qrcodegen_REED_SOLOMON_DEGREE_MAX. lia. }
  cbn [mbind option_bind]. set (rest := drop (Z.to_nat c) (uninit qrcodegen_REED_SOLOMON_DEGREE_MAX)). rewrite <- Ec in Hg.
  destruct (foldm_invariant (fun n st => blocks_inv l data (Z.of_nat n) st /\ length st.2 = length result)
    (add_block (lay_data l) (lay_blocks l) (lay_short_blocks l) (lay_short_len l) (lay_ecc l) (g ++ rest))
    (zrange 0 (lay_blocks l)) (data, 0, result)) as (st & E & Hinv & Lst).
  - intros n i st Hi [Hst Lst]. pose proof (lookup_lt_Some _ _ _ Hi) as Hlt. rewrite zrange_length in Hlt.
    rewrite zrange_lookup in Hi by done. injection Hi as <-. rewrite Z.add_0_l.
    destruct (add_block_spec v l Hok data g rest (Z.of_nat n) st) as (st' & E & Hst' & L'); [lia|done..|].
    exists st'. split; [done|]. rewrite Nat2Z.inj_succ, <- Z.add_1_r. split; [done|congruence].
  - split; [|done]. split; [unfold block_start; destruct Hok; lia|]. do 5 (split; [done|]). intros i Hi. lia.
  - rewrite zrange_length, Z.sub_0_r, Z2Nat.id in Hinv by lia. destruct st as [[data' dat] res]. cbn [snd] in Lst.
    destruct Hinv as (_ & L1 & B1 & T1 & B2 & L2 & Hw). exists data', res.
    rewrite <- Hl in E. cbn [lay_blocks lay_ecc lay_data lay_short_blocks lay_short_len] in E. rewrite E. cbn [mbind option_bind fst snd].
    split; [done|]. split; [done|]. split; [done|]. split; [done|]. split; [done|].
    assert (Hword : forall i, 0 <= i < lay_blocks l -> block_word l data i (word_at l res i)).
    { intros i Hi. destruct (Hw i Hi) as (w & Hbw & Hp). by rewrite (placed_word_at v l Hok data i w res) by (done || lia). }
    split; [|done]. unfold deinterleave. rewrite <- (block_start_end v l Hok), <- (concat_blocks v l Hok) by lia. f_equal. apply map_ext_in.
    intros i Hi%In_zrange. destruct (Hword i Hi) as (ecc & -> & _). apply take_app_length'. symmetry. apply (length_block_data v l Hok); [done|lia].
Qed.
