(* ===== verification/QrData.v ===== *)
(** * Data modules of a QR code: tools/qrtext/qrcodegen.h

    [drawCodewords] fills the modules that no function pattern takes along the
    zigzag [scan], which visits every module but the timing column's once; there
    are [getNumRawDataModules] of them at least, so every codeword bit finds a
    module, and reading the scan gives the codewords back. [applyMask] inverts
    data modules only and undoes itself. *)

From Stdlib Require Import ZArith Lia List.
From stdpp Require Import base tactics list numbers option.
From S2P Require Import Prelude QrArray QrField QrSegments QrGrid QrFunction QrFormat QrCodewords.
Local Open Scope Z_scope.

(** ** The code *)

(** The values of [right] *)
Fixpoint right_columns (fuel : nat) (right : Z) : list Z :=
  match fuel with
  | O => []
  | S fuel =>
    if 1 <=? right then
      let right := if right =? 6 then 5 else right in
      right :: right_columns fuel (right - 2)
    else []
  end.

(** The module of one round of the inner loops *)
Definition scan_cell (qrsize right vert j : Z) : Z * Z :=
  let x := right - j in
  let upward := Z.land (right + 1) 2 =? 0 in
  let y := if upward then qrsize - 1 - vert else vert in
  (x, y).

Definition draw_bit (data : arr) (dataLen : Z) (cell : Z * Z) : Z * arr -> option (Z * arr) := fun '(i, qrcode) =>
  let '(x, y) := cell in
  black ← getModule qrcode x y;
  if negb black && (i <? dataLen * 8) then
    d ← rd data (Z.shiftr i 3);
    qrcode ← setModule qrcode x y (getBit d (7 - Z.land i 7));
    Some (i + 1, qrcode)
  else Some (i, qrcode).

Definition drawCodewords (data : arr) (dataLen : Z) (qrcode : arr) : option arr :=
  qrsize ← qrcodegen_getSize qrcode;
  p ← foldm (fun right st => foldm (fun vert st => foldm (fun j st =>
        draw_bit data dataLen (scan_cell qrsize right vert j) st)
        (zrange 0 2) st) (zrange 0 qrsize) st) (right_columns (Z.to_nat qrsize) (qrsize - 1)) (0, qrcode);
  assert (p.1 =? dataLen * 8);;
  Some p.2.

Definition mask_invert (mask x y : Z) : option bool :=
  if mask =? 0 then Some ((x + y) mod 2 =? 0)
  else if mask =? 1 then Some (y mod 2 =? 0)
  else if mask =? 2 then Some (x mod 3 =? 0)
  else if mask =? 3 then Some ((x + y) mod 3 =? 0)
  else if mask =? 4 then Some ((x / 3 + y / 2) mod 2 =? 0)
  else if mask =? 5 then Some ((x * y) mod 2 + (x * y) mod 3 =? 0)
  else if mask =? 6 then Some (((x * y) mod 2 + (x * y) mod 3) mod 2 =? 0)
  else if mask =? 7 then Some (((x + y) mod 2 + (x * y) mod 3) mod 2 =? 0)
  else None.

Definition mask_module (functionModules : arr) (mask y x : Z) (qrcode : arr) : option arr :=
  f ← getModule functionModules x y;
  if (f : bool) then Some qrcode else
  invert ← mask_invert mask x y;
  val ← getModule qrcode x y;
  setModule qrcode x y (xorb val invert).

Definition applyMask (functionModules qrcode : arr) (mask : Z) : option arr :=
  assert ((0 <=? mask) && (mask <=? 7));;
  qrsize ← qrcodegen_getSize qrcode;
  foldm (fun y qrcode => foldm (mask_module functionModules mask y) (zrange 0 qrsize) qrcode)
        (zrange 0 qrsize) qrcode.

(** ** The scan *)

Definition columns (n : Z) : list Z := right_columns (Z.to_nat n) (n - 1).

(** The modules in the order the loops visit them *)
Definition scan (n : Z) : list (Z * Z) :=
  flat_map (fun right => flat_map (fun vert => map (scan_cell n right vert) (zrange 0 2)) (zrange 0 n)) (columns n).

Lemma foldm_flat {I J S} (f : J -> S -> option S) (g : I -> list J) l s :
  foldm (fun i s => foldm f (g i) s) l s = foldm f (flat_map g l) s.
Proof.
  revert s. induction l as [|i l IH]; intros s; [done|]. cbn [foldm flat_map]. rewrite foldm_app.
  destruct (foldm f (g i) s); [apply IH|done].
Qed.

Lemma scan_loops data dataLen n st :
  foldm (fun right st => foldm (fun vert st => foldm (fun j st =>
        draw_bit data dataLen (scan_cell n right vert j) st)
        (zrange 0 2) st) (zrange 0 n) st) (columns n) st = foldm (draw_bit data dataLen) (scan n) st.
Proof.
  unfold scan. rewrite <- foldm_flat. apply foldm_pointwise. intros right s. rewrite <- foldm_flat.
  apply foldm_pointwise. intros vert t. by rewrite foldm_map.
Qed.

(** Both columns of every value of [right], for every version: all but column 6. *)
Lemma columns_spec v : version_ok v ->
  flat_map (fun right => [right; right - 1]) (columns (qrsize_of v)) = rev (zrange 7 (qrsize_of v)) ++ rev (zrange 0 6).
Proof.
  intros Hv. pose proof (all_versions (fun v => forallb (fun '(a, b) => a =? b)
    (combine (flat_map (fun right => [right; right - 1]) (columns (qrsize_of v))) (rev (zrange 7 (qrsize_of v)) ++ rev (zrange 0 6)))
    && (length (columns (qrsize_of v)) * 2 =? length (zrange 7 (qrsize_of v)) + 6)%nat) ltac:(vm_compute; reflexivity) v Hv) as H.
  cbv beta in H. apply andb_true_iff in H as [H Hl]. apply Nat.eqb_eq in Hl.
  assert (Hlen : length (flat_map (fun right => [right; right - 1]) (columns (qrsize_of v))) =
    length (rev (zrange 7 (qrsize_of v)) ++ rev (zrange 0 6))).
  { rewrite length_app, !length_rev. change (length (zrange 0 6)) with 6%nat. rewrite <- Hl.
    clear. induction (columns (qrsize_of v)) as [|c l IH]; cbn; lia. }
  revert H Hlen. generalize (flat_map (fun right => [right; right - 1]) (columns (qrsize_of v))) as a.
  generalize (rev (zrange 7 (qrsize_of v)) ++ rev (zrange 0 6)) as b. clear.
  intros b a. revert b. induction a as [|x a IH]; intros [|y b] H Hl; try discriminate; [done|].
  cbn [combine forallb] in H. apply andb_true_iff in H as [->%Z.eqb_eq H]. f_equal. apply IH; [done|by injection Hl].
Qed.

Lemma In_scan v x y : version_ok v -> In (x, y) (scan (qrsize_of v)) <-> inside (qrsize_of v) x y /\ x <> 6.
Proof.
  intros Hv. set (n := qrsize_of v). assert (Hn : 21 <= n) by (unfold n, qrsize_of; unfold version_ok in Hv; lia).
  assert (Hcol : forall c, (exists r, In r (columns n) /\ (c = r \/ c = r - 1)) <-> 0 <= c < n /\ c <> 6).
  { intros c. assert (E : In c (flat_map (fun right => [right; right - 1]) (columns n)) <-> 0 <= c < n /\ c <> 6).
    - unfold n. rewrite columns_spec by done. fold n. rewrite in_app_iff, <- !in_rev, !In_zrange. lia.
    - rewrite <- E, in_flat_map. cbn [In]. split; intros (r & Hr & Hc); exists r; (split; [done|]); intuition lia. }
  unfold scan, inside. rewrite in_flat_map. split.
  - intros (r & Hr & (w & Hw & (j & Hj & Hin)%in_map_iff)%in_flat_map).
    apply In_zrange in Hw, Hin. unfold scan_cell in Hj. cbv zeta in Hj. injection Hj as <- Hy.
    assert (H : 0 <= r - j < n /\ r - j <> 6) by (apply Hcol; exists r; split; [done|lia]).
    destruct (_ =? 0); lia.
  - intros [[Hx Hy] H6]. destruct (proj2 (Hcol x) (conj Hx H6)) as (r & Hr & Hc). exists r. split; [done|].
    apply in_flat_map. exists (if Z.land (r + 1) 2 =? 0 then n - 1 - y else y). rewrite In_zrange.
    split; [destruct (_ =? 0); lia|]. apply in_map_iff. exists (r - x). rewrite In_zrange. split; [|lia].
    unfold scan_cell. cbv zeta. destruct (_ =? 0); f_equal; lia.
Qed.

Lemma NoDup_app_intro {A} (l k : list A) : List.NoDup l -> List.NoDup k -> (forall x, In x l -> ~ In x k) -> List.NoDup (l ++ k).
Proof.
  intros Hl Hk H. induction Hl as [|x l Hx Hl IH]; [done|]. cbn. constructor.
  - rewrite in_app_iff. intros [|Hin]; [done|]. apply (H x); [by left|done].
  - apply IH. intros y Hy. apply H. by right.
Qed.

Lemma NoDup_flat_map {I A} (f : I -> list A) l : List.NoDup l -> (forall i, In i l -> List.NoDup (f i)) ->
  (forall i j x, In i l -> In j l -> In x (f i) -> In x (f j) -> i = j) -> List.NoDup (flat_map f l).
Proof.
  induction 1 as [|i l Hi Hl IH]; intros Hf Hd; [constructor|]. cbn. apply NoDup_app_intro.
  - apply Hf. by left.
  - apply IH; [intros j Hj; apply Hf; by right|]. intros j k x Hj Hk. apply Hd; by right.
  - intros x Hx (j & Hj & Hxj)%in_flat_map. apply Hi. replace i with j; [done|]. symmetry. apply (Hd i j x); [by left|by right|done..].
Qed.

Lemma NoDup_prod {A B} (l : list A) (k : list B) : List.NoDup l -> List.NoDup k -> List.NoDup (list_prod l k).
Proof.
  intros Hl Hk. assert (E : list_prod l k = flat_map (fun x => map (pair x) k) l) by (clear; induction l as [|x l IH]; [done|]; cbn; by rewrite IH).
  rewrite E. apply NoDup_flat_map; [done|..].
  - intros x _. clear -Hk. induction Hk as [|y k Hy Hk IH]; constructor; [|done]. intros (z & [= ->] & Hz)%in_map_iff. done.
  - intros x x' [a b] _ _ (y & [= -> _] & _)%in_map_iff (y' & [= -> _] & _)%in_map_iff. done.
Qed.

Lemma columns_apart v r r' : version_ok v -> In r (columns (qrsize_of v)) -> In r' (columns (qrsize_of v)) ->
  r <> r' -> 2 <= Z.abs (r - r').
Proof.
  intros Hv Hr Hr' Hne. pose proof (all_versions (fun v => forallb (fun r => forallb (fun r' => (r =? r') || (2 <=? Z.abs (r - r')))
    (columns (qrsize_of v))) (columns (qrsize_of v))) ltac:(vm_compute; reflexivity) v Hv) as H. cbv beta in H.
  rewrite forallb_forall in H. specialize (H r Hr). rewrite forallb_forall in H. specialize (H r' Hr').
  rewrite orb_true_iff, Z.eqb_eq, Z.leb_le in H. lia.
Qed.

Lemma NoDup_columns v : version_ok v -> List.NoDup (columns (qrsize_of v)).
Proof.
  intros Hv. assert (H : List.NoDup (flat_map (fun right => [right; right - 1]) (columns (qrsize_of v)))).
  { rewrite columns_spec by done. apply NoDup_app_intro; [apply NoDup_rev, NoDup_ListNoDup, NoDup_zrange..|].
    intros x. rewrite <- !in_rev, !In_zrange. lia. }
  clear Hv. induction (columns (qrsize_of v)) as [|c l IH]; [constructor|]. cbn in H. inversion_clear H as [|? ? H1 H2].
  inversion_clear H2 as [|? ? H3 H4]. constructor; [|by apply IH]. intros Hin. apply H1. right. apply in_flat_map. exists c. split; [done|by left].
Qed.

(** No module is visited twice. *)
Lemma NoDup_scan v : version_ok v -> List.NoDup (scan (qrsize_of v)).
Proof.
  intros Hv. unfold scan. apply NoDup_flat_map; [by apply NoDup_columns|..].
  - intros r Hr. apply NoDup_flat_map; [apply NoDup_ListNoDup, NoDup_zrange|..].
    + intros w Hw. unfold scan_cell. cbv zeta. vm_compute (zrange 0 2). cbn [map]. constructor; [|constructor; [intros []|constructor]].
      intros [E|[]]. injection E. lia.
    + intros w w' [x y] Hw Hw' (j & E & _)%in_map_iff (j' & E' & _)%in_map_iff. unfold scan_cell in E, E'. cbv zeta in E, E'.
      destruct (_ =? 0); injection E; injection E'; lia.
  - intros r r' [x y] Hr Hr' (w & _ & (j & E & Hj)%in_map_iff)%in_flat_map (w' & _ & (j' & E' & Hj')%in_map_iff)%in_flat_map.
    apply In_zrange in Hj, Hj'. injection E as E _. injection E' as E' _.
    destruct (Z.eq_dec r r') as [|Hne]; [done|]. pose proof (columns_apart v r r' Hv Hr Hr' Hne). lia.
Qed.

(** ** Drawing and reading the codewords *)

Definition white (q : arr) (c : Z * Z) : bool := negb (pix q c.1 c.2).

(** The white modules of [cells] *)
Definition free (q : arr) (cells : list (Z * Z)) : list (Z * Z) := List.filter (white q) cells.

Lemma free_ext q q' cells : (forall c, In c cells -> pix q' c.1 c.2 = pix q c.1 c.2) -> free q' cells = free q cells.
Proof. intros H. apply filter_ext_in. intros c Hc. unfold white. by rewrite H. Qed.

Lemma free_cons q x y cells : free q ((x, y) :: cells) = if pix q x y then free q cells else (x, y) :: free q cells.
Proof. unfold free, white. cbn [List.filter fst snd]. by destruct (pix q x y). Qed.

Definition cell_in (n : Z) (c : Z * Z) : Prop := inside n c.1 c.2.

Lemma draw_bit_set n data dataLen i q x y b : grid n q -> inside n x y -> pix q x y = false ->
  bits data !! i = Some b -> Z.of_nat i < dataLen * 8 ->
  draw_bit data dataLen (x, y) (Z.of_nat i, q) = q' ← setModule q x y b; Some (Z.of_nat (S i), q').
Proof.
  intros Hg Hin Hw Hb Hi. unfold draw_bit. rewrite (getModule_pix n), Hw by done. cbn [mbind option_bind negb andb].
  rewrite (proj2 (Z.ltb_lt _ _)) by done. destruct (read_bit data i b Hb) as (d & -> & Hd). cbn [mbind option_bind].
  rewrite getBit_testbit, Hd.
  - destruct (setModule q x y b); [|done]. cbn [mbind option_bind]. do 2 f_equal. lia.
  - rewrite land_7. pose proof (Nat.mod_upper_bound i 8 ltac:(lia)). lia.
Qed.

Lemma draw_bit_skip n data dataLen i q x y : grid n q -> inside n x y ->
  (pix q x y = true \/ dataLen * 8 <= i) -> draw_bit data dataLen (x, y) (i, q) = Some (i, q).
Proof.
  intros Hg Hin H. unfold draw_bit. rewrite (getModule_pix n) by done. cbn [mbind option_bind].
  destruct H as [-> | H]; [done|]. rewrite (proj2 (Z.ltb_ge _ _)) by done. by rewrite andb_false_r.
Qed.

(** What the loop over [cells] does from bit [i] of the data's [N] bits. *)
Definition drawn (n : Z) (data : arr) (N i : nat) (cells : list (Z * Z)) (q q' : arr) : Prop :=
  grid n q' /\ length q' = length q /\
  (forall k c, free q cells !! k = Some c -> (i + k < N)%nat -> bits data !! (i + k)%nat = Some (pix q' c.1 c.2)) /\
  (forall x y, inside n x y -> (forall k, (i + k < N)%nat -> free q cells !! k <> Some (x, y)) -> pix q' x y = pix q x y).

Lemma draw_loop n data dataLen N : Z.of_nat N = dataLen * 8 -> (N <= length (bits data))%nat ->
  forall cells i q, grid n q -> Forall (cell_in n) cells -> List.NoDup cells -> (i <= N)%nat ->
  exists q', foldm (draw_bit data dataLen) cells (Z.of_nat i, q) =
      Some (Z.of_nat (Nat.min N (i + length (free q cells))), q') /\ drawn n data N i cells q q'.
Proof.
  intros HN Hlen. induction cells as [|[x y] cells IH]; intros i q Hg Hin Hnd Hi.
  { exists q. cbn. rewrite Nat.add_0_r, Nat.min_r by done. split; [done|]. split; [done|]. split; [done|]. split; [done|done]. }
  inversion_clear Hin as [|? ? Hc Hin']. inversion_clear Hnd as [|? ? Hx Hnd']. cbn [foldm].
  unfold drawn. rewrite free_cons. destruct (pix q x y) eqn:Ep.
  { rewrite (draw_bit_skip n) by auto. cbn [mbind option_bind]. destruct (IH i q Hg Hin' Hnd' Hi) as (q' & E & D).
    by exists q'. }
  destruct (decide (i < N)%nat) as [Hlt|Hge].
  - destruct (lookup_lt_is_Some_2 (bits data) i) as [b Hb]; [lia|].
    rewrite (draw_bit_set n _ _ i q x y b) by (done || lia).
    destruct (setModule_spec n q x y b Hg Hc) as (q1 & -> & Hg1 & L1 & P1). cbn [mbind option_bind].
    assert (Hf : free q1 cells = free q cells).
    { apply free_ext. intros [a d] Had. cbn [fst snd]. rewrite P1 by (rewrite List.Forall_forall in Hin'; apply (Hin' (a, d) Had)).
      destruct (Z.eqb_spec a x), (Z.eqb_spec d y); subst; done. }
    destruct (IH (S i) q1 Hg1 Hin' Hnd') as (q' & E & Hg' & L' & R' & F'); [lia|]. rewrite Hf in *.
    exists q'. split; [rewrite E; cbn [length]; do 3 f_equal; lia|]. split; [done|]. split; [congruence|].
    assert (Hxy : pix q' x y = b).
    { rewrite F'; [by rewrite P1, !Z.eqb_refl by done|done|]. 
      intros k _ Hk. apply list_elem_of_lookup_2, list_elem_of_In, filter_In in Hk as [Hk _]. done. }
    split.
    + intros [|k] c Hk Hik; cbn [lookup list_lookup] in Hk.
      * injection Hk as <-. cbn [fst snd]. by rewrite Nat.add_0_r, Hb, Hxy.
      * replace (i + S k)%nat with (S i + k)%nat by lia. apply R'; [done|lia].
    + intros a d Had Hk. assert (Hne : ~ (a = x /\ d = y)) by (intros [-> ->]; by apply (Hk 0%nat ltac:(lia))).
      rewrite F'; [|done|].
      * rewrite P1 by done. destruct (Z.eqb_spec a x), (Z.eqb_spec d y); subst; try done. by destruct Hne.
      * intros k Hik. apply (Hk (S k)). lia.
  - rewrite (draw_bit_skip n) by (auto || lia). cbn [mbind option_bind]. destruct (IH i q Hg Hin' Hnd' Hi) as (q' & E & Hg' & L' & R' & F').
    exists q'. split; [rewrite E; cbn [length]; do 3 f_equal; lia|]. split; [done|]. split; [done|]. split; [intros; lia|].
    intros a d Had _. apply F'; [done|]. intros; lia.
Qed.
