(* ===== verification/QrDraw.v ===== *)
(** * Counting, drawing, masking and reading data modules: tools/qrtext/qrcodegen.h *)

From Stdlib Require Import ZArith Lia List Permutation Finite.
From stdpp Require Import base tactics list numbers option.
From S2P Require Import Prelude QrArray QrField QrSegments QrGrid QrFunction QrFormat QrCodewords QrData.
Local Open Scope Z_scope.

(** * How many data modules a QR code has: tools/qrtext/qrcodegen.h

    [getNumRawDataModules] is exactly the number of modules that
    [initializeFunctionModules] leaves white: the function modules are the
    disjoint union of rectangles and of the timing modules between the
    alignment patterns, which is counted per version. *)

Definition cells (l t w h : Z) : list (Z * Z) := flat_map (fun y => map (fun x => (x, y)) (zrange l (l + w))) (zrange t (t + h)).

Lemma In_cells l t w h x y : In (x, y) (cells l t w h) <-> l <= x < l + w /\ t <= y < t + h.
Proof.
  unfold cells. rewrite in_flat_map. split.
  - intros (b & Hb & (a & [= <- <-] & Ha)%in_map_iff). apply In_zrange in Ha, Hb. lia.
  - intros [Hx Hy]. exists y. rewrite In_zrange. split; [done|]. apply in_map_iff. exists x. by rewrite In_zrange.
Qed.

Lemma NoDup_cells l t w h : List.NoDup (cells l t w h).
Proof.
  apply NoDup_flat_map; [apply NoDup_ListNoDup, NoDup_zrange|..].
  - intros y _. apply Finite.Injective_map_NoDup; [by intros ? ? [= ->]|apply NoDup_ListNoDup, NoDup_zrange].
  - intros y y' [a b] _ _ (x & [= <- <-] & _)%in_map_iff (x' & [= _ <-] & _)%in_map_iff. done.
Qed.

Lemma cells_length l t w h : 0 <= w -> 0 <= h -> Z.of_nat (length (cells l t w h)) = w * h.
Proof.
  intros Hw Hh. unfold cells. replace h with (Z.of_nat (length (zrange t (t + h)))) at 2 by (rewrite zrange_length; lia).
  induction (zrange t (t + h)) as [|y k IH]; [cbn; lia|]. cbn [flat_map length].
  rewrite length_app, length_map, zrange_length, Nat2Z.inj_add, IH. lia.
Qed.

(** The timing modules that no other pattern takes *)
Definition timing_rows (v : Z) : list Z :=
  let centres := align_centres v in
  List.filter (fun i => negb (existsb (fun '(a, b) => (a =? 6) && (b - 2 <=? i) && (i <? b + 3)) centres)) (zrange 9 (qrsize_of v - 8)).
Definition timing_columns (v : Z) : list Z :=
  let centres := align_centres v in
  List.filter (fun i => negb (existsb (fun '(a, b) => (b =? 6) && (a - 2 <=? i) && (i <? a + 3)) centres)) (zrange 9 (qrsize_of v - 8)).

Definition alignment_cells (v : Z) : list (Z * Z) := flat_map (fun '(a, b) => cells (a - 2) (b - 2) 5 5) (align_centres v).

Definition function_cells (v : Z) : list (Z * Z) :=
  let n := qrsize_of v in
  cells 0 0 9 9 ++ cells (n - 8) 0 8 9 ++ cells 0 (n - 8) 9 8 ++
  map (fun i => (6, i)) (timing_rows v) ++ map (fun i => (i, 6)) (timing_columns v) ++ alignment_cells v ++
  (if 7 <=? v then cells (n - 11) 0 3 6 ++ cells 0 (n - 11) 6 3 else []).

(** ** Evaluated per version *)

Lemma align_centres_lines v a b : version_ok v -> In (a, b) (align_centres v) -> (a = 6 \/ 12 <= a) /\ (b = 6 \/ 12 <= b).
Proof.
  intros Hv Hin. pose proof (all_versions (fun v => forallb (fun '(a, b) => ((a =? 6) || (12 <=? a)) && ((b =? 6) || (12 <=? b)))
    (align_centres v)) ltac:(vm_compute; reflexivity) v Hv) as H. rewrite forallb_forall in H. specialize (H _ Hin). cbv beta iota in H.
  rewrite andb_true_iff, !orb_true_iff, !Z.eqb_eq, !Z.leb_le in H. done.
Qed.

Lemma align_centres_apart v p q : version_ok v -> In p (align_centres v) -> In q (align_centres v) ->
  p = q \/ 5 <= Z.abs (p.1 - q.1) \/ 5 <= Z.abs (p.2 - q.2).
Proof.
  intros Hv Hp Hq. destruct p as [a b], q as [c d]. cbn [fst snd].
  pose proof (all_versions (fun v => forallb (fun x => forallb (fun y => (x =? y) || (5 <=? Z.abs (x - y))) (align v)) (align v))
    ltac:(vm_compute; reflexivity) v Hv) as H. cbv beta in H. rewrite forallb_forall in H.
  assert (Hin : forall a b, In (a, b) (align_centres v) -> In a (align v) /\ In b (align v)).
  { intros e f (i & Hi & (j & Hj & He)%in_flat_map)%in_flat_map. destruct (finder_corner _ i j); [done|].
    destruct He as [[= <- <-]|[]]. apply In_zrange in Hi, Hj. unfold num_align in *. split; apply nth_In; lia. }
  destruct (Hin a b Hp) as [Ha Hb], (Hin c d Hq) as [Hc Hd]. pose proof (H a Ha) as H1. pose proof (H b Hb) as H2.
  rewrite forallb_forall in H1, H2. specialize (H1 c Hc). specialize (H2 d Hd).
  rewrite orb_true_iff, Z.eqb_eq, Z.leb_le in H1, H2. destruct H1 as [->|]; [|tauto]. destruct H2 as [->|]; tauto.
Qed.

Lemma NoDup_centres v : version_ok v -> List.NoDup (align_centres v).
Proof.
  intros Hv. unfold align_centres.
  assert (Hinj : forall i j, 0 <= i < num_align v -> 0 <= j < num_align v -> align_at v i = align_at v j -> i = j).
  { pose proof (all_versions (fun v => forallb (fun i => forallb (fun j => (i =? j) || negb (align_at v i =? align_at v j))
      (zrange 0 (num_align v))) (zrange 0 (num_align v))) ltac:(vm_compute; reflexivity) v Hv) as H. cbv beta in H.
    intros i j Hi Hj E. rewrite forallb_forall in H. specialize (H i ltac:(by apply In_zrange)). rewrite forallb_forall in H.
    specialize (H j ltac:(by apply In_zrange)). rewrite orb_true_iff, negb_true_iff, Z.eqb_eq, Z.eqb_neq in H. tauto. }
  apply NoDup_flat_map; [apply NoDup_ListNoDup, NoDup_zrange|..].
  - intros i Hi. apply NoDup_flat_map; [apply NoDup_ListNoDup, NoDup_zrange|..].
    + intros j Hj. destruct (finder_corner _ i j); repeat constructor. intros [].
    + intros j j' x Hj Hj' H1 H2. destruct (finder_corner _ i j); [done|]. destruct (finder_corner _ i j'); [done|].
      destruct H1 as [<-|[]], H2 as [E|[]]. injection E as E. apply In_zrange in Hj, Hj'. by apply Hinj.
  - intros i i' x Hi Hi' (j & Hj & H1)%in_flat_map (j' & Hj' & H2)%in_flat_map.
    destruct (finder_corner _ i j); [done|]. destruct (finder_corner _ i' j'); [done|].
    destruct H1 as [<-|[]], H2 as [E|[]]. injection E as E _. apply In_zrange in Hi, Hi'. by apply Hinj.
Qed.

Lemma count_spec v : version_ok v -> exists modules, getNumRawDataModules v = Some modules /\
  modules = qrsize_of v * qrsize_of v - (225 + Z.of_nat (length (timing_rows v)) + Z.of_nat (length (timing_columns v)) +
    25 * Z.of_nat (length (align_centres v)) + (if 7 <=? v then 36 else 0)).
Proof.
  intros Hv. pose proof (all_versions (fun v => match getNumRawDataModules v with
    | Some m => m =? qrsize_of v * qrsize_of v - (225 + Z.of_nat (length (timing_rows v)) + Z.of_nat (length (timing_columns v)) +
        25 * Z.of_nat (length (align_centres v)) + (if 7 <=? v then 36 else 0))
    | None => false end) ltac:(vm_compute; reflexivity) v Hv) as H. cbv beta in H.
  destruct (getNumRawDataModules v) as [m|]; [|done]. exists m. split; [done|]. by apply Z.eqb_eq.
Qed.

(** ** The cells *)

Lemma In_timing_rows v i : In i (timing_rows v) <-> 9 <= i < qrsize_of v - 8 /\ forall b, In (6, b) (align_centres v) -> ~ (b - 2 <= i < b + 3).
Proof.
  unfold timing_rows. cbv zeta. rewrite filter_In, In_zrange, negb_true_iff. apply and_iff_compat_l. rewrite <- not_true_iff_false, existsb_exists. split.
  - intros H b Hb Hi. apply H. exists (6, b). split; [done|]. rewrite Z.eqb_refl, andb_true_l, andb_true_iff, Z.leb_le, Z.ltb_lt. lia.
  - intros H ([a b] & Hb & Hi). rewrite !andb_true_iff, Z.eqb_eq, Z.leb_le, Z.ltb_lt in Hi. destruct Hi as [[-> ?] ?]. apply (H b Hb). lia.
Qed.

Lemma In_timing_columns v i : In i (timing_columns v) <-> 9 <= i < qrsize_of v - 8 /\ forall a, In (a, 6) (align_centres v) -> ~ (a - 2 <= i < a + 3).
Proof.
  unfold timing_columns. cbv zeta. rewrite filter_In, In_zrange, negb_true_iff. apply and_iff_compat_l. rewrite <- not_true_iff_false, existsb_exists. split.
  - intros H a Ha Hi. apply H. exists (a, 6). split; [done|]. rewrite Z.eqb_refl, andb_true_l, andb_true_iff, Z.leb_le, Z.ltb_lt. lia.
  - intros H ([a b] & Hb & Hi). rewrite !andb_true_iff, Z.eqb_eq, Z.leb_le, Z.ltb_lt in Hi. destruct Hi as [[-> ?] ?]. apply (H a Hb). lia.
Qed.

Lemma In_alignment_cells v x y : In (x, y) (alignment_cells v) <->
  exists a b, In (a, b) (align_centres v) /\ a - 2 <= x < a + 3 /\ b - 2 <= y < b + 3.
Proof.
  unfold alignment_cells. rewrite in_flat_map. split.
  - intros ([a b] & Hab & Hin). apply In_cells in Hin. exists a, b. split; [done|lia].
  - intros (a & b & Hab & H). exists (a, b). split; [done|]. apply In_cells. lia.
Qed.

Lemma In_column (i x y : Z) l : In (x, y) (map (fun j => (i, j)) l) <-> x = i /\ In y l.
Proof. rewrite in_map_iff. split; [intros (j & [= <- <-] & H); done|intros [-> H]; by exists y]. Qed.

Lemma In_row (i x y : Z) l : In (x, y) (map (fun j => (j, i)) l) <-> y = i /\ In x l.
Proof. rewrite in_map_iff. split; [intros (j & [= <- <-] & H); done|intros [-> H]; by exists x]. Qed.

Lemma is_function_spec v x y : is_function v x y = true <->
  x = 6 \/ y = 6 \/ (0 <= x < 9 /\ 0 <= y < 9) \/ (qrsize_of v - 8 <= x < qrsize_of v /\ 0 <= y < 9) \/
  (0 <= x < 9 /\ qrsize_of v - 8 <= y < qrsize_of v) \/
  (exists a b, In (a, b) (align_centres v) /\ a - 2 <= x < a + 3 /\ b - 2 <= y < b + 3) \/
  (7 <= v /\ ((qrsize_of v - 11 <= x < qrsize_of v - 8 /\ 0 <= y < 6) \/ (0 <= x < 6 /\ qrsize_of v - 11 <= y < qrsize_of v - 8))).
Proof.
  unfold is_function. set (n := qrsize_of v). rewrite !orb_true_iff, andb_true_iff, orb_true_iff, !in_rect_spec, existsb_exists, !Z.eqb_eq, Z.leb_le.
  assert (E : (exists p, In p (align_centres v) /\ (let '(a, b) := p in in_rect (a - 2) (b - 2) 5 5 x y) = true) <->
    exists a b, In (a, b) (align_centres v) /\ a - 2 <= x < a + 3 /\ b - 2 <= y < b + 3).
  { split.
    - intros ([a b] & Hab & Hr%in_rect_spec). exists a, b. split; [done|lia].
    - intros (a & b & Hab & H). exists (a, b). split; [done|]. apply in_rect_spec. lia. }
  rewrite E. intuition lia.
Qed.

Lemma In_function_cells v x y : version_ok v ->
  In (x, y) (function_cells v) <-> inside (qrsize_of v) x y /\ is_function v x y = true.
Proof.
  intros Hv. rewrite is_function_spec. unfold function_cells. set (n := qrsize_of v).
  assert (Hn : n = v * 4 + 17) by done. unfold version_ok in Hv.
  rewrite !in_app_iff, !In_cells, In_column, In_row, In_timing_rows, In_timing_columns, In_alignment_cells. fold n. unfold inside.
  assert (Hver : In (x, y) (if 7 <=? v then cells (n - 11) 0 3 6 ++ cells 0 (n - 11) 6 3 else []) <->
    7 <= v /\ ((n - 11 <= x < n - 8 /\ 0 <= y < 6) \/ (0 <= x < 6 /\ n - 11 <= y < n - 8))).
  { destruct (Z.leb_spec 7 v); [rewrite in_app_iff, !In_cells; lia|]. cbn. lia. }
  rewrite Hver. split.
  - intros [H|[H|[H|[[-> [H _]]|[[-> [H _]]|[(a & b & Hab & H)|H]]]]]]; try lia.
    pose proof (align_centres_room v a b Hv Hab) as R. fold n in R. split; [lia|]. do 5 right. left. by exists a, b.
  - intros [Hin [->|[->|[H|[H|[H|[(a & b & Hab & H)|H]]]]]]]; try lia.
    + destruct (Z.lt_ge_cases y 9); [lia|]. destruct (Z.lt_ge_cases y (n - 8)); [|lia].
      destruct (existsb (fun '(a, b) => (a =? 6) && (b - 2 <=? y) && (y <? b + 3)) (align_centres v)) eqn:E.
      * apply existsb_exists in E as ([a b] & Hab & Hi). rewrite !andb_true_iff, Z.eqb_eq, Z.leb_le, Z.ltb_lt in Hi.
        do 5 right. left. exists a, b. split; [done|lia].
      * do 3 right. left. split; [done|]. split; [lia|]. intros b Hb Hi. apply not_true_iff_false in E. apply E, existsb_exists. exists (6, b).
        split; [done|]. rewrite Z.eqb_refl, andb_true_l, andb_true_iff, Z.leb_le, Z.ltb_lt. lia.
    + destruct (Z.lt_ge_cases x 9); [lia|]. destruct (Z.lt_ge_cases x (n - 8)); [|lia].
      destruct (existsb (fun '(a, b) => (b =? 6) && (a - 2 <=? x) && (x <? a + 3)) (align_centres v)) eqn:E.
      * apply existsb_exists in E as ([a b] & Hab & Hi). rewrite !andb_true_iff, Z.eqb_eq, Z.leb_le, Z.ltb_lt in Hi.
        do 5 right. left. exists a, b. split; [done|lia].
      * do 4 right. left. split; [done|]. split; [lia|]. intros a Ha Hi. apply not_true_iff_false in E. apply E, existsb_exists. exists (a, 6).
        split; [done|]. rewrite Z.eqb_refl, andb_true_l, andb_true_iff, Z.leb_le, Z.ltb_lt. lia.
    + do 5 right. left. by exists a, b.
Qed.

(** The pieces do not overlap. *)
Lemma NoDup_function_cells v : version_ok v -> List.NoDup (function_cells v).
Proof.
  intros Hv. unfold function_cells. set (n := qrsize_of v). assert (Hn : n = v * 4 + 17) by done. pose proof Hv as Hv'. unfold version_ok in Hv'.
  assert (Hal : List.NoDup (alignment_cells v)).
  { apply NoDup_flat_map; [by apply NoDup_centres|intros [a b] _; apply NoDup_cells|].
    intros [a b] [c d] [x y] Hp Hq Hx%In_cells Hy%In_cells. destruct (align_centres_apart v _ _ Hv Hp Hq) as [?|[?|?]]; cbn [fst snd] in *; [done|lia..]. }
  assert (Htr : List.NoDup (timing_rows v)) by (apply List.NoDup_filter, NoDup_ListNoDup, NoDup_zrange).
  assert (Htc : List.NoDup (timing_columns v)) by (apply List.NoDup_filter, NoDup_ListNoDup, NoDup_zrange).
  assert (Hversion : List.NoDup (if 7 <=? v then cells (n - 11) 0 3 6 ++ cells 0 (n - 11) 6 3 else [])).
  { destruct (Z.leb_spec 7 v); [|constructor]. apply NoDup_app_intro; [apply NoDup_cells..|].
    intros [x y]. rewrite !In_cells. lia. }
  assert (Hva : forall x y, In (x, y) (if 7 <=? v then cells (n - 11) 0 3 6 ++ cells 0 (n - 11) 6 3 else []) ->
    7 <= v /\ ((n - 11 <= x < n - 8 /\ 0 <= y < 6) \/ (0 <= x < 6 /\ n - 11 <= y < n - 8))).
  { intros x y. destruct (Z.leb_spec 7 v); [rewrite in_app_iff, !In_cells; lia|done]. }
  assert (Hroom : forall x y, In (x, y) (alignment_cells v) ->
    ~ (x < 9 /\ y < 9) /\ ~ (n - 11 <= x /\ y < 9) /\ ~ (x < 9 /\ n - 11 <= y)).
  { intros x y (a & b & Hab & Hx)%In_alignment_cells. pose proof (align_centres_room v a b Hv Hab) as R.
    pose proof (align_centres_lines v a b Hv Hab). fold n in R. lia. }
  assert (Hcol : forall i l, List.NoDup l -> List.NoDup (map (fun j : Z => (i : Z, j)) l)).
  { intros i l Hl. apply Finite.Injective_map_NoDup; [by intros ? ? [= ->]|done]. }
  assert (Hrow : forall i l, List.NoDup l -> List.NoDup (map (fun j : Z => (j, i : Z)) l)).
  { intros i l Hl. apply Finite.Injective_map_NoDup; [by intros ? ? [= ->]|done]. }
  apply NoDup_app_intro; [apply NoDup_cells|apply NoDup_app_intro; [apply NoDup_cells|apply NoDup_app_intro; [apply NoDup_cells|
    apply NoDup_app_intro; [by apply Hcol|apply NoDup_app_intro; [by apply Hrow|apply NoDup_app_intro; [done|done|]|]|]|]|]|];
    intros [x y]; rewrite ?in_app_iff, ?In_cells, ?In_column, ?In_row, ?In_timing_rows, ?In_timing_columns; fold n.
  - intros H1 H2. apply Hva in H2. apply Hroom in H1. lia.
  - intros [-> [Hy Hb]] [H|H]; [|apply Hva in H; lia].
    apply In_alignment_cells in H as (a & b & Hab & Hx). pose proof (align_centres_lines v a b Hv Hab).
    assert (b = 6) as -> by lia. apply (Hb a Hab). lia.
  - intros [-> [Hy Hb]] [[-> [H _]]|[H|H]]; [lia| |apply Hva in H; lia].
    apply In_alignment_cells in H as (a & b & Hab & Hx). pose proof (align_centres_lines v a b Hv Hab).
    assert (a = 6) as -> by lia. apply (Hb b Hab). lia.
  - intros Hx [[-> [H _]]|[[-> [H _]]|[H|H]]]; try lia; [apply Hroom in H; lia|apply Hva in H; lia].
  - intros Hx [H|[[-> [H _]]|[[-> [H _]]|[H|H]]]]; try lia; [apply Hroom in H; lia|apply Hva in H; lia].
  - intros Hx [H|[H|[[-> [H _]]|[[-> [H _]]|[H|H]]]]]; try lia; [apply Hroom in H; lia|apply Hva in H; lia].
Qed.

Lemma function_cells_length v : version_ok v ->
  getNumRawDataModules v = Some (qrsize_of v * qrsize_of v - Z.of_nat (length (function_cells v))).
Proof.
  intros Hv. destruct (count_spec v Hv) as (m & -> & ->). do 2 f_equal. unfold function_cells. unfold version_ok in Hv.
  rewrite !length_app, !Nat2Z.inj_add, !cells_length, !length_map by (unfold qrsize_of; lia).
  assert (Ha : Z.of_nat (length (alignment_cells v)) = 25 * Z.of_nat (length (align_centres v))).
  { unfold alignment_cells. induction (align_centres v) as [|[a b] l IH]; [done|]. cbn [flat_map].
    rewrite length_app, Nat2Z.inj_add, IH, cells_length by lia. cbn [length]. lia. }
  rewrite Ha. destruct (7 <=? v); [rewrite length_app, Nat2Z.inj_add, !cells_length by lia|]; cbn [length]; lia.
Qed.

(** ** The count *)

(** The modules left for data, in scan order *)
Definition data_cells (v : Z) : list (Z * Z) :=
  List.filter (fun c => negb (is_function v c.1 c.2)) (scan (qrsize_of v)).

Lemma In_data_cells v x y : version_ok v -> In (x, y) (data_cells v) <-> inside (qrsize_of v) x y /\ is_function v x y = false.
Proof.
  intros Hv. unfold data_cells. rewrite filter_In, In_scan, negb_true_iff by done. cbn [fst snd]. split; [tauto|].
  intros [Hin Hf]. split; [|done]. split; [done|]. intros ->. assert (is_function v 6 y = true) by (apply is_function_spec; by left). congruence.
Qed.

Lemma NoDup_data_cells v : version_ok v -> List.NoDup (data_cells v).
Proof. intros Hv. by apply List.NoDup_filter, NoDup_scan. Qed.

Lemma NoDup_same_length {A} (l k : list A) : List.NoDup l -> List.NoDup k -> (forall x, In x l <-> In x k) -> length l = length k.
Proof. intros Hl Hk H. by apply Permutation_length, Permutation.NoDup_Permutation. Qed.

(** [getNumRawDataModules] counts the modules that are not function modules. *)
Theorem data_cells_count v : version_ok v -> getNumRawDataModules v = Some (Z.of_nat (length (data_cells v))).
Proof.
  intros Hv. rewrite function_cells_length by done. f_equal. set (n := qrsize_of v).
  assert (E : length (cells 0 0 n n) = length (data_cells v ++ function_cells v)).
  { apply NoDup_same_length; [apply NoDup_cells| |].
    - apply NoDup_app_intro; [by apply NoDup_data_cells|by apply NoDup_function_cells|].
      intros [x y] [_ Hf]%In_data_cells [_ Hf']%In_function_cells; [congruence|done..].
    - intros [x y]. rewrite In_cells, in_app_iff, In_data_cells, In_function_cells by done. unfold inside. fold n.
      destruct (is_function v x y); split; [intros; right; split; [lia|done]|intros [[_ H]|[H _]]; [done|lia]|intros; left; split; [lia|done]|intros [[H _]|[_ H]]; [lia|done]]. }
  apply (f_equal Z.of_nat) in E. rewrite length_app, Nat2Z.inj_add, cells_length in E by (unfold n, qrsize_of; unfold version_ok in Hv; lia).
  lia.
Qed.

(** * Drawing, masking and reading data modules: tools/qrtext/qrcodegen.h

    [drawCodewords] on the grid [initializeFunctionModules] makes puts the
    codewords' bits on the data modules in scan order, where [read_codewords]
    finds them; [applyMask] inverts the data modules its pattern selects. *)

(** ** Codewords *)

Lemma free_scan v q : version_ok v ->
  (forall x y, inside (qrsize_of v) x y -> pix q x y = is_function v x y) -> free q (scan (qrsize_of v)) = data_cells v.
Proof.
  intros Hv Hq. apply filter_ext_in. intros [x y] [Hin _]%In_scan; [|done]. unfold white. cbn [fst snd]. by rewrite Hq.
Qed.

Lemma scan_inside v : version_ok v -> Forall (cell_in (qrsize_of v)) (scan (qrsize_of v)).
Proof. intros Hv. apply List.Forall_forall. intros [x y] Hin. by apply In_scan in Hin as [Hin _]. Qed.

Lemma data_cells_ok v e l : version_ok v -> ecl_ok e -> layout_of v e = Some l ->
  8 * lay_raw l <= Z.of_nat (length (data_cells v)) <= 8 * lay_raw l + 7.
Proof.
  intros Hv He Hl. destruct (layout_spec v e Hv He) as (l' & El & Hok). rewrite Hl in El. injection El as <-.
  pose proof (lo_modules v l Hok) as Hm. pose proof (data_cells_count v Hv) as Hc.
  unfold layout_of in Hl. rewrite Hc in Hl. destruct (table_at NUM_ERROR_CORRECTION_BLOCKS e v); [|discriminate].
  destruct (table_at ECC_CODEWORDS_PER_BLOCK e v); [|discriminate]. destruct (getNumDataCodewords v e); [|discriminate].
  cbn [mbind option_bind] in Hl. injection Hl as <-. exact Hm.
Qed.

(** Every bit of the codewords is drawn. *)
Theorem drawCodewords_spec v e l data q : version_ok v -> ecl_ok e -> layout_of v e = Some l ->
  lay_raw l <= Z.of_nat (length data) -> grid (qrsize_of v) q ->
  (forall x y, inside (qrsize_of v) x y -> pix q x y = is_function v x y) ->
  exists q', drawCodewords data (lay_raw l) q = Some q' /\ grid (qrsize_of v) q' /\ length q' = length q /\
    forall k c, data_cells v !! k = Some c -> Z.of_nat k < 8 * lay_raw l -> bits data !! k = Some (pix q' c.1 c.2).
Proof.
  intros Hv He Hl Hd Hg Hq. pose proof (data_cells_ok v e l Hv He Hl) as Hn.
  destruct (layout_spec v e Hv He) as (l' & El & Hok). rewrite Hl in El. injection El as <-.
  assert (0 <= lay_raw l) by (destruct Hok; nia).
  destruct (draw_loop (qrsize_of v) data (lay_raw l) (Z.to_nat (8 * lay_raw l))) with (cells := scan (qrsize_of v)) (i := 0%nat) (q := q)
    as (q' & E & Hg' & L' & R' & _).
  { lia. } { rewrite bits_length. lia. } { done. } { by apply scan_inside. } { by apply NoDup_scan. } { lia. }
  rewrite free_scan in E, R' by done. exists q'. split; [|split; [done|split; [done|]]].
  - unfold drawCodewords. rewrite (getSize_grid _ _ Hg). cbn [mbind option_bind].
    change (right_columns _ _) with (columns (qrsize_of v)). rewrite scan_loops. change 0 with (Z.of_nat 0). rewrite E. cbn [mbind option_bind fst snd].
    unfold assert. rewrite (proj2 (Z.eqb_eq _ _)) by lia. done.
  - intros k c Hk Hlt. apply R'; [done|lia].
Qed.

(** *** Reading them *)

(** The number at bits [8 i] to [8 i + 7] *)
Definition byte_at (bs : list bool) (i : nat) : Z := of_bits (take 8 (drop (8 * i) bs)).

Definition read_codewords (v : Z) (n : Z) (image : Z -> Z -> bool) : arr :=
  let bs := map (fun c => image c.1 c.2) (data_cells v) in map (byte_at bs) (seq 0 (Z.to_nat n)).

Lemma byte_at_bits a i x rest : bytes_ok a -> a !! i = Some x -> byte_at (bits a ++ rest) i = x.
Proof.
  intros Ha Hi. unfold byte_at. rewrite <- (take_drop_middle a i x Hi), bits_app.
  change (x :: drop (S i) a) with ([x] ++ drop (S i) a). rewrite bits_app, <- app_assoc.
  rewrite drop_app_length' by (rewrite bits_length, length_take; apply lookup_lt_Some in Hi; lia).
  change (bits [x]) with (bits_of 8 x ++ []). rewrite app_nil_r, <- app_assoc, take_app_length' by (by rewrite bits_of_length).
  apply of_bits_of. by apply (Forall_lookup_1 _ _ _ _ Ha Hi).
Qed.

Lemma read_codewords_spec v n data image : bytes_ok data -> 0 <= n <= Z.of_nat (length data) ->
  8 * n <= Z.of_nat (length (data_cells v)) ->
  (forall k c, data_cells v !! k = Some c -> Z.of_nat k < 8 * n -> bits data !! k = Some (image c.1 c.2)) ->
  read_codewords v n image = take (Z.to_nat n) data.
Proof.
  intros Hd Hn Hc Hk. unfold read_codewords. set (bs := map _ (data_cells v)).
  assert (Hb : take (8 * Z.to_nat n) bs = bits (take (Z.to_nat n) data)).
  { apply list_eq. intros k. destruct (decide (k < 8 * Z.to_nat n)%nat) as [Hlt|Hge].
    - rewrite lookup_take_lt by done. unfold bs. rewrite list_lookup_fmap.
      destruct (lookup_lt_is_Some_2 (data_cells v) k) as [c E]; [lia|]. rewrite E. cbn [fmap option_fmap option_map].
      rewrite <- (Hk k c E) by lia. rewrite <- (take_drop (Z.to_nat n) data) at 1. rewrite bits_app, lookup_app_l; [done|].
      rewrite bits_length, length_take. lia.
    - rewrite !lookup_ge_None_2; [done|rewrite bits_length, length_take; lia|rewrite length_take; lia]. }
  apply list_eq. intros i. rewrite list_lookup_fmap. destruct (decide (i < Z.to_nat n)%nat) as [Hlt|Hge].
  - rewrite lookup_seq_lt, lookup_take_lt by done. cbn [fmap option_fmap option_map].
    destruct (lookup_lt_is_Some_2 data i) as [x Hx]; [lia|]. rewrite Hx. f_equal. cbn [Nat.add].
    rewrite <- (take_drop (8 * Z.to_nat n) bs), Hb. apply byte_at_bits; [by apply Forall_take|]. by rewrite lookup_take_lt.
  - rewrite lookup_seq_ge, lookup_take_ge by lia. done.
Qed.

(** ** Masks *)

Definition mask_bit (mask x y : Z) : bool := default false (mask_invert mask x y).

Lemma mask_invert_some mask x y : mask_ok mask -> mask_invert mask x y = Some (mask_bit mask x y).
Proof.
  unfold mask_ok. intros Hm. unfold mask_bit.
  assert (mask = 0 \/ mask = 1 \/ mask = 2 \/ mask = 3 \/ mask = 4 \/ mask = 5 \/ mask = 6 \/ mask = 7) as H by lia.
  by repeat (destruct H as [->|H]; [done|]); subst.
Qed.

Section Mask.
Context (n : Z) (fm : arr) (mask : Z) (Hfm : grid n fm) (Hmask : mask_ok mask).

(** The module after masking *)
Definition masked (q : arr) (x y : Z) : bool := if pix fm x y then pix q x y else xorb (pix q x y) (mask_bit mask x y).

Lemma mask_module_spec q x y : grid n q -> inside n x y ->
  exists q', mask_module fm mask y x q = Some q' /\ grid n q' /\ length q' = length q /\
    forall x' y', inside n x' y' -> pix q' x' y' = if (x' =? x) && (y' =? y) then masked q x y else pix q x' y'.
Proof.
  intros Hg Hin. unfold mask_module, masked. rewrite (getModule_pix n fm) by done. cbn [mbind option_bind].
  destruct (pix fm x y) eqn:Ef.
  - exists q. split; [done|]. split; [done|]. split; [done|]. intros x' y' _.
    destruct (Z.eqb_spec x' x), (Z.eqb_spec y' y); subst; done.
  - rewrite mask_invert_some by done. cbn [mbind option_bind]. rewrite (getModule_pix n q) by done. cbn [mbind option_bind].
    by apply setModule_spec.
Qed.

Lemma mask_loop cells : forall q, grid n q -> List.NoDup cells -> Forall (fun c => inside n c.2 c.1) cells ->
  exists q', foldm (fun '(y, x) q => mask_module fm mask y x q) cells q = Some q' /\ grid n q' /\ length q' = length q /\
    (forall x y, inside n x y -> In (y, x) cells -> pix q' x y = masked q x y) /\
    (forall x y, inside n x y -> ~ In (y, x) cells -> pix q' x y = pix q x y).
Proof.
  induction cells as [|[y x] cells IH]; intros q Hg Hnd Hin; [exists q; split_and!; done|].
  inversion_clear Hnd as [|? ? Hx Hnd']. inversion_clear Hin as [|? ? Hc Hin']. cbn [fst snd] in Hc. cbn [foldm].
  destruct (mask_module_spec q x y Hg Hc) as (q1 & -> & Hg1 & L1 & P1). cbn [mbind option_bind].
  destruct (IH q1 Hg1 Hnd' Hin') as (q' & E & Hg' & L' & M' & F'). exists q'. split; [done|]. split; [done|]. split; [congruence|]. split.
  - intros a b Hab [[= -> ->]|Hi].
    + rewrite F', P1, !Z.eqb_refl by done. done.
    + rewrite M' by done. unfold masked. rewrite P1 by done. destruct (Z.eqb_spec a x), (Z.eqb_spec b y); subst; done.
  - intros a b Hab Hi. rewrite F', P1 by (done || (intros ?; apply Hi; by right)).
    destruct (Z.eqb_spec a x), (Z.eqb_spec b y); subst; try done. exfalso. apply Hi. by left.
Qed.

Theorem applyMask_spec q : grid n q ->
  exists q', applyMask fm q mask = Some q' /\ grid n q' /\ length q' = length q /\
    forall x y, inside n x y -> pix q' x y = masked q x y.
Proof.
  intros Hg. unfold applyMask, assert. unfold mask_ok in Hmask. rewrite !(proj2 (Z.leb_le _ _)) by lia. cbn [andb mbind option_bind].
  rewrite (getSize_grid _ _ Hg). cbn [mbind option_bind]. rewrite foldm_nested.
  destruct (mask_loop (list_prod (zrange 0 n) (zrange 0 n)) q Hg) as (q' & E & Hg' & L' & M' & _).
  - apply NoDup_prod; apply NoDup_ListNoDup, NoDup_zrange.
  - apply List.Forall_forall. intros [y x] [Hy%In_zrange Hx%In_zrange]%in_prod_iff. by split.
  - exists q'. split; [done|]. split; [done|]. split; [done|]. intros x y Hin. apply M'; [done|].
    destruct Hin. apply in_prod; by apply In_zrange.
Qed.
End Mask.
