(* ===== verification/QrEncode.v ===== *)
(** * The penalty score, and encoding segments as a QR code: tools/qrtext/qrcodegen.h *)

From Stdlib Require Import ZArith Lia List.
From stdpp Require Import base tactics list numbers option.
From S2P Require Import Prelude QrArray QrSegments QrGrid QrField QrFunction QrFormat QrCodewords QrData.
Local Open Scope Z_scope.

(** * The penalty score of a QR code: tools/qrtext/qrcodegen.h

    [getPenaltyScore] with its finder-pattern history.  It ends on every grid,
    its history stays in the bounds the code asserts, its result is bounded and
    depends on the modules only. *)

(** ** The code *)

Definition PENALTY_N1 : Z := 3.
Definition PENALTY_N2 : Z := 3.
Definition PENALTY_N3 : Z := 40.
Definition PENALTY_N4 : Z := 10.

Definition finderPenaltyAddHistory (currentRunLength : Z) (runHistory : arr) : option arr :=
  if 7 <=? Z.of_nat (length runHistory) then Some (currentRunLength :: take 6 runHistory ++ drop 7 runHistory) else None.

Definition finderPenaltyCountPatterns (runHistory : arr) (qrsize : Z) : option Z :=
  n ← rd runHistory 1;
  assert (n <=? qrsize * 3);;
  h0 ← rd runHistory 0; h2 ← rd runHistory 2; h3 ← rd runHistory 3;
  h4 ← rd runHistory 4; h5 ← rd runHistory 5; h6 ← rd runHistory 6;
  let core := (0 <? n) && (h2 =? n) && (h3 =? n * 3) && (h4 =? n) && (h5 =? n) in
  Some ((if core && (n * 4 <=? h0) && (n <=? h6) then 1 else 0) +
        (if core && (n * 4 <=? h6) && (n <=? h0) then 1 else 0)).

Definition finderPenaltyTerminateAndCount (currentRunColor : bool) (currentRunLength : Z) (runHistory : arr) (qrsize : Z) :
    option Z :=
  p ← (if currentRunColor then
         runHistory ← finderPenaltyAddHistory currentRunLength runHistory; Some (runHistory, 0)
       else Some (runHistory, currentRunLength));
  let '(runHistory, currentRunLength) := p in
  let currentRunLength := currentRunLength + qrsize in
  runHistory ← finderPenaltyAddHistory currentRunLength runHistory;
  finderPenaltyCountPatterns runHistory qrsize.

(** The variables of the loop over a row or column *)
Record line := {
  ln_result : Z;
  ln_color : bool;
  ln_run : Z;
  ln_history : arr;
  ln_pad : Z
}.

Definition line_step (get : Z -> option bool) (qrsize x : Z) (s : line) : option line :=
  c ← get x;
  if Bool.eqb c (ln_color s) then
    let run := ln_run s + 1 in
    let result := if run =? 5 then ln_result s + PENALTY_N1
                  else if 5 <? run then ln_result s + 1 else ln_result s in
    Some {| ln_result := result; ln_color := ln_color s; ln_run := run; ln_history := ln_history s; ln_pad := ln_pad s |}
  else
    history ← finderPenaltyAddHistory (ln_run s + ln_pad s) (ln_history s);
    result ← (if negb (ln_color s) then
                n ← finderPenaltyCountPatterns history qrsize; Some (ln_result s + n * PENALTY_N3)
              else Some (ln_result s));
    Some {| ln_result := result; ln_color := c; ln_run := 1; ln_history := history; ln_pad := 0 |}.

(** A row or column, read by [get] *)
Definition penalty_line (qrsize : Z) (get : Z -> option bool) (result : Z) : option Z :=
  s ← foldm (line_step get qrsize) (zrange 0 qrsize)
        {| ln_result := result; ln_color := false; ln_run := 0; ln_history := replicate 7 0; ln_pad := qrsize |};
  n ← finderPenaltyTerminateAndCount (ln_color s) (ln_run s + ln_pad s) (ln_history s) qrsize;
  Some (ln_result s + n * PENALTY_N3).

Definition penalty_rows (qrsize : Z) (get : Z -> Z -> option bool) (result : Z) : option Z :=
  foldm (fun y => penalty_line qrsize (fun x => get x y)) (zrange 0 qrsize) result.

Definition penalty_columns (qrsize : Z) (get : Z -> Z -> option bool) (result : Z) : option Z :=
  foldm (fun x => penalty_line qrsize (fun y => get x y)) (zrange 0 qrsize) result.

Definition penalty_block (get : Z -> Z -> option bool) (y x result : Z) : option Z :=
  color ← get x y; c1 ← get (x + 1) y; c2 ← get x (y + 1); c3 ← get (x + 1) (y + 1);
  Some (if Bool.eqb color c1 && Bool.eqb color c2 && Bool.eqb color c3 then result + PENALTY_N2 else result).

Definition penalty_blocks (qrsize : Z) (get : Z -> Z -> option bool) (result : Z) : option Z :=
  foldm (fun y => foldm (penalty_block get y) (zrange 0 (qrsize - 1))) (zrange 0 (qrsize - 1)) result.

Definition count_black (qrsize : Z) (get : Z -> Z -> option bool) : option Z :=
  foldm (fun y => foldm (fun x black => c ← get x y; Some (if (c : bool) then black + 1 else black))
    (zrange 0 qrsize)) (zrange 0 qrsize) 0.

Definition penalty_balance (black total : Z) : Z := (Z.abs (black * 20 - total * 10) + total - 1) / total - 1.

Definition penalty_with (qrsize : Z) (get : Z -> Z -> option bool) : option Z :=
  result ← penalty_rows qrsize get 0;
  result ← penalty_columns qrsize get result;
  result ← penalty_blocks qrsize get result;
  black ← count_black qrsize get;
  let total := qrsize * qrsize in
  let k := penalty_balance black total in
  Some (result + k * PENALTY_N4).

Definition getPenaltyScore (qrcode : arr) : option Z :=
  qrsize ← qrcodegen_getSize qrcode;
  penalty_with qrsize (getModule qrcode).

(** ** It depends on the modules only *)

Lemma penalty_line_ext qrsize g g' r : (forall x, g x = g' x) -> penalty_line qrsize g r = penalty_line qrsize g' r.
Proof.
  intros H. unfold penalty_line. erewrite foldm_pointwise; [done|]. intros i s. unfold line_step. by rewrite H.
Qed.

Lemma penalty_with_ext qrsize g g' : (forall x y, g x y = g' x y) -> penalty_with qrsize g = penalty_with qrsize g'.
Proof.
  intros H. unfold penalty_with.
  assert (E1 : forall r, penalty_rows qrsize g r = penalty_rows qrsize g' r).
  { intros r. apply foldm_pointwise. intros y s. by apply penalty_line_ext. }
  assert (E2 : forall r, penalty_columns qrsize g r = penalty_columns qrsize g' r).
  { intros r. apply foldm_pointwise. intros x s. by apply penalty_line_ext. }
  assert (E3 : forall r, penalty_blocks qrsize g r = penalty_blocks qrsize g' r).
  { intros r. apply foldm_pointwise. intros y s. apply foldm_pointwise. intros x t. unfold penalty_block. by rewrite !H. }
  assert (E4 : count_black qrsize g = count_black qrsize g').
  { apply foldm_pointwise. intros y s. apply foldm_pointwise. intros x t. by rewrite H. }
  rewrite E1. destruct (penalty_rows qrsize g' 0) as [r|]; [|done]. cbn [mbind option_bind]. rewrite E2.
  destruct (penalty_columns qrsize g' r) as [r1|]; [|done]. cbn [mbind option_bind]. rewrite E3.
  destruct (penalty_blocks qrsize g' r1); [|done]. cbn [mbind option_bind]. by rewrite E4.
Qed.

Lemma getModule_same n q q' x y : grid n q -> grid n q' ->
  (forall x y, inside n x y -> pix q x y = pix q' x y) -> getModule q x y = getModule q' x y.
Proof.
  intros Hg Hg' H. destruct (in_bounds n x y) eqn:E.
  - apply in_bounds_spec in E. by rewrite !(getModule_pix n), H by done.
  - unfold getModule. rewrite (proj1 Hg), (proj1 Hg'). cbn [mbind option_bind]. unfold assert. rewrite E, !andb_false_r. done.
Qed.

Lemma penalty_same n q q' : grid n q -> grid n q' ->
  (forall x y, inside n x y -> pix q x y = pix q' x y) -> getPenaltyScore q = getPenaltyScore q'.
Proof.
  intros Hg Hg' H. unfold getPenaltyScore. rewrite (getSize_grid _ _ Hg), (getSize_grid _ _ Hg'). cbn [mbind option_bind].
  apply penalty_with_ext. intros x y. by apply (getModule_same n).
Qed.

(** ** It ends, and is bounded *)

Definition history_ok (n : Z) (h : arr) : Prop := length h = 7%nat /\ Forall (fun r => 0 <= r <= n * 3) h.

Lemma add_history n r h : history_ok n h -> 0 <= r <= n * 3 ->
  exists h', finderPenaltyAddHistory r h = Some h' /\ history_ok n h'.
Proof.
  intros [Hl Hh] Hr. unfold finderPenaltyAddHistory. rewrite Hl. cbn [Z.of_nat Z.leb Z.compare Pos.of_succ_nat Pos.succ Pos.compare Pos.compare_cont].
  eexists. split; [done|]. split.
  - cbn [length]. rewrite length_app, length_take, length_drop, Hl. done.
  - constructor; [done|]. apply Forall_app. split; [by apply Forall_take|by apply Forall_drop].
Qed.

Lemma count_patterns n h : history_ok n h -> exists c, finderPenaltyCountPatterns h n = Some c /\ 0 <= c <= 2.
Proof.
  intros [Hl Hh]. destruct h as [|h0 [|h1 [|h2 [|h3 [|h4 [|h5 [|h6 [|]]]]]]]]; try discriminate Hl.
  assert (H1 : h1 <= n * 3) by (inversion_clear Hh as [|? ? _ H]; inversion_clear H; lia).
  unfold finderPenaltyCountPatterns. set (h := [h0; h1; h2; h3; h4; h5; h6]).
  change (rd h 0) with (Some h0). change (rd h 1) with (Some h1). change (rd h 2) with (Some h2). change (rd h 3) with (Some h3).
  change (rd h 4) with (Some h4). change (rd h 5) with (Some h5). change (rd h 6) with (Some h6). cbn [mbind option_bind].
  unfold assert. rewrite (proj2 (Z.leb_le h1 (n * 3))) by done. cbn [mbind option_bind].
  eexists. split; [done|]. repeat case_match; lia.
Qed.

Definition line_ok (n m r0 : Z) (s : line) : Prop :=
  history_ok n (ln_history s) /\ 0 <= ln_run s <= m /\ 0 <= ln_pad s <= n /\ r0 <= ln_result s <= r0 + 83 * m.

Lemma line_step_ok n get x m r0 s : 0 <= m < n -> (exists c, get x = Some c) -> line_ok n m r0 s ->
  exists s', line_step get n x s = Some s' /\ line_ok n (m + 1) r0 s'.
Proof.
  intros Hm (c & Hc) (Hh & Hr & Hp & Hb). unfold line_step. rewrite Hc. cbn [mbind option_bind].
  unfold PENALTY_N1, PENALTY_N3. destruct (Bool.eqb c (ln_color s)).
  - eexists. split; [done|]. split; [done|]. cbn. repeat split; try lia; repeat case_match; lia.
  - destruct (add_history n (ln_run s + ln_pad s) (ln_history s)) as (h & -> & Hh'); [done|lia|]. cbn [mbind option_bind].
    destruct (count_patterns n h Hh') as (k & Ek & Hk). destruct (ln_color s); cbn [negb].
    + eexists. split; [done|]. split; [done|]. cbn. lia.
    + rewrite Ek. cbn [mbind option_bind]. eexists. split; [done|]. split; [done|]. cbn. lia.
Qed.

Lemma penalty_line_ok n get r0 : 0 <= n -> (forall x, 0 <= x < n -> exists c, get x = Some c) ->
  exists r, penalty_line n get r0 = Some r /\ r0 <= r <= r0 + 83 * n + 80.
Proof.
  intros Hn Hget. unfold penalty_line. loop_invariant (fun m s => line_ok n (Z.of_nat m) r0 s).
  - intros m i s Hi Hs. pose proof (lookup_lt_Some _ _ _ Hi) as Hlt. rewrite zrange_length in Hlt.
    rewrite zrange_lookup in Hi by done. injection Hi as <-. rewrite Nat2Z.inj_succ, <- Z.add_1_r.
    apply line_step_ok; [lia|apply Hget; lia|done].
  - split; [split; [done|apply Forall_replicate; lia]|]. cbn. lia.
  - rewrite zrange_length, Z.sub_0_r, Z2Nat.id in Hinv by done. destruct Hinv as (Hh & Hr & Hp & Hb). cbn [mbind option_bind].
    unfold finderPenaltyTerminateAndCount.
    assert (Ht : exists h r, (if ln_color s then h ← finderPenaltyAddHistory (ln_run s + ln_pad s) (ln_history s); Some (h, 0)
        else Some (ln_history s, ln_run s + ln_pad s)) = Some (h, r) /\ history_ok n h /\ 0 <= r + n <= n * 3).
    { destruct (ln_color s).
      - destruct (add_history n (ln_run s + ln_pad s) (ln_history s)) as (h & -> & Hh'); [done|lia|]. exists h, 0. split; [done|]. split; [done|lia].
      - eexists _, _. split; [done|]. split; [done|lia]. }
    destruct Ht as (h & r & -> & Hh1 & Hr1). cbn [mbind option_bind].
    destruct (add_history n (r + n) h Hh1 Hr1) as (h2 & -> & Hh2). cbn [mbind option_bind].
    destruct (count_patterns n h2 Hh2) as (k & -> & Hk). cbn [mbind option_bind]. eexists. split; [done|]. unfold PENALTY_N3. lia.
Qed.

(** A loop that adds at most [d] to a number each round *)
Lemma adding_loop {I} (f : I -> Z -> option Z) d l : forall r0, 0 <= d ->
  (forall i r, i ∈ l -> exists r', f i r = Some r' /\ r <= r' <= r + d) ->
  exists r, foldm f l r0 = Some r /\ r0 <= r <= r0 + d * Z.of_nat (length l).
Proof.
  induction l as [|i l IH]; intros r0 Hd Hf; [exists r0; cbn; split; [done|lia]|].
  destruct (Hf i r0) as (r1 & E & H1); [apply list_elem_of_here|]. cbn [foldm]. rewrite E. cbn [mbind option_bind].
  destruct (IH r1 Hd) as (r2 & -> & H2); [intros j r Hj; apply Hf; by apply list_elem_of_further|]. exists r2. split; [done|]. cbn [length]. lia.
Qed.

(** A bound below every [long]'s maximum *)
Definition penalty_bound : Z := 2 ^ 31 - 1.

Lemma penalty_balance_range black total : 0 < total -> 0 <= black <= total -> 0 <= penalty_balance black total + 1 <= 11.
Proof.
  intros Ht Hb. unfold penalty_balance. split; [|].
  - assert (0 <= (Z.abs (black * 20 - total * 10) + total - 1) / total) by (apply Z.div_pos; lia). lia.
  - assert ((Z.abs (black * 20 - total * 10) + total - 1) / total < 12) by (apply Z.div_lt_upper_bound; lia). lia.
Qed.

Theorem getPenaltyScore_ok n q : grid n q -> exists p, getPenaltyScore q = Some p /\ -10 <= p < penalty_bound.
Proof.
  intros Hg. pose proof Hg as (_ & Hn & _). unfold getPenaltyScore. rewrite (getSize_grid _ _ Hg). cbn [mbind option_bind].
  assert (Hget : forall x y, 0 <= x < n -> 0 <= y < n -> exists c, getModule q x y = Some c).
  { intros x y Hx Hy. eexists. apply (getModule_pix n); [done|by split]. }
  unfold penalty_with.
  destruct (adding_loop (fun y => penalty_line n (fun x => getModule q x y)) (83 * n + 80) (zrange 0 n) 0) as (r1 & E1 & H1).
  { lia. } { intros y r Hy%elem_of_zrange. destruct (penalty_line_ok n (fun x => getModule q x y) r) as (r' & E & H); [lia|auto|]. exists r'. split; [done|lia]. }
  unfold penalty_rows. rewrite E1. cbn [mbind option_bind].
  destruct (adding_loop (fun x => penalty_line n (fun y => getModule q x y)) (83 * n + 80) (zrange 0 n) r1) as (r2 & E2 & H2).
  { lia. } { intros x r Hx%elem_of_zrange. destruct (penalty_line_ok n (fun y => getModule q x y) r) as (r' & E & H); [lia|auto|]. exists r'. split; [done|lia]. }
  unfold penalty_columns. rewrite E2. cbn [mbind option_bind].
  destruct (adding_loop (fun y => foldm (penalty_block (getModule q) y) (zrange 0 (n - 1))) (3 * n) (zrange 0 (n - 1)) r2) as (r3 & E3 & H3).
  { lia. }
  { intros y r Hy%elem_of_zrange. destruct (adding_loop (penalty_block (getModule q) y) 3 (zrange 0 (n - 1)) r) as (r' & E & H); [lia| |].
    - intros x s Hx%elem_of_zrange. unfold penalty_block.
      destruct (Hget x y) as [c0 ->]; [lia..|]. destruct (Hget (x + 1) y) as [c1 ->]; [lia..|].
      destruct (Hget x (y + 1)) as [c2 ->]; [lia..|]. destruct (Hget (x + 1) (y + 1)) as [c3 ->]; [lia..|]. cbn [mbind option_bind].
      eexists. split; [done|]. unfold PENALTY_N2. case_match; lia.
    - exists r'. split; [done|]. rewrite zrange_length in H. lia. }
  unfold penalty_blocks. rewrite E3. cbn [mbind option_bind].
  destruct (adding_loop (fun y => foldm (fun x black => c ← getModule q x y; Some (if (c : bool) then black + 1 else black)) (zrange 0 n)) n (zrange 0 n) 0) as (b & E4 & H4).
  { lia. }
  { intros y r Hy%elem_of_zrange. destruct (adding_loop (fun x black => c ← getModule q x y; Some (if (c : bool) then black + 1 else black)) 1 (zrange 0 n) r) as (r' & E & H); [lia| |].
    - intros x s Hx%elem_of_zrange. destruct (Hget x y) as [c ->]; [lia..|]. cbn [mbind option_bind]. eexists. split; [done|]. destruct c; lia.
    - exists r'. split; [done|]. rewrite zrange_length in H. lia. }
  unfold count_black. rewrite E4. cbn [mbind option_bind]. eexists. split; [done|].
  rewrite !zrange_length in *. pose proof (penalty_balance_range b (n * n)). unfold PENALTY_N4, penalty_bound. nia.
Qed.

(** * Encoding segments as a QR code: tools/qrtext/qrcodegen.h

    [qrcodegen_encodeSegmentsAdvanced] and the functions around it, composed as
    the code composes them: the search for a version, the bit stream, the
    codewords, the drawing and the choice of a mask.  A result is the returned
    value with the two arrays the function leaves.

    A segment's data is the contents of its buffer: the code reads it before it
    writes [tempBuffer], which it may alias, and [qrcode] may not alias it. *)

Definition qrcodegen_Mask_AUTO : Z := -1.
Definition LONG_MAX : Z := 2 ^ 63 - 1.

Definition qrcodegen_BUFFER_LEN_FOR_VERSION (n : Z) : Z := ((n * 4 + 17) * (n * 4 + 17) + 7) / 8 + 1.
Definition qrcodegen_BUFFER_LEN_MAX : Z := qrcodegen_BUFFER_LEN_FOR_VERSION qrcodegen_VERSION_MAX.

(** The search: [Some (Some (version, dataUsedBits))], or [Some None] when no version fits. *)
Fixpoint find_version (fuel : nat) (segs : list qrcodegen_Segment) (ecl maxVersion version : Z) : option (option (Z * Z)) :=
  match fuel with
  | O => None
  | S fuel =>
    codewords ← getNumDataCodewords version ecl;
    let dataCapacityBits := codewords * 8 in
    dataUsedBits ← getTotalBits segs version;
    if negb (dataUsedBits =? -1) && (dataUsedBits <=? dataCapacityBits) then Some (Some (version, dataUsedBits))
    else if maxVersion <=? version then Some None
    else find_version fuel segs ecl maxVersion (version + 1)
  end.

Definition boost_ecl (boostEcl : bool) (version dataUsedBits ecl : Z) : option Z :=
  foldm (fun i ecl =>
    if (boostEcl : bool) then
      codewords ← getNumDataCodewords version i;
      Some (if dataUsedBits <=? codewords * 8 then i else ecl)
    else Some ecl) (zrange qrcodegen_Ecc_MEDIUM (qrcodegen_Ecc_HIGH + 1)) ecl.

Definition append_segment (version : Z) (seg : qrcodegen_Segment) : arr * Z -> option (arr * Z) := fun '(qrcode, bitLen) =>
  p ← appendBitsToBuffer (seg_mode seg) 4 qrcode bitLen;
  ccbits ← numCharCountBits (seg_mode seg) version;
  p ← appendBitsToBuffer (seg_numChars seg) ccbits p.1 p.2;
  foldm (fun j '(qrcode, bitLen) =>
    d ← rd (seg_data seg) (Z.shiftr j 3);
    let bit := Z.land (Z.shiftr d (7 - Z.land j 7)) 1 in
    appendBitsToBuffer bit 1 qrcode bitLen) (zrange 0 (seg_bitLength seg)) p.

Fixpoint append_padding (fuel : nat) (dataCapacityBits padByte : Z) (qrcode : arr) (bitLen : Z) : option (arr * Z) :=
  match fuel with
  | O => None
  | S fuel =>
    if bitLen <? dataCapacityBits then
      p ← appendBitsToBuffer padByte 8 qrcode bitLen;
      append_padding fuel dataCapacityBits (Z.lxor padByte (Z.lxor 0xEC 0x11)) p.1 p.2
    else Some (qrcode, bitLen)
  end.

Section Code.
Context `{Uninit}.

(** One candidate mask.  The state is [qrcode], [mask] and [minPenalty]. *)
Definition try_mask (ecl : Z) (tempBuffer : arr) (i : Z) : arr * Z * Z -> option (arr * Z * Z) := fun '(qrcode, mask, minPenalty) =>
  qrcode ← applyMask tempBuffer qrcode i;
  qrcode ← drawFormatBits ecl i qrcode;
  penalty ← getPenaltyScore qrcode;
  let '(mask, minPenalty) := if penalty <? minPenalty then (i, penalty) else (mask, minPenalty) in
  qrcode ← applyMask tempBuffer qrcode i;
  Some (qrcode, mask, minPenalty).

(** The data bit string: segments, terminator and padding, in the cleared [qrcode] *)
Definition encode_data (segs : list qrcodegen_Segment) (version ecl dataUsedBits : Z) (qrcode : arr) : option arr :=
  qrcode ← clear qrcode (qrcodegen_BUFFER_LEN_FOR_VERSION version);
  p ← foldm (append_segment version) segs (qrcode, 0);
  assert (p.2 =? dataUsedBits);;
  codewords ← getNumDataCodewords version ecl;
  let dataCapacityBits := codewords * 8 in
  assert (p.2 <=? dataCapacityBits);;
  let terminatorBits := if 4 <? dataCapacityBits - p.2 then 4 else dataCapacityBits - p.2 in
  p ← appendBitsToBuffer 0 terminatorBits p.1 p.2;
  p ← appendBitsToBuffer 0 ((8 - p.2 mod 8) mod 8) p.1 p.2;
  assert (p.2 mod 8 =? 0);;
  p ← append_padding (S (Z.to_nat dataCapacityBits)) dataCapacityBits 0xEC p.1 p.2;
  Some p.1.

(** Function and data modules, before masking: [tempBuffer] gets the codewords, then the function modules. *)
Definition draw_modules (version ecl : Z) (tempBuffer qrcode : arr) : option (arr * arr) :=
  p ← addEccAndInterleave qrcode version ecl tempBuffer;
  let '(qrcode, tempBuffer) := p in
  qrcode ← initializeFunctionModules version qrcode;
  raw ← getNumRawDataModules version;
  qrcode ← drawCodewords tempBuffer (raw / 8) qrcode;
  qrcode ← drawWhiteFunctionModules qrcode version;
  tempBuffer ← initializeFunctionModules version tempBuffer;
  Some (tempBuffer, qrcode).

Definition choose_mask (ecl mask : Z) (tempBuffer qrcode : arr) : option (arr * Z) :=
  if mask =? qrcodegen_Mask_AUTO then
    s ← foldm (try_mask ecl tempBuffer) (zrange 0 8) (qrcode, mask, LONG_MAX);
    Some (s.1.1, s.1.2)
  else Some (qrcode, mask).

Definition qrcodegen_encodeSegmentsAdvanced (segs : list qrcodegen_Segment) (ecl minVersion maxVersion mask : Z)
    (boostEcl : bool) (tempBuffer qrcode : arr) : option (bool * arr * arr) :=
  assert ((qrcodegen_VERSION_MIN <=? minVersion) && (minVersion <=? maxVersion) && (maxVersion <=? qrcodegen_VERSION_MAX));;
  assert ((0 <=? ecl) && (ecl <=? 3) && (-1 <=? mask) && (mask <=? 7));;
  found ← find_version (S (Z.to_nat (maxVersion - minVersion))) segs ecl maxVersion minVersion;
  match found with
  | None => qrcode ← wr qrcode 0 0; Some (false, tempBuffer, qrcode)
  | Some (version, dataUsedBits) =>
    assert (negb (dataUsedBits =? -1));;
    ecl ← boost_ecl boostEcl version dataUsedBits ecl;
    qrcode ← encode_data segs version ecl dataUsedBits qrcode;
    p ← draw_modules version ecl tempBuffer qrcode;
    let '(tempBuffer, qrcode) := p in
    p ← choose_mask ecl mask tempBuffer qrcode;
    let '(qrcode, mask) := p in
    assert ((0 <=? mask) && (mask <=? 7));;
    qrcode ← applyMask tempBuffer qrcode mask;
    qrcode ← drawFormatBits ecl mask qrcode;
    Some (true, tempBuffer, qrcode)
  end.

Definition qrcodegen_encodeSegments (segs : list qrcodegen_Segment) (ecl : Z) (tempBuffer qrcode : arr) :
    option (bool * arr * arr) :=
  qrcodegen_encodeSegmentsAdvanced segs ecl qrcodegen_VERSION_MIN qrcodegen_VERSION_MAX qrcodegen_Mask_AUTO true
    tempBuffer qrcode.

(** [fail:] *)
Definition encode_fail (tempBuffer qrcode : arr) : option (bool * arr * arr) :=
  qrcode ← wr qrcode 0 0; Some (false, tempBuffer, qrcode).

Definition qrcodegen_encodeText (text : list Z) (tempBuffer qrcode : arr) (ecl minVersion maxVersion mask : Z)
    (boostEcl : bool) : option (bool * arr * arr) :=
  let textLen := Z.of_nat (length text) in
  if textLen =? 0 then
    qrcodegen_encodeSegmentsAdvanced [] ecl minVersion maxVersion mask boostEcl tempBuffer qrcode
  else
  let bufLen := qrcodegen_BUFFER_LEN_FOR_VERSION maxVersion in
  let encode seg :=
    qrcodegen_encodeSegmentsAdvanced [seg] ecl minVersion maxVersion mask boostEcl (seg_data seg) qrcode in
  if qrcodegen_isNumeric text then
    size ← qrcodegen_calcSegmentBufferSize qrcodegen_Mode_NUMERIC textLen;
    if bufLen <? size then encode_fail tempBuffer qrcode else
    seg ← qrcodegen_makeNumeric text tempBuffer; encode seg
  else if qrcodegen_isAlphanumeric text then
    size ← qrcodegen_calcSegmentBufferSize qrcodegen_Mode_ALPHANUMERIC textLen;
    if bufLen <? size then encode_fail tempBuffer qrcode else
    seg ← qrcodegen_makeAlphanumeric text tempBuffer; encode seg
  else
    if bufLen <? textLen then encode_fail tempBuffer qrcode else
    tempBuffer ← foldm (fun i tempBuffer => c ← rd text i; wr tempBuffer i (u8 c)) (zrange 0 textLen) tempBuffer;
    bitLength ← calcSegmentBitLength qrcodegen_Mode_BYTE textLen;
    if bitLength =? -1 then encode_fail tempBuffer qrcode else
    encode {| seg_mode := qrcodegen_Mode_BYTE; seg_numChars := textLen; seg_data := tempBuffer; seg_bitLength := bitLength |}.

Definition qrcodegen_encodeBinary (dataAndTemp : arr) (dataLen : Z) (qrcode : arr) (ecl minVersion maxVersion mask : Z)
    (boostEcl : bool) : option (bool * arr * arr) :=
  bitLength ← calcSegmentBitLength qrcodegen_Mode_BYTE dataLen;
  if bitLength =? -1 then qrcode ← wr qrcode 0 0; Some (false, dataAndTemp, qrcode) else
  qrcodegen_encodeSegmentsAdvanced
    [{| seg_mode := qrcodegen_Mode_BYTE; seg_numChars := dataLen; seg_data := dataAndTemp; seg_bitLength := bitLength |}]
    ecl minVersion maxVersion mask boostEcl dataAndTemp qrcode.
End Code.
