(* ===== verification/QrScan.v ===== *)
(** * Reading a QR code: the bit stream, the picture, the mask (tools/qrtext/qrcodegen.h) *)

From Stdlib Require Import ZArith Lia List.
From stdpp Require Import base tactics list numbers option.
From S2P Require Import Prelude QrArray QrSegments QrPayload QrGrid QrFunction QrFormat QrCodewords QrEncode.
From S2P Require Import QrField QrData QrDraw.
Local Open Scope Z_scope.

(** * The bit stream of a QR code: tools/qrtext/qrcodegen.h

    [stream] is the bits of a list of payloads: mode, count and content of each.
    [getTotalBits] is their number, [encode_data] writes them with a terminator
    and padding up to the capacity, and [parse_stream] reads them back. *)

(** ** The stream *)

(** Width of the count field *)
Definition count_bits (mode version : Z) : Z := default 0 (numCharCountBits mode version).

Definition segment_bits (v : Z) (p : payload) : list bool :=
  bits_of 4 (payload_mode p) ++ bits_of (Z.to_nat (count_bits (payload_mode p) v)) (payload_count p) ++ payload_bits p.

Definition stream (v : Z) (ps : list payload) : list bool := concat (map (segment_bits v) ps).

Definition stream_length (v : Z) (ps : list payload) : Z := Z.of_nat (length (stream v ps)).

(** The counts fit their fields. *)
Definition counts_fit (v : Z) (ps : list payload) : Prop :=
  Forall (fun p => payload_count p < 2 ^ count_bits (payload_mode p) v) ps.

Lemma numCharCountBits_spec v p : version_ok v ->
  numCharCountBits (payload_mode p) v = Some (count_bits (payload_mode p) v) /\ 0 <= count_bits (payload_mode p) v <= 16.
Proof.
  intros Hv. unfold count_bits.
  assert (H : forallb (fun m => match numCharCountBits m v with Some c => (0 <=? c) && (c <=? 16) | None => false end) [1; 2; 4; 7] = true).
  { apply (all_versions (fun v => forallb (fun m => match numCharCountBits m v with Some c => (0 <=? c) && (c <=? 16) | None => false end) [1; 2; 4; 7]));
      [vm_compute; reflexivity|done]. }
  rewrite forallb_forall in H. specialize (H (payload_mode p)).
  destruct (numCharCountBits (payload_mode p) v) as [c|]; cbn [default].
  - split; [done|]. rewrite andb_true_iff, !Z.leb_le in H. apply H. destruct p; cbn; tauto.
  - discriminate H. destruct p; cbn; tauto.
Qed.

Lemma segment_bits_length v p : version_ok v ->
  Z.of_nat (length (segment_bits v p)) = 4 + count_bits (payload_mode p) v + Z.of_nat (length (payload_bits p)).
Proof.
  intros Hv. destruct (numCharCountBits_spec v p Hv). unfold segment_bits. rewrite !length_app, !bits_of_length. lia.
Qed.

Lemma stream_length_cons v p ps : version_ok v ->
  stream_length v (p :: ps) = 4 + count_bits (payload_mode p) v + Z.of_nat (length (payload_bits p)) + stream_length v ps.
Proof.
  intros Hv. unfold stream_length, stream. cbn [map concat]. rewrite length_app, Nat2Z.inj_add, segment_bits_length by done. done.
Qed.

Lemma stream_length_nonneg v ps : 0 <= stream_length v ps.
Proof. unfold stream_length. lia. Qed.

(** [getTotalBits] is the stream's length, or -1 when a count or the sum does not fit. *)
Lemma getTotalBits_from_spec v ps segs : version_ok v -> Forall2 is_segment ps segs -> forall r, 0 <= r <= INT16_MAX ->
  (counts_fit v ps -> r + stream_length v ps <= INT16_MAX -> getTotalBits_from segs v r = Some (r + stream_length v ps)) /\
  (~ (counts_fit v ps /\ r + stream_length v ps <= INT16_MAX) -> getTotalBits_from segs v r = Some (-1)).
Proof.
  intros Hv. induction 1 as [|p seg ps segs Hs Hrest IH]; intros r Hr.
  - cbn [getTotalBits_from]. pass_assert. change (stream_length v []) with 0. rewrite Z.add_0_r. split; [done|].
    intros H. destruct H. split; [constructor|lia].
  - destruct Hs as (Hm & Hc & Hb & _ & Hcr & Hbr). destruct (numCharCountBits_spec v p Hv) as [Hcc Hccr].
    rewrite stream_length_cons by done. pose proof (stream_length_nonneg v ps). cbn [getTotalBits_from].
    rewrite Hm, Hc, Hb, Hcc. do 2 pass_assert. cbn [mbind option_bind]. pass_assert.
    rewrite Z.shiftl_mul_pow2, Z.mul_1_l by lia. unfold counts_fit. rewrite Forall_cons_iff.
    destruct (Z.leb_spec (2 ^ count_bits (payload_mode p) v) (payload_count p)); [split; [lia|done]|].
    set (r' := r + (4 + count_bits (payload_mode p) v + Z.of_nat (length (payload_bits p)))).
    destruct (Z.ltb_spec INT16_MAX r').
    + split; [unfold r' in *; lia|done].
    + destruct (IH r') as [IH1 IH2]; [unfold r'; lia|]. split.
      * intros [_ Hf] Hle. rewrite IH1 by (done || (unfold r'; lia)). f_equal. unfold r'. lia.
      * intros Hn. apply IH2. intros [Hf Hle]. apply Hn. split; [done|unfold r' in Hle; lia].
Qed.

Lemma getTotalBits_spec v ps segs : version_ok v -> Forall2 is_segment ps segs ->
  (counts_fit v ps -> stream_length v ps <= INT16_MAX -> getTotalBits segs v = Some (stream_length v ps)) /\
  (~ (counts_fit v ps /\ stream_length v ps <= INT16_MAX) -> getTotalBits segs v = Some (-1)).
Proof. intros Hv Hs. apply (getTotalBits_from_spec v ps segs Hv Hs 0). unfold INT16_MAX. lia. Qed.

(** ** Writing it *)

Lemma bits_of_1 b : bits_of 1 (b2z b) = [b].
Proof. by destruct b. Qed.

Lemma copy_bits cap q bs data content rest m :
  holds cap q bs -> bits data = content ++ rest -> m = Z.of_nat (length content) -> (length bs + length content <= cap)%nat ->
  exists q', foldm (fun j '(qrcode, bitLen) =>
      d ← rd data (Z.shiftr j 3);
      appendBitsToBuffer (Z.land (Z.shiftr d (7 - Z.land j 7)) 1) 1 qrcode bitLen) (zrange 0 m) (q, Z.of_nat (length bs)) =
      Some (q', Z.of_nat (length (bs ++ content))) /\
    holds cap q' (bs ++ content) /\ length q' = length q.
Proof.
  intros Hh Hd -> Hc.
  loop_invariant (fun n '(q', k) => k = Z.of_nat (length (bs ++ take n content)) /\ holds cap q' (bs ++ take n content) /\ length q' = length q).
  - intros n i [q1 k] Hi (-> & H1 & L1). pose proof (lookup_lt_Some _ _ _ Hi) as Hlt. rewrite zrange_length in Hlt.
    rewrite zrange_lookup in Hi by done. injection Hi as <-. rewrite Z.add_0_l.
    destruct (lookup_lt_is_Some_2 content n) as [b Hb]; [lia|].
    destruct (read_bit data n b) as (d & -> & Hbit); [rewrite Hd; by apply lookup_app_l_Some|]. cbn [mbind option_bind].
    rewrite land_1_testbit, Hbit by (rewrite land_7; pose proof (Nat.mod_upper_bound n 8 ltac:(lia)); lia).
    destruct (append_last cap q1 (bs ++ take n content) _ (b2z b) 1 H1 eq_refl) as (q2 & -> & H2 & L2);
      [lia|destruct b; cbn; lia|rewrite length_app, length_take; lia|].
    change (Z.to_nat 1) with 1%nat in *. rewrite bits_of_1, <- app_assoc, <- (take_S_r _ _ _ Hb) in *.
    eexists (_, _). split; [done|]. split; [done|]. split; [done|congruence].
  - rewrite take_0, app_nil_r. done.
  - destruct s as [q' k], Hinv as (-> & H1 & L1). rewrite zrange_length, Z.sub_0_r, Nat2Z.id, firstn_all in *. exists q'. done.
Qed.

Lemma payload_mode_range p : 0 <= payload_mode p < 2 ^ 4.
Proof. destruct p; vm_compute; split; congruence. Qed.

Lemma append_segment_spec v cap q bs p seg : version_ok v -> is_segment p seg ->
  payload_count p < 2 ^ count_bits (payload_mode p) v ->
  holds cap q bs -> (length bs + length (segment_bits v p) <= cap)%nat ->
  exists q', append_segment v seg (q, Z.of_nat (length bs)) = Some (q', Z.of_nat (length (bs ++ segment_bits v p))) /\
    holds cap q' (bs ++ segment_bits v p) /\ length q' = length q.
Proof.
  intros Hv (Hm & Hcnt & Hbl & (rest & Hb) & Hcr & _) Hfit Hh Hc. destruct (numCharCountBits_spec v p Hv) as [Hcc Hccr].
  unfold segment_bits in *. rewrite !length_app, !bits_of_length in Hc. unfold append_segment. rewrite Hm, Hcnt, Hbl, Hcc.
  destruct (append_last cap q bs _ (payload_mode p) 4 Hh eq_refl) as (q1 & -> & H1 & L1);
    [lia|apply payload_mode_range|lia|]. cbn [mbind option_bind fst snd].
  destruct (append_last cap q1 _ _ (payload_count p) (count_bits (payload_mode p) v) H1 eq_refl) as (q2 & -> & H2 & L2);
    [lia|lia|rewrite length_app, bits_of_length; lia|]. cbn [mbind option_bind].
  destruct (copy_bits cap q2 _ (seg_data seg) (payload_bits p) rest _ H2 Hb eq_refl) as (q3 & -> & H3 & L3);
    [rewrite !length_app, !bits_of_length; lia|]. change (Z.to_nat 4) with 4%nat in *.
  exists q3. rewrite <- !app_assoc in *. split; [done|]. split; [done|congruence].
Qed.

Lemma append_segments v cap ps segs : version_ok v -> Forall2 is_segment ps segs -> counts_fit v ps ->
  forall q bs, holds cap q bs -> (length bs + length (stream v ps) <= cap)%nat ->
  exists q', foldm (append_segment v) segs (q, Z.of_nat (length bs)) = Some (q', Z.of_nat (length (bs ++ stream v ps))) /\
    holds cap q' (bs ++ stream v ps) /\ length q' = length q.
Proof.
  intros Hv. induction 1 as [|p seg ps segs Hs _ IH]; intros Hf q bs Hh Hc.
  - exists q. cbn. rewrite app_nil_r. done.
  - apply Forall_cons_iff in Hf as [Hfp Hf]. unfold stream in *. cbn [map concat foldm] in *. rewrite length_app in Hc.
    destruct (append_segment_spec v cap q bs p seg Hv Hs Hfp Hh) as (q1 & -> & H1 & L1); [lia|]. cbn [mbind option_bind].
    destruct (IH Hf q1 _ H1) as (q2 & -> & H2 & L2); [rewrite length_app; lia|]. exists q2. rewrite <- app_assoc in *.
    split; [done|]. split; [done|congruence].
Qed.

(** [k] alternating padding bytes *)
Fixpoint padding (k : nat) (b : Z) : list bool :=
  match k with O => [] | S k => bits_of 8 b ++ padding k (Z.lxor b (Z.lxor 0xEC 0x11)) end.

Lemma padding_length k : forall b, length (padding k b) = (8 * k)%nat.
Proof. induction k as [|k IH]; intros b; [done|]. cbn [padding]. rewrite length_app, bits_of_length, IH. lia. Qed.

Lemma append_padding_spec cap k : forall fuel b q bs cb, holds cap q bs -> (b = 0xEC \/ b = 0x11) ->
  cb = Z.of_nat (length bs + 8 * k) -> (length bs + 8 * k <= cap)%nat -> (k < fuel)%nat ->
  exists q', append_padding fuel cb b q (Z.of_nat (length bs)) = Some (q', cb) /\
    holds cap q' (bs ++ padding k b) /\ length q' = length q.
Proof.
  induction k as [|k IH]; intros fuel b q bs cb Hh Hb -> Hc Hf; (destruct fuel as [|fuel]; [lia|]); cbn [append_padding padding].
  - rewrite (proj2 (Z.ltb_ge _ _)) by lia. exists q. rewrite app_nil_r. split; [do 2 f_equal; lia|done].
  - rewrite (proj2 (Z.ltb_lt _ _)) by lia.
    destruct (append_last cap q bs _ b 8 Hh eq_refl) as (q1 & -> & H1 & L1); [lia|destruct Hb as [-> | ->]; lia|lia|].
    cbn [mbind option_bind fst snd]. change (Z.to_nat 8) with 8%nat in *.
    destruct (IH fuel (Z.lxor b (Z.lxor 0xEC 0x11)) q1 (bs ++ bits_of 8 b) (Z.of_nat (length bs + 8 * S k))) as (q2 & E & H2 & L2).
    { done. } { destruct Hb as [-> | ->]; [by right|by left]. } { rewrite length_app, bits_of_length. lia. }
    { rewrite length_app, bits_of_length. lia. } { lia. }
    exists q2. rewrite E. rewrite <- app_assoc in H2. split; [done|]. split; [done|congruence].
Qed.

(** What may follow the stream: less than a mode field, or the terminator *)
Definition tail_ok (tail : list bool) : Prop :=
  (length tail < 4)%nat \/ exists rest, tail = replicate 4 false ++ rest.

Lemma bits_of_zero n : bits_of n 0 = replicate n false.
Proof. induction n as [|n IH]; [done|]. rewrite bits_of_S, IH, Z.bits_0. done. Qed.

(** What follows the stream of [used] bits in [capacity] bits: terminator, zeros up to a byte, padding *)
Definition trailer (capacity used : Z) : list bool :=
  let t := Z.min 4 (capacity - used) in
  let z := (8 - (used + t) mod 8) mod 8 in
  replicate (Z.to_nat t) false ++ replicate (Z.to_nat z) false ++ padding (Z.to_nat ((capacity - used - t - z) / 8)) 0xEC.

Lemma trailer_tail capacity used : used <= capacity -> capacity mod 8 = 0 -> tail_ok (trailer capacity used).
Proof.
  intros Hle H8. unfold trailer. set (t := Z.min 4 (capacity - used)). destruct (Z.lt_ge_cases (capacity - used) 4).
  - left. assert (Hz : (8 - (used + t) mod 8) mod 8 = 0).
    { replace (used + t) with capacity by lia. by rewrite H8. }
    rewrite Hz. replace ((capacity - used - t - 0) / 8) with 0 by (replace (capacity - used - t - 0) with 0 by lia; done).
    cbn [Z.to_nat replicate padding app]. rewrite app_nil_r, length_replicate. lia.
  - right. replace t with 4 by lia. by eexists.
Qed.

Lemma trailer_arith capacity used : 0 <= used <= capacity -> capacity mod 8 = 0 ->
  let t := Z.min 4 (capacity - used) in let z := (8 - (used + t) mod 8) mod 8 in
  0 <= t <= 4 /\ 0 <= z < 8 /\ (used + t + z) mod 8 = 0 /\ 0 <= capacity - used - t - z /\
  8 * ((capacity - used - t - z) / 8) = capacity - used - t - z.
Proof. intros Hu H8 t z. subst t z. Z.to_euclidean_division_equations. lia. Qed.

Lemma holds_take cap q bs n : holds cap q bs -> length bs = (8 * n)%nat -> bits (take n q) = bs.
Proof.
  intros (_ & _ & rest & E) Hl. rewrite <- (take_drop n q), bits_app in E.
  destruct (Nat.le_gt_cases n (length q)) as [Hn|Hn].
  - apply (f_equal (take (8 * n))) in E. rewrite !take_app_length' in E; [done|lia|rewrite bits_length, length_take; lia].
  - exfalso. apply (f_equal length) in E. rewrite !length_app, !bits_length, length_take, length_drop, length_replicate in E. lia.
Qed.

(** [encode_data] fills the capacity with the stream and its trailer. *)
Theorem encode_data_spec v e l ps segs q : version_ok v -> ecl_ok e -> layout_of v e = Some l ->
  Forall2 is_segment ps segs -> counts_fit v ps -> stream_length v ps <= lay_data l * 8 -> bytes_ok q ->
  qrcodegen_BUFFER_LEN_FOR_VERSION v <= Z.of_nat (length q) ->
  exists q', encode_data segs v e (stream_length v ps) q = Some q' /\ length q' = length q /\ bytes_ok q' /\
    bits (take (Z.to_nat (lay_data l)) q') = stream v ps ++ trailer (lay_data l * 8) (stream_length v ps).
Proof.
  intros Hv He Hl Hs Hf Hfit Hq Hlen. destruct (layout_spec v e Hv He) as (l' & El & Hok). rewrite Hl in El. injection El as <-.
  assert (Hcw : getNumDataCodewords v e = Some (lay_data l)).
  { unfold layout_of in Hl. destruct (table_at NUM_ERROR_CORRECTION_BLOCKS e v); [|discriminate].
    destruct (table_at ECC_CODEWORDS_PER_BLOCK e v); [|discriminate]. destruct (getNumRawDataModules v); [|discriminate].
    destruct (getNumDataCodewords v e); [|discriminate]. cbn [mbind option_bind] in Hl. by injection Hl as <-. }
  pose proof (lo_raw v l Hok) as Hraw. pose proof (lo_buffer v l Hok) as Hbuf. pose proof (lo_range v l Hok) as Hrg.
  pose proof (lo_blocks v l Hok) as Hbk. pose proof (lo_ecc v l Hok) as Hec.
  set (B := qrcodegen_BUFFER_LEN_FOR_VERSION v) in *. assert (HB : lay_data l <= B).
  { unfold B, qrcodegen_BUFFER_LEN_FOR_VERSION. unfold qrsize_of in Hbuf. nia. }
  set (D := lay_data l) in *. set (used := stream_length v ps) in *. assert (0 <= used) by apply stream_length_nonneg.
  pose proof (clear_some q B ltac:(lia)) as Ec. pose proof (clear_holds q B _ Hq Ec) as Hc0. pose proof (clear_length _ _ _ Ec) as L0.
  set (q0 := replicate _ 0 ++ drop _ q) in *. unfold encode_data. fold B. rewrite Ec. cbn [mbind option_bind].
  destruct (append_segments v (8 * Z.to_nat B) ps segs Hv Hs Hf q0 [] Hc0) as (q1 & E1 & H1 & L1); [unfold used, stream_length in *; cbn; lia|].
  cbn [app length] in *. change (Z.of_nat 0) with 0 in E1. rewrite E1. cbn [mbind option_bind fst snd]. fold (stream_length v ps). fold used.
  rewrite Hcw. pass_assert. cbn [mbind option_bind]. pass_assert. cbv zeta.
  destruct (trailer_arith (D * 8) used ltac:(lia) (Z.mod_mul D 8 ltac:(lia))) as (Ht & Hz & Hm & Hp & Hp8).
  set (t := Z.min 4 (D * 8 - used)) in *. set (z := (8 - (used + t) mod 8) mod 8) in *.
  replace (if 4 <? D * 8 - used then 4 else D * 8 - used) with t by (unfold t; destruct (Z.ltb_spec 4 (D * 8 - used)); lia).
  destruct (append_last (8 * Z.to_nat B) q1 (stream v ps) used 0 t H1 eq_refl) as (q2 & -> & H2 & L2);
    [lia|split; [lia|apply Z.pow_pos_nonneg; lia]|unfold used, stream_length in *; lia|]. cbn [mbind option_bind fst snd].
  rewrite bits_of_zero in *. rewrite length_app, length_replicate, Nat2Z.inj_add, Z2Nat.id by lia. fold (stream_length v ps). fold used z.
  destruct (append_last (8 * Z.to_nat B) q2 _ (used + t) 0 z H2) as (q3 & -> & H3 & L3);
    [rewrite length_app, length_replicate; unfold used, stream_length; lia|lia|split; [lia|apply Z.pow_pos_nonneg; lia]
    |rewrite length_app, length_replicate; unfold used, stream_length in *; lia|]. cbn [mbind option_bind fst snd].
  rewrite bits_of_zero in *. rewrite <- app_assoc in *. set (head := stream v ps ++ replicate (Z.to_nat t) false ++ replicate (Z.to_nat z) false) in *.
  assert (Hlh : Z.of_nat (length head) = used + t + z).
  { unfold head. rewrite !length_app, !length_replicate. unfold used, stream_length. lia. }
  rewrite Hlh, Hm. pass_assert.
  destruct (append_padding_spec (8 * Z.to_nat B) (Z.to_nat ((D * 8 - used - t - z) / 8)) (S (Z.to_nat (D * 8))) 0xEC q3 head (D * 8) H3)
    as (q4 & E4 & H4 & L4); [by left|lia|lia|lia|]. rewrite <- Hlh. change 236 with 0xEC. rewrite E4. cbn [mbind option_bind fst snd].
  exists q4. split; [done|]. split; [congruence|]. split; [apply H4|].
  rewrite (holds_take (8 * Z.to_nat B) q4 (head ++ padding (Z.to_nat ((D * 8 - used - t - z) / 8)) 0xEC) (Z.to_nat D) H4).
  - unfold head, trailer. fold t z. by rewrite <- !app_assoc.
  - rewrite length_app, padding_length. lia.
Qed.

(** * Reading a QR code, and that encoding is right: tools/qrtext/qrcodegen.h

    [scan_qr] is a reader written from the QR code standard's layout: format,
    unmasking, zigzag, deinterleaving, segments.  [final_image] is what the
    encoder leaves on the modules.  The theorems say that the encoder ends on
    every input, that what it draws reads back as what it was given, and which
    version, level and mask it picks. *)

(** ** The reader *)

Fixpoint parse_stream (fuel : nat) (v : Z) (bs : list bool) : option (list payload) :=
  match fuel with
  | O => None
  | S fuel =>
    if decide (length bs < 4)%nat then Some [] else
    let mode := of_bits (take 4 bs) in
    if mode =? 0 then Some [] else
    cc ← numCharCountBits mode v;
    let bs := drop 4 bs in
    if decide (length bs < Z.to_nat cc)%nat then None else
    p ← parse_payload mode (Z.to_nat (of_bits (take (Z.to_nat cc) bs))) (drop (Z.to_nat cc) bs);
    ps ← parse_stream fuel v p.2;
    Some (p.1 :: ps)
  end.

(** The payloads in an image of size [n] *)
Definition scan_qr (n : Z) (image : Z -> Z -> bool) : option (list payload) :=
  let v := (n - 17) / 4 in
  let word := format_read image in
  l ← layout_of v (format_ecl word);
  let codewords := read_codewords v (lay_raw l) (fun x y => xorb (image x y) (mask_bit (format_mask word) x y)) in
  let bs := bits (deinterleave l codewords) in
  parse_stream (S (length bs)) v bs.

(** The payloads in the array the encoder leaves *)
Definition decode_qr (qrcode : arr) : option (list payload) :=
  n ← rd qrcode 0; scan_qr n (pix qrcode).

(** ** Parsing the stream *)

Lemma of_bits_false n : of_bits (replicate n false) = 0.
Proof. rewrite <- bits_of_zero. apply of_bits_of. split; [lia|]. apply Z.pow_pos_nonneg; lia. Qed.

Lemma parse_tail fuel v tail : tail_ok tail -> (0 < fuel)%nat -> parse_stream fuel v tail = Some [].
Proof.
  intros Ht Hf. destruct fuel as [|fuel]; [lia|]. cbn [parse_stream]. destruct (decide (length tail < 4)%nat) as [|Hn]; [done|].
  destruct Ht as [Ht|[rest ->]]; [done|]. rewrite take_app_length' by (by rewrite length_replicate). by rewrite of_bits_false.
Qed.

Lemma parse_stream_spec v ps tail : version_ok v -> Forall payload_ok ps -> counts_fit v ps ->
  Forall (fun p => 0 <= payload_count p) ps -> tail_ok tail ->
  forall fuel, (length ps < fuel)%nat -> parse_stream fuel v (stream v ps ++ tail) = Some ps.
Proof.
  intros Hv Hok Hfit Hcnt Htail. induction Hok as [|p ps Hp Hok IH]; intros fuel Hf.
  { apply parse_tail; [done|cbn in Hf; lia]. }
  destruct fuel as [|fuel]; [cbn in Hf; lia|]. apply Forall_cons_iff in Hfit as [Hfp Hfit]. apply Forall_cons_iff in Hcnt as [Hcp Hcnt].
  destruct (numCharCountBits_spec v p Hv) as [Hcc Hccr].
  unfold stream. cbn [map concat]. fold (stream v ps). unfold segment_bits. rewrite <- !app_assoc.
  cbn [parse_stream]. rewrite decide_False by (rewrite length_app, bits_of_length; lia).
  rewrite take_bits, drop_bits, of_bits_of by apply payload_mode_range.
  rewrite (proj2 (Z.eqb_neq _ _)) by (destruct p; discriminate). rewrite Hcc. cbn [mbind option_bind].
  rewrite decide_False by (rewrite length_app, bits_of_length; lia). rewrite take_bits, drop_bits, of_bits_of by (rewrite Z2Nat.id; lia).
  rewrite parse_payload_bits by done. cbn [mbind option_bind fst snd]. rewrite IH by (done || (cbn in Hf; lia)). done.
Qed.

Lemma stream_long v ps : version_ok v -> (length ps <= length (stream v ps))%nat.
Proof.
  intros Hv. induction ps as [|p ps IH]; [cbn; lia|]. pose proof (stream_length_cons v p ps Hv) as E.
  destruct (numCharCountBits_spec v p Hv). unfold stream_length in E. cbn [length]. lia.
Qed.

(** ** The picture *)

(** What the encoder leaves on module [(x, y)] when [base] is on it before masking *)
Definition final_image (v e mask : Z) (base : Z -> Z -> bool) (x y : Z) : bool :=
  match painted (format_ops (qrsize_of v) (format_word (format_data e mask))) x y with
  | Some c => c
  | None => if is_function v x y then base x y else xorb (base x y) (mask_bit mask x y)
  end.

(** The modules of a segment list's codewords before masking *)
Definition holds_codewords (v : Z) (l : layout) (codewords : arr) (base : Z -> Z -> bool) : Prop :=
  forall k c, data_cells v !! k = Some c -> Z.of_nat k < 8 * lay_raw l -> bits codewords !! k = Some (base c.1 c.2).

Lemma final_format v e mask base : version_ok v -> ecl_ok e -> mask_ok mask ->
  format_read (final_image v e mask base) = format_word (format_data e mask).
Proof.
  intros Hv He Hm. apply format_read_spec; [by apply format_words|]. intros i Hi. unfold final_image.
  destruct (painted_format (qrsize_of v) (format_word (format_data e mask)) i) as [-> _]; [|done|done].
  unfold qrsize_of. unfold version_ok in Hv. lia.
Qed.

Lemma final_data v e mask base x y : version_ok v -> is_function v x y = false ->
  final_image v e mask base x y = xorb (base x y) (mask_bit mask x y).
Proof.
  intros Hv Hf. unfold final_image. rewrite painted_none, Hf; [done|]. intros c Hc. apply format_function in Hc; [congruence|done].
Qed.

Lemma scan_ext n f g : (forall x y, inside n x y -> f x y = g x y) -> (exists v, version_ok v /\ n = qrsize_of v) ->
  scan_qr n f = scan_qr n g.
Proof.
  intros H (v & Hv & ->). unfold scan_qr.
  assert (Hdiv : (qrsize_of v - 17) / 4 = v) by (unfold qrsize_of; rewrite Z.add_simpl_r, Z.div_mul; lia). rewrite Hdiv.
  assert (E : format_read f = format_read g).
  { unfold format_read. f_equal. apply map_ext_in. intros i Hi%in_rev%in_seq. cbv zeta.
    destruct (format_cells_inside (qrsize_of v) (Z.of_nat i)) as [Hin _]; [unfold qrsize_of; unfold version_ok in Hv; lia|lia|]. by apply H. }
  rewrite E. destruct (layout_of v (format_ecl (format_read g))) as [l|]; [|done]. cbn [mbind option_bind].
  assert (E2 : read_codewords v (lay_raw l) (fun x y => xorb (f x y) (mask_bit (format_mask (format_read g)) x y)) =
    read_codewords v (lay_raw l) (fun x y => xorb (g x y) (mask_bit (format_mask (format_read g)) x y))).
  { unfold read_codewords. f_equal. f_equal. apply map_ext_in. intros [x y] Hc. cbn [fst snd]. apply In_data_cells in Hc as [Hin _]; [|done]. by rewrite H. }
  by rewrite E2.
Qed.

(** Reading the picture of a stream's codewords gives the payloads. *)
Theorem scan_final v e mask l base codewords data ps : version_ok v -> ecl_ok e -> mask_ok mask -> layout_of v e = Some l ->
  bytes_ok codewords -> lay_raw l <= Z.of_nat (length codewords) -> holds_codewords v l codewords base ->
  deinterleave l codewords = data -> bits data = stream v ps ++ trailer (lay_data l * 8) (stream_length v ps) ->
  stream_length v ps <= lay_data l * 8 -> Forall payload_ok ps -> counts_fit v ps -> Forall (fun p => 0 <= payload_count p) ps ->
  scan_qr (qrsize_of v) (final_image v e mask base) = Some ps.
Proof.
  intros Hv He Hm Hl Hb Hlen Hh Hd Hbits Hfit Hok Hcf Hcn.
  destruct (layout_spec v e Hv He) as (l' & El & Hlok). rewrite Hl in El. injection El as <-.
  unfold scan_qr. assert (Hdiv : (qrsize_of v - 17) / 4 = v) by (unfold qrsize_of; rewrite Z.add_simpl_r, Z.div_mul; lia).
  rewrite Hdiv, final_format by done. destruct (format_decode e mask He Hm) as [-> ->]. rewrite Hl. cbn [mbind option_bind].
  pose proof (data_cells_ok v e l Hv He Hl) as Hcells. pose proof (lo_raw v l Hlok). pose proof (lo_blocks v l Hlok). pose proof (lo_ecc v l Hlok).
  pose proof (lo_range v l Hlok).
  rewrite (read_codewords_spec v (lay_raw l) codewords); [|done|nia|lia|].
  - assert (Ed : deinterleave l (take (Z.to_nat (lay_raw l)) codewords) = data).
    { rewrite <- Hd. unfold deinterleave. f_equal. apply map_ext_in. intros i Hi%In_zrange. f_equal. unfold word_at. apply map_ext_in.
      intros j Hj%In_zrange. pose proof (codeword_pos_range v l Hlok i j ltac:(by split)). rewrite !nth_lookup, lookup_take_lt by lia. done. }
    rewrite Ed, Hbits. apply parse_stream_spec; try done.
    + apply trailer_tail; [done|]. apply Z.mod_mul. lia.
    + rewrite length_app. pose proof (stream_long v ps Hv). lia.
  - intros k c Hc Hk. rewrite (Hh k c Hc Hk). f_equal. destruct c as [x y]. cbn [fst snd].
    assert (Hin : In (x, y) (data_cells v)) by (apply list_elem_of_In; by apply list_elem_of_lookup_2 in Hc).
    apply In_data_cells in Hin as [_ Hf]; [|done]. rewrite final_data by done. by destruct (base x y), (mask_bit mask x y).
Qed.

(** * The choice of the mask: tools/qrtext/qrcodegen.h

    Trying a mask leaves everything but the format modules as it was, and a try
    scores exactly the picture that the mask would give; so the mask chosen is
    the first of those whose final picture has the least penalty. *)

(** The penalty of a picture of size [n] *)
Definition score (n : Z) (image : Z -> Z -> bool) : option Z :=
  penalty_with n (fun x y => if in_bounds n x y then Some (image x y) else None).

Lemma score_grid n q : grid n q -> getPenaltyScore q = score n (pix q).
Proof.
  intros Hg. unfold getPenaltyScore, score. rewrite (getSize_grid _ _ Hg). cbn [mbind option_bind]. apply penalty_with_ext. intros x y.
  destruct (in_bounds n x y) eqn:E; [apply in_bounds_spec in E; by apply (getModule_pix n)|].
  unfold getModule. rewrite (proj1 Hg). cbn [mbind option_bind]. unfold assert. by rewrite E, !andb_false_r.
Qed.

Lemma score_ext n f g : (forall x y, inside n x y -> f x y = g x y) -> score n f = score n g.
Proof.
  intros H. apply penalty_with_ext. intros x y. destruct (in_bounds n x y) eqn:E; [|done]. apply in_bounds_spec in E. by rewrite H.
Qed.

(** Which modules the format takes does not depend on its bits. *)
Lemma painted_none_inv ops x y c : painted ops x y = None -> ~ In (x, y, c) ops.
Proof.
  induction ops as [|[[a b] d] ops IH]; [intros _ []|]. rewrite painted_cons. destruct (painted ops x y) eqn:E; [discriminate|].
  intros H [[= -> -> ->]|Hin]; [by rewrite !Z.eqb_refl in H|by apply IH].
Qed.

Lemma format_none_any n b b' x y : painted (format_ops n b) x y = None -> painted (format_ops n b') x y = None.
Proof.
  intros H. apply painted_none. intros c [(i & Hi & _ & Hc)|(-> & -> & _)]%In_format_ops.
  - apply (painted_none_inv _ x y (Z.testbit b i) H), In_format_ops. left. by exists i.
  - apply (painted_none_inv _ 8 (n - 8) true H), In_format_ops. by right.
Qed.

Section Choice.
Context (v e : Z) (fm : arr) (base : Z -> Z -> bool) (len : nat).
Context (Hv : version_ok v) (He : ecl_ok e) (Hfm : grid (qrsize_of v) fm)
  (Hpix : forall x y, inside (qrsize_of v) x y -> pix fm x y = is_function v x y).

(** The picture before masking, but for the format modules *)
Definition near (q : arr) : Prop :=
  grid (qrsize_of v) q /\ length q = len /\
  forall x y, inside (qrsize_of v) x y -> painted (format_ops (qrsize_of v) 0) x y = None -> pix q x y = base x y.

(** Masking and drawing the format gives the mask's final picture. *)
Lemma finish_spec mask q : mask_ok mask -> near q ->
  exists q1 q2, applyMask fm q mask = Some q1 /\ drawFormatBits e mask q1 = Some q2 /\ grid (qrsize_of v) q1 /\ grid (qrsize_of v) q2 /\
    length q2 = len /\
    forall x y, inside (qrsize_of v) x y -> pix q2 x y = final_image v e mask base x y.
Proof.
  intros Hm (Hg & Hl & Hn). destruct (applyMask_spec _ fm mask Hfm Hm q Hg) as (q1 & E1 & Hg1 & L1 & P1).
  destruct (drawFormat_spec _ e mask q1 He Hm Hg1) as (q2 & E2 & Hg2 & L2 & P2). exists q1, q2. do 4 (split; [done|]). split; [congruence|].
  intros x y Hin. rewrite P2 by done. unfold final_image. destruct (painted (format_ops _ _) x y) eqn:Ep; [done|]. cbn [default].
  rewrite P1 by done. unfold masked. rewrite Hpix, Hn by (done || by apply (format_none_any _ _ 0) in Ep). done.
Qed.

(** One try *)
Lemma try_mask_spec i q m p : mask_ok i -> near q -> exists q' pen, try_mask e fm i (q, m, p) =
    Some (q', if pen <? p then i else m, if pen <? p then pen else p) /\
  near q' /\ score (qrsize_of v) (final_image v e i base) = Some pen /\ pen < penalty_bound.
Proof.
  intros Hi Hn. destruct (finish_spec i q Hi Hn) as (q1 & q2 & E1 & E2 & Hg1 & Hg2 & L2 & P2).
  destruct (getPenaltyScore_ok _ q2 Hg2) as (pen & Ep & Hpen).
  destruct (applyMask_spec _ fm i Hfm Hi q2 Hg2) as (q3 & E3 & Hg3 & L3 & P3).
  exists q3, pen. unfold try_mask. rewrite E1. cbn [mbind option_bind]. rewrite E2. cbn [mbind option_bind]. rewrite Ep. cbn [mbind option_bind].
  split; [destruct (pen <? p); by rewrite E3|]. split.
  - split; [done|]. split; [congruence|]. intros x y Hin Hfree. rewrite P3 by done. unfold masked. rewrite Hpix, P2 by done.
    unfold final_image. rewrite (format_none_any _ 0 _ x y Hfree). destruct (is_function v x y); [done|]. by destruct (base x y), (mask_bit i x y).
  - split; [|lia]. rewrite <- Ep, (score_grid _ _ Hg2). symmetry. by apply score_ext.
Qed.

(** [m] is the first mask with the least penalty of those below [k]. *)
Definition best_below (k m p : Z) : Prop :=
  0 <= m < k /\ score (qrsize_of v) (final_image v e m base) = Some p /\
  forall m', 0 <= m' < k -> exists p', score (qrsize_of v) (final_image v e m' base) = Some p' /\ p <= p' /\ (m' < m -> p < p').

Theorem choose_mask_spec mask q : near q -> mask = qrcodegen_Mask_AUTO \/ mask_ok mask ->
  exists q' m, choose_mask e mask fm q = Some (q', m) /\ near q' /\ mask_ok m /\
    (mask <> qrcodegen_Mask_AUTO -> m = mask) /\ (mask = qrcodegen_Mask_AUTO -> exists p, best_below 8 m p).
Proof.
  intros Hn Hmask. unfold choose_mask. destruct (Z.eqb_spec mask qrcodegen_Mask_AUTO) as [->|Hne].
  - loop_invariant (fun k '(q, m, p) => near q /\ match k with O => p = LONG_MAX | S _ => best_below (Z.of_nat k) m p end).
    + intros k i [[q1 m] p] Hi [Hq Hb]. pose proof (lookup_lt_Some _ _ _ Hi) as Hlt. rewrite zrange_length in Hlt.
      rewrite zrange_lookup in Hi by done. injection Hi as <-. rewrite Z.add_0_l.
      destruct (try_mask_spec (Z.of_nat k) q1 m p) as (q2 & pen & -> & Hq2 & Hs & Hpb); [unfold mask_ok; lia|done|].
      eexists (_, _, _). split; [done|]. split; [done|]. rewrite Nat2Z.inj_succ. destruct k as [|k].
      * subst p. rewrite (proj2 (Z.ltb_lt _ _)) by (unfold penalty_bound, LONG_MAX in *; lia). split; [lia|]. split; [done|].
        intros m' Hm'. exists pen. replace m' with (Z.of_nat 0) by lia. split; [done|lia].
      * destruct Hb as (Hm & Hp & Hbest). destruct (Z.ltb_spec pen p).
        -- split; [lia|]. split; [done|]. intros m' Hm'. destruct (Z.eq_dec m' (Z.of_nat (S k))) as [->|]; [exists pen; split; [done|lia]|].
           destruct (Hbest m') as (p' & -> & Hp' & _); [lia|]. exists p'. split; [done|lia].
        -- split; [lia|]. split; [done|]. intros m' Hm'. destruct (Z.eq_dec m' (Z.of_nat (S k))) as [->|]; [exists pen; split; [done|lia]|].
           destruct (Hbest m') as (p' & -> & Hp' & Hlt'); [lia|]. exists p'. split; [done|lia].
    + split; [done|done].
    + destruct s as [[q' m] p], Hinv as [Hq' Hb]. cbn [mbind option_bind fst snd]. change (length (zrange 0 8)) with 8%nat in Hb.
      exists q', m. split; [done|]. split; [done|]. destruct Hb as (Hm & Hb). split; [unfold mask_ok; lia|]. split; [done|]. intros _. exists p. by split.
  - destruct Hmask as [|Hm]; [done|]. exists q, mask. done.
Qed.
End Choice.
