(* ===== verification/QrEncoder.v ===== *)
(** * The encoder as a whole: tools/qrtext/qrcodegen.h

    [qrcodegen_encodeSegmentsAdvanced] ends for every list of segments and
    every contents of its buffers ([encode_spec]): with [false] when no version
    in range has room, and otherwise with the grid whose modules are
    [final_image] of the codewords of its stream, at the smallest version, the
    highest level boosting allows and the best mask. *)

From Stdlib Require Import ZArith Lia List.
From stdpp Require Import base tactics list numbers option.
From S2P Require Import Prelude QrArray QrField QrSegments QrPayload QrGrid QrFunction QrFormat QrCodewords.
From S2P Require Import QrData QrDraw QrEncode QrScan.
Local Open Scope Z_scope.

(** ** The version and the level *)

(** Data codewords of a version and level *)
Definition capacity (v e : Z) : Z := default 0 (getNumDataCodewords v e).

(** The payloads fit the version at the level. *)
Definition fits (v e : Z) (ps : list payload) : Prop := counts_fit v ps /\ stream_length v ps <= capacity v e * 8.

#[export] Instance fits_dec v e ps : Decision (fits v e ps).
Proof. unfold fits, counts_fit. apply _. Defined.

Lemma capacity_layout v e l : layout_of v e = Some l -> getNumDataCodewords v e = Some (capacity v e) /\ lay_data l = capacity v e /\
  getNumRawDataModules v = Some (lay_modules l) /\ lay_raw l = lay_modules l / 8.
Proof.
  unfold layout_of, capacity. intros Hl. destruct (table_at NUM_ERROR_CORRECTION_BLOCKS e v); [|discriminate].
  destruct (table_at ECC_CODEWORDS_PER_BLOCK e v); [|discriminate]. destruct (getNumRawDataModules v); [|discriminate].
  destruct (getNumDataCodewords v e); [|discriminate]. cbn [mbind option_bind] in Hl. by injection Hl as <-.
Qed.

Lemma capacity_spec v e : version_ok v -> ecl_ok e -> getNumDataCodewords v e = Some (capacity v e) /\ 9 <= capacity v e <= 2956.
Proof.
  intros Hv He. destruct (layout_spec v e Hv He) as (l & Hl & Hok). destruct (capacity_layout v e l Hl) as (E & Ed & _).
  split; [done|]. rewrite <- Ed. by apply (lo_range v).
Qed.

Lemma capacity_antitone v e e' : version_ok v -> ecl_ok e -> ecl_ok e' -> e <= e' -> capacity v e' <= capacity v e.
Proof.
  intros Hv He He' Hle.
  pose proof (all_versions (fun v => forallb (fun e => forallb (fun e' => (e' <? e) || (capacity v e' <=? capacity v e)) (zrange 0 4)) (zrange 0 4))
    ltac:(vm_compute; reflexivity) v Hv) as H. cbv beta in H. unfold ecl_ok in *. rewrite forallb_forall in H.
  specialize (H e ltac:(apply In_zrange; lia)). rewrite forallb_forall in H. specialize (H e' ltac:(apply In_zrange; lia)).
  rewrite orb_true_iff, Z.ltb_lt, Z.leb_le in H. lia.
Qed.

Lemma total_bits_fits v e ps segs : version_ok v -> ecl_ok e -> Forall2 is_segment ps segs ->
  exists t, getTotalBits segs v = Some t /\ (fits v e ps -> t = stream_length v ps) /\
    (negb (t =? -1) && (t <=? capacity v e * 8) = true <-> fits v e ps).
Proof.
  intros Hv He Hs. destruct (getTotalBits_spec v ps segs Hv Hs) as [Hyes Hno]. pose proof (stream_length_nonneg v ps).
  pose proof (capacity_spec v e Hv He) as [_ Hc].
  destruct (decide (counts_fit v ps)) as [Hf|Hf]; [destruct (Z.le_gt_cases (stream_length v ps) INT16_MAX)|].
  - exists (stream_length v ps). rewrite Hyes by done. split; [done|]. split; [done|]. unfold fits.
    rewrite andb_true_iff, negb_true_iff, Z.eqb_neq, Z.leb_le. intuition lia.
  - exists (-1). rewrite Hno by lia. split; [done|]. unfold fits, INT16_MAX in *. split; [lia|]. cbn. split; [done|lia].
  - exists (-1). rewrite Hno by tauto. split; [done|]. unfold fits. split; [tauto|]. cbn. split; [done|tauto].
Qed.

Lemma find_version_spec ps segs e maxV : ecl_ok e -> maxV <= 40 -> Forall2 is_segment ps segs -> forall fuel u,
  1 <= u <= maxV -> (Z.to_nat (maxV - u) < fuel)%nat ->
  (exists v, u <= v <= maxV /\ fits v e ps /\ (forall w, u <= w < v -> ~ fits w e ps) /\
     find_version fuel segs e maxV u = Some (Some (v, stream_length v ps))) \/
  ((forall w, u <= w <= maxV -> ~ fits w e ps) /\ find_version fuel segs e maxV u = Some None).
Proof.
  intros He Hmax Hs. induction fuel as [|fuel IH]; intros u Hu Hf; [lia|]. cbn [find_version].
  destruct (capacity_spec u e) as [-> _]; [unfold version_ok; lia|done|]. cbn [mbind option_bind].
  destruct (total_bits_fits u e ps segs) as (t & -> & Ht & Hfit); [unfold version_ok; lia|done..|]. cbn [mbind option_bind]. cbv zeta.
  destruct (negb (t =? -1) && (t <=? capacity u e * 8)) eqn:Eb.
  - left. exists u. assert (fits u e ps) by (by apply Hfit). rewrite <- Ht by done. split_and!; try done; lia.
  - assert (Hnf : ~ fits u e ps) by (intros F; apply Hfit in F; congruence).
    destruct (Z.leb_spec maxV u).
    + right. split; [|done]. intros w Hw. by replace w with u by lia.
    + destruct (IH (u + 1)) as [(v & Hv & Fv & Mv & E)|[Hn E]]; [lia|lia|left|right].
      * exists v. split; [lia|]. split; [done|]. split; [|done]. intros w Hw. destruct (Z.eq_dec w u) as [->|]; [done|]. apply Mv. lia.
      * split; [|done]. intros w Hw. destruct (Z.eq_dec w u) as [->|]; [done|]. apply Hn. lia.
Qed.

(** The level that boosting gives *)
Definition boosted (boost : bool) (v e : Z) (ps : list payload) (e' : Z) : Prop :=
  if boost then e <= e' <= 3 /\ fits v e' ps /\ forall f, e' < f <= 3 -> ~ fits v f ps else e' = e.

Lemma boost_spec boost v e ps : version_ok v -> ecl_ok e -> fits v e ps ->
  exists e', boost_ecl boost v (stream_length v ps) e = Some e' /\ boosted boost v e ps e' /\ ecl_ok e' /\ fits v e' ps.
Proof.
  intros Hv He Hf. unfold boost_ecl, boosted. destruct boost.
  2:{ exists e. split; [|done]. vm_compute (zrange _ _). cbn. done. }
  change (zrange qrcodegen_Ecc_MEDIUM (qrcodegen_Ecc_HIGH + 1)) with [1; 2; 3]. cbn [foldm].
  destruct (capacity_spec v 1 Hv) as [-> _]; [unfold ecl_ok; lia|]. cbn [mbind option_bind].
  destruct (capacity_spec v 2 Hv) as [-> _]; [unfold ecl_ok; lia|]. cbn [mbind option_bind].
  destruct (capacity_spec v 3 Hv) as [-> _]; [unfold ecl_ok; lia|]. cbn [mbind option_bind].
  eexists. split; [done|]. destruct Hf as [Hc Hf]. unfold ecl_ok in *.
  pose proof (capacity_antitone v 1 2 Hv) as A12. pose proof (capacity_antitone v 2 3 Hv) as A23. pose proof (capacity_antitone v 0 1 Hv) as A01. unfold ecl_ok in *.
  assert (Hfit : forall f, fits v f ps <-> stream_length v ps <= capacity v f * 8) by (intros f; unfold fits; tauto).
  assert (E4 : e = 0 \/ e = 1 \/ e = 2 \/ e = 3) by lia.
  assert (Hall : forall e', e <= e' <= 3 -> stream_length v ps <= capacity v e' * 8 -> (forall f, e' < f <= 3 -> ~ stream_length v ps <= capacity v f * 8) ->
    (e <= e' <= 3 /\ fits v e' ps /\ forall f, e' < f <= 3 -> ~ fits v f ps) /\ 0 <= e' <= 3 /\ fits v e' ps).
  { intros e' H1' H2' H3'. rewrite Hfit. split; [split; [done|split; [done|]]|split; [lia|done]]. intros f Hf'. rewrite Hfit. by apply H3'. }
  assert (Hle : forall f, f = 1 \/ f = 2 \/ f = 3 -> capacity v f * 8 < stream_length v ps -> e < f).
  { intros f Hf3 Hlt. destruct E4 as [-> |[-> |[-> | ->]]], Hf3 as [-> |[-> | ->]]; lia. }
  destruct (Z.leb_spec (stream_length v ps) (capacity v 3 * 8)); [apply Hall; [lia|done|intros; lia]|].
  destruct (Z.leb_spec (stream_length v ps) (capacity v 2 * 8)).
  { apply Hall; [pose proof (Hle 3); lia|done|]. intros f Hf'. replace f with 3 by lia. lia. }
  destruct (Z.leb_spec (stream_length v ps) (capacity v 1 * 8)).
  { apply Hall; [pose proof (Hle 2); lia|done|]. intros f Hf'. assert (f = 2 \/ f = 3) as [-> | ->] by lia; lia. }
  apply Hall; [lia|done|]. intros f Hf'. assert (f = 1 \/ f = 2 \/ f = 3) as [-> |[-> | ->]] by lia; lia.
Qed.

(** ** The whole *)

Section Whole.
Context `{Uninit}.

(** A picture of the payloads at version [v], level [e] and mask [m]: [base] before masking, the
    codewords [cw] on its data modules. *)
Record picture (v e m : Z) (ps : list payload) (base : Z -> Z -> bool) (l : layout) (cw : arr) : Prop := {
  pic_layout : layout_of v e = Some l;
  pic_bytes : bytes_ok cw;
  pic_length : lay_raw l <= Z.of_nat (length cw);
  pic_codewords : holds_codewords v l cw base;
  pic_data : bits (deinterleave l cw) = stream v ps ++ trailer (lay_data l * 8) (stream_length v ps);
  pic_words : forall i, 0 <= i < lay_blocks l -> forall k, (k < Z.to_nat (lay_ecc l))%nat -> eval (word_at l cw i) (alpha k) = 0
}.

Lemma draw_modules_spec v e l t q : version_ok v -> ecl_ok e -> layout_of v e = Some l -> bytes_ok t -> bytes_ok q ->
  qrcodegen_BUFFER_LEN_FOR_VERSION v <= Z.of_nat (length t) -> qrcodegen_BUFFER_LEN_FOR_VERSION v <= Z.of_nat (length q) ->
  exists t' q' cw, draw_modules v e t q = Some (t', q') /\
    grid (qrsize_of v) t' /\ length t' = length t /\ (forall x y, inside (qrsize_of v) x y -> pix t' x y = is_function v x y) /\
    grid (qrsize_of v) q' /\ length q' = length q /\
    bytes_ok cw /\ lay_raw l <= Z.of_nat (length cw) /\ holds_codewords v l cw (pix q') /\
    deinterleave l cw = take (Z.to_nat (lay_data l)) q /\ forall i, 0 <= i < lay_blocks l -> block_word l q i (word_at l cw i).
Proof.
  intros Hv He Hl Ht Hq Lt Lq. destruct (layout_spec v e Hv He) as (l' & El & Hok). rewrite Hl in El. injection El as <-.
  pose proof (lo_buffer v l Hok) as Hbuf. unfold qrcodegen_BUFFER_LEN_FOR_VERSION in *. fold (qrsize_of v) in *.
  destruct (addEcc_spec v e l q t Hv He Hl Hq Ht) as (q1 & cw & E1 & L1 & Lc & B1 & Bc & Hd & Hw); [lia..|].
  destruct (initialize_spec v q1 Hv B1) as (q2 & E2 & G2 & L2 & P2); [lia|].
  destruct (drawCodewords_spec v e l cw q2 Hv He Hl) as (q3 & E3 & G3 & L3 & P3); [lia|done..|].
  destruct (drawWhite_spec v q3 Hv G3) as (q4 & E4 & G4 & L4 & P4).
  destruct (initialize_spec v cw Hv Bc) as (t' & E5 & G5 & L5 & P5); [lia|].
  exists t', q4, cw. split.
  { unfold draw_modules. rewrite E1. cbn [mbind option_bind]. rewrite E2. cbn [mbind option_bind].
    destruct (capacity_layout v e l Hl) as (_ & _ & -> & Er). cbn [mbind option_bind]. rewrite <- Er, E3. cbn [mbind option_bind].
    rewrite E4. cbn [mbind option_bind]. rewrite E5. done. }
  split; [done|]. split; [congruence|]. split; [done|]. split; [done|]. split; [congruence|]. split; [done|]. split; [lia|].
  split; [|split; [done|done]]. intros k c Hc Hk. rewrite (P3 k c Hc Hk). f_equal. destruct c as [x y]. cbn [fst snd].
  assert (Hin : In (x, y) (data_cells v)) by (apply list_elem_of_In; by apply list_elem_of_lookup_2 in Hc).
  apply In_data_cells in Hin as [Hin Hf]; [|done]. rewrite P4 by done. rewrite painted_none; [done|].
  intros c Hw'. apply white_ops_function in Hw'; [congruence|done].
Qed.

(** The result [r] of encoding the payloads: a picture of them, at the first version with room, the level
    boosting gives and the mask asked for or the best one. *)
Definition encodes (ps : list payload) (ecl minV maxV mask : Z) (boost : bool) (temp qr : arr)
    (r : option (bool * arr * arr)) (v e m : Z) (base : Z -> Z -> bool) (l : layout) (cw temp' qr' : arr) : Prop :=
  r = Some (true, temp', qr') /\
  minV <= v <= maxV /\ fits v ecl ps /\ (forall w, minV <= w < v -> ~ fits w ecl ps) /\
  ecl_ok e /\ boosted boost v ecl ps e /\ fits v e ps /\
  mask_ok m /\ (mask <> qrcodegen_Mask_AUTO -> m = mask) /\
  (mask = qrcodegen_Mask_AUTO -> exists p, best_below v e base 8 m p) /\
  picture v e m ps base l cw /\
  grid (qrsize_of v) qr' /\ length qr' = length qr /\ length temp' = length temp /\
  forall x y, inside (qrsize_of v) x y -> pix qr' x y = final_image v e m base x y.

(** Nothing fits, and the size byte is cleared. *)
Definition too_long (ps : list payload) (ecl minV maxV : Z) (qr : arr) (r : option (bool * arr * arr)) : Prop :=
  (forall w, minV <= w <= maxV -> ~ fits w ecl ps) /\ exists temp', r = Some (false, temp', <[0%nat := 0]> qr).

Definition outcome (ps : list payload) (ecl minV maxV mask : Z) (boost : bool) (temp qr : arr)
    (r : option (bool * arr * arr)) : Prop :=
  (exists v e m base l cw temp' qr', encodes ps ecl minV maxV mask boost temp qr r v e m base l cw temp' qr') \/
  too_long ps ecl minV maxV qr r.

(** What the callers of the encoder must respect. *)
Record call_ok (ecl minV maxV mask : Z) (temp qr : arr) : Prop := {
  call_versions : 1 <= minV /\ minV <= maxV /\ maxV <= 40;
  call_ecl : ecl_ok ecl;
  call_mask : mask = qrcodegen_Mask_AUTO \/ mask_ok mask;
  call_temp : bytes_ok temp /\ qrcodegen_BUFFER_LEN_FOR_VERSION maxV <= Z.of_nat (length temp);
  call_qr : bytes_ok qr /\ qrcodegen_BUFFER_LEN_FOR_VERSION maxV <= Z.of_nat (length qr)
}.

Lemma buffer_len_mono v w : 1 <= v <= w -> qrcodegen_BUFFER_LEN_FOR_VERSION v <= qrcodegen_BUFFER_LEN_FOR_VERSION w.
Proof.
  intros Hv. unfold qrcodegen_BUFFER_LEN_FOR_VERSION. assert (((v * 4 + 17) * (v * 4 + 17) + 7) / 8 <= ((w * 4 + 17) * (w * 4 + 17) + 7) / 8); [|lia].
  apply Z.div_le_mono; [lia|]. nia.
Qed.

Lemma buffer_len_pos v : 1 <= v -> 0 < qrcodegen_BUFFER_LEN_FOR_VERSION v.
Proof.
  intros Hv. unfold qrcodegen_BUFFER_LEN_FOR_VERSION. assert (0 <= ((v * 4 + 17) * (v * 4 + 17) + 7) / 8) by (apply Z.div_pos; nia). lia.
Qed.

(** [qrcodegen_encodeSegmentsAdvanced] always ends, with one of the two outcomes. *)
Theorem encode_spec segs ps ecl minV maxV mask boost temp qr :
  call_ok ecl minV maxV mask temp qr -> Forall2 is_segment ps segs ->
  outcome ps ecl minV maxV mask boost temp qr (qrcodegen_encodeSegmentsAdvanced segs ecl minV maxV mask boost temp qr).
Proof.
  intros [(H1 & H2 & H3) He Hmask [Ht Lt] [Hq Lq]] Hs. unfold outcome, encodes, too_long, qrcodegen_encodeSegmentsAdvanced.
  assert (Hm : -1 <= mask <= 7) by (unfold mask_ok, qrcodegen_Mask_AUTO in *; lia). pose proof He as He'. unfold ecl_ok in He'.
  rewrite (assert_true (_ && _ && (maxV <=? _))) by (unfold qrcodegen_VERSION_MIN, qrcodegen_VERSION_MAX; rewrite !andb_true_iff, !Z.leb_le; lia).
  rewrite (assert_true (_ && (mask <=? 7))) by (rewrite !andb_true_iff, !Z.leb_le; lia). cbn [mbind option_bind].
  destruct (find_version_spec ps segs ecl maxV He H3 Hs (S (Z.to_nat (maxV - minV))) minV) as [(v & Hv & Hf & Hmin & ->)|[Hno ->]]; [lia|lia|left|right].
  2:{ split; [done|]. cbn [mbind option_bind]. exists temp. rewrite wr_some; [done|]. pose proof (buffer_len_pos maxV). lia. }
  assert (Hvo : version_ok v) by (unfold version_ok; lia).
  pose proof (buffer_len_mono v maxV ltac:(lia)) as HB.
  cbn [mbind option_bind]. pose proof (stream_length_nonneg v ps). rewrite assert_true by (rewrite negb_true_iff, Z.eqb_neq; lia). cbn [mbind option_bind].
  destruct (boost_spec boost v ecl ps Hvo He Hf) as (e & -> & Hboost & Heo & Hfe). cbn [mbind option_bind].
  destruct (layout_spec v e Hvo Heo) as (l & Hl & Hok). destruct (capacity_layout v e l Hl) as (_ & Hcap & _).
  destruct Hfe as [Hcf Hle]. rewrite <- Hcap in Hle.
  destruct (encode_data_spec v e l ps segs qr Hvo Heo Hl Hs Hcf Hle Hq) as (q1 & -> & L1 & B1 & D1); [lia|]. cbn [mbind option_bind].
  destruct (draw_modules_spec v e l temp q1 Hvo Heo Hl Ht B1) as (t' & q2 & cw & -> & Gt & Lt' & Pt & G2 & L2 & Bc & Lc & Hc & Hd & Hw); [lia..|].
  cbn [mbind option_bind]. set (base := pix q2).
  destruct (choose_mask_spec v e t' base (length qr) Heo Gt Pt mask q2) as (q3 & m & -> & Hn3 & Hmo & Hforced & Hauto); [|done|].
  { split; [done|]. split; [congruence|done]. }
  cbn [mbind option_bind]. rewrite assert_true by (unfold mask_ok in Hmo; rewrite andb_true_iff, !Z.leb_le; lia). cbn [mbind option_bind].
  destruct (finish_spec v e t' base (length qr) Heo Gt Pt m q3 Hmo Hn3) as (q4 & q5 & -> & E5 & _ & G5 & L5 & P5). cbn [mbind option_bind].
  rewrite E5. cbn [mbind option_bind]. exists v, e, m, base, l, cw, t', q5.
  split; [done|]. split; [done|]. split; [done|]. split; [done|]. split; [done|]. split; [done|]. split; [split; [done|by rewrite <- Hcap]|].
  split; [done|]. split; [done|]. split; [done|]. split; [|split; [done|split; [done|split; [done|done]]]].
  constructor; try done; [by rewrite Hd|]. intros i Hi k Hk. destruct (Hw i Hi) as (ecc & Ew & _ & _ & Hr). by apply Hr.
Qed.

(** What is drawn reads back as the payloads. *)
Theorem encodes_decode ps ecl minV maxV mask boost temp qr r v e m base l cw temp' qr' :
  1 <= minV -> maxV <= 40 -> Forall payload_ok ps -> Forall (fun p => 0 <= payload_count p) ps ->
  encodes ps ecl minV maxV mask boost temp qr r v e m base l cw temp' qr' -> decode_qr qr' = Some ps.
Proof.
  intros H1 H2 Hok Hcn (_ & Hv & _ & _ & He & _ & [Hcf Hfit] & Hm & _ & _ & [Hl Hb Hlen Hc Hd _] & Hg & _ & _ & Hpix).
  assert (Hvo : version_ok v) by (unfold version_ok; lia). destruct (capacity_layout v e l Hl) as (_ & Hcap & _).
  unfold decode_qr. rewrite (proj1 Hg). cbn [mbind option_bind].
  rewrite (scan_ext _ _ (final_image v e m base)) by (done || by exists v).
  apply (scan_final v e m l base cw _ ps Hvo He Hm Hl Hb Hlen Hc eq_refl); [done|by rewrite Hcap|done..].
Qed.
End Whole.
