(* ===== verification/QrText.v ===== *)
(** * Encoding text and bytes: tools/qrtext/qrcodegen.h

    [qrcodegen_encodeText] picks numeric, alphanumeric or byte mode
    ([text_payloads]); it ends with a picture of the text or, exactly when the
    text fits no version in range, with [false].  Likewise
    [qrcodegen_encodeBinary]. *)

From Stdlib Require Import ZArith Lia List.
From stdpp Require Import base tactics list numbers option.
From S2P Require Import Prelude QrArray QrField QrSegments QrPayload QrGrid QrFunction QrFormat QrCodewords.
From S2P Require Import QrData QrEncode QrScan QrEncoder.
Local Open Scope Z_scope.

(** The bytes of a C string *)
Definition text_ok (text : list Z) : Prop := Forall (fun c => is_u8 c /\ c <> 0) text.

Definition text_payloads (text : list Z) : list payload :=
  match text with
  | [] => []
  | _ =>
    if qrcodegen_isNumeric text then [PNumeric text]
    else if qrcodegen_isAlphanumeric text then [PAlphanumeric text]
    else [PBytes text]
  end.

Definition payloads_text (ps : list payload) : list Z := concat (map payload_text ps).

Lemma text_payloads_text text : payloads_text (text_payloads text) = text.
Proof. unfold payloads_text, text_payloads. destruct text as [|c t]; [done|]. repeat case_match; cbn; by rewrite app_nil_r. Qed.

Lemma isNumeric_ok text : text_ok text -> qrcodegen_isNumeric text = true -> Forall numeric_ok text.
Proof.
  induction 1 as [|c t [Hc _] Ht IH]; [constructor|]. cbn [qrcodegen_isNumeric].
  destruct (Z.ltb_spec (s8 c) 48), (Z.ltb_spec 57 (s8 c)); try discriminate. cbn [orb]. intros Hn. constructor; [|by apply IH].
  unfold numeric_ok. assert (s8 c = c); [|lia]. unfold s8, to_signed, is_u8 in *. change (2 ^ 8) with 256 in *.
  rewrite Z.mod_small in * by lia. change (2 ^ (8 - 1)) with 128 in *. destruct (Z.ltb_spec c 128); lia.
Qed.

Lemma isAlphanumeric_ok text : text_ok text -> qrcodegen_isAlphanumeric text = true -> Forall alphanumeric_ok text.
Proof.
  induction 1 as [|c t [Hc Hc0] Ht IH]; [constructor|]. cbn [qrcodegen_isAlphanumeric].
  destruct (strchr ALPHANUMERIC_CHARSET c) eqn:E; [|discriminate]. intros Hn. constructor; [|by apply IH]. split; [done|congruence].
Qed.

Lemma text_payloads_ok text : text_ok text -> Forall payload_ok (text_payloads text) /\
  Forall (fun p => 0 <= payload_count p) (text_payloads text).
Proof.
  intros Ht. unfold text_payloads. destruct text as [|c t]; [split; constructor|].
  assert (Hb : bytes_ok (c :: t)) by (revert Ht; apply List.Forall_impl; tauto).
  destruct (qrcodegen_isNumeric (c :: t)) eqn:En; [|destruct (qrcodegen_isAlphanumeric (c :: t)) eqn:Ea];
    (split; [constructor; [|constructor]|constructor; [cbn; lia|constructor]]); cbn [payload_ok].
  - by apply isNumeric_ok.
  - by apply isAlphanumeric_ok.
  - done.
Qed.

(** ** What does not fit the buffer fits no version *)

Lemma capacity_buffer w maxV e : 1 <= w <= maxV -> maxV <= 40 -> ecl_ok e ->
  capacity w e <= qrcodegen_BUFFER_LEN_FOR_VERSION maxV.
Proof.
  intros Hw Hm He. assert (Hv : version_ok w) by (unfold version_ok; lia). destruct (layout_spec w e Hv He) as (l & Hl & Hok).
  destruct (capacity_layout w e l Hl) as (_ & <- & _). pose proof (lo_raw w l Hok). pose proof (lo_buffer w l Hok) as Hb.
  pose proof (lo_blocks w l Hok). pose proof (lo_ecc w l Hok). pose proof (buffer_len_mono w maxV ltac:(lia)).
  unfold qrcodegen_BUFFER_LEN_FOR_VERSION in *. fold (qrsize_of w) in *. nia.
Qed.

Lemma too_many_bits p w e maxV : 1 <= w <= maxV -> maxV <= 40 -> ecl_ok e ->
  8 * qrcodegen_BUFFER_LEN_FOR_VERSION maxV < Z.of_nat (length (payload_bits p)) \/ INT16_MAX < Z.of_nat (length (payload_bits p)) ->
  ~ fits w e [p].
Proof.
  intros Hw Hm He Hlong [_ Hf]. assert (Hv : version_ok w) by (unfold version_ok; lia). rewrite stream_length_cons in Hf by done.
  destruct (numCharCountBits_spec w p Hv). pose proof (stream_length_nonneg w []). pose proof (capacity_buffer w maxV e Hw Hm He).
  destruct (capacity_spec w e Hv He). unfold INT16_MAX in Hlong. lia.
Qed.

(** The size check of [qrcodegen_encodeText] *)
Lemma buffer_size mode n nbits bufLen : 0 <= n -> 0 <= nbits -> bufLen < SIZE_MAX ->
  (n <= INT16_MAX -> nbits <= INT16_MAX -> calcSegmentBitLength mode n = Some nbits) ->
  (~ (n <= INT16_MAX /\ nbits <= INT16_MAX) -> calcSegmentBitLength mode n = Some (-1)) ->
  exists size, qrcodegen_calcSegmentBufferSize mode n = Some size /\
    ((bufLen <? size) = false -> n <= INT16_MAX /\ nbits <= INT16_MAX /\ (nbits + 7) / 8 <= bufLen) /\
    ((bufLen <? size) = true -> 8 * bufLen < nbits \/ INT16_MAX < nbits \/ INT16_MAX < n).
Proof.
  intros Hn Hb Hlen Hyes Hno. unfold qrcodegen_calcSegmentBufferSize.
  destruct (Z.le_gt_cases n INT16_MAX); [destruct (Z.le_gt_cases nbits INT16_MAX)|].
  - rewrite Hyes by done. cbn [mbind option_bind]. rewrite (proj2 (Z.eqb_neq _ _)) by lia. pass_assert.
    eexists. split; [done|]. rewrite Z.ltb_ge, Z.ltb_lt. split; [done|]. intros Hlt. left. Z.to_euclidean_division_equations. lia.
  - rewrite Hno by lia. cbn. exists SIZE_MAX. split; [done|]. rewrite Z.ltb_ge. split; lia.
  - rewrite Hno by lia. cbn. exists SIZE_MAX. split; [done|]. rewrite Z.ltb_ge. split; lia.
Qed.

Lemma calc_numeric_long n : 0 <= n -> ~ (n <= INT16_MAX /\ (n * 10 + 2) / 3 <= INT16_MAX) ->
  calcSegmentBitLength qrcodegen_Mode_NUMERIC n = Some (-1).
Proof.
  intros Hn H. unfold calcSegmentBitLength. destruct (Z.ltb_spec INT16_MAX n); [done|]. modes.
  assert (0 <= (n * 10 + 2) / 3) by (apply Z.div_pos; lia). pass_assert. rewrite (proj2 (Z.ltb_lt _ _)) by lia. done.
Qed.

Lemma calc_alphanumeric_long n : 0 <= n -> ~ (n <= INT16_MAX /\ (n * 11 + 1) / 2 <= INT16_MAX) ->
  calcSegmentBitLength qrcodegen_Mode_ALPHANUMERIC n = Some (-1).
Proof.
  intros Hn H. unfold calcSegmentBitLength. destruct (Z.ltb_spec INT16_MAX n); [done|]. modes.
  assert (0 <= (n * 11 + 1) / 2) by (apply Z.div_pos; lia). pass_assert. rewrite (proj2 (Z.ltb_lt _ _)) by lia. done.
Qed.

Lemma calc_bytes_long n : 0 <= n -> INT16_MAX < n * 8 -> calcSegmentBitLength qrcodegen_Mode_BYTE n = Some (-1).
Proof.
  intros Hn H. unfold calcSegmentBitLength. destruct (Z.ltb_spec INT16_MAX n); [done|]. modes.
  pass_assert. rewrite (proj2 (Z.ltb_lt _ _)) by lia. done.
Qed.

(** The text copied to the front of the buffer *)
Lemma copy_text text temp : bytes_ok text -> (length text <= length temp)%nat ->
  foldm (fun i temp => c ← rd text i; wr temp i (u8 c)) (zrange 0 (Z.of_nat (length text))) temp =
  Some (text ++ drop (length text) temp).
Proof.
  intros Ht Hl. loop_invariant (fun n t => t = take n text ++ drop n temp).
  - intros n i t Hi ->. pose proof (lookup_lt_Some _ _ _ Hi) as Hlt. rewrite zrange_length in Hlt.
    rewrite zrange_lookup in Hi by done. injection Hi as <-. rewrite Z.add_0_l, rd_nat.
    destruct (lookup_lt_is_Some_2 text n) as [c Hc]; [lia|]. rewrite Hc. cbn [mbind option_bind].
    rewrite u8_id by apply (Forall_lookup_1 _ _ _ _ Ht Hc). destruct (lookup_lt_is_Some_2 temp n) as [d Hd]; [lia|].
    rewrite (drop_S _ _ _ Hd), wr_mid by (rewrite length_take; lia). eexists. split; [done|].
    by rewrite (take_S_r _ _ _ Hc), <- app_assoc.
  - done.
  - rewrite zrange_length, Z.sub_0_r, Nat2Z.id, firstn_all in Hinv. by subst.
Qed.

Section Text.
Context `{Uninit}.

Lemma encode_made p seg ecl minV maxV mask boost temp qr : call_ok ecl minV maxV mask temp qr ->
  is_segment p seg -> length (seg_data seg) = length temp -> bytes_ok (seg_data seg) ->
  outcome [p] ecl minV maxV mask boost temp qr
    (qrcodegen_encodeSegmentsAdvanced [seg] ecl minV maxV mask boost (seg_data seg) qr).
Proof.
  intros [Hv He Hm [Ht Lt] Hq] Hs Hl Hb.
  assert (Hcall : call_ok ecl minV maxV mask (seg_data seg) qr) by (constructor; try done; by rewrite Hl).
  pose proof (encode_spec [seg] [p] ecl minV maxV mask boost (seg_data seg) qr Hcall ltac:(by apply Forall2_cons_2)) as H'.
  unfold outcome, encodes in *. by rewrite Hl in H'.
Qed.

Lemma encode_fails ps ecl minV maxV mask boost temp qr : call_ok ecl minV maxV mask temp qr ->
  (forall w, minV <= w <= maxV -> ~ fits w ecl ps) ->
  outcome ps ecl minV maxV mask boost temp qr (encode_fail temp qr).
Proof.
  intros [(H1 & H2 & H3) _ _ _ [_ Lq]] Hno. right. split; [done|]. exists temp. unfold encode_fail. rewrite wr_some; [done|].
  pose proof (buffer_len_pos maxV). lia.
Qed.

(** [qrcodegen_encodeText] always ends, with a picture of the text or because it fits no version. *)
Theorem encodeText_spec text temp qr ecl minV maxV mask boost : text_ok text -> call_ok ecl minV maxV mask temp qr ->
  outcome (text_payloads text) ecl minV maxV mask boost temp qr
    (qrcodegen_encodeText text temp qr ecl minV maxV mask boost).
Proof.
  intros Htext Hcall. pose proof Hcall as [(H1 & H2 & H3) He _ [Ht Lt] [Hq Lq]]. unfold qrcodegen_encodeText.
  destruct (Z.eqb_spec (Z.of_nat (length text)) 0) as [E0|Hne].
  { destruct text; [|discriminate]. apply encode_spec; [done|constructor]. }
  set (n := Z.of_nat (length text)) in *. assert (0 <= n) by lia. set (bufLen := qrcodegen_BUFFER_LEN_FOR_VERSION maxV) in *.
  assert (HB : bufLen < SIZE_MAX).
  { pose proof (buffer_len_mono maxV 40 ltac:(lia)) as Hb. change (qrcodegen_BUFFER_LEN_FOR_VERSION 40) with 3918 in Hb. unfold SIZE_MAX. lia. }
  assert (Hlong : forall p, 8 * bufLen < Z.of_nat (length (payload_bits p)) \/ INT16_MAX < Z.of_nat (length (payload_bits p)) ->
    outcome [p] ecl minV maxV mask boost temp qr (encode_fail temp qr)).
  { intros p Hp. apply encode_fails; [done|]. intros w Hw. apply (too_many_bits p w ecl maxV); [lia|done..]. }
  assert (Htp : text_payloads text = if qrcodegen_isNumeric text then [PNumeric text]
    else if qrcodegen_isAlphanumeric text then [PAlphanumeric text] else [PBytes text]) by (unfold n in Hne; by destruct text).
  rewrite Htp. destruct (qrcodegen_isNumeric text) eqn:En; [|destruct (qrcodegen_isAlphanumeric text) eqn:Ea].
  - pose proof (numeric_bits_length text) as Hb. fold n in Hb.
    destruct (buffer_size qrcodegen_Mode_NUMERIC n ((n * 10 + 2) / 3) bufLen) as (size & -> & Hok & Hbad).
    { done. } { apply Z.div_pos; lia. } { done. } { intros; by apply calcSegmentBitLength_numeric. } { by apply calc_numeric_long. }
    cbn [mbind option_bind]. destruct (bufLen <? size).
    + apply (Hlong (PNumeric text)). cbn [payload_bits]. rewrite Hb. destruct (Hbad eq_refl) as [?|[?|Hn]]; [by left|by right|right].
      unfold INT16_MAX in *. Z.to_euclidean_division_equations. lia.
    + destruct (Hok eq_refl) as (Hn1 & Hn2 & Hn3).
      destruct (makeNumeric_spec text temp) as (seg & -> & Hs & Ls & Bs); [by apply isNumeric_ok|done|by rewrite Hb|rewrite Hb; lia|].
      cbn [mbind option_bind]. by apply encode_made.
  - pose proof (alphanumeric_bits_length text) as Hb. fold n in Hb.
    destruct (buffer_size qrcodegen_Mode_ALPHANUMERIC n ((n * 11 + 1) / 2) bufLen) as (size & -> & Hok & Hbad).
    { done. } { apply Z.div_pos; lia. } { done. } { intros; by apply calcSegmentBitLength_alphanumeric. } { by apply calc_alphanumeric_long. }
    cbn [mbind option_bind]. destruct (bufLen <? size).
    + apply (Hlong (PAlphanumeric text)). cbn [payload_bits]. rewrite Hb. destruct (Hbad eq_refl) as [?|[?|Hn]]; [by left|by right|right].
      unfold INT16_MAX in *. Z.to_euclidean_division_equations. lia.
    + destruct (Hok eq_refl) as (Hn1 & Hn2 & Hn3).
      destruct (makeAlphanumeric_spec text temp) as (seg & -> & Hs & Ls & Bs); [by apply isAlphanumeric_ok|done|by rewrite Hb|rewrite Hb; lia|].
      cbn [mbind option_bind]. by apply encode_made.
  - assert (Hb : bytes_ok text) by (revert Htext; apply List.Forall_impl; tauto).
    assert (Hbl : Z.of_nat (length (payload_bits (PBytes text))) = n * 8) by (cbn; rewrite bits_length; lia).
    destruct (Z.ltb_spec bufLen n).
    + apply (Hlong (PBytes text)). rewrite Hbl. left. lia.
    + unfold n at 1. rewrite copy_text by (done || lia). cbn [mbind option_bind]. set (t := text ++ drop (length text) temp).
      destruct (Z.le_gt_cases (n * 8) INT16_MAX) as [Hle|Hgt].
      * rewrite calcSegmentBitLength_bytes by done. cbn [mbind option_bind]. rewrite (proj2 (Z.eqb_neq _ _)) by lia.
        assert (Ls : length t = length temp) by (unfold t; rewrite length_app, length_drop; lia).
        apply (encode_made (PBytes text) {| seg_mode := _; seg_numChars := n; seg_data := t; seg_bitLength := n * 8 |}); [done| |done|].
        -- apply (is_segment_of (PBytes text)); [by rewrite Hbl|unfold payload_count; fold n; unfold INT16_MAX in *; lia|done|].
           exists (bits (drop (length text) temp)). apply bits_app.
        -- cbn [seg_data]. apply Forall_app. split; [done|by apply Forall_drop].
      * rewrite calc_bytes_long by (done || lia). cbn [mbind option_bind Z.eqb Pos.eqb].
        pose proof (Hlong (PBytes text)) as Ho. rewrite Hbl in Ho. specialize (Ho ltac:(right; lia)).
        destruct Ho as [(? & ? & ? & ? & ? & ? & ? & ? & Hx & _)|[Hno _]]; [exfalso; unfold encode_fail in Hx; by destruct (wr qr 0 0)|].
        right. split; [done|]. exists t. unfold encode_fail. rewrite wr_some; [done|]. pose proof (buffer_len_pos maxV ltac:(lia)) as Hbp. fold bufLen in Hbp. lia.
Qed.

(** [qrcodegen_encodeBinary], likewise *)
Theorem encodeBinary_spec data dataLen qr ecl minV maxV mask boost : call_ok ecl minV maxV mask data qr ->
  0 <= dataLen <= Z.of_nat (length data) ->
  outcome [PBytes (take (Z.to_nat dataLen) data)] ecl minV maxV mask boost data qr
    (qrcodegen_encodeBinary data dataLen qr ecl minV maxV mask boost).
Proof.
  intros Hcall Hn. pose proof Hcall as [(H1 & H2 & H3) He _ [Ht Lt] [Hq Lq]]. unfold qrcodegen_encodeBinary.
  set (d := take (Z.to_nat dataLen) data). assert (Hl : Z.of_nat (length d) = dataLen) by (unfold d; rewrite length_take; lia).
  assert (Hbl : Z.of_nat (length (payload_bits (PBytes d))) = dataLen * 8) by (cbn; rewrite bits_length; lia).
  destruct (Z.le_gt_cases (dataLen * 8) INT16_MAX) as [Hle|Hgt].
  - rewrite calcSegmentBitLength_bytes by (done || lia). cbn [mbind option_bind]. rewrite (proj2 (Z.eqb_neq _ _)) by lia.
    apply (encode_made (PBytes d) {| seg_mode := _; seg_numChars := dataLen; seg_data := data; seg_bitLength := dataLen * 8 |}); [done| |done|done].
    rewrite <- Hl at 1. apply (is_segment_of (PBytes d)); [by rewrite Hbl|cbn; unfold INT16_MAX in *; lia|done|].
    exists (bits (drop (Z.to_nat dataLen) data)). cbn [payload_bits]. rewrite <- bits_app. unfold d. by rewrite take_drop.
  - rewrite calc_bytes_long by (done || lia). cbn [mbind option_bind Z.eqb Pos.eqb].
    change (wr qr 0 0 ≫= λ qrcode, Some (false, data, qrcode)) with (encode_fail data qr). apply encode_fails; [done|].
    intros w Hw. apply (too_many_bits _ w ecl maxV); [lia|done|done|]. right. lia.
Qed.
End Text.
