(* ===== verification/QrRender.v ===== *)
(** * The QR code as text: tools/qrtext/qrcodegen.h and qrcodegen.c

    [qrcodegen] and [qrcodegen_c] draw a code with Unicode block characters,
    and qrcodegen.c is the command that prints the one or the other.  A [char]
    array is the list of its bytes; [*p++ = c] is [put], the pointer being an
    index of the array.  [screen] is what a terminal shows of the bytes: lines
    of cells with an upper and a lower half. *)

From Stdlib Require Import ZArith Lia List String.
From stdpp Require Import base tactics list numbers option.
From S2P Require Import Prelude QrArray QrSegments QrPayload QrGrid QrFunction QrFormat QrScan QrEncode.
From S2P Require Import QrEncoder QrText.
Local Open Scope Z_scope.

(** ** Rendering *)

Definition QRCODEGEN_TEXT_QUIET_ZONE : Z := 4.
Definition QRCODEGEN_TEXT_MAX_SIZE : Z := qrcodegen_VERSION_MAX * 4 + 17 + 2 * QRCODEGEN_TEXT_QUIET_ZONE.
Definition QRCODEGEN_TEXT_MAX_LEN : Z := QRCODEGEN_TEXT_MAX_SIZE * (QRCODEGEN_TEXT_MAX_SIZE * 6 + 1) + 1.

Definition QRCODEGEN_TEXT_COMPACT_QUIET_ZONE : Z := 4.
Definition QRCODEGEN_TEXT_COMPACT_MAX_SIZE : Z :=
  qrcodegen_VERSION_MAX * 4 + 17 + 2 * QRCODEGEN_TEXT_COMPACT_QUIET_ZONE.
Definition QRCODEGEN_TEXT_COMPACT_CELLS : Z := (QRCODEGEN_TEXT_COMPACT_MAX_SIZE + 1) / 2.
Definition QRCODEGEN_TEXT_COMPACT_MAX_LEN : Z :=
  QRCODEGEN_TEXT_COMPACT_CELLS * (QRCODEGEN_TEXT_COMPACT_CELLS * 6 + 1) + 1.

(** [*p++ = c] for each character of [s] *)
Definition put (s : list Z) : arr * Z -> option (arr * Z) :=
  foldm (fun c '(out, p) => out ← wr out p c; Some (out, p + 1)) s.

(** The UTF-8 bytes of U+2580, U+2584 and U+2588 *)
Definition upper_half : list Z := [0xE2; 0x96; 0x80].
Definition lower_half : list Z := [0xE2; 0x96; 0x84].
Definition full_block : list Z := [0xE2; 0x96; 0x88].
Definition blank : list Z := [32].

Definition cells : list (list Z) := [
  blank ++ blank; upper_half ++ blank; blank ++ upper_half; upper_half ++ upper_half;
  lower_half ++ blank; full_block ++ blank; lower_half ++ upper_half; full_block ++ upper_half;
  blank ++ lower_half; upper_half ++ lower_half; blank ++ full_block; upper_half ++ full_block;
  lower_half ++ lower_half; full_block ++ lower_half; lower_half ++ full_block; full_block ++ full_block
].

(** One module of [qrcodegen] *)
Definition render_module (qr : arr) (y x : Z) (o : arr * Z) : option (arr * Z) :=
  black ← qrcodegen_getModule qr x y;
  if (black : bool) then put (full_block ++ full_block) o else put (blank ++ blank) o.

(** One block of two by two modules of [qrcodegen_c] *)
Definition render_block (qr : arr) (y x : Z) (o : arr * Z) : option (arr * Z) :=
  let bits := 0 in
  b ← qrcodegen_getModule qr x y;
  let bits := if (b : bool) then Z.lor bits (Z.shiftl 1 0) else bits in
  b ← qrcodegen_getModule qr (x + 1) y;
  let bits := if (b : bool) then Z.lor bits (Z.shiftl 1 1) else bits in
  b ← qrcodegen_getModule qr x (y + 1);
  let bits := if (b : bool) then Z.lor bits (Z.shiftl 1 2) else bits in
  b ← qrcodegen_getModule qr (x + 1) (y + 1);
  let bits := if (b : bool) then Z.lor bits (Z.shiftl 1 3) else bits in
  c ← cells !! Z.to_nat bits;
  put c o.

Definition render_line (render : Z -> Z -> arr * Z -> option (arr * Z)) (xs : list Z) (y : Z) (o : arr * Z) : option (arr * Z) :=
  o ← foldm (render y) xs o;
  put [10] o.

Section Code.
Context `{Uninit}.

(** The encoder's two arrays, on the caller's stack *)
Definition encode_on_stack (text : list Z) : option (bool * arr * arr) :=
  let frame := uninit (2 * qrcodegen_BUFFER_LEN_MAX) in
  let temp := take (Z.to_nat qrcodegen_BUFFER_LEN_MAX) frame in
  let qr := drop (Z.to_nat qrcodegen_BUFFER_LEN_MAX) frame in
  qrcodegen_encodeText text temp qr qrcodegen_Ecc_LOW qrcodegen_VERSION_MIN qrcodegen_VERSION_MAX qrcodegen_Mask_AUTO true.

(** [Some None] is the result [NULL]; otherwise the bytes behind the result [out]. *)
Definition qrcodegen (text : option (list Z)) (out : option arr) : option (option arr) :=
  match text, out with
  | Some text, Some out =>
    r ← encode_on_stack text;
    let '(encoded, _, qr) := r in
    if negb encoded then Some None else
    size ← qrcodegen_getSize qr;
    let range := zrange (- QRCODEGEN_TEXT_QUIET_ZONE) (size + QRCODEGEN_TEXT_QUIET_ZONE) in
    p ← foldm (render_line (render_module qr) range) range (out, 0);
    out ← wr p.1 p.2 0;
    Some (Some out)
  | _, _ => Some None
  end.

Definition qrcodegen_c (text : option (list Z)) (out : option arr) : option (option arr) :=
  match text, out with
  | Some text, Some out =>
    r ← encode_on_stack text;
    let '(encoded, _, qr) := r in
    if negb encoded then Some None else
    size ← qrcodegen_getSize qr;
    let border := QRCODEGEN_TEXT_COMPACT_QUIET_ZONE in
    let range := zrange2 (- border) (size + border) in
    p ← foldm (render_line (render_block qr) range) range (out, 0);
    out ← wr p.1 p.2 0;
    Some (Some out)
  | _, _ => Some None
  end.

(** ** The command *)

(** [fputs]: the bytes before the terminator; there must be one. *)
Fixpoint fputs (s : arr) : option (list Z) :=
  match s with
  | [] => None
  | c :: s => if c =? 0 then Some [] else t ← fputs s; Some (c :: t)
  end.

(** The value returned and what is printed *)
Definition print_with (render : option (list Z) -> option arr -> option (option arr)) (len : Z) (text : list Z) :
    option (Z * list Z) :=
  qr ← render (Some text) (Some (replicate (Z.to_nat len) 0));
  match qr with
  | None => Some (0, [])
  | Some qr => printed ← fputs qr; Some (1, printed)
  end.

Definition print_compact : list Z -> option (Z * list Z) := print_with qrcodegen_c QRCODEGEN_TEXT_COMPACT_MAX_LEN.

Definition print_full : list Z -> option (Z * list Z) := print_with qrcodegen QRCODEGEN_TEXT_MAX_LEN.

(** An argument that asks for the compact form *)
Definition is_flag (arg : list Z) : bool :=
  bool_decide (arg = bytes_of_string "--compact") || bool_decide (arg = bytes_of_string "-c").

(** The arguments after the program's name *)
Fixpoint parse_args (args : list (list Z)) (compact : bool) (text : option (list Z)) : bool * option (list Z) :=
  match args with
  | [] => (compact, text)
  | arg :: args =>
    if is_flag arg then parse_args args true text
    else match text with
         | None => parse_args args compact (Some arg)
         | Some _ => (compact, None)
         end
  end.

Record command_result := { run_exit : Z; run_stdout : list Z; run_stderr : list Z }.

Definition usage_message (name : list Z) : list Z :=
  bytes_of_string "usage: " ++ name ++ bytes_of_string " [--compact|-c] <text>" ++ [10].

Definition too_long_message : list Z := bytes_of_string "error: text is too long to encode" ++ [10].

Definition main (name : list Z) (args : list (list Z)) : option command_result :=
  let '(compact, text) := parse_args args false None in
  match text with
  | None =>
    Some {| run_exit := 1; run_stdout := []; run_stderr := usage_message name |}
  | Some text =>
    p ← if compact then print_compact text else print_full text;
    if negb (p.1 =? 0) then Some {| run_exit := 0; run_stdout := p.2; run_stderr := [] |}
    else Some {| run_exit := 1; run_stdout := p.2; run_stderr := too_long_message |}
  end.
End Code.
