(* ===== verification/QrShow.v ===== *)
(** * What the QR code printer shows: tools/qrtext/qrcodegen.h and qrcodegen.c

    [screen] is what a terminal shows of printed bytes: lines of glyphs with an
    upper and a lower half.  Both renderers print [rendered] lines that [screen]
    gives back, inside the length the header promises ([qrcodegen_spec],
    [qrcodegen_c_spec]), and a QR code reader pointed at either screen finds the
    text ([full_scan], [compact_scan]). *)

From Stdlib Require Import ZArith Lia List.
From stdpp Require Import base tactics list numbers option.
From S2P Require Import Prelude QrArray QrSegments QrPayload QrGrid QrFunction QrFormat QrScan QrEncode.
From S2P Require Import QrEncoder QrText QrRender.
Local Open Scope Z_scope.

(** ** Glyphs and lines *)

(** The upper and the lower half of a character cell *)
Notation glyph := (bool * bool)%type.

Definition glyph_bytes (g : glyph) : list Z :=
  match g with
  | (false, false) => blank
  | (true, false) => upper_half
  | (false, true) => lower_half
  | (true, true) => full_block
  end.

Definition line_bytes (gs : list glyph) : list Z := concat (map glyph_bytes gs).

Definition rendered (rows : list (list glyph)) : list Z := concat (map (fun r => line_bytes r ++ [10]) rows).

(** The glyph whose last byte is [b] *)
Definition block_glyph (b : Z) : glyph := (negb (b =? 0x84), negb (b =? 0x80)).

Definition add_glyph (g : glyph) (rows : list (list glyph)) : list (list glyph) :=
  match rows with [] => [[g]] | r :: rows => (g :: r) :: rows end.

Fixpoint screen (s : list Z) : list (list glyph) :=
  match s with
  | [] => []
  | c :: t =>
    if c =? 10 then [] :: screen t
    else if c =? 32 then add_glyph (false, false) (screen t)
    else match t with _ :: b :: t => add_glyph (block_glyph b) (screen t) | _ => [] end
  end.

Lemma screen_line gs rest : screen (line_bytes gs ++ 10 :: rest) = gs :: screen rest.
Proof.
  induction gs as [|g gs IH]; [done|]. unfold line_bytes in *. cbn [map concat]. rewrite <- app_assoc.
  assert (E : forall t, screen (glyph_bytes g ++ t) = add_glyph g (screen t)) by (by destruct g as [[] []]). by rewrite E, IH.
Qed.

Lemma screen_rendered rows : screen (rendered rows) = rows.
Proof.
  induction rows as [|r rows IH]; [done|]. unfold rendered in *. cbn [map concat]. rewrite <- app_assoc.
  cbn [app]. by rewrite screen_line, IH.
Qed.

Lemma line_bytes_ok gs : Forall (fun c => c <> 0) (line_bytes gs).
Proof.
  apply Forall_concat, List.Forall_forall. intros s (g & <- & _)%in_map_iff.
  destruct g as [[] []]; repeat constructor; lia.
Qed.

Lemma rendered_ok rows : Forall (fun c => c <> 0) (rendered rows).
Proof.
  apply Forall_concat, List.Forall_forall. intros s (r & <- & _)%in_map_iff.
  apply Forall_app. split; [apply line_bytes_ok|by repeat constructor].
Qed.

Lemma line_length gs : (length (line_bytes gs) <= 3 * length gs)%nat.
Proof.
  induction gs as [|g gs IH]; [done|]. unfold line_bytes in *. cbn [map concat length]. rewrite length_app.
  destruct g as [[] []]; cbn [glyph_bytes length upper_half lower_half full_block blank]; lia.
Qed.

Lemma rendered_length rows w : Forall (fun r => (length r <= w)%nat) rows ->
  (length (rendered rows) <= length rows * (3 * w + 1))%nat.
Proof.
  induction 1 as [|r rows Hr Hrows IH]; [done|]. unfold rendered in *. cbn [map concat length]. rewrite !length_app.
  pose proof (line_length r). cbn [length]. lia.
Qed.

Lemma fputs_spec s rest : Forall (fun c => c <> 0) s -> fputs (s ++ 0 :: rest) = Some s.
Proof.
  induction 1 as [|c s Hc Hs IH]; [done|]. cbn [app fputs]. rewrite (proj2 (Z.eqb_neq _ _)) by done. by rewrite IH.
Qed.

(** ** Printing *)

Lemma put_app a b o : put (a ++ b) o = o ← put a o; put b o.
Proof. apply foldm_app. Qed.

(** A loop that prints. *)
Lemma foldm_put {I} (f : I -> arr * Z -> option (arr * Z)) (g : I -> list Z) l o :
  (forall i o, In i l -> f i o = put (g i) o) -> foldm f l o = put (concat (map g l)) o.
Proof.
  revert o. induction l as [|i l IH]; intros o Hf; [done|]. cbn [foldm map concat]. rewrite put_app, Hf by (by left).
  destruct (put (g i) o); [|done]. apply IH. intros. apply Hf. by right.
Qed.

Lemma put_spec s : forall pre old, (length s <= length old)%nat ->
  put s (pre ++ old, Z.of_nat (length pre)) = Some (pre ++ s ++ drop (length s) old, Z.of_nat (length (pre ++ s))).
Proof.
  induction s as [|c s IH]; intros pre old Hl; [by rewrite app_nil_r|].
  destruct old as [|d old]; [cbn in Hl; lia|]. unfold put. cbn [foldm]. rewrite wr_mid by done. cbn [mbind option_bind].
  specialize (IH (pre ++ [c]) old ltac:(cbn in Hl; lia)). unfold put in IH. rewrite <- !app_assoc in IH. cbn [app] in IH.
  replace (Z.of_nat (length pre) + 1) with (Z.of_nat (length (pre ++ [c]))) by (rewrite length_app; cbn; lia). exact IH.
Qed.

(** The array [out] after printing these lines and the terminator *)
Definition printed (rows : list (list glyph)) (out : arr) : arr :=
  rendered rows ++ 0 :: drop (S (length (rendered rows))) out.

Lemma put_all rows out : (length (rendered rows) < length out)%nat ->
  (p ← put (rendered rows) (out, 0); out ← wr p.1 p.2 0; Some (Some out)) = Some (Some (printed rows out)).
Proof.
  intros Hl. pose proof (put_spec (rendered rows) [] out ltac:(lia)) as E. cbn [app length] in E. change (Z.of_nat 0) with 0 in E.
  rewrite E. cbn [mbind option_bind fst snd]. destruct (lookup_lt_is_Some_2 out (length (rendered rows)) Hl) as [c Hc].
  rewrite (drop_S _ _ _ Hc), wr_mid by done. done.
Qed.

(** ** The two screens *)

(** Module [(x, y)] with the quiet zone around the image *)
Definition shown (n : Z) (image : Z -> Z -> bool) (x y : Z) : bool := in_bounds n x y && image x y.

Definition full_rows (n : Z) (image : Z -> Z -> bool) : list (list glyph) :=
  map (fun y => flat_map (fun x => let b := shown n image x y in [(b, b); (b, b)]) (zrange (-4) (n + 4))) (zrange (-4) (n + 4)).

Definition compact_rows (n : Z) (image : Z -> Z -> bool) : list (list glyph) :=
  map (fun y => flat_map (fun x => [(shown n image x y, shown n image x (y + 1));
    (shown n image (x + 1) y, shown n image (x + 1) (y + 1))]) (zrange2 (-4) (n + 4))) (zrange2 (-4) (n + 4)).

Lemma getModule_shown n q x y : grid n q -> qrcodegen_getModule q x y = Some (shown n (pix q) x y).
Proof.
  intros Hg. unfold shown. destruct (in_bounds n x y) eqn:E.
  - apply (qrcodegen_getModule_in n); [done|]. by apply in_bounds_spec.
  - apply (qrcodegen_getModule_out n); [done|]. by apply in_bounds_out.
Qed.

Lemma render_line_spec render xs y o row :
  (forall x o, render y x o = put (line_bytes (row x)) o) ->
  render_line render xs y o = put (line_bytes (flat_map row xs) ++ [10]) o.
Proof.
  intros Hr. unfold render_line. rewrite put_app. rewrite (foldm_put (render y) (fun x => line_bytes (row x))) by (intros; apply Hr).
  f_equal. f_equal. unfold line_bytes. rewrite flat_map_concat_map, concat_map, !map_map. clear Hr.
  induction xs as [|x xs IH]; [done|]. cbn [map concat]. by rewrite concat_app, IH.
Qed.

Lemma render_module_spec n q y x o : grid n q ->
  render_module q y x o = put (line_bytes (let b := shown n (pix q) x y in [(b, b); (b, b)])) o.
Proof. intros Hg. unfold render_module. rewrite (getModule_shown n) by done. cbv zeta. by destruct (shown n (pix q) x y). Qed.

Lemma render_block_spec n q y x o : grid n q ->
  render_block q y x o = put (line_bytes [(shown n (pix q) x y, shown n (pix q) x (y + 1));
    (shown n (pix q) (x + 1) y, shown n (pix q) (x + 1) (y + 1))]) o.
Proof.
  intros Hg. unfold render_block. rewrite !(getModule_shown n) by done.
  by destruct (shown n (pix q) x y), (shown n (pix q) (x + 1) y), (shown n (pix q) x (y + 1)), (shown n (pix q) (x + 1) (y + 1)).
Qed.

Lemma full_loop n q o : grid n q -> let range := zrange (- QRCODEGEN_TEXT_QUIET_ZONE) (n + QRCODEGEN_TEXT_QUIET_ZONE) in
  foldm (render_line (render_module q) range) range o = put (rendered (full_rows n (pix q))) o.
Proof.
  intros Hg range. unfold rendered, full_rows. rewrite map_map. apply foldm_put. intros y o' _.
  apply render_line_spec. intros x o''. by apply render_module_spec.
Qed.

Lemma compact_loop n q o : grid n q ->
  let range := zrange2 (- QRCODEGEN_TEXT_COMPACT_QUIET_ZONE) (n + QRCODEGEN_TEXT_COMPACT_QUIET_ZONE) in
  foldm (render_line (render_block q) range) range o = put (rendered (compact_rows n (pix q))) o.
Proof.
  intros Hg range. unfold rendered, compact_rows. rewrite map_map. apply foldm_put. intros y o' _.
  apply render_line_spec. intros x o''. by apply render_block_spec.
Qed.

(** ** Room *)

Lemma flat_map_pairs {A B} (f g : A -> B) l : length (flat_map (fun x => [f x; g x]) l) = (2 * length l)%nat.
Proof. induction l as [|x l IH]; [done|]. cbn [flat_map app length]. lia. Qed.

Lemma flat_map_lookup {A B} (f g : A -> B) l k : flat_map (fun x => [f x; g x]) l !! (2 * k)%nat = f <$> l !! k.
Proof.
  revert k. induction l as [|x l IH]; intros k; [done|]. cbn [flat_map app]. destruct k as [|k]; [done|].
  replace (2 * S k)%nat with (S (S (2 * k))) by lia. cbn [lookup list_lookup]. apply IH.
Qed.

Lemma zrange2_length a b : length (zrange2 a b) = Z.to_nat ((b - a + 1) / 2).
Proof. unfold zrange2. by rewrite length_map, zrange_length, Z.sub_0_r. Qed.

Lemma full_room n image : 21 <= n <= 177 ->
  Z.of_nat (length (rendered (full_rows n image))) < QRCODEGEN_TEXT_MAX_LEN.
Proof.
  intros Hn. pose proof (rendered_length (full_rows n image) (2 * Z.to_nat (n + 8))) as H.
  unfold full_rows in *. rewrite length_map, zrange_length in H.
  change QRCODEGEN_TEXT_MAX_LEN with (185 * (185 * 6 + 1) + 1).
  assert (Hr : Forall (fun r : list glyph => (length r <= 2 * Z.to_nat (n + 8))%nat) (full_rows n image)).
  { apply List.Forall_forall. intros r (y & <- & _)%in_map_iff. rewrite (flat_map_pairs (fun x => _) (fun x => _)), zrange_length. lia. }
  specialize (H Hr). nia.
Qed.

Lemma compact_room n image : 21 <= n <= 177 ->
  Z.of_nat (length (rendered (compact_rows n image))) < QRCODEGEN_TEXT_COMPACT_MAX_LEN.
Proof.
  intros Hn. pose proof (rendered_length (compact_rows n image) (2 * Z.to_nat ((n + 9) / 2))) as H.
  unfold compact_rows in *. rewrite length_map, zrange2_length in H. replace (n + 4 - -4 + 1) with (n + 9) in H by lia.
  change QRCODEGEN_TEXT_COMPACT_MAX_LEN with (93 * (93 * 6 + 1) + 1).
  assert (Hr : Forall (fun r : list glyph => (length r <= 2 * Z.to_nat ((n + 9) / 2))%nat) (compact_rows n image)).
  { apply List.Forall_forall. intros r (y & <- & _)%in_map_iff. rewrite (flat_map_pairs (fun x => _) (fun x => _)), zrange2_length.
    replace (n + 4 - -4 + 1) with (n + 9) by lia. lia. }
  specialize (H Hr). assert (15 <= (n + 9) / 2 <= 93) by (Z.to_euclidean_division_equations; lia). nia.
Qed.

(** ** Pointing a reader at a screen *)

Definition cell_at (s : list (list glyph)) (i j : Z) : glyph :=
  default (false, false) (r ← s !! Z.to_nat j; r !! Z.to_nat i).

(** On the full screen a module is two full glyphs, the quiet zone is four modules wide. *)
Definition read_full (s : list (list glyph)) (x y : Z) : bool := (cell_at s (2 * (x + 4)) (y + 4)).1.

Definition scan_full (s : list (list glyph)) : option (list payload) :=
  scan_qr (Z.of_nat (length s) - 8) (read_full s).

(** On the compact one a module is half a glyph; the lines show one row of modules too many. *)
Definition read_compact (s : list (list glyph)) (x y : Z) : bool :=
  let g := cell_at s (x + 4) ((y + 4) / 2) in if Z.even y then g.1 else g.2.

Definition scan_compact (s : list (list glyph)) : option (list payload) :=
  scan_qr (2 * Z.of_nat (length s) - 9) (read_compact s).

Lemma shown_inside n image x y : inside n x y -> shown n image x y = image x y.
Proof. intros Hin. unfold shown. by rewrite (proj2 (in_bounds_spec n x y)). Qed.

Lemma full_image n image x y : inside n x y -> read_full (full_rows n image) x y = image x y.
Proof.
  intros Hin. pose proof Hin as [Hx Hy]. unfold read_full, cell_at, full_rows.
  rewrite list_lookup_fmap, zrange_lookup by lia. cbn [fmap option_fmap option_map mbind option_bind].
  replace (Z.to_nat (2 * (x + 4))) with (2 * Z.to_nat (x + 4))%nat by lia.
  rewrite (flat_map_lookup (fun x => _) (fun x => _)), zrange_lookup by lia. cbn [fmap option_fmap option_map default fst].
  replace (-4 + Z.of_nat (Z.to_nat (x + 4))) with x by lia. replace (-4 + Z.of_nat (Z.to_nat (y + 4))) with y by lia.
  by apply shown_inside.
Qed.

(** Pairs of neighbours, a pair at every second index *)
Lemma neighbours {B} (f : Z -> B) k : flat_map (fun x => [f x; f (x + 1)]) (map (fun i => -4 + 2 * i) (zrange 0 (Z.of_nat k))) =
  map f (zrange (-4) (-4 + 2 * Z.of_nat k)).
Proof.
  induction k as [|k IH]; [done|]. rewrite Nat2Z.inj_succ. unfold Z.succ. rewrite zrange_snoc, map_app, flat_map_app, IH by lia.
  replace (-4 + 2 * (Z.of_nat k + 1)) with (-4 + 2 * Z.of_nat k + 1 + 1) by lia.
  rewrite !zrange_snoc, !map_app, <- app_assoc by lia. done.
Qed.

Lemma compact_image n image x y : n mod 2 = 1 -> inside n x y -> read_compact (compact_rows n image) x y = image x y.
Proof.
  intros Hodd Hin. pose proof Hin as [Hx Hy]. unfold read_compact, cell_at, compact_rows, zrange2.
  set (k := Z.to_nat ((n + 4 - -4 + 1) / 2)).
  assert (Hk : 2 * Z.of_nat k = n + 9) by (unfold k; rewrite Z2Nat.id by (apply Z.div_pos; lia); Z.to_euclidean_division_equations; lia).
  replace ((n + 4 - -4 + 1) / 2) with (Z.of_nat k) by (unfold k; rewrite Z2Nat.id; [done|apply Z.div_pos; lia]).
  assert (Hy2 : 0 <= (y + 4) / 2 < Z.of_nat k) by (Z.to_euclidean_division_equations; lia).
  rewrite !list_lookup_fmap, zrange_lookup by lia. cbn [fmap option_fmap option_map mbind option_bind].
  set (z := -4 + 2 * (0 + Z.of_nat (Z.to_nat ((y + 4) / 2)))).
  rewrite (neighbours (fun x => (shown n image x z, shown n image x (z + 1)))).
  rewrite list_lookup_fmap, zrange_lookup by lia. cbn [fmap option_fmap option_map default]. unfold id.
  replace (-4 + Z.of_nat (Z.to_nat (x + 4))) with x by lia.
  pose proof (Zmod_even y) as Hp. destruct (Z.even y); cbn [fst snd]; rewrite <- (shown_inside n image x y Hin); f_equal;
    unfold z; rewrite Z2Nat.id by lia; Z.to_euclidean_division_equations; lia.
Qed.

Lemma qrsize_odd v : version_ok v -> qrsize_of v mod 2 = 1 /\ 21 <= qrsize_of v <= 177.
Proof. unfold version_ok, qrsize_of. intros. split; [|lia]. Z.to_euclidean_division_equations. lia. Qed.

Lemma full_scan v image ps : version_ok v -> scan_qr (qrsize_of v) image = Some ps ->
  scan_full (full_rows (qrsize_of v) image) = Some ps.
Proof.
  intros Hv Hs. destruct (qrsize_odd v Hv). unfold scan_full. rewrite <- Hs. unfold full_rows at 1. rewrite length_map, zrange_length.
  replace (Z.of_nat (Z.to_nat (qrsize_of v + 4 - -4)) - 8) with (qrsize_of v) by lia.
  apply scan_ext; [|by exists v]. intros x y. apply full_image.
Qed.

Lemma compact_scan v image ps : version_ok v -> scan_qr (qrsize_of v) image = Some ps ->
  scan_compact (compact_rows (qrsize_of v) image) = Some ps.
Proof.
  intros Hv Hs. destruct (qrsize_odd v Hv) as [Hodd Hr]. unfold scan_compact. rewrite <- Hs. unfold compact_rows at 1. rewrite length_map, zrange2_length.
  replace (2 * Z.of_nat (Z.to_nat ((qrsize_of v + 4 - -4 + 1) / 2)) - 9) with (qrsize_of v).
  - apply scan_ext; [|by exists v]. intros x y. by apply compact_image.
  - rewrite Z2Nat.id by (apply Z.div_pos; lia). Z.to_euclidean_division_equations. lia.
Qed.

(** ** The renderers *)

#[local] Opaque qrcodegen_encodeText scan_qr.

Section Render.
Context `{Uninit}.

Lemma buffer_max : qrcodegen_BUFFER_LEN_MAX = 3918.
Proof. done. Qed.

(** The two arrays of [encode_on_stack] satisfy the encoder's demands. *)
Lemma stack_call : let frame := uninit (2 * qrcodegen_BUFFER_LEN_MAX) in
  call_ok qrcodegen_Ecc_LOW qrcodegen_VERSION_MIN qrcodegen_VERSION_MAX qrcodegen_Mask_AUTO
    (take (Z.to_nat qrcodegen_BUFFER_LEN_MAX) frame) (drop (Z.to_nat qrcodegen_BUFFER_LEN_MAX) frame).
Proof.
  intros frame. assert (Hl : length frame = Z.to_nat (2 * qrcodegen_BUFFER_LEN_MAX)) by by apply uninit_length.
  assert (Hb : bytes_ok frame) by apply uninit_bytes. rewrite buffer_max in *.
  constructor; [done|done|by left|split; [by apply Forall_take|]|split; [by apply Forall_drop|]];
    change (qrcodegen_BUFFER_LEN_FOR_VERSION qrcodegen_VERSION_MAX) with 3918; rewrite ?length_take, ?length_drop, Hl; lia.
Qed.

(** Some version has room for the text. *)
Definition text_fits (text : list Z) : Prop := exists w, version_ok w /\ fits w qrcodegen_Ecc_LOW (text_payloads text).

(** Either the text fits, and a grid that reads as the text is left, or the encoder says it does not. *)
Lemma encode_on_stack_spec text : text_ok text ->
  (text_fits text /\ exists temp qr v, encode_on_stack text = Some (true, temp, qr) /\ version_ok v /\
     grid (qrsize_of v) qr /\ scan_qr (qrsize_of v) (pix qr) = Some (text_payloads text)) \/
  (~ text_fits text /\ exists temp qr, encode_on_stack text = Some (false, temp, qr)).
Proof.
  intros Ht. pose proof stack_call as Hc. cbv zeta in Hc.
  destruct (encodeText_spec text _ _ _ _ _ _ true Ht Hc) as [(v & e & m & base & l & cw & temp & qr & He)|[Hno (temp & E)]]; [left|right].
  - pose proof He as (E & Hv & Hf & _ & _ & _ & _ & _ & _ & _ & _ & Hg & _).
    assert (Hvo : version_ok v) by (unfold version_ok; exact Hv). split; [by exists v|].
    exists temp, qr, v. split; [unfold encode_on_stack; cbv zeta; exact E|]. split; [done|]. split; [done|].
    destruct (text_payloads_ok text Ht) as [Hok Hcn].
    pose proof (encodes_decode _ _ _ _ _ _ _ _ _ _ _ _ _ _ _ _ _ ltac:(done) ltac:(done) Hok Hcn He) as Hd.
    unfold decode_qr in Hd. rewrite (proj1 Hg) in Hd. cbn [mbind option_bind] in Hd. exact Hd.
  - split; [|eexists temp, _; unfold encode_on_stack; cbv zeta; exact E]. intros (w & Hw & Hf). by apply (Hno w).
Qed.

(** The length of the text decides. *)
Definition text_limit (text : list Z) : Z :=
  if qrcodegen_isNumeric text then 7089 else if qrcodegen_isAlphanumeric text then 4296 else 2953.

(** The largest version has the most room. *)
Lemma largest_room p : payload_mode p <> qrcodegen_Mode_ECI -> payload_count p < 2 ^ count_bits (payload_mode p) 40 ->
  (exists w, version_ok w /\ fits w 0 [p]) <-> 4 + count_bits (payload_mode p) 40 + Z.of_nat (length (payload_bits p)) <= 23648.
Proof.
  intros Hm Hc. split.
  - intros (w & Hw & [_ Hf]). rewrite stream_length_cons in Hf by done. change (stream_length w []) with 0 in Hf.
    pose proof (all_versions (fun w => forallb (fun m => capacity w 0 * 8 - count_bits m w <=? 23648 - count_bits m 40) [1; 2; 4])
      ltac:(vm_compute; reflexivity) w Hw) as Hall. cbv beta in Hall. rewrite forallb_forall in Hall.
    specialize (Hall (payload_mode p)). rewrite Z.leb_le in Hall. specialize (Hall ltac:(destruct p; cbn in *; tauto)). lia.
  - intros Hl. exists 40. split; [done|]. split; [by constructor|]. rewrite stream_length_cons by done.
    change (stream_length 40 []) with 0. change (capacity 40 0 * 8) with 23648. lia.
Qed.

(** No version has a longer count. *)
Lemma long_count p w : version_ok w -> payload_mode p <> qrcodegen_Mode_ECI ->
  fits w 0 [p] -> payload_count p < 2 ^ count_bits (payload_mode p) 40.
Proof.
  intros Hw Hm [Hc _]. inversion_clear Hc as [|? ? Hp _].
  pose proof (all_versions (fun w => forallb (fun m => 2 ^ count_bits m w <=? 2 ^ count_bits m 40) [1; 2; 4])
    ltac:(vm_compute; reflexivity) w Hw) as Hall. cbv beta in Hall. rewrite forallb_forall in Hall.
  specialize (Hall (payload_mode p)). rewrite Z.leb_le in Hall. specialize (Hall ltac:(destruct p; cbn in *; tauto)). lia.
Qed.

Lemma fits_limit p limit : payload_mode p <> qrcodegen_Mode_ECI ->
  (4 + count_bits (payload_mode p) 40 + Z.of_nat (length (payload_bits p)) <= 23648 <-> payload_count p <= limit) ->
  limit < 2 ^ count_bits (payload_mode p) 40 ->
  (exists w, version_ok w /\ fits w 0 [p]) <-> payload_count p <= limit.
Proof.
  intros Hm Hl Hlim. split.
  - intros Hf. apply Hl, largest_room; [done| |done]. destruct Hf as (w & Hw & Hf). by apply (long_count p w).
  - intros Hc. apply largest_room; [done|lia|by apply Hl].
Qed.

Lemma text_fits_limit text : text_fits text <-> Z.of_nat (length text) <= text_limit text.
Proof.
  unfold text_fits, text_limit, text_payloads. destruct text as [|c t].
  { split; [cbn; lia|]. intros _. exists 40. split; [done|]. split; [constructor|]. cbn. done. }
  set (text := c :: t). destruct (qrcodegen_isNumeric text); [|destruct (qrcodegen_isAlphanumeric text)].
  - apply (fits_limit (PNumeric text)); [done| |done]. cbn [payload_count payload_bits payload_mode].
    rewrite numeric_bits_length. change (count_bits _ 40) with 14. Z.to_euclidean_division_equations. lia.
  - apply (fits_limit (PAlphanumeric text)); [done| |done]. cbn [payload_count payload_bits payload_mode].
    rewrite alphanumeric_bits_length. change (count_bits _ 40) with 13. Z.to_euclidean_division_equations. lia.
  - apply (fits_limit (PBytes text)); [done| |done]. cbn [payload_count payload_bits payload_mode].
    rewrite bits_length. change (count_bits _ 40) with 16. lia.
Qed.

(** ** The two renderers *)

Lemma qrcodegen_spec text out : text_ok text -> QRCODEGEN_TEXT_MAX_LEN <= Z.of_nat (length out) ->
  (text_fits text /\ exists rows, qrcodegen (Some text) (Some out) = Some (Some (printed rows out)) /\
     Z.of_nat (length (rendered rows)) < QRCODEGEN_TEXT_MAX_LEN /\ scan_full rows = Some (text_payloads text)) \/
  (~ text_fits text /\ qrcodegen (Some text) (Some out) = Some None).
Proof.
  intros Ht Ho. unfold qrcodegen.
  destruct (encode_on_stack_spec text Ht) as [(Hf & temp & qr & v & -> & Hv & Hg & Hs)|[Hf (temp & qr & ->)]]; cbn [mbind option_bind negb]; [left|by right].
  split; [done|]. pose proof (full_room (qrsize_of v) (pix qr) ltac:(by apply qrsize_odd)) as Hroom.
  exists (full_rows (qrsize_of v) (pix qr)). split; [|split; [done|by apply full_scan]].
  rewrite (getSize_grid (qrsize_of v)) by done. cbn [mbind option_bind]. rewrite full_loop by done. apply put_all. lia.
Qed.

Lemma qrcodegen_c_spec text out : text_ok text -> QRCODEGEN_TEXT_COMPACT_MAX_LEN <= Z.of_nat (length out) ->
  (text_fits text /\ exists rows, qrcodegen_c (Some text) (Some out) = Some (Some (printed rows out)) /\
     Z.of_nat (length (rendered rows)) < QRCODEGEN_TEXT_COMPACT_MAX_LEN /\ scan_compact rows = Some (text_payloads text)) \/
  (~ text_fits text /\ qrcodegen_c (Some text) (Some out) = Some None).
Proof.
  intros Ht Ho. unfold qrcodegen_c.
  destruct (encode_on_stack_spec text Ht) as [(Hf & temp & qr & v & -> & Hv & Hg & Hs)|[Hf (temp & qr & ->)]]; cbn [mbind option_bind negb]; [left|by right].
  split; [done|]. pose proof (compact_room (qrsize_of v) (pix qr) ltac:(by apply qrsize_odd)) as Hroom.
  exists (compact_rows (qrsize_of v) (pix qr)). split; [|split; [done|by apply compact_scan]].
  rewrite (getSize_grid (qrsize_of v)) by done. cbn [mbind option_bind]. rewrite compact_loop by done. apply put_all. lia.
Qed.

(** ** The command *)

(** What a print function does with a text: the screen it prints shows the text. *)
Definition prints (scan : list (list glyph) -> option (list payload)) (text : list Z) (r : option (Z * list Z)) : Prop :=
  (text_fits text /\ exists out, r = Some (1, out) /\ scan (screen out) = Some (text_payloads text)) \/
  (~ text_fits text /\ r = Some (0, [])).

Lemma fputs_printed rows out : fputs (printed rows out) = Some (rendered rows).
Proof. apply fputs_spec, rendered_ok. Qed.

Lemma print_full_spec text : text_ok text -> prints scan_full text (print_full text).
Proof.
  intros Ht. unfold print_full, print_with, prints.
  destruct (qrcodegen_spec text (replicate (Z.to_nat QRCODEGEN_TEXT_MAX_LEN) 0) Ht) as [(Hf & rows & -> & _ & Hs)|[Hf ->]]; [|left|right; done].
  { rewrite length_replicate, Z2Nat.id; done. }
  split; [done|]. cbn [mbind option_bind]. rewrite fputs_printed. exists (rendered rows). split; [done|]. by rewrite screen_rendered.
Qed.

Lemma print_compact_spec text : text_ok text -> prints scan_compact text (print_compact text).
Proof.
  intros Ht. unfold print_compact, print_with, prints.
  destruct (qrcodegen_c_spec text (replicate (Z.to_nat QRCODEGEN_TEXT_COMPACT_MAX_LEN) 0) Ht) as [(Hf & rows & -> & _ & Hs)|[Hf ->]]; [|left|right; done].
  { rewrite length_replicate, Z2Nat.id; done. }
  split; [done|]. cbn [mbind option_bind]. rewrite fputs_printed. exists (rendered rows). split; [done|]. by rewrite screen_rendered.
Qed.
End Render.

(** The arguments are right when exactly one is no flag. *)
Definition texts (args : list (list Z)) : list (list Z) := filter (fun a => is_flag a = false) args.

Lemma parse_args_spec args : forall compact text,
  (parse_args args compact text).2 = match option_list text ++ texts args with [t] => Some t | _ => None end /\
  (length (option_list text ++ texts args) <= 1 -> (parse_args args compact text).1 = compact || existsb is_flag args)%nat.
Proof.
  induction args as [|a args IH]; intros compact text.
  { unfold texts. cbn. rewrite app_nil_r, orb_false_r. by destruct text. }
  unfold texts. cbn [parse_args existsb]. rewrite filter_cons. fold (texts args). destruct (is_flag a) eqn:Ef.
  - rewrite decide_False by done. destruct (IH true text) as [-> H2]. split; [done|]. intros Hl. rewrite (H2 Hl). by rewrite orb_true_r.
  - rewrite decide_True by done. destruct text as [t|].
    + split; [done|]. intros Hl. cbn in Hl. lia.
    + destruct (IH compact (Some a)) as [-> H2]. split; [done|]. intros Hl. by rewrite (H2 Hl).
Qed.
