(* ===== verification/QrTheorems.v ===== *)
(** * The QR code printer: theorems *)

From Stdlib Require Import ZArith Lia List.
From stdpp Require Import base tactics list numbers option.
From S2P Require Import Prelude QrArray QrField QrSegments QrPayload QrGrid QrFunction QrFormat QrCodewords.
From S2P Require Import QrData QrDraw QrEncode QrScan QrEncoder QrText QrRender QrShow.
Local Open Scope Z_scope.

(** ** Shared steps *)

(** When something fits, the outcome is a picture. *)
Lemma outcome_fits ps ecl minV maxV mask boost temp qr r : outcome ps ecl minV maxV mask boost temp qr r ->
  (exists w, minV <= w <= maxV /\ fits w ecl ps) ->
  exists v e m base l cw temp' qr', encodes ps ecl minV maxV mask boost temp qr r v e m base l cw temp' qr'.
Proof. intros [He|[Hno _]] (w & Hw & Hf); [done|]. by destruct (Hno w). Qed.

Lemma word_at_length l cw i : 0 <= block_len l i + lay_ecc l -> Z.of_nat (length (word_at l cw i)) = block_len l i + lay_ecc l.
Proof. intros Hl. unfold word_at. rewrite length_map, zrange_length. lia. Qed.

Lemma word_at_bytes l cw i : bytes_ok cw -> bytes_ok (word_at l cw i).
Proof.
  intros Hb. unfold bytes_ok. apply List.Forall_forall. intros c (j & <- & _)%in_map_iff.
  destruct (nth_in_or_default (Z.to_nat (codeword_pos l i j)) cw 0) as [Hin| ->]; [|unfold is_u8; lia].
  unfold bytes_ok in Hb. rewrite List.Forall_forall in Hb. by apply Hb.
Qed.

Lemma filter_all_cells {A} (f g : A -> bool) l : (forall x, In x l -> f x = g x) -> List.filter f l = List.filter g l.
Proof.
  induction l as [|x l IH]; intros H; [done|]. cbn [List.filter]. rewrite H by (by left). rewrite IH; [done|]. intros. apply H. by right.
Qed.

Section Theorems.
Context `{Uninit}.

(** ** The command *)

(** C7: the command, run with arguments of C strings and whatever its stack
    holds, never leaves an array: with one text of at most 7089 digits, 4296
    characters of the alphanumeric set or 2953 bytes it prints a screen on
    which a reader finds exactly that text, compact when a flag asks for it,
    and exits with 0; a longer text ends with the error message and no output,
    and any other number of texts with the usage. *)
Theorem printer_shows_text name args : Forall text_ok args ->
  match texts args with
  | [text] =>
    if Z.of_nat (length text) <=? text_limit text then
      exists out ps, main name args = Some {| run_exit := 0; run_stdout := out; run_stderr := [] |} /\
        (if existsb is_flag args then scan_compact else scan_full) (screen out) = Some ps /\ payloads_text ps = text
    else main name args = Some {| run_exit := 1; run_stdout := []; run_stderr := too_long_message |}
  | _ => main name args = Some {| run_exit := 1; run_stdout := []; run_stderr := usage_message name |}
  end.
Proof.
  intros Hargs. destruct (parse_args_spec args false None) as [Ht Hc]. cbn [option_list app] in *. unfold main.
  destruct (parse_args args false None) as [compact text]. cbn [fst snd] in *. subst text.
  destruct (texts args) as [|text [|]] eqn:E; [done| |done]. rewrite (Hc ltac:(cbn; lia)). change (option_list None ++ [text]) with [text]. cbv beta iota delta [orb].
  assert (Hok : text_ok text).
  { rewrite List.Forall_forall in Hargs. apply Hargs. apply list_elem_of_In. apply (list_elem_of_filter (fun a => is_flag a = false)).
    fold (texts args). rewrite E. apply list_elem_of_here. }
  assert (Hp : prints (if existsb is_flag args then scan_compact else scan_full) text
    (if existsb is_flag args then print_compact text else print_full text)).
  { destruct (existsb is_flag args); [by apply print_compact_spec|by apply print_full_spec]. }
  destruct Hp as [(Hf & out & -> & Hs)|[Hf ->]]; rewrite text_fits_limit in Hf.
  - rewrite (proj2 (Z.leb_le _ _)) by done. exists out, (text_payloads text). split; [done|]. split; [done|apply text_payloads_text].
  - rewrite (proj2 (Z.leb_gt _ _)) by lia. done.
Qed.

(** C8: [qrcodegen_encodeText] ends on every C string and every contents of its
    buffers.  When some version in range has room it returns [true] and leaves
    a grid that reads back as the text, at the first such version and at the
    highest level boosting can give there; otherwise it returns [false] and
    clears the size byte. *)
Theorem text_reads_back text temp qr ecl minV maxV mask boost : text_ok text -> call_ok ecl minV maxV mask temp qr ->
  (exists v e temp' qr' ps,
     qrcodegen_encodeText text temp qr ecl minV maxV mask boost = Some (true, temp', qr') /\
     minV <= v <= maxV /\ rd qr' 0 = Some (qrsize_of v) /\ length qr' = length qr /\
     (forall w, minV <= w < v -> ~ fits w ecl (text_payloads text)) /\ boosted boost v ecl (text_payloads text) e /\
     decode_qr qr' = Some ps /\ payloads_text ps = text) \/
  ((forall w, minV <= w <= maxV -> ~ fits w ecl (text_payloads text)) /\
   exists temp', qrcodegen_encodeText text temp qr ecl minV maxV mask boost = Some (false, temp', <[0%nat := 0]> qr)).
Proof.
  intros Ht Hcall. destruct (text_payloads_ok text Ht) as [Hok Hcn]. pose proof (call_versions _ _ _ _ _ _ Hcall) as (H1 & _ & H2).
  destruct (encodeText_spec text temp qr ecl minV maxV mask boost Ht Hcall) as [(v & e & m & base & l & cw & temp' & qr' & He)|Hlong]; [left|right; done].
  pose proof (encodes_decode _ _ _ _ _ _ _ _ _ _ _ _ _ _ _ _ _ H1 H2 Hok Hcn He) as Hd.
  destruct He as (E & Hv & _ & Hmin & _ & Hb & _ & _ & _ & _ & _ & [Hsize _] & Hlen & _).
  exists v, e, temp', qr', (text_payloads text). split; [done|]. split; [done|]. split; [done|]. split; [done|]. split; [done|]. split; [done|]. split; [done|apply text_payloads_text].
Qed.

(** C33: with [qrcodegen_Mask_AUTO] the grid left is drawn with the first of the
    eight masks whose penalty is least. *)
Theorem mask_is_best ps segs ecl minV maxV boost temp qr : call_ok ecl minV maxV qrcodegen_Mask_AUTO temp qr ->
  Forall2 is_segment ps segs -> (exists w, minV <= w <= maxV /\ fits w ecl ps) ->
  exists v e m base temp' qr' p,
    qrcodegen_encodeSegmentsAdvanced segs ecl minV maxV qrcodegen_Mask_AUTO boost temp qr = Some (true, temp', qr') /\
    (forall x y, inside (qrsize_of v) x y -> qrcodegen_getModule qr' x y = Some (final_image v e m base x y)) /\
    0 <= m < 8 /\ getPenaltyScore qr' = Some p /\
    forall m', 0 <= m' < 8 -> exists p', score (qrsize_of v) (final_image v e m' base) = Some p' /\ p <= p' /\ (m' < m -> p < p').
Proof.
  intros Hcall Hs Hfit. pose proof (encode_spec segs ps ecl minV maxV qrcodegen_Mask_AUTO boost temp qr Hcall Hs) as Ho.
  destruct (outcome_fits _ _ _ _ _ _ _ _ _ Ho Hfit) as (v & e & m & base & l & cw & temp' & qr' & He).
  destruct He as (E & _ & _ & _ & _ & _ & _ & _ & _ & Hbest & _ & Hg & _ & _ & Hpix).
  destruct (Hbest eq_refl) as (p & Hm & Hp & Hleast). exists v, e, m, base, temp', qr', p. split; [done|]. split; [|split; [done|split; [|done]]].
  - intros x y Hin. rewrite (qrcodegen_getModule_in (qrsize_of v)) by done. by rewrite Hpix.
  - rewrite (score_grid (qrsize_of v)) by done. rewrite <- Hp. apply penalty_with_ext. intros x y.
    destruct (in_bounds (qrsize_of v) x y) eqn:Eb; [|done]. by rewrite Hpix by (by apply in_bounds_spec).
Qed.

(** C32: on the data modules of a drawn code, unmasked and read in zigzag order,
    are blocks that are Reed-Solomon codewords: no other word with the block's
    roots is within as many symbols of it as the block has check symbols, so
    half as many wrong ones can be put right.  Put together, the blocks' data
    is the stream of the segments, terminated and padded. *)
Theorem blocks_correctable ps segs ecl minV maxV mask boost temp qr : call_ok ecl minV maxV mask temp qr ->
  Forall2 is_segment ps segs -> (exists w, minV <= w <= maxV /\ fits w ecl ps) ->
  exists v e m l cw temp' qr',
    qrcodegen_encodeSegmentsAdvanced segs ecl minV maxV mask boost temp qr = Some (true, temp', qr') /\
    layout_of v e = Some l /\
    (forall k x y, data_cells v !! k = Some (x, y) -> Z.of_nat k < 8 * lay_raw l ->
       bits cw !! k = Some (xorb (pix qr' x y) (mask_bit m x y))) /\
    bits (deinterleave l cw) = stream v ps ++ trailer (lay_data l * 8) (stream_length v ps) /\
    forall i, 0 <= i < lay_blocks l -> forall u, length u = length (word_at l cw i) -> bytes_ok u ->
      (forall k, (k < Z.to_nat (lay_ecc l))%nat -> eval u (alpha k) = 0) ->
      u <> word_at l cw i -> (Z.to_nat (lay_ecc l) < distance u (word_at l cw i))%nat.
Proof.
  intros Hcall Hs Hfit. pose proof (encode_spec segs ps ecl minV maxV mask boost temp qr Hcall Hs) as Ho.
  pose proof (call_versions _ _ _ _ _ _ Hcall) as (H1 & _ & H2).
  destruct (outcome_fits _ _ _ _ _ _ _ _ _ Ho Hfit) as (v & e & m & base & l & cw & temp' & qr' & He).
  destruct He as (E & Hv & _ & _ & He & _ & _ & Hm & _ & _ & [Hl Hb Hlen Hc Hd Hw] & Hg & _ & _ & Hpix).
  assert (Hvo : version_ok v) by (unfold version_ok; lia).
  destruct (layout_spec v e Hvo He) as (l' & El & Hok). rewrite Hl in El. injection El as <-.
  exists v, e, m, l, cw, temp', qr'. split; [done|]. split; [done|]. split; [|split; [done|]].
  - intros k x y Hk Hlt. rewrite (Hc k (x, y) Hk Hlt). cbn [fst snd]. f_equal.
    assert (Hin : In (x, y) (data_cells v)) by (apply list_elem_of_In; by apply list_elem_of_lookup_2 in Hk).
    apply In_data_cells in Hin as [Hin Hf]; [|done]. rewrite Hpix, final_data by done. by destruct (base x y), (mask_bit m x y).
  - intros i Hi u Hu Hub Hroots Hne. pose proof (lo_word v l Hok). pose proof (lo_ecc v l Hok). pose proof (lo_short_len v l Hok).
    pose proof (block_len_range l i). apply codeword_distance; [done| |done|by apply word_at_bytes|done|by apply Hw|done].
    pose proof (word_at_length l cw i ltac:(lia)). lia.
Qed.

(** ** The parts *)

(** [getNumRawDataModules] is the number of modules that
    [initializeFunctionModules] leaves white, at each version. *)
Theorem raw_modules_exact v q : version_ok v -> bytes_ok q -> qrcodegen_BUFFER_LEN_FOR_VERSION v <= Z.of_nat (length q) ->
  exists q', initializeFunctionModules v q = Some q' /\ rd q' 0 = Some (qrsize_of v) /\
    getNumRawDataModules v = Some (Z.of_nat (length (List.filter
      (fun c => match qrcodegen_getModule q' c.1 c.2 with Some black => negb black | None => false end)
      (list_prod (zrange 0 (qrsize_of v)) (zrange 0 (qrsize_of v)))))).
Proof.
  intros Hv Hq Hl. destruct (initialize_spec v q Hv Hq) as (q' & E & Hg & _ & Hpix); [exact Hl|].
  exists q'. split; [done|]. split; [apply Hg|]. rewrite data_cells_count by done. do 2 f_equal.
  set (n := qrsize_of v) in *. rewrite (filter_all_cells _ (fun c => negb (is_function v c.1 c.2)) (list_prod _ _)).
  - apply NoDup_same_length; [by apply NoDup_data_cells|apply List.NoDup_filter, NoDup_prod; apply NoDup_ListNoDup, NoDup_zrange|].
    intros [x y]. rewrite In_data_cells, filter_In, in_prod_iff, !In_zrange, negb_true_iff by done. done.
  - intros [x y] [Hx Hy]%in_prod_iff. apply In_zrange in Hx, Hy. cbn [fst snd].
    rewrite (qrcodegen_getModule_in n) by (done || by split). by rewrite Hpix by (by split).
Qed.

(** C34: for each degree the generator uses, [reedSolomonComputeDivisor] and
    [reedSolomonComputeRemainder] end on arrays of any contents with room, and
    what they compute is a code: two different data words of one length, each
    with its remainder behind, differ in more symbols than the degree, up to
    255 symbols in all. *)
Theorem reed_solomon_distance degree divisor : 1 <= degree <= qrcodegen_REED_SOLOMON_DEGREE_MAX ->
  degree <= Z.of_nat (length divisor) ->
  exists g, reedSolomonComputeDivisor degree divisor = Some g /\
  forall d1 d2 res, bytes_ok d1 -> bytes_ok d2 -> length d1 = length d2 -> d1 <> d2 ->
    Z.of_nat (length d1) + degree <= 255 -> degree <= Z.of_nat (length res) ->
    exists e1 e2,
      reedSolomonComputeRemainder d1 (Z.of_nat (length d1)) g degree res = Some (e1 ++ drop (Z.to_nat degree) res) /\
      reedSolomonComputeRemainder d2 (Z.of_nat (length d2)) g degree res = Some (e2 ++ drop (Z.to_nat degree) res) /\
      length e1 = Z.to_nat degree /\ length e2 = Z.to_nat degree /\
      (Z.to_nat degree < distance (d1 ++ e1) (d2 ++ e2))%nat.
Proof.
  unfold qrcodegen_REED_SOLOMON_DEGREE_MAX. intros Hd Hl.
  destruct (divisor_spec degree divisor Hd Hl) as (g & Hg & E). exists (g ++ drop (Z.to_nat degree) divisor). split; [done|].
  intros d1 d2 res H1 H2 Hlen Hne H255 Hr.
  assert (Hrem : forall d, bytes_ok d -> exists e, reedSolomonComputeRemainder d (Z.of_nat (length d)) (g ++ drop (Z.to_nat degree) divisor) degree res =
    Some (e ++ drop (Z.to_nat degree) res) /\ length e = Z.to_nat degree /\ bytes_ok e /\
    forall i, (i < Z.to_nat degree)%nat -> eval (d ++ e) (alpha i) = 0).
  { intros d Hb. destruct (remainder_spec d (Z.of_nat (length d)) (Z.to_nat degree) g (drop (Z.to_nat degree) divisor) res Hg Hb)
      as (e & Ee & He); [lia..|]. rewrite Z2Nat.id in Ee by lia. rewrite Nat2Z.id, firstn_all in He. by exists e. }
  destruct (Hrem d1 H1) as (e1 & -> & L1 & B1 & R1), (Hrem d2 H2) as (e2 & -> & L2 & B2 & R2).
  exists e1, e2. split; [done|]. split; [done|]. split; [done|]. split; [done|].
  apply codeword_distance; [rewrite !length_app; lia|rewrite length_app; lia|by apply Forall_app|by apply Forall_app|done|done|].
  intros Eq. apply Hne. by apply (app_inj_1 d1 d2 e1 e2).
Qed.

(** a segment made of digits, of alphanumeric characters, of bytes or of an
    ECI value, in any buffer with room for its bits, holds bits that read back
    as what it was made of, and nothing else. *)
Theorem segments_read_back p buf : payload_ok p -> bytes_ok buf ->
  Z.of_nat (length (payload_bits p)) <= INT16_MAX -> Z.of_nat (length (payload_bits p)) <= 8 * Z.of_nat (length buf) ->
  exists seg,
    match p with
    | PNumeric digits => qrcodegen_makeNumeric digits buf
    | PAlphanumeric text => qrcodegen_makeAlphanumeric text buf
    | PBytes data => qrcodegen_makeBytes data (Z.of_nat (length data)) buf
    | PEci assignVal => qrcodegen_makeEci assignVal buf
    end = Some seg /\ length (seg_data seg) = length buf /\
    parse_payload (seg_mode seg) (Z.to_nat (seg_numChars seg)) (take (Z.to_nat (seg_bitLength seg)) (bits (seg_data seg))) = Some (p, []).
Proof.
  intros Hp Hb Hn Hl.
  assert (Hround : forall n m, n <= 8 * m -> (n + 7) / 8 <= m) by (intros; Z.to_euclidean_division_equations; lia).
  assert (Hm : made p buf match p with
    | PNumeric digits => qrcodegen_makeNumeric digits buf
    | PAlphanumeric text => qrcodegen_makeAlphanumeric text buf
    | PBytes data => qrcodegen_makeBytes data (Z.of_nat (length data)) buf
    | PEci assignVal => qrcodegen_makeEci assignVal buf
    end).
  { destruct p as [t|t|t|v]; cbn [payload_ok payload_bits] in *.
    - apply makeNumeric_spec; [done..|by apply Hround].
    - apply makeAlphanumeric_spec; [done..|by apply Hround].
    - rewrite bits_length in *. apply makeBytes_spec; [done|done|lia|lia].
    - by apply makeEci_spec. }
  destruct Hm as (seg & E & (Hmode & Hnum & Hlen & (rest & Hbits) & _) & Hsize & _). exists seg. split; [exact E|]. split; [done|].
  rewrite Hmode, Hnum, Hlen, Hbits, Nat2Z.id, take_app_length, <- (app_nil_r (payload_bits p)). by apply parse_payload_bits.
Qed.

(** [drawFormatBits] changes no module outside the format's, and the level
    and mask read back from its first copy; the words of different levels or
    masks differ in at least seven of their fifteen bits, so up to three
    modules read wrong leave no doubt. *)
Theorem format_reads_back v ecl mask q : version_ok v -> ecl_ok ecl -> mask_ok mask -> grid (qrsize_of v) q ->
  exists q', drawFormatBits ecl mask q = Some q' /\ grid (qrsize_of v) q' /\
    (forall x y, inside (qrsize_of v) x y -> is_function v x y = false -> pix q' x y = pix q x y) /\
    format_ecl (format_read (pix q')) = ecl /\ format_mask (format_read (pix q')) = mask /\
    forall ecl2 mask2 q2, ecl_ok ecl2 -> mask_ok mask2 -> (ecl2, mask2) <> (ecl, mask) ->
      drawFormatBits ecl2 mask2 q = Some q2 -> (7 <= bit_distance 15 (format_read (pix q')) (format_read (pix q2)))%nat.
Proof.
  intros Hv He Hm Hg. destruct (qrsize_odd v Hv) as [_ Hn].
  assert (Hread : forall e m, ecl_ok e -> mask_ok m -> exists q', drawFormatBits e m q = Some q' /\ grid (qrsize_of v) q' /\
    (forall x y, inside (qrsize_of v) x y -> pix q' x y = default (pix q x y) (painted (format_ops (qrsize_of v) (format_word (format_data e m))) x y)) /\
    format_read (pix q') = format_word (format_data e m)).
  { intros e m He' Hm'. destruct (drawFormat_spec (qrsize_of v) e m q He' Hm' Hg) as (q' & E & Hg' & _ & Hpix). exists q'.
    split; [done|]. split; [done|]. split; [done|]. apply format_read_spec; [by apply format_words|]. intros i Hi.
    destruct (format_cells_inside (qrsize_of v) i) as [Hin _]; [lia|done|]. rewrite Hpix by done.
    destruct (painted_format (qrsize_of v) (format_word (format_data e m)) i) as [-> _]; [lia|done|done]. }
  destruct (Hread ecl mask He Hm) as (q' & E & Hg' & Hpix & Hr). exists q'. split; [done|]. split; [done|].
  destruct (format_decode ecl mask He Hm) as [Dm De]. split; [|split; [by rewrite Hr|split; [by rewrite Hr|]]].
  - intros x y Hin Hf. rewrite Hpix by done. rewrite painted_none; [done|]. intros c Hc. apply format_function in Hc; [congruence|done].
  - intros e2 m2 q2 He2 Hm2 Hne E2. destruct (Hread e2 m2 He2 Hm2) as (q2' & E2' & _ & _ & Hr2). rewrite E2 in E2'. injection E2' as <-.
    rewrite Hr, Hr2. apply format_far; [by apply format_data_range..|]. intros Eq. apply Hne.
    destruct (format_data_inj ecl mask e2 m2 He Hm He2 Hm2 Eq) as [-> ->]. done.
Qed.

(** Both renderers stay within the lengths the header promises, on every text. *)
Theorem renderers_fit text out : text_ok text ->
  (QRCODEGEN_TEXT_MAX_LEN <= Z.of_nat (length out) -> exists r, qrcodegen (Some text) (Some out) = Some r) /\
  (QRCODEGEN_TEXT_COMPACT_MAX_LEN <= Z.of_nat (length out) -> exists r, qrcodegen_c (Some text) (Some out) = Some r).
Proof.
  intros Ht. split; intros Ho.
  - destruct (qrcodegen_spec text out Ht Ho) as [(_ & rows & -> & _)|[_ ->]]; by eexists.
  - destruct (qrcodegen_c_spec text out Ht Ho) as [(_ & rows & -> & _)|[_ ->]]; by eexists.
Qed.
End Theorems.

(** ** Instances *)

Ltac small_bytes := unfold text_ok, bytes_ok, is_u8; repeat constructor; lia.

(** The digit 7, its segment and buffers for a code of version 1 *)
Definition seven : list Z := [55].

Definition seven_segment : qrcodegen_Segment :=
  {| seg_mode := qrcodegen_Mode_NUMERIC; seg_numChars := 1; seg_data := [0x70]; seg_bitLength := 4 |}.

Definition small_buffer : arr := replicate 57 0.

Lemma small_buffer_bytes : bytes_ok small_buffer.
Proof. apply Forall_replicate. unfold is_u8. lia. Qed.

Lemma small_call mask : mask = qrcodegen_Mask_AUTO \/ mask_ok mask -> call_ok qrcodegen_Ecc_LOW 1 1 mask small_buffer small_buffer.
Proof.
  intros Hm. constructor; [lia|done|done|split; [apply small_buffer_bytes|done]|split; [apply small_buffer_bytes|done]].
Qed.

Lemma seven_fits : fits 1 qrcodegen_Ecc_LOW [PNumeric seven].
Proof. split; [repeat constructor; by vm_compute|by vm_compute]. Qed.

Lemma seven_room : exists w, 1 <= w <= 1 /\ fits w qrcodegen_Ecc_LOW [PNumeric seven].
Proof. exists 1. split; [lia|exact seven_fits]. Qed.

Lemma seven_is_segment : Forall2 is_segment [PNumeric seven] [seven_segment].
Proof.
  constructor; [|constructor]. split; [done|]. split; [done|]. split; [done|]. split; [|done].
  exists (bits_of 4 0). by vm_compute.
Qed.

Lemma small_grid : grid (qrsize_of 1) (21 :: replicate 56 0).
Proof. split; [done|]. split; [done|]. split; [|done]. constructor; [unfold is_u8; lia|]. apply Forall_replicate. unfold is_u8. lia. Qed.

Lemma printer_shows_text_witness : exists out ps,
  @main zero_stack [113; 114] [[45; 99]; seven] = Some {| run_exit := 0; run_stdout := out; run_stderr := [] |} /\
  scan_compact (screen out) = Some ps /\ payloads_text ps = seven.
Proof.
  assert (Hok : Forall text_ok [[45; 99]; seven]) by small_bytes.
  pose proof (@printer_shows_text zero_stack [113; 114] [[45; 99]; seven] Hok) as Hw.
  assert (E : texts [[45; 99]; seven] = [seven]) by (vm_compute; reflexivity). rewrite E in Hw.
  change (Z.of_nat (length seven) <=? text_limit seven) with true in Hw.
  assert (Ef : existsb is_flag [[45; 99]; seven] = true) by (vm_compute; reflexivity). rewrite Ef in Hw. exact Hw.
Defined.

Lemma text_reads_back_witness : exists temp' qr' ps,
  @qrcodegen_encodeText zero_stack seven small_buffer small_buffer qrcodegen_Ecc_LOW 1 1 3 true = Some (true, temp', qr') /\
  decode_qr qr' = Some ps /\ payloads_text ps = seven.
Proof.
  assert (Hok : text_ok seven) by small_bytes. assert (Hm : 3 = qrcodegen_Mask_AUTO \/ mask_ok 3) by (right; unfold mask_ok; lia).
  destruct (@text_reads_back zero_stack seven small_buffer small_buffer qrcodegen_Ecc_LOW 1 1 3 true Hok (small_call 3 Hm))
    as [(v & e & temp' & qr' & ps & E & _ & _ & _ & _ & _ & Hd & Ht)|[Hno _]].
  - exists temp', qr', ps. split; [exact E|]. split; [exact Hd|exact Ht].
  - exfalso. apply (Hno 1); [lia|exact seven_fits].
Defined.

Lemma mask_is_best_witness : exists m temp' qr' p,
  @qrcodegen_encodeSegmentsAdvanced zero_stack [seven_segment] qrcodegen_Ecc_LOW 1 1 qrcodegen_Mask_AUTO true small_buffer small_buffer =
    Some (true, temp', qr') /\ 0 <= m < 8 /\ getPenaltyScore qr' = Some p.
Proof.
  destruct (@mask_is_best zero_stack [PNumeric seven] [seven_segment] qrcodegen_Ecc_LOW 1 1 true small_buffer small_buffer
    (small_call _ (or_introl eq_refl)) seven_is_segment seven_room)
    as (v & e & m & base & temp' & qr' & p & E & _ & Hm & Hp & _).
  exists m, temp', qr', p. split; [exact E|]. split; [exact Hm|exact Hp].
Defined.

Lemma blocks_correctable_witness : exists v e l temp' qr',
  @qrcodegen_encodeSegmentsAdvanced zero_stack [seven_segment] qrcodegen_Ecc_LOW 1 1 qrcodegen_Mask_AUTO true small_buffer small_buffer =
    Some (true, temp', qr') /\ layout_of v e = Some l.
Proof.
  destruct (@blocks_correctable zero_stack [PNumeric seven] [seven_segment] qrcodegen_Ecc_LOW 1 1 qrcodegen_Mask_AUTO true small_buffer small_buffer
    (small_call _ (or_introl eq_refl)) seven_is_segment seven_room)
    as (v & e & m & l & cw & temp' & qr' & E & Hl & _).
  exists v, e, l, temp', qr'. split; [exact E|exact Hl].
Defined.

Lemma raw_modules_exact_witness : exists q',
  @initializeFunctionModules zero_stack 1 small_buffer = Some q' /\ rd q' 0 = Some 21 /\
  getNumRawDataModules 1 = Some (Z.of_nat (length (List.filter
    (fun c => match qrcodegen_getModule q' c.1 c.2 with Some black => negb black | None => false end)
    (list_prod (zrange 0 21) (zrange 0 21))))).
Proof. apply (@raw_modules_exact zero_stack 1 small_buffer); [unfold version_ok; lia|apply small_buffer_bytes|done]. Defined.

Lemma reed_solomon_distance_witness : exists g e1 e2,
  reedSolomonComputeDivisor 2 [0; 0] = Some g /\
  reedSolomonComputeRemainder [1] 1 g 2 [0; 0] = Some (e1 ++ []) /\ reedSolomonComputeRemainder [2] 1 g 2 [0; 0] = Some (e2 ++ []) /\
  (2 < distance (1%Z :: e1) (2%Z :: e2))%nat.
Proof.
  destruct (reed_solomon_distance 2 [0; 0]) as (g & E & Hg); [unfold qrcodegen_REED_SOLOMON_DEGREE_MAX; lia|done|].
  destruct (Hg [1] [2] [0; 0]) as (e1 & e2 & E1 & E2 & _ & _ & Hd); [small_bytes|small_bytes|done|done|done|done|].
  exists g, e1, e2. split; [exact E|]. split; [exact E1|]. split; [exact E2|exact Hd].
Defined.

Lemma segments_read_back_witness : exists seg,
  qrcodegen_makeNumeric [55; 56] [0xFF; 0xFF] = Some seg /\ length (seg_data seg) = 2%nat /\
  parse_payload (seg_mode seg) (Z.to_nat (seg_numChars seg)) (take (Z.to_nat (seg_bitLength seg)) (bits (seg_data seg))) =
    Some (PNumeric [55; 56], []).
Proof.
  apply (segments_read_back (PNumeric [55; 56]) [0xFF; 0xFF]); [|small_bytes|done|done].
  cbn [payload_ok]. unfold numeric_ok. repeat constructor; lia.
Defined.

Lemma format_reads_back_witness : exists q',
  drawFormatBits qrcodegen_Ecc_HIGH 5 (21 :: replicate 56 0) = Some q' /\
  format_ecl (format_read (pix q')) = qrcodegen_Ecc_HIGH /\ format_mask (format_read (pix q')) = 5.
Proof.
  destruct (format_reads_back 1 qrcodegen_Ecc_HIGH 5 (21 :: replicate 56 0)) as (q' & E & _ & _ & He & Hm & _);
    [unfold version_ok; lia|done|unfold mask_ok; lia|apply small_grid|].
  exists q'. split; [exact E|]. split; [exact He|exact Hm].
Defined.
