(* ===== verification/MlField.v ===== *)
(** * The prime field of ML-KEM, tools/ml_kem_512_single.hpp, namespace ml_kem_field; arrays and sums over it *)

From Stdlib Require Import Lia Zmod.
From stdpp Require Import base tactics list numbers option.
From S2P Require Import Prelude QrArray.
Local Open Scope Z_scope.

(** * The prime field of ML-KEM: tools/ml_kem_512_single.hpp, namespace ml_kem_field

    A [zq_t] is the [uint32_t] it holds.  The operators reduce with the two
    reductions of the source, with every conversion written out; on values
    below [Q] they are the operations of the field [fq], which is the standard
    library's [Zmod] with its ring structure. *)

(** The value modulo [2 ^ 64], written as the mask of its low bits *)
Definition u64 (z : Z) : Z := Z.land z 0xFFFFFFFFFFFFFFFF.

Lemma u64_mod z : u64 z = z mod 2 ^ 64.
Proof. unfold u64. change 0xFFFFFFFFFFFFFFFF with (Z.ones 64). by apply Z.land_ones. Qed.

Lemma u64_small z : 0 <= z < 2 ^ 64 -> u64 z = z.
Proof. rewrite u64_mod. apply Z.mod_small. Qed.

(** ** The operations *)

Definition Q : Z := Z.shiftl 1 8 * 13 + 1.
Definition Q_BIT_WIDTH : Z := 12.
Definition R : Z := Z.shiftl 1 (2 * Q_BIT_WIDTH) / Q.

Definition reduce_once (v : Z) : Z :=
  let t0 := u32 (v - Q) in
  let t1 := u32 (- Z.shiftr t0 31) in
  let t2 := Z.land Q t1 in
  u32 (t0 + t2).

Definition barrett_reduce (v : Z) : Z :=
  let t0 := u64 (v * R) in
  let t1 := u32 (Z.shiftr t0 (2 * Q_BIT_WIDTH)) in
  let t2 := u32 (t1 * Q) in
  let t := u32 (v - t2) in
  reduce_once t.

(** The constructor takes a [uint16_t]. *)
Definition zq (a : Z) : Z := u16 a.

Definition from_non_reduced (a : Z) : Z := zq (barrett_reduce (u16 a)).

Definition zadd (x y : Z) : Z := zq (reduce_once (u32 (x + y))).
Definition zneg (x : Z) : Z := zq (u32 (Q - x)).
Definition zsub (x y : Z) : Z := zadd x (zneg y).
Definition zmul (x y : Z) : Z := zq (barrett_reduce (u32 (x * y))).

(** One round of the loop of [operator^]: [res] and [base] *)
Definition zpow_step (n : Z) (s : Z * Z) (i : Z) : Z * Z :=
  let base := zmul s.2 s.2 in
  (zmul s.1 (if Z.testbit n i then base else zq 1), base).

Definition bit_width (n : Z) : Z := if n =? 0 then 0 else Z.log2 n + 1.

Definition zpow (x n : Z) : Z :=
  (fold_left (zpow_step n) (map (fun i => Z.of_nat (S i)) (seq 0 (Z.to_nat (bit_width n - 1))))
    (if Z.testbit n 0 then x else zq 1, x)).1.

Definition zinv (x : Z) : Z := zpow x (Q - 2).
Definition zdiv (x y : Z) : Z := zmul x (zinv y).

(** ** The field *)

Notation fq := (Zmod Q).

#[export] Instance fq_eq_dec : EqDecision fq.
Proof.
  intros x y. destruct (Z.eq_dec (Zmod.unsigned x) (Zmod.unsigned y)) as [E|N]; [left; by apply Zmod.unsigned_inj|right].
  intros ->. done.
Defined.

Add Ring fq_ring : (Zmod.ring_theory Q).

(** The field element a value stands for *)
Definition fz (v : Z) : fq := Zmod.of_Z Q v.

Definition canonical (v : Z) : Prop := 0 <= v < Q.

Lemma fz_inj x y : canonical x -> canonical y -> fz x = fz y -> x = y.
Proof. intros Hx Hy E. apply Zmod.of_Z_inj in E. unfold canonical in *. by rewrite !Z.mod_small in E. Qed.

Lemma fz_unsigned v : Zmod.unsigned (fz v) = v mod Q.
Proof. apply Zmod.unsigned_of_Z. Qed.

Lemma fz_canonical v : canonical v -> Zmod.unsigned (fz v) = v.
Proof. intros Hv. rewrite fz_unsigned. by apply Z.mod_small. Qed.

Lemma canonical_unsigned (x : fq) : canonical (Zmod.unsigned x).
Proof. apply Zmod.unsigned_pos_bound. unfold Q. done. Qed.

Lemma fz_of_unsigned (x : fq) : fz (Zmod.unsigned x) = x.
Proof. apply Zmod.of_Z_unsigned. Qed.

Lemma Q_value : Q = 3329. Proof. done. Qed.
Lemma R_value : R = 5039. Proof. done. Qed.

Lemma u32_small v : 0 <= v < 2 ^ 32 -> u32 v = v.
Proof. apply Z.mod_small. Qed.

Lemma zq_small v : 0 <= v < 2 ^ 16 -> zq v = v.
Proof. apply Z.mod_small. Qed.

(** [reduce_once] reduces what is below [2 Q]. *)
Lemma reduce_once_spec v : 0 <= v < 2 * Q -> reduce_once v = v mod Q.
Proof.
  rewrite Q_value. intros Hv. unfold reduce_once. rewrite Q_value. destruct (Z.lt_ge_cases v 3329) as [Hl|Hg].
  - rewrite (Z.mod_small v 3329) by lia.
    assert (E0 : u32 (v - 3329) = v - 3329 + 2 ^ 32).
    { unfold u32. rewrite <- (Z.mod_add _ 1) by done. apply Z.mod_small. lia. }
    rewrite E0. assert (E1 : Z.shiftr (v - 3329 + 2 ^ 32) 31 = 1).
    { rewrite Z.shiftr_div_pow2 by done. Z.to_euclidean_division_equations. lia. }
    rewrite E1. change (u32 (- (1))) with (2 ^ 32 - 1). change (Z.land 3329 (2 ^ 32 - 1)) with 3329.
    unfold u32. replace (v - 3329 + 2 ^ 32 + 3329) with (v + 1 * 2 ^ 32) by lia. rewrite Z.mod_add by done. apply Z.mod_small. lia.
  - assert (Em : v mod 3329 = v - 3329) by (Z.to_euclidean_division_equations; lia). rewrite Em.
    rewrite (u32_small (v - 3329)) by lia. assert (E1 : Z.shiftr (v - 3329) 31 = 0).
    { rewrite Z.shiftr_div_pow2 by done. Z.to_euclidean_division_equations. lia. }
    rewrite E1. change (u32 (- 0)) with 0. rewrite Z.land_0_r, Z.add_0_r. apply u32_small. lia.
Qed.

(** [barrett_reduce] reduces what is below [2 ^ 24], which [Q * Q] is. *)
Lemma barrett_reduce_spec v : 0 <= v < 2 ^ 24 -> barrett_reduce v = v mod Q.
Proof.
  intros Hv. unfold barrett_reduce. rewrite R_value. change (2 * Q_BIT_WIDTH) with 24.
  assert (E0 : u64 (v * 5039) = v * 5039) by (apply u64_small; lia). rewrite E0, Z.shiftr_div_pow2 by done.
  set (q := v * 5039 / 2 ^ 24). assert (Hq : 0 <= v - q * 3329 < 2 * 3329) by (unfold q; Z.to_euclidean_division_equations; lia).
  assert (Hq0 : 0 <= q < 2 ^ 24) by (unfold q; Z.to_euclidean_division_equations; lia).
  rewrite (u32_small q) by lia. rewrite Q_value at 1. rewrite (u32_small (q * 3329)), (u32_small (v - q * 3329)) by lia.
  rewrite reduce_once_spec by (rewrite Q_value; lia). rewrite Q_value. replace (v - q * 3329) with (v + (- q) * 3329) by lia. by rewrite Z.mod_add.
Qed.

Lemma mod_canonical v : canonical (v mod Q).
Proof. apply Z.mod_pos_bound. done. Qed.

#[export] Hint Resolve mod_canonical : ml.

Lemma zq_canonical v : canonical v -> zq v = v.
Proof. unfold canonical. rewrite Q_value. intros Hv. apply zq_small. lia. Qed.

Lemma zadd_mod x y : 0 <= x + y < 2 * Q -> zadd x y = (x + y) mod Q.
Proof.
  intros H. unfold zadd. rewrite u32_small by (rewrite Q_value in H; lia). rewrite reduce_once_spec by done.
  apply zq_canonical, mod_canonical.
Qed.

Lemma zneg_value x : canonical x -> zneg x = Q - x.
Proof. unfold canonical, zneg, zq, u16. rewrite Q_value. intros Hx. rewrite u32_small, Z.mod_small by lia. done. Qed.

(** Negating zero gives [Q] itself, which is not canonical; adding to it is as good as adding zero. *)
Lemma zneg_zero : zneg 0 = Q /\ ~ canonical (zneg 0).
Proof. split; [reflexivity|]. intros [_ H]. by vm_compute in H. Qed.

Lemma zadd_spec x y : canonical x -> canonical y -> canonical (zadd x y) /\ fz (zadd x y) = (fz x + fz y)%Zmod.
Proof.
  intros Hx Hy. rewrite zadd_mod by (unfold canonical in *; lia). split; [apply mod_canonical|]. unfold fz. by rewrite Zmod.of_Z_mod, Zmod.of_Z_add.
Qed.

Lemma fz_Q : fz Q = 0%Zmod.
Proof. done. Qed.

Lemma zneg_spec x : canonical x -> fz (zneg x) = (- fz x)%Zmod /\ (x <> 0 -> canonical (zneg x)).
Proof.
  intros Hx. rewrite zneg_value by done. split; [|unfold canonical in *; lia].
  unfold fz. rewrite Zmod.of_Z_sub. fold (fz Q). rewrite fz_Q. apply Zmod.sub_0_l.
Qed.

Lemma zsub_spec x y : canonical x -> canonical y -> canonical (zsub x y) /\ fz (zsub x y) = (fz x - fz y)%Zmod.
Proof.
  intros Hx Hy. unfold zsub. rewrite zneg_value by done. rewrite zadd_mod by (unfold canonical in *; lia).
  split; [apply mod_canonical|]. unfold fz. rewrite Zmod.of_Z_mod. replace (x + (Q - y)) with (x - y + Q) by lia.
  rewrite Zmod.of_Z_add, Zmod.of_Z_sub. fold (fz Q). rewrite fz_Q. apply Zmod.add_0_r.
Qed.

Lemma zmul_spec x y : canonical x -> canonical y -> canonical (zmul x y) /\ fz (zmul x y) = (fz x * fz y)%Zmod.
Proof.
  intros Hx Hy. unfold canonical in Hx, Hy. rewrite Q_value in Hx, Hy. assert (0 <= x * y < 2 ^ 24) by nia.
  unfold zmul. rewrite u32_small by lia. rewrite barrett_reduce_spec by done. rewrite zq_canonical by apply mod_canonical.
  split; [apply mod_canonical|]. unfold fz. by rewrite Zmod.of_Z_mod, Zmod.of_Z_mul.
Qed.

Lemma from_non_reduced_spec a : is_u16 a -> from_non_reduced a = a mod Q.
Proof.
  intros Ha. unfold from_non_reduced, is_u16, u16 in *. rewrite (Z.mod_small a (2 ^ 16)) by done. rewrite barrett_reduce_spec by lia.
  apply zq_canonical, mod_canonical.
Qed.

Lemma canonical_0 : canonical 0. Proof. done. Qed.
Lemma canonical_1 : canonical (zq 1). Proof. done. Qed.

Lemma zadd_canonical x y : canonical x -> canonical y -> canonical (zadd x y). Proof. apply zadd_spec. Qed.
Lemma zsub_canonical x y : canonical x -> canonical y -> canonical (zsub x y). Proof. apply zsub_spec. Qed.
Lemma zmul_canonical x y : canonical x -> canonical y -> canonical (zmul x y). Proof. apply zmul_spec. Qed.

#[export] Hint Resolve canonical_0 canonical_1 zadd_canonical zsub_canonical zmul_canonical : ml.

Lemma fz_zadd x y : canonical x -> canonical y -> fz (zadd x y) = (fz x + fz y)%Zmod. Proof. apply zadd_spec. Qed.
Lemma fz_zsub x y : canonical x -> canonical y -> fz (zsub x y) = (fz x - fz y)%Zmod. Proof. apply zsub_spec. Qed.
Lemma fz_zmul x y : canonical x -> canonical y -> fz (zmul x y) = (fz x * fz y)%Zmod. Proof. apply zmul_spec. Qed.

(** ** Powers *)

Lemma testbit_step n k : 0 <= k -> n mod 2 ^ (k + 1) = n mod 2 ^ k + (if Z.testbit n k then 2 ^ k else 0).
Proof.
  intros Hk.
  assert (E : n mod 2 ^ (k + 1) = n mod 2 ^ k + 2 ^ k * ((n / 2 ^ k) mod 2)).
  { rewrite Z.pow_add_r, Z.mul_comm by lia. change (2 ^ 1) with 2. rewrite (Z.mul_comm 2), Z.rem_mul_r; lia. }
  rewrite E. rewrite <- (Z.testbit_spec' n k) by done. destruct (Z.testbit n k); cbn [Z.b2z]; lia.
Qed.

Lemma zpow_loop n x m : canonical x -> 0 <= n ->
  let s := fold_left (zpow_step n) (map (fun i => Z.of_nat (S i)) (seq 0 m)) (if Z.testbit n 0 then x else zq 1, x) in
  canonical s.1 /\ canonical s.2 /\
  fz s.1 = (fz x ^ (n mod 2 ^ Z.of_nat (S m)))%Zmod /\ fz s.2 = (fz x ^ (2 ^ Z.of_nat m))%Zmod.
Proof.
  intros Hx Hn. induction m as [|m IH].
  - cbn [seq map fold_left fst snd]. change (2 ^ Z.of_nat 1) with (2 ^ (0 + 1)). rewrite testbit_step by done.
    change (2 ^ 0) with 1. rewrite Z.mod_1_r. change (2 ^ Z.of_nat 0) with 1. rewrite Zmod.pow_1_r.
    destruct (Z.testbit n 0); (split; [auto with ml|split; [done|split; [|done]]]).
    + change (0 + 1) with 1. by rewrite Zmod.pow_1_r.
    + change (0 + 0) with 0. rewrite Zmod.pow_0_r. apply Zmod.of_Z_1.
  - rewrite seq_S, map_app, fold_left_app. cbn [map fold_left Nat.add]. revert IH.
    generalize (fold_left (zpow_step n) (map (fun i => Z.of_nat (S i)) (seq 0 m)) (if Z.testbit n 0 then x else zq 1, x)). intros s (H1 & H2 & E1 & E2). unfold zpow_step. cbn [fst snd].
    assert (Hb : canonical (zmul s.2 s.2)) by auto with ml.
    assert (Eb : fz (zmul s.2 s.2) = (fz x ^ (2 ^ Z.of_nat (S m)))%Zmod).
    { rewrite fz_zmul, E2 by done. rewrite <- Zmod.pow_add_r_nonneg by (by apply Z.pow_nonneg). f_equal. rewrite Nat2Z.inj_succ, Z.pow_succ_r by lia. lia. }
    split; [destruct (Z.testbit n (Z.of_nat (S m))); auto with ml|]. split; [done|]. split; [|done].
    replace (Z.of_nat (S (S m))) with (Z.of_nat (S m) + 1) by lia. rewrite testbit_step by lia.
    assert (Hp : 0 < 2 ^ Z.of_nat (S m)) by (apply Z.pow_pos_nonneg; lia). pose proof (Z.mod_pos_bound n _ Hp).
    destruct (Z.testbit n (Z.of_nat (S m))).
    + rewrite fz_zmul, E1, Eb by auto with ml. symmetry. apply Zmod.pow_add_r_nonneg; lia.
    + rewrite fz_zmul, E1, Z.add_0_r by auto with ml. change (fz (zq 1)) with (@Zmod.one Q). apply Zmod.mul_1_r.
Qed.

Lemma zpow_spec x n : canonical x -> 0 <= n -> canonical (zpow x n) /\ fz (zpow x n) = (fz x ^ n)%Zmod.
Proof.
  intros Hx Hn. destruct (zpow_loop n x (Z.to_nat (bit_width n - 1)) Hx Hn) as (H1 & _ & E & _). unfold zpow. split; [done|].
  rewrite E. f_equal. apply Z.mod_small. split; [done|]. unfold bit_width. destruct (Z.eqb_spec n 0) as [->|Hne]; [done|].
  rewrite Nat2Z.inj_succ, Z2Nat.id by (pose proof (Z.log2_nonneg n); lia). replace (Z.succ (Z.log2 n + 1 - 1)) with (Z.succ (Z.log2 n)) by lia.
  apply Z.log2_spec. lia.
Qed.

(** [Q] is prime, by trial division. *)
Lemma Q_prime : Z.prime Q.
Proof.
  split; [done|]. intros n Hn [q Hq].
  assert (H : forallb (fun i => negb (3329 mod Z.of_nat i =? 0)) (seq 2 3327) = true) by (by vm_compute).
  rewrite Q_value in *. rewrite forallb_forall in H. specialize (H (Z.to_nat n)). rewrite Z2Nat.id, Hq, Z.mod_mul in H by lia.
  discriminate H. rewrite in_seq. lia.
Qed.

(** [inv] is the inverse, and zero for zero. *)
Lemma zinv_spec x : canonical x -> canonical (zinv x) /\ fz (zinv x) = Zmod.inv (fz x).
Proof.
  intros Hx. destruct (zpow_spec x (Q - 2)) as [Hc E]; [done|done|]. split; [done|]. unfold zinv. rewrite E.
  destruct (decide (fz x = 0%Zmod)) as [E0|Hne]; [rewrite E0; by apply Zmod.pow_0_l|]. apply Zmod.fermat_inv; [done|apply Q_prime].
Qed.

Lemma zinv_canonical x : canonical x -> canonical (zinv x).
Proof. apply zinv_spec. Qed.

#[export] Hint Resolve zinv_canonical : ml.

Lemma zmul_zinv x : canonical x -> x <> 0 -> zmul x (zinv x) = 1.
Proof.
  intros Hx Hne. apply fz_inj; [by auto with ml|done|]. rewrite fz_zmul by auto with ml. rewrite (proj2 (zinv_spec x Hx)).
  apply Zmod.mul_inv_same_r_prime; [apply Q_prime|]. intros E. apply Hne, fz_inj; done.
Qed.

Lemma fz_mod v : fz (v mod Q) = fz v.
Proof. apply Zmod.of_Z_mod. Qed.

(** * Arrays of coefficients and finite sums over the field of ML-KEM

    [coeffs n a]: [a] holds [n] canonical coefficients; [co a p] is the one at
    [p] as an element of [fq].  Loops over an index range have their invariant
    stated at the index, and sums are over [0 .. n - 1]. *)

(** ** Loops *)

Lemma bind_eq {X Y} (m : option X) x (f : X -> option Y) r : m = Some x -> f x = r -> (m ≫= f) = r.
Proof. by intros -> <-. Qed.

(** The values of a loop variable that starts at [a] and grows by [step] while it is below [b] *)
Definition zsteps (a b step : Z) : list Z :=
  map (fun i => a + step * Z.of_nat i) (seq 0 (Z.to_nat ((b - a + step - 1) / step))).

Lemma lookup_zrange a b n i : zrange a b !! n = Some i -> i = a + Z.of_nat n /\ a <= i < b.
Proof.
  unfold zrange. rewrite list_lookup_fmap. destruct (seq _ _ !! n) as [k|] eqn:E; [|discriminate]. intros [= <-].
  apply lookup_seq in E. lia.
Qed.

Lemma foldm_range {S} (P : Z -> S -> Prop) (f : Z -> S -> option S) a b s : a <= b ->
  (forall i s, a <= i < b -> P i s -> exists s', f i s = Some s' /\ P (i + 1) s') ->
  P a s -> exists s', foldm f (zrange a b) s = Some s' /\ P b s'.
Proof.
  intros Hab Hf Hs. destruct (foldm_invariant (fun n => P (a + Z.of_nat n)) f (zrange a b) s) as (s' & E & H).
  - intros n i t Hi Ht. apply lookup_zrange in Hi as [-> Hi]. destruct (Hf (a + Z.of_nat n) t Hi Ht) as (t' & E & H).
    exists t'. split; [done|]. by replace (a + Z.of_nat (Datatypes.S n)) with (a + Z.of_nat n + 1) by lia.
  - by rewrite Z.add_0_r.
  - exists s'. split; [done|]. rewrite zrange_length in H. by replace (a + Z.of_nat (Z.to_nat (b - a))) with b in H by lia.
Qed.

(** The loop over a range in the goal, by an invariant at the index *)
Ltac range_invariant P :=
  match goal with |- context [@foldm Z ?S ?f (zrange ?a ?b) ?s] =>
    let s' := fresh "s" in let E := fresh "E" in let H := fresh "Hinv" in
    destruct (@foldm_range S P f a b s) as (s' & E & H); [| | |rewrite E; clear E] end.

(** ** Arrays of coefficients *)

Definition coeffs (n : Z) (a : list Z) : Prop := Z.of_nat (length a) = n /\ Forall canonical a.

Definition co (a : list Z) (p : Z) : fq := fz (default 0 (rd a p)).

Lemma coeffs_rd n a p : coeffs n a -> 0 <= p < n -> exists v, rd a p = Some v /\ canonical v /\ fz v = co a p.
Proof.
  intros [Hl Hc] Hp. destruct (rd_some a p) as [v Hv]; [lia|]. exists v. split; [done|]. split; [|by unfold co; rewrite Hv].
  apply rd_lookup in Hv as [_ Hv]. by apply (Forall_lookup_1 _ _ _ _ Hc Hv).
Qed.

Lemma coeffs_wr n a p v : coeffs n a -> 0 <= p < n -> canonical v ->
  exists a', wr a p v = Some a' /\ coeffs n a' /\ forall j, co a' j = if j =? p then fz v else co a j.
Proof.
  intros [Hl Hc] Hp Hv. exists (<[Z.to_nat p := v]> a). assert (E : wr a p v = Some (<[Z.to_nat p:=v]> a)) by (apply wr_some; lia).
  split; [done|]. split; [split; [by rewrite length_insert|by apply Forall_insert]|]. intros j. unfold co. rewrite (rd_wr _ _ _ _ j E).
  by destruct (j =? p).
Qed.

(** Reads and writes of the goal in turn *)
Ltac coeffs_step :=
  first
  [ match goal with Ha : coeffs ?n ?a |- context [rd ?a ?p] =>
      let v := fresh "v" in let E := fresh "E" in let Hc := fresh "Hc" in let Hv := fresh "Hv" in
      destruct (coeffs_rd n a p Ha) as (v & E & Hc & Hv); [lia|rewrite E; cbn [mbind option_bind]; clear E] end
  | match goal with Ha : coeffs ?n ?a |- context [wr ?a ?p ?v] =>
      let a' := fresh "a" in let E := fresh "E" in let Hc := fresh "Hc" in let Hv := fresh "Hco" in
      destruct (coeffs_wr n a p v Ha) as (a' & E & Hc & Hv); [lia|by auto with ml|rewrite E; cbn [mbind option_bind]; clear E] end ].

Lemma coeffs_ext n a b : coeffs n a -> coeffs n b -> (forall p, 0 <= p < n -> co a p = co b p) -> a = b.
Proof.
  intros Ha Hb E. apply list_eq_same_length with (n := length a); [destruct Ha, Hb; lia|done|]. intros i x y Hi Hx Hy.
  assert (Hp : 0 <= Z.of_nat i < n) by (destruct Ha; lia). destruct (coeffs_rd _ _ _ Ha Hp) as (u & E1 & Hu & Eu).
  destruct (coeffs_rd _ _ _ Hb Hp) as (w & E2 & Hw & Ew). rewrite rd_nat in E1, E2. simplify_eq. apply fz_inj; [done|done|].
  by rewrite Eu, Ew, E.
Qed.

Lemma co_canonical n a p : coeffs n a -> 0 <= p < n -> rd a p = Some (Zmod.unsigned (co a p)).
Proof. intros Ha Hp. destruct (coeffs_rd _ _ _ Ha Hp) as (v & -> & Hv & <-). by rewrite fz_canonical. Qed.

(** A loop that replaces every coefficient by a function of it *)
Lemma each_coeff n (step : Z -> list Z -> option (list Z)) (g : Z -> fq -> fq) a :
  (forall i s, 0 <= i < n -> coeffs n s -> exists s', step i s = Some s' /\ coeffs n s' /\
    forall j, co s' j = if j =? i then g i (co s i) else co s j) ->
  coeffs n a -> exists a', foldm step (zrange 0 n) a = Some a' /\ coeffs n a' /\ forall p, 0 <= p < n -> co a' p = g p (co a p).
Proof.
  intros Hstep Ha. assert (Hn : 0 <= n) by (destruct Ha; lia).
  range_invariant (fun k s => coeffs n s /\ forall p, co s p = if (0 <=? p) && (p <? k) then g p (co a p) else co a p).
  - done.
  - intros i s Hi [Hs Hco]. destruct (Hstep i s Hi Hs) as (s' & E & Hs' & Hco'). exists s'. split; [done|]. split; [done|].
    intros p. rewrite Hco', !Hco. destruct (Z.eqb_spec p i) as [->|Hne].
    + by rewrite (proj2 (Z.leb_le 0 i)), (proj2 (Z.ltb_lt i (i + 1))), Z.ltb_irrefl by lia.
    + replace (p <? i + 1) with (p <? i) by lia. done.
  - split; [done|]. intros p. destruct (Z.leb_spec 0 p), (Z.ltb_spec p 0); done || lia.
  - destruct Hinv as [Hs Hco]. exists s. split; [done|]. split; [done|]. intros p Hp. rewrite Hco.
    by rewrite (proj2 (Z.leb_le 0 p)), (proj2 (Z.ltb_lt p n)) by lia.
Qed.

Lemma coeffs_check n a : (Z.of_nat (length a) =? n) && forallb (fun v => (0 <=? v) && (v <? Q)) a = true -> coeffs n a.
Proof.
  intros [Hl Hc]%andb_prop. split; [by apply Z.eqb_eq|]. apply List.Forall_forall. intros v Hv. rewrite forallb_forall in Hc.
  specialize (Hc v Hv). unfold canonical. lia.
Qed.

(** A loop that replaces every element by [g] of it *)
Definition each (g : Z -> Z) (i : Z) (a : list Z) : option (list Z) := v ← rd a i; wr a i (g v).

Lemma each_from g pre a : foldm (each g) (zrange (Z.of_nat (length pre)) (Z.of_nat (length pre + length a))) (pre ++ a) = Some (pre ++ map g a).
Proof.
  revert pre. induction a as [|v a IH]; intros pre; [cbn [length]; by rewrite Nat.add_0_r, zrange_nil by lia|].
  cbn [length]. rewrite zrange_cons by lia. cbn [foldm map].
  assert (E : each g (Z.of_nat (length pre)) (pre ++ v :: a) = Some (pre ++ g v :: a)) by (unfold each; rewrite rd_mid by done; by apply wr_mid).
  rewrite E. cbn [mbind option_bind]. specialize (IH (pre ++ [g v])). rewrite length_app, <- !app_assoc in IH. cbn [length app] in IH. rewrite <- IH. do 2 f_equal; lia.
Qed.

Lemma each_map g a n : Z.of_nat (length a) = n -> foldm (each g) (zrange 0 n) a = Some (map g a).
Proof. intros <-. apply (each_from g []). Qed.
