(* ===== verification/MlNtt.v ===== *)
(** * The number theoretic transform of ML-KEM: tools/ml_kem_512_single.hpp, namespace ml_kem_ntt

    A polynomial is the list of its 256 coefficients and is passed by value;
    an access outside it is [None].  [pass] says what one layer of butterflies
    does to the coefficients as elements of the field, both transforms are
    seven of them, and the layers of the inverse transform undo those of the
    transform one by one. *)

From Stdlib Require Import Lia Zmod.
From stdpp Require Import base tactics list numbers option.
From S2P Require Import Prelude QrArray MlField.
Local Open Scope Z_scope.

(** ** The operations *)

Definition LOG2N : Z := 8.
Definition N : Z := Z.shiftl 1 LOG2N.
Definition zeta : Z := zq 17.
Definition INV_N : Z := zinv (zq (N / 2)).

Definition bit_rev (mbw v : Z) : Z :=
  fold_left (fun v_rev i => let bit := Z.land (Z.shiftr v i) 1 in Z.lxor v_rev (u64 (Z.shiftl bit (mbw - 1 - i)))) (zrange 0 mbw) 0.

Definition NTT_zeta_EXP : list Z := map (fun i => zpow zeta (bit_rev (LOG2N - 1) i)) (zrange 0 (N / 2)).
Definition INTT_zeta_EXP : list Z := map zneg NTT_zeta_EXP.
Definition POLY_MUL_zeta_EXP : list Z :=
  map (fun i => zpow zeta (Z.lxor (u64 (Z.shiftl (bit_rev (LOG2N - 1) i) 1)) 1)) (zrange 0 (N / 2)).

Definition ntt_butterfly (zeta_exp len i : Z) (poly : list Z) : option (list Z) :=
  p ← rd poly (i + len);
  let tmp := zmul zeta_exp p in
  q ← rd poly i;
  poly ← wr poly (i + len) (zsub q tmp);
  q ← rd poly i;
  wr poly i (zadd q tmp).

Definition ntt_block (l start : Z) (poly : list Z) : option (list Z) :=
  let len := Z.shiftl 1 l in
  let k_beg := Z.shiftr N (l + 1) in
  let k_now := k_beg + Z.shiftr start (l + 1) in
  zeta_exp ← rd NTT_zeta_EXP k_now;
  foldm (ntt_butterfly zeta_exp len) (zrange start (start + len)) poly.

Definition ntt_layer (l : Z) (poly : list Z) : option (list Z) :=
  let len := Z.shiftl 1 l in
  let lenx2 := Z.shiftl len 1 in
  foldm (ntt_block l) (zsteps 0 N lenx2) poly.

Definition ntt (poly : list Z) : option (list Z) := foldm ntt_layer (rev (zrange 1 LOG2N)) poly.

Definition intt_butterfly (neg_zeta_exp len i : Z) (poly : list Z) : option (list Z) :=
  tmp ← rd poly i;
  p ← rd poly (i + len);
  poly ← wr poly i (zadd tmp p);
  p ← rd poly (i + len);
  poly ← wr poly (i + len) (zsub tmp p);
  p ← rd poly (i + len);
  wr poly (i + len) (zmul p neg_zeta_exp).

Definition intt_block (l start : Z) (poly : list Z) : option (list Z) :=
  let len := Z.shiftl 1 l in
  let k_beg := Z.shiftr N l - 1 in
  let k_now := k_beg - Z.shiftr start (l + 1) in
  neg_zeta_exp ← rd INTT_zeta_EXP k_now;
  foldm (intt_butterfly neg_zeta_exp len) (zrange start (start + len)) poly.

Definition intt_layer (l : Z) (poly : list Z) : option (list Z) :=
  let len := Z.shiftl 1 l in
  let lenx2 := Z.shiftl len 1 in
  foldm (intt_block l) (zsteps 0 N lenx2) poly.

Definition scale_at (i : Z) (poly : list Z) : option (list Z) := p ← rd poly i; wr poly i (zmul p INV_N).

Definition intt (poly : list Z) : option (list Z) :=
  poly ← foldm intt_layer (zrange 1 LOG2N) poly;
  foldm scale_at (zrange 0 N) poly.

(** [f], [g] and [h] are the spans that start at [off]. *)
Definition basemul (f g : list Z) (off zeta : Z) (h : list Z) : option (list Z) :=
  f0 ← rd f off;
  f1 ← rd f (off + 1);
  g0 ← rd g off;
  g1 ← rd g (off + 1);
  h ← wr h off (zadd (zmul (zmul f1 g1) zeta) (zmul f0 g0));
  wr h (off + 1) (zadd (zmul g1 f0) (zmul g0 f1)).

Definition polymul (f g h : list Z) : option (list Z) :=
  foldm (fun i h => let off := i * 2 in z ← rd POLY_MUL_zeta_EXP i; basemul f g off z h) (zrange 0 (N / 2)) h.

Example ntt_runs : (f ← ntt (zrange 0 256); intt f) = Some (zrange 0 256).
Proof. by vm_compute. Qed.

(** ** One layer *)

(** A layer of butterflies on blocks of [2 * len] coefficients; block [b] uses [f b] for its lower
    and [g b] for its upper half. *)
Definition pass (len : Z) (f g : Z -> fq -> fq -> fq) (a : Z -> fq) (p : Z) : fq :=
  let b := p / (2 * len) in
  if p mod (2 * len) <? len then f b (a p) (a (p + len)) else g b (a (p - len)) (a p).

Lemma in_block len b p : 0 < len -> 2 * len * b <= p < 2 * len * (b + 1) -> p / (2 * len) = b /\ p mod (2 * len) = p - 2 * len * b.
Proof.
  intros Hlen Hp. assert (E : p / (2 * len) = b) by (symmetry; apply (Z.div_unique _ _ _ (p - 2 * len * b)); lia).
  split; [done|]. rewrite Z.mod_eq, E by lia. done.
Qed.

Lemma block_bounds len p : 0 < len -> 2 * len * (p / (2 * len)) <= p < 2 * len * (p / (2 * len) + 1).
Proof.
  intros Hlen. pose proof (Z.div_mod p (2 * len) ltac:(lia)). pose proof (Z.mod_pos_bound p (2 * len) ltac:(lia)). lia.
Qed.

Section Layer.
Context (len : Z) (Hlen : 0 < len).

(** What a butterfly does to the two coefficients at [i] and [i + len] *)
Definition butterfly_spec (bf : Z -> list Z -> option (list Z)) (f g : fq -> fq -> fq) : Prop :=
  forall i a, coeffs N a -> 0 <= i -> i + len < N -> exists a', bf i a = Some a' /\ coeffs N a' /\
    forall j, co a' j = if j =? i then f (co a i) (co a (i + len)) else if j =? i + len then g (co a i) (co a (i + len)) else co a j.

Lemma block_runs bf f g b a : butterfly_spec bf (f b) (g b) -> coeffs N a -> 0 <= b -> 2 * len * (b + 1) <= N ->
  exists a', foldm bf (zrange (2 * len * b) (2 * len * b + len)) a = Some a' /\ coeffs N a' /\
    forall p, co a' p = if p / (2 * len) =? b then pass len f g (co a) p else co a p.
Proof.
  intros Hbf Ha Hb Hend. set (st := 2 * len * b) in *. assert (Est : 2 * len * (b + 1) = st + 2 * len) by (unfold st; lia). rewrite Est in Hend.
  assert (Hst : 0 <= st) by (unfold st; nia).
  range_invariant (fun k s => coeffs N s /\ forall p, co s p =
    if (st <=? p) && (p <? k) then f b (co a p) (co a (p + len))
    else if (st + len <=? p) && (p <? k + len) then g b (co a (p - len)) (co a p) else co a p).
  - lia.
  - intros i s Hi [Hs Hco]. destruct (Hbf i s Hs) as (s' & E & Hs' & Hco'); [lia..|]. exists s'. split; [done|]. split; [done|].
    intros p. rewrite Hco', !Hco. clear Hco Hco' Hbf.
    replace ((st <=? i) && (i <? i)) with false by lia. replace ((st + len <=? i) && (i <? i + len)) with false by lia.
    replace ((st <=? i + len) && (i + len <? i)) with false by lia. replace ((st + len <=? i + len) && (i + len <? i + len)) with false by lia.
    destruct (Z.eqb_spec p i) as [->|Hne]; [by replace ((st <=? i) && (i <? i + 1)) with true by lia|].
    replace ((st <=? p) && (p <? i + 1)) with ((st <=? p) && (p <? i)) by lia.
    destruct (Z.eqb_spec p (i + len)) as [->|Hne']; [|by replace (p <? i + 1 + len) with (p <? i + len) by lia].
    replace ((st <=? i + len) && (i + len <? i)) with false by lia.
    replace ((st + len <=? i + len) && (i + len <? i + 1 + len)) with true by lia. by rewrite Z.add_simpl_r.
  - split; [done|]. intros p. replace ((st <=? p) && (p <? st)) with false by lia. by replace ((st + len <=? p) && (p <? st + len)) with false by lia.
  - destruct Hinv as [Hs Hco]. exists s. split; [done|]. split; [done|]. intros p. rewrite Hco.
    destruct (Z.eqb_spec (p / (2 * len)) b) as [Eb|Hne].
    + pose proof (block_bounds len p Hlen) as Hbd. rewrite Eb, Est in Hbd. fold st in Hbd.
      destruct (in_block len b p Hlen) as [_ Em]; [fold st; lia|]. fold st in Em.
      unfold pass. rewrite Eb, Em. destruct (Z.ltb_spec (p - st) len).
      * by replace ((st <=? p) && (p <? st + len)) with true by lia.
      * replace ((st <=? p) && (p <? st + len)) with false by lia. by replace ((st + len <=? p) && (p <? st + len + len)) with true by lia.
    + assert (Hout : ~ (st <= p < st + 2 * len)) by (intros Hin; apply Hne, in_block; [done|fold st; lia]).
      replace ((st <=? p) && (p <? st + len)) with false by lia. by replace ((st + len <=? p) && (p <? st + len + len)) with false by lia.
Qed.

Lemma zsteps_all step c : 0 < step -> zsteps 0 (step * c) step = map (Z.mul step) (zrange 0 c).
Proof.
  intros Hs. unfold zsteps, zrange. rewrite map_map. replace ((step * c - 0 + step - 1) / step) with c.
  - rewrite Z.sub_0_r. apply map_ext. lia.
  - apply (Z.div_unique _ _ _ (step - 1)); lia.
Qed.

Lemma layer_runs (block : Z -> list Z -> option (list Z)) f g c a : 2 * len * c = N -> 0 <= c -> coeffs N a ->
  (forall b s, 0 <= b < c -> coeffs N s -> exists s', block (2 * len * b) s = Some s' /\ coeffs N s' /\
    forall p, co s' p = if p / (2 * len) =? b then pass len f g (co s) p else co s p) ->
  exists a', foldm block (zsteps 0 N (2 * len)) a = Some a' /\ coeffs N a' /\ forall p, 0 <= p < N -> co a' p = pass len f g (co a) p.
Proof.
  intros Hc Hc0 Ha Hblock. assert (Ez : zsteps 0 N (2 * len) = map (Z.mul (2 * len)) (zrange 0 c)) by (rewrite <- Hc; apply zsteps_all; lia).
  rewrite Ez, foldm_map.
  range_invariant (fun k s => coeffs N s /\ forall p, co s p = if (0 <=? p) && (p <? 2 * len * k) then pass len f g (co a) p else co a p).
  - done.
  - intros b s Hb [Hs Hco]. destruct (Hblock b s Hb Hs) as (s' & E & Hs' & Hco'). exists s'. split; [done|]. split; [done|].
    intros p. rewrite Hco'. pose proof (block_bounds len p Hlen) as Hbd. assert (H0 : 0 <= 2 * len * b) by nia.
    replace (2 * len * (b + 1)) with (2 * len * b + 2 * len) by lia.
    destruct (Z.eqb_spec (p / (2 * len)) b) as [Eb|Hne].
    + rewrite Eb in Hbd. replace ((0 <=? p) && (p <? 2 * len * b + 2 * len)) with true by lia.
      unfold pass. destruct (in_block len b p Hlen Hbd) as [_ Em]. rewrite Em. destruct (Z.ltb_spec (p - 2 * len * b) len); rewrite !Hco;
        repeat match goal with |- context [(0 <=? ?x) && (?x <? ?y)] => replace ((0 <=? x) && (x <? y)) with false by lia end; done.
    + rewrite Hco. assert (Hout : ~ (2 * len * b <= p < 2 * len * b + 2 * len)) by (intros Hin; apply Hne, in_block; [done|lia]).
      by replace (p <? 2 * len * b + 2 * len) with (p <? 2 * len * b) by lia.
  - split; [done|]. intros p. rewrite Z.mul_0_r. by replace ((0 <=? p) && (p <? 0)) with false by lia.
  - destruct Hinv as [Hs Hco]. exists s. split; [done|]. split; [done|]. intros p Hp. rewrite Hco, Hc.
    by replace ((0 <=? p) && (p <? N)) with true by lia.
Qed.
End Layer.

(** ** The layers of the two transforms *)

Lemma NTT_coeffs : coeffs (N / 2) NTT_zeta_EXP.
Proof. apply coeffs_check. by vm_compute. Qed.

Lemma INTT_coeffs : coeffs (N / 2) INTT_zeta_EXP.
Proof. apply coeffs_check. by vm_compute. Qed.

Lemma POLY_MUL_coeffs : coeffs (N / 2) POLY_MUL_zeta_EXP.
Proof. apply coeffs_check. by vm_compute. Qed.

Lemma ntt_butterfly_spec z len : canonical z -> 0 < len ->
  butterfly_spec len (ntt_butterfly z len) (fun x y => x + fz z * y)%Zmod (fun x y => x - fz z * y)%Zmod.
Proof.
  intros Hz Hlen i a Ha Hi Hend. unfold ntt_butterfly. do 2 coeffs_step. coeffs_step. coeffs_step. coeffs_step.
  eexists. split; [done|]. split; [done|]. intros j. rewrite Hco0, Hco. destruct (Z.eqb_spec j i) as [->|Hne].
  - rewrite fz_zadd, fz_zmul, Hv1, Hco, Hv0 by auto with ml. by replace (i =? i + len) with false by lia.
  - destruct (j =? i + len); [|done]. by rewrite fz_zsub, fz_zmul, Hv, Hv0 by auto with ml.
Qed.

Lemma intt_butterfly_spec z len : canonical z -> 0 < len ->
  butterfly_spec len (intt_butterfly z len) (fun x y => x + y)%Zmod (fun x y => (x - y) * fz z)%Zmod.
Proof.
  intros Hz Hlen i a Ha Hi Hend. unfold intt_butterfly. do 3 coeffs_step. do 2 coeffs_step. do 2 coeffs_step.
  eexists. split; [done|]. split; [done|]. intros j. rewrite Hco1, Hco0, Hco.
  assert (E1 : (i + len =? i) = false) by lia. rewrite Hco, E1 in Hv1. rewrite Hco0, Z.eqb_refl in Hv2.
  destruct (Z.eqb_spec j i) as [->|Hne].
  - replace (i =? i + len) with false by lia. by rewrite fz_zadd, Hv, Hv0.
  - destruct (j =? i + len); [|done]. by rewrite fz_zmul, Hv2, fz_zsub, Hv0, Hv1.
Qed.

(** The constant of block [b] in layer [l], for each direction *)
Definition fwd_zeta (l b : Z) : fq := co NTT_zeta_EXP (2 ^ (7 - l) + b).
Definition inv_zeta (l b : Z) : fq := co INTT_zeta_EXP (2 ^ (8 - l) - 1 - b).

Definition fwd (l : Z) : (Z -> fq) -> Z -> fq :=
  pass (2 ^ l) (fun b x y => x + fwd_zeta l b * y)%Zmod (fun b x y => x - fwd_zeta l b * y)%Zmod.
Definition inv (l : Z) : (Z -> fq) -> Z -> fq :=
  pass (2 ^ l) (fun b x y => x + y)%Zmod (fun b x y => (x - y) * inv_zeta l b)%Zmod.

Lemma layer_sizes l : 1 <= l < 8 ->
  Z.shiftl 1 l = 2 ^ l /\ 0 < 2 ^ l /\ 2 * 2 ^ l * 2 ^ (7 - l) = N /\ Z.shiftr N (l + 1) = 2 ^ (7 - l) /\
  Z.shiftr N l = 2 ^ (8 - l) /\ 0 < 2 ^ (7 - l) <= 64 /\ 2 ^ (8 - l) = 2 * 2 ^ (7 - l).
Proof.
  intros Hl. assert (H : l = 1 \/ l = 2 \/ l = 3 \/ l = 4 \/ l = 5 \/ l = 6 \/ l = 7) by lia.
  by repeat destruct H as [->|H]; subst.
Qed.

Lemma shiftr_block l b : 0 <= l -> Z.shiftr (2 * 2 ^ l * b) (l + 1) = b.
Proof. intros Hl. rewrite Z.shiftr_div_pow2, <- Z.pow_succ_r, Z.mul_comm, Z.add_1_r by lia. apply Z.div_mul. lia. Qed.

Lemma ntt_layer_runs l a : 1 <= l < 8 -> coeffs N a ->
  exists a', ntt_layer l a = Some a' /\ coeffs N a' /\ forall p, 0 <= p < N -> co a' p = fwd l (co a) p.
Proof.
  intros Hl Ha. destruct (layer_sizes l Hl) as (E1 & H1 & E2 & E3 & _ & H2 & _). unfold ntt_layer.
  rewrite Z.shiftl_mul_pow2, E1, Z.mul_comm by lia. change (2 ^ 1) with 2. apply (layer_runs _ H1 _ _ _ (2 ^ (7 - l))); [lia..|done|].
  intros b s Hb Hs. unfold ntt_block. rewrite E1, E3, shiftr_block by lia.
  destruct (coeffs_rd _ _ (2 ^ (7 - l) + b) NTT_coeffs) as (z & E & Hz & Ez); [change (N / 2) with 128; lia|]. rewrite E. cbn [mbind option_bind].
  apply (block_runs _ H1 _ (fun b x y => x + fwd_zeta l b * y)%Zmod (fun b x y => x - fwd_zeta l b * y)%Zmod); [|done|lia|nia].
  unfold fwd_zeta. rewrite <- Ez. by apply ntt_butterfly_spec.
Qed.

Lemma intt_layer_runs l a : 1 <= l < 8 -> coeffs N a ->
  exists a', intt_layer l a = Some a' /\ coeffs N a' /\ forall p, 0 <= p < N -> co a' p = inv l (co a) p.
Proof.
  intros Hl Ha. destruct (layer_sizes l Hl) as (E1 & H1 & E2 & _ & E3 & H2 & E4). unfold intt_layer.
  rewrite Z.shiftl_mul_pow2, E1, Z.mul_comm by lia. change (2 ^ 1) with 2. apply (layer_runs _ H1 _ _ _ (2 ^ (7 - l))); [lia..|done|].
  intros b s Hb Hs. unfold intt_block. rewrite E1, E3, shiftr_block by lia.
  destruct (coeffs_rd _ _ (2 ^ (8 - l) - 1 - b) INTT_coeffs) as (z & E & Hz & Ez); [change (N / 2) with 128; lia|]. rewrite E. cbn [mbind option_bind].
  apply (block_runs _ H1 _ (fun b x y => x + y)%Zmod (fun b x y => (x - y) * inv_zeta l b)%Zmod); [|done|lia|nia].
  unfold inv_zeta. rewrite <- Ez. by apply intt_butterfly_spec.
Qed.

(** ** The transforms as functions on coefficients *)

Lemma pass_ext len c f g a a' : 0 < len -> 2 * len * c = N -> (forall p, 0 <= p < N -> a p = a' p) ->
  forall p, 0 <= p < N -> pass len f g a p = pass len f g a' p.
Proof.
  intros Hlen Hc E p Hp. unfold pass. pose proof (block_bounds len p Hlen) as Hb. destruct (in_block len _ p Hlen Hb) as [_ Em]. rewrite Em.
  assert (0 <= p / (2 * len)) by (apply Z.div_pos; lia). assert (p / (2 * len) < c) by (apply Z.div_lt_upper_bound; lia).
  assert (0 <= 2 * len * (p / (2 * len))) by nia. assert (2 * len * (p / (2 * len) + 1) <= N) by nia.
  destruct (Z.ltb_spec (p - 2 * len * (p / (2 * len))) len); rewrite !E by lia; done.
Qed.

Lemma pass_pass len f g f' g' a p : 0 < len -> pass len f' g' (pass len f g a) p =
  pass len (fun b x y => f' b (f b x y) (g b x y)) (fun b x y => g' b (f b x y) (g b x y)) a p.
Proof.
  intros Hlen. unfold pass. set (b := p / (2 * len)). pose proof (block_bounds len p Hlen) as Hb. fold b in Hb.
  destruct (in_block len b p Hlen Hb) as [_ Em]. rewrite Em. destruct (Z.ltb_spec (p - 2 * len * b) len) as [Hlt|Hge].
  - destruct (in_block len b (p + len) Hlen) as [-> ->]; [lia|]. replace (p + len - 2 * len * b <? len) with false by lia. by rewrite Z.add_simpl_r.
  - destruct (in_block len b (p - len) Hlen) as [-> ->]; [lia|]. replace (p - len - 2 * len * b <? len) with true by lia. by rewrite Z.sub_add.
Qed.

(** The constants of a block in the two directions are inverse to each other. *)
Lemma zetas_inverse l b : 1 <= l < 8 -> 0 <= b < 2 ^ (7 - l) -> (fwd_zeta l b * inv_zeta l b)%Zmod = 1%Zmod.
Proof.
  intros Hl Hb.
  assert (H : forallb (fun l => forallb (fun b => bool_decide ((fwd_zeta l b * inv_zeta l b)%Zmod = 1%Zmod)) (zrange 0 (2 ^ (7 - l)))) (zrange 1 8) = true)
    by (by vm_compute).
  rewrite forallb_forall in H. specialize (H l). rewrite forallb_forall in H. apply (bool_decide_eq_true_1 _), H; apply list_elem_of_In, elem_of_zrange; lia.
Qed.

Definition two : fq := (1 + 1)%Zmod.

Lemma block_index l p : 1 <= l < 8 -> 0 <= p < N -> 0 <= p / (2 * 2 ^ l) < 2 ^ (7 - l).
Proof.
  intros Hl Hp. destruct (layer_sizes l Hl) as (_ & H1 & E2 & _). split; [apply Z.div_pos; lia|apply Z.div_lt_upper_bound; lia].
Qed.

Lemma inv_fwd l a p : 1 <= l < 8 -> 0 <= p < N -> inv l (fwd l a) p = (two * a p)%Zmod.
Proof.
  intros Hl Hp. destruct (layer_sizes l Hl) as (_ & H1 & _). pose proof (zetas_inverse l _ Hl (block_index l p Hl Hp)) as E.
  unfold inv, fwd. rewrite pass_pass by done. unfold pass. set (b := p / (2 * 2 ^ l)) in *. unfold two. destruct (_ <? _); [ring|].
  transitivity ((1 + 1) * a p * (fwd_zeta l b * inv_zeta l b))%Zmod; [ring|rewrite E; ring].
Qed.

Lemma fwd_inv l a p : 1 <= l < 8 -> 0 <= p < N -> fwd l (inv l a) p = (two * a p)%Zmod.
Proof.
  intros Hl Hp. destruct (layer_sizes l Hl) as (_ & H1 & _). pose proof (zetas_inverse l _ Hl (block_index l p Hl Hp)) as E.
  unfold inv, fwd. rewrite pass_pass by done. unfold pass. set (b := p / (2 * 2 ^ l)) in *. unfold two. destruct (_ <? _).
  - transitivity (a p + a (p + 2 ^ l)%Z + (fwd_zeta l b * inv_zeta l b) * (a p - a (p + 2 ^ l)%Z))%Zmod; [ring|rewrite E; ring].
  - transitivity (a (p - 2 ^ l)%Z + a p - (fwd_zeta l b * inv_zeta l b) * (a (p - 2 ^ l)%Z - a p))%Zmod; [ring|rewrite E; ring].
Qed.

Lemma fwd_scale l c a p : fwd l (fun p => c * a p)%Zmod p = (c * fwd l a p)%Zmod.
Proof. unfold fwd, pass. destruct (_ <? _); ring. Qed.

Lemma inv_scale l c a p : inv l (fun p => c * a p)%Zmod p = (c * inv l a p)%Zmod.
Proof. unfold inv, pass. destruct (_ <? _); ring. Qed.

Lemma fwd_ext l a a' : 1 <= l < 8 -> (forall p, 0 <= p < N -> a p = a' p) -> forall p, 0 <= p < N -> fwd l a p = fwd l a' p.
Proof. intros Hl. destruct (layer_sizes l Hl) as (_ & H1 & E & _). by apply (pass_ext _ (2 ^ (7 - l))). Qed.

Lemma inv_ext l a a' : 1 <= l < 8 -> (forall p, 0 <= p < N -> a p = a' p) -> forall p, 0 <= p < N -> inv l a p = inv l a' p.
Proof. intros Hl. destruct (layer_sizes l Hl) as (_ & H1 & E & _). by apply (pass_ext _ (2 ^ (7 - l))). Qed.

(** Several layers one after the other *)
Section Layers.
Context (layer : Z -> list Z -> option (list Z)) (tr : Z -> (Z -> fq) -> Z -> fq).
Hypothesis tr_ext : forall l a a', 1 <= l < 8 -> (forall p, 0 <= p < N -> a p = a' p) -> forall p, 0 <= p < N -> tr l a p = tr l a' p.
Hypothesis tr_runs : forall l a, 1 <= l < 8 -> coeffs N a ->
  exists a', layer l a = Some a' /\ coeffs N a' /\ forall p, 0 <= p < N -> co a' p = tr l (co a) p.

Definition layers (ls : list Z) (a : Z -> fq) : Z -> fq := fold_left (fun a l => tr l a) ls a.

Lemma layers_ext ls a a' : Forall (fun l => 1 <= l < 8) ls -> (forall p, 0 <= p < N -> a p = a' p) ->
  forall p, 0 <= p < N -> layers ls a p = layers ls a' p.
Proof.
  intros Hls. revert a a'. induction Hls as [|l ls Hl Hls IH]; intros a a' E p Hp; [by apply E|]. cbn. apply IH; [|done].
  by apply tr_ext.
Qed.

Lemma layers_run ls a : Forall (fun l => 1 <= l < 8) ls -> coeffs N a ->
  exists a', foldm layer ls a = Some a' /\ coeffs N a' /\ forall p, 0 <= p < N -> co a' p = layers ls (co a) p.
Proof.
  intros Hls. revert a. induction Hls as [|l ls Hl Hls IH]; intros a Ha; [by exists a|].
  destruct (tr_runs l a Hl Ha) as (a1 & E & H1 & Eq1). destruct (IH a1 H1) as (a2 & E2 & H2 & Eq2). exists a2. cbn. rewrite E. cbn.
  split; [done|]. split; [done|]. intros p Hp. rewrite Eq2 by done. by apply layers_ext.
Qed.
End Layers.

Definition ntt_fn : (Z -> fq) -> Z -> fq := layers fwd (rev (zrange 1 8)).
Definition intt_fn (a : Z -> fq) (p : Z) : fq := (fz INV_N * layers inv (zrange 1 8) a p)%Zmod.

Lemma all_layers : Forall (fun l => 1 <= l < 8) (zrange 1 8).
Proof. apply List.Forall_forall. intros l Hl. by apply elem_of_zrange, list_elem_of_In. Qed.

Lemma all_layers_rev : Forall (fun l => 1 <= l < 8) (rev (zrange 1 8)).
Proof. apply Forall_rev, all_layers. Qed.

Lemma ntt_runs_as a : coeffs N a -> exists a', ntt a = Some a' /\ coeffs N a' /\ forall p, 0 <= p < N -> co a' p = ntt_fn (co a) p.
Proof. apply (layers_run ntt_layer fwd fwd_ext ntt_layer_runs), all_layers_rev. Qed.

Lemma INV_N_canonical : canonical INV_N.
Proof. by apply zinv_canonical. Qed.

#[local] Opaque INV_N.

#[local] Hint Resolve INV_N_canonical : ml.

Lemma intt_runs_as a : coeffs N a -> exists a', intt a = Some a' /\ coeffs N a' /\ forall p, 0 <= p < N -> co a' p = intt_fn (co a) p.
Proof.
  intros Ha. destruct (layers_run intt_layer inv inv_ext intt_layer_runs (zrange 1 8) a all_layers Ha) as (a1 & E & H1 & Eq).
  unfold intt. change LOG2N with 8. rewrite E. cbn [mbind option_bind].
  destruct (each_coeff N scale_at (fun _ x => fz INV_N * x)%Zmod a1) as (a2 & E2 & H2 & Eq2); [|done|].
  - intros i s Hi Hs. unfold scale_at. coeffs_step. coeffs_step. eexists. split; [done|]. split; [done|]. intros j. rewrite Hco.
    destruct (j =? i); [|done]. rewrite fz_zmul, Hv by auto with ml. ring.
  - exists a2. split; [done|]. split; [done|]. intros p Hp. by rewrite Eq2, Eq.
Qed.

(** Layers that undo each other one by one, up to a factor *)
Lemma layers_undo tr un ls a p :
  (forall l a a', 1 <= l < 8 -> (forall p, 0 <= p < N -> a p = a' p) -> forall p, 0 <= p < N -> un l a p = un l a' p) ->
  (forall l c a p, un l (fun p => c * a p)%Zmod p = (c * un l a p)%Zmod) ->
  (forall l a p, 1 <= l < 8 -> 0 <= p < N -> un l (tr l a) p = (two * a p)%Zmod) ->
  Forall (fun l => 1 <= l < 8) ls -> 0 <= p < N ->
  layers un (rev ls) (layers tr ls a) p = (two ^ Z.of_nat (length ls) * a p)%Zmod.
Proof.
  intros Hext Hscale Hun Hls Hp. revert a p Hp. induction Hls as [|l ls Hl Hls IH]; intros a p Hp; [cbn; rewrite Zmod.pow_0_r; ring|].
  cbn [rev layers fold_left length]. unfold layers. rewrite fold_left_app. cbn [fold_left].
  rewrite (Hext _ _ (fun p => two ^ Z.of_nat (length ls) * tr l a p)%Zmod) by first [done|exact (IH _)].
  rewrite Hscale, Hun by done. rewrite Nat2Z.inj_succ, Zmod.pow_succ_nonneg_r by lia. ring.
Qed.

Lemma two_pow : (fz INV_N * two ^ 7)%Zmod = 1%Zmod.
Proof. apply Zmod.unsigned_inj. by vm_compute. Qed.

Lemma layers_scale tr ls c a p : 
  (forall l a a', 1 <= l < 8 -> (forall p, 0 <= p < N -> a p = a' p) -> forall p, 0 <= p < N -> tr l a p = tr l a' p) ->
  (forall l c a p, tr l (fun p => c * a p)%Zmod p = (c * tr l a p)%Zmod) ->
  Forall (fun l => 1 <= l < 8) ls -> 0 <= p < N -> layers tr ls (fun p => c * a p)%Zmod p = (c * layers tr ls a p)%Zmod.
Proof.
  intros Hext Hscale Hls Hp. revert a. induction Hls as [|l ls Hl Hls IH]; intros a; [done|].
  change (layers tr ls (tr l (fun p => c * a p)%Zmod) p = (c * layers tr ls (tr l a) p)%Zmod). rewrite <- IH. apply layers_ext; [done..| |done]. intros q _. apply Hscale.
Qed.

Lemma intt_ntt_fn a p : 0 <= p < N -> intt_fn (ntt_fn a) p = a p.
Proof.
  intros Hp. unfold intt_fn, ntt_fn. rewrite <- (rev_involutive (zrange 1 8)) at 1.
  rewrite (layers_undo fwd inv); [|exact inv_ext|exact inv_scale|exact (fun l a p => inv_fwd l a p)|exact all_layers_rev|done].
  change (Z.of_nat (length (rev (zrange 1 8)))) with 7. transitivity ((fz INV_N * two ^ 7) * a p)%Zmod; [ring|]. rewrite two_pow. ring.
Qed.

Lemma ntt_intt_fn a p : 0 <= p < N -> ntt_fn (intt_fn a) p = a p.
Proof.
  intros Hp. unfold intt_fn, ntt_fn. rewrite layers_scale; [|exact fwd_ext|exact fwd_scale|exact all_layers_rev|done].
  rewrite (layers_undo inv fwd); [|exact fwd_ext|exact fwd_scale|exact (fun l a p => fwd_inv l a p)|exact all_layers|done].
  change (Z.of_nat (length (zrange 1 8))) with 7. transitivity ((fz INV_N * two ^ 7) * a p)%Zmod; [ring|]. rewrite two_pow. ring.
Qed.
