(* ===== verification/MlRing.v ===== *)
(** * What the transform of ML-KEM computes

    Finite sums and powers in a commutative ring, the product of polynomials
    modulo [X^n + 1] and its values at a root of [X^n + 1].  The ring of the
    residues modulo [X^2 - gamma] is the pairs of field elements that [basemul]
    multiplies; a transformed polynomial holds its values at [X] in 128 of
    these rings, so that [polymul] between the two transforms is the product
    modulo [X^256 + 1]. *)

From Stdlib Require Import Lia Zmod Ring.
From stdpp Require Import base tactics list numbers option.
From S2P Require Import Prelude QrArray MlField MlNtt.
Local Open Scope Z_scope.

(** ** Sums and powers in a commutative ring *)

Section CommRing.
Context {A : Type} (rO rI : A) (radd rmul rsub : A -> A -> A) (ropp : A -> A).
Hypothesis RT : ring_theory rO rI radd rmul rsub ropp eq.
Add Ring ring_of_section : RT.

Declare Scope ring_section_scope.
Infix "+!" := radd (at level 50, left associativity) : ring_section_scope.
Infix "*!" := rmul (at level 40, left associativity) : ring_section_scope.
Local Open Scope ring_section_scope.

Fixpoint rsum (n : nat) (f : nat -> A) : A :=
  match n with O => rO | S n => rsum n f +! f n end.

Fixpoint rpow (x : A) (n : nat) : A := match n with O => rI | S n => x *! rpow x n end.

Lemma rsum_ext n f g : (forall i, (i < n)%nat -> f i = g i) -> rsum n f = rsum n g.
Proof. induction n as [|n IH]; intros E; [done|]. cbn. rewrite IH, E by (intros; try apply E; lia). done. Qed.

Lemma rsum_app n m f : rsum (n + m) f = rsum n f +! rsum m (fun i => f (n + i)%nat).
Proof.
  induction m as [|m IH]; [rewrite Nat.add_0_r; cbn; ring|]. rewrite Nat.add_succ_r. cbn. rewrite IH. ring.
Qed.

Lemma rsum_mul_l n c f : c *! rsum n f = rsum n (fun i => c *! f i).
Proof. induction n as [|n IH]; cbn; [ring|]. rewrite <- IH. ring. Qed.

Lemma rsum_mul_r n c f : rsum n f *! c = rsum n (fun i => f i *! c).
Proof. induction n as [|n IH]; cbn; [ring|]. rewrite <- IH. ring. Qed.

Lemma rsum_add n f g : rsum n (fun i => f i +! g i) = rsum n f +! rsum n g.
Proof. induction n as [|n IH]; cbn; [ring|]. rewrite IH. ring. Qed.

Lemma rsum_zero n f : (forall i, (i < n)%nat -> f i = rO) -> rsum n f = rO.
Proof. induction n as [|n IH]; intros E; [done|]. cbn. rewrite IH, E by (intros; try apply E; lia). ring. Qed.

Lemma rsum_swap n m (f : nat -> nat -> A) : rsum n (fun i => rsum m (f i)) = rsum m (fun j => rsum n (fun i => f i j)).
Proof.
  induction n as [|n IH]; cbn; [symmetry; by apply rsum_zero|]. by rewrite IH, rsum_add.
Qed.

Lemma rsum_even_odd n f : rsum (2 * n) f = rsum n (fun i => f (2 * i)%nat) +! rsum n (fun i => f (2 * i + 1)%nat).
Proof.
  induction n as [|n IH]; [cbn; ring|]. replace (2 * S n)%nat with (S (S (2 * n))) by lia. cbn [rsum]. rewrite IH.
  replace (2 * n + 1)%nat with (S (2 * n)) by lia. ring.
Qed.

Lemma rpow_add x n m : rpow x (n + m) = rpow x n *! rpow x m.
Proof. induction n as [|n IH]; cbn; [ring|]. rewrite IH. ring. Qed.

Lemma rpow_square x n : rpow x (2 * n) = rpow (x *! x) n.
Proof. induction n as [|n IH]; [done|]. replace (2 * S n)%nat with (S (S (2 * n))) by lia. cbn [rpow]. rewrite IH. ring. Qed.

(** *** The product modulo [X^n + 1] *)

Definition negacyclic (n : nat) (f g : nat -> A) (k : nat) : A :=
  rsum n (fun i => f i *! (if (i <=? k)%nat then g (k - i)%nat else ropp (g (n + k - i)%nat))).

Lemma negacyclic_row n (x : A) (g : nat -> A) i : rpow x n = ropp rI -> (i < n)%nat ->
  rsum n (fun k => (if (i <=? k)%nat then g (k - i)%nat else ropp (g (n + k - i)%nat)) *! rpow x k)
  = rpow x i *! rsum n (fun j => g j *! rpow x j).
Proof.
  intros Hx Hi. replace n with (i + (n - i))%nat at 1 by lia. rewrite rsum_app.
  replace (rsum n (fun j => g j *! rpow x j)) with (rsum ((n - i) + i) (fun j => g j *! rpow x j)) by (f_equal; lia). rewrite rsum_app.
  rewrite (rsum_ext (n - i) _ (fun j => rpow x i *! (g j *! rpow x j))).
  - rewrite <- rsum_mul_l. rewrite (rsum_ext i _ (fun j => rpow x i *! (g (n - i + j)%nat *! rpow x (n - i + j)))).
    + rewrite <- rsum_mul_l. ring.
    + intros j Hj. rewrite (proj2 (Nat.leb_gt i j)) by lia. replace (n + j - i)%nat with (n - i + j)%nat by lia.
      transitivity (ropp rI *! (g (n - i + j)%nat *! rpow x j)); [ring|]. rewrite <- Hx. replace n with (i + (n - i))%nat at 1 by lia.
      rewrite !rpow_add. ring.
  - intros j Hj. rewrite (proj2 (Nat.leb_le i (i + j))) by lia. replace (i + j - i)%nat with j by lia. rewrite rpow_add. ring.
Qed.

Lemma negacyclic_eval n (x : A) (f g : nat -> A) : rpow x n = ropp rI ->
  rsum n (fun k => negacyclic n f g k *! rpow x k) = rsum n (fun i => f i *! rpow x i) *! rsum n (fun j => g j *! rpow x j).
Proof.
  intros Hx. unfold negacyclic. rewrite (rsum_ext n _ (fun k => rsum n (fun i => f i *! (if (i <=? k)%nat then g (k - i)%nat else ropp (g (n + k - i)%nat)) *! rpow x k)))
    by (intros; apply rsum_mul_r).
  rewrite rsum_swap, rsum_mul_r. apply rsum_ext. intros i Hi. rewrite <- (rsum_ext n (fun k => f i *! ((if (i <=? k)%nat then g (k - i)%nat else ropp (g (n + k - i)%nat)) *! rpow x k))) by (intros; ring).
  rewrite <- rsum_mul_l, negacyclic_row by done. ring.
Qed.
End CommRing.

(** ** The field and the residues modulo [X^2 - gamma] *)

Notation fsum := (rsum (@Zmod.zero Q) (@Zmod.add Q)).
Notation fpow := (rpow (@Zmod.one Q) (@Zmod.mul Q)).
Notation fconv := (negacyclic (@Zmod.zero Q) (@Zmod.add Q) (@Zmod.mul Q) (@Zmod.opp Q)).

Definition res := (fq * fq)%type.
Definition radd (x y : res) : res := (x.1 + y.1, x.2 + y.2)%Zmod.
Definition rsub (x y : res) : res := (x.1 - y.1, x.2 - y.2)%Zmod.
Definition ropp (x : res) : res := (- x.1, - x.2)%Zmod.
Definition rmul (gamma : fq) (x y : res) : res := (x.1 * y.1 + x.2 * y.2 * gamma, x.1 * y.2 + x.2 * y.1)%Zmod.
Definition rconst (c : fq) : res := (c, Zmod.zero).
Definition rX : res := (Zmod.zero, Zmod.one).

Lemma res_theory gamma : ring_theory (rconst Zmod.zero) (rconst Zmod.one) radd (rmul gamma) rsub ropp eq.
Proof. split; intros; repeat match goal with x : res |- _ => destruct x end; unfold radd, rmul, rsub, ropp, rconst; cbn; f_equal; ring. Qed.

Lemma rpow_X gamma m : rpow (rconst Zmod.one) (rmul gamma) rX (2 * m) = rconst (fpow gamma m) /\
  rpow (rconst Zmod.one) (rmul gamma) rX (2 * m + 1) = (Zmod.zero, fpow gamma m).
Proof.
  assert (E : rpow (rconst Zmod.one) (rmul gamma) rX (2 * m) = rconst (fpow gamma m)).
  { rewrite (rpow_square _ _ _ _ _ _ (res_theory gamma)). induction m as [|m IH]; [done|]. cbn [rpow]. rewrite IH.
    unfold rmul, rconst, rX. cbn. f_equal; ring. }
  split; [done|]. rewrite Nat.add_comm. cbn [Nat.add rpow]. change (2 * m)%nat with (2 * m)%nat in E. cbn [rpow] in E |- *. rewrite E.
  unfold rmul, rconst, rX. cbn. f_equal; ring.
Qed.

(** The residue modulo [X^2 - gamma] of the polynomial with coefficients [f 0 .. f (2 n - 1)] *)
Definition value (gamma : fq) (n : nat) (f : nat -> fq) : res :=
  (fsum n (fun m => f (2 * m)%nat * fpow gamma m)%Zmod, fsum n (fun m => f (2 * m + 1)%nat * fpow gamma m)%Zmod).

Lemma rsum_pair n (f g : nat -> fq) : rsum (rconst Zmod.zero) radd n (fun i => (f i, g i)) = (fsum n f, fsum n g).
Proof. induction n as [|n IH]; [done|]. cbn. by rewrite IH. Qed.

Lemma value_sum gamma n f : value gamma n f =
  rsum (rconst Zmod.zero) radd (2 * n) (fun p => rmul gamma (rconst (f p)) (rpow (rconst Zmod.one) (rmul gamma) rX p)).
Proof.
  rewrite (rsum_even_odd _ _ _ _ _ _ (res_theory gamma)).
  set (even := fun m => (f (2 * m)%nat * fpow gamma m)%Zmod). set (odd := fun m => (f (2 * m + 1)%nat * fpow gamma m)%Zmod).
  rewrite (rsum_ext (A := res) _ _ n _ (fun m => (even m, Zmod.zero))), (rsum_ext (A := res) _ _ n (fun m => rmul gamma (rconst (f (2 * m + 1)%nat)) _) (fun m => (Zmod.zero, odd m))).
  - rewrite !rsum_pair. unfold radd, value. cbn [fst snd]. rewrite !(rsum_zero _ _ _ _ _ _ (Zmod.ring_theory Q) n (fun _ => Zmod.zero)) by done. f_equal; subst even odd; cbn [fst snd]; symmetry; [apply Zmod.add_0_r|apply Zmod.add_0_l].
  - intros m _. rewrite (proj2 (rpow_X gamma m)). unfold rmul, rconst, odd. cbn. f_equal; ring.
  - intros m _. rewrite (proj1 (rpow_X gamma m)). unfold rmul, rconst, even. cbn. f_equal; ring.
Qed.

Lemma rsum_const n (h : nat -> fq) : rsum (rconst Zmod.zero) radd n (fun i => rconst (h i)) = rconst (fsum n h).
Proof. induction n as [|n IH]; [done|]. cbn. rewrite IH. unfold radd, rconst. cbn. f_equal; ring. Qed.

Lemma negacyclic_const gamma n f g k :
  negacyclic (rconst Zmod.zero) radd (rmul gamma) ropp n (fun p => rconst (f p)) (fun p => rconst (g p)) k = rconst (fconv n f g k).
Proof.
  unfold negacyclic. rewrite <- rsum_const. apply rsum_ext. intros i _. unfold rmul, rconst, ropp.
  destruct (_ <=? _)%nat; cbn; f_equal; ring.
Qed.

(** The residue of a product modulo [X^(2 n) + 1] *)
Lemma value_mul gamma n f g : fpow gamma n = (- (1))%Zmod ->
  value gamma n (fconv (2 * n) f g) = rmul gamma (value gamma n f) (value gamma n g).
Proof.
  intros Hg. rewrite !value_sum. rewrite <- (negacyclic_eval _ _ _ _ _ _ (res_theory gamma)).
  - apply rsum_ext. intros k _. f_equal. symmetry. apply negacyclic_const.
  - rewrite (proj1 (rpow_X gamma n)), Hg. unfold ropp, rconst. cbn. by f_equal.
Qed.

(** ** The transform as values *)

(** After layer [l] block [b] is the residue modulo [X^(2^l) - gam l b]. *)
Definition gam (l b : Z) : fq :=
  if l =? 8 then (- (1))%Zmod else if Z.even b then fwd_zeta l (b / 2) else (- fwd_zeta l (b / 2))%Zmod.

Lemma gam_square l b : 1 <= l < 8 -> 0 <= b < 2 ^ (7 - l) -> (fwd_zeta l b * fwd_zeta l b)%Zmod = gam (l + 1) b.
Proof.
  intros Hl Hb.
  assert (H : forallb (fun l => forallb (fun b => bool_decide ((fwd_zeta l b * fwd_zeta l b)%Zmod = gam (l + 1) b)) (zrange 0 (2 ^ (7 - l)))) (zrange 1 8) = true)
    by (by vm_compute).
  rewrite forallb_forall in H. specialize (H l). rewrite forallb_forall in H. apply (bool_decide_eq_true_1 _), H; apply list_elem_of_In, elem_of_zrange; lia.
Qed.

Lemma fsum_twisted n (s : fq) (f : nat -> fq) :
  (fsum n (fun m => f (2 * m)%nat * fpow (s * s) m) + s * fsum n (fun m => f (2 * m + 1)%nat * fpow (s * s) m))%Zmod
  = fsum (2 * n) (fun m => f m * fpow s m)%Zmod.
Proof.
  rewrite (rsum_even_odd _ _ _ _ _ _ (Zmod.ring_theory Q)). f_equal.
  - apply rsum_ext. intros m _. by rewrite (rpow_square _ _ _ _ _ _ (Zmod.ring_theory Q)).
  - rewrite (rsum_mul_l _ _ _ _ _ _ (Zmod.ring_theory Q)). apply rsum_ext. intros m _.
    rewrite Nat.add_comm. cbn [Nat.add rpow]. rewrite (rpow_square _ _ _ _ _ _ (Zmod.ring_theory Q)). ring.
Qed.

(** The coefficients of the sum for a block of length [len] *)
Definition at_step (a : Z -> fq) (len j : Z) (c : fq) (n : nat) : fq := fsum n (fun m => a (j + Z.of_nat m * len)%Z * fpow c m)%Zmod.

Lemma at_step_split a len j s n :
  (at_step a (2 * len) j (s * s) n + s * at_step a (2 * len) (j + len)%Z (s * s) n)%Zmod = at_step a len j s (2 * n).
Proof.
  unfold at_step. rewrite <- fsum_twisted. f_equal; [|f_equal]; apply rsum_ext; intros m _; do 2 f_equal; lia.
Qed.

(** One layer refines the residues. *)
Lemma level_step l (a v : Z -> fq) n b j : 1 <= l < 8 -> 0 <= b < 2 * 2 ^ (7 - l) -> 0 <= j < 2 ^ l ->
  (forall b' j', 0 <= b' < 2 ^ (7 - l) -> 0 <= j' < 2 * 2 ^ l -> v (b' * (2 * 2 ^ l) + j') = at_step a (2 * 2 ^ l) j' (gam (l + 1) b') n) ->
  fwd l v (b * 2 ^ l + j) = at_step a (2 ^ l) j (gam l b) (2 * n).
Proof.
  intros Hl Hb Hj Hv. destruct (layer_sizes l Hl) as (_ & H1 & _).
  pose proof (Z.div_mod b 2 ltac:(lia)) as Eb. pose proof (Z.mod_pos_bound b 2 ltac:(lia)) as Hm.
  unfold gam. replace (l =? 8) with false by lia. rewrite Zeven_mod. set (b' := b / 2) in *. assert (Hb' : 0 <= b' < 2 ^ (7 - l)) by lia.
  rewrite <- at_step_split. assert (Esq := gam_square l b' Hl Hb').
  assert (Hp : 2 * 2 ^ l * b' <= b * 2 ^ l + j < 2 * 2 ^ l * (b' + 1)) by nia.
  destruct (in_block (2 ^ l) b' _ H1 Hp) as [Ed Em]. unfold fwd, pass. rewrite Ed, Em.
  assert (Hm' : b mod 2 = 0 \/ b mod 2 = 1) by lia. destruct Hm' as [E0|E0]; rewrite E0 in Eb |- *.
  - replace (b * 2 ^ l + j - 2 * 2 ^ l * b' <? 2 ^ l) with true by nia. change (Zeq_bool 0 0) with true. cbn iota. rewrite Esq.
    replace (b * 2 ^ l + j) with (b' * (2 * 2 ^ l) + j) by nia. rewrite <- Z.add_assoc. by rewrite !Hv by lia.
  - replace (b * 2 ^ l + j - 2 * 2 ^ l * b' <? 2 ^ l) with false by nia. change (Zeq_bool 1 0) with false. cbn iota.
    replace (- fwd_zeta l b' * - fwd_zeta l b')%Zmod with (fwd_zeta l b' * fwd_zeta l b')%Zmod by ring. rewrite Esq.
    replace (b * 2 ^ l + j - 2 ^ l) with (b' * (2 * 2 ^ l) + j) by nia. replace (b * 2 ^ l + j) with (b' * (2 * 2 ^ l) + (j + 2 ^ l)) by nia.
    rewrite !Hv by lia. ring.
Qed.

Lemma ntt_levels (k : nat) a : let l := 8 - Z.of_nat k in (k <= 7)%nat -> forall b j, 0 <= b < 2 ^ Z.of_nat k -> 0 <= j < 2 ^ l ->
  layers fwd (rev (zrange l 8)) a (b * 2 ^ l + j) = at_step a (2 ^ l) j (gam l b) (2 ^ k).
Proof.
  induction k as [|k IH]; intros l Hk b j Hb Hj.
  - unfold l. cbn in Hb. assert (b = 0) as -> by lia. rewrite zrange_nil by lia. unfold at_step, layers. cbn [rev fold_left Nat.pow rsum rpow].
    rewrite Z.mul_0_l, Z.add_0_l, Z.mul_0_l, Z.add_0_r. symmetry. rewrite Zmod.mul_1_r. apply Zmod.add_0_l.
  - assert (Hl : 1 <= l < 8) by lia. rewrite zrange_cons by lia. cbn [rev]. unfold layers. rewrite fold_left_app. cbn [fold_left].
    assert (El : 8 - Z.of_nat k = l + 1) by lia. cbv zeta in IH. rewrite El in IH. assert (Ek : 2 ^ (7 - l) = 2 ^ Z.of_nat k) by (f_equal; lia).
    replace (2 ^ S k)%nat with (2 * 2 ^ k)%nat by done. apply level_step; [done| |done|].
    + rewrite Ek, <- Z.pow_succ_r by lia. by rewrite <- Nat2Z.inj_succ.
    + intros b' j' Hb' Hj'. rewrite Ek in Hb'. rewrite <- Z.pow_succ_r in Hj' |- * by lia. apply IH; [lia|done|done].
Qed.

(** Block [b] of a transformed polynomial *)
Definition pair_at (a : Z -> fq) (b : Z) : res := (a (2 * b), a (2 * b + 1)).

(** The coefficients by natural numbers *)
Definition nat_co (a : Z -> fq) (i : nat) : fq := a (Z.of_nat i).

Lemma ntt_fn_value a b : 0 <= b < 128 -> pair_at (ntt_fn a) b = value (gam 1 b) 128 (nat_co a).
Proof.
  intros Hb. unfold pair_at, value, ntt_fn, nat_co. pose proof (ntt_levels 7 a ltac:(lia) b) as H. change (8 - Z.of_nat 7) with 1 in H.
  change (2 ^ 7)%nat with 128%nat in H. change (2 ^ 1) with 2 in H. change (2 ^ Z.of_nat 7) with 128 in H.
  replace (2 * b) with (b * 2 + 0) at 1 by lia. replace (2 * b + 1) with (b * 2 + 1) by lia. rewrite !H by lia.
  unfold at_step. apply (f_equal2 pair); apply rsum_ext; intros m _; [replace (Z.of_nat (2 * m)) with (0 + Z.of_nat m * 2) by lia|replace (Z.of_nat (2 * m + 1)) with (1 + Z.of_nat m * 2) by lia]; done.
Qed.

Definition root_ok (b : Z) : bool := bool_decide (co POLY_MUL_zeta_EXP b = gam 1 b) && bool_decide (fpow (gam 1 b) 128 = (- (1))%Zmod).

Lemma roots_checked : forallb root_ok (zrange 0 128) = true.
Proof. by vm_compute. Qed.

Lemma root_ok_spec b : root_ok b = true -> co POLY_MUL_zeta_EXP b = gam 1 b /\ fpow (gam 1 b) 128 = (- (1))%Zmod.
Proof. unfold root_ok. rewrite andb_true_iff, !bool_decide_eq_true. done. Qed.

#[local] Opaque root_ok.

Lemma poly_mul_roots b : 0 <= b < 128 -> co POLY_MUL_zeta_EXP b = gam 1 b /\ fpow (gam 1 b) 128 = (- (1))%Zmod.
Proof.
  intros Hb. apply root_ok_spec. apply (proj1 (forallb_forall _ _) roots_checked). by apply list_elem_of_In, elem_of_zrange.
Qed.

Lemma basemul_runs f g h b z : coeffs N f -> coeffs N g -> coeffs N h -> canonical z -> 0 <= b < 128 ->
  exists h', basemul f g (b * 2) z h = Some h' /\ coeffs N h' /\
    pair_at (co h') b = rmul (fz z) (pair_at (co f) b) (pair_at (co g) b) /\ forall b', b' <> b -> pair_at (co h') b' = pair_at (co h) b'.
Proof.
  intros Hf Hg Hh Hz Hb. change N with 256 in *. unfold basemul, pair_at, rmul. rewrite (Z.mul_comm b 2).
  destruct (coeffs_rd _ f (2 * b) Hf) as (f0 & -> & Hf0 & <-); [lia|]. destruct (coeffs_rd _ f (2 * b + 1) Hf) as (f1 & -> & Hf1 & <-); [lia|].
  destruct (coeffs_rd _ g (2 * b) Hg) as (g0 & -> & Hg0 & <-); [lia|]. destruct (coeffs_rd _ g (2 * b + 1) Hg) as (g1 & -> & Hg1 & <-); [lia|].
  cbn [mbind option_bind]. coeffs_step. coeffs_step. eexists. split; [done|]. split; [done|].
  split; [|intros b' Hne; rewrite !Hco0, !Hco; cbn [fst snd]; repeat match goal with |- context [?x =? ?y] => replace (x =? y) with false by lia end; done].
  rewrite !Hco0, !Hco. rewrite !Z.eqb_refl. replace (2 * b =? 2 * b + 1) with false by lia. cbn [fst snd].
  rewrite !fz_zadd, !fz_zmul by auto with ml. f_equal; ring.
Qed.

Lemma polymul_runs f g h : coeffs N f -> coeffs N g -> coeffs N h ->
  exists h', polymul f g h = Some h' /\ coeffs N h' /\
    forall b, 0 <= b < 128 -> pair_at (co h') b = rmul (gam 1 b) (pair_at (co f) b) (pair_at (co g) b).
Proof.
  intros Hf Hg Hh. unfold polymul. change (N / 2) with 128.
  range_invariant (fun k s => coeffs N s /\ forall b, 0 <= b < k -> pair_at (co s) b = rmul (gam 1 b) (pair_at (co f) b) (pair_at (co g) b)).
  - done.
  - intros i s Hi [Hs Hprev]. destruct (coeffs_rd _ _ i POLY_MUL_coeffs Hi) as (z & -> & Hz & Ez). cbn [mbind option_bind].
    destruct (basemul_runs f g s i z Hf Hg Hs Hz Hi) as (s' & E & Hs' & Hi' & Hother). exists s'. split; [done|]. split; [done|].
    intros b Hb. destruct (Z.eq_dec b i) as [->|Hne]; [|rewrite Hother by done; apply Hprev; lia].
    by rewrite Hi', Ez, (proj1 (poly_mul_roots i Hi)).
  - split; [done|]. lia.
  - by exists s.
Qed.

(** ** Schoolbook multiplication *)

(** The product modulo [X^256 + 1], over the integers and then reduced *)
Definition negacyclic_product (f g : list Z) : list Z :=
  map (fun k => negacyclic 0 Z.add Z.mul Z.opp 256 (fun i => nth i f 0) (fun i => nth i g 0) k mod Q) (seq 0 256).

Lemma fz_negacyclic n (f g : nat -> Z) k : fz (negacyclic 0 Z.add Z.mul Z.opp n f g k) = fconv n (fun i => fz (f i)) (fun i => fz (g i)) k.
Proof.
  unfold negacyclic. generalize n at 2 4 as m. intros m. induction n as [|n IH]; [done|]. cbn [rsum]. unfold fz in *. rewrite Zmod.of_Z_add, IH. f_equal.
  rewrite Zmod.of_Z_mul. f_equal. destruct (_ <=? _)%nat; [done|apply Zmod.of_Z_opp].
Qed.

Lemma co_nth a i : co a (Z.of_nat i) = fz (nth i a 0).
Proof. unfold co. rewrite rd_nat. f_equal. by rewrite nth_lookup. Qed.

Lemma negacyclic_product_coeffs f g : coeffs N (negacyclic_product f g).
Proof.
  split; [by unfold negacyclic_product; rewrite length_map, length_seq|]. unfold negacyclic_product. apply List.Forall_forall. intros v [k [<- _]]%in_map_iff.
  apply mod_canonical.
Qed.

Lemma co_negacyclic_product f g i : (i < 256)%nat -> co (negacyclic_product f g) (Z.of_nat i) = fconv 256 (nat_co (co f)) (nat_co (co g)) i.
Proof.
  intros Hi. unfold co at 1. rewrite rd_nat. unfold negacyclic_product. rewrite list_lookup_fmap, lookup_seq_lt by done.
  cbn [fmap option_fmap option_map default id from_option Nat.add].
  rewrite fz_mod, fz_negacyclic. unfold negacyclic. apply rsum_ext. intros j _.
  unfold nat_co. rewrite !co_nth. done.
Qed.

Lemma ntt_fn_ext a a' : (forall p, 0 <= p < N -> a p = a' p) -> forall p, 0 <= p < N -> ntt_fn a p = ntt_fn a' p.
Proof. apply (layers_ext fwd fwd_ext), all_layers_rev. Qed.

Lemma intt_fn_ext a a' : (forall p, 0 <= p < N -> a p = a' p) -> forall p, 0 <= p < N -> intt_fn a p = intt_fn a' p.
Proof. intros E p Hp. unfold intt_fn. apply (f_equal (Zmod.mul (fz INV_N))). by apply (layers_ext inv inv_ext _ _ _ all_layers). Qed.

Lemma pair_at_ext (a a' : Z -> fq) : (forall b, 0 <= b < 128 -> pair_at a b = pair_at a' b) -> forall p, 0 <= p < N -> a p = a' p.
Proof.
  intros E p Hp. change N with 256 in Hp. assert (Hb : 0 <= p / 2 < 128) by (split; [apply Z.div_pos|apply Z.div_lt_upper_bound]; lia).
  specialize (E _ Hb). unfold pair_at in E. injection E as E0 E1. pose proof (Z.div_mod p 2 ltac:(lia)) as Ep. pose proof (Z.mod_pos_bound p 2 ltac:(lia)).
  assert (Hm : p mod 2 = 0 \/ p mod 2 = 1) by lia. destruct Hm as [Em|Em]; rewrite Em in Ep; rewrite Ep; [by rewrite Z.add_0_r|done].
Qed.

(** Multiplication between the transforms is schoolbook multiplication modulo [X^256 + 1]. *)
Lemma ntt_polymul f g h : coeffs N f -> coeffs N g -> coeffs N h ->
  (f' ← ntt f; g' ← ntt g; h' ← polymul f' g' h; intt h') = Some (negacyclic_product f g).
Proof.
  intros Hf Hg Hh. destruct (ntt_runs_as f Hf) as (f' & -> & Hf' & Ef). destruct (ntt_runs_as g Hg) as (g' & -> & Hg' & Eg).
  destruct (polymul_runs f' g' h Hf' Hg' Hh) as (h' & E & Hh' & Eh). cbn [mbind option_bind]. rewrite E. cbn [mbind option_bind].
  destruct (intt_runs_as h' Hh') as (r & -> & Hr & Er). f_equal. apply (coeffs_ext N); [done|apply negacyclic_product_coeffs|].
  assert (Eh2 : forall p, 0 <= p < N -> co h' p = ntt_fn (co (negacyclic_product f g)) p).
  { apply pair_at_ext. intros b Hb. rewrite Eh, ntt_fn_value by done.
    transitivity (value (gam 1 b) 128 (fconv 256 (nat_co (co f)) (nat_co (co g)))).
    - rewrite (value_mul (gam 1 b) 128) by apply (poly_mul_roots b Hb). f_equal; rewrite <- ntt_fn_value by done; unfold pair_at;
        rewrite ?Ef, ?Eg by (change N with 256; lia); done.
    - unfold value. apply (f_equal2 pair); apply rsum_ext; intros m Hm; apply (f_equal2 (@Zmod.mul Q)); try done; symmetry; apply co_negacyclic_product; lia. }
  intros p Hp. rewrite Er by done. rewrite (intt_fn_ext _ _ Eh2 p Hp). by apply intt_ntt_fn.
Qed.
