(* ===== verification/MlBits.v ===== *)
(** * Groups of elements and their bits

    The codecs of ML-KEM go through their arrays in groups: [rds] and [wrs] are
    the accesses of one group, [group_loop] is the loop, and [flat n l] is the
    list of the low [n] bits of every element, least significant first.  A span
    of an array is a part of it that is written back. *)

From Stdlib Require Import Lia.
From stdpp Require Import base tactics list numbers option.
From S2P Require Import Prelude QrArray MlField.
Local Open Scope Z_scope.

(** ** Runs of elements *)

Definition rds (a : list Z) (off : Z) (n : nat) : option (list Z) := mapM (fun i => rd a (off + Z.of_nat i)) (seq 0 n).

Fixpoint wrs (a : list Z) (off : Z) (vs : list Z) : option (list Z) :=
  match vs with [] => Some a | v :: vs => a ← wr a off v; wrs a (off + 1) vs end.

Lemma mapM_rd_mid pre vs suf k : mapM (fun i => rd (pre ++ vs ++ suf) (Z.of_nat (length pre) + Z.of_nat i - Z.of_nat k)) (seq k (length vs)) = Some vs.
Proof.
  revert pre k. induction vs as [|v vs IH]; intros pre k; [done|]. cbn [length seq mapM].
  replace (Z.of_nat (length pre) + Z.of_nat k - Z.of_nat k) with (Z.of_nat (length pre)) by lia.
  cbn [app]. rewrite rd_mid by done. cbn [mbind option_bind]. specialize (IH (pre ++ [v]) (S k)). rewrite length_app, <- app_assoc in IH. cbn [length app] in IH.
  erewrite mapM_ext; [rewrite IH; done|]. intros i. cbn. f_equal. lia.
Qed.

Lemma rds_mid pre vs suf off n : off = Z.of_nat (length pre) -> n = length vs -> rds (pre ++ vs ++ suf) off n = Some vs.
Proof.
  intros -> ->. unfold rds. erewrite mapM_ext; [apply (mapM_rd_mid pre vs suf 0)|]. intros i. cbn. f_equal. lia.
Qed.

Lemma wrs_mid pre old suf off vs : off = Z.of_nat (length pre) -> length old = length vs -> wrs (pre ++ old ++ suf) off vs = Some (pre ++ vs ++ suf).
Proof.
  revert pre old off. induction vs as [|v vs IH]; intros pre old off -> Hl; destruct old as [|o old]; try discriminate; [done|].
  cbn [wrs app]. rewrite wr_mid by done. cbn [mbind option_bind]. specialize (IH (pre ++ [v]) old). rewrite <- !app_assoc in IH. apply IH.
  - rewrite length_app. cbn. lia.
  - by injection Hl.
Qed.

(** ** The loop over groups *)

Definition group_loop (f : list Z -> list Z) (gin gout : Z) (src : list Z) (cnt : Z) (dst : list Z) : option (list Z) :=
  foldm (fun i dst => ts ← rds src (i * gin) (Z.to_nat gin); wrs dst (i * gout) (f ts)) (zrange 0 cnt) dst.

(** The groups of [n] elements of a list *)
Fixpoint groups (n : nat) (k : nat) (l : list Z) : list (list Z) :=
  match k with O => [] | S k => take n l :: groups n k (drop n l) end.

Lemma groups_concat n k l : length l = (n * k)%nat -> concat (groups n k l) = l.
Proof.
  revert l. induction k as [|k IH]; intros l Hl; [destruct l; cbn in *; lia || done|]. cbn [groups concat].
  rewrite IH by (rewrite length_drop; lia). apply take_drop.
Qed.

Lemma groups_length n k l : length l = (n * k)%nat -> Forall (fun g => length g = n) (groups n k l).
Proof.
  revert l. induction k as [|k IH]; intros l Hl; [constructor|]. cbn [groups]. constructor; [rewrite length_take; lia|]. apply IH. rewrite length_drop. lia.
Qed.

Lemma split_at n (l : list Z) : (n <= length l)%nat -> exists a b, l = a ++ b /\ length a = n.
Proof. intros Hn. exists (take n l), (drop n l). by rewrite take_drop, length_take, Nat.min_l. Qed.

Lemma group_loop_from f gin gout k : forall pin src pout dst,
  (forall ts, length ts = gin -> length (f ts) = gout) -> length src = (gin * k)%nat -> length dst = (gout * k)%nat ->
  forall m, length pin = (gin * m)%nat -> length pout = (gout * m)%nat ->
  foldm (fun i d => ts ← rds (pin ++ src) (i * Z.of_nat gin) gin; wrs d (i * Z.of_nat gout) (f ts)) (zrange (Z.of_nat m) (Z.of_nat (m + k))) (pout ++ dst)
  = Some (pout ++ concat (map f (groups gin k src))).
Proof.
  induction k as [|k IH]; intros pin src pout dst Hf Hs Hd m Hpi Hpo.
  - rewrite zrange_nil by lia. destruct dst; [|cbn in Hd; lia]. done.
  - rewrite zrange_cons by lia. cbn [foldm groups map concat].
    destruct (split_at gin src) as (s1 & s2 & -> & Hs1); [lia|]. destruct (split_at gout dst) as (d1 & d2 & -> & Hd1); [lia|].
    rewrite length_app in Hs, Hd. rewrite take_app_length', drop_app_length' by done.
    rewrite (rds_mid pin) by lia. cbn [mbind option_bind]. rewrite (wrs_mid pout) by (rewrite ?Hf; lia). cbn [mbind option_bind].
    replace (Z.of_nat m + 1) with (Z.of_nat (S m)) by lia. replace (m + S k)%nat with (S m + k)%nat by lia. rewrite !app_assoc.
    apply (IH (pin ++ s1) s2 (pout ++ f s1) d2); rewrite ?length_app, ?Hf; try done; lia.
Qed.

Lemma group_loop_runs f gin gout src cnt dst : 0 <= gin -> 0 <= gout -> 0 <= cnt ->
  (forall ts, Z.of_nat (length ts) = gin -> Z.of_nat (length (f ts)) = gout) ->
  Z.of_nat (length src) = gin * cnt -> Z.of_nat (length dst) = gout * cnt ->
  group_loop f gin gout src cnt dst = Some (concat (map f (groups (Z.to_nat gin) (Z.to_nat cnt) src))).
Proof.
  intros H1 H2 H3 Hf Hs Hd. apply Z_of_nat_complete in H1 as [gi ->], H2 as [go ->], H3 as [k ->].
  unfold group_loop. rewrite !Nat2Z.id. apply (group_loop_from f gi go k [] src [] dst) with (m := 0%nat); try (cbn; lia).
  intros ts Ht. specialize (Hf ts). lia.
Qed.

(** ** Bits, least significant first *)

Definition le_bits (n : nat) (v : Z) : list bool := map (fun i => Z.testbit v (Z.of_nat i)) (seq 0 n).

Definition of_le (bs : list bool) : Z := foldr (fun b v => b2z b + 2 * v) 0 bs.

(** The bits of all elements in turn *)
Definition flat (n : nat) (l : list Z) : list bool := concat (map (le_bits n) l).

Lemma le_bits_length n v : length (le_bits n v) = n.
Proof. unfold le_bits. by rewrite length_map, length_seq. Qed.

Lemma le_bits_S n v : le_bits (S n) v = Z.odd v :: le_bits n (v / 2).
Proof.
  unfold le_bits. cbn [seq map]. apply (f_equal2 cons); [apply Z.bit0_odd|]. rewrite <- seq_shift, map_map. apply map_ext. intros i. rewrite Nat2Z.inj_succ.
  symmetry. apply Z.div2_bits. lia.
Qed.

Lemma of_le_bits n v : 0 <= v < 2 ^ Z.of_nat n -> of_le (le_bits n v) = v.
Proof.
  revert v. induction n as [|n IH]; intros v Hv; [cbn in *; lia|]. rewrite le_bits_S. cbn [of_le foldr]. fold of_le. change (foldr _ 0 ?l) with (of_le l).
  rewrite Nat2Z.inj_succ, Z.pow_succ_r in Hv by lia. rewrite IH by (Z.to_euclidean_division_equations; lia).
  rewrite (Z.div_mod v 2) at 3 by lia. rewrite Zmod_odd. destruct (Z.odd v); unfold b2z; lia.
Qed.

Lemma le_bits_inj n v w : 0 <= v < 2 ^ Z.of_nat n -> 0 <= w < 2 ^ Z.of_nat n -> le_bits n v = le_bits n w -> v = w.
Proof. intros Hv Hw E. rewrite <- (of_le_bits n v Hv), <- (of_le_bits n w Hw). by rewrite E. Qed.

Lemma le_bits_mod n v : le_bits n (v mod 2 ^ Z.of_nat n) = le_bits n v.
Proof.
  unfold le_bits. apply map_ext_in. intros i Hi%in_seq. rewrite Z.testbit_mod_pow2 by lia. by replace (Z.of_nat i <? Z.of_nat n) with true by lia.
Qed.

Lemma flat_app n a b : flat n (a ++ b) = flat n a ++ flat n b.
Proof. unfold flat. by rewrite map_app, concat_app. Qed.

Lemma flat_length n l : length (flat n l) = (n * length l)%nat.
Proof. unfold flat. induction l as [|v l IH]; [cbn; lia|]. cbn [map concat length]. rewrite length_app, le_bits_length, IH. lia. Qed.

Lemma flat_concat n ls : flat n (concat ls) = concat (map (flat n) ls).
Proof. induction ls as [|l ls IH]; [done|]. cbn [concat map]. by rewrite flat_app, IH. Qed.

Lemma flat_mod n l : flat n (map (fun v => v mod 2 ^ Z.of_nat n) l) = flat n l.
Proof. unfold flat. rewrite map_map. f_equal. apply map_ext. intros v. apply le_bits_mod. Qed.

Definition below (n : nat) (l : list Z) : Prop := Forall (fun v => 0 <= v < 2 ^ Z.of_nat n) l.

Lemma flat_inj n a b : length a = length b -> below n a -> below n b -> flat n a = flat n b -> a = b.
Proof.
  revert b. induction a as [|v a IH]; intros [|w b] Hl Ha Hb E; try discriminate; [done|]. inversion Ha; inversion Hb; subst.
  unfold flat in E. cbn [map concat] in E. apply app_inj_1 in E as [E1 E2]; [|by rewrite !le_bits_length].
  f_equal; [by apply (le_bits_inj n)|]. apply IH; [by injection Hl|done..].
Qed.

(** Group by group *)
Lemma group_flat nin nout f gs : Forall (fun g => flat nout (f g) = flat nin g) gs -> flat nout (concat (map f gs)) = flat nin (concat gs).
Proof. intros H. rewrite !flat_concat, map_map. f_equal. by apply map_ext_Forall. Qed.

(** ** Ranges of bit operations *)

Lemma lxor_range n a b : 0 <= n -> 0 <= a < 2 ^ n -> 0 <= b < 2 ^ n -> 0 <= Z.lxor a b < 2 ^ n.
Proof.
  intros Hn Ha Hb. assert (H0 : 0 <= Z.lxor a b) by (apply Z.lxor_nonneg; lia). split; [done|]. apply Z.bounded_iff_bits_nonneg; [done|done|].
  intros k Hk. rewrite Z.lxor_spec, (proj1 (Z.bounded_iff_bits_nonneg n a Hn (proj1 Ha)) (proj2 Ha) k Hk).
  by rewrite (proj1 (Z.bounded_iff_bits_nonneg n b Hn (proj1 Hb)) (proj2 Hb) k Hk).
Qed.

Lemma lor_range n a b : 0 <= n -> 0 <= a < 2 ^ n -> 0 <= b < 2 ^ n -> 0 <= Z.lor a b < 2 ^ n.
Proof.
  intros Hn Ha Hb. assert (H0 : 0 <= Z.lor a b) by (apply Z.lor_nonneg; lia). split; [done|]. apply Z.bounded_iff_bits_nonneg; [done|done|].
  intros k Hk. rewrite Z.lor_spec, (proj1 (Z.bounded_iff_bits_nonneg n a Hn (proj1 Ha)) (proj2 Ha) k Hk).
  by rewrite (proj1 (Z.bounded_iff_bits_nonneg n b Hn (proj1 Hb)) (proj2 Hb) k Hk).
Qed.

(** ** Elements from bits *)

Fixpoint repack (n k : nat) (bs : list bool) : list Z :=
  match k with O => [] | S k => of_le (take n bs) :: repack n k (drop n bs) end.

Lemma repack_length n k bs : length (repack n k bs) = k.
Proof. revert bs. induction k as [|k IH]; intros bs; [done|]. cbn. by rewrite IH. Qed.

Lemma repack_flat n l k : k = length l -> below n l -> repack n k (flat n l) = l.
Proof.
  intros -> H. induction H as [|v l Hv H IH]; [done|]. cbn [length repack]. unfold flat. cbn [map concat].
  rewrite take_app_length', drop_app_length' by (by rewrite le_bits_length). change (concat (map (le_bits n) l)) with (flat n l).
  by rewrite of_le_bits, IH.
Qed.

Lemma of_le_range bs : 0 <= of_le bs < 2 ^ Z.of_nat (length bs).
Proof.
  induction bs as [|b bs IH]; [done|]. cbn [of_le foldr length]. change (foldr _ 0 ?l) with (of_le l).
  rewrite Nat2Z.inj_succ, Z.pow_succ_r by lia. destruct b; unfold b2z; lia.
Qed.

Lemma le_bits_of_le bs : le_bits (length bs) (of_le bs) = bs.
Proof.
  induction bs as [|b bs IH]; [done|]. cbn [length]. rewrite le_bits_S. cbn [of_le foldr]. change (foldr _ 0 ?l) with (of_le l).
  assert (E : (b2z b + 2 * of_le bs) / 2 = of_le bs) by (unfold b2z; destruct b; Z.to_euclidean_division_equations; lia).
  rewrite E, IH. f_equal. rewrite Z.odd_add, Z.odd_mul. by destruct b.
Qed.

Lemma repack_below n k bs : length bs = (n * k)%nat -> below n (repack n k bs).
Proof.
  revert bs. induction k as [|k IH]; intros bs Hl; [constructor|]. cbn [repack]. constructor.
  - assert (E : length (take n bs) = n) by (rewrite length_take; lia). rewrite <- E at 3. apply of_le_range.
  - apply IH. rewrite length_drop. lia.
Qed.

Lemma flat_repack n k bs : length bs = (n * k)%nat -> flat n (repack n k bs) = bs.
Proof.
  revert bs. induction k as [|k IH]; intros bs Hl; [destruct bs; cbn in *; lia || done|]. cbn [repack]. unfold flat. cbn [map concat].
  change (concat (map (le_bits n) ?l)) with (flat n l). rewrite IH by (rewrite length_drop; lia).
  assert (E : length (take n bs) = n) by (rewrite length_take; lia). rewrite <- E at 1. rewrite le_bits_of_le. apply take_drop.
Qed.

(** A loop over groups that keeps the bits of every group repacks the whole array. *)
Section Repacks.
Context (nin nout gin gout : nat) (P : Z -> Prop) (f : list Z -> list Z).
Hypothesis f_ok : forall ts, length ts = gin -> Forall P ts -> length (f ts) = gout /\ below nout (f ts) /\ flat nout (f ts) = flat nin ts.

Lemma groups_repack k src : length src = (gin * k)%nat -> Forall P src -> concat (map f (groups gin k src)) = repack nout (gout * k) (flat nin src).
Proof.
  revert src. induction k as [|k IH]; intros src Hl HP; [by rewrite Nat.mul_0_r|]. cbn [groups map concat].
  destruct (f_ok (take gin src)) as (H1 & H2 & H3); [rewrite length_take; lia|by apply Forall_take|].
  rewrite IH by (rewrite ?length_drop; try apply Forall_drop; done || lia).
  rewrite <- (take_drop gin src) at 3. rewrite flat_app, <- H3. replace (gout * S k)%nat with (gout + gout * k)%nat by lia.
  rewrite <- H1 at 2. clear IH Hl. revert H2. generalize (f (take gin src)) as l, (flat nin (drop gin src)) as bs. intros l bs Hl.
  induction Hl as [|v l Hv Hl IH]; [done|]. cbn [length Nat.add repack app]. unfold flat. cbn [map concat]. rewrite <- app_assoc.
  rewrite take_app_length', drop_app_length' by (by rewrite le_bits_length). change (concat (map (le_bits nout) l)) with (flat nout l).
  rewrite of_le_bits by done. by rewrite <- IH.
Qed.
End Repacks.

(** ** Spans *)

Definition subspan (a : list Z) (off n : Z) : option (list Z) :=
  if (0 <=? off) && (0 <=? n) && (off + n <=? Z.of_nat (length a)) then Some (take (Z.to_nat n) (drop (Z.to_nat off) a)) else None.

(** [op] on the part of [a] that starts at [off] *)
Definition on_span (a : list Z) (off n : Z) (op : list Z -> option (list Z)) : option (list Z) :=
  s ← subspan a off n;
  s ← op s;
  Some (take (Z.to_nat off) a ++ s ++ drop (Z.to_nat (off + n)) a).

(** [dst[off + i] = g(dst[off + i], src[i])] *)
Definition each2 (g : Z -> Z -> Z) (off : Z) (src : list Z) (i : Z) (dst : list Z) : option (list Z) :=
  d ← rd dst (off + i);
  s ← rd src i;
  wr dst (off + i) (g d s).

Lemma subspan_mid pre s suf off n : off = Z.of_nat (length pre) -> n = Z.of_nat (length s) -> subspan (pre ++ s ++ suf) off n = Some s.
Proof.
  intros -> ->. unfold subspan. rewrite !length_app. match goal with |- context [if ?c then _ else _] => assert (Hc : c = true) by (rewrite !andb_true_iff, !Z.leb_le; split_and!; lia) end.
  rewrite Hc, !Nat2Z.id.
  by rewrite drop_app_length, take_app_length.
Qed.

Lemma on_span_mid pre s suf off n op s' : off = Z.of_nat (length pre) -> n = Z.of_nat (length s) -> op s = Some s' ->
  on_span (pre ++ s ++ suf) off n op = Some (pre ++ s' ++ suf).
Proof.
  intros Ho Hn E. unfold on_span. rewrite subspan_mid by done. cbn [mbind option_bind]. rewrite E. cbn [mbind option_bind]. subst off n.
  rewrite Nat2Z.id, take_app_length, <- Nat2Z.inj_add, Nat2Z.id. do 3 f_equal. rewrite app_assoc, drop_app_length' by (by rewrite length_app). done.
Qed.

Lemma each2_mid g pre dst suf src off n : off = Z.of_nat (length pre) -> length dst = length src -> n = Z.of_nat (length src) ->
  foldm (each2 g off src) (zrange 0 n) (pre ++ dst ++ suf) = Some (pre ++ zip_with g dst src ++ suf).
Proof.
  intros -> Hl ->. assert (H : forall s1 s2 d1 d2, length d1 = length s1 -> length d2 = length s2 ->
    foldm (each2 g (Z.of_nat (length pre)) (s1 ++ s2)) (zrange (Z.of_nat (length s1)) (Z.of_nat (length (s1 ++ s2)))) (pre ++ d1 ++ d2 ++ suf)
    = Some (pre ++ d1 ++ zip_with g d2 s2 ++ suf)).
  { intros s1 s2. revert s1. induction s2 as [|x s2 IH]; intros s1 d1 d2 H1 H2; destruct d2 as [|y d2]; try discriminate.
    - rewrite app_nil_r, zrange_nil by lia. done.
    - rewrite zrange_cons by (rewrite length_app; cbn; lia). cbn [foldm].
      assert (E : each2 g (Z.of_nat (length pre)) (s1 ++ x :: s2) (Z.of_nat (length s1)) (pre ++ d1 ++ (y :: d2) ++ suf) = Some (pre ++ d1 ++ (g y x :: d2) ++ suf)).
      { unfold each2. cbn [app]. rewrite app_assoc, (rd_mid (pre ++ d1)) by (rewrite length_app; lia). cbn [mbind option_bind]. rewrite rd_mid by done. cbn [mbind option_bind].
        rewrite (wr_mid (pre ++ d1)) by (rewrite length_app; lia). by rewrite <- app_assoc. }
      rewrite E. cbn [mbind option_bind]. specialize (IH (s1 ++ [x]) (d1 ++ [g y x]) d2). rewrite !length_app, <- !app_assoc in IH. cbn [length app] in IH.
      rewrite length_app. cbn [length zip_with app]. replace (Z.of_nat (length s1) + 1) with (Z.of_nat (length s1 + 1)) by lia.
      replace (length s1 + S (length s2))%nat with (length s1 + 1 + length s2)%nat by lia. apply IH; [lia|by injection H2]. }
  apply (H [] src [] dst eq_refl Hl).
Qed.

(** ** Bit by bit *)

Lemma u8_testbit v k : 0 <= k -> Z.testbit (u8 v) k = (k <? 8) && Z.testbit v k.
Proof. intros Hk. apply (Z.testbit_mod_pow2 v 8 k). done. Qed.

Lemma u16_testbit v k : 0 <= k -> Z.testbit (u16 v) k = (k <? 16) && Z.testbit v k.
Proof. intros Hk. apply (Z.testbit_mod_pow2 v 16 k). done. Qed.

Lemma zq_testbit v k : 0 <= k -> Z.testbit (zq v) k = (k <? 16) && Z.testbit v k.
Proof. apply u16_testbit. Qed.

Lemma u64_testbit v k : 0 <= k -> Z.testbit (u64 v) k = (k <? 64) && Z.testbit v k.
Proof. intros Hk. rewrite u64_mod. by apply Z.testbit_mod_pow2. Qed.

(** A bit of an expression of shifts, masks and conversions *)
Ltac one_bit :=
  repeat match goal with
  | |- context [Z.testbit (Z.lor ?a ?b) ?k] => rewrite (Z.lor_spec a b k)
  | |- context [Z.testbit (Z.land ?a ?b) ?k] => rewrite (Z.land_spec a b k)
  | |- context [Z.testbit (u8 ?a) ?k] => rewrite (u8_testbit a k) by done; let c := eval vm_compute in (k <? 8) in change (k <? 8) with c; cbn [andb]
  | |- context [Z.testbit (u16 ?a) ?k] => rewrite (u16_testbit a k) by done; let c := eval vm_compute in (k <? 16) in change (k <? 16) with c; cbn [andb]
  | |- context [Z.testbit (Z.lxor ?a ?b) ?k] => rewrite (Z.lxor_spec a b k)
  | |- context [Z.testbit (u64 ?a) ?k] => rewrite (u64_testbit a k) by done; let c := eval vm_compute in (k <? 64) in change (k <? 64) with c; cbn [andb]
  | |- context [Z.testbit (zq ?a) ?k] => rewrite (zq_testbit a k) by done; let c := eval vm_compute in (k <? 16) in change (k <? 16) with c; cbn [andb]
  | |- context [Z.testbit (Z.shiftr ?a ?b) ?k] => rewrite (Z.shiftr_spec a b k) by done; let c := eval vm_compute in (k + b) in change (k + b) with c
  | |- context [Z.testbit (Z.shiftl ?a ?b) ?k] => rewrite (Z.shiftl_spec a b k) by done; let c := eval vm_compute in (k - b) in change (k - b) with c;
      try rewrite (Z.testbit_neg_r a c) by done
  | |- context [Z.testbit (Zpos ?p) ?k] => let c := eval vm_compute in (Z.testbit (Zpos p) k) in change (Z.testbit (Zpos p) k) with c
  end;
  rewrite ?andb_true_r, ?andb_false_r, ?orb_false_r, ?orb_false_l, ?xorb_false_l, ?xorb_false_r; try reflexivity.

Ltac same_bits :=
  cbv [flat map concat app le_bits seq Z.of_nat Pos.of_succ_nat Pos.succ];
  repeat apply (f_equal2 (@cons bool)); try reflexivity; one_bit.

Lemma bytes_u8 bs : bytes_ok bs -> map u8 bs = bs.
Proof. intros H. induction H as [|b bs Hb H IH]; [done|]. cbn [map]. rewrite IH. f_equal. by apply Z.mod_small. Qed.
