(* ===== verification/MlCodec.v ===== *)
(** * Compression and serialization of ML-KEM polynomials: tools/ml_kem_512_single.hpp, namespace ml_kem_utils *)

From Stdlib Require Import Lia Zmod.
From stdpp Require Import base tactics list numbers option.
From S2P Require Import Prelude QrArray MlField MlNtt MlBits.
Local Open Scope Z_scope.

(** * Compression of ML-KEM coefficients: tools/ml_kem_512_single.hpp, namespace ml_kem_utils

    [compress] and [decompress] with every conversion, proved to be the two
    roundings of formulas 4.7 and 4.8; decompressing and compressing gives
    the value back, and compressing and decompressing moves a coefficient by
    at most [Q / 2 ^ (d + 1)], rounded. *)

Definition check_d (d : Z) : bool := d <? Q_BIT_WIDTH.

Definition compress (d x : Z) : Z :=
  let mask := u16 (Z.shiftl 1 d - 1) in
  let dividend := u32 (Z.shiftl x d) in
  let quotient0 := u32 (Z.shiftr (u64 (dividend * R)) (Q_BIT_WIDTH * 2)) in
  let remainder := u32 (dividend - u32 (quotient0 * Q)) in
  let quotient1 := u32 (quotient0 + Z.land (Z.shiftr (u32 (Q / 2 - remainder)) 31) 1) in
  let quotient2 := u32 (quotient1 + Z.land (Z.shiftr (u32 (Q + Q / 2 - remainder)) 31) 1) in
  zq (Z.land (u16 quotient2) mask).

Definition decompress (d x : Z) : Z :=
  let t0 := u32 (Z.shiftl 1 d) in
  let t1 := Z.shiftr t0 1 in
  let t2 := u32 (Q * x) in
  let t3 := u32 (t2 + t1) in
  let t4 := u16 (Z.shiftr t3 d) in
  zq t4.

Definition poly_compress (d : Z) (poly : list Z) : option (list Z) := foldm (each (compress d)) (zrange 0 N) poly.
Definition poly_decompress (d : Z) (poly : list Z) : option (list Z) := foldm (each (decompress d)) (zrange 0 N) poly.

(** ** The roundings *)

(** [n / m] rounded to the nearest integer, halves up *)
Definition round_div (n m : Z) : Z := (2 * n + m) / (2 * m).

Lemma sign_bit a b : 0 <= a < 2 ^ 31 -> 0 <= b < 2 ^ 31 -> Z.land (Z.shiftr (u32 (a - b)) 31) 1 = if a <? b then 1 else 0.
Proof.
  intros Ha Hb. change 1 with (Z.ones 1) at 1. rewrite Z.land_ones, Z.shiftr_div_pow2 by done. unfold u32. destruct (Z.ltb_spec a b).
  - rewrite <- (Z.mod_add (a - b) 1 (2 ^ 32)) by done. rewrite (Z.mod_small (a - b + 1 * 2 ^ 32)) by lia. Z.to_euclidean_division_equations. lia.
  - rewrite (Z.mod_small (a - b)) by lia. Z.to_euclidean_division_equations. lia.
Qed.

(** The quotient of the code is the rounded one. *)
Lemma rounded_quotient v : 0 <= v < 2 ^ 24 ->
  let q0 := v * 5039 / 2 ^ 24 in let r := v - q0 * 3329 in
  0 <= q0 < 2 ^ 13 /\ 0 <= r < 2 * 3329 /\ q0 + (if 1664 <? r then 1 else 0) + (if 3329 + 1664 <? r then 1 else 0) = round_div v 3329.
Proof.
  intros Hv q0 r. assert (Hr : 0 <= r < 2 * 3329) by (unfold r, q0; Z.to_euclidean_division_equations; lia).
  assert (Hq : 0 <= q0 < 2 ^ 13) by (unfold q0; Z.to_euclidean_division_equations; lia). split; [done|]. split; [done|].
  unfold round_div. assert (E : v = q0 * 3329 + r) by (unfold r; lia). clearbody q0 r. subst v.
  destruct (Z.ltb_spec 1664 r), (Z.ltb_spec (3329 + 1664) r); Z.to_euclidean_division_equations; lia.
Qed.

Lemma bit_range (b : bool) : 0 <= (if b then 1 else 0) <= 1.
Proof. destruct b; lia. Qed.

Ltac case_d d := assert (d = 1 \/ d = 2 \/ d = 3 \/ d = 4 \/ d = 5 \/ d = 6 \/ d = 7 \/ d = 8 \/ d = 9 \/ d = 10 \/ d = 11) as Hcase by lia;
  repeat destruct Hcase as [Hcase|Hcase]; subst d.

Lemma pow_bounds d : 1 <= d <= 11 -> 2 <= 2 ^ d <= 2048 /\ 2 ^ d = 2 * 2 ^ (d - 1).
Proof. intros Hd. case_d d; done. Qed.

Lemma compress_spec d x : 1 <= d <= 11 -> canonical x -> compress d x = round_div (x * 2 ^ d) Q mod 2 ^ d.
Proof.
  intros Hd Hx. unfold canonical in Hx. rewrite Q_value in Hx. pose proof (pow_bounds d Hd) as [Hp _].
  assert (Hv : 0 <= x * 2 ^ d < 2 ^ 24) by nia. unfold compress. rewrite !Z.shiftl_mul_pow2 by lia. rewrite (u32_small (x * 2 ^ d)) by lia.
  set (v := x * 2 ^ d) in *. rewrite R_value. change (Q_BIT_WIDTH * 2) with 24. rewrite (u64_small (v * 5039)) by lia.
  rewrite Z.shiftr_div_pow2 by done. destruct (rounded_quotient v Hv) as (Hq & Hr & E). set (q0 := v * 5039 / 2 ^ 24) in *.
  rewrite (u32_small q0) by lia. rewrite Q_value. rewrite (u32_small (q0 * 3329)), (u32_small (v - q0 * 3329)) by lia.
  change (3329 / 2) with 1664. rewrite !sign_bit by lia. set (b1 := if 1664 <? _ then 1 else 0) in *. set (b2 := if 3329 + 1664 <? _ then 1 else 0) in *.
  assert (Hb1 : 0 <= b1 <= 1) by apply bit_range. assert (Hb2 : 0 <= b2 <= 1) by apply bit_range. clearbody b1 b2 q0 v.
  rewrite (u32_small (q0 + b1)), (u32_small (q0 + b1 + b2)) by lia. rewrite E. unfold u16. rewrite (Z.mod_small (round_div v 3329)) by lia.
  rewrite Z.mul_1_l, (Z.mod_small (2 ^ d - 1)) by lia.
  replace (2 ^ d - 1) with (Z.ones d) by (rewrite Z.ones_equiv; lia). rewrite Z.land_ones by lia. unfold zq, u16.
  pose proof (Z.mod_pos_bound (round_div v 3329) (2 ^ d) ltac:(lia)). apply Z.mod_small. lia.
Qed.

Lemma decompress_spec d y : 1 <= d <= 11 -> 0 <= y < 2 ^ d -> decompress d y = round_div (Q * y) (2 ^ d) /\ canonical (decompress d y).
Proof.
  intros Hd Hy. pose proof (pow_bounds d Hd) as [Hp Hp1].
  assert (E : decompress d y = (3329 * y + 2 ^ (d - 1)) / 2 ^ d /\ 0 <= (3329 * y + 2 ^ (d - 1)) / 2 ^ d < 3329).
  { assert (Hb : 0 <= (3329 * y + 2 ^ (d - 1)) / 2 ^ d < 3329) by (split; [apply Z.div_pos|apply Z.div_lt_upper_bound]; nia). split; [|done].
    unfold decompress. rewrite Q_value. rewrite !Z.shiftl_mul_pow2, Z.mul_1_l by lia. rewrite (u32_small (2 ^ d)) by lia. rewrite !Z.shiftr_div_pow2 by lia.
    assert (E1 : 2 ^ d / 2 ^ 1 = 2 ^ (d - 1)) by (rewrite Hp1; Z.to_euclidean_division_equations; lia). rewrite E1.
    rewrite (u32_small (3329 * y)), (u32_small (3329 * y + 2 ^ (d - 1))) by nia. set (q := (3329 * y + 2 ^ (d - 1)) / 2 ^ d) in *. assert (Eq : u16 q = q) by (apply Z.mod_small; lia). unfold zq. by rewrite !Eq. }
  destruct E as [E Hb]. unfold canonical. rewrite E, Q_value. split; [|done]. unfold round_div.
  replace (2 * (3329 * y) + 2 ^ d) with (2 * (3329 * y + 2 ^ (d - 1))) by lia. symmetry. apply Z.div_mul_cancel_l; lia.
Qed.

Lemma compress_range d x : 1 <= d <= 11 -> canonical x -> 0 <= compress d x < 2 ^ d.
Proof. intros Hd Hx. rewrite compress_spec by done. apply Z.mod_pos_bound. lia. Qed.

(** Compressing what was decompressed gives it back. *)
Lemma compress_decompress d y : 1 <= d <= 11 -> 0 <= y < 2 ^ d -> compress d (decompress d y) = y.
Proof.
  intros Hd Hy. destruct (decompress_spec d y Hd Hy) as [E Hc]. rewrite compress_spec by done. rewrite E, Q_value in *. unfold canonical in Hc. clear E.
  pose proof (pow_bounds d Hd) as [Hp _]. unfold round_div in *. set (z := (2 * (3329 * y) + 2 ^ d) / (2 * 2 ^ d)) in *.
  assert (Hz : 2 * 2 ^ d * z <= 2 * (3329 * y) + 2 ^ d < 2 * 2 ^ d * (z + 1)).
  { pose proof (Z.div_mod (2 * (3329 * y) + 2 ^ d) (2 * 2 ^ d) ltac:(lia)) as E. pose proof (Z.mod_pos_bound (2 * (3329 * y) + 2 ^ d) (2 * 2 ^ d) ltac:(lia)).
    fold z in E. lia. }
  replace ((2 * (z * 2 ^ d) + 3329) / (2 * 3329)) with y; [by apply Z.mod_small|].
  apply (Z.div_unique _ _ _ (2 * (z * 2 ^ d) + 3329 - 2 * 3329 * y)); lia.
Qed.

(** The largest change of a coefficient *)
Definition compress_error (d : Z) : Z := round_div Q (2 * 2 ^ d).

Lemma rounding_error d x : 1 <= d <= 11 -> canonical x ->
  let z := round_div (Q * (round_div (x * 2 ^ d) Q mod 2 ^ d)) (2 ^ d) in
  Z.abs (z - x) <= compress_error d \/ Z.abs (z + Q - x) <= compress_error d.
Proof.
  unfold canonical, compress_error, round_div. rewrite Q_value. intros Hd Hx.
  case_d d; cbn [Z.pow Z.pow_pos Pos.iter Z.mul Pos.mul]; Z.to_euclidean_division_equations; lia.
Qed.

(** Decompressing what was compressed is off by at most that, modulo [Q]. *)
Lemma decompress_compress d x : 1 <= d <= 11 -> canonical x ->
  exists e, fz (decompress d (compress d x)) = fz (x + e) /\ Z.abs e <= compress_error d.
Proof.
  intros Hd Hx. pose proof (compress_range d x Hd Hx) as Hr. destruct (decompress_spec d _ Hd Hr) as [-> _]. rewrite compress_spec by done.
  pose proof (rounding_error d x Hd Hx) as H. cbv zeta in H. set (z := round_div _ (2 ^ d)) in *.
  destruct H as [H|H]; [exists (z - x)|exists (z + Q - x)]; (split; [|done]).
  - by replace (x + (z - x)) with z by lia.
  - replace (x + (z + Q - x)) with (z + 1 * Q) by lia. rewrite <- (fz_mod (z + 1 * Q)), <- (fz_mod z). by rewrite Z.mod_add.
Qed.

(** ** Whole polynomials *)

Lemma poly_compress_runs d poly : length poly = 256%nat -> poly_compress d poly = Some (map (compress d) poly).
Proof. intros Hl. apply each_map. by rewrite Hl. Qed.

Lemma poly_decompress_runs d poly : length poly = 256%nat -> poly_decompress d poly = Some (map (decompress d) poly).
Proof. intros Hl. apply each_map. by rewrite Hl. Qed.

(** * Serialization of ML-KEM polynomials: tools/ml_kem_512_single.hpp, namespace ml_kem_utils

    [encode] and [decode] for the bit widths 1, 4, 5, 10, 11 and 12, each
    branch with its shifts, masks and conversions.  Both are proved to be the
    regrouping of the same bits that algorithms 5 and 6 describe. *)

Definition check_l (l : Z) : bool := (l =? 1) || (l =? 4) || (l =? 5) || (l =? 10) || (l =? 11) || (l =? 12).

Local Infix "&&&" := Z.land (at level 40, left associativity).
Local Infix "|||" := Z.lor (at level 50, left associativity).
Local Infix "<<" := Z.shiftl (at level 37, left associativity).
Local Infix ">>" := Z.shiftr (at level 37, left associativity).

(** ** One group of each width *)

Definition enc1 (ts : list Z) : list Z :=
  match ts with
  | [t0; t1; t2; t3; t4; t5; t6; t7] =>
    let one := 1 in
    [u8 ((u8 (t7 &&& one) << 7) ||| (u8 (t6 &&& one) << 6) |||
         (u8 (t5 &&& one) << 5) ||| (u8 (t4 &&& one) << 4) |||
         (u8 (t3 &&& one) << 3) ||| (u8 (t2 &&& one) << 2) |||
         (u8 (t1 &&& one) << 1) ||| (u8 (t0 &&& one) << 0))]
  | _ => []
  end.

Definition enc4 (ts : list Z) : list Z :=
  match ts with
  | [t0; t1] => let msk := 15 in [u8 ((u8 (t1 &&& msk) << 4) ||| u8 (t0 &&& msk))]
  | _ => []
  end.

Definition enc5 (ts : list Z) : list Z :=
  match ts with
  | [t0; t1; t2; t3; t4; t5; t6; t7] =>
    let mask5 := 31 in let mask4 := 15 in let mask3 := 7 in let mask2 := 3 in let mask1 := 1 in
    [u8 ((u8 (t1 &&& mask3) << 5) ||| (u8 (t0 &&& mask5) << 0));
     u8 ((u8 (t3 &&& mask1) << 7) ||| (u8 (t2 &&& mask5) << 2) ||| u8 ((t1 >> 3) &&& mask2));
     u8 ((u8 (t4 &&& mask4) << 4) ||| u8 ((t3 >> 1) &&& mask4));
     u8 ((u8 (t6 &&& mask2) << 6) ||| (u8 (t5 &&& mask5) << 1) ||| u8 ((t4 >> 4) &&& mask1));
     u8 ((u8 (t7 &&& mask5) << 3) ||| u8 ((t6 >> 2) &&& mask3))]
  | _ => []
  end.

Definition enc10 (ts : list Z) : list Z :=
  match ts with
  | [t0; t1; t2; t3] =>
    let mask6 := 63 in let mask4 := 15 in let mask2 := 3 in
    [u8 t0;
     u8 (u8 ((t1 &&& mask6) << 2) ||| u8 ((t0 >> 8) &&& mask2));
     u8 (u8 ((t2 &&& mask4) << 4) ||| u8 ((t1 >> 6) &&& mask4));
     u8 (u8 ((t3 &&& mask2) << 6) ||| u8 ((t2 >> 4) &&& mask6));
     u8 (t3 >> 2)]
  | _ => []
  end.

Definition enc11 (ts : list Z) : list Z :=
  match ts with
  | [t0; t1; t2; t3; t4; t5; t6; t7] =>
    let mask8 := 255 in let mask7 := 127 in let mask6 := 63 in let mask5 := 31 in let mask4 := 15 in let mask3 := 7 in let mask2 := 3 in let mask1 := 1 in
    [u8 (t0 &&& mask8);
     u8 (u8 ((t1 &&& mask5) << 3) ||| u8 ((t0 >> 8) &&& mask3));
     u8 (u8 ((t2 &&& mask2) << 6) ||| u8 ((t1 >> 5) &&& mask6));
     u8 ((t2 >> 2) &&& mask8);
     u8 (u8 ((t3 &&& mask7) << 1) ||| u8 ((t2 >> 10) &&& mask1));
     u8 (u8 ((t4 &&& mask4) << 4) ||| u8 ((t3 >> 7) &&& mask4));
     u8 (u8 ((t5 &&& mask1) << 7) ||| u8 ((t4 >> 4) &&& mask7));
     u8 ((t5 >> 1) &&& mask8);
     u8 (u8 ((t6 &&& mask6) << 2) ||| u8 ((t5 >> 9) &&& mask2));
     u8 (u8 ((t7 &&& mask3) << 5) ||| u8 ((t6 >> 6) &&& mask5));
     u8 ((t7 >> 3) &&& mask8)]
  | _ => []
  end.

Definition enc12 (ts : list Z) : list Z :=
  match ts with
  | [t0; t1] => let mask4 := 15 in [u8 t0; u8 (u8 ((t1 &&& mask4) << 4) ||| u8 ((t0 >> 8) &&& mask4)); u8 (t1 >> 4)]
  | _ => []
  end.

Definition dec1 (bs : list Z) : list Z :=
  match bs with
  | [byte] =>
    let one := 1 in
    [zq ((byte >> 0) &&& one); zq ((byte >> 1) &&& one); zq ((byte >> 2) &&& one); zq ((byte >> 3) &&& one);
     zq ((byte >> 4) &&& one); zq ((byte >> 5) &&& one); zq ((byte >> 6) &&& one); zq ((byte >> 7) &&& one)]
  | _ => []
  end.

Definition dec4 (bs : list Z) : list Z :=
  match bs with [byte] => let mask := 15 in [zq ((byte >> 0) &&& mask); zq ((byte >> 4) &&& mask)] | _ => [] end.

Definition dec5 (bs : list Z) : list Z :=
  match bs with
  | [b0; b1; b2; b3; b4] =>
    let mask5 := 31 in let mask4 := 15 in let mask3 := 7 in let mask2 := 3 in let mask1 := 1 in
    [zq (u16 (b0 &&& mask5));
     zq (u16 ((b1 &&& mask2) << 3) ||| u16 ((b0 >> 5) &&& mask3));
     zq (u16 ((b1 >> 2) &&& mask5));
     zq (u16 ((b2 &&& mask4) << 1) ||| u16 ((b1 >> 7) &&& mask1));
     zq (u16 ((b3 &&& mask1) << 4) ||| u16 ((b2 >> 4) &&& mask4));
     zq (u16 ((b3 >> 1) &&& mask5));
     zq (u16 ((b4 &&& mask3) << 2) ||| u16 ((b3 >> 6) &&& mask2));
     zq (u16 ((b4 >> 3) &&& mask5))]
  | _ => []
  end.

Definition dec10 (bs : list Z) : list Z :=
  match bs with
  | [b0; b1; b2; b3; b4] =>
    let mask6 := 63 in let mask4 := 15 in let mask2 := 3 in
    [zq ((u16 (b1 &&& mask2) << 8) ||| u16 b0);
     zq ((u16 (b2 &&& mask4) << 6) ||| u16 (b1 >> 2));
     zq ((u16 (b3 &&& mask6) << 4) ||| u16 (b2 >> 4));
     zq ((u16 b4 << 2) ||| u16 (b3 >> 6))]
  | _ => []
  end.

Definition dec11 (bs : list Z) : list Z :=
  match bs with
  | [b0; b1; b2; b3; b4; b5; b6; b7; b8; b9; b10] =>
    let mask7 := 127 in let mask6 := 63 in let mask5 := 31 in let mask4 := 15 in let mask3 := 7 in let mask2 := 3 in let mask1 := 1 in
    [zq ((u16 (b1 &&& mask3) << 8) ||| u16 b0);
     zq ((u16 (b2 &&& mask6) << 5) ||| u16 (b1 >> 3));
     zq ((u16 (b4 &&& mask1) << 10) ||| (u16 b3 << 2) ||| u16 (b2 >> 6));
     zq ((u16 (b5 &&& mask4) << 7) ||| u16 (b4 >> 1));
     zq ((u16 (b6 &&& mask7) << 4) ||| u16 (b5 >> 4));
     zq ((u16 (b8 &&& mask2) << 9) ||| (u16 b7 << 1) ||| u16 (b6 >> 7));
     zq ((u16 (b9 &&& mask5) << 6) ||| u16 (b8 >> 2));
     zq ((u16 b10 << 3) ||| u16 (b9 >> 5))]
  | _ => []
  end.

(** The two twelve-bit values as the [uint16_t] arguments of [from_non_reduced] *)
Definition dec12_raw (bs : list Z) : list Z :=
  match bs with
  | [b0; b1; b2] => let mask4 := 15 in [zq ((u16 (b1 &&& mask4) << 8) ||| u16 b0); zq ((u16 b2 << 4) ||| u16 (b1 >> 4))]
  | _ => []
  end.

Definition dec12 (bs : list Z) : list Z := map from_non_reduced (dec12_raw bs).

(** ** The loops *)

Definition encode (l : Z) (poly arr : list Z) : option (list Z) :=
  let arr := map (fun _ => 0) arr in
  if l =? 1 then group_loop enc1 8 1 poly (Z.shiftr N 3) arr
  else if l =? 4 then group_loop enc4 2 1 poly (Z.shiftr N 1) arr
  else if l =? 5 then group_loop enc5 8 5 poly (Z.shiftr N 3) arr
  else if l =? 10 then group_loop enc10 4 5 poly (Z.shiftr N 2) arr
  else if l =? 11 then group_loop enc11 8 11 poly (Z.shiftr N 3) arr
  else if l =? 12 then group_loop enc12 2 3 poly (Z.shiftr N 1) arr
  else None.

Definition decode (l : Z) (arr poly : list Z) : option (list Z) :=
  if l =? 1 then group_loop dec1 1 8 arr (Z.shiftr N 3) poly
  else if l =? 4 then group_loop dec4 1 2 arr (Z.shiftr N 1) poly
  else if l =? 5 then group_loop dec5 5 8 arr (Z.shiftr N 3) poly
  else if l =? 10 then group_loop dec10 5 4 arr (Z.shiftr N 2) poly
  else if l =? 11 then group_loop dec11 11 8 arr (Z.shiftr N 3) poly
  else if l =? 12 then group_loop dec12 3 2 arr (Z.shiftr N 1) poly
  else None.

(** ** One group keeps its bits *)

(** The elements of a list of known length *)
Ltac list_elements l :=
  match goal with
  | H : length l = 0%nat |- _ => destruct l; [clear H|discriminate H]
  | H : length l = _ |- _ => let x := fresh "x" in destruct l as [|x l]; [discriminate H|injection H as H; list_elements l]
  end.

Lemma enc1_flat ts : length ts = 8%nat -> flat 8 (enc1 ts) = flat 1 ts.
Proof. intros H. list_elements ts. unfold enc1. same_bits. Qed.

Lemma enc4_flat ts : length ts = 2%nat -> flat 8 (enc4 ts) = flat 4 ts.
Proof. intros H. list_elements ts. unfold enc4. same_bits. Qed.

Lemma enc5_flat ts : length ts = 8%nat -> flat 8 (enc5 ts) = flat 5 ts.
Proof. intros H. list_elements ts. unfold enc5. same_bits. Qed.

Lemma enc10_flat ts : length ts = 4%nat -> flat 8 (enc10 ts) = flat 10 ts.
Proof. intros H. list_elements ts. unfold enc10. same_bits. Qed.

Lemma enc11_flat ts : length ts = 8%nat -> flat 8 (enc11 ts) = flat 11 ts.
Proof. intros H. list_elements ts. unfold enc11. same_bits. Qed.

Lemma enc12_flat ts : length ts = 2%nat -> flat 8 (enc12 ts) = flat 12 ts.
Proof. intros H. list_elements ts. unfold enc12. same_bits. Qed.

(** What a decoded group is made of: [n] values of [l] bits that hold the bits of the bytes. *)
Definition decodes (l n : nat) (dec : list Z -> list Z) (bs : list Z) : Prop :=
  length (dec bs) = n /\ below l (dec bs) /\ flat l (dec bs) = flat 8 bs.

Lemma zq_below l v : (l <= 16)%nat -> map (Z.testbit (zq v)) (zrange (Z.of_nat l) 16) = map (fun _ => false) (zrange (Z.of_nat l) 16) -> 0 <= zq v < 2 ^ Z.of_nat l.
Proof.
  intros Hl E. assert (Hr : 0 <= zq v < 2 ^ 16) by (apply Z.mod_pos_bound; lia). split; [lia|].
  apply Z.bounded_iff_bits_nonneg; [lia|lia|]. intros k Hk. destruct (Z.lt_ge_cases k 16) as [H|H].
  - rewrite map_ext_in_iff in E. apply E, list_elem_of_In, elem_of_zrange. lia.
  - apply (proj1 (Z.bounded_iff_bits_nonneg 16 (zq v) ltac:(lia) ltac:(lia))); lia.
Qed.

Ltac high_bits_clear := 
  apply zq_below; [lia|]; cbv [map zrange seq Z.of_nat Pos.of_succ_nat Pos.succ Z.to_nat Z.sub Z.opp Z.add Z.pos_sub Pos.add Pos.succ Pos.sub Pos.to_nat Pos.iter_op Nat.add Pos.pred_double Z.double Z.succ_double Z.pred_double Pos.add_carry];
  repeat apply (f_equal2 (@cons bool)); try reflexivity; one_bit.

Ltac decode_group bs :=
  let H := fresh in let Hb := fresh in intros H Hb; list_elements bs; rewrite <- (bytes_u8 _ Hb); clear Hb; cbn [map];
  split; [reflexivity|split; [repeat (constructor; [high_bits_clear|]); constructor|same_bits]].

Lemma dec1_ok bs : length bs = 1%nat -> bytes_ok bs -> decodes 1 8 dec1 bs.
Proof. decode_group bs. Qed.

Lemma dec4_ok bs : length bs = 1%nat -> bytes_ok bs -> decodes 4 2 dec4 bs.
Proof. decode_group bs. Qed.

Lemma dec5_ok bs : length bs = 5%nat -> bytes_ok bs -> decodes 5 8 dec5 bs.
Proof. decode_group bs. Qed.

Lemma dec10_ok bs : length bs = 5%nat -> bytes_ok bs -> decodes 10 4 dec10 bs.
Proof. decode_group bs. Qed.

Lemma dec11_ok bs : length bs = 11%nat -> bytes_ok bs -> decodes 11 8 dec11 bs.
Proof. decode_group bs. Qed.

Lemma dec12_ok bs : length bs = 3%nat -> bytes_ok bs -> decodes 12 2 dec12_raw bs.
Proof. decode_group bs. Qed.

(** ** The reference definitions: algorithms 5 and 6 *)

Definition byte_encode (l : Z) (F : list Z) : list Z := repack 8 (Z.to_nat (32 * l)) (flat (Z.to_nat l) F).
Definition byte_decode (l : Z) (B : list Z) : list Z :=
  map (fun v => if l =? 12 then v mod Q else v) (repack (Z.to_nat l) 256 (flat 8 B)).


(** What an encoded group is made of *)
Definition encodes (l n : nat) (enc : list Z -> list Z) (ts : list Z) : Prop :=
  length (enc ts) = n /\ below 8 (enc ts) /\ flat 8 (enc ts) = flat l ts.

Lemma u8_below v : 0 <= u8 v < 2 ^ Z.of_nat 8.
Proof. by apply Z.mod_pos_bound. Qed.

Ltac encode_group ts flat_lemma :=
  let H := fresh in intros H; pose proof (flat_lemma ts H); list_elements ts; split; [reflexivity|split; [|done]];
  unfold below; repeat (constructor; [apply u8_below|]); constructor.

Lemma enc1_ok ts : length ts = 8%nat -> encodes 1 1 enc1 ts.
Proof. encode_group ts enc1_flat. Qed.

Lemma enc4_ok ts : length ts = 2%nat -> encodes 4 1 enc4 ts.
Proof. encode_group ts enc4_flat. Qed.

Lemma enc5_ok ts : length ts = 8%nat -> encodes 5 5 enc5 ts.
Proof. encode_group ts enc5_flat. Qed.

Lemma enc10_ok ts : length ts = 4%nat -> encodes 10 5 enc10 ts.
Proof. encode_group ts enc10_flat. Qed.

Lemma enc11_ok ts : length ts = 8%nat -> encodes 11 11 enc11 ts.
Proof. encode_group ts enc11_flat. Qed.

Lemma enc12_ok ts : length ts = 2%nat -> encodes 12 3 enc12 ts.
Proof. encode_group ts enc12_flat. Qed.

Lemma enc_loop f (gin gout k l : nat) poly arr : (gin * k = 256)%nat -> (gout * k = 32 * l)%nat ->
  (forall ts, length ts = gin -> encodes l gout f ts) ->
  length poly = 256%nat -> length arr = (32 * l)%nat ->
  group_loop f (Z.of_nat gin) (Z.of_nat gout) poly (Z.of_nat k) arr = Some (byte_encode (Z.of_nat l) poly).
Proof.
  intros Hin Hout Hf Hp Ha. rewrite group_loop_runs; [|lia..|intros ts Ht; f_equal; apply Hf; lia|lia|lia]. rewrite !Nat2Z.id. f_equal.
  rewrite (groups_repack l 8 gin gout (fun _ => True)); [|intros ts Ht _; by apply Hf|lia|by apply List.Forall_forall].
  unfold byte_encode. f_equal; [lia|]. by rewrite Nat2Z.id.
Qed.

Lemma dec_loop h f (gin gout k l : nat) poly arr : (gin * k = 32 * l)%nat -> (gout * k = 256)%nat ->
  (forall bs, length bs = gin -> bytes_ok bs -> decodes l gout f bs) -> (forall bs, length bs = gin -> length (f bs) = gout) ->
  length arr = (32 * l)%nat -> bytes_ok arr -> length poly = 256%nat ->
  group_loop (fun bs => map h (f bs)) (Z.of_nat gin) (Z.of_nat gout) arr (Z.of_nat k) poly = Some (map h (repack l 256 (flat 8 arr))).
Proof.
  intros Hin Hout Hf Hfl Ha Hb Hp. rewrite group_loop_runs; [|lia..|intros ts Ht; rewrite length_map; f_equal; apply Hfl; lia|lia|lia]. rewrite !Nat2Z.id. f_equal.
  rewrite <- Hout, <- (groups_repack 8 l gin gout is_u8 f); [|intros ts Ht HP; by apply Hf|lia|done].
  by rewrite concat_map, map_map.
Qed.

(** The widths of the code *)
Definition width (l : Z) : Prop := check_l l = true.

Lemma width_cases l : width l -> l = 1 \/ l = 4 \/ l = 5 \/ l = 10 \/ l = 11 \/ l = 12.
Proof. unfold width, check_l. lia. Qed.

Lemma poly_encode_spec l poly arr : width l -> length poly = 256%nat -> Z.of_nat (length arr) = 32 * l -> encode l poly arr = Some (byte_encode l poly).
Proof.
  intros Hl Hp Ha. apply width_cases in Hl. unfold encode. assert (Hz : length (map (fun _ => 0) arr) = Z.to_nat (32 * l)) by (rewrite length_map; lia).
  set (z := map (fun _ => 0) arr) in *. clearbody z. clear Ha.
  repeat destruct Hl as [Hl|Hl]; subst l.
  - exact (enc_loop enc1 8 1 32 1 poly z eq_refl eq_refl enc1_ok Hp Hz).
  - exact (enc_loop enc4 2 1 128 4 poly z eq_refl eq_refl enc4_ok Hp Hz).
  - exact (enc_loop enc5 8 5 32 5 poly z eq_refl eq_refl enc5_ok Hp Hz).
  - exact (enc_loop enc10 4 5 64 10 poly z eq_refl eq_refl enc10_ok Hp Hz).
  - exact (enc_loop enc11 8 11 32 11 poly z eq_refl eq_refl enc11_ok Hp Hz).
  - exact (enc_loop enc12 2 3 128 12 poly z eq_refl eq_refl enc12_ok Hp Hz).
Qed.

Lemma map_ident (l : list Z) : map (fun v => v) l = l.
Proof. apply map_id. Qed.

Lemma group_loop_ext f f' gin gout src cnt dst : (forall ts, f ts = f' ts) -> group_loop f gin gout src cnt dst = group_loop f' gin gout src cnt dst.
Proof.
  intros E. unfold group_loop. apply foldm_pointwise. intros i s. destruct (rds _ _ _); [|done]. cbn. by rewrite E.
Qed.

Lemma from_non_reduced_below v : 0 <= v < 2 ^ 12 -> from_non_reduced v = v mod Q.
Proof. intros Hv. apply from_non_reduced_spec. unfold is_u16. lia. Qed.

Lemma dec_loop_plain f (gin gout k l : nat) poly arr : (gin * k = 32 * l)%nat -> (gout * k = 256)%nat ->
  (forall bs, length bs = gin -> bytes_ok bs -> decodes l gout f bs) -> (forall bs, length bs = gin -> length (f bs) = gout) ->
  length arr = (32 * l)%nat -> bytes_ok arr -> length poly = 256%nat ->
  group_loop f (Z.of_nat gin) (Z.of_nat gout) arr (Z.of_nat k) poly = Some (repack l 256 (flat 8 arr)).
Proof.
  intros. rewrite (group_loop_ext f (fun bs => map (fun v => v) (f bs))) by (intros; by rewrite map_ident).
  rewrite (dec_loop _ f gin gout k l) by done. by rewrite map_ident.
Qed.

Ltac dec_length := let bs := fresh in let H := fresh in intros bs H; list_elements bs; reflexivity.

Lemma decode_spec l arr poly : width l -> Z.of_nat (length arr) = 32 * l -> bytes_ok arr -> length poly = 256%nat -> decode l arr poly = Some (byte_decode l arr).
Proof.
  intros Hl Ha Hb Hp. assert (Ha' : length arr = (32 * Z.to_nat l)%nat) by lia. apply width_cases in Hl. unfold decode, byte_decode.
  repeat destruct Hl as [Hl|Hl]; subst l; cbn [Z.eqb Pos.eqb]; rewrite ?map_ident.
  - refine (dec_loop_plain dec1 1 8 32 1 poly arr eq_refl eq_refl dec1_ok _ Ha' Hb Hp). dec_length.
  - refine (dec_loop_plain dec4 1 2 128 4 poly arr eq_refl eq_refl dec4_ok _ Ha' Hb Hp). dec_length.
  - refine (dec_loop_plain dec5 5 8 32 5 poly arr eq_refl eq_refl dec5_ok _ Ha' Hb Hp). dec_length.
  - refine (dec_loop_plain dec10 5 4 64 10 poly arr eq_refl eq_refl dec10_ok _ Ha' Hb Hp). dec_length.
  - refine (dec_loop_plain dec11 11 8 32 11 poly arr eq_refl eq_refl dec11_ok _ Ha' Hb Hp). dec_length.
  - transitivity (Some (map from_non_reduced (repack 12 256 (flat 8 arr)))).
    + refine (dec_loop _ dec12_raw 3 2 128 12 poly arr eq_refl eq_refl dec12_ok _ Ha' Hb Hp). dec_length.
    + f_equal. apply map_ext_Forall. apply (List.Forall_impl _ (P := fun v => 0 <= v < 2 ^ Z.of_nat 12)); [intros v Hv; by apply from_non_reduced_below|].
      apply repack_below. rewrite flat_length, Ha'. done.
Qed.

(** ** Round trips *)

Lemma byte_encode_length l F : 0 <= l -> Z.of_nat (length (byte_encode l F)) = 32 * l.
Proof. intros Hl. unfold byte_encode. rewrite repack_length. lia. Qed.

Lemma byte_encode_bytes l F : 0 <= l -> length F = 256%nat -> bytes_ok (byte_encode l F).
Proof. intros Hl HF. apply (repack_below 8). rewrite flat_length, HF. lia. Qed.

Lemma byte_decode_length l B : length (byte_decode l B) = 256%nat.
Proof. unfold byte_decode. by rewrite length_map, repack_length. Qed.

Lemma byte_decode_encode l F : 0 <= l -> length F = 256%nat -> below (Z.to_nat l) F -> (l = 12 -> Forall canonical F) ->
  byte_decode l (byte_encode l F) = F.
Proof.
  intros Hl HF Hb Hc. unfold byte_decode, byte_encode. rewrite flat_repack by (rewrite flat_length; lia). rewrite repack_flat by done.
  destruct (Z.eqb_spec l 12) as [E|_]; [|apply map_ident]. rewrite <- map_ident. apply map_ext_Forall.
  apply (List.Forall_impl _ (P := canonical)); [|by apply Hc]. intros v Hv. by apply Z.mod_small.
Qed.

Lemma byte_encode_decode l B : 0 <= l -> l <> 12 -> Z.of_nat (length B) = 32 * l -> bytes_ok B -> byte_encode l (byte_decode l B) = B.
Proof.
  intros Hl Hne HB Hb. unfold byte_decode, byte_encode. rewrite (proj2 (Z.eqb_neq l 12)) by done. rewrite map_ident.
  rewrite flat_repack by (rewrite flat_length; lia). apply repack_flat; [lia|done].
Qed.

(** With twelve bits exactly the encodings of canonical coefficients come back. *)
Lemma byte_encode_decode_12 B : length B = 384%nat -> bytes_ok B ->
  byte_encode 12 (byte_decode 12 B) = B <-> Forall canonical (repack 12 256 (flat 8 B)).
Proof.
  intros HB Hb. set (F := repack 12 256 (flat 8 B)). assert (HF : below 12 F) by (apply repack_below; rewrite flat_length, HB; done).
  assert (HlF : length F = 256%nat) by apply repack_length. assert (EF : flat 12 F = flat 8 B) by (apply flat_repack; rewrite flat_length, HB; done).
  assert (EB : byte_encode 12 F = B).
  { unfold byte_encode. change (Z.to_nat 12) with 12%nat. rewrite EF. apply repack_flat; [by rewrite HB|done]. }
  change (byte_decode 12 B) with (map (fun v => v mod Q) F). split.
  - intros E. assert (E2 : flat 12 (map (fun v => v mod Q) F) = flat 12 F).
    { unfold byte_encode in E. rewrite EF, <- E. change (Z.to_nat 12) with 12%nat. symmetry. apply flat_repack. rewrite flat_length, length_map, HlF. done. }
    apply (flat_inj 12) in E2; [|by rewrite length_map| |done].
    + rewrite <- E2. apply Forall_map, List.Forall_forall. intros v _. apply mod_canonical.
    + apply Forall_map, List.Forall_forall. intros v _. pose proof (mod_canonical v) as Hv. unfold canonical in Hv. rewrite Q_value in Hv |- *. cbn. lia.
  - intros Hc. transitivity (byte_encode 12 F); [|done]. f_equal. rewrite <- (map_ident F) at 2. apply map_ext_Forall.
    apply (List.Forall_impl _ (P := canonical)); [|done]. intros v Hv. by apply Z.mod_small.
Qed.
