(* ===== verification/MlVector.v ===== *)
(** * Vectors and matrices of ML-KEM polynomials: tools/ml_kem_512_single.hpp, namespace ml_kem_utils

    A vector is the flat array of its polynomials' coefficients, as in the
    source, and a [subspan] is a part of it that is written back.  The lemmas
    give each operation on the concatenation of a list of polynomials. *)

From Stdlib Require Import Lia Zmod.
From stdpp Require Import base tactics list numbers option.
From S2P Require Import Prelude QrArray MlField MlNtt MlRing MlCodec MlBits.
Local Open Scope Z_scope.

(** ** The operations *)

Definition check_k (k : Z) : bool := (k =? 2) || (k =? 3) || (k =? 4).

Definition check_matrix_dim (a_cols b_rows : Z) : bool := Z.lxor a_cols b_rows =? 0.

Definition mat_entry (a_cols b_cols : Z) (a b : list Z) (i j k : Z) (st : list Z * list Z) : option (list Z * list Z) :=
  let '(tmp, c) := st in
  let coff := (i * b_cols + j) * N in
  let aoff := (i * a_cols + k) * N in
  let boff := (k * b_cols + j) * N in
  f ← subspan a aoff N;
  g ← subspan b boff N;
  tmp ← polymul f g tmp;
  c ← foldm (each2 zadd coff tmp) (zrange 0 N) c;
  Some (tmp, c).

Definition matrix_multiply (a_rows a_cols b_rows b_cols : Z) (a b c : list Z) : option (list Z) :=
  if negb (check_matrix_dim a_cols b_rows) then None else
  let tmp := replicate (Z.to_nat N) 0 in
  st ← foldm (fun i st =>
    foldm (fun j st =>
      foldm (mat_entry a_cols b_cols a b i j) (zrange 0 a_cols) st)
    (zrange 0 b_cols) st)
  (zrange 0 a_rows) (tmp, c);
  Some st.2.

Definition poly_vec_ntt (k : Z) (vec : list Z) : option (list Z) := foldm (fun i vec => on_span vec (i * N) N ntt) (zrange 0 k) vec.
Definition poly_vec_intt (k : Z) (vec : list Z) : option (list Z) := foldm (fun i vec => on_span vec (i * N) N intt) (zrange 0 k) vec.

Definition poly_vec_add_to (k : Z) (src dst : list Z) : option (list Z) := let cnt := k * N in foldm (each2 zadd 0 src) (zrange 0 cnt) dst.
Definition poly_vec_sub_from (k : Z) (src dst : list Z) : option (list Z) := let cnt := k * N in foldm (each2 zsub 0 src) (zrange 0 cnt) dst.

Definition poly_vec_encode (k l : Z) (src dst : list Z) : option (list Z) :=
  foldm (fun i dst =>
    let off0 := i * N in let off1 := i * l * 32 in
    p ← subspan src off0 N;
    on_span dst off1 (32 * l) (encode l p)) (zrange 0 k) dst.

Definition poly_vec_decode (k l : Z) (src dst : list Z) : option (list Z) :=
  foldm (fun i dst =>
    let off0 := i * l * 32 in let off1 := i * N in
    b ← subspan src off0 (32 * l);
    on_span dst off1 N (decode l b)) (zrange 0 k) dst.

Definition poly_vec_compress (k d : Z) (vec : list Z) : option (list Z) := foldm (fun i vec => on_span vec (i * N) N (poly_compress d)) (zrange 0 k) vec.
Definition poly_vec_decompress (k d : Z) (vec : list Z) : option (list Z) := foldm (fun i vec => on_span vec (i * N) N (poly_decompress d)) (zrange 0 k) vec.

(** ** Vectors as lists of blocks *)

Definition blocks (n : Z) (ps : list (list Z)) : Prop := Forall (fun p => Z.of_nat (length p) = n) ps.

Lemma blocks_length n ps : blocks n ps -> Z.of_nat (length (concat ps)) = Z.of_nat (length ps) * n.
Proof. intros H. induction H as [|p ps Hp H IH]; [done|]. cbn [concat length]. rewrite length_app, Nat2Z.inj_add, IH, Hp, Nat2Z.inj_succ. ring. Qed.

Lemma blocks_app n ps qs : blocks n (ps ++ qs) <-> blocks n ps /\ blocks n qs.
Proof. apply Forall_app. Qed.

Lemma subspan_block n before p after off : off = Z.of_nat (length before) * n -> blocks n before -> Z.of_nat (length p) = n ->
  subspan (concat (before ++ p :: after)) off n = Some p.
Proof. intros -> Hb Hp. rewrite concat_app. cbn [concat]. apply subspan_mid; [by rewrite blocks_length with (n := n)|done]. Qed.

Lemma on_span_block n before p after off op q : off = Z.of_nat (length before) * n -> blocks n before -> Z.of_nat (length p) = n -> op p = Some q ->
  on_span (concat (before ++ p :: after)) off n op = Some (concat (before ++ q :: after)).
Proof. intros -> Hb Hp E. rewrite !concat_app. cbn [concat]. apply on_span_mid; [by rewrite blocks_length with (n := n)|done|done]. Qed.

Lemma take_count (ps : list (list Z)) i : (i <= length ps)%nat -> Z.of_nat (length (take i ps)) = Z.of_nat i.
Proof. rewrite length_take. lia. Qed.

Lemma subspan_lookup n ps m p : blocks n ps -> 0 <= m -> ps !! Z.to_nat m = Some p -> subspan (concat ps) (m * n) n = Some p.
Proof.
  intros Hb Hm Hp. pose proof (lookup_lt_Some _ _ _ Hp). rewrite <- (take_drop_middle _ _ _ Hp) in Hb |- *. apply blocks_app in Hb as [Hb Hb2].
  apply subspan_block; [rewrite take_count, Z2Nat.id by lia; done|done|]. by inversion Hb2.
Qed.

(** A loop that replaces block after block *)
Lemma blocks_loop (step : Z -> list Z -> option (list Z)) (ds rs : list (list Z)) : length ds = length rs ->
  (forall i d r after, ds !! i = Some d -> rs !! i = Some r -> step (Z.of_nat i) (concat (take i rs ++ d :: after)) = Some (concat (take i rs ++ r :: after))) ->
  foldm step (zrange 0 (Z.of_nat (length ds))) (concat ds) = Some (concat rs).
Proof.
  intros Hl Hstep. range_invariant (fun i s => s = concat (take (Z.to_nat i) rs ++ drop (Z.to_nat i) ds)).
  - lia.
  - intros i s Hi ->. destruct (lookup_lt_is_Some_2 ds (Z.to_nat i)) as [d Hd]; [lia|]. destruct (lookup_lt_is_Some_2 rs (Z.to_nat i)) as [r Hr]; [lia|].
    rewrite (drop_S _ _ _ Hd). specialize (Hstep _ _ _ (drop (S (Z.to_nat i)) ds) Hd Hr). rewrite Z2Nat.id in Hstep by lia. rewrite Hstep.
    eexists. split; [done|]. replace (Z.to_nat (i + 1)) with (S (Z.to_nat i)) by lia. by rewrite (take_S_r _ _ _ Hr), <- app_assoc.
  - done.
  - rewrite Hinv, Nat2Z.id, drop_all, app_nil_r, Hl, firstn_all. done.
Qed.

Lemma blocks_lookup n ps i p : blocks n ps -> ps !! i = Some p -> Z.of_nat (length p) = n.
Proof. intros H Hp. by apply (Forall_lookup_1 _ _ _ _ H Hp). Qed.

Lemma blocks_take n ps i : blocks n ps -> blocks n (take i ps).
Proof. intros H. by apply Forall_take. Qed.

(** An operation on every block in place *)
Lemma on_blocks n k op ps qs : k = Z.of_nat (length ps) -> blocks n ps -> blocks n qs -> Forall2 (fun p q => op p = Some q) ps qs ->
  foldm (fun i vec => on_span vec (i * n) n op) (zrange 0 k) (concat ps) = Some (concat qs).
Proof.
  intros -> Hp Hq H. apply blocks_loop; [by apply Forall2_length in H|]. intros i d r after Hd Hr.
  apply on_span_block; [by rewrite take_count by (apply lookup_lt_Some in Hr; lia)|by apply blocks_take|by apply (blocks_lookup _ ps i)|].
  by apply (Forall2_lookup_lr _ _ _ _ _ _ H Hd Hr).
Qed.

(** From one array of blocks into another *)
Lemma copy_blocks m n k (op : list Z -> list Z -> option (list Z)) ss ds rs (o1 o2 : Z -> Z) : k = Z.of_nat (length ss) -> length ds = length ss ->
  (forall i, o1 i = i * m) -> (forall i, o2 i = i * n) ->
  blocks m ss -> blocks n ds -> blocks n rs -> (forall d, Z.of_nat (length d) = n -> Forall2 (fun s r => op s d = Some r) ss rs) ->
  foldm (fun i dst => s ← subspan (concat ss) (o1 i) m; on_span dst (o2 i) n (op s)) (zrange 0 k) (concat ds) = Some (concat rs).
Proof.
  intros -> Hl Ho1 Ho2 Hs Hd Hr H. assert (Hlr : length rs = length ss).
  { symmetry. destruct ss as [|s ss]; [|]; destruct ds as [|d ds]; try discriminate.
    - specialize (H (replicate (Z.to_nat n) 0)). destruct rs as [|r rs]; [done|]. inversion Hr. exfalso. assert (HF : Forall2 (fun s r => op s (replicate (Z.to_nat n) 0) = Some r) [] (r :: rs)) by (apply H; rewrite length_replicate; lia). inversion HF.
    - inversion Hd. by eapply Forall2_length, (H d). }
  rewrite <- Hl. apply blocks_loop; [lia|]. intros i d r after Hdi Hri. destruct (lookup_lt_is_Some_2 ss i) as [s Hsi]; [apply lookup_lt_Some in Hri; lia|].
  rewrite Ho1, (subspan_lookup m ss (Z.of_nat i) s) by (try done; try lia; by rewrite Nat2Z.id). cbn [mbind option_bind]. pose proof (blocks_lookup _ _ _ _ Hd Hdi) as Hld.
  apply on_span_block; [by rewrite Ho2, take_count by (apply lookup_lt_Some in Hri; lia)|by apply blocks_take|done|].
  by apply (Forall2_lookup_lr _ _ _ _ _ _ (H d Hld) Hsi Hri).
Qed.

(** ** Vectors of polynomials *)

(** [k] polynomials with canonical coefficients *)
Definition vec (k : Z) (ps : list (list Z)) : Prop := Z.of_nat (length ps) = k /\ Forall (coeffs N) ps.

Lemma vec_blocks k ps : vec k ps -> blocks N ps.
Proof. intros [_ H]. eapply List.Forall_impl; [|exact H]. intros p Hp. apply Hp. Qed.

Lemma vec_lookup k ps i : vec k ps -> 0 <= i < k -> exists p, ps !! Z.to_nat i = Some p /\ coeffs N p.
Proof.
  intros [Hl Hc] Hi. destruct (lookup_lt_is_Some_2 ps (Z.to_nat i)) as [p Hp]; [lia|]. exists p. split; [done|]. by apply (Forall_lookup_1 _ _ _ _ Hc Hp).
Qed.

Lemma vec_map k ps (g : list Z -> list Z) : vec k ps -> (forall p, coeffs N p -> coeffs N (g p)) -> vec k (map g ps).
Proof. intros [Hl Hc] Hg. split; [by rewrite length_map|]. apply Forall_map. eapply List.Forall_impl; [|exact Hc]. done. Qed.

(** The transforms as total functions *)
Definition ntt_of (p : list Z) : list Z := default [] (ntt p).
Definition intt_of (p : list Z) : list Z := default [] (intt p).

Lemma ntt_of_spec p : coeffs N p -> ntt p = Some (ntt_of p) /\ coeffs N (ntt_of p) /\ forall i, 0 <= i < N -> co (ntt_of p) i = ntt_fn (co p) i.
Proof. intros Hp. destruct (ntt_runs_as p Hp) as (q & E & Hq & H). unfold ntt_of. by rewrite E. Qed.

Lemma intt_of_spec p : coeffs N p -> intt p = Some (intt_of p) /\ coeffs N (intt_of p) /\ forall i, 0 <= i < N -> co (intt_of p) i = intt_fn (co p) i.
Proof. intros Hp. destruct (intt_runs_as p Hp) as (q & E & Hq & H). unfold intt_of. by rewrite E. Qed.

Lemma on_vec k op (g : list Z -> list Z) ps : vec k ps -> (forall p, coeffs N p -> op p = Some (g p) /\ Z.of_nat (length (g p)) = N) ->
  foldm (fun i v => on_span v (i * N) N op) (zrange 0 k) (concat ps) = Some (concat (map g ps)).
Proof.
  intros Hv Hg. pose proof (vec_blocks _ _ Hv) as Hb. destruct Hv as [Hl Hc]. apply on_blocks; [done|done| |].
  - apply Forall_map. eapply List.Forall_impl; [|exact Hc]. intros p Hp. by apply Hg.
  - apply Forall2_fmap_r. clear Hl Hb. induction Hc as [|p ps Hp Hc IH]; constructor; [by apply Hg|done].
Qed.

Lemma poly_vec_ntt_runs k ps : vec k ps -> poly_vec_ntt k (concat ps) = Some (concat (map ntt_of ps)) /\ vec k (map ntt_of ps).
Proof.
  intros Hv. split; [|apply vec_map; [done|intros p Hp; by apply ntt_of_spec]]. apply on_vec; [done|]. intros p Hp.
  destruct (ntt_of_spec p Hp) as (E & H & _). split; [done|apply H].
Qed.

Lemma poly_vec_intt_runs k ps : vec k ps -> poly_vec_intt k (concat ps) = Some (concat (map intt_of ps)) /\ vec k (map intt_of ps).
Proof.
  intros Hv. split; [|apply vec_map; [done|intros p Hp; by apply intt_of_spec]]. apply on_vec; [done|]. intros p Hp.
  destruct (intt_of_spec p Hp) as (E & H & _). split; [done|apply H].
Qed.

(** *** Sums and differences *)

Definition poly_add (p q : list Z) : list Z := zip_with zadd p q.
Definition poly_sub (p q : list Z) : list Z := zip_with zsub p q.

Lemma coeffs_zip (g : Z -> Z -> Z) n p q : coeffs n p -> coeffs n q -> (forall x y, canonical x -> canonical y -> canonical (g x y)) -> coeffs n (zip_with g p q).
Proof.
  intros [Hp Hcp] [Hq Hcq] Hg. split; [rewrite length_zip_with; lia|]. apply List.Forall_forall. intros v Hv. apply list_elem_of_In, elem_of_lookup_zip_with_1 in Hv as (i & x & y & -> & Hx & Hy).
  apply Hg; [by apply (Forall_lookup_1 _ _ _ _ Hcp Hx)|by apply (Forall_lookup_1 _ _ _ _ Hcq Hy)].
Qed.

Lemma co_zip g (op : fq -> fq -> fq) n p q i : coeffs n p -> coeffs n q -> (forall x y, canonical x -> canonical y -> fz (g x y) = op (fz x) (fz y)) ->
  0 <= i < n -> co (zip_with g p q) i = op (co p i) (co q i).
Proof.
  intros Hp Hq Hg Hi. destruct (coeffs_rd n p i Hp Hi) as (x & Ex & Hx & <-). destruct (coeffs_rd n q i Hq Hi) as (y & Ey & Hy & <-).
  rewrite <- Hg by done. unfold co. apply rd_lookup in Ex as [_ Ex], Ey as [_ Ey]. unfold rd. rewrite (proj2 (Z.leb_le 0 i)) by lia.
  by rewrite lookup_zip_with, Ex, Ey.
Qed.

Lemma poly_add_coeffs p q : coeffs N p -> coeffs N q -> coeffs N (poly_add p q).
Proof. intros. apply (coeffs_zip zadd N); auto with ml. Qed.

Lemma poly_sub_coeffs p q : coeffs N p -> coeffs N q -> coeffs N (poly_sub p q).
Proof. intros. apply (coeffs_zip zsub N); auto with ml. Qed.

Lemma co_poly_add p q i : coeffs N p -> coeffs N q -> 0 <= i < N -> co (poly_add p q) i = (co p i + co q i)%Zmod.
Proof. intros. apply (co_zip zadd Zmod.add N); [done..|apply fz_zadd|done]. Qed.

Lemma co_poly_sub p q i : coeffs N p -> coeffs N q -> 0 <= i < N -> co (poly_sub p q) i = (co p i - co q i)%Zmod.
Proof. intros. apply (co_zip zsub Zmod.sub N); [done..|apply fz_zsub|done]. Qed.

#[export] Hint Resolve poly_add_coeffs poly_sub_coeffs : ml.

Lemma zip_with_concat (g : Z -> Z -> Z) n (ps qs : list (list Z)) : length ps = length qs -> blocks n ps -> blocks n qs ->
  zip_with g (concat ps) (concat qs) = concat (zip_with (zip_with g) ps qs).
Proof.
  revert qs. induction ps as [|p ps IH]; intros [|q qs] Hl Hp Hq; try discriminate; [done|]. inversion Hp; inversion Hq; subst. cbn [concat zip_with].
  rewrite zip_with_app by lia. f_equal. apply IH; [by injection Hl|done|done].
Qed.

Lemma each2_all g src dst n : length dst = length src -> n = Z.of_nat (length src) -> foldm (each2 g 0 src) (zrange 0 n) dst = Some (zip_with g dst src).
Proof. intros Hl Hn. pose proof (each2_mid g [] dst [] src 0 n eq_refl Hl Hn) as E. by rewrite !app_nil_r in E. Qed.

Lemma vec_zip k ps qs (g : list Z -> list Z -> list Z) : vec k ps -> vec k qs -> (forall p q, coeffs N p -> coeffs N q -> coeffs N (g p q)) -> vec k (zip_with g ps qs).
Proof.
  intros [Hp Hcp] [Hq Hcq] Hg. split; [rewrite length_zip_with; lia|]. apply List.Forall_forall. intros v Hv.
  apply list_elem_of_In, elem_of_lookup_zip_with_1 in Hv as (i & x & y & -> & Hx & Hy).
  apply Hg; [by apply (Forall_lookup_1 _ _ _ _ Hcp Hx)|by apply (Forall_lookup_1 _ _ _ _ Hcq Hy)].
Qed.

Lemma vec_zip_runs g k ps qs : vec k ps -> vec k qs ->
  foldm (each2 g 0 (concat qs)) (zrange 0 (k * N)) (concat ps) = Some (concat (zip_with (zip_with g) ps qs)).
Proof.
  intros Hp Hq. pose proof (vec_blocks _ _ Hp) as Bp. pose proof (vec_blocks _ _ Hq) as Bq. destruct Hp as [Hp _], Hq as [Hq _].
  rewrite each2_all; [f_equal; apply (zip_with_concat g N); [lia|done|done]| |].
  - pose proof (blocks_length _ _ Bp). pose proof (blocks_length _ _ Bq). rewrite Hp, Hq in *. lia.
  - rewrite (blocks_length N) by done. by rewrite Hq.
Qed.

Lemma poly_vec_add_to_runs k src dst : vec k src -> vec k dst ->
  poly_vec_add_to k (concat src) (concat dst) = Some (concat (zip_with poly_add dst src)) /\ vec k (zip_with poly_add dst src).
Proof. intros Hs Hd. split; [by apply vec_zip_runs|]. apply vec_zip; auto with ml. Qed.

Lemma poly_vec_sub_from_runs k src dst : vec k src -> vec k dst ->
  poly_vec_sub_from k (concat src) (concat dst) = Some (concat (zip_with poly_sub dst src)) /\ vec k (zip_with poly_sub dst src).
Proof. intros Hs Hd. split; [by apply vec_zip_runs|]. apply vec_zip; auto with ml. Qed.

(** *** Compression and serialization *)

Lemma compress_canonical d x : 1 <= d <= 11 -> canonical x -> canonical (compress d x).
Proof. intros Hd Hx. pose proof (compress_range d x Hd Hx). pose proof (pow_bounds d Hd). unfold canonical. rewrite Q_value. lia. Qed.

Lemma coeffs_map n p (g : Z -> Z) : coeffs n p -> (forall x, canonical x -> canonical (g x)) -> coeffs n (map g p).
Proof. intros [Hl Hc] Hg. split; [by rewrite length_map|]. apply Forall_map. eapply List.Forall_impl; [|exact Hc]. done. Qed.

Lemma coeffs_length p : coeffs N p -> length p = 256%nat.
Proof. intros [Hl _]. change N with 256 in Hl. lia. Qed.

Lemma poly_vec_compress_runs k d ps : 1 <= d <= 11 -> vec k ps -> poly_vec_compress k d (concat ps) = Some (concat (map (map (compress d)) ps)) /\ vec k (map (map (compress d)) ps).
Proof.
  intros Hd Hv. split; [|apply vec_map; [done|intros p Hp; apply coeffs_map; [done|intros x; by apply compress_canonical]]].
  apply on_vec; [done|]. intros p Hp. split; [by apply poly_compress_runs, coeffs_length|]. rewrite length_map. apply Hp.
Qed.

(** Arrays that hold values of [d] bits *)
Definition vec_below (d : Z) (k : Z) (ps : list (list Z)) : Prop := Z.of_nat (length ps) = k /\ Forall (fun p => length p = 256%nat /\ below (Z.to_nat d) p) ps.

Lemma vec_below_blocks d k ps : vec_below d k ps -> blocks N ps.
Proof. intros [_ H]. eapply List.Forall_impl; [|exact H]. intros p [Hp _]. by rewrite Hp. Qed.

Lemma decompress_canonical d p : 1 <= d <= 11 -> below (Z.to_nat d) p -> Forall canonical (map (decompress d) p).
Proof.
  intros Hd Hp. apply Forall_map. eapply List.Forall_impl; [|exact Hp]. intros v Hv. rewrite Z2Nat.id in Hv by lia. by apply decompress_spec.
Qed.

Lemma poly_vec_decompress_runs k d ps : 1 <= d <= 11 -> vec_below d k ps ->
  poly_vec_decompress k d (concat ps) = Some (concat (map (map (decompress d)) ps)) /\ vec k (map (map (decompress d)) ps).
Proof.
  intros Hd Hv. pose proof (vec_below_blocks _ _ _ Hv) as Hb. destruct Hv as [Hl Hc]. split.
  - apply on_blocks; [done|done| |].
    + apply Forall_map. eapply List.Forall_impl; [|exact Hb]. intros p Hp. by rewrite length_map.
    + apply Forall2_fmap_r. clear Hl Hb. induction Hc as [|p ps [Hp _] Hc IH]; constructor; [by apply poly_decompress_runs|done].
  - split; [by rewrite length_map|]. apply Forall_map. eapply List.Forall_impl; [|exact Hc]. intros p [Hp Hbp]. split; [by rewrite length_map, Hp|by apply decompress_canonical].
Qed.

Lemma poly_vec_encode_runs k l ps ds : width l -> Z.of_nat (length ps) = k -> Forall (fun p => length p = 256%nat) ps -> length ds = length ps -> blocks (32 * l) ds ->
  poly_vec_encode k l (concat ps) (concat ds) = Some (concat (map (byte_encode l) ps)).
Proof.
  intros Hl Hk Hp Hd Hb. assert (Hl0 : 0 <= l) by (apply width_cases in Hl; lia).
  apply (copy_blocks N (32 * l) k (encode l) ps ds (map (byte_encode l) ps) (fun i => i * N) (fun i => i * l * 32)); [done|done|lia|lia| |done| |].
  - eapply List.Forall_impl; [|exact Hp]. intros p E. cbn in E. by rewrite E.
  - apply Forall_map. eapply List.Forall_impl; [|exact Hp]. intros p _. by apply byte_encode_length.
  - intros d Hdl. apply Forall2_fmap_r. clear -Hp Hdl Hl. induction Hp as [|p ps Hp Hps IH]; constructor; [by apply poly_encode_spec|done].
Qed.

Lemma poly_vec_decode_runs k l bs ds : width l -> Z.of_nat (length bs) = k -> blocks (32 * l) bs -> Forall bytes_ok bs -> length ds = length bs -> blocks N ds ->
  poly_vec_decode k l (concat bs) (concat ds) = Some (concat (map (byte_decode l) bs)).
Proof.
  intros Hl Hk Hb Hok Hd Hdb.
  apply (copy_blocks (32 * l) N k (decode l) bs ds (map (byte_decode l) bs) (fun i => i * l * 32) (fun i => i * N)); [done|done|lia|lia|done|done| |].
  - apply Forall_map. eapply List.Forall_impl; [|exact Hb]. intros p _. by rewrite byte_decode_length.
  - intros d Hdl. apply Forall2_fmap_r. change N with 256 in Hdl. clear -Hb Hok Hdl Hl. induction Hok as [|b bs Hbk Hok IH]; constructor; inversion Hb; subst; [apply decode_spec; try done; lia|by apply IH].
Qed.

(** ** Products of matrices *)

(** The product of two transformed polynomials *)
Definition pmul (f g : list Z) : list Z := default [] (polymul f g (replicate 256 0)).

(** Block [b] of a transformed polynomial, as a residue *)
Definition hat (p : list Z) (b : Z) : res := pair_at (co p) b.

Lemma zeros_coeffs : coeffs N (replicate 256 0).
Proof. apply coeffs_check. by vm_compute. Qed.

Lemma hat_inj p q : coeffs N p -> coeffs N q -> (forall b, 0 <= b < 128 -> hat p b = hat q b) -> p = q.
Proof. intros Hp Hq E. apply (coeffs_ext N); [done|done|]. by apply pair_at_ext. Qed.

Lemma pmul_spec f g tmp : coeffs N f -> coeffs N g -> coeffs N tmp ->
  polymul f g tmp = Some (pmul f g) /\ coeffs N (pmul f g) /\ forall b, 0 <= b < 128 -> hat (pmul f g) b = rmul (gam 1 b) (hat f b) (hat g b).
Proof.
  intros Hf Hg Ht. destruct (polymul_runs f g _ Hf Hg zeros_coeffs) as (h & E & Hh & Eh). destruct (polymul_runs f g tmp Hf Hg Ht) as (h' & E' & Hh' & Eh').
  unfold pmul. rewrite E, E'. cbn [default from_option id]. split; [|done]. f_equal. apply hat_inj; [done|done|]. intros b Hb. unfold hat. by rewrite Eh, Eh'.
Qed.

Lemma pmul_coeffs f g : coeffs N f -> coeffs N g -> coeffs N (pmul f g).
Proof. intros Hf Hg. by apply (pmul_spec f g _ Hf Hg zeros_coeffs). Qed.

#[export] Hint Resolve pmul_coeffs : ml.

Lemma hat_add p q b : coeffs N p -> coeffs N q -> 0 <= b < 128 -> hat (poly_add p q) b = MlRing.radd (hat p b) (hat q b).
Proof. intros Hp Hq Hb. unfold hat, pair_at, MlRing.radd. by rewrite !co_poly_add by (done || change N with 256; lia). Qed.

Lemma hat_sub p q b : coeffs N p -> coeffs N q -> 0 <= b < 128 -> hat (poly_sub p q) b = rsub (hat p b) (hat q b).
Proof. intros Hp Hq Hb. unfold hat, pair_at, rsub. by rewrite !co_poly_sub by (done || change N with 256; lia). Qed.

(** Element [m] of a list of polynomials *)
Definition el (ps : list (list Z)) (m : Z) : list Z := nth (Z.to_nat m) ps [].

Lemma el_lookup k ps m : vec k ps -> 0 <= m < k -> ps !! Z.to_nat m = Some (el ps m) /\ coeffs N (el ps m).
Proof.
  intros Hv Hm. destruct (vec_lookup k ps m Hv Hm) as (p & Hp & Hc). unfold el. assert (E : nth (Z.to_nat m) ps [] = p) by (rewrite nth_lookup; by rewrite Hp).
  by rewrite E.
Qed.

Section Matrix.
Context (ar ac bc : Z) (A B : list (list Z)).
Hypothesis Har : 0 <= ar.
Hypothesis Hac : 0 <= ac.
Hypothesis Hbc : 0 <= bc.
Hypothesis HA : vec (ar * ac) A.
Hypothesis HB : vec (ac * bc) B.

(** The entry in row [i] and column [j] of the product, added to [c] *)
Definition dot_upto (n i j : Z) (c : list Z) : list Z :=
  fold_left (fun c k => poly_add c (pmul (el A (i * ac + k)) (el B (k * bc + j)))) (zrange 0 n) c.

Lemma index_range i j n m : 0 <= i < n -> 0 <= j < m -> 0 <= i * m + j < n * m.
Proof. nia. Qed.

Lemma dot_coeffs n i j c : 0 <= i < ar -> 0 <= j < bc -> 0 <= n <= ac -> coeffs N c -> coeffs N (dot_upto n i j c).
Proof.
  intros Hi Hj Hn. unfold dot_upto. assert (Hin : forall k, In k (zrange 0 n) -> 0 <= k < ac).
  { intros k Hk%list_elem_of_In%elem_of_zrange. lia. }
  revert c Hin. induction (zrange 0 n) as [|k ks IH]; intros c Hin Hc; [done|]. cbn [fold_left]. apply IH; [intros; apply Hin; by right|].
  assert (Hk : 0 <= k < ac) by (apply Hin; by left).
  apply poly_add_coeffs; [done|]. apply pmul_coeffs; [apply (el_lookup (ar * ac))|apply (el_lookup (ac * bc))]; try done; by apply index_range.
Qed.

Lemma dot_S n i j c : 0 <= n -> dot_upto (n + 1) i j c = poly_add (dot_upto n i j c) (pmul (el A (i * ac + n)) (el B (n * bc + j))).
Proof. intros Hn. unfold dot_upto. by rewrite zrange_snoc, fold_left_app. Qed.

Lemma mat_entry_runs i j k tmp before c after : 0 <= i < ar -> 0 <= j < bc -> 0 <= k < ac -> coeffs N tmp -> blocks N before -> coeffs N c ->
  Z.of_nat (length before) = i * bc + j ->
  exists tmp', coeffs N tmp' /\
    mat_entry ac bc (concat A) (concat B) i j k (tmp, concat (before ++ c :: after)) = Some (tmp', concat (before ++ poly_add c (pmul (el A (i * ac + k)) (el B (k * bc + j))) :: after)).
Proof.
  intros Hi Hj Hk Ht Hb Hc Hl. destruct (el_lookup _ A (i * ac + k) HA) as [EA HcA]; [by apply index_range|]. destruct (el_lookup _ B (k * bc + j) HB) as [EB HcB]; [by apply index_range|].
  unfold mat_entry. rewrite (subspan_lookup N A (i * ac + k) _ (vec_blocks _ _ HA)) by (done || nia). cbn [mbind option_bind].
  rewrite (subspan_lookup N B (k * bc + j) _ (vec_blocks _ _ HB)) by (done || nia). cbn [mbind option_bind].
  destruct (pmul_spec _ _ _ HcA HcB Ht) as (E & Hpc & _). rewrite E. cbn [mbind option_bind]. exists (pmul (el A (i * ac + k)) (el B (k * bc + j))). split; [done|].
  rewrite concat_app. cbn [concat]. rewrite each2_mid; [cbn [mbind option_bind]; by rewrite concat_app|..].
  - by rewrite (blocks_length N), Hl by done.
  - by rewrite (coeffs_length _ Hc), (coeffs_length _ Hpc).
  - by rewrite (coeffs_length _ Hpc).
Qed.

Lemma mat_cell_runs i j tmp before c after : 0 <= i < ar -> 0 <= j < bc -> coeffs N tmp -> blocks N before -> coeffs N c -> Z.of_nat (length before) = i * bc + j ->
  exists tmp', coeffs N tmp' /\
    foldm (mat_entry ac bc (concat A) (concat B) i j) (zrange 0 ac) (tmp, concat (before ++ c :: after)) = Some (tmp', concat (before ++ dot_upto ac i j c :: after)).
Proof.
  intros Hi Hj Ht Hb Hc Hl. range_invariant (fun k st => exists tmp', coeffs N tmp' /\ st = (tmp', concat (before ++ dot_upto k i j c :: after))).
  - done.
  - intros k st Hk (t & Ht' & ->). destruct (mat_entry_runs i j k t before (dot_upto k i j c) after) as (t' & Ht2 & E); try done; [apply dot_coeffs; lia || done|].
    exists (t', concat (before ++ dot_upto (k + 1) i j c :: after)). split; [by rewrite dot_S by lia|]. by exists t'.
  - by exists tmp.
  - destruct Hinv as (t & Ht' & ->). by exists t.
Qed.

(** The whole product, added to [C] *)
Definition mat_result (C : list (list Z)) : list (list Z) := map (fun m => dot_upto ac (m / bc) (m mod bc) (el C m)) (zrange 0 (ar * bc)).

Lemma mat_result_lookup C i j : 0 <= i < ar -> 0 <= j < bc -> mat_result C !! Z.to_nat (i * bc + j) = Some (dot_upto ac i j (el C (i * bc + j))).
Proof.
  intros Hi Hj. pose proof (index_range i j ar bc Hi Hj) as Hr. unfold mat_result, zrange. rewrite map_map, list_lookup_fmap, lookup_seq_lt by lia. cbn [fmap option_fmap option_map].
  replace (0 + Z.of_nat (0 + Z.to_nat (i * bc + j))) with (i * bc + j) by lia.
  rewrite Z.div_add_l, Z.div_small, Z.add_0_r by lia. by rewrite (Z.add_comm (i * bc)), Z.mod_add, Z.mod_small by lia.
Qed.

Lemma mat_result_vec C : vec (ar * bc) C -> vec (ar * bc) (mat_result C).
Proof.
  intros HC. split; [unfold mat_result; rewrite length_map, zrange_length; nia|]. unfold mat_result. apply Forall_map, List.Forall_forall. intros m Hm%list_elem_of_In%elem_of_zrange.
  assert (0 < bc) by nia. apply dot_coeffs; [split; [apply Z.div_pos; lia|apply Z.div_lt_upper_bound; lia]|by apply Z.mod_pos_bound|lia|]. by apply (el_lookup (ar * bc)).
Qed.

Lemma mat_row_runs i C tmp : 0 <= i < ar -> coeffs N tmp -> vec (ar * bc) C ->
  exists tmp', coeffs N tmp' /\
    foldm (fun j st => foldm (mat_entry ac bc (concat A) (concat B) i j) (zrange 0 ac) st) (zrange 0 bc)
      (tmp, concat (take (Z.to_nat (i * bc)) (mat_result C) ++ drop (Z.to_nat (i * bc)) C))
    = Some (tmp', concat (take (Z.to_nat ((i + 1) * bc)) (mat_result C) ++ drop (Z.to_nat ((i + 1) * bc)) C)).
Proof.
  intros Hi Ht HC. pose proof (mat_result_vec C HC) as HR.
  range_invariant (fun j st => exists t, coeffs N t /\ st = (t, concat (take (Z.to_nat (i * bc + j)) (mat_result C) ++ drop (Z.to_nat (i * bc + j)) C))).
  - done.
  - intros j st Hj (t & Ht' & ->). pose proof (index_range i j ar bc Hi Hj) as Hr. destruct (el_lookup _ C (i * bc + j) HC Hr) as [EC HcC].
    rewrite (drop_S _ _ _ EC). assert (Hlen : (Z.to_nat (i * bc + j) <= length (mat_result C))%nat) by (destruct HR; lia).
    destruct (mat_cell_runs i j t (take (Z.to_nat (i * bc + j)) (mat_result C)) (el C (i * bc + j)) (drop (S (Z.to_nat (i * bc + j))) C)) as (t' & Ht2 & E);
      [done|done|done|apply blocks_take, (vec_blocks _ _ HR)|done|rewrite take_count by done; lia|]. rewrite E. eexists. split; [done|]. exists t'. split; [done|].
    replace (Z.to_nat (i * bc + (j + 1))) with (S (Z.to_nat (i * bc + j))) by lia. by rewrite (take_S_r _ _ _ (mat_result_lookup C i j Hi Hj)), <- app_assoc.
  - exists tmp. by rewrite Z.add_0_r.
  - destruct Hinv as (t & Ht' & ->). exists t. split; [done|]. by replace ((i + 1) * bc) with (i * bc + bc) by lia.
Qed.

Lemma matrix_multiply_runs br C : br = ac -> vec (ar * bc) C ->
  matrix_multiply ar ac br bc (concat A) (concat B) (concat C) = Some (concat (mat_result C)) /\ vec (ar * bc) (mat_result C).
Proof.
  intros -> HC. split; [|by apply mat_result_vec]. unfold matrix_multiply, check_matrix_dim. rewrite Z.lxor_nilpotent. cbn [negb Z.eqb].
  range_invariant (fun i st => exists t, coeffs N t /\ st = (t, concat (take (Z.to_nat (i * bc)) (mat_result C) ++ drop (Z.to_nat (i * bc)) C))).
  - done.
  - intros i st Hi (t & Ht & ->). destruct (mat_row_runs i C t Hi Ht HC) as (t' & Ht' & E). rewrite E. eexists. split; [done|]. by exists t'.
  - exists (replicate (Z.to_nat N) 0). split; [exact zeros_coeffs|]. by rewrite Z.mul_0_l.
  - destruct Hinv as (t & _ & ->). cbn [mbind option_bind snd]. f_equal. destruct (mat_result_vec C HC) as [Hl _]. destruct HC as [HlC _].
    rewrite take_ge, drop_ge, app_nil_r by lia. done.
Qed.
End Matrix.
