(* ===== verification/MlScheme.v ===== *)
(** * ML-KEM's encryption as equations in a ring of polynomials *)

From Stdlib Require Import Lia Zmod.
From stdpp Require Import base tactics list numbers option.
From S2P Require Import Prelude QrArray MlField MlNtt MlRing MlCodec MlBits MlVector.
Local Open Scope Z_scope.

(** * Polynomials of ML-KEM as elements of a ring

    [spec p b] is the value of the polynomial [p] at the [b]-th root; two
    polynomials with the same values are equal, sums go to sums, negacyclic
    products to products, and a matrix product of transformed polynomials to
    the sums of products.  With these an equation of polynomials is an
    equation in a commutative ring; the one that decryption rests on is
    proved here. *)

(** ** The identity of the scheme, in any commutative ring *)

Section Identity.
Context {A : Type} (rO rI : A) (add mul sub : A -> A -> A) (opp : A -> A).
Hypothesis RT : ring_theory rO rI add mul sub opp eq.
Add Ring ring_of_identity : RT.
Notation sum := (rsum rO add).

Lemma scheme_identity k (M : nat -> nat -> A) (s e r e1 du : nat -> A) e2 m dv :
  sub (add (add (add (sum k (fun i => mul (add (sum k (fun j => mul (M i j) (s j))) (e i)) (r i))) e2) m) dv)
    (sum k (fun i => mul (s i) (add (add (sum k (fun j => mul (M j i) (r j))) (e1 i)) (du i)))) =
  add m (sub (add (add e2 dv) (sum k (fun i => mul (e i) (r i)))) (sum k (fun i => mul (s i) (add (e1 i) (du i))))).
Proof.
  assert (E1 : sum k (fun i => mul (add (sum k (fun j => mul (M i j) (s j))) (e i)) (r i)) =
    add (sum k (fun i => sum k (fun j => mul (mul (M i j) (s j)) (r i)))) (sum k (fun i => mul (e i) (r i)))).
  { rewrite <- (rsum_add _ _ _ _ _ _ RT). apply rsum_ext. intros i _. rewrite <- (rsum_mul_r _ _ _ _ _ _ RT). ring. }
  assert (E2 : sum k (fun i => mul (s i) (add (add (sum k (fun j => mul (M j i) (r j))) (e1 i)) (du i))) =
    add (sum k (fun i => sum k (fun j => mul (s i) (mul (M j i) (r j))))) (sum k (fun i => mul (s i) (add (e1 i) (du i))))).
  { rewrite <- (rsum_add _ _ _ _ _ _ RT). apply rsum_ext. intros i _. rewrite <- (rsum_mul_l _ _ _ _ _ _ RT). ring. }
  assert (E3 : sum k (fun i => sum k (fun j => mul (s i) (mul (M j i) (r j)))) = sum k (fun i => sum k (fun j => mul (mul (M i j) (s j)) (r i)))).
  { rewrite (rsum_swap _ _ _ _ _ _ RT). apply rsum_ext. intros i _. apply rsum_ext. intros j _. ring. }
  rewrite E1, E2, E3. ring.
Qed.
End Identity.

(** ** Values *)

Definition spec (p : list Z) (b : Z) : res := hat (ntt_of p) b.

Notation res0 := (rconst Zmod.zero).
Notation res_sum := (rsum res0 MlRing.radd).

Lemma spec_value p b : coeffs N p -> 0 <= b < 128 -> spec p b = value (gam 1 b) 128 (nat_co (co p)).
Proof.
  intros Hp Hb. destruct (ntt_of_spec p Hp) as (_ & Hn & En). unfold spec, hat. rewrite <- ntt_fn_value by done. unfold pair_at. by rewrite !En by (change N with 256; lia).
Qed.

Lemma value_ext gamma f g : (forall i, (i < 256)%nat -> f i = g i) -> value gamma 128 f = value gamma 128 g.
Proof. intros E. unfold value. apply (f_equal2 pair); apply rsum_ext; intros m Hm; apply (f_equal2 (@Zmod.mul Q)); try done; apply E; lia. Qed.

Lemma value_add gamma f g : value gamma 128 (fun i => f i + g i)%Zmod = MlRing.radd (value gamma 128 f) (value gamma 128 g).
Proof.
  unfold value, MlRing.radd. cbn [fst snd]. rewrite <- !(rsum_add _ _ _ _ _ _ (Zmod.ring_theory Q)). apply (f_equal2 pair); apply rsum_ext; intros m _; ring.
Qed.

Lemma spec_add p q b : coeffs N p -> coeffs N q -> 0 <= b < 128 -> spec (poly_add p q) b = MlRing.radd (spec p b) (spec q b).
Proof.
  intros Hp Hq Hb. rewrite !spec_value by auto with ml. rewrite <- value_add. apply value_ext. intros i Hi. unfold nat_co. apply co_poly_add; [done|done|change N with 256; lia].
Qed.

Lemma sub_add p q : coeffs N p -> coeffs N q -> poly_add (poly_sub p q) q = p.
Proof.
  intros Hp Hq. apply (coeffs_ext N); auto with ml. intros i Hi. rewrite co_poly_add, co_poly_sub by auto with ml. ring.
Qed.

Lemma spec_sub p q b : coeffs N p -> coeffs N q -> 0 <= b < 128 -> spec (poly_sub p q) b = rsub (spec p b) (spec q b).
Proof.
  intros Hp Hq Hb. pose proof (spec_add (poly_sub p q) q b ltac:(auto with ml) Hq Hb) as E. rewrite sub_add in E by done. rewrite E.
  unfold rsub, MlRing.radd. cbn [fst snd]. rewrite (surjective_pairing (spec (poly_sub p q) b)) at 1. apply (f_equal2 pair); ring.
Qed.

Lemma spec_mul p q b : coeffs N p -> coeffs N q -> 0 <= b < 128 -> spec (negacyclic_product p q) b = rmul (gam 1 b) (spec p b) (spec q b).
Proof.
  intros Hp Hq Hb. rewrite !spec_value by (try apply negacyclic_product_coeffs; done). rewrite <- (value_mul (gam 1 b) 128) by apply (poly_mul_roots b Hb).
  apply value_ext. intros i Hi. by apply co_negacyclic_product.
Qed.

Lemma spec_intt q b : coeffs N q -> 0 <= b < 128 -> spec (intt_of q) b = hat q b.
Proof.
  intros Hq Hb. destruct (intt_of_spec q Hq) as (_ & Hi & Ei). destruct (ntt_of_spec (intt_of q) Hi) as (_ & Hn & En). unfold spec, hat, pair_at.
  rewrite !En by (change N with 256; lia). rewrite !(ntt_fn_ext _ _ Ei) by (change N with 256; lia). by rewrite !ntt_intt_fn by (change N with 256; lia).
Qed.

Lemma intt_ntt_of p : coeffs N p -> intt_of (ntt_of p) = p.
Proof.
  intros Hp. destruct (ntt_of_spec p Hp) as (_ & Hn & En). destruct (intt_of_spec (ntt_of p) Hn) as (_ & Hi & Ei). apply (coeffs_ext N); [done|done|].
  intros i Hr. rewrite Ei, (intt_fn_ext _ _ En) by done. by apply intt_ntt_fn.
Qed.

Lemma spec_inj p q : coeffs N p -> coeffs N q -> (forall b, 0 <= b < 128 -> spec p b = spec q b) -> p = q.
Proof.
  intros Hp Hq E. rewrite <- (intt_ntt_of p Hp), <- (intt_ntt_of q Hq). f_equal. apply hat_inj; [by apply ntt_of_spec|by apply ntt_of_spec|done].
Qed.

Definition zero_poly : list Z := replicate 256 0.

Lemma hat_zero b : hat zero_poly b = res0.
Proof.
  assert (E : forall p, co zero_poly p = Zmod.zero).
  { intros p. unfold co, rd, zero_poly. destruct (0 <=? p); [|done]. destruct (replicate 256 0 !! Z.to_nat p) as [v|] eqn:Ev; [|done]. by apply lookup_replicate in Ev as [-> _]. }
  unfold hat, pair_at. by rewrite !E.
Qed.

Lemma radd_idem (z : res) : z = MlRing.radd z z -> z = res0.
Proof.
  destruct z as [x y]. intros [= Ex Ey]. assert (H : forall x : fq, x = (x + x)%Zmod -> x = Zmod.zero).
  { intros v Ev. transitivity ((v + v) - v)%Zmod; [ring|]. rewrite <- Ev. ring. }
  unfold rconst. apply (f_equal2 pair); by apply H.
Qed.

Lemma spec_zero b : 0 <= b < 128 -> spec zero_poly b = res0.
Proof.
  intros Hb. pose proof (spec_add zero_poly zero_poly b zeros_coeffs zeros_coeffs Hb) as E. change (poly_add zero_poly zero_poly) with zero_poly in E.
  by apply radd_idem.
Qed.

(** ** Sums of products *)

(** The inner product of two vectors, by schoolbook multiplication *)
Definition dot (ps qs : list (list Z)) : list Z :=
  fold_left (fun c i => poly_add c (negacyclic_product (nth i ps []) (nth i qs []))) (seq 0 (length ps)) zero_poly.

Lemma nth_coeffs k ps i : vec k ps -> (i < Z.to_nat k)%nat -> coeffs N (nth i ps []).
Proof. intros Hv Hi. destruct (el_lookup k ps (Z.of_nat i) Hv ltac:(lia)) as [_ H]. unfold el in H. by rewrite Nat2Z.id in H. Qed.

Lemma dot_spec k ps qs : vec k ps -> vec k qs -> coeffs N (dot ps qs) /\
  forall b, 0 <= b < 128 -> spec (dot ps qs) b = res_sum (length ps) (fun i => rmul (gam 1 b) (spec (nth i ps []) b) (spec (nth i qs []) b)).
Proof.
  intros Hp Hq. unfold dot. assert (Hl : (length ps <= Z.to_nat k)%nat) by (destruct Hp; lia). revert Hl. generalize (length ps) as n. intros n. induction n as [|n IH]; intros Hn.
  - split; [exact zeros_coeffs|]. intros b Hb. by apply spec_zero.
  - destruct IH as [IHc IH]; [lia|]. rewrite seq_S, fold_left_app. cbn [fold_left Nat.add].
    assert (H1 : coeffs N (nth n ps [])) by (apply (nth_coeffs k); [done|lia]). assert (H2 : coeffs N (nth n qs [])) by (apply (nth_coeffs k); [done|lia]).
    split; [apply poly_add_coeffs; [done|apply negacyclic_product_coeffs]|]. intros b Hb. rewrite spec_add, IH, spec_mul by (try apply negacyclic_product_coeffs; done). done.
Qed.

(** The same over transformed polynomials, by the loop of the matrix product *)
Lemma hat_dot ar ac bc A B n i j c b : 0 <= ar -> 0 <= ac -> 0 <= bc -> vec (ar * ac) A -> vec (ac * bc) B -> 0 <= i < ar -> 0 <= j < bc -> (n <= Z.to_nat ac)%nat -> coeffs N c -> 0 <= b < 128 ->
  hat (dot_upto ac bc A B (Z.of_nat n) i j c) b =
  MlRing.radd (hat c b) (res_sum n (fun m => rmul (gam 1 b) (hat (el A (i * ac + Z.of_nat m)) b) (hat (el B (Z.of_nat m * bc + j)) b))).
Proof.
  intros Har Hac Hbc HA HB Hi Hj Hn Hc Hb. induction n as [|n IH].
  - cbn [rsum]. unfold dot_upto. rewrite zrange_nil by lia. cbn [fold_left]. unfold MlRing.radd, rconst. cbn [fst snd]. rewrite (surjective_pairing (hat c b)) at 1. apply (f_equal2 pair); ring.
  - rewrite Nat2Z.inj_succ, <- Z.add_1_r, dot_S by lia. pose proof (dot_coeffs ar ac bc A B HA HB (Z.of_nat n) i j c Hi Hj ltac:(lia) Hc) as Hd.
    destruct (el_lookup _ A (i * ac + Z.of_nat n) HA) as [_ H1]; [nia|]. destruct (el_lookup _ B (Z.of_nat n * bc + j) HB) as [_ H2]; [nia|].
    rewrite hat_add by auto with ml. destruct (pmul_spec _ _ _ H1 H2 zeros_coeffs) as (_ & _ & E). rewrite E by done. rewrite IH by lia. cbn [rsum].
    unfold MlRing.radd. cbn [fst snd]. apply (f_equal2 pair); ring.
Qed.

(** * Decryption undoes encryption up to the noise

    The polynomials that [pke_keygen], [pke_encrypt] and [pke_decrypt] compute,
    and the equation between them: what decryption is left with is the message
    polynomial plus the noise.  A message bit survives a noise from -832 to
    831. *)

(** ** Products with transformed vectors *)

Definition zero_vec (n : Z) : list (list Z) := replicate (Z.to_nat n) zero_poly.

Definition product (ar k : Z) (A s : list (list Z)) : list (list Z) := mat_result ar k 1 A (map ntt_of s) (zero_vec ar).

Lemma zero_vec_vec n : 0 <= n -> vec n (zero_vec n).
Proof. intros Hn. split; [unfold zero_vec; rewrite length_replicate; lia|]. apply Forall_replicate. exact zeros_coeffs. Qed.

Lemma el_nat ps i : el ps (Z.of_nat i) = nth i ps [].
Proof. unfold el. by rewrite Nat2Z.id. Qed.

Lemma el_map k (g : list Z -> list Z) ps i : vec k ps -> 0 <= i < k -> el (map g ps) i = g (el ps i).
Proof.
  intros Hv Hi. destruct (el_lookup k ps i Hv Hi) as [E _]. unfold el at 1. rewrite nth_lookup, list_lookup_fmap, E. done.
Qed.

Lemma el_zip k (g : list Z -> list Z -> list Z) ps qs i : vec k ps -> vec k qs -> 0 <= i < k -> el (zip_with g ps qs) i = g (el ps i) (el qs i).
Proof.
  intros Hp Hq Hi. destruct (el_lookup k ps i Hp Hi) as [Ep _]. destruct (el_lookup k qs i Hq Hi) as [Eq _]. unfold el at 1. rewrite nth_lookup, lookup_zip_with, Ep, Eq. done.
Qed.

Lemma ntt_vec k ps : vec k ps -> vec k (map ntt_of ps).
Proof. intros Hv. apply vec_map; [done|]. intros p Hp. by apply ntt_of_spec. Qed.

Lemma intt_vec k ps : vec k ps -> vec k (map intt_of ps).
Proof. intros Hv. apply vec_map; [done|]. intros p Hp. by apply intt_of_spec. Qed.

Lemma add_vec k ps qs : vec k ps -> vec k qs -> vec k (zip_with poly_add ps qs).
Proof. intros Hp Hq. apply vec_zip; auto with ml. Qed.

Section Product.
Context (ar k : Z) (A s : list (list Z)).
Hypothesis Har : 0 <= ar.
Hypothesis Hk : 0 <= k.
Hypothesis HA : vec (ar * k) A.
Hypothesis Hs : vec k s.

Lemma ntt_s : vec (k * 1) (map ntt_of s).
Proof. rewrite Z.mul_1_r. by apply ntt_vec. Qed.

Lemma zero_C : vec (ar * 1) (zero_vec ar).
Proof. rewrite Z.mul_1_r. by apply zero_vec_vec. Qed.

Lemma product_vec : vec ar (product ar k A s).
Proof. pose proof (Z.mul_1_r ar) as E. rewrite <- E at 1. exact (mat_result_vec ar k 1 A (map ntt_of s) Har Hk ltac:(lia) HA ntt_s (zero_vec ar) zero_C). Qed.

Lemma product_runs : matrix_multiply ar k k 1 (concat A) (concat (map ntt_of s)) (concat (zero_vec ar)) = Some (concat (product ar k A s)).
Proof. apply (matrix_multiply_runs ar k 1 A (map ntt_of s) Har Hk ltac:(lia) HA ntt_s k (zero_vec ar) eq_refl zero_C). Qed.

(** An entry as a sum of products *)
Lemma product_hat i b : 0 <= i < ar -> 0 <= b < 128 ->
  hat (el (product ar k A s) i) b = res_sum (Z.to_nat k) (fun m => rmul (gam 1 b) (hat (el A (i * k + Z.of_nat m)) b) (spec (nth m s []) b)).
Proof.
  intros Hi Hb. pose proof (mat_result_lookup ar k 1 A (map ntt_of s) (zero_vec ar) i 0 Hi ltac:(lia)) as E. rewrite Z.mul_1_r, Z.add_0_r in E.
  assert (Ez : el (zero_vec ar) i = zero_poly).
  { unfold el, zero_vec. rewrite nth_lookup, lookup_replicate_2 by lia. done. }
  rewrite Ez in E. assert (Ee : el (product ar k A s) i = dot_upto k 1 A (map ntt_of s) k i 0 zero_poly) by (unfold el, product; by rewrite nth_lookup, E).
  rewrite Ee. rewrite <- (Z2Nat.id k) at 2 by lia. rewrite (hat_dot ar) by (done || lia || exact ntt_s || exact zeros_coeffs). rewrite hat_zero.
  set (f := fun m => _). assert (Ef : forall x : res, MlRing.radd res0 x = x) by (intros x; unfold MlRing.radd, rconst; cbn [fst snd]; rewrite (surjective_pairing x) at 3; apply (f_equal2 pair); ring).
  rewrite Ef. apply rsum_ext. intros m Hm. unfold f. rewrite Z.mul_1_r, Z.add_0_r. do 2 f_equal. rewrite (el_map k) by (done || lia). by rewrite el_nat.
Qed.
End Product.

(** ** The polynomials of the scheme *)

(** The public vector, in the transformed domain *)
Definition public_vec (k : Z) (A s e : list (list Z)) : list (list Z) := zip_with poly_add (product k k A s) (map ntt_of e).

(** The two parts of a cipher text before compression; [At] is the transposed matrix. *)
Definition cipher_u (k : Z) (At r e1 : list (list Z)) : list (list Z) := zip_with poly_add (map intt_of (product k k At r)) e1.
Definition cipher_v (k : Z) (T r : list (list Z)) (e2 m : list Z) : list Z := poly_add (poly_add (intt_of (el (product 1 k T r) 0)) e2) m.

(** What decryption computes from the decompressed parts *)
Definition plain (k : Z) (s u' : list (list Z)) (v' : list Z) : list Z := poly_sub v' (intt_of (el (product 1 k (map ntt_of s) u') 0)).

Definition noise_poly (s e r e1 du : list (list Z)) (e2 dv : list Z) : list Z :=
  poly_sub (poly_add (poly_add e2 dv) (dot e r)) (dot s (zip_with poly_add e1 du)).

Section Equation.
Context (k : Z) (A At s e r e1 du : list (list Z)) (e2 m dv : list Z).
Hypothesis Hk : 0 <= k.
Hypothesis HA : vec (k * k) A.
Hypothesis HAt : vec (k * k) At.
Hypothesis Htr : forall i j, 0 <= i < k -> 0 <= j < k -> el At (i * k + j) = el A (j * k + i).
Hypothesis Hs : vec k s.
Hypothesis He : vec k e.
Hypothesis Hr : vec k r.
Hypothesis He1 : vec k e1.
Hypothesis Hdu : vec k du.
Hypothesis He2 : coeffs N e2.
Hypothesis Hm : coeffs N m.
Hypothesis Hdv : coeffs N dv.

Let T := public_vec k A s e.
Let U := cipher_u k At r e1.
Let V := cipher_v k T r e2 m.

Lemma public_vec_vec : vec k T.
Proof. apply add_vec; [by apply product_vec|by apply ntt_vec]. Qed.

Lemma cipher_u_vec : vec k U.
Proof. apply add_vec; [|done]. apply intt_vec. by apply product_vec. Qed.

Lemma inner_coeffs P q : vec k P -> vec k q -> coeffs N (intt_of (el (product 1 k P q) 0)).
Proof.
  intros HP Hq. apply intt_of_spec. assert (Hv : vec 1 (product 1 k P q)) by (apply product_vec; [lia|done|by rewrite Z.mul_1_l|done]). by apply (el_lookup 1 _ 0 Hv).
Qed.

Lemma cipher_v_coeffs : coeffs N V.
Proof. pose proof public_vec_vec. pose proof (inner_coeffs T r public_vec_vec Hr). unfold V, cipher_v. auto with ml. Qed.

Lemma plain_coeffs u' v' : vec k u' -> coeffs N v' -> coeffs N (plain k s u' v').
Proof. intros Hu Hv. pose proof (inner_coeffs (map ntt_of s) u' (ntt_vec k s Hs) Hu). unfold plain. auto with ml. Qed.

Lemma noise_coeffs : coeffs N (noise_poly s e r e1 du e2 dv).
Proof.
  destruct (dot_spec k e r He Hr) as [H1 _]. destruct (dot_spec k s (zip_with poly_add e1 du) Hs (add_vec k _ _ He1 Hdu)) as [H2 _]. unfold noise_poly. auto with ml.
Qed.

(** Values of the parts *)
Lemma spec_inner P q b : vec k P -> vec k q -> 0 <= b < 128 ->
  spec (intt_of (el (product 1 k P q) 0)) b = res_sum (Z.to_nat k) (fun i => rmul (gam 1 b) (hat (nth i P []) b) (spec (nth i q []) b)).
Proof.
  intros HP Hq Hb. assert (HP1 : vec (1 * k) P) by (by rewrite Z.mul_1_l). assert (Hv : vec 1 (product 1 k P q)) by (apply product_vec; [lia|done|done|done]).
  rewrite spec_intt by (done || by apply (el_lookup 1 _ 0 Hv)). rewrite product_hat by (done || lia). apply rsum_ext. intros i Hi. rewrite Z.mul_0_l, Z.add_0_l. by rewrite el_nat.
Qed.

Lemma hat_public i b : (i < Z.to_nat k)%nat -> 0 <= b < 128 ->
  hat (nth i T []) b = MlRing.radd (res_sum (Z.to_nat k) (fun j => rmul (gam 1 b) (hat (el A (Z.of_nat i * k + Z.of_nat j)) b) (spec (nth j s []) b))) (spec (nth i e []) b).
Proof.
  intros Hi Hb. rewrite <- el_nat. unfold T, public_vec. pose proof (product_vec k k A s Hk Hk HA Hs) as Hp.
  rewrite (el_zip k) by (done || lia || by apply ntt_vec). rewrite (el_map k) by (done || lia). rewrite hat_add; [|apply (el_lookup k); [done|lia]|apply ntt_of_spec, (el_lookup k); [done|lia]|done].
  rewrite product_hat by (done || lia). f_equal. unfold spec. by rewrite el_nat.
Qed.

Lemma spec_u i b : (i < Z.to_nat k)%nat -> 0 <= b < 128 ->
  spec (nth i U []) b = MlRing.radd (res_sum (Z.to_nat k) (fun j => rmul (gam 1 b) (hat (el A (Z.of_nat j * k + Z.of_nat i)) b) (spec (nth j r []) b))) (spec (nth i e1 []) b).
Proof.
  intros Hi Hb. rewrite <- el_nat. unfold U, cipher_u. pose proof (product_vec k k At r Hk Hk HAt Hr) as Hp. pose proof (intt_vec k _ Hp) as Hip.
  destruct (el_lookup k _ (Z.of_nat i) Hp ltac:(lia)) as [_ Hc]. destruct (el_lookup k _ (Z.of_nat i) He1 ltac:(lia)) as [_ Hc1].
  rewrite (el_zip k) by (done || lia). rewrite (el_map k) by (done || lia). rewrite spec_add by (done || by apply intt_of_spec). rewrite spec_intt by done. rewrite product_hat by (done || lia).
  rewrite el_nat. f_equal. apply rsum_ext. intros j Hj. by rewrite Htr by lia.
Qed.

(** The equation of the scheme *)
Lemma plain_is_message : plain k s (zip_with poly_add U du) (poly_add V dv) = poly_add m (noise_poly s e r e1 du e2 dv).
Proof.
  pose proof public_vec_vec as HT. pose proof cipher_u_vec as HU. pose proof cipher_v_coeffs as HV. pose proof noise_coeffs as Hn. pose proof (add_vec k _ _ HU Hdu) as HUd. pose proof (add_vec k _ _ He1 Hdu) as Hed.
  pose proof (inner_coeffs T r HT Hr) as Hi1. pose proof (inner_coeffs (map ntt_of s) _ (ntt_vec k s Hs) HUd) as Hi2.
  destruct (dot_spec k e r He Hr) as [Hd1 Ed1]. destruct (dot_spec k s (zip_with poly_add e1 du) Hs Hed) as [Hd2 Ed2].
  apply spec_inj; [apply plain_coeffs; auto with ml|auto with ml|]. intros b Hb. unfold plain, noise_poly, V, cipher_v.
  rewrite spec_sub by auto with ml. rewrite !spec_add by auto with ml. rewrite spec_sub by auto with ml. rewrite !spec_add by auto with ml. rewrite Ed1, Ed2 by done. rewrite !spec_inner by (done || by apply ntt_vec).
  replace (length e) with (Z.to_nat k) by (destruct He; lia). replace (length s) with (Z.to_nat k) by (destruct Hs; lia).
  pose proof (scheme_identity _ _ _ _ _ _ (res_theory (gam 1 b)) (Z.to_nat k) (fun i j => hat (el A (Z.of_nat i * k + Z.of_nat j)) b)
    (fun i => spec (nth i s []) b) (fun i => spec (nth i e []) b) (fun i => spec (nth i r []) b) (fun i => spec (nth i e1 []) b) (fun i => spec (nth i du []) b) (spec e2 b) (spec m b) (spec dv b)) as E.
  cbv beta in E. etransitivity; [|etransitivity; [exact E|]]; clear E.
  - apply (f_equal2 rsub).
    + do 3 (apply (f_equal2 MlRing.radd); [|done]). apply rsum_ext. intros i Hi. by rewrite hat_public.
    + apply rsum_ext. intros i Hi. rewrite <- !el_nat. rewrite (el_map k) by (done || lia). rewrite (el_zip k) by (done || lia). rewrite !el_nat.
      rewrite spec_add by (done || by apply (nth_coeffs k)). by rewrite spec_u.
  - apply (f_equal2 MlRing.radd); [done|]. apply (f_equal2 rsub); [done|]. apply rsum_ext. intros i Hi. apply (f_equal2 (rmul (gam 1 b))); [done|].
    rewrite <- !el_nat. rewrite (el_zip k) by (done || lia). rewrite !el_nat. symmetry. apply spec_add; (done || by apply (nth_coeffs k)).
Qed.
End Equation.

(** ** What a message bit survives *)

(** [x] is [c] modulo [Q] for some [c] from -832 to 831. *)
Definition quiet (x : Z) : bool := (x <=? 831) || (Q - 832 <=? x).

Lemma bit_survives b n : b = 0 \/ b = 1 -> canonical n -> quiet n = true -> compress 1 (zadd (decompress 1 b) n) = b.
Proof.
  intros Hb Hn Hq. unfold canonical in Hn. unfold quiet in Hq. apply orb_prop in Hq. rewrite !Z.leb_le in Hq. rewrite Q_value in *.
  assert (Hd : decompress 1 b = if b =? 1 then 1665 else 0) by (destruct Hb as [-> | ->]; by vm_compute). rewrite Hd.
  rewrite zadd_mod by (rewrite Q_value; destruct (b =? 1); lia). rewrite compress_spec by (lia || apply mod_canonical). unfold round_div. rewrite Q_value. change (2 ^ 1) with 2.
  destruct Hb as [-> | ->]; cbn [Z.eqb Pos.eqb]; Z.to_euclidean_division_equations; lia.
Qed.

Lemma message_survives bits n : length bits = 256%nat -> below 1 bits -> coeffs N n -> forallb quiet n = true ->
  map (compress 1) (poly_add (map (decompress 1) bits) n) = bits.
Proof.
  intros Hl Hb [Hln Hc] Hq. assert (Hlen : length n = length bits) by (change N with 256 in Hln; lia). clear Hl Hln. revert n Hlen Hc Hq.
  induction Hb as [|b bits Hb Hbs IH]; intros [|x n] Hlen Hc Hq; try discriminate; [done|]. inversion_clear Hc as [|? ? Hx Hc']. cbn [forallb] in Hq. apply andb_prop in Hq as [Hq1 Hq2].
  unfold poly_add. cbn [map zip_with]. f_equal; [apply bit_survives; [change (2 ^ Z.of_nat 1) with 2 in Hb; lia|done|done]|]. apply IH; [by injection Hlen|done|done].
Qed.
