(* ===== verification/Keccak.v ===== *)
(** * The Keccak permutation: tools/ml_kem_512_single.hpp, namespace keccak

    The state is the list of its 25 lanes.  [roundx4] works in place: round
    [r] of four finds lane [i] where the rounds before left it, with the
    literal positions of the source.  It is proved to be four rounds of the
    step mappings of FIPS 202. *)

From Stdlib Require Import Lia.
From stdpp Require Import base tactics list numbers option.
From S2P Require Import Prelude QrArray MlField.
Local Open Scope Z_scope.

Definition L : Z := 6.
Definition LANE_BW : Z := Z.shiftl 1 L.
Definition STATE_BIT_LEN : Z := 1600.
Definition STATE_BYTE_LEN : Z := STATE_BIT_LEN / 8.
Definition LANE_CNT : Z := STATE_BIT_LEN / LANE_BW.
Definition MAX_NUM_ROUNDS : Z := 12 + 2 * L.

Definition ROT : list Z :=
  [0 mod LANE_BW; 1 mod LANE_BW; 190 mod LANE_BW; 28 mod LANE_BW; 91 mod LANE_BW; 36 mod LANE_BW; 300 mod LANE_BW;
   6 mod LANE_BW; 55 mod LANE_BW; 276 mod LANE_BW; 3 mod LANE_BW; 10 mod LANE_BW; 171 mod LANE_BW; 153 mod LANE_BW;
   231 mod LANE_BW; 105 mod LANE_BW; 45 mod LANE_BW; 15 mod LANE_BW; 21 mod LANE_BW; 136 mod LANE_BW; 210 mod LANE_BW;
   66 mod LANE_BW; 253 mod LANE_BW; 120 mod LANE_BW; 78 mod LANE_BW].

Definition PERM : list Z := [0; 6; 12; 18; 24; 3; 9; 10; 16; 22; 1; 7; 13; 19; 20; 4; 5; 11; 17; 23; 2; 8; 14; 15; 21].

(** ** Round constants *)

Definition rc_step (r : Z) : Z :=
  let b0 := Z.land r 1 in
  let feed (r mask i : Z) := u16 (Z.lxor (Z.land r mask) (Z.shiftl (Z.lxor (Z.land (Z.shiftr r i) 1) b0) i)) in
  let r := feed r 255 8 in
  let r := feed r 495 4 in
  let r := feed r 503 3 in
  let r := feed r 507 2 in
  Z.shiftr r 1.

Definition rc (t : Z) : bool :=
  if t mod 255 =? 0 then true
  else
    let r := fold_left (fun r _ => rc_step r) (zrange 1 (t mod 255 + 1)) 128 in
    negb (Z.land (Z.shiftr r 7) 1 =? 0).

Definition compute_rc (r_idx : Z) : Z :=
  fold_left (fun tmp j =>
    let boff := Z.shiftl 1 j - 1 in
    Z.lor tmp (u64 (Z.shiftl (b2z (rc (j + 7 * r_idx))) boff))) (zrange 0 (L + 1)) 0.

Definition compute_rcs : list Z := map compute_rc (zrange 0 MAX_NUM_ROUNDS).

Definition RC : list Z := compute_rcs.

(** ** Rounds *)

(** [std::rotl] on a [uint64_t]; a rotation by nothing is the value itself. *)
Definition rotl (x s : Z) : Z := if s =? 0 then x else Z.lor (u64 (Z.shiftl x s)) (Z.shiftr x (64 - s)).

Definition not64 (x : Z) : Z := u64 (Z.lnot x).

(** The parities of the five columns, by the loop over the planes *)
Definition column_step (state : list Z) (i : Z) (bc : list Z) : option (list Z) :=
  s0 ← rd state (i + 0); b0 ← rd bc 0; bc ← wr bc 0 (Z.lxor b0 s0);
  s1 ← rd state (i + 1); b1 ← rd bc 1; bc ← wr bc 1 (Z.lxor b1 s1);
  s2 ← rd state (i + 2); b2 ← rd bc 2; bc ← wr bc 2 (Z.lxor b2 s2);
  s3 ← rd state (i + 3); b3 ← rd bc 3; bc ← wr bc 3 (Z.lxor b3 s3);
  s4 ← rd state (i + 4); b4 ← rd bc 4; wr bc 4 (Z.lxor b4 s4).

Definition columns (state : list Z) : option (list Z) := foldm (column_step state) [0; 5; 10; 15; 20] (replicate 5 0).

Definition theta_d (bc : list Z) : option (list Z) :=
  match bc with
  | [b0; b1; b2; b3; b4] => Some [Z.lxor b4 (rotl b1 1); Z.lxor b0 (rotl b2 1); Z.lxor b1 (rotl b3 1); Z.lxor b2 (rotl b4 1); Z.lxor b3 (rotl b0 1)]
  | _ => None
  end.

(** One of the five blocks of statements of a round.  It reads the lanes at [src], turns the one
    with difference [d[x]] by the offset [ROT[rot x]] into [bc[(x + slot) mod 5]], and writes the
    results back to [src]; [iota] goes into the first of them. *)
Definition plane (src rot : list Z) (slot : nat) (iota : option Z) (d state : list Z) : option (list Z) :=
  ts ← mapM (fun '(x, i, r) => v ← rd state i; dx ← rd d x; o ← rd ROT r; Some (rotl (Z.lxor v dx) o)) (zip (zip [0; 1; 2; 3; 4] src) rot);
  let bc := drop (5 - slot) ts ++ take (5 - slot) ts in
  match bc, src with
  | [b0; b1; b2; b3; b4], [i0; i1; i2; i3; i4] =>
    let chi0 := Z.lxor b0 (Z.land b2 (not64 b1)) in
    state ← wr state i0 (match iota with Some rc => Z.lxor chi0 rc | None => chi0 end);
    state ← wr state i1 (Z.lxor b1 (Z.land b3 (not64 b2)));
    state ← wr state i2 (Z.lxor b2 (Z.land b4 (not64 b3)));
    state ← wr state i3 (Z.lxor b3 (Z.land b0 (not64 b4)));
    wr state i4 (Z.lxor b4 (Z.land b1 (not64 b0)))
  | _, _ => None
  end.

Definition rot1 : list Z := [0; 6; 12; 18; 24].
Definition rot2 : list Z := [10; 16; 22; 3; 9].
Definition rot3 : list Z := [20; 1; 7; 13; 19].
Definition rot4 : list Z := [5; 11; 17; 23; 4].
Definition rot5 : list Z := [15; 21; 2; 8; 14].

Definition round_0 (rc : Z) (state : list Z) : option (list Z) :=
  bc ← columns state; d ← theta_d bc;
  state ← plane [0; 6; 12; 18; 24] rot1 0 (Some rc) d state;
  state ← plane [10; 16; 22; 3; 9] rot2 2 None d state;
  state ← plane [20; 1; 7; 13; 19] rot3 4 None d state;
  state ← plane [5; 11; 17; 23; 4] rot4 1 None d state;
  plane [15; 21; 2; 8; 14] rot5 3 None d state.

Definition round_1 (rc : Z) (state : list Z) : option (list Z) :=
  bc ← columns state; d ← theta_d bc;
  state ← plane [0; 16; 7; 23; 14] rot1 0 (Some rc) d state;
  state ← plane [20; 11; 2; 18; 9] rot2 2 None d state;
  state ← plane [15; 6; 22; 13; 4] rot3 4 None d state;
  state ← plane [10; 1; 17; 8; 24] rot4 1 None d state;
  plane [5; 21; 12; 3; 19] rot5 3 None d state.

Definition round_2 (rc : Z) (state : list Z) : option (list Z) :=
  bc ← columns state; d ← theta_d bc;
  state ← plane [0; 11; 22; 8; 19] rot1 0 (Some rc) d state;
  state ← plane [15; 1; 12; 23; 9] rot2 2 None d state;
  state ← plane [5; 16; 2; 13; 24] rot3 4 None d state;
  state ← plane [20; 6; 17; 3; 14] rot4 1 None d state;
  plane [10; 21; 7; 18; 4] rot5 3 None d state.

Definition round_3 (rc : Z) (state : list Z) : option (list Z) :=
  bc ← columns state; d ← theta_d bc;
  state ← plane [0; 1; 2; 3; 4] rot1 0 (Some rc) d state;
  state ← plane [5; 6; 7; 8; 9] rot2 2 None d state;
  state ← plane [10; 11; 12; 13; 14] rot3 4 None d state;
  state ← plane [15; 16; 17; 18; 19] rot4 1 None d state;
  plane [20; 21; 22; 23; 24] rot5 3 None d state.

Definition roundx4 (ridx : Z) (state : list Z) : option (list Z) :=
  rc0 ← rd RC ridx; state ← round_0 rc0 state;
  rc1 ← rd RC (ridx + 1); state ← round_1 rc1 state;
  rc2 ← rd RC (ridx + 2); state ← round_2 rc2 state;
  rc3 ← rd RC (ridx + 3); round_3 rc3 state.

Definition permute (num_rounds : Z) (state : list Z) : option (list Z) :=
  let start_at_round := MAX_NUM_ROUNDS - num_rounds in
  let STEP_BY := 4 in
  foldm roundx4 (zsteps start_at_round MAX_NUM_ROUNDS STEP_BY) state.

(** The round constants of FIPS 202 *)
Example RC_values : take 6 RC = [0x1; 0x8082; 0x800000000000808A; 0x8000000080008000; 0x808B; 0x80000001].
Proof. by vm_compute. Qed.

(** ** The step mappings of FIPS 202 *)

Definition lane (A : list Z) (i : nat) : Z := nth i A 0.

(** Over any operations on lanes *)
Section Mappings.
Context (xor and rot : Z -> Z -> Z) (inverse : Z -> Z).

Definition theta (A : list Z) : list Z :=
  let C x := fold_left xor [lane A x; lane A (x + 5); lane A (x + 10); lane A (x + 15); lane A (x + 20)]%nat 0 in
  let D x := xor (C ((x + 4) mod 5)%nat) (rot (C ((x + 1) mod 5)%nat) 1) in
  map (fun i => xor (lane A i) (D (i mod 5)%nat)) (seq 0 25).

Definition rho (A : list Z) : list Z := map (fun i => rot (lane A i) (nth i ROT 0)) (seq 0 25).

(** Lane [(x, y)] has the number [5 * y + x]. *)
Definition pi (A : list Z) : list Z :=
  map (fun i => let x := (i mod 5)%nat in let y := (i / 5)%nat in lane A (5 * x + (x + 3 * y) mod 5)%nat) (seq 0 25).

Definition chi (A : list Z) : list Z :=
  map (fun i => let x := (i mod 5)%nat in let y := (i / 5)%nat in
    xor (lane A i) (and (lane A (5 * y + (x + 2) mod 5)%nat) (inverse (lane A (5 * y + (x + 1) mod 5)%nat)))) (seq 0 25).

Definition iota (rc : Z) (A : list Z) : list Z := match A with [] => [] | a :: A => xor a rc :: A end.

Definition mapped_round (rc : Z) (A : list Z) : list Z := iota rc (chi (pi (rho (theta A)))).
End Mappings.

Definition ref_round : Z -> list Z -> list Z := mapped_round Z.lxor Z.land rotl not64.

(** The table of the source is this permutation. *)
Example PERM_is_pi : pi (map Z.of_nat (seq 0 25)) = PERM.
Proof. by vm_compute. Qed.

Lemma ref_round_length rc A : length (ref_round rc A) = 25%nat.
Proof. done. Qed.

(** ** Four rounds in place *)

(** Lane [i] at position [P i] *)
Definition placed (P : list nat) (A : list Z) : list Z :=
  map (fun j => lane A (default 0%nat (fst <$> list_find (eq j) P))) (seq 0 25).

Definition place_1 : list nat := [0; 6; 12; 18; 24; 10; 16; 22; 3; 9; 20; 1; 7; 13; 19; 5; 11; 17; 23; 4; 15; 21; 2; 8; 14]%nat.
Definition place_2 : list nat := [0; 16; 7; 23; 14; 20; 11; 2; 18; 9; 15; 6; 22; 13; 4; 10; 1; 17; 8; 24; 5; 21; 12; 3; 19]%nat.
Definition place_3 : list nat := [0; 11; 22; 8; 19; 15; 1; 12; 23; 9; 5; 16; 2; 13; 24; 20; 6; 17; 3; 14; 10; 21; 7; 18; 4]%nat.

Ltac lanes A :=
  match goal with
  | H : length A = 0%nat |- _ => destruct A; [clear H|discriminate H]
  | H : length A = _ |- _ => let a := fresh "a" in destruct A as [|a A]; [discriminate H|injection H as H; lanes A]
  end.

Ltac lane_by_lane := apply (f_equal Some); repeat apply (f_equal2 (@cons Z)).

(** The parities do not depend on the order in a column. *)
Definition parities (A : list Z) : list Z :=
  map (fun x => fold_left Z.lxor [lane A x; lane A (x + 5); lane A (x + 10); lane A (x + 15); lane A (x + 20)]%nat 0) (seq 0 5).

Ltac same_parities A :=
  intros H; lanes A; cbv - [Z.lxor]; lane_by_lane; try reflexivity; apply Z.bits_inj'; intros n Hn; rewrite !Z.lxor_spec;
  repeat match goal with |- context [Z.testbit ?a n] => destruct (Z.testbit a n) end; reflexivity.

Lemma columns_0 A : length A = 25%nat -> columns A = Some (parities A).
Proof. same_parities A. Qed.

Lemma columns_1 A : length A = 25%nat -> columns (placed place_1 A) = Some (parities A).
Proof. same_parities A. Qed.

Lemma columns_2 A : length A = 25%nat -> columns (placed place_2 A) = Some (parities A).
Proof. same_parities A. Qed.

Lemma columns_3 A : length A = 25%nat -> columns (placed place_3 A) = Some (parities A).
Proof. same_parities A. Qed.

(** Both sides as terms over arbitrary operations on lanes *)
Ltac same_lanes A :=
  unfold ref_round, parities, theta_d, plane; generalize Z.lxor, Z.land, rotl, not64; intros lxor land rot inverse; lanes A; vm_compute; reflexivity.

Lemma round_0_spec rc A : length A = 25%nat -> round_0 rc A = Some (placed place_1 (ref_round rc A)).
Proof. intros H. unfold round_0. rewrite (columns_0 A H). same_lanes A. Qed.

Lemma round_1_spec rc A : length A = 25%nat -> round_1 rc (placed place_1 A) = Some (placed place_2 (ref_round rc A)).
Proof. intros H. unfold round_1. rewrite (columns_1 A H). same_lanes A. Qed.

Lemma round_2_spec rc A : length A = 25%nat -> round_2 rc (placed place_2 A) = Some (placed place_3 (ref_round rc A)).
Proof. intros H. unfold round_2. rewrite (columns_2 A H). same_lanes A. Qed.

Lemma round_3_spec rc A : length A = 25%nat -> round_3 rc (placed place_3 A) = Some (ref_round rc A).
Proof. intros H. unfold round_3. rewrite (columns_3 A H). same_lanes A. Qed.

#[local] Opaque ref_round round_0 round_1 round_2 round_3 RC placed.

(** ** The permutation *)

Definition keccak_p (rcs : list Z) (A : list Z) : list Z := fold_left (fun A rc => ref_round rc A) rcs A.

Lemma roundx4_spec i r0 r1 r2 r3 A : length A = 25%nat ->
  rd RC i = Some r0 -> rd RC (i + 1) = Some r1 -> rd RC (i + 2) = Some r2 -> rd RC (i + 3) = Some r3 ->
  roundx4 i A = Some (keccak_p [r0; r1; r2; r3] A).
Proof.
  intros H E0 E1 E2 E3. unfold roundx4.
  apply (bind_eq _ r0 _ _ E0), (bind_eq _ _ _ _ (round_0_spec r0 A H)).
  apply (bind_eq _ r1 _ _ E1), (bind_eq _ _ _ _ (round_1_spec r1 _ (ref_round_length r0 A))).
  apply (bind_eq _ r2 _ _ E2), (bind_eq _ _ _ _ (round_2_spec r2 _ (ref_round_length r1 _))).
  apply (bind_eq _ r3 _ _ E3). exact (round_3_spec r3 _ (ref_round_length r2 _)).
Qed.

Lemma keccak_p_length rcs A : length A = 25%nat -> length (keccak_p rcs A) = 25%nat.
Proof. intros H. unfold keccak_p. revert A H. induction rcs as [|r rcs IH]; intros A H; [done|]. apply IH, ref_round_length. Qed.

Lemma take_4 (l : list Z) i a b c d : l !! i = Some a -> l !! (i + 1)%nat = Some b -> l !! (i + 2)%nat = Some c -> l !! (i + 3)%nat = Some d ->
  take 4 (drop i l) = [a; b; c; d].
Proof.
  intros Ha Hb Hc Hd. rewrite Nat.add_comm in Hb, Hc, Hd. cbn [Nat.add] in Hb, Hc, Hd.
  by rewrite (drop_S _ _ _ Ha), (drop_S _ _ _ Hb), (drop_S _ _ _ Hc), (drop_S _ _ _ Hd).
Qed.

Lemma RC_length : length RC = 24%nat.
Proof. by vm_compute. Qed.

Lemma roundx4_group i A : (i + 3 < 24)%nat -> length A = 25%nat -> roundx4 (Z.of_nat i) A = Some (keccak_p (take 4 (drop i RC)) A).
Proof.
  intros Hi HA. assert (H : forall k, (k < 24)%nat -> exists r, RC !! k = Some r) by (intros k Hk; apply lookup_lt_is_Some_2; by rewrite RC_length).
  destruct (H i) as [a Ha]; [lia|]. destruct (H (i + 1)%nat) as [b Hb]; [lia|]. destruct (H (i + 2)%nat) as [c Hc]; [lia|]. destruct (H (i + 3)%nat) as [d Hd]; [lia|].
  rewrite (take_4 _ _ _ _ _ _ Ha Hb Hc Hd). apply roundx4_spec; [done|..].
  - by rewrite rd_nat.
  - replace (Z.of_nat i + 1) with (Z.of_nat (i + 1)) by lia. by rewrite rd_nat.
  - replace (Z.of_nat i + 2) with (Z.of_nat (i + 2)) by lia. by rewrite rd_nat.
  - replace (Z.of_nat i + 3) with (Z.of_nat (i + 3)) by lia. by rewrite rd_nat.
Qed.

Lemma keccak_p_app r s A : keccak_p (r ++ s) A = keccak_p s (keccak_p r A).
Proof. apply fold_left_app. Qed.

(** Four rounds at a time *)
Lemma roundx4_loop k i A : (i + 4 * k = 24)%nat -> length A = 25%nat ->
  foldm roundx4 (map (fun j => Z.of_nat i + 4 * Z.of_nat j) (seq 0 k)) A = Some (keccak_p (drop i RC) A).
Proof.
  revert i A. induction k as [|k IH]; intros i A Hi HA.
  - rewrite drop_ge by (rewrite RC_length; lia). done.
  - cbn [seq map foldm]. rewrite Z.add_0_r. apply (bind_eq _ _ _ _ (roundx4_group i A ltac:(lia) HA)).
    rewrite <- (take_drop 4 (drop i RC)), keccak_p_app, drop_drop. rewrite <- (IH (i + 4)%nat); [|lia|by apply keccak_p_length].
    f_equal; [|by rewrite take_app_length' by (rewrite length_take, length_drop, RC_length; lia)]. rewrite <- seq_shift, map_map. apply map_ext. lia.
Qed.

(** Both numbers of rounds of the code: the last twelve, or all *)
Lemma permute_spec n A : n = 12 \/ n = 24 -> length A = 25%nat -> permute n A = Some (keccak_p (drop (Z.to_nat (24 - n)) RC) A).
Proof.
  intros [->| ->] HA; [exact (roundx4_loop 3 12 A eq_refl HA)|exact (roundx4_loop 6 0 A eq_refl HA)].
Qed.
