(* ===== verification/SpongeSpec.v ===== *)
(** * The sponge byte by byte, and block by block *)

From Stdlib Require Import Lia.
From stdpp Require Import base tactics list numbers option.
From S2P Require Import Prelude QrArray MlField MlBits Keccak Sponge.
Local Open Scope Z_scope.

(** * The sponge byte by byte

    The reference that the word-wise [absorb] and [squeeze] of Sponge.v are
    proved against, for any rate that is a multiple of eight bytes and both
    numbers of rounds. *)

(** ** The reference *)

(** Byte [k] of the state is byte [k mod 8] of lane [k / 8], little-endian. *)
Definition xor_byte (A : list Z) (k b : Z) : list Z := alter (fun w => Z.lxor w (Z.shiftl b (8 * (k mod 8)))) (Z.to_nat (k / 8)) A.

Definition state_byte (A : list Z) (k : Z) : Z := u8 (Z.shiftr (nth (Z.to_nat (k / 8)) A 0) (8 * (k mod 8))).

Section Reference.
Context (rate : Z) (P : list Z -> list Z).

Definition absorb_byte (st : list Z * Z) (b : Z) : list Z * Z :=
  let A := xor_byte st.1 st.2 b in
  if st.2 + 1 =? rate then (P A, 0) else (A, st.2 + 1).

Definition absorb_bytes (st : list Z * Z) (msg : list Z) : list Z * Z := fold_left absorb_byte msg st.

(** The next byte and the state after it; the second component counts what is left of the block. *)
Definition squeeze_byte (st : list Z * Z) : Z * (list Z * Z) :=
  (state_byte st.1 (rate - st.2), if st.2 - 1 =? 0 then (P st.1, rate) else (st.1, st.2 - 1)).

Fixpoint squeeze_bytes (n : nat) (st : list Z * Z) : list Z * (list Z * Z) :=
  match n with
  | O => ([], st)
  | S n => let '(b, st) := squeeze_byte st in let '(bs, st) := squeeze_bytes n st in (b :: bs, st)
  end.

(** Two calls are one call. *)
Lemma absorb_bytes_app st m1 m2 : absorb_bytes st (m1 ++ m2) = absorb_bytes (absorb_bytes st m1) m2.
Proof. apply fold_left_app. Qed.

Lemma squeeze_bytes_app n m st : squeeze_bytes (n + m) st =
  ((squeeze_bytes n st).1 ++ (squeeze_bytes m (squeeze_bytes n st).2).1, (squeeze_bytes m (squeeze_bytes n st).2).2).
Proof.
  revert st. induction n as [|n IH]; intros st; [cbn; by destruct (squeeze_bytes m st)|]. cbn [Nat.add squeeze_bytes]. destruct (squeeze_byte st) as [b st1].
  rewrite IH. by destruct (squeeze_bytes n st1) as [bs st2].
Qed.

Lemma squeeze_bytes_length n st : length (squeeze_bytes n st).1 = n.
Proof.
  revert st. induction n as [|n IH]; intros st; [done|]. cbn [squeeze_bytes]. destruct (squeeze_byte st) as [b st1]. specialize (IH st1).
  destruct (squeeze_bytes n st1). cbn in *. by rewrite IH.
Qed.

Lemma squeeze_bytes_ok n st : bytes_ok (squeeze_bytes n st).1.
Proof.
  revert st. induction n as [|n IH]; intros st; [constructor|]. cbn [squeeze_bytes]. destruct (squeeze_byte st) as [b st1] eqn:E. specialize (IH st1).
  destruct (squeeze_bytes n st1). constructor; [|done]. unfold squeeze_byte in E. injection E as <- _. by apply Z.mod_pos_bound.
Qed.
End Reference.

(** ** Runs of bytes *)

Fixpoint xor_range (A : list Z) (k : Z) (bs : list Z) : list Z :=
  match bs with [] => A | b :: bs => xor_range (xor_byte A k b) (k + 1) bs end.

Lemma xor_byte_length A k b : length (xor_byte A k b) = length A.
Proof. apply length_alter. Qed.

Lemma xor_range_length A k bs : length (xor_range A k bs) = length A.
Proof. revert A k. induction bs as [|b bs IH]; intros A k; [done|]. cbn. by rewrite IH, xor_byte_length. Qed.

Lemma xor_range_app A k b1 b2 : xor_range A k (b1 ++ b2) = xor_range (xor_range A k b1) (k + Z.of_nat (length b1)) b2.
Proof.
  revert A k. induction b1 as [|b b1 IH]; intros A k; [cbn; by rewrite Z.add_0_r|]. cbn [app xor_range length]. rewrite IH. f_equal. lia.
Qed.

Lemma xor_byte_0 A k : xor_byte A k 0 = A.
Proof. unfold xor_byte. apply list_alter_id. intros x. rewrite Z.shiftl_0_l. apply Z.lxor_0_r. Qed.

Lemma xor_range_zeros A k n : xor_range A k (replicate n 0) = A.
Proof. revert k. induction n as [|n IH]; intros k; [done|]. cbn. by rewrite xor_byte_0, IH. Qed.

(** Absorbing into one block *)
Lemma absorb_bytes_block rate P A off bs : 0 <= off -> bs <> [] -> off + Z.of_nat (length bs) <= rate ->
  absorb_bytes rate P (A, off) bs =
  if off + Z.of_nat (length bs) =? rate then (P (xor_range A off bs), 0) else (xor_range A off bs, off + Z.of_nat (length bs)).
Proof.
  intros Hoff Hne. revert A off Hoff Hne. induction bs as [|b bs IH]; intros A off Hoff Hne Hle; [done|]. unfold absorb_bytes. cbn [fold_left length xor_range] in *.
  unfold absorb_byte at 2. cbn [fst snd]. destruct (decide (bs = [])) as [->|Hbs].
  - cbn [length fold_left xor_range]. by replace (off + Z.of_nat 1) with (off + 1) by lia.
  - assert (0 < length bs)%nat by (destruct bs; [done|cbn; lia]). replace (off + 1 =? rate) with false by lia.
    change (fold_left (absorb_byte rate P) bs) with (fun st => absorb_bytes rate P st bs). cbv beta.
    rewrite IH by (done || lia). by replace (off + 1 + Z.of_nat (length bs)) with (off + Z.of_nat (S (length bs))) by lia.
Qed.

(** ** Word boundaries *)

Lemma land_minus_8 n : Z.land n (- 8) = 8 * (n / 8).
Proof.
  change (- 8) with (Z.lnot (Z.ones 3)). rewrite <- Z.ldiff_land, Z.ldiff_ones_r, Z.shiftl_mul_pow2, Z.shiftr_div_pow2 by done.
  change (2 ^ 3) with 8. lia.
Qed.

Lemma word_floor_spec n : word_floor n = 8 * (n / 8).
Proof. apply (land_minus_8 n). Qed.

Lemma word_ceil_spec n : word_ceil n = 8 * ((n + 7) / 8).
Proof. apply (land_minus_8 (n + 7)). Qed.

(** ** One word *)

(** The word is the exclusive or of its bytes in their places. *)
Definition word_of (bs : list Z) : Z := default 0 (le_bytes_to_u64 bs).

Lemma byte_shift_range b k : is_u8 b -> 0 <= k <= 56 -> 0 <= Z.shiftl b k < 2 ^ 64.
Proof.
  intros Hb Hk. unfold is_u8 in Hb. rewrite Z.shiftl_mul_pow2 by lia. pose proof (Z.pow_le_mono_r 2 k 56 ltac:(lia) ltac:(lia)). pose proof (Z.pow_pos_nonneg 2 k ltac:(lia) ltac:(lia)). nia.
Qed.

Lemma le_word_xor b0 b1 b2 b3 b4 b5 b6 b7 : bytes_ok [b0; b1; b2; b3; b4; b5; b6; b7] ->
  word_of [b0; b1; b2; b3; b4; b5; b6; b7] =
  Z.lxor (Z.lxor (Z.lxor (Z.lxor (Z.lxor (Z.lxor (Z.lxor (Z.shiftl b0 0) (Z.shiftl b1 8)) (Z.shiftl b2 16)) (Z.shiftl b3 24)) (Z.shiftl b4 32)) (Z.shiftl b5 40)) (Z.shiftl b6 48)) (Z.shiftl b7 56).
Proof.
  intros H. unfold word_of, le_bytes_to_u64. cbn [default from_option id]. apply (le_bits_inj 64).
  - change (2 ^ Z.of_nat 64) with (2 ^ 64). repeat apply lor_range; try done; rewrite u64_mod; by apply Z.mod_pos_bound.
  - change (2 ^ Z.of_nat 64) with (2 ^ 64). repeat (inversion_clear H as [|? ? H0 H1]; rename H1 into H; revert H0). intros.
    repeat apply lxor_range; try done; apply byte_shift_range; done || lia.
  - pose proof (bytes_u8 _ H) as E. injection E as E0 E1 E2 E3 E4 E5 E6 E7. rewrite <- E0, <- E1, <- E2, <- E3, <- E4, <- E5, <- E6, <- E7. clear. cbv [le_bits seq map Z.of_nat Pos.of_succ_nat Pos.succ]. repeat apply (f_equal2 (@cons bool)); try reflexivity; one_bit.
Qed.

Lemma xor_byte_in_word A w j b : 0 <= w -> 0 <= j < 8 -> xor_byte A (8 * w + j) b = alter (fun x => Z.lxor x (Z.shiftl b (8 * j))) (Z.to_nat w) A.
Proof.
  intros Hw Hj. unfold xor_byte. replace ((8 * w + j) / 8) with w by (Z.to_euclidean_division_equations; lia).
  by replace ((8 * w + j) mod 8) with j by (Z.to_euclidean_division_equations; lia).
Qed.

Lemma list_of_8 (bs : list Z) : length bs = 8%nat -> exists b0 b1 b2 b3 b4 b5 b6 b7, bs = [b0; b1; b2; b3; b4; b5; b6; b7].
Proof. intros H. do 8 (destruct bs as [|? bs]; [discriminate|]). destruct bs; [|discriminate]. by repeat eexists. Qed.

Lemma xor_word A w bs : 0 <= w -> length bs = 8%nat -> bytes_ok bs ->
  xor_range A (8 * w) bs = alter (fun x => Z.lxor x (word_of bs)) (Z.to_nat w) A.
Proof.
  intros Hw Hl Hb. destruct (list_of_8 bs Hl) as (b0 & b1 & b2 & b3 & b4 & b5 & b6 & b7 & ->). rewrite le_word_xor by done. cbn [xor_range].
  rewrite <- (Z.add_0_r (8 * w)) at 1.
  replace (8 * w + 1 + 1 + 1 + 1 + 1 + 1 + 1) with (8 * w + 7) by lia. replace (8 * w + 1 + 1 + 1 + 1 + 1 + 1) with (8 * w + 6) by lia.
  replace (8 * w + 1 + 1 + 1 + 1 + 1) with (8 * w + 5) by lia. replace (8 * w + 1 + 1 + 1 + 1) with (8 * w + 4) by lia.
  replace (8 * w + 1 + 1 + 1) with (8 * w + 3) by lia. replace (8 * w + 1 + 1) with (8 * w + 2) by lia.
  rewrite !xor_byte_in_word by lia. rewrite !list_alter_alter_eq. apply list_alter_ext; [|done]. intros x _. unfold compose. cbn [Z.mul Pos.mul]. by rewrite !Z.lxor_assoc.
Qed.

Lemma le_bytes_total bs : length bs = 8%nat -> le_bytes_to_u64 bs = Some (word_of bs).
Proof. intros Hl. by destruct (list_of_8 bs Hl) as (b0 & b1 & b2 & b3 & b4 & b5 & b6 & b7 & ->). Qed.

Lemma insert_is_alter (f : Z -> Z) (A : list Z) i x : A !! i = Some x -> <[i := f x]> A = alter f i A.
Proof. intros Hx. symmetry. apply list_eq. intros j. destruct (decide (i = j)) as [<-|Hne].
  - rewrite list_lookup_alter_eq, Hx, list_lookup_insert_eq; [done|]. by apply lookup_lt_Some in Hx.
  - by rewrite list_lookup_alter_ne, list_lookup_insert_ne.
Qed.

Lemma absorb_word_runs pre chunk suf A w : 0 <= w < Z.of_nat (length A) -> Z.of_nat (length pre) = 8 * w -> length chunk = 8%nat -> bytes_ok chunk ->
  absorb_word (pre ++ chunk ++ suf) (8 * w) (A, w) = Some (xor_range A (8 * w) chunk, w + 1).
Proof.
  intros Hw Hp Hc Hb. unfold absorb_word. change KECCAK_WORD_BYTE_LEN with 8. rewrite subspan_mid by (rewrite ?Hc; lia). cbn [mbind option_bind].
  rewrite le_bytes_total by done. cbn [mbind option_bind]. destruct (rd_some A w Hw) as [s Hs]. rewrite Hs. cbn [mbind option_bind].
  rewrite wr_some by lia. cbn [mbind option_bind]. do 2 f_equal. apply rd_lookup in Hs as [_ Hs]. rewrite xor_word by (done || lia). by apply (insert_is_alter (fun x => Z.lxor x (word_of chunk))).
Qed.

(** The word loop over [c] words of the block *)
Lemma absorb_words_run c : forall pre seg suf A w, 0 <= w -> w + Z.of_nat c <= Z.of_nat (length A) -> Z.of_nat (length pre) = 8 * w -> length seg = (8 * c)%nat -> bytes_ok seg ->
  foldm (absorb_word (pre ++ seg ++ suf)) (map (fun j => 8 * w + 8 * Z.of_nat j) (seq 0 c)) (A, w) = Some (xor_range A (8 * w) seg, w + Z.of_nat c).
Proof.
  induction c as [|c IH]; intros pre seg suf A w Hw Hend Hp Hs Hb.
  - destruct seg; [|cbn in Hs; lia]. cbn. by rewrite Z.add_0_r.
  - destruct (split_at 8 seg) as (chunk & seg' & -> & Hc); [lia|]. rewrite length_app in Hs. apply Forall_app in Hb as [Hbc Hbs].
    cbn [seq map foldm]. rewrite Z.add_0_r. rewrite <- !app_assoc. rewrite (absorb_word_runs pre chunk (seg' ++ suf)) by (done || lia). cbn [mbind option_bind].
    rewrite xor_range_app, Hc. change (Z.of_nat 8) with 8. specialize (IH (pre ++ chunk) seg' suf (xor_range A (8 * w) chunk) (w + 1)).
    rewrite xor_range_length, length_app, <- app_assoc in IH. replace (8 * w + 8) with (8 * (w + 1)) by lia. replace (w + Z.of_nat (S c)) with (w + 1 + Z.of_nat c) by lia.
    rewrite <- IH by (done || lia). f_equal. rewrite <- seq_shift, map_map. apply map_ext. lia.
Qed.

Lemma zsteps_words b e : 0 <= b -> b <= e -> zsteps (8 * b) (8 * e) 8 = map (fun j => 8 * b + 8 * Z.of_nat j) (seq 0 (Z.to_nat (e - b))).
Proof.
  intros Hb He. unfold zsteps. do 2 f_equal. f_equal. Z.to_euclidean_division_equations. lia.
Qed.

(** ** Absorbing *)

Section Sponge.
Context (rw num_rounds : Z) (P : list Z -> list Z).
Hypothesis Hrw : 0 < rw <= 25.
Hypothesis HP : forall A, length A = 25%nat -> permute num_rounds A = Some (P A) /\ length (P A) = 25%nat.

Let rate : Z := 8 * rw.

(** The block after the zeros and the chunk were written into it *)
Lemma block_segment block off chunk : Z.of_nat (length block) = rate -> 0 <= off -> off + Z.of_nat (length chunk) <= rate -> chunk <> [] -> bytes_ok chunk ->
  let b := off / 8 in let e := (off + Z.of_nat (length chunk) + 7) / 8 in
  exists pre seg suf block1 z1 z2,
    wrs block (8 * b) (replicate (Z.to_nat (8 * e - 8 * b)) 0) = Some block1 /\ wrs block1 off chunk = Some (pre ++ seg ++ suf) /\
    Z.of_nat (length pre) = 8 * b /\ Z.of_nat (length seg) = 8 * (e - b) /\ Z.of_nat (length (pre ++ seg ++ suf)) = rate /\
    seg = replicate z1 0 ++ chunk ++ replicate z2 0 /\ Z.of_nat z1 = off - 8 * b /\ bytes_ok seg /\ b < e <= rw.
Proof.
  intros Hl Hoff Hend Hne Hb b e. assert (Hc : 0 < Z.of_nat (length chunk)) by (destruct chunk; [done|cbn; lia]).
  assert (Hbe : 8 * b <= off < 8 * b + 8) by (unfold b; Z.to_euclidean_division_equations; lia).
  assert (Hee : off + Z.of_nat (length chunk) <= 8 * e < off + Z.of_nat (length chunk) + 8) by (unfold e; Z.to_euclidean_division_equations; lia).
  assert (Her : b < e <= rw) by (unfold rate in *; lia). clearbody b e.
  destruct (split_at (Z.to_nat (8 * b)) block) as (pre & rest & -> & Hpre); [unfold rate in *; lia|]. rewrite length_app in Hl.
  destruct (split_at (Z.to_nat (8 * (e - b))) rest) as (old & suf & -> & Hold); [unfold rate in *; lia|]. rewrite length_app in Hl.
  set (z1 := Z.to_nat (off - 8 * b)). set (z2 := Z.to_nat (8 * e - off - Z.of_nat (length chunk))).
  exists pre, (replicate z1 0 ++ chunk ++ replicate z2 0), suf, (pre ++ (replicate z1 0 ++ replicate (length chunk) 0 ++ replicate z2 0) ++ suf), z1, z2.
  rewrite !length_app, !length_replicate. split_and!; try lia; try done.
  - rewrite <- !replicate_add. replace (Z.to_nat (8 * e - 8 * b)) with (z1 + (length chunk + z2))%nat by (unfold z1, z2; lia).
    apply wrs_mid; [lia|]. rewrite length_replicate. unfold z1, z2. lia.
  - rewrite <- !app_assoc, !(app_assoc pre). apply wrs_mid; [rewrite length_app, length_replicate; unfold z1; lia|by rewrite length_replicate].
  - unfold bytes_ok. rewrite !Forall_app. split_and!; [|done|]; apply Forall_replicate; unfold is_u8; lia.
Qed.

Lemma absorb_loop_runs fuel : forall msg block A off mo, length A = 25%nat -> Z.of_nat (length block) = rate -> bytes_ok msg ->
  0 <= off < rate -> 0 <= mo <= Z.of_nat (length msg) -> Z.of_nat (length msg) - mo <= Z.of_nat fuel ->
  absorb_loop fuel rate num_rounds msg block A off mo = Some (absorb_bytes rate P (A, off) (drop (Z.to_nat mo) msg)).
Proof.
  induction fuel as [|fuel IH]; intros msg block A off mo HA Hbl Hb Hoff Hmo Hf.
  - cbn [absorb_loop]. replace (mo <? Z.of_nat (length msg)) with false by lia. rewrite drop_ge by lia. done.
  - cbn [absorb_loop]. destruct (Z.ltb_spec mo (Z.of_nat (length msg))) as [Hlt|Hge]; [|rewrite drop_ge by lia; done].
    set (n := Z.min (Z.of_nat (length msg) - mo) (rate - off)). assert (Hn : 0 < n /\ n <= Z.of_nat (length msg) - mo /\ off + n <= rate) by lia. clearbody n.
    destruct (split_at (Z.to_nat mo) msg) as (m0 & m1 & -> & Hm0); [lia|]. rewrite length_app in *. apply Forall_app in Hb as [Hb0 Hb1].
    destruct (split_at (Z.to_nat n) m1) as (chunk & m2 & -> & Hch); [lia|]. rewrite length_app in *. apply Forall_app in Hb1 as [Hbc Hb2].
    assert (Hmsg : bytes_ok (m0 ++ chunk ++ m2)) by (unfold bytes_ok; by rewrite !Forall_app).
    assert (Hcl : Z.of_nat (length chunk) = n) by lia. assert (Hne : chunk <> []) by (destruct chunk; [cbn in Hcl; lia|done]).
    rewrite word_ceil_spec, word_floor_spec. rewrite <- Hcl.
    destruct (block_segment block off chunk) as (pre & seg & suf & block1 & z1 & z2 & E1 & E2 & Hpre & Hseg & Hbl2 & -> & Hz1 & Hbs & He); [done|lia|lia|done|done|].
    rewrite E1. cbn [mbind option_bind]. rewrite (subspan_mid m0 chunk m2) by lia. cbn [mbind option_bind]. rewrite E2. cbn [mbind option_bind]. clear E1 E2.
    change KECCAK_WORD_BYTE_LEN with 8. set (b := off / 8) in *. set (e := (off + Z.of_nat (length chunk) + 7) / 8) in *. assert (Hb8 : 0 <= b) by (apply Z.div_pos; lia).
    rewrite zsteps_words by lia. rewrite (Z.mul_comm 8 b), Z.div_mul, (Z.mul_comm b 8) by done.
    rewrite (absorb_words_run (Z.to_nat (e - b))); [|done|lia|done|lia|done]. cbn [mbind option_bind fst].
    rewrite !xor_range_app, xor_range_zeros, xor_range_zeros, length_replicate. replace (8 * b + Z.of_nat z1) with off by lia.
    rewrite drop_app_length' by done. rewrite absorb_bytes_app, absorb_bytes_block by (done || lia).
    destruct (Z.eqb_spec (off + Z.of_nat (length chunk)) rate) as [Er|Er].
    + destruct (HP (xor_range A off chunk)) as [E HlP]; [by rewrite xor_range_length|]. rewrite E. cbn [mbind option_bind].
      rewrite IH; [|done|done|done|unfold rate; lia|rewrite !length_app; lia|rewrite !length_app; lia].
      do 2 f_equal. rewrite app_assoc, drop_app_length'; [done|]. rewrite length_app. lia.
    + rewrite IH; [|by rewrite xor_range_length|done|done|lia|rewrite !length_app; lia|rewrite !length_app; lia].
      do 2 f_equal. rewrite app_assoc, drop_app_length'; [done|]. rewrite length_app. lia.
Qed.

(** ** Squeezing *)

Definition state_bytes (A : list Z) (k : Z) (n : nat) : list Z := map (fun i => state_byte A (k + Z.of_nat i)) (seq 0 n).

Lemma state_bytes_length A k n : length (state_bytes A k n) = n.
Proof. unfold state_bytes. by rewrite length_map, length_seq. Qed.

Lemma state_bytes_app A k n m : state_bytes A k (n + m) = state_bytes A k n ++ state_bytes A (k + Z.of_nat n) m.
Proof.
  unfold state_bytes. rewrite seq_app, map_app. f_equal. cbn [Nat.add]. generalize m. clear m. intros m.
  induction m as [|m IH]; [done|]. rewrite !seq_S, !map_app, IH. cbn [map Nat.add]. do 3 f_equal. lia.
Qed.

Lemma word_bytes A w s : 0 <= w -> rd A w = Some s -> u64_to_le_bytes s = state_bytes A (8 * w) 8.
Proof.
  intros Hw [_ Hs]%rd_lookup. assert (E : nth (Z.to_nat w) A 0 = s) by (rewrite nth_lookup; by rewrite Hs).
  assert (H : forall j, 0 <= j < 8 -> state_byte A (8 * w + j) = u8 (Z.shiftr s (8 * j))).
  { intros j Hj. unfold state_byte. replace ((8 * w + j) / 8) with w by (Z.to_euclidean_division_equations; lia).
    replace ((8 * w + j) mod 8) with j by (Z.to_euclidean_division_equations; lia). by rewrite E. }
  unfold state_bytes. cbn [seq map Z.of_nat Pos.of_succ_nat Pos.succ]. by rewrite !H by lia.
Qed.

Lemma squeeze_words_run A c : forall pre old suf w, 0 <= w -> w + Z.of_nat c <= Z.of_nat (length A) -> Z.of_nat (length pre) = 8 * w -> length old = (8 * c)%nat ->
  foldm (squeeze_word A) (map (fun j => 8 * w + 8 * Z.of_nat j) (seq 0 c)) (pre ++ old ++ suf, w) = Some (pre ++ state_bytes A (8 * w) (8 * c) ++ suf, w + Z.of_nat c).
Proof.
  induction c as [|c IH]; intros pre old suf w Hw Hend Hp Ho.
  - destruct old; [|cbn in Ho; lia]. cbn. by rewrite Z.add_0_r.
  - destruct (split_at 8 old) as (o1 & o2 & -> & Ho1); [lia|]. rewrite length_app in Ho. destruct (rd_some A w) as [s Hs]; [lia|].
    assert (E : squeeze_word A (8 * w) (pre ++ o1 ++ o2 ++ suf, w) = Some (pre ++ state_bytes A (8 * w) 8 ++ o2 ++ suf, w + 1)).
    { unfold squeeze_word. rewrite Hs. cbn [mbind option_bind]. rewrite wrs_mid by (done || lia). cbn [mbind option_bind]. by rewrite (word_bytes A w s Hw Hs). }
    cbn [seq map foldm]. rewrite Z.add_0_r, <- !app_assoc, E. cbn [mbind option_bind].
    specialize (IH (pre ++ state_bytes A (8 * w) 8) o2 suf (w + 1)). rewrite length_app, state_bytes_length, <- !app_assoc in IH.
    replace (8 * S c)%nat with (8 + 8 * c)%nat by lia. rewrite state_bytes_app, <- app_assoc. change (Z.of_nat 8) with 8.
    replace (8 * w + 8) with (8 * (w + 1)) by lia. replace (w + Z.of_nat (S c)) with (w + 1 + Z.of_nat c) by lia.
    rewrite <- IH by (done || lia). f_equal. rewrite <- seq_shift, map_map. apply map_ext. lia.
Qed.

(** Squeezing out of one block *)
Lemma squeeze_bytes_block r Q n A sq : (0 < n)%nat -> Z.of_nat n <= sq ->
  squeeze_bytes r Q n (A, sq) = (state_bytes A (r - sq) n, if sq - Z.of_nat n =? 0 then (Q A, r) else (A, sq - Z.of_nat n)).
Proof.
  revert sq. induction n as [|n IH]; intros sq Hn Hle; [lia|]. cbn [squeeze_bytes]. unfold squeeze_byte. cbn [fst snd].
  destruct n as [|n].
  - unfold state_bytes. cbn [squeeze_bytes seq map]. rewrite Z.add_0_r. done.
  - replace (sq - 1 =? 0) with false by lia. rewrite IH by lia. unfold state_bytes. cbn [seq map]. rewrite Z.add_0_r.
    replace (sq - 1 - Z.of_nat (S n)) with (sq - Z.of_nat (S (S n))) by lia. replace (r - (sq - 1)) with (r - sq + 1) by lia.
    change (Z.of_nat 0) with 0. rewrite Z.add_0_r. apply (f_equal2 pair); [|done]. apply (f_equal2 cons); [done|]. apply (f_equal2 cons); [done|].
    rewrite <- (seq_shift n 1), map_map. apply map_ext. intros i. f_equal. lia.
Qed.

Lemma squeeze_loop_runs fuel : forall blk A sq pre out, length A = 25%nat -> Z.of_nat (length blk) = rate -> 0 < sq <= rate -> (length out <= fuel)%nat ->
  squeeze_loop fuel rate num_rounds blk A sq (pre ++ out) (Z.of_nat (length pre)) =
  Some ((squeeze_bytes rate P (length out) (A, sq)).2, pre ++ (squeeze_bytes rate P (length out) (A, sq)).1).
Proof.
  induction fuel as [|fuel IH]; intros blk A sq pre out HA Hbl Hsq Hf.
  - destruct out; [|cbn in Hf; lia]. cbn [squeeze_loop]. rewrite app_nil_r, Z.ltb_irrefl. cbn. by rewrite app_nil_r.
  - destruct out as [|o0 out0]; [cbn [squeeze_loop]; rewrite app_nil_r, Z.ltb_irrefl; cbn; by rewrite app_nil_r|]. set (out := o0 :: out0) in *.
    assert (Hout : (0 < length out)%nat) by (cbn; lia). clearbody out. cbn [squeeze_loop]. rewrite length_app. rewrite (proj2 (Z.ltb_lt (Z.of_nat (length pre)) (Z.of_nat (length pre + length out)))) by lia.
    set (n := Z.min (Z.of_nat (length pre + length out) - Z.of_nat (length pre)) sq). assert (Hn : 0 < n /\ n <= Z.of_nat (length out) /\ n <= sq) by lia. clearbody n.
    rewrite word_ceil_spec, word_floor_spec. set (off := rate - sq). set (b := off / 8). set (e := (off + n + 7) / 8).
    assert (Hb : 0 <= b /\ 8 * b <= off < 8 * b + 8) by (unfold b; Z.to_euclidean_division_equations; lia).
    assert (He : off + n <= 8 * e < off + n + 8) by (unfold e; Z.to_euclidean_division_equations; lia).
    assert (Her : b < e <= rw) by (unfold off, rate in *; lia). change KECCAK_WORD_BYTE_LEN with 8. rewrite zsteps_words by lia.
    replace (8 * b / 8) with b by (rewrite Z.mul_comm, Z.div_mul; done). clearbody b e.
    destruct (split_at (Z.to_nat (8 * b)) blk) as (p & r & -> & Hp); [unfold rate in *; lia|]. rewrite length_app in Hbl.
    destruct (split_at (8 * Z.to_nat (e - b)) r) as (old & suf & -> & Ho); [unfold rate in *; lia|]. rewrite length_app in Hbl.
    rewrite (squeeze_words_run A (Z.to_nat (e - b))) by lia. cbn [mbind option_bind fst].
    assert (Hseg : state_bytes A (8 * b) (8 * Z.to_nat (e - b)) = state_bytes A (8 * b) (Z.to_nat (off - 8 * b)) ++ state_bytes A off (Z.to_nat n) ++ state_bytes A (off + n) (Z.to_nat (8 * e - off - n))).
    { replace (8 * Z.to_nat (e - b))%nat with (Z.to_nat (off - 8 * b) + (Z.to_nat n + Z.to_nat (8 * e - off - n)))%nat by lia.
      rewrite !state_bytes_app. do 2 f_equal; [f_equal; lia|]. f_equal. lia. }
    rewrite Hseg. rewrite <- !(app_assoc (state_bytes A (8 * b) _)), (app_assoc p). rewrite <- (app_assoc (state_bytes A off _)).
    rewrite subspan_mid by (rewrite ?length_app, ?state_bytes_length; lia). cbn [mbind option_bind].
    destruct (split_at (Z.to_nat n) out) as (o1 & o2 & -> & Ho1); [lia|]. rewrite length_app in *.
    rewrite wrs_mid by (rewrite ?state_bytes_length; lia). cbn [mbind option_bind].
    rewrite squeeze_bytes_app. rewrite (squeeze_bytes_block rate P (length o1)) by lia. rewrite Ho1, Z2Nat.id by lia. cbn [fst snd].
    assert (Hblk : Z.of_nat (length ((p ++ state_bytes A (8 * b) (Z.to_nat (off - 8 * b))) ++ state_bytes A off (Z.to_nat n) ++ state_bytes A (off + n) (Z.to_nat (8 * e - off - n)) ++ suf)) = rate).
    { rewrite !length_app, !state_bytes_length. unfold rate, off in *. lia. }
    assert (Hnext : forall A' sq', length A' = 25%nat -> 0 < sq' <= rate ->
      squeeze_loop fuel rate num_rounds ((p ++ state_bytes A (8 * b) (Z.to_nat (off - 8 * b))) ++ state_bytes A off (Z.to_nat n) ++ state_bytes A (off + n) (Z.to_nat (8 * e - off - n)) ++ suf)
        A' sq' (pre ++ state_bytes A off (Z.to_nat n) ++ o2) (Z.of_nat (length pre) + n) =
      Some ((squeeze_bytes rate P (length o2) (A', sq')).2, pre ++ state_bytes A off (Z.to_nat n) ++ (squeeze_bytes rate P (length o2) (A', sq')).1)).
    { intros A' sq' HA' Hsq'. specialize (IH _ A' sq' (pre ++ state_bytes A off (Z.to_nat n)) o2 HA' Hblk Hsq'). rewrite length_app, state_bytes_length, <- !app_assoc in IH.
      rewrite <- !app_assoc. rewrite <- IH by lia. f_equal. lia. }
    destruct (Z.eqb_spec (sq - n) 0) as [E0|E0].
    + destruct (HP A HA) as [E HlP]. rewrite E. cbn [mbind option_bind]. apply Hnext; [done|unfold rate; lia].
    + apply Hnext; [done|lia].
Qed.

(** ** The three operations *)

Lemma absorb_runs A off msg : length A = 25%nat -> bytes_ok msg -> 0 <= off < rate ->
  absorb (8 * rate) num_rounds A off msg = Some (absorb_bytes rate P (A, off) msg).
Proof.
  intros HA Hb Hoff. unfold absorb. rewrite (Z.mul_comm 8 rate), Z.div_mul by done. rewrite absorb_loop_runs; [done|done| |done|done|lia|lia].
  rewrite length_replicate. unfold rate. lia.
Qed.

Lemma squeeze_runs A sq out : length A = 25%nat -> 0 < sq <= rate ->
  squeeze (8 * rate) num_rounds A sq out = Some ((squeeze_bytes rate P (length out) (A, sq)).2, (squeeze_bytes rate P (length out) (A, sq)).1).
Proof.
  intros HA Hsq. unfold squeeze. rewrite (Z.mul_comm 8 rate), Z.div_mul by done. apply (squeeze_loop_runs (length out) _ A sq [] out); [done| |done|lia].
  rewrite length_replicate. unfold rate. lia.
Qed.

Lemma xor_byte_runs A k b : length A = 25%nat -> 0 <= k < 200 -> is_u8 b ->
  exists s, rd A (k / 8) = Some s /\ wr A (k / 8) (Z.lxor s (u64 (Z.shiftl b (k mod 8 * 8)))) = Some (xor_byte A k b).
Proof.
  intros HA Hk Hb. assert (Hw : 0 <= k / 8 < 25) by (Z.to_euclidean_division_equations; lia). destruct (rd_some A (k / 8)) as [s Hs]; [lia|]. exists s. split; [done|].
  rewrite wr_some by lia. f_equal. apply rd_lookup in Hs as [_ Hs]. unfold xor_byte. rewrite (Z.mul_comm (k mod 8) 8). pose proof (Z.mod_pos_bound k 8 ltac:(lia)).
  rewrite u64_small by (apply byte_shift_range; [done|lia]). by apply (insert_is_alter (fun w => Z.lxor w (Z.shiftl b (8 * (k mod 8))))).
Qed.

(** The padding byte: the domain bits with a one above them *)
Lemma pad_byte_value dom ds : 0 <= ds <= 6 -> u8 (Z.lor (Z.shiftl 1 ds) (Z.land dom (u8 (Z.shiftl 1 ds - 1)))) = 2 ^ ds + dom mod 2 ^ ds.
Proof.
  intros Hds. assert (Hp : 1 <= 2 ^ ds <= 64) by (assert (H : ds = 0 \/ ds = 1 \/ ds = 2 \/ ds = 3 \/ ds = 4 \/ ds = 5 \/ ds = 6) by lia; by repeat destruct H as [->|H]; subst).
  assert (Hm := Z.mod_pos_bound dom (2 ^ ds) ltac:(lia)).
  assert (E1 : Z.land dom (u8 (Z.shiftl 1 ds - 1)) = dom mod 2 ^ ds).
  { rewrite Z.shiftl_mul_pow2, Z.mul_1_l by lia. unfold u8. rewrite (Z.mod_small (2 ^ ds - 1)) by lia.
    replace (2 ^ ds - 1) with (Z.ones ds) by (rewrite Z.ones_equiv; lia). by rewrite Z.land_ones by lia. }
  assert (E2 : Z.land (Z.shiftl 1 ds) (dom mod 2 ^ ds) = 0).
  { apply Z.bits_inj'. intros n Hn. rewrite Z.land_spec, Z.bits_0, Z.shiftl_spec, Z.testbit_mod_pow2 by lia.
    destruct (Z.ltb_spec n ds); [rewrite Z.testbit_neg_r by lia; done|apply andb_false_r]. }
  rewrite E1, <- Z.lxor_lor, <- Z.add_nocarry_lxor by done. rewrite Z.shiftl_mul_pow2, Z.mul_1_l by lia. apply Z.mod_small. lia.
Qed.

(** The padding: the domain bits and a one after the message, a one at the end of the block *)
Definition pad_block (dom ds off : Z) (A : list Z) : list Z := xor_byte (xor_byte A off (2 ^ ds + dom mod 2 ^ ds)) (rate - 1) 0x80.

Lemma finalize_runs dom ds A off : length A = 25%nat -> 0 <= ds <= 6 -> 0 <= off < rate ->
  finalize dom ds (8 * rate) num_rounds A off = Some (P (pad_block dom ds off A), 0).
Proof.
  intros HA Hds Hoff. unfold finalize, check_domain_separator. replace (ds <=? 6) with true by lia. cbn [negb].
  assert (Hp : 1 <= 2 ^ ds <= 64) by (assert (H : ds = 0 \/ ds = 1 \/ ds = 2 \/ ds = 3 \/ ds = 4 \/ ds = 5 \/ ds = 6) by lia; by repeat destruct H as [->|H]; subst).
  assert (Hm := Z.mod_pos_bound dom (2 ^ ds) ltac:(lia)).
  rewrite pad_byte_value by done. change KECCAK_WORD_BYTE_LEN with 8. rewrite (Z.mul_comm 8 rate), Z.div_mul by done.
  destruct (xor_byte_runs A off (2 ^ ds + dom mod 2 ^ ds) HA) as (s & E1 & E2); [unfold rate in *; lia|unfold is_u8; lia|]. rewrite E1. cbn [mbind option_bind]. rewrite E2. cbn [mbind option_bind].
  destruct (xor_byte_runs (xor_byte A off (2 ^ ds + dom mod 2 ^ ds)) (rate - 1) 0x80) as (s' & E3 & E4); [by rewrite xor_byte_length|unfold rate; lia|done|].
  replace ((rate - 1) / 8) with (rate / 8 - 1) in * by (unfold rate; Z.to_euclidean_division_equations; lia).
  replace ((rate - 1) mod 8 * 8) with 56 in E4 by (unfold rate; Z.to_euclidean_division_equations; lia).
  rewrite E3. cbn [mbind option_bind]. rewrite E4. cbn [mbind option_bind]. fold (pad_block dom ds off A).
  destruct (HP (pad_block dom ds off A)) as [E _]; [unfold pad_block; by rewrite !xor_byte_length|]. by rewrite E.
Qed.
End Sponge.

(** * The sponge block by block: padding and output stream

    The sponge construction of FIPS 202 on whole blocks: [absorbed] is the
    state after the padded message, [stream] the byte at a position of the
    unbounded output.  The byte by byte sponge above, and with it
    the code, is proved to be this one. *)

Section Stream.
Context (rate : Z) (P : list Z -> list Z).
Hypothesis Hrate : 0 < rate.

(** ** The construction *)

Definition absorb_block (A blk : list Z) : list Z := P (xor_range A 0 blk).

(** The state after [k] blocks *)
Definition absorbed (k : nat) (M : list Z) : list Z := fold_left absorb_block (groups (Z.to_nat rate) k M) (replicate 25 0).

(** [10*1] padding with the domain bits [pb] in front, up to the end of the block *)
Definition padding (pb len : Z) : list Z :=
  let q := rate - 1 - len mod rate in
  if q =? 0 then [Z.lxor pb 0x80] else pb :: replicate (Z.to_nat (q - 1)) 0 ++ [0x80].

(** Byte [j] of what is squeezed out of the state [A] *)
Definition stream (A : list Z) (j : Z) : Z := state_byte (Nat.iter (Z.to_nat (j / rate)) P A) (j mod rate).

(** ** Absorbing *)

Lemma sponge_padding_length pb len : Z.of_nat (length (padding pb len)) = rate - len mod rate.
Proof.
  pose proof (Z.mod_pos_bound len rate Hrate). unfold padding. destruct (Z.eqb_spec (rate - 1 - len mod rate) 0) as [E|E]; [cbn; lia|].
  cbn [length]. rewrite length_app, length_replicate. cbn [length]. lia.
Qed.

Lemma absorb_bytes_offset A off msg : 0 <= off < rate -> (absorb_bytes rate P (A, off) msg).2 = (off + Z.of_nat (length msg)) mod rate.
Proof.
  revert A off. induction msg as [|b msg IH]; intros A off Hoff; [cbn; rewrite Z.add_0_r, Z.mod_small by lia; done|].
  unfold absorb_bytes. cbn [fold_left]. unfold absorb_byte at 2. cbn [fst snd length].
  destruct (Z.eqb_spec (off + 1) rate) as [E|E].
  - change (fold_left (absorb_byte rate P) msg) with (fun st => absorb_bytes rate P st msg). cbv beta. rewrite IH by lia.
    rewrite <- (Z.mod_add (0 + Z.of_nat (length msg)) 1 rate) by lia. f_equal. lia.
  - change (fold_left (absorb_byte rate P) msg) with (fun st => absorb_bytes rate P st msg). cbv beta. rewrite IH by lia. f_equal. lia.
Qed.

(** Whole blocks *)
Lemma absorb_bytes_blocks k A M : Z.of_nat (length M) = Z.of_nat k * rate ->
  absorb_bytes rate P (A, 0) M = (fold_left absorb_block (groups (Z.to_nat rate) k M) A, 0).
Proof.
  revert A M. induction k as [|k IH]; intros A M HM; [destruct M; [done|cbn in HM; lia]|].
  destruct (split_at (Z.to_nat rate) M) as (blk & M' & -> & Hb); [nia|]. rewrite length_app in HM.
  rewrite absorb_bytes_app, absorb_bytes_block by (lia || (intros ->; cbn in Hb; lia)). replace (0 + Z.of_nat (length blk)) with rate by lia.
  rewrite Z.eqb_refl. cbn [groups fold_left]. rewrite (take_app_length' blk), (drop_app_length' blk) by lia. rewrite IH by lia. done.
Qed.

Lemma xor_byte_twice A k a b : xor_byte (xor_byte A k a) k b = xor_byte A k (Z.lxor a b).
Proof. unfold xor_byte. rewrite list_alter_alter_eq. apply list_alter_ext; [|done]. intros x _. unfold compose. by rewrite Z.shiftl_lxor, Z.lxor_assoc. Qed.

(** The two bytes of [pad_block] are the padding. *)
Lemma pad_absorbs A off pb len : off = len mod rate ->
  absorb_bytes rate P (A, off) (padding pb len) = (P (xor_byte (xor_byte A off pb) (rate - 1) 0x80), 0).
Proof.
  intros ->. pose proof (Z.mod_pos_bound len rate Hrate). rewrite absorb_bytes_block; [|lia| |rewrite sponge_padding_length; lia].
  - rewrite sponge_padding_length. replace (len mod rate + (rate - len mod rate) =? rate) with true by lia. do 2 f_equal. unfold padding.
    destruct (Z.eqb_spec (rate - 1 - len mod rate) 0) as [E|E].
    + cbn [xor_range]. replace (rate - 1) with (len mod rate) by lia. by rewrite xor_byte_twice.
    + cbn [xor_range]. rewrite xor_range_app, xor_range_zeros, length_replicate. cbn [xor_range]. f_equal. lia.
  - pose proof (sponge_padding_length pb len) as Hl. intros E. rewrite E in Hl. cbn in Hl. lia.
Qed.

(** The padded message, block by block *)
Definition blocks_of (len : Z) : nat := Z.to_nat (len / rate + 1).

Definition sponge_state (pb : Z) (M : list Z) : list Z := absorbed (blocks_of (Z.of_nat (length M))) (M ++ padding pb (Z.of_nat (length M))).

Lemma sponge_state_spec pb M : let st := absorb_bytes rate P (replicate 25 0, 0) M in
  sponge_state pb M = P (xor_byte (xor_byte st.1 st.2 pb) (rate - 1) 0x80).
Proof.
  intros st. assert (Hst : st = (st.1, Z.of_nat (length M) mod rate)) by (unfold st; rewrite (surjective_pairing (absorb_bytes _ _ _ _)), absorb_bytes_offset by lia; done).
  assert (Hn : 0 <= Z.of_nat (length M) / rate) by (apply Z.div_pos; lia). pose proof (Z.div_mod (Z.of_nat (length M)) rate ltac:(lia)) as Hd.
  assert (E : absorb_bytes rate P (replicate 25 0, 0) (M ++ padding pb (Z.of_nat (length M))) = (sponge_state pb M, 0)).
  { apply absorb_bytes_blocks. rewrite length_app, Nat2Z.inj_add, sponge_padding_length. unfold blocks_of. rewrite Z2Nat.id by lia. lia. }
  rewrite absorb_bytes_app in E. fold st in E. rewrite Hst, pad_absorbs in E by done. rewrite Hst. by injection E.
Qed.

(** ** Squeezing *)

Lemma stream_next A j : rate <= j -> stream A j = stream (P A) (j - rate).
Proof.
  intros Hj. unfold stream. assert (Em : j mod rate = (j - rate) mod rate) by (rewrite <- (Z.mod_add (j - rate) 1) by lia; f_equal; lia).
  assert (Ed : j / rate = (j - rate) / rate + 1) by (rewrite <- Z.div_add by lia; f_equal; lia). rewrite Em, Ed.
  rewrite Z2Nat.inj_add, Nat.add_comm by (try apply Z.div_pos; lia). change (Z.to_nat 1) with 1%nat. cbn [Nat.add]. by rewrite Nat.iter_succ_r.
Qed.

(** The state after [n] bytes of the stream, with [sq] bytes left in its block *)
Definition after (A : list Z) (n : Z) : list Z * Z := (Nat.iter (Z.to_nat (n / rate)) P A, rate - n mod rate).

Lemma squeeze_byte_stream A n : 0 <= n -> squeeze_byte rate P (after A n) = (stream A n, after A (n + 1)).
Proof.
  intros Hn. pose proof (Z.mod_pos_bound n rate Hrate). pose proof (Z.div_mod n rate ltac:(lia)). pose proof (Z.div_pos n rate Hn Hrate). unfold squeeze_byte, after, stream. cbn [fst snd].
  replace (rate - (rate - n mod rate)) with (n mod rate) by lia. f_equal.
  destruct (Z.eqb_spec (rate - n mod rate - 1) 0) as [E|E].
  - assert (Ed : (n + 1) / rate = n / rate + 1) by (symmetry; apply (Z.div_unique _ _ _ 0); lia).
    assert (Em : (n + 1) mod rate = 0) by (symmetry; apply (Z.mod_unique _ _ (n / rate + 1)); lia).
    rewrite Ed, Em. rewrite Z2Nat.inj_add, Nat.add_comm by lia. change (Z.to_nat 1) with 1%nat. cbn [Nat.add]. rewrite Nat.iter_succ. f_equal. lia.
  - assert (Ed : (n + 1) / rate = n / rate) by (symmetry; apply (Z.div_unique _ _ _ (n mod rate + 1)); lia).
    assert (Em : (n + 1) mod rate = n mod rate + 1) by (symmetry; apply (Z.mod_unique _ _ (n / rate)); lia).
    rewrite Ed, Em. f_equal. lia.
Qed.

Definition stream_bytes (A : list Z) (from : Z) (n : nat) : list Z := map (fun i => stream A (from + Z.of_nat i)) (seq 0 n).

Lemma squeeze_bytes_stream n A from : 0 <= from -> squeeze_bytes rate P n (after A from) = (stream_bytes A from n, after A (from + Z.of_nat n)).
Proof.
  revert from. induction n as [|n IH]; intros from Hf; [cbn; by rewrite Z.add_0_r|]. cbn [squeeze_bytes]. rewrite squeeze_byte_stream by done. rewrite IH by lia.
  unfold stream_bytes. cbn [seq map]. rewrite Z.add_0_r. f_equal; [|f_equal; lia]. f_equal. rewrite <- (seq_shift n 0), map_map. apply map_ext. intros i. f_equal. lia.
Qed.

Lemma after_0 A : after A 0 = (A, rate).
Proof. unfold after. rewrite Z.div_0_l, Z.mod_0_l by lia. f_equal. lia. Qed.

Lemma stream_bytes_length A from n : length (stream_bytes A from n) = n.
Proof. unfold stream_bytes. by rewrite length_map, length_seq. Qed.

Lemma stream_bytes_app A from n m : stream_bytes A from (n + m) = stream_bytes A from n ++ stream_bytes A (from + Z.of_nat n) m.
Proof.
  unfold stream_bytes. rewrite seq_app, map_app. f_equal. cbn [Nat.add]. pose proof (fmap_add_seq n 0 m) as E. rewrite Nat.add_0_r in E. rewrite <- E.
  change (Nat.add n <$> seq 0 m) with (map (Nat.add n) (seq 0 m)). rewrite map_map. apply map_ext. intros i. f_equal. lia.
Qed.

Lemma stream_bytes_ok A from n : bytes_ok (stream_bytes A from n).
Proof. apply Forall_map, List.Forall_forall. intros i _. by apply Z.mod_pos_bound. Qed.

Hypothesis HP : forall A, length A = 25%nat -> length (P A) = 25%nat.

Lemma iter_length k A : length A = 25%nat -> length (Nat.iter k P A) = 25%nat.
Proof. intros HA. induction k as [|k IH]; [done|]. rewrite Nat.iter_succ. by apply HP. Qed.

Lemma absorb_bytes_length st msg : length st.1 = 25%nat -> length (absorb_bytes rate P st msg).1 = 25%nat.
Proof.
  revert st. induction msg as [|b msg IH]; intros st H; [done|]. unfold absorb_bytes. cbn [fold_left]. change (fold_left (absorb_byte rate P) msg) with (fun st => absorb_bytes rate P st msg). cbv beta.
  apply IH. unfold absorb_byte. destruct (st.2 + 1 =? rate); cbn [fst]; [apply HP|]; by rewrite xor_byte_length.
Qed.
End Stream.
