(* ===== verification/Xof.v ===== *)
(** * The hash objects: tools/ml_kem_512_single.hpp, namespaces shake128, shake256, turboshake256, sha3_256 and sha3_512

    The three extendable output functions have one text with different
    constants, and so have the two hash functions; the operations are written
    once over the rate, the number of rounds and the domain bits, and each
    structure of the source is an instance. *)

From Stdlib Require Import Lia.
From stdpp Require Import base tactics list numbers option.
From S2P Require Import Prelude QrArray MlField MlBits Keccak Sponge SpongeSpec.
Local Open Scope Z_scope.

(** ** Extendable output functions *)

Record xof_t := { xof_state : list Z; xof_offset : Z; xof_finalized : bool; xof_squeezable : Z }.

Definition xof_new : xof_t := {| xof_state := replicate (Z.to_nat LANE_CNT) 0; xof_offset := 0; xof_finalized := false; xof_squeezable := 0 |}.

(** The bytes of the lanes in memory, and back *)
Definition state_as_bytes (state : list Z) : list Z := concat (map u64_to_le_bytes state).
Definition bytes_as_state (bs : list Z) : option (list Z) := mapM le_bytes_to_u64 (groups 8 (Z.to_nat LANE_CNT) bs).

Definition squeezable_num_bytes (x : xof_t) : Z := xof_squeezable x.

Section Ops.
Context (RATE NUM_KECCAK_ROUNDS : Z).

Definition xof_absorb (x : xof_t) (msg : list Z) : option xof_t :=
  if negb (xof_finalized x) then
    r ← absorb RATE NUM_KECCAK_ROUNDS (xof_state x) (xof_offset x) msg;
    Some {| xof_state := r.1; xof_offset := r.2; xof_finalized := xof_finalized x; xof_squeezable := xof_squeezable x |}
  else Some x.

Definition xof_finalize (DOM_SEP DOM_SEP_BW : Z) (x : xof_t) : option xof_t :=
  if negb (xof_finalized x) then
    r ← finalize DOM_SEP DOM_SEP_BW RATE NUM_KECCAK_ROUNDS (xof_state x) (xof_offset x);
    Some {| xof_state := r.1; xof_offset := r.2; xof_finalized := true; xof_squeezable := RATE / 8 |}
  else Some x.

(** The object after the call and what [dig] holds then *)
Definition xof_squeeze (x : xof_t) (dig : list Z) : option (xof_t * list Z) :=
  if xof_finalized x then
    r ← squeeze RATE NUM_KECCAK_ROUNDS (xof_state x) (xof_squeezable x) dig;
    Some ({| xof_state := r.1.1; xof_offset := xof_offset x; xof_finalized := xof_finalized x; xof_squeezable := r.1.2 |}, r.2)
  else Some (x, dig).

Definition xof_reset (x : xof_t) : xof_t :=
  {| xof_state := map (fun _ => 0) (xof_state x); xof_offset := 0; xof_finalized := false; xof_squeezable := 0 |}.

Definition xof_ratchet (x : xof_t) (byte_len : Z) : option xof_t :=
  if xof_finalized x then
    let ratchetable_portion_byte_len := Z.min byte_len STATE_BYTE_LEN in
    bs ← wrs (state_as_bytes (xof_state x)) 0 (replicate (Z.to_nat ratchetable_portion_byte_len) 0);
    state ← bytes_as_state bs;
    state ← permute NUM_KECCAK_ROUNDS state;
    Some {| xof_state := state; xof_offset := xof_offset x; xof_finalized := xof_finalized x; xof_squeezable := xof_squeezable x |}
  else Some x.
End Ops.

(** *** SHAKE256 *)
Definition shake256_TARGET_BIT_SECURITY_LEVEL : Z := 256.
Definition shake256_CAPACITY : Z := 2 * shake256_TARGET_BIT_SECURITY_LEVEL.
Definition shake256_RATE : Z := 1600 - shake256_CAPACITY.
Definition shake256_DOM_SEP : Z := 15.
Definition shake256_absorb : xof_t -> list Z -> option xof_t := xof_absorb shake256_RATE MAX_NUM_ROUNDS.
Definition shake256_finalize : xof_t -> option xof_t := xof_finalize shake256_RATE MAX_NUM_ROUNDS shake256_DOM_SEP (bit_width shake256_DOM_SEP).
Definition shake256_squeeze : xof_t -> list Z -> option (xof_t * list Z) := xof_squeeze shake256_RATE MAX_NUM_ROUNDS.
Definition shake256_ratchet : xof_t -> Z -> option xof_t := xof_ratchet MAX_NUM_ROUNDS.

(** *** TurboSHAKE256: half the rounds, and the domain byte is an argument of [finalize] *)
Definition turboshake256_NUM_KECCAK_ROUNDS : Z := MAX_NUM_ROUNDS / 2.
Definition turboshake256_CAPACITY : Z := 2 * 256.
Definition turboshake256_RATE : Z := 1600 - turboshake256_CAPACITY.
Definition turboshake256_absorb : xof_t -> list Z -> option xof_t := xof_absorb turboshake256_RATE turboshake256_NUM_KECCAK_ROUNDS.
Definition turboshake256_finalize (dom_sep : Z) (x : xof_t) : option xof_t :=
  if (0x01 <=? dom_sep) && (dom_sep <=? 0x7f) then xof_finalize turboshake256_RATE turboshake256_NUM_KECCAK_ROUNDS dom_sep (bit_width dom_sep - 1) x else None.
Definition turboshake256_squeeze : xof_t -> list Z -> option (xof_t * list Z) := xof_squeeze turboshake256_RATE turboshake256_NUM_KECCAK_ROUNDS.
Definition turboshake256_ratchet : xof_t -> Z -> option xof_t := xof_ratchet turboshake256_NUM_KECCAK_ROUNDS.

(** *** SHAKE128 *)
Definition shake128_TARGET_BIT_SECURITY_LEVEL : Z := 128.
Definition shake128_CAPACITY : Z := 2 * shake128_TARGET_BIT_SECURITY_LEVEL.
Definition shake128_RATE : Z := 1600 - shake128_CAPACITY.
Definition shake128_DOM_SEP : Z := 15.
Definition shake128_absorb : xof_t -> list Z -> option xof_t := xof_absorb shake128_RATE MAX_NUM_ROUNDS.
Definition shake128_finalize : xof_t -> option xof_t := xof_finalize shake128_RATE MAX_NUM_ROUNDS shake128_DOM_SEP (bit_width shake128_DOM_SEP).
Definition shake128_squeeze : xof_t -> list Z -> option (xof_t * list Z) := xof_squeeze shake128_RATE MAX_NUM_ROUNDS.
Definition shake128_ratchet : xof_t -> Z -> option xof_t := xof_ratchet MAX_NUM_ROUNDS.

(** ** Hash functions *)

Record sha3_t := { sha_state : list Z; sha_offset : Z; sha_finalized : bool; sha_squeezed : bool }.

Definition sha3_new : sha3_t := {| sha_state := replicate (Z.to_nat LANE_CNT) 0; sha_offset := 0; sha_finalized := false; sha_squeezed := false |}.

Definition sha3_DOM_SEP : Z := 2.

Section Hash.
Context (DIGEST_BIT_LEN : Z).

Definition sha3_DIGEST_LEN : Z := DIGEST_BIT_LEN / 8.
Definition sha3_CAPACITY : Z := 2 * DIGEST_BIT_LEN.
Definition sha3_RATE : Z := 1600 - sha3_CAPACITY.

Definition sha3_absorb (h : sha3_t) (msg : list Z) : option sha3_t :=
  if negb (sha_finalized h) then
    r ← absorb sha3_RATE MAX_NUM_ROUNDS (sha_state h) (sha_offset h) msg;
    Some {| sha_state := r.1; sha_offset := r.2; sha_finalized := sha_finalized h; sha_squeezed := sha_squeezed h |}
  else Some h.

Definition sha3_finalize (h : sha3_t) : option sha3_t :=
  if negb (sha_finalized h) then
    r ← finalize sha3_DOM_SEP (bit_width sha3_DOM_SEP) sha3_RATE MAX_NUM_ROUNDS (sha_state h) (sha_offset h);
    Some {| sha_state := r.1; sha_offset := r.2; sha_finalized := true; sha_squeezed := sha_squeezed h |}
  else Some h.

(** The object after the call and what [md] holds then *)
Definition sha3_digest (h : sha3_t) (md : list Z) : option (sha3_t * list Z) :=
  if sha_finalized h && negb (sha_squeezed h) then
    let squeezable := sha3_RATE / 8 in
    r ← squeeze sha3_RATE MAX_NUM_ROUNDS (sha_state h) squeezable md;
    Some ({| sha_state := r.1.1; sha_offset := sha_offset h; sha_finalized := sha_finalized h; sha_squeezed := true |}, r.2)
  else Some (h, md).

Definition sha3_reset (h : sha3_t) : sha3_t :=
  {| sha_state := map (fun _ => 0) (sha_state h); sha_offset := 0; sha_finalized := false; sha_squeezed := false |}.

Definition sha3_hash (msg : list Z) : option (list Z) :=
  let md := replicate (Z.to_nat sha3_DIGEST_LEN) 0 in
  h ← sha3_absorb sha3_new msg;
  h ← sha3_finalize h;
  r ← sha3_digest h md;
  Some r.2.
End Hash.

Definition sha3_256_absorb : sha3_t -> list Z -> option sha3_t := sha3_absorb 256.
Definition sha3_256_finalize : sha3_t -> option sha3_t := sha3_finalize 256.
Definition sha3_256_digest : sha3_t -> list Z -> option (sha3_t * list Z) := sha3_digest 256.
Definition sha3_256_hash : list Z -> option (list Z) := sha3_hash 256.
Definition sha3_512_absorb : sha3_t -> list Z -> option sha3_t := sha3_absorb 512.
Definition sha3_512_finalize : sha3_t -> option sha3_t := sha3_finalize 512.
Definition sha3_512_digest : sha3_t -> list Z -> option (sha3_t * list Z) := sha3_digest 512.
Definition sha3_512_hash : list Z -> option (list Z) := sha3_hash 512.

(** * What a hash object computes

    An object that took in [M], in whatever pieces, and was finalized gives
    out the stream of the sponge after [M], in whatever pieces; calls in the
    wrong phase change nothing. *)

(** Keccak-p[1600, n] *)
Definition perm (n : Z) (A : list Z) : list Z := keccak_p (drop (Z.to_nat (24 - n)) RC) A.

Definition zeros : list Z := replicate 25 0.

Lemma state_zeroed (l : list Z) : length l = 25%nat -> map (fun _ => 0) l = zeros.
Proof. unfold zeros. intros <-. induction l as [|x l IH]; [done|]. cbn [map length replicate]. by rewrite IH. Qed.

Lemma perm_runs n A : n = 12 \/ n = 24 -> length A = 25%nat -> permute n A = Some (perm n A) /\ length (perm n A) = 25%nat.
Proof. intros Hn HA. split; [by apply permute_spec|by apply keccak_p_length]. Qed.

Section Phases.
Context (rw n : Z).
Hypothesis Hrw : 0 < rw <= 25.
Hypothesis Hn : n = 12 \/ n = 24.

Let rate : Z := 8 * rw.
Let P : list Z -> list Z := perm n.

Lemma HP : forall A, length A = 25%nat -> permute n A = Some (P A) /\ length (P A) = 25%nat.
Proof. intros A. by apply perm_runs. Qed.

Lemma HPl : forall A, length A = 25%nat -> length (P A) = 25%nat.
Proof. intros A HA. by apply HP. Qed.

(** ** The sponge as the code calls it *)

Definition sponge_after (M : list Z) : list Z * Z := absorb_bytes rate P (zeros, 0) M.

Lemma sponge_after_ok M : length (sponge_after M).1 = 25%nat /\ 0 <= (sponge_after M).2 < rate.
Proof.
  split; [apply absorb_bytes_length; [exact HPl|done]|]. unfold sponge_after. rewrite absorb_bytes_offset by (unfold rate; lia). apply Z.mod_pos_bound. unfold rate. lia.
Qed.

Lemma absorb_more M msg : bytes_ok msg -> absorb (8 * rate) n (sponge_after M).1 (sponge_after M).2 msg = Some (sponge_after (M ++ msg)).
Proof.
  intros Hb. pose proof (sponge_after_ok M) as [H1 H2]. unfold rate in *. rewrite (absorb_runs rw n P Hrw HP) by done.
  rewrite <- surjective_pairing. unfold sponge_after. by rewrite absorb_bytes_app.
Qed.

Lemma squeeze_after A k out : length A = 25%nat -> 0 <= k ->
  squeeze (8 * rate) n (after rate P A k).1 (after rate P A k).2 out = Some (after rate P A (k + Z.of_nat (length out)), stream_bytes rate P A k (length out)).
Proof.
  intros HA Hk. assert (Hr : 0 < rate) by (unfold rate; lia). pose proof (Z.mod_pos_bound k rate Hr).
  assert (H1 : length (after rate P A k).1 = 25%nat) by (unfold after; cbn [fst]; by apply iter_length, HA; apply HPl).
  unfold rate in *. rewrite (squeeze_runs rw n P Hrw HP) by (done || (unfold after; cbn [snd]; lia)). rewrite <- surjective_pairing. by rewrite squeeze_bytes_stream.
Qed.

(** ** Extendable output *)

Definition absorbing (M : list Z) : xof_t := {| xof_state := (sponge_after M).1; xof_offset := (sponge_after M).2; xof_finalized := false; xof_squeezable := 0 |}.

(** Finalized in state [A], and [k] bytes were squeezed *)
Definition squeezing (A : list Z) (k : Z) : xof_t :=
  {| xof_state := (after rate P A k).1; xof_offset := 0; xof_finalized := true; xof_squeezable := (after rate P A k).2 |}.

Lemma new_absorbing : xof_new = absorbing [].
Proof. done. Qed.

Lemma xof_absorb_spec M msg : bytes_ok msg -> xof_absorb (8 * rate) n (absorbing M) msg = Some (absorbing (M ++ msg)).
Proof. intros Hb. unfold xof_absorb, absorbing. cbn [xof_finalized negb xof_state xof_offset]. by rewrite absorb_more. Qed.

Lemma xof_squeeze_spec A k out : length A = 25%nat -> 0 <= k ->
  xof_squeeze (8 * rate) n (squeezing A k) out = Some (squeezing A (k + Z.of_nat (length out)), stream_bytes rate P A k (length out)).
Proof. intros HA Hk. unfold xof_squeeze, squeezing. cbn [xof_finalized xof_state xof_squeezable xof_offset]. by rewrite squeeze_after. Qed.

Lemma xof_late_absorb A k msg : xof_absorb (8 * rate) n (squeezing A k) msg = Some (squeezing A k).
Proof. done. Qed.

Lemma xof_late_finalize A k d b : xof_finalize (8 * rate) n d b (squeezing A k) = Some (squeezing A k).
Proof. done. Qed.

Lemma xof_early_squeeze M out : xof_squeeze (8 * rate) n (absorbing M) out = Some (absorbing M, out).
Proof. done. Qed.

Lemma xof_reset_spec x : length (xof_state x) = 25%nat -> xof_reset x = absorbing [].
Proof. intros H. unfold xof_reset. by rewrite (state_zeroed _ H). Qed.

(** ** With the domain bits *)

Context (dom bw : Z).
Hypothesis Hbw : 0 <= bw <= 6.

Let pb : Z := 2 ^ bw + dom mod 2 ^ bw.

Lemma finalize_after M : finalize dom bw (8 * rate) n (sponge_after M).1 (sponge_after M).2 = Some (sponge_state rate P pb M, 0).
Proof.
  pose proof (sponge_after_ok M) as [H1 H2]. unfold rate in *. rewrite (finalize_runs rw n P Hrw HP) by done. do 2 f_equal.
  rewrite sponge_state_spec by (unfold rate; lia). done.
Qed.

Lemma sponge_state_length M : length (sponge_state rate P pb M) = 25%nat.
Proof. rewrite sponge_state_spec by (unfold rate; lia). apply HPl. rewrite !xor_byte_length. apply sponge_after_ok. Qed.

Lemma xof_finalize_spec M : xof_finalize (8 * rate) n dom bw (absorbing M) = Some (squeezing (sponge_state rate P pb M) 0).
Proof.
  unfold xof_finalize, absorbing. cbn [xof_finalized negb xof_state xof_offset]. rewrite finalize_after. cbn [mbind option_bind fst snd].
  unfold squeezing. rewrite after_0 by (unfold rate; lia). rewrite (Z.mul_comm 8 rate), Z.div_mul by done. done.
Qed.

(** A whole use of an object *)
Definition xof_use (msgs : list (list Z)) (outs : list (list Z)) : option (list (list Z)) :=
  x ← foldm (fun m x => xof_absorb (8 * rate) n x m) msgs xof_new;
  x ← xof_finalize (8 * rate) n dom bw x;
  r ← foldm (fun out r => q ← xof_squeeze (8 * rate) n r.1 out; Some (q.1, r.2 ++ [q.2])) outs (x, []);
  Some r.2.

Lemma absorb_pieces M msgs : Forall bytes_ok msgs -> foldm (fun m x => xof_absorb (8 * rate) n x m) msgs (absorbing M) = Some (absorbing (M ++ concat msgs)).
Proof.
  intros H. revert M. induction H as [|m msgs Hm H IH]; intros M; [cbn; by rewrite app_nil_r|]. cbn [foldm concat]. rewrite xof_absorb_spec by done. cbn [mbind option_bind].
  by rewrite IH, app_assoc.
Qed.

Lemma squeeze_pieces A outs : length A = 25%nat -> forall k acc, 0 <= k -> exists k' parts,
  foldm (fun out r => q ← xof_squeeze (8 * rate) n r.1 out; Some (q.1, r.2 ++ [q.2])) outs (squeezing A k, acc) = Some (squeezing A k', acc ++ parts) /\
  concat parts = stream_bytes rate P A k (length (concat outs)) /\ map length parts = map length outs.
Proof.
  intros HA. induction outs as [|out outs IH]; intros k acc Hk; [exists k, []; by rewrite app_nil_r|]. cbn [foldm fst snd]. rewrite xof_squeeze_spec by done. cbn [mbind option_bind fst snd].
  destruct (IH (k + Z.of_nat (length out)) (acc ++ [stream_bytes rate P A k (length out)]) ltac:(lia)) as (k' & parts & E & Hc & Hl).
  exists k', (stream_bytes rate P A k (length out) :: parts). rewrite E. split_and!; [by rewrite <- app_assoc| |].
  - cbn [concat]. by rewrite Hc, length_app, stream_bytes_app.
  - cbn [map]. by rewrite stream_bytes_length, Hl.
Qed.

(** The pieces put together are the stream of the whole message. *)
Lemma xof_use_spec msgs outs : Forall bytes_ok msgs -> exists parts, xof_use msgs outs = Some parts /\ map length parts = map length outs /\
  concat parts = stream_bytes rate P (sponge_state rate P pb (concat msgs)) 0 (length (concat outs)).
Proof.
  intros Hm. unfold xof_use. rewrite new_absorbing, absorb_pieces by done. cbn [mbind option_bind app]. rewrite xof_finalize_spec. cbn [mbind option_bind].
  destruct (squeeze_pieces _ outs (sponge_state_length (concat msgs)) 0 [] ltac:(lia)) as (k' & parts & E & Hc & Hl). exists parts. rewrite E. done.
Qed.
End Phases.

(** ** Hash functions *)

Section Sha3.
Context (bits : Z).
Hypothesis Hbits : bits = 256 \/ bits = 512.

Let rate : Z := 200 - bits / 4.

(** The digest of [M]: the first bytes of the stream after [M] with the domain bits 01 *)
Definition sha3 (M : list Z) : list Z := stream_bytes rate (perm 24) (sponge_state rate (perm 24) 6 M) 0 (Z.to_nat (bits / 8)).

Definition hashing (M : list Z) : sha3_t :=
  let st := absorb_bytes rate (perm 24) (zeros, 0) M in {| sha_state := st.1; sha_offset := st.2; sha_finalized := false; sha_squeezed := false |}.

Definition hashed (M : list Z) : sha3_t :=
  {| sha_state := sponge_state rate (perm 24) 6 M; sha_offset := 0; sha_finalized := true; sha_squeezed := false |}.

Lemma sha3_rate : exists rw, 0 < rw <= 25 /\ rate = 8 * rw /\ sha3_RATE bits = 8 * (8 * rw).
Proof. destruct Hbits as [-> | ->]; [exists 17|exists 9]; done. Qed.

Lemma sha3_length M : Z.of_nat (length (sha3 M)) = bits / 8.
Proof. unfold sha3. rewrite stream_bytes_length. destruct Hbits as [-> | ->]; done. Qed.

Lemma sha3_bytes M : bytes_ok (sha3 M).
Proof. apply stream_bytes_ok. Qed.

Lemma sha3_absorb_spec M msg : bytes_ok msg -> sha3_absorb bits (hashing M) msg = Some (hashing (M ++ msg)).
Proof.
  intros Hb. destruct sha3_rate as (rw & Hrw & Er & ER). unfold sha3_absorb, hashing. cbn [sha_finalized negb sha_state sha_offset sha_squeezed]. rewrite ER, Er.
  change MAX_NUM_ROUNDS with 24. pose proof (absorb_more rw 24 Hrw ltac:(by right) M msg Hb) as E. unfold sponge_after in E. by rewrite E.
Qed.

Lemma sha3_finalize_spec M : sha3_finalize bits (hashing M) = Some (hashed M).
Proof.
  destruct sha3_rate as (rw & Hrw & Er & ER). unfold sha3_finalize, hashing, hashed. cbn [sha_finalized negb sha_state sha_offset sha_squeezed]. rewrite ER, Er.
  change MAX_NUM_ROUNDS with 24. change (bit_width sha3_DOM_SEP) with 2. pose proof (finalize_after rw 24 Hrw ltac:(by right) sha3_DOM_SEP 2 ltac:(lia) M) as E. unfold sponge_after in E. rewrite E. done.
Qed.

Lemma sha3_digest_spec M md : Z.of_nat (length md) = bits / 8 -> exists h, sha3_digest bits (hashed M) md = Some (h, sha3 M) /\ sha_squeezed h = true /\ length (sha_state h) = 25%nat.
Proof.
  intros Hl. destruct sha3_rate as (rw & Hrw & Er & ER). unfold sha3_digest, hashed. cbn [sha_finalized negb sha_state sha_offset sha_squeezed andb]. rewrite ER.
  change MAX_NUM_ROUNDS with 24. rewrite (Z.mul_comm 8 (8 * rw)), Z.div_mul, (Z.mul_comm (8 * rw) 8), Er by done.
  assert (HA : length (sponge_state (8 * rw) (perm 24) 6 M) = 25%nat) by exact (sponge_state_length rw 24 Hrw ltac:(by right) sha3_DOM_SEP 2 ltac:(lia) M).
  pose proof (squeeze_after rw 24 Hrw ltac:(by right) (sponge_state (8 * rw) (perm 24) 6 M) 0 md HA ltac:(lia)) as E.
  rewrite after_0 in E by lia. cbn [fst snd] in E. rewrite E. cbn [mbind option_bind fst snd]. eexists. split; [|split].
  - do 2 f_equal. unfold sha3. rewrite Er. f_equal. lia.
  - done.
  - cbn [sha_state]. unfold after. cbn [fst]. apply iter_length; [|done]. intros A HA'. by apply keccak_p_length.
Qed.

Lemma sha3_hash_spec msg : bytes_ok msg -> sha3_hash bits msg = Some (sha3 msg).
Proof.
  intros Hb. unfold sha3_hash. change sha3_new with (hashing []). rewrite sha3_absorb_spec by done. cbn [mbind option_bind app]. rewrite sha3_finalize_spec. cbn [mbind option_bind].
  destruct (sha3_digest_spec msg (replicate (Z.to_nat (sha3_DIGEST_LEN bits)) 0)) as (h & E & _); [unfold sha3_DIGEST_LEN; rewrite length_replicate; destruct Hbits as [-> | ->]; done|].
  by rewrite E.
Qed.
End Sha3.
