(* ===== verification/RandomShake.v ===== *)
(** * The random number generator: tools/ml_kem_512_single.hpp, namespace randomshake

    A generator keeps one block of 1088 bytes of its extendable output
    function and hands them out; when they are used up it wipes the first 32
    bytes of the Keccak state, permutes, and squeezes the next block.  The
    theorems say that all calls read one stream that depends on the seed only,
    wherever the calls are cut, and when a draw leaves the buffer. *)

From Stdlib Require Import Lia String.
From stdpp Require Import base tactics list numbers option.
From S2P Require Import Prelude QrArray MlField MlBits Keccak Sponge SpongeSpec Xof.
Local Open Scope Z_scope.

(** ** The generator *)

Inductive xof_kind_t := SHAKE256 | TURBOSHAKE256.

Section Selector.
Context (kind : xof_kind_t).

Definition selected_rate : Z := match kind with SHAKE256 => shake256_RATE | TURBOSHAKE256 => turboshake256_RATE end.
Definition seed_byte_len : Z := selected_rate / 8.
Definition ratchet_period_byte_len : Z := match kind with SHAKE256 => shake256_RATE | TURBOSHAKE256 => turboshake256_RATE end.
Definition ratchet_byte_len : Z := 256 / 8.

Definition selected_absorb (x : xof_t) (msg : list Z) : option xof_t :=
  match kind with SHAKE256 => shake256_absorb x msg | TURBOSHAKE256 => turboshake256_absorb x msg end.
Definition selected_finalize (x : xof_t) : option xof_t :=
  match kind with SHAKE256 => shake256_finalize x | TURBOSHAKE256 => turboshake256_finalize 0x1f x end.
Definition selected_squeeze (x : xof_t) (out : list Z) : option (xof_t * list Z) :=
  match kind with SHAKE256 => shake256_squeeze x out | TURBOSHAKE256 => turboshake256_squeeze x out end.
Definition selected_ratchet (x : xof_t) (byte_len : Z) : option xof_t :=
  match kind with SHAKE256 => shake256_ratchet x byte_len | TURBOSHAKE256 => turboshake256_ratchet x byte_len end.

Record randomshake_t := { rs_state : xof_t; rs_buffer : list Z; rs_buffer_offset : Z }.

(** The constructor from a seed *)
Definition randomshake_seeded (seed : list Z) : option randomshake_t :=
  if negb (Z.of_nat (length seed) =? seed_byte_len) then None else
  let state := xof_reset xof_new in
  state ← selected_absorb state seed;
  state ← selected_finalize state;
  r ← selected_squeeze state (replicate (Z.to_nat ratchet_period_byte_len) 0);
  Some {| rs_state := r.1; rs_buffer := r.2; rs_buffer_offset := 0 |}.

Definition le_value (bs : list Z) : Z := foldr (fun b v => b + 256 * v) 0 bs.
Definition le_bytes_32 (v : Z) : list Z := [u8 v; u8 (Z.shiftr v 8); u8 (Z.shiftr v 16); u8 (Z.shiftr v 24)].

Definition entropy_warning : string :=
  "[RANDOMSHAKE WARNING] Non-deterministic seed generator has zero entropy ! Read https://en.cppreference.com/w/cpp/numeric/random/random_device/entropy for more insight.
".

(** The default constructor; [rd] gives the values of the [std::random_device] in turn.  The first component is what it prints. *)
Definition randomshake_default (zero_entropy : bool) (rd : nat -> Z) : option (list string * randomshake_t) :=
  let step_by := 4 in
  st ← foldm (fun seed_offset st =>
    let '(seed, n) := st in
    seed ← wrs seed seed_offset (le_bytes_32 (rd n));
    Some (seed, S n)) (zsteps 0 seed_byte_len step_by) (replicate (Z.to_nat seed_byte_len) 0, 0%nat);
  g ← randomshake_seeded st.1;
  Some (if zero_entropy then [entropy_warning] else [], g).

Definition randomshake_destroy (g : randomshake_t) : randomshake_t :=
  {| rs_state := xof_reset (rs_state g); rs_buffer := map (fun _ => 0) (rs_buffer g); rs_buffer_offset := 0 |}.

(** Ratchet and refill *)
Definition refill (g : randomshake_t) : option randomshake_t :=
  state ← selected_ratchet (rs_state g) ratchet_byte_len;
  r ← selected_squeeze state (rs_buffer g);
  Some {| rs_state := r.1; rs_buffer := r.2; rs_buffer_offset := 0 |}.

(** [operator()] for a result type of [required_num_bytes] bytes; a read past the buffer is undefined behaviour. *)
Definition draw (required_num_bytes : Z) (g : randomshake_t) : option (randomshake_t * Z) :=
  let readble_num_bytes := Z.of_nat (length (rs_buffer g)) - rs_buffer_offset g in
  if negb (ratchet_period_byte_len mod required_num_bytes =? 0) then None else
  g ← (if readble_num_bytes =? 0 then refill g else Some g);
  src ← subspan (rs_buffer g) (rs_buffer_offset g) required_num_bytes;
  Some ({| rs_state := rs_state g; rs_buffer := rs_buffer g; rs_buffer_offset := rs_buffer_offset g + required_num_bytes |}, le_value src).

(** The loop of [generate]; its state is the object, the output and [out_offset]. *)
Fixpoint generate_loop (fuel : nat) (g : randomshake_t) (output : list Z) (out_offset : Z) : option (randomshake_t * list Z) :=
  if out_offset <? Z.of_nat (length output) then
    match fuel with
    | O => None
    | S fuel =>
      let readable_num_bytes := Z.of_nat (length (rs_buffer g)) - rs_buffer_offset g in
      let required_num_bytes := Z.of_nat (length output) - out_offset in
      let copyable_num_bytes := Z.min readable_num_bytes required_num_bytes in
      src ← subspan (rs_buffer g) (rs_buffer_offset g) copyable_num_bytes;
      output ← wrs output out_offset src;
      let g := {| rs_state := rs_state g; rs_buffer := rs_buffer g; rs_buffer_offset := rs_buffer_offset g + copyable_num_bytes |} in
      let out_offset := out_offset + copyable_num_bytes in
      g ← (if rs_buffer_offset g =? Z.of_nat (length (rs_buffer g)) then refill g else Some g);
      generate_loop fuel g output out_offset
    end
  else Some (g, output).

(** Only the first round can copy nothing. *)
Definition generate (g : randomshake_t) (output : list Z) : option (randomshake_t * list Z) := generate_loop (S (length output)) g output 0.
End Selector.

(** [zq_t::random] *)
Definition zq_random (csprng : randomshake_t) : option (randomshake_t * Z) :=
  q ← generate TURBOSHAKE256 csprng [0; 0];
  Some (q.1, from_non_reduced (u32 (le_value q.2))).

(** ** The stream *)

(** The state with its first [len] bytes zero *)
Definition wiped (len : nat) (A : list Z) : list Z := map word_of (groups 8 25 (replicate len 0 ++ drop len (state_as_bytes A))).

Lemma state_as_bytes_length A : length (state_as_bytes A) = (8 * length A)%nat.
Proof. unfold state_as_bytes. induction A as [|w A IH]; [done|]. cbn [map concat length]. rewrite length_app, IH. cbn [u64_to_le_bytes length]. lia. Qed.

Lemma word_bytes_back bs : length bs = 8%nat -> bytes_ok bs -> u64_to_le_bytes (word_of bs) = bs.
Proof.
  intros Hl Hb. rewrite <- (bytes_u8 bs Hb) at 2. destruct (list_of_8 bs Hl) as (b0 & b1 & b2 & b3 & b4 & b5 & b6 & b7 & ->). rewrite le_word_xor by done.
  pose proof (bytes_u8 _ Hb) as E. injection E as E0 E1 E2 E3 E4 E5 E6 E7. rewrite <- E0, <- E1, <- E2, <- E3, <- E4, <- E5, <- E6, <- E7. clear.
  unfold u64_to_le_bytes. cbn [map]. repeat apply (f_equal2 (@cons Z)); try reflexivity; (apply (le_bits_inj 8); [by apply Z.mod_pos_bound|by apply Z.mod_pos_bound|]);
    cbv [le_bits seq map Z.of_nat Pos.of_succ_nat Pos.succ]; repeat apply (f_equal2 (@cons bool)); try reflexivity; one_bit.
Qed.

Lemma groups_of_bytes k bs : length bs = (8 * k)%nat -> bytes_ok bs -> mapM le_bytes_to_u64 (groups 8 k bs) = Some (map word_of (groups 8 k bs)).
Proof.
  revert bs. induction k as [|k IH]; intros bs Hl Hb; [done|]. cbn [groups map]. destruct (split_at 8 bs) as (w & r & -> & Hw); [lia|]. rewrite length_app in Hl. apply Forall_app in Hb as [Hb1 Hb2].
  rewrite (take_app_length' w), (drop_app_length' w) by done. cbn [mapM]. rewrite le_bytes_total by done. cbn [mbind option_bind]. rewrite IH by (done || lia). done.
Qed.

Lemma groups_bytes_back k bs : length bs = (8 * k)%nat -> bytes_ok bs -> state_as_bytes (map word_of (groups 8 k bs)) = bs.
Proof.
  revert bs. induction k as [|k IH]; intros bs Hl Hb; [destruct bs; [done|cbn in Hl; lia]|]. cbn [groups map]. destruct (split_at 8 bs) as (w & r & -> & Hw); [lia|]. rewrite length_app in Hl. apply Forall_app in Hb as [Hb1 Hb2].
  rewrite (take_app_length' w), (drop_app_length' w) by done. unfold state_as_bytes in *. cbn [map concat]. rewrite word_bytes_back by done. f_equal. apply IH; [lia|done].
Qed.

Lemma state_as_bytes_ok A : bytes_ok (state_as_bytes A).
Proof. unfold state_as_bytes. induction A as [|w A IH]; [constructor|]. cbn [map concat]. apply Forall_app. split; [|done]. repeat constructor; by apply Z.mod_pos_bound. Qed.

Section Wipe.
Context (len : nat) (A : list Z).
Hypothesis Hlen : (len <= 200)%nat.
Hypothesis HA : length A = 25%nat.

Lemma wiped_input : length (replicate len 0 ++ drop len (state_as_bytes A)) = 200%nat /\ bytes_ok (replicate len 0 ++ drop len (state_as_bytes A)).
Proof.
  split; [rewrite length_app, length_replicate, length_drop, state_as_bytes_length, HA; lia|]. apply Forall_app. split; [by apply Forall_replicate|]. apply Forall_drop, state_as_bytes_ok.
Qed.

(** The first bytes are zero and the others stay. *)
Lemma wiped_bytes : state_as_bytes (wiped len A) = replicate len 0 ++ drop len (state_as_bytes A).
Proof. destruct wiped_input. by apply groups_bytes_back. Qed.

Lemma groups_count n k (l : list Z) : length (groups n k l) = k.
Proof. revert l. induction k as [|k IH]; intros l; [done|]. cbn. by rewrite IH. Qed.

Lemma wiped_length : length (wiped len A) = 25%nat.
Proof. unfold wiped. by rewrite length_map, groups_count. Qed.

Lemma wipe_runs : (bs ← wrs (state_as_bytes A) 0 (replicate len 0); bytes_as_state bs) = Some (wiped len A).
Proof.
  destruct wiped_input as [Hl Hb]. pose proof (wrs_mid [] (take len (state_as_bytes A)) (drop len (state_as_bytes A)) 0 (replicate len 0) eq_refl) as E.
  cbn [app] in E. rewrite take_drop in E. rewrite E by (rewrite length_replicate, length_take, state_as_bytes_length, HA; lia). cbn [mbind option_bind].
  by apply groups_of_bytes.
Qed.
End Wipe.

Section Randomness.
Context (kind : xof_kind_t).

Definition rounds : Z := match kind with SHAKE256 => 24 | TURBOSHAKE256 => 12 end.

Let P : list Z -> list Z := perm rounds.
Let rate : Z := 8 * 17.

Lemma rounds_ok : rounds = 12 \/ rounds = 24.
Proof. unfold rounds. destruct kind; auto. Qed.

(** The state that block [i] is squeezed from; 31 is the padding of both functions. *)
Fixpoint gen_state (seed : list Z) (i : nat) : list Z :=
  match i with
  | O => sponge_state rate P 31 seed
  | S i => P (wiped 32 (Nat.iter 8 P (gen_state seed i)))
  end.

(** The stream of a seed *)
Definition random (seed : list Z) (pos : Z) : Z := stream rate P (gen_state seed (Z.to_nat (pos / 1088))) (pos mod 1088).

Definition random_bytes (seed : list Z) (pos : Z) (n : nat) : list Z := map (fun i => random seed (pos + Z.of_nat i)) (seq 0 n).

(** The generator stands at [o] in block [i]. *)
Definition at_block (seed : list Z) (i : nat) (o : Z) : randomshake_t :=
  {| rs_state := squeezing 17 rounds (gen_state seed i) 1088; rs_buffer := stream_bytes rate P (gen_state seed i) 0 1088; rs_buffer_offset := o |}.

Definition at_pos (seed : list Z) (pos : Z) (g : randomshake_t) : Prop := exists i o, 0 <= o <= 1088 /\ pos = 1088 * Z.of_nat i + o /\ g = at_block seed i o.

Lemma gen_state_length seed i : length (gen_state seed i) = 25%nat.
Proof.
  pose proof rounds_ok as Hr. destruct i as [|i].
  - exact (sponge_state_length 17 rounds ltac:(done) Hr 15 4 ltac:(done) seed).
  - apply (perm_runs rounds _ Hr), wiped_length.
Qed.

Lemma squeeze_buffer A buf : length A = 25%nat -> length buf = 1088%nat ->
  selected_squeeze kind (squeezing 17 rounds A 0) buf = Some (squeezing 17 rounds A 1088, stream_bytes rate P A 0 1088).
Proof.
  intros HA Hb. pose proof (xof_squeeze_spec 17 rounds ltac:(done) rounds_ok A 0 buf HA ltac:(done)) as E. rewrite Hb in E.
  unfold selected_squeeze, shake256_squeeze, turboshake256_squeeze, P, rounds in *. destruct kind; exact E.
Qed.

Lemma seeded_runs seed : length seed = 136%nat -> bytes_ok seed -> randomshake_seeded kind seed = Some (at_block seed 0 0).
Proof.
  intros Hl Hb. unfold randomshake_seeded. rewrite Hl. replace (Z.of_nat 136 =? seed_byte_len kind) with true by (by destruct kind). cbn [negb].
  assert (E1 : selected_absorb kind (xof_reset xof_new) seed = Some (absorbing 17 rounds seed)).
  { pose proof (xof_absorb_spec 17 rounds ltac:(done) rounds_ok [] seed Hb) as E. unfold selected_absorb, rounds in *. destruct kind; exact E. }
  assert (E2 : selected_finalize kind (absorbing 17 rounds seed) = Some (squeezing 17 rounds (gen_state seed 0) 0)).
  { pose proof (xof_finalize_spec 17 rounds ltac:(done) rounds_ok 15 4 ltac:(done) seed) as E15. pose proof (xof_finalize_spec 17 rounds ltac:(done) rounds_ok 31 4 ltac:(done) seed) as E31.
    cbn [gen_state]. unfold selected_finalize, P, rounds in *. destruct kind; [exact E15|exact E31]. }
  rewrite E1. cbn [mbind option_bind]. rewrite E2. cbn [mbind option_bind]. rewrite squeeze_buffer; [done|apply gen_state_length|].
  rewrite length_replicate. by destruct kind.
Qed.

Lemma after_block A : after rate P A 1088 = (Nat.iter 8 P A, rate).
Proof. done. Qed.

Lemma ratchet_runs A : length A = 25%nat -> selected_ratchet kind (squeezing 17 rounds A 1088) ratchet_byte_len = Some (squeezing 17 rounds (P (wiped 32 (Nat.iter 8 P A))) 0).
Proof.
  intros HA. assert (HA8 : length (Nat.iter 8 P A) = 25%nat) by (apply iter_length; [|done]; intros B HB; by apply (perm_runs rounds _ rounds_ok)).
  assert (E : xof_ratchet rounds (squeezing 17 rounds A 1088) ratchet_byte_len = Some (squeezing 17 rounds (P (wiped 32 (Nat.iter 8 P A))) 0)).
  { unfold xof_ratchet, squeezing. fold rate. fold P. rewrite after_block, after_0 by done. cbn [xof_finalized xof_state xof_squeezable xof_offset fst snd].
    change (Z.to_nat (Z.min ratchet_byte_len STATE_BYTE_LEN)) with 32%nat. pose proof (wipe_runs 32 _ ltac:(lia) HA8) as Ew.
    destruct (wrs (state_as_bytes (Nat.iter 8 P A)) 0 (replicate 32 0)) as [bs|]; [|discriminate]. cbn [mbind option_bind] in Ew |- *. rewrite Ew. cbn [mbind option_bind].
    destruct (perm_runs rounds (wiped 32 (Nat.iter 8 P A)) rounds_ok (wiped_length _ _)) as [Ep _]. rewrite Ep. done. }
  unfold selected_ratchet, shake256_ratchet, turboshake256_ratchet, rounds in *. destruct kind; exact E.
Qed.

Lemma refill_runs seed i o : refill kind (at_block seed i o) = Some (at_block seed (S i) 0).
Proof.
  unfold refill, at_block. cbn [rs_state rs_buffer]. rewrite ratchet_runs by apply gen_state_length. cbn [mbind option_bind].
  change (P (wiped 32 (Nat.iter 8 P (gen_state seed i)))) with (gen_state seed (S i)). by rewrite squeeze_buffer by (apply gen_state_length || apply stream_bytes_length).
Qed.

Lemma block_read seed i o n : 0 <= o -> 0 <= n -> o + n <= 1088 ->
  subspan (stream_bytes rate P (gen_state seed i) 0 1088) o n = Some (random_bytes seed (1088 * Z.of_nat i + o) (Z.to_nat n)).
Proof.
  intros Ho Hn Hend. replace 1088%nat with (Z.to_nat o + (Z.to_nat n + Z.to_nat (1088 - o - n)))%nat by lia. rewrite !stream_bytes_app.
  rewrite subspan_mid by (rewrite stream_bytes_length; lia). f_equal. unfold stream_bytes, random_bytes. apply map_ext_in. intros k Hk%in_seq. unfold random.
  replace (1088 * Z.of_nat i + o + Z.of_nat k) with (o + Z.of_nat k + Z.of_nat i * 1088) by lia. rewrite Z.mod_add, Z.div_add, Z.div_small, Z.mod_small by lia.
  rewrite !Z.add_0_l, Nat2Z.id. f_equal. lia.
Qed.

Lemma random_bytes_length seed pos n : length (random_bytes seed pos n) = n.
Proof. unfold random_bytes. by rewrite length_map, length_seq. Qed.

Lemma random_bytes_app seed pos n m : random_bytes seed pos (n + m) = random_bytes seed pos n ++ random_bytes seed (pos + Z.of_nat n) m.
Proof.
  unfold random_bytes. rewrite seq_app, map_app. f_equal. cbn [Nat.add]. pose proof (fmap_add_seq n 0 m) as E. rewrite Nat.add_0_r in E. rewrite <- E.
  change (Nat.add n <$> seq 0 m) with (map (Nat.add n) (seq 0 m)). rewrite map_map. apply map_ext. intros i. f_equal. lia.
Qed.

(** A draw of an aligned generator is the next bytes of the stream. *)
Lemma draw_runs seed pos g s : at_pos seed pos g -> 0 < s -> 1088 mod s = 0 -> pos mod s = 0 ->
  exists g', draw kind s g = Some (g', le_value (random_bytes seed pos (Z.to_nat s))) /\ at_pos seed (pos + s) g'.
Proof.
  intros (i & o & Ho & -> & ->) Hs Hd Hp. assert (Hds : 1088 = s * (1088 / s)) by (rewrite (Z.div_mod 1088 s) at 1 by lia; lia).
  unfold draw. assert (Er : ratchet_period_byte_len kind = 1088) by (by destruct kind). rewrite Er, Hd. cbn [Z.eqb negb rs_buffer rs_buffer_offset at_block].
  rewrite stream_bytes_length. destruct (Z.eqb_spec (Z.of_nat 1088 - o) 0) as [E|E].
  - rewrite refill_runs. cbn [mbind option_bind rs_buffer rs_buffer_offset at_block rs_state]. assert (s <= 1088) by (apply Z.divide_pos_le; [lia|exists (1088 / s); lia]). rewrite block_read by lia.
    cbn [mbind option_bind]. eexists. split; [|exists (S i), s; split; [lia|split; [lia|done]]]. do 4 f_equal. lia.
  - cbn [mbind option_bind rs_buffer rs_buffer_offset at_block rs_state]. assert (Hos : o + s <= 1088).
    { assert (Ho2 : o mod s = 0). { rewrite <- (Z.mod_add o (1088 / s * Z.of_nat i)) by lia. rewrite <- Hp. f_equal. remember (1088 / s) as q. replace (q * Z.of_nat i * s) with (s * q * Z.of_nat i) by ring. rewrite <- Hds. ring. }
      apply Z.div_exact in Ho2; [|lia]. assert (o / s < 1088 / s) by nia. nia. }
    rewrite block_read by lia. cbn [mbind option_bind]. eexists. split; [done|]. exists i, (o + s). split; [lia|split; [lia|done]].
Qed.

(** One that stands too near to the end of its block reads past the buffer. *)
Lemma draw_overruns seed i o s : 0 <= o < 1088 -> 1088 < o + s -> draw kind s (at_block seed i o) = None.
Proof.
  intros Ho Hs. unfold draw. destruct (negb _); [done|]. cbn [rs_buffer rs_buffer_offset at_block]. rewrite stream_bytes_length. rewrite (proj2 (Z.eqb_neq (Z.of_nat 1088 - o) 0)) by lia.
  cbn [mbind option_bind rs_buffer rs_buffer_offset at_block]. unfold subspan. rewrite stream_bytes_length.
  rewrite (proj2 (Z.leb_gt (o + s) (Z.of_nat 1088))) by lia. by rewrite andb_false_r.
Qed.

Lemma generate_loop_runs seed fuel : forall i o done out, 0 <= o <= 1088 -> Z.of_nat (length out) + (if o =? 1088 then 1 else 0) <= Z.of_nat fuel ->
  exists g', generate_loop kind fuel (at_block seed i o) (done ++ out) (Z.of_nat (length done)) = Some (g', done ++ random_bytes seed (1088 * Z.of_nat i + o) (length out)) /\
    at_pos seed (1088 * Z.of_nat i + o + Z.of_nat (length out)) g'.
Proof.
  induction fuel as [|fuel IH]; intros i o dn out Ho Hf; cbn [generate_loop]; rewrite length_app.
  - destruct out; [|cbn in Hf; destruct (o =? 1088); lia]. rewrite app_nil_r, Nat.add_0_r, Z.ltb_irrefl. eexists. split; [by rewrite app_nil_r|]. exists i, o. split; [lia|split; [cbn; lia|done]].
  - destruct (Z.ltb_spec (Z.of_nat (length dn)) (Z.of_nat (length dn + length out))) as [Hlt|Hge].
    2:{ destruct out; [|cbn in Hge; lia]. eexists. split; [done|]. exists i, o. split; [lia|split; [cbn; lia|done]]. }
    cbn [rs_buffer rs_buffer_offset rs_state at_block]. rewrite stream_bytes_length. set (n := Z.min (Z.of_nat 1088 - o) (Z.of_nat (length dn + length out) - Z.of_nat (length dn))).
    assert (Hn : 0 <= n /\ n <= Z.of_nat (length out) /\ o + n <= 1088 /\ (n = 0 -> o = 1088) /\ (o + n < 1088 -> n = Z.of_nat (length out))) by lia. clearbody n.
    rewrite block_read by lia. cbn [mbind option_bind]. destruct (split_at (Z.to_nat n) out) as (o1 & o2 & -> & Ho1); [lia|]. rewrite length_app in *.
    rewrite wrs_mid by (rewrite ?random_bytes_length; lia). cbn [mbind option_bind].
    set (dn2 := dn ++ random_bytes seed (1088 * Z.of_nat i + o) (Z.to_nat n)). assert (Hl2 : Z.of_nat (length dn) + n = Z.of_nat (length dn2)) by (unfold dn2; rewrite length_app, random_bytes_length; lia).
    rewrite Hl2. rewrite app_assoc. fold dn2. change {| rs_state := _; rs_buffer := _; rs_buffer_offset := o + n |} with (at_block seed i (o + n)).
    rewrite Ho1, random_bytes_app, app_assoc, Z2Nat.id by lia. fold dn2.
    destruct (Z.eqb_spec (o + n) (Z.of_nat 1088)) as [E|E].
    + rewrite refill_runs. cbn [mbind option_bind]. destruct (IH (S i) 0 dn2 o2) as (g' & Eg & Hg); [lia|cbn [Z.eqb]; destruct (Z.eqb_spec o 1088); lia|].
      exists g'. replace (1088 * Z.of_nat i + o + n) with (1088 * Z.of_nat (S i) + 0) by lia. split; [exact Eg|]. by replace (1088 * Z.of_nat i + o + Z.of_nat (Z.to_nat n + length o2)) with (1088 * Z.of_nat (S i) + 0 + Z.of_nat (length o2)) by lia.
    + cbn [mbind option_bind]. destruct (IH i (o + n) dn2 o2) as (g' & Eg & Hg); [lia|rewrite (proj2 (Z.eqb_neq (o + n) 1088)) by lia; destruct (Z.eqb_spec o 1088); lia|].
      exists g'. replace (1088 * Z.of_nat i + o + n) with (1088 * Z.of_nat i + (o + n)) by lia. split; [exact Eg|]. by replace (1088 * Z.of_nat i + o + Z.of_nat (Z.to_nat n + length o2)) with (1088 * Z.of_nat i + (o + n) + Z.of_nat (length o2)) by lia.
Qed.

Lemma generate_runs seed pos g out : at_pos seed pos g ->
  exists g', generate kind g out = Some (g', random_bytes seed pos (length out)) /\ at_pos seed (pos + Z.of_nat (length out)) g'.
Proof. intros (i & o & Ho & -> & ->). apply (generate_loop_runs seed (S (length out)) i o [] out Ho). destruct (o =? 1088); lia. Qed.

(** A coefficient is two bytes of the stream, modulo [Q]. *)
Lemma two_bytes seed pos : is_u16 (le_value (random_bytes seed pos 2)).
Proof.
  assert (H : forall b, 0 <= random seed b < 256) by (intros b; unfold random, stream, state_byte; apply Z.mod_pos_bound; done).
  unfold random_bytes. cbn [seq map le_value foldr]. pose proof (H (pos + Z.of_nat 0)). pose proof (H (pos + Z.of_nat 1)). unfold is_u16. lia.
Qed.

(** The destructor leaves nothing of the state. *)
Lemma destroyed_blank seed pos g : at_pos seed pos g ->
  randomshake_destroy g = {| rs_state := xof_new; rs_buffer := replicate 1088 0; rs_buffer_offset := 0 |}.
Proof.
  intros (i & o & _ & _ & ->). unfold randomshake_destroy. cbn [rs_state rs_buffer at_block]. f_equal. apply (xof_reset_spec 17 rounds). cbn [squeezing xof_state]. unfold after. cbn [fst]. apply iter_length; [|apply gen_state_length]. intros A HA. by apply (perm_runs rounds _ rounds_ok).
Qed.
End Randomness.
