(* ===== verification/MlSample.v ===== *)
(** * Sampling: tools/ml_kem_512_single.hpp, [sample_ntt], [generate_matrix], [sample_poly_cbd], [generate_vector]

    The uniform sampler takes the first 256 candidates below [Q] of its output
    stream; it is run with a bound on the number of blocks it squeezes, and
    the theorems say that any bound that is enough gives the same polynomial.
    The binomial sampler adds bits in parallel inside a word; it is proved to
    be the definition of FIPS 203 on the bits of its input. *)

From Stdlib Require Import Lia Zmod.
From stdpp Require Import base tactics list numbers option.
From S2P Require Import Prelude QrArray MlField MlNtt MlRing MlCodec MlBits MlVector Keccak Sponge SpongeSpec.
From S2P Require Import Xof.
Local Open Scope Z_scope.

(** ** The operations *)

Definition check_eta (eta : Z) : bool := (eta =? 2) || (eta =? 3).

(** The body of the inner loop: the three bytes at [off] *)
Definition sample_step (buf : list Z) (off : Z) (st : list Z * Z) : option (list Z * Z) :=
  b0 ← rd buf (off + 0);
  b1 ← rd buf (off + 1);
  b2 ← rd buf (off + 2);
  let d1 := u16 (Z.lor (u16 (Z.shiftl (u16 (Z.land b1 0x0f)) 8)) b0) in
  let d2 := u16 (Z.lor (u16 (Z.shiftl b2 4)) (u16 (Z.shiftr b1 4))) in
  st ← (if d1 <? Q then poly ← wr st.1 st.2 (zq d1); Some (poly, st.2 + 1) else Some st);
  if (d2 <? Q) && (st.2 <? N) then poly ← wr st.1 st.2 (zq d2); Some (poly, st.2 + 1) else Some st.

Fixpoint sample_block (buf : list Z) (offs : list Z) (st : list Z * Z) : option (list Z * Z) :=
  match offs with
  | [] => Some st
  | off :: offs => if st.2 <? N then st ← sample_step buf off st; sample_block buf offs st else Some st
  end.

(** The loop over the blocks of the hasher; at most [fuel] are squeezed. *)
Fixpoint sample_loop (fuel : nat) (hasher : xof_t) (buf : list Z) (st : list Z * Z) : option (xof_t * list Z) :=
  if st.2 <? N then
    match fuel with
    | O => None
    | S fuel =>
      r ← shake128_squeeze hasher buf;
      st ← sample_block r.2 (zsteps 0 (Z.of_nat (length r.2)) 3) st;
      sample_loop fuel r.1 r.2 st
    end
  else Some (hasher, st.1).

Definition sample_ntt (fuel : nat) (hasher : xof_t) (poly : list Z) : option (xof_t * list Z) :=
  sample_loop fuel hasher (replicate (Z.to_nat (shake128_RATE / 8)) 0) (poly, 0).

(** The body of the inner loop of [generate_matrix] *)
Definition matrix_cell (fuel : nat) (k : Z) (transpose : bool) (i j : Z) (st : list Z * list Z) : option (list Z * list Z) :=
  let '(xof_in, mat) := st in
  let off := (i * k + j) * N in
  xof_in ← wr xof_in 32 (u8 (if transpose then i else j));
  xof_in ← wr xof_in 33 (u8 (if transpose then j else i));
  let hasher := xof_new in
  hasher ← shake128_absorb hasher xof_in;
  hasher ← shake128_finalize hasher;
  mat ← on_span mat off N (fun poly => snd <$> sample_ntt fuel hasher poly);
  Some (xof_in, mat).

Definition generate_matrix (fuel : nat) (k : Z) (transpose : bool) (mat rho : list Z) : option (list Z) :=
  if negb (check_k k) then None else
  xof_in ← wrs (replicate 34 0) 0 rho;
  st ← foldm (fun i st => foldm (matrix_cell fuel k transpose i) (zrange 0 k) st) (zrange 0 k) (xof_in, mat);
  Some st.2.

Definition cbd2 (bs : list Z) : list Z :=
  match bs with
  | [word] =>
    let mask8 := 0x55 in
    let mask2 := 3 in
    let t0 := u8 (Z.land (Z.shiftr word 0) mask8) in
    let t1 := u8 (Z.land (Z.shiftr word 1) mask8) in
    let t2 := u8 (t0 + t1) in
    let field sh := zq (Z.land (Z.shiftr t2 sh) mask2) in
    [zsub (field 0) (field 2); zsub (field 4) (field 6)]
  | _ => []
  end.

Definition cbd3 (bs : list Z) : list Z :=
  match bs with
  | [b0; b1; b2] =>
    let mask24 := 0x249249 in
    let mask3 := 7 in
    let word := Z.lor (Z.lor (u32 (Z.shiftl b2 16)) (u32 (Z.shiftl b1 8))) b0 in
    let t0 := Z.land (Z.shiftr word 0) mask24 in
    let t1 := Z.land (Z.shiftr word 1) mask24 in
    let t2 := Z.land (Z.shiftr word 2) mask24 in
    let t3 := u32 (t0 + t1 + t2) in
    let field sh := zq (Z.land (Z.shiftr t3 sh) mask3) in
    [zsub (field 0) (field 3); zsub (field 6) (field 9); zsub (field 12) (field 15); zsub (field 18) (field 21)]
  | _ => []
  end.

Definition sample_poly_cbd (eta : Z) (prf poly : list Z) : option (list Z) :=
  if negb (check_eta eta) then None
  else if eta =? 2 then group_loop cbd2 1 2 prf (64 * eta) poly
  else group_loop cbd3 3 4 prf 64 poly.

(** The body of the loop of [generate_vector] *)
Definition vector_cell (eta nonce : Z) (i : Z) (st : list Z * list Z * list Z) : option (list Z * list Z * list Z) :=
  let '(prf_in, prf_out, v) := st in
  let off := i * N in
  prf_in ← wr prf_in 32 (u8 (nonce + u8 i));
  let hasher := xof_new in
  hasher ← shake256_absorb hasher prf_in;
  hasher ← shake256_finalize hasher;
  r ← shake256_squeeze hasher prf_out;
  v ← on_span v off N (sample_poly_cbd eta r.2);
  Some (prf_in, r.2, v).

Definition generate_vector (k eta : Z) (v sigma : list Z) (nonce : Z) : option (list Z) :=
  if negb ((k =? 1) || check_k k) then None else
  let prf_out := replicate (Z.to_nat (64 * eta)) 0 in
  prf_in ← wrs (replicate 33 0) 0 sigma;
  st ← foldm (vector_cell eta nonce) (zrange 0 k) (prf_in, prf_out, v);
  Some st.2.

(** ** The uniform sampler *)

(** The two candidates of three bytes, as in algorithm 7 of FIPS 203 *)
Fixpoint candidates (bs : list Z) : list Z :=
  match bs with
  | b0 :: b1 :: b2 :: bs => b0 + 256 * (b1 mod 16) :: b1 / 16 + 16 * b2 :: candidates bs
  | _ => []
  end.

Definition accepted (bs : list Z) : list Z := List.filter (fun d => d <? Q) (candidates bs).

Lemma list_of_3 (bs : list Z) : length bs = 3%nat -> exists b0 b1 b2, bs = [b0; b1; b2].
Proof. intros H. do 3 (destruct bs as [|? bs]; [discriminate|]). destruct bs; [|discriminate]. by repeat eexists. Qed.

Lemma candidates_app3 b0 b1 b2 bs : candidates ([b0; b1; b2] ++ bs) = candidates [b0; b1; b2] ++ candidates bs.
Proof. done. Qed.

Lemma candidates_app k a b : length a = (3 * k)%nat -> candidates (a ++ b) = candidates a ++ candidates b.
Proof.
  revert a. induction k as [|k IH]; intros a Ha; [destruct a; [done|cbn in Ha; lia]|].
  do 3 (destruct a as [|? a]; [cbn in Ha; lia|]). cbn [app candidates]. rewrite IH by (cbn in Ha; lia). done.
Qed.

Lemma accepted_app k a b : length a = (3 * k)%nat -> accepted (a ++ b) = accepted a ++ accepted b.
Proof. intros Ha. unfold accepted. by rewrite (candidates_app k), List.filter_app. Qed.

Lemma accepted_canonical bs : bytes_ok bs -> Forall canonical (accepted bs).
Proof.
  intros Hb. unfold accepted. apply List.Forall_forall. intros d [Hin Hd%Z.ltb_lt]%filter_In. split; [|done].
  assert (H : forall k bs, (length bs <= k)%nat -> bytes_ok bs -> Forall (fun d => 0 <= d) (candidates bs)).
  { clear. induction k as [|k IH]; intros bs Hl Hb; [destruct bs; [constructor|cbn in Hl; lia]|]. destruct bs as [|b0 [|b1 [|b2 bs]]]; try constructor; try constructor.
    - inversion_clear Hb as [|? ? H0 Hb1]. inversion_clear Hb1 as [|? ? H1 Hb2]. pose proof (Z.mod_pos_bound b1 16 ltac:(lia)). unfold is_u8 in *. lia.
    - inversion_clear Hb as [|? ? H0 Hb1]. inversion_clear Hb1 as [|? ? H1 Hb2]. inversion_clear Hb2 as [|? ? H2 Hb3]. pose proof (Z.div_pos b1 16). unfold is_u8 in *. lia.
    - apply IH; [cbn in Hl; lia|]. by do 3 (inversion_clear Hb as [|? ? ? Hb']; rename Hb' into Hb). }
  specialize (H _ bs (le_n _) Hb). by apply (proj1 (List.Forall_forall _ _) H).
Qed.

(** The candidates as the source computes them *)
Lemma step_candidates b0 b1 b2 : is_u8 b0 -> is_u8 b1 -> is_u8 b2 ->
  u16 (Z.lor (u16 (Z.shiftl (u16 (Z.land b1 0x0f)) 8)) b0) = b0 + 256 * (b1 mod 16) /\
  u16 (Z.lor (u16 (Z.shiftl b2 4)) (u16 (Z.shiftr b1 4))) = b1 / 16 + 16 * b2.
Proof.
  intros H0 H1 H2. unfold is_u8 in *. change 0x0f with (Z.ones 4). rewrite Z.land_ones by done. change (2 ^ 4) with 16. pose proof (Z.mod_pos_bound b1 16 ltac:(lia)).
  assert (Hd : 0 <= b1 / 16 < 16) by (Z.to_euclidean_division_equations; lia). rewrite (Z.shiftr_div_pow2 b1 4) by done. change (2 ^ 4) with 16.
  assert (E : forall z, 0 <= z < 65536 -> u16 z = z) by (intros z Hz; by apply Z.mod_small). split.
  - rewrite (E (b1 mod 16)) by lia. rewrite (E (Z.shiftl _ _)) by (rewrite Z.shiftl_mul_pow2 by done; change (2 ^ 8) with 256; lia).
    rewrite Z.lor_comm, lor_shiftl_add by (done || lia). change (2 ^ 8) with 256. rewrite E by lia. lia.
  - rewrite (E (b1 / 16)) by lia. rewrite (E (Z.shiftl _ _)) by (rewrite Z.shiftl_mul_pow2 by done; change (2 ^ 4) with 16; lia).
    rewrite Z.lor_comm, lor_shiftl_add by (done || lia). change (2 ^ 4) with 16. rewrite E by lia. lia.
Qed.

(** The polynomial and its index after [new] was stored into what is left of it *)
Definition put (acc rest new : list Z) : list Z * Z :=
  let fit := take (length rest) new in (acc ++ fit ++ drop (length fit) rest, Z.of_nat (length acc + length fit)).

Lemma put_full acc new : put acc [] new = (acc, Z.of_nat (length acc)).
Proof. unfold put. cbn. by rewrite app_nil_r, Nat.add_0_r. Qed.

Lemma put_nil acc rest : put acc rest [] = (acc ++ rest, Z.of_nat (length acc)).
Proof. unfold put. rewrite take_nil. cbn. by rewrite Nat.add_0_r. Qed.

(** Storing in two steps *)
Lemma put_candidates_app acc rest a b : exists acc' rest', put acc rest a = (acc' ++ rest', Z.of_nat (length acc')) /\ length (acc' ++ rest') = length (acc ++ rest) /\
  put acc' rest' b = put acc rest (a ++ b).
Proof.
  exists (acc ++ take (length rest) a), (drop (length (take (length rest) a)) rest). unfold put. split_and!.
  - by rewrite length_app, <- app_assoc.
  - rewrite !length_app, length_drop, length_take. lia.
  - rewrite !take_app, length_drop. destruct (Nat.le_gt_cases (length a) (length rest)) as [H|H].
    + rewrite (take_ge a) by lia. rewrite !length_app, <- !app_assoc, drop_drop. f_equal. lia.
    + assert (Hl : length (take (length rest) a) = length rest) by (rewrite length_take; lia). rewrite !Hl. replace (length rest - length a)%nat with 0%nat by lia.
      rewrite Nat.sub_diag, !take_0, !app_nil_r, Hl, drop_all, !app_nil_r, length_app, Hl. cbn [length]. f_equal. lia.
Qed.

Lemma zq_candidate d : 0 <= d -> d < Q -> zq d = d.
Proof. intros H0 H. unfold zq, u16. rewrite Q_value in H. apply Z.mod_small. lia. Qed.

(** One candidate *)
Lemma store_candidate acc rest d : 0 <= d -> length (acc ++ rest) = 256%nat ->
  (if (d <? Q) && (Z.of_nat (length acc) <? N) then poly ← wr (acc ++ rest) (Z.of_nat (length acc)) (zq d); Some (poly, Z.of_nat (length acc) + 1) else Some (acc ++ rest, Z.of_nat (length acc)))
  = Some (put acc rest (if d <? Q then [d] else [])).
Proof.
  intros Hd Hl. rewrite length_app in Hl. change N with 256. destruct (Z.ltb_spec d Q) as [HQ|HQ]; cbn [andb]; [|by rewrite put_nil].
  destruct rest as [|x rest]; [rewrite put_full, app_nil_r, (proj2 (Z.ltb_ge (Z.of_nat (length acc)) 256)) by (cbn in Hl; lia); done|].
  cbn [length] in Hl. rewrite (proj2 (Z.ltb_lt (Z.of_nat (length acc)) 256)) by lia. rewrite zq_candidate, wr_mid by done. cbn [mbind option_bind]. unfold put. cbn [length take drop app]. rewrite take_nil. cbn [length app]. rewrite drop_0. do 2 f_equal. lia.
Qed.

Lemma rd_three pre b0 b1 b2 suf : let l := pre ++ [b0; b1; b2] ++ suf in let off := Z.of_nat (length pre) in
  rd l (off + 0) = Some b0 /\ rd l (off + 1) = Some b1 /\ rd l (off + 2) = Some b2.
Proof.
  intros l off. unfold l, off. split_and!; [apply (rd_mid pre); lia|..].
  - change (pre ++ [b0; b1; b2] ++ suf) with (pre ++ [b0] ++ [b1; b2] ++ suf). rewrite (app_assoc pre). apply (rd_mid (pre ++ [b0])). rewrite length_app. cbn. lia.
  - change (pre ++ [b0; b1; b2] ++ suf) with (pre ++ [b0; b1] ++ [b2] ++ suf). rewrite (app_assoc pre). apply (rd_mid (pre ++ [b0; b1])). rewrite length_app. cbn. lia.
Qed.

Lemma sample_step_runs pre b0 b1 b2 suf acc rest : is_u8 b0 -> is_u8 b1 -> is_u8 b2 -> length (acc ++ rest) = 256%nat -> rest <> [] ->
  sample_step (pre ++ [b0; b1; b2] ++ suf) (Z.of_nat (length pre)) (acc ++ rest, Z.of_nat (length acc)) = Some (put acc rest (accepted [b0; b1; b2])).
Proof.
  intros H0 H1 H2 Hl Hne. unfold sample_step. destruct (rd_three pre b0 b1 b2 suf) as (-> & -> & ->). cbn [mbind option_bind].
  destruct (step_candidates b0 b1 b2 H0 H1 H2) as [-> ->]. set (d1 := b0 + 256 * (b1 mod 16)). set (d2 := b1 / 16 + 16 * b2).
  assert (Hd1 : 0 <= d1) by (unfold d1, is_u8 in *; pose proof (Z.mod_pos_bound b1 16 ltac:(lia)); lia). assert (Hd2 : 0 <= d2) by (unfold d2, is_u8 in *; pose proof (Z.div_pos b1 16); lia).
  assert (Hroom : Z.of_nat (length acc) <? N = true) by (apply Z.ltb_lt; change N with 256; rewrite length_app in Hl; destruct rest; [done|cbn in Hl; lia]).
  pose proof (store_candidate acc rest d1 Hd1 Hl) as E1. rewrite Hroom, andb_true_r in E1. cbn [fst snd]. rewrite E1. cbn [mbind option_bind].
  destruct (put_candidates_app acc rest (if d1 <? Q then [d1] else []) (if d2 <? Q then [d2] else [])) as (acc' & rest' & E & Hl' & E'). rewrite E. cbn [fst snd].
  rewrite store_candidate by (done || congruence). rewrite E'. do 2 f_equal. unfold accepted. cbn [candidates List.filter]. fold d1 d2. by destruct (d1 <? Q), (d2 <? Q).
Qed.

Lemma sample_block_runs m : forall pre bs suf acc rest, length bs = (3 * m)%nat -> bytes_ok bs -> length (acc ++ rest) = 256%nat ->
  sample_block (pre ++ bs ++ suf) (map (fun i => Z.of_nat (length pre) + 3 * Z.of_nat i) (seq 0 m)) (acc ++ rest, Z.of_nat (length acc)) = Some (put acc rest (accepted bs)).
Proof.
  induction m as [|m IH]; intros pre bs suf acc rest Hl Hb Hp.
  - destruct bs; [|cbn in Hl; lia]. cbn [seq map sample_block]. by rewrite (put_nil acc rest : put acc rest (accepted []) = _).
  - cbn [seq map sample_block snd]. destruct (decide (rest = [])) as [->|Hne].
    { rewrite put_full, app_nil_r in *. rewrite (proj2 (Z.ltb_ge (Z.of_nat (length acc)) N)) by (change N with 256; lia). done. }
    rewrite (proj2 (Z.ltb_lt (Z.of_nat (length acc)) N)) by (change N with 256; rewrite length_app in Hp; destruct rest; [done|cbn in Hp; lia]).
    destruct (split_at 3 bs) as (w & bs' & -> & Hw); [lia|]. rewrite length_app in Hl. apply Forall_app in Hb as [Hb1 Hb2]. destruct (list_of_3 w Hw) as (b0 & b1 & b2 & ->).
    rewrite Z.add_0_r, <- app_assoc. inversion_clear Hb1 as [|? ? H0 Hb3]. inversion_clear Hb3 as [|? ? H1 Hb4]. inversion_clear Hb4 as [|? ? H2 _]. rewrite sample_step_runs by done. cbn [mbind option_bind].
    destruct (put_candidates_app acc rest (accepted [b0; b1; b2]) (accepted bs')) as (acc' & rest' & E & Hl' & E'). rewrite E. rewrite (accepted_app 1) by done. rewrite <- E'.
    rewrite <- (IH (pre ++ [b0; b1; b2]) bs' suf acc' rest') by (done || congruence || lia). rewrite length_app, <- app_assoc. f_equal. rewrite <- seq_shift, map_map. apply map_ext. cbn [length]. lia.
Qed.

Section Uniform.
Let P : list Z -> list Z := perm 24.
Let rate : Z := 8 * 21.

Lemma sample_loop_runs A fuel : length A = 25%nat -> forall k buf acc rest, 0 <= k -> length buf = 168%nat -> length (acc ++ rest) = 256%nat ->
  (length rest <= length (accepted (stream_bytes rate P A k (168 * fuel))))%nat ->
  exists h, sample_loop fuel (squeezing 21 24 A k) buf (acc ++ rest, Z.of_nat (length acc)) = Some (h, acc ++ take (length rest) (accepted (stream_bytes rate P A k (168 * fuel)))).
Proof.
  intros HA. induction fuel as [|fuel IH]; intros k buf acc rest Hk Hbuf Hl Hen; cbn [sample_loop snd].
  - rewrite Nat.mul_0_r in *. destruct rest; [|cbn in Hen; lia]. rewrite app_nil_r in *. rewrite (proj2 (Z.ltb_ge (Z.of_nat (length acc)) N)) by (change N with 256; lia). eexists. by rewrite take_0, app_nil_r.
  - destruct (decide (rest = [])) as [->|Hne].
    { rewrite app_nil_r in *. rewrite (proj2 (Z.ltb_ge (Z.of_nat (length acc)) N)) by (change N with 256; lia). eexists. by rewrite take_0, app_nil_r. }
    rewrite (proj2 (Z.ltb_lt (Z.of_nat (length acc)) N)) by (change N with 256; rewrite length_app in Hl; destruct rest; [done|cbn in Hl; lia]).
    pose proof (xof_squeeze_spec 21 24 ltac:(done) ltac:(by right) A k buf HA Hk) as E. rewrite Hbuf in E. unfold shake128_squeeze. change MAX_NUM_ROUNDS with 24.
    change shake128_RATE with (8 * (8 * 21)). rewrite E. cbn [mbind option_bind fst snd]. fold P rate. rewrite stream_bytes_length.
    change (zsteps 0 (Z.of_nat 168) 3) with (map (fun i => Z.of_nat (length (@nil Z)) + 3 * Z.of_nat i) (seq 0 56)).
    pose proof (sample_block_runs 56 [] (stream_bytes rate P A k 168) [] acc rest) as Eb. rewrite app_nil_r, app_nil_l in Eb. rewrite Eb by (rewrite ?stream_bytes_length; try apply stream_bytes_ok; done). clear Eb. cbn [mbind option_bind].
    replace (168 * S fuel)%nat with (168 + 168 * fuel)%nat in * by lia. rewrite stream_bytes_app, (accepted_app 56) in * by apply stream_bytes_length.
    set (new := accepted (stream_bytes rate P A k 168)) in *. unfold put.
    assert (Htake : take (length rest) new ++ take (length rest - length new) (accepted (stream_bytes rate P A (k + Z.of_nat 168) (168 * fuel))) = take (length rest) (new ++ accepted (stream_bytes rate P A (k + Z.of_nat 168) (168 * fuel)))) by (by rewrite take_app).
    rewrite <- Htake. rewrite (app_assoc acc). destruct (IH (k + Z.of_nat 168) (stream_bytes rate P A k 168) (acc ++ take (length rest) new) (drop (length (take (length rest) new)) rest)) as (h & Eh); [lia|apply stream_bytes_length| | |].
    + rewrite !length_app, length_drop, length_take in *. lia.
    + rewrite length_drop, length_take. rewrite length_app in Hen. lia.
    + exists h. rewrite length_app in Eh. rewrite Eh, <- app_assoc. rewrite length_drop, length_take. by replace (length rest - length rest `min` length new)%nat with (length rest - length new)%nat by lia.
Qed.

(** The first 256 accepted candidates of the stream from [A], out of [fuel] blocks *)
Definition uniform (fuel : nat) (A : list Z) : list Z := take 256 (accepted (stream_bytes rate P A 0 (168 * fuel))).

Definition enough (fuel : nat) (A : list Z) : bool := (256 <=? length (accepted (stream_bytes rate P A 0 (168 * fuel))))%nat.

Lemma sample_ntt_runs fuel A poly : length A = 25%nat -> length poly = 256%nat -> enough fuel A = true ->
  exists h, sample_ntt fuel (squeezing 21 24 A 0) poly = Some (h, uniform fuel A).
Proof.
  intros HA Hp He%Nat.leb_le. destruct (sample_loop_runs A fuel HA 0 (replicate (Z.to_nat (shake128_RATE / 8)) 0) [] poly) as (h & E); [done|done|done|lia|].
  exists h. unfold sample_ntt. cbn [app length] in E. change (Z.of_nat 0) with 0 in E. rewrite E. by rewrite Hp.
Qed.

Lemma uniform_coeffs fuel A : enough fuel A = true -> coeffs N (uniform fuel A).
Proof.
  intros He%Nat.leb_le. split; [unfold uniform; rewrite length_take; change N with 256; lia|]. apply Forall_take, accepted_canonical, stream_bytes_ok.
Qed.

(** More blocks do not change it. *)
Lemma uniform_more f g A : enough f A = true -> (f <= g)%nat -> enough g A = true /\ uniform g A = uniform f A.
Proof.
  unfold enough, uniform. intros He%Nat.leb_le Hfg. replace (168 * g)%nat with (168 * f + 168 * (g - f))%nat by lia. rewrite stream_bytes_app, (accepted_app (56 * f)) by (rewrite stream_bytes_length; lia).
  split; [apply Nat.leb_le; rewrite length_app; lia|]. by rewrite take_app_le.
Qed.
End Uniform.

(** ** The public matrix *)

(** Entry [i, j] of FIPS 203: the polynomial sampled from SHAKE128 of the seed, [j] and [i] *)
Definition entry_state (rho : list Z) (i j : Z) : list Z := sponge_state (8 * 21) (perm 24) 31 (rho ++ [j; i]).
Definition entry (fuel : nat) (rho : list Z) (i j : Z) : list Z := uniform fuel (entry_state rho i j).

(** [fuel] blocks are enough for every entry. *)
Definition matrix_enough (fuel : nat) (k : Z) (rho : list Z) : bool :=
  forallb (fun m => enough fuel (entry_state rho (m / k) (m mod k))) (zrange 0 (k * k)).

Definition matrix_of (fuel : nat) (k : Z) (transpose : bool) (rho : list Z) : list (list Z) :=
  map (fun m => if transpose then entry fuel rho (m mod k) (m / k) else entry fuel rho (m / k) (m mod k)) (zrange 0 (k * k)).

Lemma entry_state_length rho i j : length (entry_state rho i j) = 25%nat.
Proof. exact (sponge_state_length 21 24 ltac:(done) ltac:(by right) 15 4 ltac:(done) (rho ++ [j; i])). Qed.

Lemma hashed_runs msg : bytes_ok msg ->
  (h ← shake128_absorb xof_new msg; shake128_finalize h) = Some (squeezing 21 24 (sponge_state (8 * 21) (perm 24) 31 msg) 0).
Proof.
  intros Hb. pose proof (xof_absorb_spec 21 24 ltac:(done) ltac:(by right) [] msg Hb) as E1. pose proof (xof_finalize_spec 21 24 ltac:(done) ltac:(by right) 15 4 ltac:(done) msg) as E2.
  unfold shake128_absorb, shake128_finalize. change xof_new with (absorbing 21 24 []). change shake128_RATE with (8 * (8 * 21)). change MAX_NUM_ROUNDS with 24. rewrite E1. exact E2.
Qed.

Lemma check_k_range k : check_k k = true -> 2 <= k <= 4.
Proof. intros [[H|H]%orb_prop|H]%orb_prop; apply Z.eqb_eq in H; lia. Qed.

Section PublicMatrix.
Context (fuel : nat) (k : Z) (rho : list Z) (transpose : bool).
Hypothesis Hk : check_k k = true.
Hypothesis Hrho : length rho = 32%nat.
Hypothesis Hb : bytes_ok rho.
Hypothesis Hen : matrix_enough fuel k rho = true.

Lemma k_range : 2 <= k <= 4.
Proof. by apply check_k_range. Qed.

Lemma entry_enough i j : 0 <= i < k -> 0 <= j < k -> enough fuel (entry_state rho i j) = true.
Proof.
  intros Hi Hj. unfold matrix_enough in Hen. rewrite forallb_forall in Hen. specialize (Hen (i * k + j)).
  rewrite Z.div_add_l, Z.div_small, Z.add_0_r, (Z.add_comm (i * k)), Z.mod_add, Z.mod_small in Hen by lia. apply Hen. apply list_elem_of_In, elem_of_zrange. nia.
Qed.

(** What [matrix_cell] computes at [i, j] *)
Definition cell (i j : Z) : list Z := if transpose then entry fuel rho j i else entry fuel rho i j.

Lemma cell_coeffs i j : 0 <= i < k -> 0 <= j < k -> coeffs N (cell i j).
Proof. intros Hi Hj. unfold cell. destruct transpose; by apply uniform_coeffs, entry_enough. Qed.

Lemma matrix_cell_runs i j x y before d after : 0 <= i < k -> 0 <= j < k -> blocks N before -> Z.of_nat (length d) = N -> Z.of_nat (length before) = i * k + j ->
  exists x' y', matrix_cell fuel k transpose i j (rho ++ [x; y], concat (before ++ d :: after)) = Some (rho ++ [x'; y'], concat (before ++ cell i j :: after)).
Proof.
  intros Hi Hj Hbl Hd Hl. pose proof k_range as Hk4. exists (u8 (if transpose then i else j)), (u8 (if transpose then j else i)). unfold matrix_cell.
  assert (E1 : forall v, wr (rho ++ [x; y]) 32 v = Some (rho ++ [v; y])) by (intros v; apply wr_mid; lia). rewrite E1. cbn [mbind option_bind].
  assert (E2 : forall v w, wr (rho ++ [v; y]) 33 w = Some (rho ++ [v; w])).
  { intros v w. change (rho ++ [v; y]) with (rho ++ [v] ++ [y]). rewrite app_assoc. rewrite (wr_mid (rho ++ [v])) by (rewrite length_app; cbn; lia). by rewrite <- app_assoc. }
  rewrite E2. cbn [mbind option_bind]. set (a := if transpose then i else j). set (b := if transpose then j else i).
  assert (Ha : 0 <= a < k /\ 0 <= b < k) by (unfold a, b; destruct transpose; lia). assert (Eu : forall v, 0 <= v < k -> u8 v = v) by (intros v Hv; apply Z.mod_small; lia).
  rewrite !Eu by lia. assert (Hm : bytes_ok (rho ++ [a; b])) by (apply Forall_app; split; [done|]; repeat constructor; unfold is_u8; lia).
  pose proof (hashed_runs (rho ++ [a; b]) Hm) as Eh. destruct (shake128_absorb xof_new (rho ++ [a; b])) as [h|]; [|discriminate]. cbn [mbind option_bind] in Eh |- *. rewrite Eh. cbn [mbind option_bind].
  change (sponge_state (8 * 21) (perm 24) 31 (rho ++ [a; b])) with (entry_state rho b a).
  destruct (sample_ntt_runs fuel (entry_state rho b a) d) as (h' & E); [apply entry_state_length|change N with 256 in Hd; lia|apply entry_enough; lia|].
  rewrite (on_span_block N before d after _ _ (cell i j)); [done|by rewrite Hl|done|done|]. rewrite E. unfold a, b, cell, entry. by destruct transpose.
Qed.

Lemma matrix_of_lookup i j : 0 <= i < k -> 0 <= j < k -> matrix_of fuel k transpose rho !! Z.to_nat (i * k + j) = Some (cell i j).
Proof.
  intros Hi Hj. unfold matrix_of, zrange. rewrite map_map, list_lookup_fmap, lookup_seq_lt by nia. cbn [fmap option_fmap option_map]. f_equal.
  rewrite Nat.add_0_l, Z2Nat.id, Z.add_0_l by nia. rewrite Z.div_add_l, Z.div_small, Z.add_0_r, (Z.add_comm (i * k)), Z.mod_add, Z.mod_small by lia. done.
Qed.

Lemma matrix_of_vec : vec (k * k) (matrix_of fuel k transpose rho).
Proof.
  pose proof k_range as Hk4. split; [unfold matrix_of; rewrite length_map, zrange_length; nia|]. apply Forall_map, List.Forall_forall. intros m Hm%list_elem_of_In%elem_of_zrange.
  assert (0 <= m / k < k) by (split; [apply Z.div_pos; lia|apply Z.div_lt_upper_bound; lia]). assert (0 <= m mod k < k) by (apply Z.mod_pos_bound; lia).
  destruct transpose; by apply uniform_coeffs, entry_enough.
Qed.

Lemma matrix_row_runs i x y M : 0 <= i < k -> blocks N M -> Z.of_nat (length M) = k * k -> let R := matrix_of fuel k transpose rho in
  exists x' y', foldm (matrix_cell fuel k transpose i) (zrange 0 k) (rho ++ [x; y], concat (take (Z.to_nat (i * k)) R ++ drop (Z.to_nat (i * k)) M))
    = Some (rho ++ [x'; y'], concat (take (Z.to_nat ((i + 1) * k)) R ++ drop (Z.to_nat ((i + 1) * k)) M)).
Proof.
  intros Hi HM HlM R. subst R. pose proof k_range as Hk4. destruct matrix_of_vec as [HlR HcR].
  range_invariant (fun j st => exists x y, st = (rho ++ [x; y], concat (take (Z.to_nat (i * k + j)) (matrix_of fuel k transpose rho) ++ drop (Z.to_nat (i * k + j)) M))).
  - lia.
  - intros j st Hj (x1 & y1 & ->). destruct (lookup_lt_is_Some_2 M (Z.to_nat (i * k + j))) as [d Hd]; [nia|]. rewrite (drop_S _ _ _ Hd).
    destruct (matrix_cell_runs i j x1 y1 (take (Z.to_nat (i * k + j)) (matrix_of fuel k transpose rho)) d (drop (S (Z.to_nat (i * k + j))) M)) as (x2 & y2 & E); [done|done|apply blocks_take, (vec_blocks _ _ matrix_of_vec)|by apply (blocks_lookup _ M _ _ HM Hd)|rewrite take_count by nia; nia|].
    rewrite E. eexists. split; [done|]. exists x2, y2. replace (Z.to_nat (i * k + (j + 1))) with (S (Z.to_nat (i * k + j))) by nia. by rewrite (take_S_r _ _ _ (matrix_of_lookup i j Hi Hj)), <- app_assoc.
  - exists x, y. by rewrite Z.add_0_r.
  - destruct Hinv as (x' & y' & ->). exists x', y'. by replace ((i + 1) * k) with (i * k + k) by lia.
Qed.

Lemma generate_matrix_runs M : blocks N M -> Z.of_nat (length M) = k * k -> generate_matrix fuel k transpose (concat M) rho = Some (concat (matrix_of fuel k transpose rho)).
Proof.
  intros HM HlM. pose proof k_range as Hk4. destruct matrix_of_vec as [HlR HcR]. unfold generate_matrix. rewrite Hk. cbn [negb].
  assert (E : wrs (replicate 34 0) 0 rho = Some (rho ++ [0; 0])).
  { change (replicate 34 0) with ([] ++ replicate 32 0 ++ [0; 0]). rewrite wrs_mid by (rewrite ?length_replicate; done). done. }
  rewrite E. cbn [mbind option_bind].
  range_invariant (fun i st => exists x y, st = (rho ++ [x; y], concat (take (Z.to_nat (i * k)) (matrix_of fuel k transpose rho) ++ drop (Z.to_nat (i * k)) M))).
  - lia.
  - intros i st Hi (x & y & ->). destruct (matrix_row_runs i x y M Hi HM HlM) as (x' & y' & E2). rewrite E2. eexists. split; [done|]. by exists x', y'.
  - by exists 0, 0.
  - destruct Hinv as (x & y & ->). cbn [mbind option_bind snd]. f_equal. rewrite take_ge, drop_ge, app_nil_r by lia. done.
Qed.
End PublicMatrix.

(** * The binomial sampler: what [sample_poly_cbd] and [generate_vector] compute

    Algorithm 8 of FIPS 203 on the bits of the input: coefficient [j] is the
    number of ones among [eta] bits less that among the next [eta].  The code
    adds the bits of a whole word at once, in fields that cannot overflow. *)

(** ** The reference *)

Definition ones (bs : list bool) : Z := foldr (fun b n => b2z b + n) 0 bs.

Fixpoint cbd_bits (eta k : nat) (bs : list bool) : list Z :=
  match k with
  | O => []
  | S k => (ones (take eta bs) - ones (take eta (drop eta bs))) mod Q :: cbd_bits eta k (drop eta (drop eta bs))
  end.

Definition cbd (eta : Z) (prf : list Z) : list Z := cbd_bits (Z.to_nat eta) 256 (flat 8 prf).

Lemma ones_range bs : 0 <= ones bs <= Z.of_nat (length bs).
Proof. induction bs as [|b bs IH]; [done|]. cbn [ones foldr length]. fold (ones bs). destruct b; cbn [b2z]; lia. Qed.

(** Every coefficient is [c] modulo [Q] for some [c] between [- eta] and [eta]. *)
Definition small (eta x : Z) : Prop := exists c, - eta <= c <= eta /\ x = c mod Q.

Lemma cbd_small eta k bs : Forall (small (Z.of_nat eta)) (cbd_bits eta k bs).
Proof.
  revert bs. induction k as [|k IH]; intros bs; [constructor|]. cbn [cbd_bits]. constructor; [|apply IH].
  exists (ones (take eta bs) - ones (take eta (drop eta bs))). split; [|done].
  pose proof (ones_range (take eta bs)) as H1. pose proof (ones_range (take eta (drop eta bs))) as H2. rewrite length_take in H1, H2. lia.
Qed.

Lemma cbd_bits_length eta k bs : length (cbd_bits eta k bs) = k.
Proof. revert bs. induction k as [|k IH]; intros bs; [done|]. cbn. by rewrite IH. Qed.

Lemma cbd_coeffs eta prf : coeffs N (cbd eta prf).
Proof.
  unfold cbd. split; [by rewrite cbd_bits_length|]. eapply List.Forall_impl; [|apply cbd_small]. intros x (c & _ & ->). unfold canonical. apply Z.mod_pos_bound. by rewrite Q_value.
Qed.

Lemma cbd_bits_app eta k m a b : length a = (2 * eta * k)%nat -> cbd_bits eta (k + m) (a ++ b) = cbd_bits eta k a ++ cbd_bits eta m b.
Proof.
  revert a. induction k as [|k IH]; intros a Ha; [destruct a; [done|cbn in Ha; lia]|]. cbn [Nat.add cbd_bits app].
  rewrite !drop_drop. rewrite take_app_le by lia. rewrite (drop_app_le a b eta) by lia. rewrite take_app_le by (rewrite length_drop; lia). rewrite drop_app_le by lia.
  by rewrite IH by (rewrite length_drop; lia).
Qed.

(** ** Two bits at a time *)

Lemma small_differences p q : 0 <= p <= 3 -> 0 <= q <= 3 -> zsub (zq p) (zq q) = (p - q) mod Q.
Proof.
  intros Hp Hq. assert (H : forallb (fun p => forallb (fun q => zsub (zq p) (zq q) =? (p - q) mod Q) (zrange 0 4)) (zrange 0 4) = true) by (by vm_compute).
  rewrite forallb_forall in H. specialize (H p). rewrite forallb_forall in H. apply Z.eqb_eq, H; apply list_elem_of_In, elem_of_zrange; lia.
Qed.

Lemma cbd2_spec bs : length bs = 1%nat -> bytes_ok bs -> cbd2 bs = cbd_bits 2 2 (flat 8 bs).
Proof.
  intros Hl Hb. destruct bs as [|w [|]]; try discriminate. inversion_clear Hb as [|? ? Hw _].
  assert (H : forallb (fun w => bool_decide (cbd2 [w] = cbd_bits 2 2 (flat 8 [w]))) (zrange 0 256) = true) by (by vm_compute).
  rewrite forallb_forall in H. apply (bool_decide_eq_true_1 _), H. apply list_elem_of_In, elem_of_zrange. unfold is_u8 in Hw. lia.
Qed.

(** ** Three bits at a time *)

(** One octal digit of the masked sum *)
Lemma octal_mask x y m k : 0 <= x < 8 -> 0 <= y -> 0 <= m -> 0 <= k < 3 ->
  Z.land (Z.shiftr (x + 8 * y) k) (1 + 8 * m) = b2z (Z.testbit x k) + 8 * Z.land (Z.shiftr y k) m.
Proof.
  intros Hx Hy Hm Hk. assert (Hs : forall a b i, 0 <= a < 8 -> 0 <= i -> Z.testbit (a + 8 * b) i = if i <? 3 then Z.testbit a i else Z.testbit b (i - 3)).
  { intros a b i Ha Hi. replace (a + 8 * b) with (Z.lor a (Z.shiftl b 3)) by (rewrite lor_shiftl_add by done; change (2 ^ 3) with 8; lia).
    rewrite Z.lor_spec, Z.shiftl_spec by done. destruct (Z.ltb_spec i 3) as [H|H]; [rewrite (Z.testbit_neg_r b) by lia; apply orb_false_r|].
    rewrite <- (Z.mod_small a (2 ^ 3)) by done. by rewrite Z.mod_pow2_bits_high by lia. }
  apply Z.bits_inj'. intros i Hi. rewrite Z.land_spec, Z.shiftr_spec by done. rewrite !Hs by (try (destruct (Z.testbit x k); cbn [b2z]); lia).
  destruct (Z.ltb_spec i 3) as [H3|H3].
  - destruct (Z.eqb_spec i 0) as [->|Hne].
    + rewrite Z.add_0_l, (proj2 (Z.ltb_lt k 3)) by lia. change (Z.testbit 1 0) with true. rewrite andb_true_r. by destruct (Z.testbit x k).
    + assert (E1 : Z.testbit 1 i = false) by (assert (i = 1 \/ i = 2) as [-> | ->] by lia; done). rewrite E1, andb_false_r.
      destruct (Z.testbit x k); cbn [b2z]; [done|by rewrite Z.testbit_0_l].
  - rewrite (proj2 (Z.ltb_ge (i + k) 3)) by lia. rewrite Z.land_spec, Z.shiftr_spec by lia. do 2 f_equal. lia.
Qed.

Definition pop (x : Z) : Z := b2z (Z.testbit x 0) + b2z (Z.testbit x 1) + b2z (Z.testbit x 2).

Fixpoint octal (xs : list Z) : Z := match xs with [] => 0 | x :: xs => x + 8 * octal xs end.

Lemma octal_nonneg xs : Forall (fun x => 0 <= x < 8) xs -> 0 <= octal xs < 8 ^ Z.of_nat (length xs).
Proof. induction 1 as [|x xs Hx H IH]; [done|]. cbn [octal length]. rewrite Nat2Z.inj_succ, Z.pow_succ_r by lia. lia. Qed.

Lemma octal_sum xs : Forall (fun x => 0 <= x < 8) xs -> let mask := octal (map (fun _ => 1) xs) in
  Z.land (Z.shiftr (octal xs) 0) mask + Z.land (Z.shiftr (octal xs) 1) mask + Z.land (Z.shiftr (octal xs) 2) mask = octal (map pop xs).
Proof.
  induction 1 as [|x xs Hx H IH]; [done|]. cbn [octal map] in *. pose proof (octal_nonneg xs H).
  assert (Hm : 0 <= octal (map (fun _ => 1) xs)) by (apply octal_nonneg, Forall_map, List.Forall_forall; done). rewrite !octal_mask by lia. rewrite <- IH. unfold pop. ring.
Qed.

Lemma octal_digit xs i x : Forall (fun x => 0 <= x < 8) xs -> xs !! i = Some x -> Z.land (Z.shiftr (octal xs) (3 * Z.of_nat i)) 7 = x.
Proof.
  intros H. revert i. induction H as [|y xs Hy H IH]; intros i Hi; [done|]. change 7 with (Z.ones 3) in *. destruct i as [|i].
  - injection Hi as ->. cbn [octal]. rewrite Z.mul_0_r, Z.shiftr_0_r, Z.land_ones by done. change (2 ^ 3) with 8. rewrite (Z.mul_comm 8), Z.mod_add by done. by apply Z.mod_small.
  - cbn [octal]. rewrite <- (IH i Hi). f_equal. replace (3 * Z.of_nat (S i)) with (3 + 3 * Z.of_nat i) by lia. rewrite <- Z.shiftr_shiftr by lia. f_equal.
    rewrite Z.shiftr_div_pow2 by done. change (2 ^ 3) with 8. rewrite (Z.mul_comm 8), Z.div_add by done. rewrite Z.div_small; lia.
Qed.

Lemma pop_range x : 0 <= pop x <= 3.
Proof. unfold pop. destruct (Z.testbit x 0), (Z.testbit x 1), (Z.testbit x 2); cbn; lia. Qed.

Lemma octal_digits n v : 0 <= v < 8 ^ Z.of_nat n -> v = octal (map (fun i => Z.land (Z.shiftr v (3 * Z.of_nat i)) 7) (seq 0 n)).
Proof.
  revert v. induction n as [|n IH]; intros v Hv; [cbn in *; lia|]. rewrite Nat2Z.inj_succ, Z.pow_succ_r in Hv by lia. cbn [seq map octal].
  change 7 with (Z.ones 3). rewrite Z.mul_0_r, Z.shiftr_0_r, Z.land_ones by done. change (2 ^ 3) with 8.
  assert (Hd : 0 <= v / 8 < 8 ^ Z.of_nat n) by (Z.to_euclidean_division_equations; lia). specialize (IH (v / 8) Hd).
  rewrite <- seq_shift, map_map. rewrite (map_ext (fun i => Z.land (Z.shiftr v (3 * Z.of_nat (S i))) (Z.ones 3)) (fun i => Z.land (Z.shiftr (v / 8) (3 * Z.of_nat i)) 7)).
  - rewrite <- IH. rewrite Z.add_comm. apply Z.div_mod. done.
  - intros i. change 7 with (Z.ones 3). f_equal. replace (3 * Z.of_nat (S i)) with (3 + 3 * Z.of_nat i) by lia. rewrite <- Z.shiftr_shiftr by lia. by rewrite (Z.shiftr_div_pow2 v 3) by done.
Qed.

Lemma ones_pop x : ones (le_bits 3 x) = pop x.
Proof. unfold pop. change (b2z (Z.testbit x 0) + (b2z (Z.testbit x 1) + (b2z (Z.testbit x 2) + 0)) = b2z (Z.testbit x 0) + b2z (Z.testbit x 1) + b2z (Z.testbit x 2)). lia. Qed.

Lemma cbd_octal x0 x1 x2 x3 x4 x5 x6 x7 : cbd_bits 3 4 (flat 3 [x0; x1; x2; x3; x4; x5; x6; x7]) =
  [(pop x0 - pop x1) mod Q; (pop x2 - pop x3) mod Q; (pop x4 - pop x5) mod Q; (pop x6 - pop x7) mod Q].
Proof. rewrite <- !ones_pop. reflexivity. Qed.

Lemma cbd3_spec bs : length bs = 3%nat -> bytes_ok bs -> cbd3 bs = cbd_bits 3 4 (flat 8 bs).
Proof.
  intros Hl Hb. destruct (list_of_3 bs Hl) as (b0 & b1 & b2 & ->). unfold cbd3.
  assert (Hbs : is_u8 b0 /\ is_u8 b1 /\ is_u8 b2) by (inversion_clear Hb as [|? ? H0 Hb1]; inversion_clear Hb1 as [|? ? H1 Hb2]; inversion_clear Hb2 as [|? ? H2 _]; done).
  unfold is_u8 in Hbs. rewrite (u32_small (Z.shiftl b2 16)) by (rewrite Z.shiftl_mul_pow2 by done; change (2 ^ 16) with 65536; change (2 ^ 32) with 4294967296; lia).
  rewrite (u32_small (Z.shiftl b1 8)) by (rewrite Z.shiftl_mul_pow2 by done; change (2 ^ 8) with 256; change (2 ^ 32) with 4294967296; lia).
  set (word := Z.lor _ b0). assert (Hw : 0 <= word < 8 ^ Z.of_nat 8).
  { change (8 ^ Z.of_nat 8) with (2 ^ 24). unfold word. repeat apply lor_range; try done; rewrite ?Z.shiftl_mul_pow2 by done; change (2 ^ 16) with 65536; change (2 ^ 8) with 256; change (2 ^ 24) with 16777216; lia. }
  set (xs := map (fun i => Z.land (Z.shiftr word (3 * Z.of_nat i)) 7) (seq 0 8)).
  assert (Hx : Forall (fun x => 0 <= x < 8) xs) by (apply Forall_map, List.Forall_forall; intros i _; change 7 with (Z.ones 3); rewrite Z.land_ones by done; by apply Z.mod_pos_bound).
  assert (Ef : flat 8 [b0; b1; b2] = flat 3 xs).
  { rewrite <- (bytes_u8 _ Hb). pose proof (bytes_u8 _ Hb) as E. injection E as E0 E1 E2. unfold xs, word. rewrite <- E0, <- E1, <- E2. clear. same_bits. }
  rewrite Ef. assert (E3 : u32 (Z.land (Z.shiftr word 0) 0x249249 + Z.land (Z.shiftr word 1) 0x249249 + Z.land (Z.shiftr word 2) 0x249249) = octal (map pop xs)).
  { pose proof (octal_sum xs Hx) as E. cbv zeta in E. change (octal (map (fun _ => 1) xs)) with 0x249249 in E. assert (Ew : octal xs = word) by (symmetry; by apply octal_digits). rewrite Ew in E. rewrite E. apply u32_small.
    assert (Hp : Forall (fun x => 0 <= x < 8) (map pop xs)) by (apply Forall_map, List.Forall_forall; intros x _; pose proof (pop_range x); lia).
    pose proof (octal_nonneg _ Hp). change (8 ^ Z.of_nat (length (map pop xs))) with 16777216 in H. change (2 ^ 32) with 4294967296. lia. }
  rewrite E3. assert (Hp : Forall (fun x => 0 <= x < 8) (map pop xs)) by (apply Forall_map, List.Forall_forall; intros x _; pose proof (pop_range x); lia).
  assert (Ed : forall i x, xs !! i = Some x -> Z.land (Z.shiftr (octal (map pop xs)) (3 * Z.of_nat i)) 7 = pop x) by (intros i x Hi; apply octal_digit; [done|by rewrite list_lookup_fmap, Hi]).
  assert (Hxl : length xs = 8%nat) by done. clear Hx Hp E3 Ef Hw. clearbody xs. clear word Hb Hl Hbs b0 b1 b2.
  do 8 (destruct xs as [|? xs]; [discriminate Hxl|]). destruct xs; [|discriminate Hxl]. set (o := octal _) in *. clearbody o.
  rewrite (Ed 0%nat _ eq_refl : Z.land (Z.shiftr o 0) 7 = _), (Ed 1%nat _ eq_refl : Z.land (Z.shiftr o 3) 7 = _), (Ed 2%nat _ eq_refl : Z.land (Z.shiftr o 6) 7 = _),
    (Ed 3%nat _ eq_refl : Z.land (Z.shiftr o 9) 7 = _), (Ed 4%nat _ eq_refl : Z.land (Z.shiftr o 12) 7 = _), (Ed 5%nat _ eq_refl : Z.land (Z.shiftr o 15) 7 = _),
    (Ed 6%nat _ eq_refl : Z.land (Z.shiftr o 18) 7 = _), (Ed 7%nat _ eq_refl : Z.land (Z.shiftr o 21) 7 = _).
  rewrite !small_differences by apply pop_range. by rewrite cbd_octal.
Qed.

(** ** The whole polynomial *)

Lemma cbd_groups eta gin gout f k src : (2 * eta * gout = 8 * gin)%nat -> (forall ts, length ts = gin -> bytes_ok ts -> f ts = cbd_bits eta gout (flat 8 ts)) ->
  length src = (gin * k)%nat -> bytes_ok src -> concat (map f (groups gin k src)) = cbd_bits eta (gout * k) (flat 8 src).
Proof.
  intros Hg Hf. revert src. induction k as [|k IH]; intros src Hl Hb; [by rewrite Nat.mul_0_r|]. destruct (split_at gin src) as (a & b & -> & Ha); [lia|]. rewrite length_app in Hl. apply Forall_app in Hb as [Hba Hbb].
  cbn [groups map concat]. rewrite (take_app_length' a), (drop_app_length' a) by done. rewrite Hf, IH by (done || lia). replace (gout * S k)%nat with (gout + gout * k)%nat by lia.
  rewrite flat_app. symmetry. apply cbd_bits_app. rewrite flat_length. lia.
Qed.

Lemma eta_cases eta : check_eta eta = true -> eta = 2 \/ eta = 3.
Proof. intros [H|H]%orb_prop; apply Z.eqb_eq in H; auto. Qed.

Lemma sample_poly_cbd_runs eta prf poly : check_eta eta = true -> Z.of_nat (length prf) = 64 * eta -> bytes_ok prf -> length poly = 256%nat ->
  sample_poly_cbd eta prf poly = Some (cbd eta prf).
Proof.
  intros He Hl Hb Hp. unfold sample_poly_cbd. rewrite He. cbn [negb]. destruct (eta_cases eta He) as [-> | ->]; cbn [Z.eqb Pos.eqb].
  - rewrite group_loop_runs; [|lia|lia|lia| |lia|lia].
    + f_equal. apply (cbd_groups 2 1 2 cbd2 128); [done|exact cbd2_spec|change (Z.to_nat (64 * 2)) with 128%nat; lia|done].
    + intros [|w [|]]; done || (cbn [length]; lia).
  - rewrite group_loop_runs; [|lia|lia|lia| |lia|lia].
    + f_equal. apply (cbd_groups 3 3 4 cbd3 64); [done|exact cbd3_spec|lia|done].
    + intros [|b0 [|b1 [|b2 [|]]]]; done || (cbn [length]; lia).
Qed.

(** ** The vectors *)

(** The polynomial number [c] of a seed *)
Definition noise (eta : Z) (sigma : list Z) (c : Z) : list Z :=
  cbd eta (stream_bytes (8 * 17) (perm 24) (sponge_state (8 * 17) (perm 24) 31 (sigma ++ [c])) 0 (Z.to_nat (64 * eta))).

Definition vector_of (k eta : Z) (sigma : list Z) (nonce : Z) : list (list Z) := map (fun i => noise eta sigma (u8 (nonce + i))) (zrange 0 k).

Lemma vector_of_vec k eta sigma nonce : 0 <= k -> vec k (vector_of k eta sigma nonce).
Proof.
  intros Hk. split; [unfold vector_of; rewrite length_map, zrange_length; lia|]. apply Forall_map, List.Forall_forall. intros i _. apply cbd_coeffs.
Qed.

Lemma prf_runs msg out : bytes_ok msg ->
  (h ← shake256_absorb xof_new msg; h ← shake256_finalize h; r ← shake256_squeeze h out; Some r.2) = Some (stream_bytes (8 * 17) (perm 24) (sponge_state (8 * 17) (perm 24) 31 msg) 0 (length out)).
Proof.
  intros Hb. assert (HA : length (sponge_state (8 * 17) (perm 24) 31 msg) = 25%nat) by exact (sponge_state_length 17 24 ltac:(done) ltac:(by right) 15 4 ltac:(done) msg).
  pose proof (xof_absorb_spec 17 24 ltac:(done) ltac:(by right) [] msg Hb) as E1. pose proof (xof_finalize_spec 17 24 ltac:(done) ltac:(by right) 15 4 ltac:(done) msg) as E2.
  pose proof (xof_squeeze_spec 17 24 ltac:(done) ltac:(by right) _ 0 out HA ltac:(done)) as E3.
  unfold shake256_absorb, shake256_finalize, shake256_squeeze. change xof_new with (absorbing 17 24 []). change shake256_RATE with (8 * (8 * 17)). change MAX_NUM_ROUNDS with 24.
  rewrite E1. cbn [mbind option_bind app]. change (bit_width shake256_DOM_SEP) with 4. change shake256_DOM_SEP with 15. rewrite E2. cbn [mbind option_bind]. change (2 ^ 4 + 15 mod 2 ^ 4) with 31. by rewrite E3.
Qed.

Section Vector.
Context (k eta nonce : Z) (sigma : list Z).
Hypothesis Hk : (k =? 1) || check_k k = true.
Hypothesis Heta : check_eta eta = true.
Hypothesis Hs : length sigma = 32%nat.
Hypothesis Hb : bytes_ok sigma.

Lemma vector_cell_runs i x out before d after : 0 <= i < k -> k <= 4 -> Z.of_nat (length out) = 64 * eta -> blocks N before -> Z.of_nat (length d) = N -> Z.of_nat (length before) = i ->
  exists x' out', Z.of_nat (length out') = 64 * eta /\
    vector_cell eta nonce i (sigma ++ [x], out, concat (before ++ d :: after)) = Some (sigma ++ [x'], out', concat (before ++ noise eta sigma (u8 (nonce + i)) :: after)).
Proof.
  intros Hi Hk4 Ho Hbl Hd Hl. assert (He : 0 < eta) by (destruct (eta_cases eta Heta) as [-> | ->]; lia). exists (u8 (nonce + u8 i)). unfold vector_cell.
  rewrite (wr_mid sigma x [] 32) by lia. cbn [mbind option_bind]. assert (Hm : bytes_ok (sigma ++ [u8 (nonce + u8 i)])) by (apply Forall_app; split; [done|]; repeat constructor; by apply Z.mod_pos_bound).
  pose proof (prf_runs _ out Hm) as E. assert (Ei : u8 i = i) by (apply Z.mod_small; lia). rewrite Ei in *.
  destruct (shake256_absorb xof_new (sigma ++ [u8 (nonce + i)])) as [h|]; [|discriminate]. cbn [mbind option_bind] in E |- *. destruct (shake256_finalize h) as [h2|]; [|discriminate].
  cbn [mbind option_bind] in E |- *. destruct (shake256_squeeze h2 out) as [[h3 o]|]; [|discriminate]. cbn [mbind option_bind snd] in E |- *. injection E as E.
  assert (Ho2 : Z.of_nat (length o) = 64 * eta) by (rewrite E, stream_bytes_length; done). exists o. split; [done|].
  rewrite (on_span_block N before d after _ _ (noise eta sigma (u8 (nonce + i)))); [done|by rewrite Hl|done|done|]. rewrite sample_poly_cbd_runs; [|done|done|rewrite E; apply stream_bytes_ok|change N with 256 in Hd; lia].
  unfold noise. rewrite E. by replace (Z.to_nat (64 * eta)) with (length out) by lia.
Qed.

Lemma vector_of_lookup i : 0 <= i < k -> vector_of k eta sigma nonce !! Z.to_nat i = Some (noise eta sigma (u8 (nonce + i))).
Proof. intros Hi. unfold vector_of, zrange. rewrite map_map, list_lookup_fmap, lookup_seq_lt by lia. cbn [fmap option_fmap option_map]. do 3 f_equal. lia. Qed.

Lemma generate_vector_runs M : blocks N M -> Z.of_nat (length M) = k -> generate_vector k eta (concat M) sigma nonce = Some (concat (vector_of k eta sigma nonce)).
Proof.
  intros HM HlM. assert (Hk4 : 1 <= k <= 4) by (apply orb_prop in Hk as [H|H]; [apply Z.eqb_eq in H; lia|apply check_k_range in H; lia]).
  pose proof (vector_of_vec k eta sigma nonce ltac:(lia)) as HV. unfold generate_vector. rewrite Hk. cbn [negb].
  assert (He : 0 < eta) by (destruct (eta_cases eta Heta) as [-> | ->]; lia).
  assert (E : wrs (replicate 33 0) 0 sigma = Some (sigma ++ [0])).
  { change (replicate 33 0) with ([] ++ replicate 32 0 ++ [0]). rewrite wrs_mid by (rewrite ?length_replicate; done). done. }
  rewrite E. cbn [mbind option_bind].
  range_invariant (fun i st => exists (x : Z) (out : list Z), Z.of_nat (length out) = 64 * eta /\ st = (sigma ++ [x], out, concat (take (Z.to_nat i) (vector_of k eta sigma nonce) ++ drop (Z.to_nat i) M))).
  - lia.
  - intros i st Hi (x & out & Ho & ->). destruct (lookup_lt_is_Some_2 M (Z.to_nat i)) as [d Hd]; [lia|]. rewrite (drop_S _ _ _ Hd).
    destruct (vector_cell_runs i x out (take (Z.to_nat i) (vector_of k eta sigma nonce)) d (drop (S (Z.to_nat i)) M)) as (x' & out' & Ho' & E2); [lia|lia|done|apply blocks_take, (vec_blocks _ _ HV)|by apply (blocks_lookup _ M _ _ HM Hd)|destruct HV; rewrite take_count; lia|].
    rewrite E2. eexists. split; [done|]. exists x', out'. split; [done|]. replace (Z.to_nat (i + 1)) with (S (Z.to_nat i)) by lia. by rewrite (take_S_r _ _ _ (vector_of_lookup i Hi)), <- app_assoc.
  - exists 0, (replicate (Z.to_nat (64 * eta)) 0). split; [rewrite length_replicate; lia|done].
  - destruct Hinv as (x & out & _ & ->). cbn [mbind option_bind snd]. f_equal. destruct HV as [HlV _]. rewrite take_ge, drop_ge, app_nil_r by lia. done.
Qed.
End Vector.
