(* ===== verification/MlSubtle.v ===== *)
(** * Constant-time comparison and selection: tools/ml_kem_512_single.hpp, namespace subtle, [ct_memcmp], [ct_cond_memcpy]

    The operands have [w] bits and the truth values [r]; every assignment to a
    variable of the source wraps at its width.  The routines are proved to
    compute the comparisons, for all widths. *)

From Stdlib Require Import Lia.
From stdpp Require Import base tactics list numbers option.
From S2P Require Import Prelude QrArray MlField MlBits.
Local Open Scope Z_scope.

Definition wrap (n z : Z) : Z := z mod 2 ^ n.

(** ** The operations *)

Definition ct_eq (w r x y : Z) : Z :=
  let a := wrap w (Z.lxor x y) in
  let b := wrap w (Z.lor a (- a)) in
  let c := wrap w (Z.shiftr b (w - 1)) in
  let d := wrap r c in
  wrap r (d - wrap r 1).

Definition ct_ne (w r x y : Z) : Z := wrap r (Z.lnot (ct_eq w r x y)).

Definition ct_select (bw w br x y : Z) : Z :=
  let z := wrap bw (Z.shiftr br (bw - 1)) in
  let m := wrap w (- wrap w z) in
  wrap w (Z.lor (Z.land x m) (Z.land y (Z.lnot m))).

Definition ct_swap (w br x y : Z) : Z * Z :=
  let mask := wrap w (- wrap w (Z.land br 1)) in
  let x := wrap w (Z.lxor x (Z.land mask y)) in
  let y := wrap w (Z.lxor y (Z.land mask x)) in
  let x := wrap w (Z.lxor x (Z.land mask y)) in
  (x, y).

(** [for (pow = 1; pow < w;) { v |= v >> pow; pow += pow; }]; [pow] at least grows by one. *)
Fixpoint smear (fuel : nat) (w pow v : Z) : Z :=
  match fuel with
  | O => v
  | S fuel => if pow <? w then smear fuel w (pow + pow) (wrap w (Z.lor v (Z.shiftr v pow))) else v
  end.

Definition ct_le (w r x y : Z) : Z :=
  let gt_bits := wrap w (Z.land x (Z.lnot y)) in
  let lt_bits := smear (Z.to_nat w) w 1 (wrap w (Z.land (Z.lnot x) y)) in
  let bit := smear (Z.to_nat w) w 1 (wrap w (Z.land gt_bits (Z.lnot lt_bits))) in
  wrap r (- wrap r (Z.lxor (Z.land bit 1) 1)).

Definition ct_gt (w r x y : Z) : Z := wrap r (Z.lnot (ct_le w r x y)).
Definition ct_ge (w r x y : Z) : Z := wrap r (Z.lor (ct_gt w r x y) (ct_eq w r x y)).
Definition ct_lt (w r x y : Z) : Z := wrap r (Z.lnot (ct_ge w r x y)).

Definition ct_memcmp (n : Z) (bytes0 bytes1 : list Z) : option Z :=
  foldm (fun i flag => a ← rd bytes0 i; b ← rd bytes1 i; Some (Z.land flag (ct_eq 8 32 a b))) (zrange 0 n) (u32 (-1)).

Definition ct_cond_memcpy (n cond : Z) (sink source0 source1 : list Z) : option (list Z) :=
  foldm (fun i sink => a ← rd source0 i; b ← rd source1 i; wr sink i (ct_select 32 8 cond a b)) (zrange 0 n) sink.

(** ** Truth values *)

Definition truth (r : Z) (b : bool) : Z := if b then 2 ^ r - 1 else 0.

Section Widths.
Context (w r : Z).
Hypothesis Hw : 0 < w.
Hypothesis Hr : 0 < r.

Lemma wrap_small n z : 0 <= z < 2 ^ n -> wrap n z = z.
Proof. apply Z.mod_small. Qed.

Lemma wrap_range n z : 0 < n -> 0 <= wrap n z < 2 ^ n.
Proof. intros Hn. apply Z.mod_pos_bound. lia. Qed.

Lemma wrap_minus_one n : 0 < n -> wrap n (-1) = 2 ^ n - 1.
Proof. intros Hn. symmetry. apply (Z.mod_unique _ _ (-1)); [|lia]. left. lia. Qed.

Lemma pow_split n : 0 < n -> 2 ^ n = 2 * 2 ^ (n - 1) /\ 1 <= 2 ^ (n - 1).
Proof. intros Hn. split; [|lia]. rewrite <- Z.pow_succ_r by lia. f_equal. lia. Qed.

Lemma wrap_bit n z i : 0 <= n -> 0 <= i -> Z.testbit (wrap n z) i = (i <? n) && Z.testbit z i.
Proof. intros Hn Hi. unfold wrap. rewrite Z.testbit_mod_pow2 by lia. done. Qed.

(** The topmost bit *)
Lemma word_top_bit n v : 0 < n -> 0 <= v < 2 ^ n -> Z.shiftr v (n - 1) = b2z (Z.testbit v (n - 1)).
Proof.
  intros Hn Hv. rewrite Z.shiftr_div_pow2 by lia. change (b2z (Z.testbit v (n - 1))) with (Z.b2z (Z.testbit v (n - 1))). rewrite (Z.testbit_spec' v (n - 1)) by lia. symmetry. apply Z.mod_small.
  destruct (pow_split n Hn). split; [apply Z.div_pos; lia|apply Z.div_lt_upper_bound; lia].
Qed.

Lemma top_bit_set n v : 0 < n -> 2 ^ (n - 1) <= v < 2 ^ n -> Z.testbit v (n - 1) = true.
Proof.
  intros Hn Hv. destruct (pow_split n Hn). pose proof (word_top_bit n v Hn ltac:(lia)) as E. rewrite Z.shiftr_div_pow2 in E by lia.
  assert (v / 2 ^ (n - 1) = 1) by (symmetry; apply (Z.div_unique _ _ _ (v - 2 ^ (n - 1))); lia). destruct (Z.testbit v (n - 1)); [done|cbn in E; lia].
Qed.

Lemma truth_range n b : 0 < n -> 0 <= truth n b < 2 ^ n.
Proof. intros Hn. pose proof (pow_split n Hn). unfold truth. destruct b; lia. Qed.

Lemma truth_not b : wrap r (Z.lnot (truth r b)) = truth r (negb b).
Proof.
  unfold truth. destruct b; cbn [negb].
  - unfold Z.lnot, wrap. replace (Z.pred (- (2 ^ r - 1))) with (0 + (-1) * 2 ^ r) by lia. rewrite Z.mod_add by lia. by apply Z.mod_0_l; lia.
  - by apply wrap_minus_one.
Qed.

Lemma truth_of_bit b : wrap r (- wrap r (b2z b)) = truth r b.
Proof.
  pose proof (pow_split r Hr). destruct b; cbn [b2z truth].
  - rewrite (wrap_small r 1) by lia. by apply wrap_minus_one.
  - rewrite (wrap_small r 0) by lia. by apply wrap_small; lia.
Qed.

Lemma truth_or a b : wrap r (Z.lor (truth r a) (truth r b)) = truth r (a || b).
Proof.
  pose proof (truth_range r a Hr) as Ha. pose proof (truth_range r b Hr) as Hb. destruct a; cbn [orb truth].
  - destruct b; cbn [truth]; rewrite ?Z.lor_diag, ?Z.lor_0_r; apply wrap_small; cbn [truth] in *; lia.
  - rewrite Z.lor_0_l. apply wrap_small. exact Hb.
Qed.

(** ** Equality *)

Lemma ct_eq_spec x y : 0 <= x < 2 ^ w -> 0 <= y < 2 ^ w -> ct_eq w r x y = truth r (x =? y).
Proof.
  intros Hx Hy. pose proof (pow_split w Hw) as [Hp Hp1]. pose proof (pow_split r Hr) as [Hq Hq1]. unfold ct_eq. rewrite (wrap_small w (Z.lxor x y)) by (apply lxor_range; lia).
  pose proof (lxor_range w x y ltac:(lia) Hx Hy) as Ha. set (a := Z.lxor x y) in *.
  assert (Eb : Z.testbit (wrap w (Z.lor a (- a))) (w - 1) = negb (x =? y)).
  { rewrite wrap_bit, (proj2 (Z.ltb_lt (w - 1) w)), Z.lor_spec by lia. cbn [andb]. destruct (Z.eqb_spec x y) as [E|E].
    - assert (Ea : a = 0) by (unfold a; rewrite E; apply Z.lxor_nilpotent). rewrite Ea. by rewrite !Z.testbit_0_l.
    - assert (Ea : a <> 0) by (intros E0; apply E, Z.lxor_eq; done). cbn [negb]. destruct (Z.le_gt_cases (2 ^ (w - 1)) a) as [Hle|Hgt]; [rewrite top_bit_set by lia; done|].
      assert (Em : Z.testbit (- a) (w - 1) = true); [|rewrite Em; apply orb_true_r].
      pose proof (wrap_bit w (- a) (w - 1) ltac:(lia) ltac:(lia)) as Ebit. rewrite (proj2 (Z.ltb_lt (w - 1) w)) in Ebit by lia. cbn [andb] in Ebit. rewrite <- Ebit.
      assert (Ew : wrap w (- a) = 2 ^ w - a) by (symmetry; apply (Z.mod_unique _ _ (-1)); lia). rewrite Ew. apply top_bit_set; lia. }
  rewrite (wrap_small w (Z.shiftr _ _)) by (rewrite word_top_bit by (try apply wrap_range; lia); destruct (Z.testbit _ _); cbn [b2z]; lia).
  rewrite word_top_bit by (try apply wrap_range; lia). rewrite Eb. destruct (x =? y); cbn [negb b2z truth].
  - rewrite (wrap_small r 0), (wrap_small r 1) by lia. by apply wrap_minus_one.
  - rewrite (wrap_small r 1) by lia. by apply wrap_small; lia.
Qed.

Lemma ct_ne_spec x y : 0 <= x < 2 ^ w -> 0 <= y < 2 ^ w -> ct_ne w r x y = truth r (negb (x =? y)).
Proof. intros Hx Hy. unfold ct_ne. rewrite ct_eq_spec by done. apply truth_not. Qed.
End Widths.

(** ** Selection *)

Lemma land_truth w x b : 0 < w -> 0 <= x < 2 ^ w -> Z.land x (truth w b) = if b then x else 0.
Proof.
  intros Hw Hx. destruct b; cbn [truth]; [|apply Z.land_0_r]. replace (2 ^ w - 1) with (Z.ones w) by (rewrite Z.ones_equiv; lia). rewrite Z.land_ones by lia. by apply Z.mod_small.
Qed.

Lemma land_not_truth w x b : 0 < w -> 0 <= x < 2 ^ w -> Z.land x (Z.lnot (truth w b)) = if b then 0 else x.
Proof.
  intros Hw Hx. destruct b; cbn [truth]; [|by rewrite Z.land_m1_r]. replace (2 ^ w - 1) with (Z.ones w) by (rewrite Z.ones_equiv; lia). rewrite <- Z.ldiff_land, Z.ldiff_ones_r by lia.
  rewrite Z.shiftr_div_pow2, Z.div_small by lia. apply Z.shiftl_0_l.
Qed.

Lemma ct_select_spec bw w b x y : 0 < bw -> 0 < w -> 0 <= x < 2 ^ w -> 0 <= y < 2 ^ w -> ct_select bw w (truth bw b) x y = if b then x else y.
Proof.
  intros Hbw Hw Hx Hy. unfold ct_select. pose proof (pow_split bw Hbw). pose proof (truth_range bw b Hbw) as Ht.
  assert (Eb : Z.testbit (truth bw b) (bw - 1) = b) by (destruct b; cbn [truth]; [apply top_bit_set; lia|apply Z.testbit_0_l]).
  rewrite word_top_bit by done. rewrite Eb. rewrite (wrap_small bw (b2z b)) by (destruct b; cbn [b2z]; lia). rewrite truth_of_bit by done.
  rewrite land_truth, land_not_truth by done. destruct b; rewrite ?Z.lor_0_r, ?Z.lor_0_l; by apply wrap_small.
Qed.

Lemma ct_swap_spec w b x y : 0 < w -> 0 <= x < 2 ^ w -> 0 <= y < 2 ^ w -> ct_swap w (truth w b) x y = if b then (y, x) else (x, y).
Proof.
  intros Hw Hx Hy. unfold ct_swap. pose proof (pow_split w Hw) as [Hp Hp1]. assert (E1 : Z.land (truth w b) 1 = b2z b).
  { destruct b; cbn [truth b2z]; [|apply Z.land_0_l]. change 1 with (Z.ones 1) at 2. rewrite Z.land_ones by lia. change (2 ^ 1) with 2.
    replace (2 ^ w - 1) with (1 + (2 ^ (w - 1) - 1) * 2) by lia. by rewrite Z.mod_add. }
  rewrite E1, truth_of_bit by done. rewrite !(Z.land_comm (truth w b)). pose proof (lxor_range w x y ltac:(lia) Hx Hy). rewrite (land_truth w y b) by done. destruct b.
  - rewrite (wrap_small w (Z.lxor x y)) by done. rewrite (land_truth w (Z.lxor x y) true) by done.
    rewrite (Z.lxor_comm x y), <- Z.lxor_assoc, Z.lxor_nilpotent, Z.lxor_0_l. rewrite (wrap_small w x) by done. rewrite (land_truth w x true) by done.
    rewrite Z.lxor_assoc, Z.lxor_nilpotent, Z.lxor_0_r. by rewrite wrap_small.
  - rewrite Z.lxor_0_r. rewrite (wrap_small w x) by done. rewrite (land_truth w x false) by done. rewrite Z.lxor_0_r. rewrite (wrap_small w y) by done. rewrite (land_truth w y false) by done. rewrite Z.lxor_0_r. by rewrite wrap_small.
Qed.

(** ** Order *)

(** Bit [i] after the loop tells whether any bit from [i] on was set. *)
Lemma smear_spec w v0 fuel : 0 < w -> 0 <= v0 < 2 ^ w -> forall pow v, 1 <= pow -> w <= pow + Z.of_nat fuel -> 0 <= v < 2 ^ w ->
  (forall i, 0 <= i -> Z.testbit v i = true <-> exists j, i <= j < i + pow /\ Z.testbit v0 j = true) ->
  0 <= smear fuel w pow v < 2 ^ w /\ forall i, 0 <= i -> Z.testbit (smear fuel w pow v) i = true <-> exists j, i <= j /\ Z.testbit v0 j = true.
Proof.
  intros Hw H0. assert (Hhigh : forall j, Z.testbit v0 j = true -> j < w).
  { intros j Hj. destruct (Z.lt_ge_cases j w) as [|Hge]; [done|]. rewrite <- (Z.mod_small v0 (2 ^ w)) in Hj by done. rewrite Z.mod_pow2_bits_high in Hj by lia. done. }
  assert (Hdone : forall pow v, w <= pow -> (forall i, 0 <= i -> Z.testbit v i = true <-> exists j, i <= j < i + pow /\ Z.testbit v0 j = true) ->
    forall i, 0 <= i -> Z.testbit v i = true <-> exists j, i <= j /\ Z.testbit v0 j = true).
  { intros pow v Hp Hv i Hi. rewrite (Hv i Hi). split; intros (j & Hj & Hb); exists j; (split; [|done]); [lia|]. specialize (Hhigh j Hb). lia. }
  induction fuel as [|fuel IH]; intros pow v Hp Hf Hv Hbits; cbn [smear].
  - split; [done|]. apply (Hdone pow); [lia|done].
  - destruct (Z.ltb_spec pow w) as [Hlt|Hge]; [|split; [done|by apply (Hdone pow)]].
    assert (Hs : 0 <= Z.shiftr v pow < 2 ^ w) by (rewrite Z.shiftr_div_pow2 by lia; split; [apply Z.div_pos; lia|apply Z.div_lt_upper_bound; nia]).
    pose proof (lor_range w v (Z.shiftr v pow) ltac:(lia) Hv Hs) as Hl. rewrite wrap_small by done. apply IH; [lia|lia|done|].
    intros i Hi. rewrite Z.lor_spec, Z.shiftr_spec, orb_true_iff, (Hbits i), (Hbits (i + pow)) by lia. split.
    + intros [(j & Hj & Hb)|(j & Hj & Hb)]; exists j; (split; [lia|done]).
    + intros (j & Hj & Hb). destruct (Z.lt_ge_cases j (i + pow)); [left|right]; exists j; (split; [lia|done]).
Qed.

Lemma smear_all w v : 0 < w -> 0 <= v < 2 ^ w ->
  0 <= smear (Z.to_nat w) w 1 v < 2 ^ w /\ forall i, 0 <= i -> Z.testbit (smear (Z.to_nat w) w 1 v) i = true <-> exists j, i <= j /\ Z.testbit v j = true.
Proof.
  intros Hw Hv. apply (smear_spec w v); [done|done|lia|lia|done|]. intros i Hi. split; [intros Hb; exists i; (split; [lia|done])|]. intros (j & Hj & Hb). by replace i with j by lia.
Qed.

(** The number with a one where the other has a zero, and no such place for the other above it, is the greater. *)
Lemma greater_bits x y : 0 <= x -> 0 <= y ->
  x > y <-> exists j, 0 <= j /\ Z.testbit x j = true /\ Z.testbit y j = false /\ forall k, j <= k -> Z.testbit y k = true -> Z.testbit x k = true.
Proof.
  intros Hx Hy. assert (Hback : forall x y j, 0 <= x -> 0 <= y -> 0 <= j -> Z.testbit x j = true -> Z.testbit y j = false -> (forall k, j <= k -> Z.testbit y k = true -> Z.testbit x k = true) -> y < x).
  { clear. intros x y j Hx Hy Hj Hxj Hyj Hk. assert (Es : Z.land (Z.shiftr x j) (Z.shiftr y j) = Z.shiftr y j).
    { apply Z.bits_inj'. intros n Hn. rewrite Z.land_spec, !Z.shiftr_spec by done. destruct (Z.testbit y (n + j)) eqn:E; [|apply andb_false_r]. by rewrite (Hk (n + j)) by (done || lia). }
    assert (Hle : Z.shiftr y j <= Z.shiftr x j).
    { assert (Ed : Z.ldiff (Z.shiftr y j) (Z.shiftr x j) = 0) by (rewrite <- Es at 1; apply Z.bits_inj'; intros n Hn; rewrite Z.ldiff_spec, Z.land_spec, Z.bits_0; by destruct (Z.testbit (Z.shiftr x j) n), (Z.testbit (Z.shiftr y j) n)).
      apply Z.sub_nocarry_ldiff in Ed. assert (0 <= Z.ldiff (Z.shiftr x j) (Z.shiftr y j)) by (apply Z.ldiff_nonneg; left; by apply Z.shiftr_nonneg). lia. }
    assert (Hne : Z.shiftr y j <> Z.shiftr x j).
    { intros E. apply (f_equal (fun v => Z.testbit v 0)) in E. rewrite !Z.shiftr_spec, Z.add_0_l in E by done. congruence. }
    rewrite !Z.shiftr_div_pow2 in * by done. destruct (Z.lt_ge_cases y x) as [|Hge]; [done|]. pose proof (Z.div_le_mono x y (2 ^ j) ltac:(lia) Hge). lia. }
  split.
  - intros Hgt. assert (Hd : 0 < Z.lxor x y).
    { assert (0 <= Z.lxor x y) by (apply Z.lxor_nonneg; lia). assert (Z.lxor x y <> 0) by (intros E; apply Z.lxor_eq in E; lia). lia. }
    set (j := Z.log2 (Z.lxor x y)). assert (Hj : 0 <= j) by apply Z.log2_nonneg. pose proof (Z.bit_log2 _ Hd) as Hb. fold j in Hb. rewrite Z.lxor_spec in Hb.
    assert (Hhi : forall k, j < k -> Z.testbit x k = Z.testbit y k).
    { intros k Hk. pose proof (Z.bits_above_log2 (Z.lxor x y) k ltac:(lia) Hk) as E. rewrite Z.lxor_spec in E. by destruct (Z.testbit x k), (Z.testbit y k). }
    exists j. destruct (Z.testbit x j) eqn:Exj, (Z.testbit y j) eqn:Eyj; try discriminate Hb.
    + split_and!; try done. intros k Hk Hyk. destruct (Z.eq_dec k j) as [->|Hne]; [done|]. rewrite Hhi by lia. done.
    + exfalso. assert (x < y); [|lia]. apply (Hback y x j); try done. intros k Hk Hxk. destruct (Z.eq_dec k j) as [->|Hne]; [done|]. rewrite <- Hhi by lia. done.
  - intros (j & Hj & H1 & H2 & H3). pose proof (Hback x y j Hx Hy Hj H1 H2 H3). lia.
Qed.

Lemma ct_le_spec w r x y : 0 < w -> 0 < r -> 0 <= x < 2 ^ w -> 0 <= y < 2 ^ w -> ct_le w r x y = truth r (x <=? y).
Proof.
  intros Hw Hr Hx Hy. unfold ct_le. destruct (smear_all w (wrap w (Z.land (Z.lnot x) y)) Hw (wrap_range w _ Hw)) as [_ Hlt]. set (lt_bits := smear _ _ _ (wrap w (Z.land (Z.lnot x) y))) in *.
  set (g := wrap w (Z.land (wrap w (Z.land x (Z.lnot y))) (Z.lnot lt_bits))). destruct (smear_all w g Hw (wrap_range w _ Hw)) as [_ Hbit].
  assert (Hhigh : forall z j, 0 <= z < 2 ^ w -> Z.testbit z j = true -> j < w).
  { intros z j Hz Hj. destruct (Z.lt_ge_cases j w) as [|Hge]; [done|]. rewrite <- (Z.mod_small z (2 ^ w)) in Hj by done. rewrite Z.mod_pow2_bits_high in Hj by lia. done. }
  assert (E : Z.testbit (smear (Z.to_nat w) w 1 g) 0 = negb (x <=? y)).
  { apply eq_true_iff_eq. rewrite (Hbit 0) by lia. rewrite negb_true_iff, Z.leb_gt. rewrite <- Z.gt_lt_iff, greater_bits by lia. split.
    - intros (j & Hj & Hg). exists j. split; [done|]. unfold g in Hg. rewrite !wrap_bit, !Z.land_spec, !wrap_bit, !Z.land_spec, !Z.lnot_spec in Hg by lia.
      repeat (apply andb_prop in Hg as [? Hg]). rewrite negb_true_iff in *. repeat match goal with H : _ && _ = true |- _ => apply andb_prop in H as [? ?] end. rewrite ?negb_true_iff in *.
      split; [done|]. split; [done|]. intros k Hk Hyk. destruct (Z.testbit x k) eqn:Ex; [done|]. exfalso. assert (Et : Z.testbit lt_bits j = true); [|congruence].
      apply Hlt; [done|]. exists k. split; [done|]. rewrite wrap_bit, Z.land_spec, Z.lnot_spec, Ex, Hyk by lia. rewrite (proj2 (Z.ltb_lt k w)) by by apply (Hhigh y). done.
    - intros (j & Hj & Hxj & Hyj & Hk). exists j. split; [done|]. unfold g. rewrite !wrap_bit, !Z.land_spec, !wrap_bit, !Z.land_spec, !Z.lnot_spec, Hxj, Hyj by lia. rewrite (proj2 (Z.ltb_lt j w)) by by apply (Hhigh x).
      cbn [negb andb]. rewrite negb_true_iff. apply not_true_is_false. intros Hl. apply Hlt in Hl as (k & Hjk & Hb); [|done]. rewrite wrap_bit, Z.land_spec, Z.lnot_spec in Hb by lia.
      apply andb_prop in Hb as [_ Hb]. apply andb_prop in Hb as [Hb1 Hb2]. rewrite (Hk k Hjk Hb2) in Hb1. done. }
  assert (E1 : Z.lxor (Z.land (smear (Z.to_nat w) w 1 g) 1) 1 = b2z (x <=? y)).
  { change 1 with (Z.ones 1) at 2. rewrite Z.land_ones by lia. change (2 ^ 1) with 2. rewrite <- Z.bit0_mod, E. by destruct (x <=? y). }
  rewrite E1. by apply truth_of_bit.
Qed.

Lemma ct_gt_spec w r x y : 0 < w -> 0 < r -> 0 <= x < 2 ^ w -> 0 <= y < 2 ^ w -> ct_gt w r x y = truth r (y <? x).
Proof. intros Hw Hr Hx Hy. unfold ct_gt. rewrite ct_le_spec, truth_not by done. by rewrite Z.ltb_antisym. Qed.

Lemma ct_ge_spec w r x y : 0 < w -> 0 < r -> 0 <= x < 2 ^ w -> 0 <= y < 2 ^ w -> ct_ge w r x y = truth r (y <=? x).
Proof.
  intros Hw Hr Hx Hy. unfold ct_ge. rewrite ct_gt_spec, ct_eq_spec, truth_or by done. f_equal. destruct (Z.ltb_spec y x), (Z.eqb_spec x y), (Z.leb_spec y x); done || lia.
Qed.

Lemma ct_lt_spec w r x y : 0 < w -> 0 < r -> 0 <= x < 2 ^ w -> 0 <= y < 2 ^ w -> ct_lt w r x y = truth r (x <? y).
Proof. intros Hw Hr Hx Hy. unfold ct_lt. rewrite ct_ge_spec, truth_not by done. by rewrite Z.ltb_antisym. Qed.

(** ** Arrays *)

Lemma ct_memcmp_from pre0 pre1 l0 l1 b : length pre0 = length pre1 -> length l0 = length l1 -> bytes_ok l0 -> bytes_ok l1 ->
  foldm (fun i flag => x ← rd (pre0 ++ l0) i; y ← rd (pre1 ++ l1) i; Some (Z.land flag (ct_eq 8 32 x y))) (zrange (Z.of_nat (length pre0)) (Z.of_nat (length pre0 + length l0))) (truth 32 b)
  = Some (truth 32 (b && bool_decide (l0 = l1))).
Proof.
  intros Hp Hl H0. revert pre0 pre1 l1 b Hp Hl. induction H0 as [|x l0 Hx H0 IH]; intros pre0 pre1 l1 b Hp Hl H1.
  - destruct l1; [|discriminate]. cbn [length]. rewrite Nat.add_0_r, zrange_nil by lia. cbn [foldm]. by rewrite bool_decide_true, andb_true_r.
  - destruct l1 as [|y l1]; [discriminate|]. inversion_clear H1 as [|? ? Hy H1']. cbn [length] in *. rewrite zrange_cons by lia. cbn [foldm]. rewrite (rd_mid pre0) by done. cbn [mbind option_bind].
    rewrite (rd_mid pre1) by lia. cbn [mbind option_bind]. rewrite ct_eq_spec by (done || lia). rewrite land_truth by (lia || (apply truth_range; lia)).
    specialize (IH (pre0 ++ [x]) (pre1 ++ [y]) l1 (b && (x =? y))). rewrite !length_app, <- !app_assoc in IH. cbn [length app mbind option_bind] in IH.
    assert (E : (if x =? y then truth 32 b else 0) = truth 32 (b && (x =? y))) by (destruct (x =? y), b; done). rewrite E.
    replace (Z.of_nat (length pre0) + 1) with (Z.of_nat (length pre0 + 1)) by lia. replace (length pre0 + S (length l0))%nat with (length pre0 + 1 + length l0)%nat by lia.
    rewrite IH by (done || lia). do 2 f_equal. rewrite <- andb_assoc. f_equal. apply eq_true_iff_eq. rewrite andb_true_iff, !bool_decide_eq_true, Z.eqb_eq. split; [by intros [-> ->]|by intros [= -> ->]].
Qed.

Lemma ct_memcmp_spec n l0 l1 : Z.of_nat (length l0) = n -> Z.of_nat (length l1) = n -> bytes_ok l0 -> bytes_ok l1 -> ct_memcmp n l0 l1 = Some (truth 32 (bool_decide (l0 = l1))).
Proof. intros <- Hl H0 H1. unfold ct_memcmp. change (u32 (-1)) with (truth 32 true). apply (ct_memcmp_from [] [] l0 l1 true eq_refl ltac:(lia) H0 H1). Qed.

Lemma ct_cond_memcpy_from b pre p0 p1 d s0 s1 : length p0 = length pre -> length p1 = length pre -> length d = length s0 -> length s1 = length s0 -> bytes_ok s0 -> bytes_ok s1 ->
  foldm (fun i sink => x ← rd (p0 ++ s0) i; y ← rd (p1 ++ s1) i; wr sink i (ct_select 32 8 (truth 32 b) x y)) (zrange (Z.of_nat (length pre)) (Z.of_nat (length pre + length s0))) (pre ++ d)
  = Some (pre ++ if b then s0 else s1).
Proof.
  intros Hp0 Hp1 Hd Hs H0. revert pre p0 p1 d s1 Hp0 Hp1 Hd Hs. induction H0 as [|x s0 Hx H0 IH]; intros pre p0 p1 d s1 Hp0 Hp1 Hd Hs H1.
  - destruct d, s1; try discriminate. cbn [length]. rewrite Nat.add_0_r, zrange_nil by lia. by destruct b.
  - destruct d as [|c d]; [discriminate|]. destruct s1 as [|y s1]; [discriminate|]. inversion_clear H1 as [|? ? Hy H1']. cbn [length] in *. rewrite zrange_cons by lia. cbn [foldm].
    rewrite (rd_mid p0) by lia. cbn [mbind option_bind]. rewrite (rd_mid p1) by lia. cbn [mbind option_bind]. rewrite (wr_mid pre) by lia. cbn [mbind option_bind]. rewrite ct_select_spec by (done || lia).
    specialize (IH (pre ++ [if b then x else y]) (p0 ++ [x]) (p1 ++ [y]) d s1). rewrite !length_app, <- !app_assoc in IH. cbn [length app mbind option_bind] in IH.
    replace (Z.of_nat (length pre) + 1) with (Z.of_nat (length pre + 1)) by lia. replace (length pre + S (length s0))%nat with (length pre + 1 + length s0)%nat by lia.
    rewrite IH by (done || lia). by destruct b.
Qed.

Lemma ct_cond_memcpy_spec n b sink s0 s1 : Z.of_nat (length sink) = n -> Z.of_nat (length s0) = n -> Z.of_nat (length s1) = n -> bytes_ok s0 -> bytes_ok s1 ->
  ct_cond_memcpy n (truth 32 b) sink s0 s1 = Some (if b then s0 else s1).
Proof. intros Hk <- Hl H0 H1. apply (ct_cond_memcpy_from b [] [] [] sink s0 s1); try done; lia. Qed.
