(* ===== verification/MlPke.v ===== *)
(** * The public key encryption scheme: tools/ml_kem_512_single.hpp, namespace k_pke

    Key generation, encryption and decryption over the byte arrays of the
    callers, in the order of the source, with the parameter checks of
    [ml_kem_params] and the byte lengths of [ml_kem_utils].  A failed check is
    [None], as a program that does not compile; [fuel] bounds the blocks
    squeezed per matrix entry. *)

From Stdlib Require Import Lia Zmod.
From stdpp Require Import base tactics list numbers option.
From S2P Require Import Prelude QrArray MlField MlNtt MlRing MlCodec MlBits MlVector Keccak Sponge SpongeSpec.
From S2P Require Import Xof MlSample MlSubtle.
Local Open Scope Z_scope.

(** ** Parameters and lengths *)

Definition check_keygen_params (k eta1 : Z) : bool :=
  let flg0 := (k =? 2) && (eta1 =? 3) in
  let flg1 := (k =? 3) && (eta1 =? 2) in
  let flg2 := (k =? 4) && (eta1 =? 2) in
  flg0 || flg1 || flg2.

Definition check_encrypt_params (k eta1 eta2 du dv : Z) : bool :=
  let flg0 := (k =? 2) && (eta1 =? 3) && (eta2 =? 2) && (du =? 10) && (dv =? 4) in
  let flg1 := (k =? 3) && (eta1 =? 2) && (eta2 =? 2) && (du =? 10) && (dv =? 4) in
  let flg2 := (k =? 4) && (eta1 =? 2) && (eta2 =? 2) && (du =? 11) && (dv =? 5) in
  flg0 || flg1 || flg2.

Definition check_decrypt_params (k du dv : Z) : bool :=
  let flg0 := (k =? 2) && (du =? 10) && (dv =? 4) in
  let flg1 := (k =? 3) && (du =? 10) && (dv =? 4) in
  let flg2 := (k =? 4) && (du =? 11) && (dv =? 5) in
  flg0 || flg1 || flg2.

Definition check_encap_params (k eta1 eta2 du dv : Z) : bool := check_encrypt_params k eta1 eta2 du dv.
Definition check_decap_params (k eta1 eta2 du dv : Z) : bool := check_encap_params k eta1 eta2 du dv.

Definition get_pke_public_key_len (k : Z) : Z := k * 12 * 32 + 32.
Definition get_pke_secret_key_len (k : Z) : Z := k * 12 * 32.
Definition get_pke_cipher_text_len (k du dv : Z) : Z := 32 * (k * du + dv).

(** A [std::array] of [n] zeros *)
Definition zeroed (n : Z) : list Z := replicate (Z.to_nat n) 0.

(** ** Key generation *)

Definition pke_keygen (fuel : nat) (k eta1 : Z) (d pubkey seckey : list Z) : option (list Z * list Z) :=
  if negb (check_keygen_params k eta1) then None else
  g_out ← wrs (zeroed 64) 0 d;
  g_out ← wr g_out (Z.of_nat (length d)) (u8 k);
  g_in ← subspan g_out 0 (Z.of_nat (length d) + 1);
  h512 ← sha3_512_absorb sha3_new g_in;
  h512 ← sha3_512_finalize h512;
  r ← sha3_512_digest h512 g_out;
  let g_out := r.2 in
  rho ← subspan g_out 0 32;
  sigma ← subspan g_out 32 32;
  A_prime ← generate_matrix fuel k false (zeroed (k * k * N)) rho;
  let nonce := 0 in
  s ← generate_vector k eta1 (zeroed (k * N)) sigma nonce;
  let nonce := u8 (nonce + k) in
  e ← generate_vector k eta1 (zeroed (k * N)) sigma nonce;
  s ← poly_vec_ntt k s;
  e ← poly_vec_ntt k e;
  t_prime ← matrix_multiply k k k 1 A_prime s (zeroed (k * N));
  t_prime ← poly_vec_add_to k e t_prime;
  let pubkey_offset := k * 12 * 32 in
  pubkey ← on_span pubkey 0 pubkey_offset (poly_vec_encode k 12 t_prime);
  pubkey ← on_span pubkey pubkey_offset 32 (fun dst => wrs dst 0 rho);
  seckey ← poly_vec_encode k 12 s seckey;
  Some (pubkey, seckey).

(** ** Encryption *)

(** The part after the modulus check *)
Definition encrypt_checked (fuel : nat) (k eta1 eta2 du dv : Z) (t_prime rho msg rcoin ctxt : list Z) : option (list Z) :=
  A_prime ← generate_matrix fuel k true (zeroed (k * k * N)) rho;
  let nonce := 0 in
  r ← generate_vector k eta1 (zeroed (k * N)) rcoin nonce;
  let nonce := u8 (nonce + k) in
  e1 ← generate_vector k eta2 (zeroed (k * N)) rcoin nonce;
  let nonce := u8 (nonce + k) in
  e2 ← generate_vector 1 eta2 (zeroed N) rcoin nonce;
  r ← poly_vec_ntt k r;
  u ← matrix_multiply k k k 1 A_prime r (zeroed (k * N));
  u ← poly_vec_intt k u;
  u ← poly_vec_add_to k e1 u;
  v ← matrix_multiply 1 k k 1 t_prime r (zeroed N);
  v ← poly_vec_intt 1 v;
  v ← poly_vec_add_to 1 e2 v;
  m ← decode 1 msg (zeroed N);
  m ← poly_decompress 1 m;
  v ← poly_vec_add_to 1 m v;
  let ctxt_offset := k * du * 32 in
  u ← poly_vec_compress k du u;
  ctxt ← on_span ctxt 0 ctxt_offset (poly_vec_encode k du u);
  v ← poly_compress dv v;
  on_span ctxt (Z.of_nat (length ctxt) - dv * 32) (dv * 32) (encode dv v).

(** The result and the cipher text, which stays as it is when the check fails *)
Definition pke_encrypt (fuel : nat) (k eta1 eta2 du dv : Z) (pubkey msg rcoin ctxt : list Z) : option (bool * list Z) :=
  if negb (check_encrypt_params k eta1 eta2 du dv) then None else
  let pkoff := k * 12 * 32 in
  encoded_t_prime_in_pubkey ← subspan pubkey 0 pkoff;
  rho ← subspan pubkey pkoff 32;
  t_prime ← poly_vec_decode k 12 encoded_t_prime_in_pubkey (zeroed (k * N));
  encoded_tprime ← poly_vec_encode k 12 t_prime (zeroed pkoff);
  are_equal ← ct_memcmp pkoff encoded_t_prime_in_pubkey encoded_tprime;
  if are_equal =? 0 then Some (false, ctxt)
  else
    ctxt ← encrypt_checked fuel k eta1 eta2 du dv t_prime rho msg rcoin ctxt;
    Some (true, ctxt).

(** ** Decryption *)

Definition pke_decrypt (k du dv : Z) (seckey ctxt ptxt : list Z) : option (list Z) :=
  if negb (check_decrypt_params k du dv) then None else
  let ctxt_offset := k * du * 32 in
  polyvec_u_in_ctxt ← subspan ctxt 0 ctxt_offset;
  poly_v_in_ctxt ← subspan ctxt ctxt_offset (dv * 32);
  u ← poly_vec_decode k du polyvec_u_in_ctxt (zeroed (k * N));
  u ← poly_vec_decompress k du u;
  v ← decode dv poly_v_in_ctxt (zeroed N);
  v ← poly_decompress dv v;
  s_prime ← poly_vec_decode k 12 seckey (zeroed (k * N));
  u ← poly_vec_ntt k u;
  t ← matrix_multiply 1 k k 1 s_prime u (zeroed N);
  t ← poly_vec_intt 1 t;
  v ← poly_vec_sub_from 1 t v;
  v ← poly_compress 1 v;
  encode 1 v ptxt.
