(* ===== verification/MlPkeSpec.v ===== *)
(** * What the encryption scheme computes

    Each operation of MlPke.v as a function of polynomials: the key pair of a
    secret vector and an error vector, the cipher text of its two parts, and
    decryption.  With the equation of MlScheme.v they give the theorem that
    decryption undoes encryption when the noise is small. *)

From Stdlib Require Import Lia Zmod.
From stdpp Require Import base tactics list numbers option.
From S2P Require Import Prelude QrArray MlField MlNtt MlRing MlCodec MlBits MlVector MlScheme Keccak Sponge.
From S2P Require Import SpongeSpec Xof MlSample MlSubtle MlPke.
Local Open Scope Z_scope.

(** ** Arrays and blocks *)

Lemma zeroed_vec k : 0 <= k -> zeroed (k * N) = concat (zero_vec k).
Proof.
  intros Hk. apply Z_of_nat_complete in Hk as [n ->]. unfold zeroed, zero_vec. rewrite Nat2Z.id. induction n as [|n IH]; [done|]. cbn [replicate concat]. rewrite <- IH.
  change N with 256. replace (Z.to_nat (Z.of_nat (S n) * 256)) with (256 + Z.to_nat (Z.of_nat n * 256))%nat by lia. by rewrite replicate_add.
Qed.

Lemma zeroed_one : zeroed N = concat (zero_vec 1).
Proof. by vm_compute. Qed.

Lemma concat_one (p : list Z) : concat [p] = p.
Proof. apply app_nil_r. Qed.

(** An array as a list of blocks *)
Lemma into_blocks n k (l : list Z) : 0 <= n -> 0 <= k -> Z.of_nat (length l) = n * k ->
  exists ds, l = concat ds /\ Z.of_nat (length ds) = k /\ blocks n ds /\ (bytes_ok l -> Forall bytes_ok ds).
Proof.
  intros Hn Hk Hl. exists (groups (Z.to_nat n) (Z.to_nat k) l). assert (Hl' : length l = (Z.to_nat n * Z.to_nat k)%nat) by nia. pose proof (groups_concat _ _ _ Hl') as Ec. split_and!.
  - done.
  - assert (E : forall c m (x : list Z), length (groups m c x) = c) by (induction c as [|c IH]; intros m x; [done|cbn; by rewrite IH]). rewrite E. lia.
  - pose proof (groups_length _ _ _ Hl') as Hg. unfold blocks. eapply List.Forall_impl; [|exact Hg]. intros g E. cbn in E. lia.
  - intros Hb. rewrite <- Ec in Hb. revert Hb. generalize (groups (Z.to_nat n) (Z.to_nat k) l). intros gs. induction gs as [|g gs IH]; intros Hb; [constructor|]. cbn [concat] in Hb. apply Forall_app in Hb as [H1 H2]. constructor; [done|by apply IH].
Qed.

(** ** The parameters *)

Lemma encrypt_params k eta1 eta2 du dv : check_encrypt_params k eta1 eta2 du dv = true ->
  check_k k = true /\ check_eta eta1 = true /\ check_eta eta2 = true /\ check_decrypt_params k du dv = true /\ check_keygen_params k eta1 = true.
Proof.
  unfold check_encrypt_params. intros H. apply orb_prop in H as [H|H]; [apply orb_prop in H as [H|H]|]; rewrite !andb_true_iff, !Z.eqb_eq in H; destruct H as ((((-> & ->) & ->) & ->) & ->); by vm_compute.
Qed.

Lemma decrypt_params k du dv : check_decrypt_params k du dv = true -> 2 <= k <= 4 /\ width du /\ width dv /\ 1 <= du <= 11 /\ 1 <= dv <= 11 /\ (1 <=? k) = true.
Proof.
  unfold check_decrypt_params. intros H. apply orb_prop in H as [H|H]; [apply orb_prop in H as [H|H]|]; rewrite !andb_true_iff, !Z.eqb_eq in H; destruct H as ((-> & ->) & ->); split_and!; done || lia.
Qed.

(** ** Cipher texts *)

(** The bytes of two parts that hold values of [du] and [dv] bits *)
Definition cipher_bytes (du dv : Z) (cu : list (list Z)) (cv : list Z) : list Z := concat (map (byte_encode du) cu) ++ byte_encode dv cv.

Definition compressed (d : Z) (ps : list (list Z)) : list (list Z) := map (map (compress d)) ps.
Definition decompressed (d : Z) (ps : list (list Z)) : list (list Z) := map (map (decompress d)) ps.

Lemma compressed_below d k ps : 1 <= d <= 11 -> vec k ps -> vec_below d k (compressed d ps).
Proof.
  intros Hd [Hl Hc]. split; [unfold compressed; by rewrite length_map|]. apply Forall_map. eapply List.Forall_impl; [|exact Hc]. intros p Hp. split; [rewrite length_map; by apply coeffs_length|].
  apply Forall_map. destruct Hp as [_ Hp]. eapply List.Forall_impl; [|exact Hp]. intros x Hx. rewrite Z2Nat.id by lia. by apply compress_range.
Qed.

Lemma byte_blocks l k ps : 0 <= l -> Z.of_nat (length ps) = k -> blocks (32 * l) (map (byte_encode l) ps) /\ Z.of_nat (length (concat (map (byte_encode l) ps))) = k * l * 32.
Proof.
  intros Hl Hk. assert (Hb : blocks (32 * l) (map (byte_encode l) ps)) by (apply Forall_map, List.Forall_forall; intros p _; by apply byte_encode_length). split; [done|].
  rewrite (blocks_length (32 * l)) by done. rewrite length_map. lia.
Qed.

Lemma decode_below l k ps : 0 <= l -> l <> 12 -> vec_below l k ps -> map (byte_decode l) (map (byte_encode l) ps) = ps.
Proof.
  intros Hl Hne [_ H]. induction H as [|p ps [Hp Hb] H IH]; [done|]. cbn [map]. rewrite IH. f_equal. by apply byte_decode_encode.
Qed.

Lemma decode_vec k ps : vec k ps -> map (byte_decode 12) (map (byte_encode 12) ps) = ps.
Proof.
  intros [_ H]. induction H as [|p ps [Hl Hc] H IH]; [done|]. cbn [map]. rewrite IH. f_equal. apply byte_decode_encode; [done|change N with 256 in Hl; lia| |done].
  eapply List.Forall_impl; [|exact Hc]. intros x Hx. unfold canonical in Hx. rewrite Q_value in Hx. change (2 ^ Z.of_nat (Z.to_nat 12)) with 4096. lia.
Qed.

Lemma encoded_bytes_ok l ps : 0 <= l -> Forall (fun p => length p = 256%nat) ps -> Forall bytes_ok (map (byte_encode l) ps).
Proof. intros Hl H. apply Forall_map. eapply List.Forall_impl; [|exact H]. intros p Hp. by apply byte_encode_bytes. Qed.

Lemma vec_lengths k ps : vec k ps -> Forall (fun p => length p = 256%nat) ps.
Proof. intros [_ H]. eapply List.Forall_impl; [|exact H]. intros p Hp. by apply coeffs_length. Qed.

Lemma vec_one p : coeffs N p -> vec 1 [p].
Proof. intros Hp. split; [done|by constructor]. Qed.

(** Operations on a vector of one polynomial *)
Lemma single k ps : vec k ps -> k = 1 -> concat ps = el ps 0 /\ ps = [el ps 0].
Proof. intros [Hl _] ->. destruct ps as [|p [|]]; cbn in Hl; try lia. by rewrite concat_one. Qed.

(** ** Decryption *)

Lemma decode_poly l F : width l -> l <> 12 -> length F = 256%nat -> below (Z.to_nat l) F -> decode l (byte_encode l F) (zeroed N) = Some F.
Proof.
  intros Hw Hne Hl Hb. assert (H0 : 0 <= l) by (apply width_cases in Hw; lia). rewrite decode_spec; [f_equal; by apply byte_decode_encode|done|by apply byte_encode_length|by apply byte_encode_bytes|done].
Qed.

Section Decrypt.
Context (k du dv : Z).
Hypothesis Hpar : check_decrypt_params k du dv = true.

Lemma inner_runs P q : vec k P -> vec k q ->
  (t ← matrix_multiply 1 k k 1 (concat P) (concat (map ntt_of q)) (zeroed N); poly_vec_intt 1 t) = Some (intt_of (el (product 1 k P q) 0)).
Proof.
  intros HP Hq. destruct (decrypt_params k du dv Hpar) as (Hk & _). rewrite zeroed_one, product_runs by (done || lia || by rewrite Z.mul_1_l). cbn [mbind option_bind].
  assert (Hv : vec 1 (product 1 k P q)) by (apply product_vec; (done || lia || by rewrite Z.mul_1_l)). destruct (poly_vec_intt_runs 1 _ Hv) as [E _]. rewrite E. f_equal.
  destruct (single 1 _ Hv eq_refl) as [_ Es]. rewrite Es at 1. cbn [map]. apply concat_one.
Qed.

Lemma decrypt_runs s cu cv ptxt : vec k s -> vec_below du k cu -> length cv = 256%nat -> below (Z.to_nat dv) cv -> Z.of_nat (length ptxt) = 32 ->
  pke_decrypt k du dv (concat (map (byte_encode 12) (map ntt_of s))) (cipher_bytes du dv cu cv) ptxt =
  Some (byte_encode 1 (map (compress 1) (plain k s (decompressed du cu) (map (decompress dv) cv)))).
Proof.
  intros Hs Hcu Hcl Hcb Hp. destruct (decrypt_params k du dv Hpar) as (Hk & Wu & Wv & Hdu & Hdv & _). unfold pke_decrypt. rewrite Hpar. cbn [negb].
  pose proof Hcu as [Hlcu Hccu]. destruct (byte_blocks du k cu ltac:(lia) Hlcu) as [Hbu Hlu]. unfold cipher_bytes.
  pose proof (byte_encode_length dv cv ltac:(lia)) as Hlv.
  pose proof (subspan_mid [] (concat (map (byte_encode du) cu)) (byte_encode dv cv) 0 (k * du * 32) eq_refl (eq_sym Hlu)) as E1. cbn [app] in E1. rewrite E1. cbn [mbind option_bind].
  pose proof (subspan_mid (concat (map (byte_encode du) cu)) (byte_encode dv cv) [] (k * du * 32) (dv * 32) (eq_sym Hlu) ltac:(lia)) as E2. rewrite app_nil_r in E2. rewrite E2. cbn [mbind option_bind].
  rewrite (zeroed_vec k) by lia. pose proof (zero_vec_vec k ltac:(lia)) as Hz.
  assert (Hu256 : Forall (fun p => length p = 256%nat) cu) by (eapply List.Forall_impl; [|exact Hccu]; by intros p [Hp' _]).
  rewrite (poly_vec_decode_runs k du (map (byte_encode du) cu) (zero_vec k)); [|done|by rewrite length_map|done|apply encoded_bytes_ok; [lia|done]|rewrite length_map; destruct Hz; lia|by apply (vec_blocks k)]. cbn [mbind option_bind].
  rewrite (decode_below du k) by (done || lia). destruct (poly_vec_decompress_runs k du cu Hdu Hcu) as [E3 Hv3]. rewrite E3. cbn [mbind option_bind].
  rewrite decode_poly by (done || lia). cbn [mbind option_bind]. rewrite poly_decompress_runs by done. cbn [mbind option_bind].
  pose proof (ntt_vec k s Hs) as Hns. rewrite (poly_vec_decode_runs k 12 (map (byte_encode 12) (map ntt_of s)) (zero_vec k)); [|done|rewrite !length_map; by destruct Hs|apply byte_blocks with (k := k); [lia|by destruct Hns]|apply encoded_bytes_ok; [lia|by apply (vec_lengths k)]|rewrite !length_map; destruct Hz, Hs; lia|by apply (vec_blocks k)].
  cbn [mbind option_bind]. rewrite (decode_vec k) by done. fold (decompressed du cu) in *. destruct (poly_vec_ntt_runs k _ Hv3) as [E4 Hv4]. rewrite E4. cbn [mbind option_bind].
  pose proof (inner_runs (map ntt_of s) (decompressed du cu) Hns Hv3) as E5. destruct (matrix_multiply 1 k k 1 _ _ _) as [t|]; [|discriminate]. cbn [mbind option_bind] in E5 |- *. rewrite E5. cbn [mbind option_bind].
  assert (Hdc : coeffs N (map (decompress dv) cv)) by (split; [rewrite length_map, Hcl; done|by apply decompress_canonical]).
  assert (Hin : coeffs N (intt_of (el (product 1 k (map ntt_of s) (decompressed du cu)) 0))) by (apply (inner_coeffs k); done || lia).
  destruct (poly_vec_sub_from_runs 1 [intt_of (el (product 1 k (map ntt_of s) (decompressed du cu)) 0)] [map (decompress dv) cv] (vec_one _ Hin) (vec_one _ Hdc)) as [E6 _].
  rewrite !concat_one in E6. rewrite E6. cbn [zip_with mbind option_bind]. rewrite concat_one. fold (plain k s (decompressed du cu) (map (decompress dv) cv)).
  assert (Hpl : coeffs N (plain k s (decompressed du cu) (map (decompress dv) cv))) by (apply plain_coeffs; done || lia).
  rewrite poly_compress_runs by by apply coeffs_length. cbn [mbind option_bind]. apply poly_encode_spec; [done|rewrite length_map; by apply coeffs_length|lia].
Qed.
End Decrypt.

(** ** Encryption *)

(** The message as a polynomial *)
Definition message_poly (msg : list Z) : list Z := map (decompress 1) (byte_decode 1 msg).

Lemma message_below msg : Z.of_nat (length msg) = 32 -> bytes_ok msg -> below 1 (byte_decode 1 msg) /\ length (byte_decode 1 msg) = 256%nat.
Proof.
  intros Hl Hb. split; [|apply byte_decode_length]. unfold byte_decode. cbn [Z.eqb Pos.eqb]. rewrite map_ident. apply (repack_below 1 256). rewrite flat_length. lia.
Qed.

Lemma message_coeffs msg : Z.of_nat (length msg) = 32 -> bytes_ok msg -> coeffs N (message_poly msg).
Proof.
  intros Hl Hb. destruct (message_below msg Hl Hb) as [Hbe Hle]. split; [unfold message_poly; by rewrite length_map, Hle|]. by apply decompress_canonical.
Qed.

(** The parts of the cipher text of [msg] under the vector [T], from the coins [rcoin] *)
Definition coin_r (k eta1 : Z) (rcoin : list Z) : list (list Z) := vector_of k eta1 rcoin 0.
Definition coin_e1 (k eta2 : Z) (rcoin : list Z) : list (list Z) := vector_of k eta2 rcoin k.
Definition coin_e2 (k eta2 : Z) (rcoin : list Z) : list Z := noise eta2 rcoin (2 * k).

Definition part_u (fuel : nat) (k eta1 eta2 : Z) (rho rcoin : list Z) : list (list Z) :=
  cipher_u k (matrix_of fuel k true rho) (coin_r k eta1 rcoin) (coin_e1 k eta2 rcoin).
Definition part_v (k eta1 eta2 : Z) (T : list (list Z)) (msg rcoin : list Z) : list Z :=
  cipher_v k T (coin_r k eta1 rcoin) (coin_e2 k eta2 rcoin) (message_poly msg).

Definition cipher_text (fuel : nat) (k eta1 eta2 du dv : Z) (T : list (list Z)) (rho msg rcoin : list Z) : list Z :=
  cipher_bytes du dv (compressed du (part_u fuel k eta1 eta2 rho rcoin)) (map (compress dv) (part_v k eta1 eta2 T msg rcoin)).

(** The end of [encrypt_checked]: both parts compressed and written *)
Lemma write_parts k du dv U V ctxt : check_decrypt_params k du dv = true -> vec k U -> coeffs N V -> Z.of_nat (length ctxt) = get_pke_cipher_text_len k du dv ->
  (u ← poly_vec_compress k du (concat U);
   ctxt ← on_span ctxt 0 (k * du * 32) (poly_vec_encode k du u);
   v ← poly_compress dv V;
   on_span ctxt (Z.of_nat (length ctxt) - dv * 32) (dv * 32) (encode dv v)) = Some (cipher_bytes du dv (compressed du U) (map (compress dv) V)).
Proof.
  intros Hd Hu Hv Hct. destruct (decrypt_params k du dv Hd) as (Hk4 & Wu & Wv & Hdu & Hdv & _).
  destruct (poly_vec_compress_runs k du _ Hdu Hu) as [E7 Hcu]. rewrite E7. cbn [mbind option_bind]. fold (compressed du U) in *.
  unfold get_pke_cipher_text_len in Hct. destruct (split_at (Z.to_nat (k * du * 32)) ctxt) as (c1 & c2 & -> & Hc1); [nia|]. rewrite length_app in Hct.
  destruct (into_blocks (32 * du) k c1) as (ds & -> & Hds & Hbds & _); [lia|lia|nia|]. pose proof Hcu as [Hlcu Hccu].
  pose proof (on_span_mid [] (concat ds) c2 0 (k * du * 32) (poly_vec_encode k du (concat (compressed du U))) (concat (map (byte_encode du) (compressed du U))) eq_refl ltac:(nia)) as E8.
  cbn [app] in E8. rewrite E8; [|apply poly_vec_encode_runs; [done|done|by apply (vec_lengths k)|lia|done]]. cbn [mbind option_bind]. clear E8.
  rewrite poly_compress_runs by by apply coeffs_length. cbn [mbind option_bind]. destruct (byte_blocks du k (compressed du U) ltac:(lia) Hlcu) as [_ Hlb]. unfold cipher_bytes.
  set (cu := concat (map (byte_encode du) _)) in *. pose proof (on_span_mid cu c2 [] (Z.of_nat (length (cu ++ c2)) - dv * 32) (dv * 32) (encode dv (map (compress dv) V)) (byte_encode dv (map (compress dv) V))) as E9.
  rewrite !app_nil_r in E9. rewrite E9; [done|rewrite length_app; nia|nia|]. apply poly_encode_spec; [done|rewrite length_map; by apply coeffs_length|nia].
Qed.

Section Encrypt.
Context (fuel : nat) (k eta1 eta2 du dv : Z) (rho msg rcoin : list Z).
Hypothesis Hpar : check_encrypt_params k eta1 eta2 du dv = true.
Hypothesis Hrho : length rho = 32%nat.
Hypothesis Hrb : bytes_ok rho.
Hypothesis Hmsg : Z.of_nat (length msg) = 32.
Hypothesis Hmb : bytes_ok msg.
Hypothesis Hcoin : length rcoin = 32%nat.
Hypothesis Hcb : bytes_ok rcoin.
Hypothesis Hen : matrix_enough fuel k rho = true.

Lemma coin_vecs : vec k (coin_r k eta1 rcoin) /\ vec k (coin_e1 k eta2 rcoin) /\ coeffs N (coin_e2 k eta2 rcoin) /\ 2 <= k <= 4 /\ vec (k * k) (matrix_of fuel k true rho).
Proof.
  destruct (encrypt_params _ _ _ _ _ Hpar) as (Hk & _ & _ & Hd & _). destruct (decrypt_params k du dv Hd) as (Hk4 & _).
  split; [apply vector_of_vec; lia|]. split; [apply vector_of_vec; lia|]. split; [apply cbd_coeffs|]. split; [done|]. by apply matrix_of_vec.
Qed.

Lemma part_u_vec : vec k (part_u fuel k eta1 eta2 rho rcoin).
Proof. destruct coin_vecs as (Hr & He1 & _ & Hk & HA). apply cipher_u_vec; assumption || lia. Qed.

Lemma part_v_coeffs T : vec k T -> coeffs N (part_v k eta1 eta2 T msg rcoin).
Proof.
  intros HT. destruct coin_vecs as (Hr & _ & He2 & Hk & _). pose proof (message_coeffs msg Hmsg Hmb). assert (coeffs N (intt_of (el (product 1 k T (coin_r k eta1 rcoin)) 0))) by (apply (inner_coeffs k); assumption || lia).
  unfold part_v, cipher_v. auto with ml.
Qed.

Lemma encrypt_checked_runs T ctxt : vec k T -> Z.of_nat (length ctxt) = get_pke_cipher_text_len k du dv ->
  encrypt_checked fuel k eta1 eta2 du dv (concat T) rho msg rcoin ctxt = Some (cipher_text fuel k eta1 eta2 du dv T rho msg rcoin).
Proof.
  intros HT Hct. destruct (encrypt_params _ _ _ _ _ Hpar) as (Hk & Heta1 & Heta2 & Hd & _). destruct (decrypt_params k du dv Hd) as (Hk4 & Wu & Wv & Hdu & Hdv & _).
  destruct coin_vecs as (Hr & He1 & He2 & _ & HA). pose proof (message_coeffs msg Hmsg Hmb) as Hm. destruct (message_below msg Hmsg Hmb) as [Hmbe Hml].
  assert (Hkk : (k =? 1) || check_k k = true) by (by rewrite Hk, orb_true_r). unfold encrypt_checked.
  rewrite (zeroed_vec (k * k)) by nia. pose proof (zero_vec_vec (k * k) ltac:(nia)) as Hzz. pose proof (zero_vec_vec k ltac:(lia)) as Hz.
  rewrite generate_matrix_runs; [|assumption..|apply (vec_blocks (k * k)); assumption|destruct Hzz; assumption]. cbn [mbind option_bind].
  rewrite (zeroed_vec k) by lia. rewrite (generate_vector_runs k eta1 0 rcoin) by (assumption || (apply (vec_blocks k); assumption) || (destruct Hz; assumption)). cbn [mbind option_bind].
  assert (Eu1 : u8 (0 + k) = k) by (apply Z.mod_small; lia). assert (Eu2 : u8 (k + k) = 2 * k) by (rewrite <- Z.add_diag; apply Z.mod_small; lia). assert (Eu3 : u8 (2 * k) = 2 * k) by (apply Z.mod_small; lia). rewrite Eu1, Eu2.
  rewrite (generate_vector_runs k eta2 k rcoin) by (assumption || (apply (vec_blocks k); assumption) || (destruct Hz; assumption)). cbn [mbind option_bind].
  rewrite zeroed_one at 1. rewrite (generate_vector_runs 1 eta2 (2 * k) rcoin) by (assumption || (apply (vec_blocks 1), zero_vec_vec; lia) || reflexivity). cbn [mbind option_bind].
  assert (Ev1 : concat (vector_of 1 eta2 rcoin (2 * k)) = concat [coin_e2 k eta2 rcoin]) by (unfold vector_of, coin_e2; change (zrange 0 1) with [0]; cbn [map]; by rewrite Z.add_0_r, Eu3).
  rewrite Ev1. fold (coin_r k eta1 rcoin) (coin_e1 k eta2 rcoin).
  destruct (poly_vec_ntt_runs k _ Hr) as [E1 Hnr]. rewrite E1. cbn [mbind option_bind]. rewrite (product_runs k k (matrix_of fuel k true rho) (coin_r k eta1 rcoin) ltac:(lia) ltac:(lia) HA Hr). cbn [mbind option_bind].
  assert (Hpu : vec k (product k k (matrix_of fuel k true rho) (coin_r k eta1 rcoin))) by exact (product_vec k k _ _ ltac:(lia) ltac:(lia) HA Hr).
  destruct (poly_vec_intt_runs k _ Hpu) as [E2 Hiu]. rewrite E2. cbn [mbind option_bind]. destruct (poly_vec_add_to_runs k _ _ He1 Hiu) as [E3 Hu]. rewrite E3. cbn [mbind option_bind]. clear E1 E2 E3.
  change (zip_with poly_add (map intt_of (product k k (matrix_of fuel k true rho) (coin_r k eta1 rcoin))) (coin_e1 k eta2 rcoin)) with (part_u fuel k eta1 eta2 rho rcoin) in *.
  pose proof (inner_runs k du dv Hd T (coin_r k eta1 rcoin) HT Hr) as E4. destruct (matrix_multiply 1 k k 1 _ _ _) as [t|]; [|discriminate]. cbn [mbind option_bind] in E4 |- *. rewrite E4. cbn [mbind option_bind]. clear E4.
  set (p0 := intt_of (el (product 1 k T (coin_r k eta1 rcoin)) 0)). assert (Hp0 : coeffs N p0) by (apply (inner_coeffs k); assumption || lia).
  destruct (poly_vec_add_to_runs 1 [coin_e2 k eta2 rcoin] [p0] (vec_one _ He2) (vec_one _ Hp0)) as [E5 _]. rewrite (concat_one p0) in E5. rewrite E5. cbn [zip_with mbind option_bind]. clear E5.
  rewrite (decode_spec 1 msg (zeroed N) eq_refl ltac:(lia) Hmb eq_refl). cbn [mbind option_bind]. rewrite poly_decompress_runs by done. cbn [mbind option_bind]. fold (message_poly msg).
  destruct (poly_vec_add_to_runs 1 [message_poly msg] [poly_add p0 (coin_e2 k eta2 rcoin)] (vec_one _ Hm) (vec_one _ (poly_add_coeffs _ _ Hp0 He2))) as [E6 _]. rewrite (concat_one (message_poly msg)) in E6. rewrite E6. cbn [zip_with mbind option_bind]. clear E6.
  rewrite concat_one. change (poly_add (poly_add p0 (coin_e2 k eta2 rcoin)) (message_poly msg)) with (part_v k eta1 eta2 T msg rcoin). pose proof (part_v_coeffs T HT) as Hv.
  exact (write_parts k du dv _ _ ctxt Hd Hu Hv Hct).
Qed.
End Encrypt.

(** ** Public keys and the modulus check *)

Definition public_key (T : list (list Z)) (rho : list Z) : list Z := concat (map (byte_encode 12) T) ++ rho.

(** The vector in the bytes of a public key *)
Definition key_vec (k : Z) (B : list Z) : list (list Z) := map (byte_decode 12) (groups 384 (Z.to_nat k) B).

(** Every number of twelve bits in [B] is below [Q]. *)
Definition key_ok (k : Z) (B : list Z) : bool := forallb (fun v => v <? Q) (repack 12 (256 * Z.to_nat k) (flat 8 B)).

Lemma repack_app n k m a b : length a = (n * k)%nat -> repack n (k + m) (a ++ b) = repack n k a ++ repack n m b.
Proof.
  revert a. induction k as [|k IH]; intros a Ha; [destruct a; [done|cbn in Ha; lia]|]. cbn [Nat.add repack app]. rewrite take_app_le, drop_app_le by lia. by rewrite IH by (rewrite length_drop; lia).
Qed.

Lemma repack_canonical b : length b = 384%nat -> forallb (fun v => v <? Q) (repack 12 256 (flat 8 b)) = true <-> Forall canonical (repack 12 256 (flat 8 b)).
Proof.
  intros Hl. assert (Hb : below 12 (repack 12 256 (flat 8 b))) by (apply repack_below; rewrite flat_length, Hl; done). rewrite forallb_forall, List.Forall_forall. split; intros H v Hv.
  - specialize (H v Hv). pose proof (proj1 (List.Forall_forall _ _) Hb v Hv) as Hr. cbn in Hr. unfold canonical. lia.
  - apply Z.ltb_lt. by destruct (H v Hv).
Qed.

Lemma recode_block b : length b = 384%nat -> bytes_ok b -> bool_decide (byte_encode 12 (byte_decode 12 b) = b) = forallb (fun v => v <? Q) (repack 12 256 (flat 8 b)).
Proof. intros Hl Hb. apply eq_true_iff_eq. rewrite bool_decide_eq_true, repack_canonical by done. by apply byte_encode_decode_12. Qed.

(** Decoding and encoding again gives the same bytes exactly for such keys. *)
Lemma recode_key k B : length B = (384 * k)%nat -> bytes_ok B ->
  bool_decide (B = concat (map (byte_encode 12) (map (byte_decode 12) (groups 384 k B)))) = key_ok (Z.of_nat k) B.
Proof.
  unfold key_ok. rewrite Nat2Z.id. revert B. induction k as [|k IH]; intros B Hl Hb; [destruct B; [done|cbn in Hl; lia]|].
  destruct (split_at 384 B) as (b & B' & -> & Hbl); [lia|]. rewrite length_app in Hl. apply Forall_app in Hb as [Hb1 Hb2]. cbn [groups map concat].
  rewrite (take_app_length' b), (drop_app_length' b) by done. replace (256 * S k)%nat with (256 + 256 * k)%nat by lia.
  rewrite flat_app, repack_app by (rewrite flat_length, Hbl; done). rewrite forallb_app, <- recode_block, <- IH by (done || lia).
  assert (Hel : length (byte_encode 12 (byte_decode 12 b)) = length b) by (pose proof (byte_encode_length 12 (byte_decode 12 b) ltac:(lia)); lia).
  apply eq_true_iff_eq. rewrite andb_true_iff, !bool_decide_eq_true. split.
  - intros E. apply app_inj_1 in E as [E1 E2]; done.
  - intros [E1 E2]. by rewrite E1, <- E2.
Qed.

Lemma key_vec_vec k B : 0 <= k -> length B = (384 * Z.to_nat k)%nat -> bytes_ok B -> vec k (key_vec k B).
Proof.
  intros Hk Hl Hb. split; [unfold key_vec; rewrite length_map|]; [assert (E : forall c m (x : list Z), length (groups m c x) = c) by (induction c as [|c IH]; intros m x; [done|cbn; by rewrite IH]); rewrite E; lia|].
  apply Forall_map, List.Forall_forall. intros b _. split; [by rewrite byte_decode_length|]. unfold byte_decode. apply Forall_map, List.Forall_forall. intros v _. apply mod_canonical.
Qed.

Lemma public_key_ok k T : 0 <= k -> vec k T -> let B := concat (map (byte_encode 12) T) in
  length B = (384 * Z.to_nat k)%nat /\ bytes_ok B /\ key_vec k B = T /\ key_ok k B = true.
Proof.
  intros Hk HT B. pose proof HT as [Hl Hc]. destruct (byte_blocks 12 k T ltac:(lia) Hl) as [Hbb Hbl]. assert (HlB : length B = (384 * Z.to_nat k)%nat) by (unfold B; lia).
  assert (HbB : bytes_ok B) by (apply Forall_concat, encoded_bytes_ok; [lia|by apply (vec_lengths k)]).
  assert (Eg : forall bs, blocks (32 * 12) bs -> groups 384 (length bs) (concat bs) = bs).
  { clear. intros bs H. induction H as [|b bs Hb H IH]; [done|]. cbn [length groups concat]. rewrite (take_app_length' b), (drop_app_length' b) by lia. by rewrite IH. }
  assert (Ekv : key_vec k B = T).
  { unfold key_vec, B. replace (Z.to_nat k) with (length (map (byte_encode 12) T)) by (rewrite length_map; lia). rewrite Eg by done. by apply (decode_vec k). }
  split_and!; try done. rewrite <- (Z2Nat.id k) by lia. rewrite <- recode_key by done. apply bool_decide_eq_true. fold (key_vec k B). by rewrite Ekv.
Qed.

Section EncryptKey.
Context (fuel : nat) (k eta1 eta2 du dv : Z) (B rho msg rcoin ctxt : list Z).
Hypothesis Hpar : check_encrypt_params k eta1 eta2 du dv = true.
Hypothesis HB : length B = (384 * Z.to_nat k)%nat.
Hypothesis HBb : bytes_ok B.
Hypothesis Hrho : length rho = 32%nat.
Hypothesis Hrb : bytes_ok rho.
Hypothesis Hmsg : Z.of_nat (length msg) = 32.
Hypothesis Hmb : bytes_ok msg.
Hypothesis Hcoin : length rcoin = 32%nat.
Hypothesis Hcb : bytes_ok rcoin.
Hypothesis Hct : Z.of_nat (length ctxt) = get_pke_cipher_text_len k du dv.

(** The two ends of the modulus check *)
Lemma pke_encrypt_split : pke_encrypt fuel k eta1 eta2 du dv (B ++ rho) msg rcoin ctxt =
  if key_ok k B then c ← encrypt_checked fuel k eta1 eta2 du dv (concat (key_vec k B)) rho msg rcoin ctxt; Some (true, c) else Some (false, ctxt).
Proof.
  destruct (encrypt_params _ _ _ _ _ Hpar) as (Hk & _ & _ & Hd & _). destruct (decrypt_params k du dv Hd) as (Hk4 & _). unfold pke_encrypt. rewrite Hpar. cbn [negb].
  pose proof (subspan_mid [] B rho 0 (k * 12 * 32) eq_refl ltac:(lia)) as E1. cbn [app] in E1. rewrite E1. cbn [mbind option_bind].
  pose proof (subspan_mid B rho [] (k * 12 * 32) 32 ltac:(lia) ltac:(lia)) as E2. rewrite app_nil_r in E2. rewrite E2. cbn [mbind option_bind].
  destruct (into_blocks (32 * 12) k B) as (bs & EB & Hbs & Hbb & Hbo); [lia|lia|lia|]. specialize (Hbo HBb). pose proof (zero_vec_vec k ltac:(lia)) as Hz.
  assert (Eg : groups 384 (Z.to_nat k) B = bs).
  { rewrite EB. replace (Z.to_nat k) with (length bs) by lia. clear -Hbb. induction Hbb as [|b bs Hb H IH]; [done|]. cbn [length groups concat]. rewrite (take_app_length' b), (drop_app_length' b) by lia. by rewrite IH. }
  rewrite (zeroed_vec k) by lia. rewrite EB at 1. rewrite (poly_vec_decode_runs k 12 bs (zero_vec k)); [|done|done|done|done|destruct Hz; lia|by apply (vec_blocks k)]. cbn [mbind option_bind].
  assert (Ekv : map (byte_decode 12) bs = key_vec k B) by (unfold key_vec; by rewrite Eg). rewrite Ekv. pose proof (key_vec_vec k B ltac:(lia) HB HBb) as Hkv.
  destruct (into_blocks (32 * 12) k (zeroed (k * 12 * 32))) as (zs & Ez & Hzs & Hzb & _); [lia|lia|unfold zeroed; rewrite length_replicate; lia|]. rewrite Ez.
  rewrite (poly_vec_encode_runs k 12 (key_vec k B) zs); [|done|by destruct Hkv|by apply (vec_lengths k)|destruct Hkv; lia|done]. cbn [mbind option_bind].
  destruct (byte_blocks 12 k (key_vec k B) ltac:(lia) ltac:(by destruct Hkv)) as [_ Hel].
  rewrite ct_memcmp_spec; [|lia|lia|done|apply Forall_concat, encoded_bytes_ok; [lia|by apply (vec_lengths k)]]. cbn [mbind option_bind].
  assert (Ek : bool_decide (B = concat (map (byte_encode 12) (key_vec k B))) = key_ok k B) by (unfold key_vec; rewrite recode_key, Z2Nat.id by (done || lia); done).
  rewrite Ek. by destruct (key_ok k B).
Qed.

Lemma pke_encrypt_runs : matrix_enough fuel k rho = true ->
  pke_encrypt fuel k eta1 eta2 du dv (B ++ rho) msg rcoin ctxt = if key_ok k B then Some (true, cipher_text fuel k eta1 eta2 du dv (key_vec k B) rho msg rcoin) else Some (false, ctxt).
Proof.
  intros Hen. rewrite pke_encrypt_split. destruct (key_ok k B); [|done]. destruct (encrypt_params _ _ _ _ _ Hpar) as (Hk & _ & _ & Hd & _). destruct (decrypt_params k du dv Hd) as (Hk4 & _).
  rewrite encrypt_checked_runs; [done|assumption..|apply key_vec_vec; assumption || lia|assumption].
Qed.
End EncryptKey.

(** ** Decryption undoes encryption *)

Lemma add_sub p q : coeffs N p -> coeffs N q -> poly_add p (poly_sub q p) = q.
Proof. intros Hp Hq. apply (coeffs_ext N); auto with ml. intros i Hi. rewrite co_poly_add, co_poly_sub by auto with ml. ring. Qed.

Lemma add_sub_vec k ps qs : vec k ps -> vec k qs -> zip_with poly_add ps (zip_with poly_sub qs ps) = qs.
Proof.
  intros [Hl Hp] [Hl' Hq]. assert (E : length ps = length qs) by lia. clear Hl Hl'. revert qs Hq E. induction Hp as [|p ps Hp Hps IH]; intros [|q qs] Hq E; try discriminate; [done|]. inversion_clear Hq. cbn [zip_with]. rewrite add_sub, IH; [done|done|by injection E|done|done].
Qed.

Lemma rounded_coeffs d p : 1 <= d <= 11 -> coeffs N p -> coeffs N (map (decompress d) (map (compress d) p)).
Proof.
  intros Hd Hp. rewrite map_map. apply coeffs_map; [done|]. intros x Hx. apply decompress_spec; [done|by apply compress_range].
Qed.

Lemma rounded_vec d k ps : 1 <= d <= 11 -> vec k ps -> vec k (decompressed d (compressed d ps)).
Proof. intros Hd Hv. unfold decompressed, compressed. rewrite map_map. apply vec_map; [done|]. intros p Hp. by apply rounded_coeffs. Qed.

Lemma matrix_transposed fuel k rho i j : length rho = 32%nat -> 0 <= i < k -> 0 <= j < k -> el (matrix_of fuel k true rho) (i * k + j) = el (matrix_of fuel k false rho) (j * k + i).
Proof.
  intros Hrho Hi Hj. unfold el. rewrite !nth_lookup, !matrix_of_lookup by done. reflexivity.
Qed.

(** The rounding errors of the two parts *)
Definition error_u (d : Z) (U : list (list Z)) : list (list Z) := zip_with poly_sub (decompressed d (compressed d U)) U.
Definition error_v (d : Z) (V : list Z) : list Z := poly_sub (map (decompress d) (map (compress d) V)) V.

(** A key pair: the public vector of [s] and [e] over the matrix of [rho] *)
Definition key_vector (fuel : nat) (k : Z) (rho : list Z) (s e : list (list Z)) : list (list Z) := public_vec k (matrix_of fuel k false rho) s e.
Definition pke_public (fuel : nat) (k : Z) (rho : list Z) (s e : list (list Z)) : list Z := public_key (key_vector fuel k rho s e) rho.
Definition pke_secret (s : list (list Z)) : list Z := concat (map (byte_encode 12) (map ntt_of s)).

(** What is left besides the message *)
Definition pke_noise (fuel : nat) (k eta1 eta2 du dv : Z) (rho : list Z) (s e : list (list Z)) (msg rcoin : list Z) : list Z :=
  noise_poly s e (coin_r k eta1 rcoin) (coin_e1 k eta2 rcoin) (error_u du (part_u fuel k eta1 eta2 rho rcoin)) (coin_e2 k eta2 rcoin)
    (error_v dv (part_v k eta1 eta2 (key_vector fuel k rho s e) msg rcoin)).

Section Correct.
Context (fuel : nat) (k eta1 eta2 du dv : Z) (rho msg rcoin : list Z) (s e : list (list Z)).
Hypothesis Hpar : check_encrypt_params k eta1 eta2 du dv = true.
Hypothesis Hrho : length rho = 32%nat.
Hypothesis Hrb : bytes_ok rho.
Hypothesis Hmsg : Z.of_nat (length msg) = 32.
Hypothesis Hmb : bytes_ok msg.
Hypothesis Hcoin : length rcoin = 32%nat.
Hypothesis Hcb : bytes_ok rcoin.
Hypothesis Hen : matrix_enough fuel k rho = true.
Hypothesis Hs : vec k s.
Hypothesis He : vec k e.

Lemma key_vector_vec : vec k (key_vector fuel k rho s e).
Proof.
  destruct (encrypt_params _ _ _ _ _ Hpar) as (Hk & _ & _ & Hd & _). destruct (decrypt_params k du dv Hd) as (Hk4 & _).
  apply public_vec_vec; [lia|apply matrix_of_vec; assumption|assumption|assumption].
Qed.

(** Encryption under the public key *)
Lemma encrypt_public ctxt : Z.of_nat (length ctxt) = get_pke_cipher_text_len k du dv ->
  pke_encrypt fuel k eta1 eta2 du dv (pke_public fuel k rho s e) msg rcoin ctxt = Some (true, cipher_text fuel k eta1 eta2 du dv (key_vector fuel k rho s e) rho msg rcoin).
Proof.
  intros Hct. destruct (encrypt_params _ _ _ _ _ Hpar) as (Hk & _ & _ & Hd & _). destruct (decrypt_params k du dv Hd) as (Hk4 & _).
  destruct (public_key_ok k (key_vector fuel k rho s e) ltac:(lia) key_vector_vec) as (H1 & H2 & H3 & H4). unfold pke_public, public_key.
  rewrite pke_encrypt_runs by assumption. by rewrite H3, H4.
Qed.

(** Decryption of the cipher text leaves the message and the noise. *)
Lemma decrypt_cipher ptxt : Z.of_nat (length ptxt) = 32 -> forallb quiet (pke_noise fuel k eta1 eta2 du dv rho s e msg rcoin) = true ->
  pke_decrypt k du dv (pke_secret s) (cipher_text fuel k eta1 eta2 du dv (key_vector fuel k rho s e) rho msg rcoin) ptxt = Some msg.
Proof.
  intros Hp Hq. destruct (encrypt_params _ _ _ _ _ Hpar) as (Hk & _ & _ & Hd & _). destruct (decrypt_params k du dv Hd) as (Hk4 & Wu & Wv & Hdu & Hdv & _).
  destruct (coin_vecs fuel k eta1 eta2 du dv rho msg rcoin Hpar Hrho Hcoin Hen) as (Hr & He1 & He2 & _ & HAt).
  assert (HA : vec (k * k) (matrix_of fuel k false rho)) by (apply matrix_of_vec; assumption). pose proof key_vector_vec as HT.
  assert (HU : vec k (part_u fuel k eta1 eta2 rho rcoin)) by exact (part_u_vec fuel k eta1 eta2 du dv rho msg rcoin Hpar Hrho Hcoin Hen).
  assert (HV : coeffs N (part_v k eta1 eta2 (key_vector fuel k rho s e) msg rcoin)) by exact (part_v_coeffs fuel k eta1 eta2 du dv rho msg rcoin Hpar Hrho Hmsg Hmb Hcoin Hen _ HT).
  pose proof (compressed_below du k _ Hdu HU) as Hcu.
  assert (Hcv : length (map (compress dv) (part_v k eta1 eta2 (key_vector fuel k rho s e) msg rcoin)) = 256%nat) by (rewrite length_map; by apply coeffs_length).
  assert (Hcb2 : below (Z.to_nat dv) (map (compress dv) (part_v k eta1 eta2 (key_vector fuel k rho s e) msg rcoin))).
  { destruct (compressed_below dv 1 [part_v k eta1 eta2 (key_vector fuel k rho s e) msg rcoin] Hdv (vec_one _ HV)) as [_ H]. by inversion_clear H as [|? ? [_ Hb] _]. }
  unfold cipher_text, pke_secret. rewrite decrypt_runs by assumption. f_equal.
  pose proof (rounded_vec du k _ Hdu HU) as HU'. pose proof (rounded_coeffs dv _ Hdv HV) as HV'.
  rewrite <- (add_sub_vec k _ _ HU HU'). fold (error_u du (part_u fuel k eta1 eta2 rho rcoin)). rewrite <- (add_sub _ _ HV HV'). fold (error_v dv (part_v k eta1 eta2 (key_vector fuel k rho s e) msg rcoin)).
  destruct (message_below msg Hmsg Hmb) as [Hbe Hle]. pose proof (message_coeffs msg Hmsg Hmb) as Hm.
  assert (Hdu' : vec k (error_u du (part_u fuel k eta1 eta2 rho rcoin))) by (apply vec_zip; [exact HU'|exact HU|intros p q Hp' Hq'; by apply poly_sub_coeffs]).
  assert (Hdv' : coeffs N (error_v dv (part_v k eta1 eta2 (key_vector fuel k rho s e) msg rcoin))) by exact (poly_sub_coeffs _ _ HV' HV).
  unfold part_u at 1, part_v at 1, key_vector at 1. rewrite (plain_is_message k (matrix_of fuel k false rho) (matrix_of fuel k true rho)); [|lia|assumption|assumption|intros i j; by apply matrix_transposed|assumption..].
  fold (pke_noise fuel k eta1 eta2 du dv rho s e msg rcoin). unfold message_poly. rewrite message_survives; [apply byte_encode_decode; [lia|lia|assumption|assumption]|assumption|assumption| |assumption].
  apply (noise_coeffs k); (assumption || lia).
Qed.
End Correct.

(** ** Key generation *)

Lemma keygen_params k eta1 : check_keygen_params k eta1 = true -> check_k k = true /\ check_eta eta1 = true /\ 2 <= k <= 4.
Proof.
  unfold check_keygen_params. intros H. apply orb_prop in H as [H|H]; [apply orb_prop in H as [H|H]|]; rewrite !andb_true_iff, !Z.eqb_eq in H; destruct H as (-> & ->); split_and!; done || lia.
Qed.

(** The seeds of a key: the two halves of SHA3-512 of [d] and [k] *)
Definition key_rho (k : Z) (d : list Z) : list Z := take 32 (sha3 512 (d ++ [k])).
Definition key_sigma (k : Z) (d : list Z) : list Z := drop 32 (sha3 512 (d ++ [k])).

Lemma key_seeds k d : let g := sha3 512 (d ++ [k]) in g = key_rho k d ++ key_sigma k d /\ length (key_rho k d) = 32%nat /\ length (key_sigma k d) = 32%nat /\ bytes_ok (key_rho k d) /\ bytes_ok (key_sigma k d).
Proof.
  cbv zeta. unfold key_rho, key_sigma. pose proof (sha3_length 512 ltac:(by right) (d ++ [k])) as Hl. change (512 / 8) with 64 in Hl. pose proof (sha3_bytes 512 (d ++ [k])) as Hb. revert Hl Hb. generalize (sha3 512 (d ++ [k])). intros g Hl Hb.
  split; [symmetry; apply take_drop|]. rewrite length_take, length_drop. split; [lia|]. split; [lia|]. split; [by apply Forall_take|by apply Forall_drop].
Qed.

Definition key_s (k eta1 : Z) (d : list Z) : list (list Z) := vector_of k eta1 (key_sigma k d) 0.
Definition key_e (k eta1 : Z) (d : list Z) : list (list Z) := vector_of k eta1 (key_sigma k d) k.

(** A hash of the library into a buffer *)
Lemma digest_runs bits msg md : bits = 256 \/ bits = 512 -> bytes_ok msg -> Z.of_nat (length md) = bits / 8 ->
  (h ← sha3_absorb bits sha3_new msg; h ← sha3_finalize bits h; r ← sha3_digest bits h md; Some r.2) = Some (sha3 bits msg).
Proof.
  intros Hbits Hb Hl. change sha3_new with (hashing bits []). rewrite (sha3_absorb_spec bits Hbits) by done. cbn [mbind option_bind app].
  rewrite (sha3_finalize_spec bits Hbits). cbn [mbind option_bind]. destruct (sha3_digest_spec bits Hbits msg md Hl) as (h & E & _). by rewrite E.
Qed.

Section Keygen.
Context (fuel : nat) (k eta1 : Z) (d : list Z).
Hypothesis Hpar : check_keygen_params k eta1 = true.
Hypothesis Hd : length d = 32%nat.
Hypothesis Hdb : bytes_ok d.
Hypothesis Hen : matrix_enough fuel k (key_rho k d) = true.

(** The seeds as the code gets them out of one buffer *)
Lemma keygen_seeds {X} (cont : list Z -> list Z -> option X) :
  (g_out ← wrs (zeroed 64) 0 d; g_out ← wr g_out (Z.of_nat (length d)) (u8 k); g_in ← subspan g_out 0 (Z.of_nat (length d) + 1);
   h512 ← sha3_512_absorb sha3_new g_in; h512 ← sha3_512_finalize h512; r ← sha3_512_digest h512 g_out;
   rho ← subspan r.2 0 32; sigma ← subspan r.2 32 32; cont rho sigma) = cont (key_rho k d) (key_sigma k d).
Proof.
  destruct (keygen_params k eta1 Hpar) as (_ & _ & Hk). assert (E0 : u8 k = k) by (apply Z.mod_small; lia). rewrite E0.
  pose proof (wrs_mid [] (replicate 32 0) (replicate 32 0) 0 d eq_refl) as E1. cbn [app] in E1. change (zeroed 64) with (replicate 32 0 ++ replicate 32 0). rewrite E1 by (rewrite length_replicate; lia). cbn [mbind option_bind].
  change (d ++ replicate 32 0) with (d ++ 0 :: replicate 31 0). rewrite (wr_mid d) by done. cbn [mbind option_bind].
  pose proof (subspan_mid [] (d ++ [k]) (replicate 31 0) 0 (Z.of_nat (length d) + 1) eq_refl) as E2. cbn [app] in E2. rewrite <- app_assoc in E2. cbn [app] in E2. rewrite E2 by (rewrite length_app; cbn; lia). cbn [mbind option_bind].
  assert (Hm : bytes_ok (d ++ [k])) by (apply Forall_app; split; [done|]; repeat constructor; unfold is_u8; lia).
  pose proof (digest_runs 512 (d ++ [k]) (d ++ k :: replicate 31 0) ltac:(by right) Hm) as E3. unfold sha3_512_absorb, sha3_512_finalize, sha3_512_digest.
  destruct (sha3_absorb 512 sha3_new (d ++ [k])) as [h1|]; [|discriminate E3; rewrite length_app, Hd; done]. cbn [mbind option_bind] in E3 |- *.
  destruct (sha3_finalize 512 h1) as [h2|]; [|discriminate E3; rewrite length_app, Hd; done]. cbn [mbind option_bind] in E3 |- *.
  destruct (sha3_digest 512 h2 (d ++ k :: replicate 31 0)) as [r|]; [|discriminate E3; rewrite length_app, Hd; done]. cbn [mbind option_bind] in E3 |- *.
  assert (Er : r.2 = sha3 512 (d ++ [k])) by (injection E3; [done|rewrite length_app, Hd; done]). rewrite Er. destruct (key_seeds k d) as (Eg & Hl1 & Hl2 & _). rewrite Eg.
  pose proof (subspan_mid [] (key_rho k d) (key_sigma k d) 0 32 eq_refl ltac:(lia)) as E4. cbn [app] in E4. rewrite E4. cbn [mbind option_bind].
  pose proof (subspan_mid (key_rho k d) (key_sigma k d) [] 32 32 ltac:(lia) ltac:(lia)) as E5. rewrite app_nil_r in E5. rewrite E5. done.
Qed.

Lemma key_vecs : vec k (key_s k eta1 d) /\ vec k (key_e k eta1 d).
Proof. destruct (keygen_params k eta1 Hpar) as (_ & _ & Hk). split; apply vector_of_vec; lia. Qed.

(** The end of [pke_keygen]: both keys written *)
Lemma write_keys T s rho pubkey seckey : vec k T -> vec k s -> length rho = 32%nat ->
  Z.of_nat (length pubkey) = get_pke_public_key_len k -> Z.of_nat (length seckey) = get_pke_secret_key_len k ->
  (pubkey ← on_span pubkey 0 (k * 12 * 32) (poly_vec_encode k 12 (concat T));
   pubkey ← on_span pubkey (k * 12 * 32) 32 (fun dst => wrs dst 0 rho);
   seckey ← poly_vec_encode k 12 (concat s) seckey;
   Some (pubkey, seckey)) = Some (public_key T rho, concat (map (byte_encode 12) s)).
Proof.
  intros HT Hs Hrho Hpk Hsk. destruct (keygen_params k eta1 Hpar) as (_ & _ & Hk). unfold get_pke_public_key_len, get_pke_secret_key_len in *.
  destruct (split_at (Z.to_nat (k * 12 * 32)) pubkey) as (p1 & p2 & -> & Hp1); [lia|]. rewrite length_app in Hpk.
  destruct (into_blocks (32 * 12) k p1) as (ps & -> & Hps & Hpb & _); [lia|lia|lia|]. destruct (into_blocks (32 * 12) k seckey) as (ss & -> & Hss & Hsb & _); [lia|lia|lia|].
  pose proof (on_span_mid [] (concat ps) p2 0 (k * 12 * 32) (poly_vec_encode k 12 (concat T)) (concat (map (byte_encode 12) T)) eq_refl ltac:(lia)) as E1. cbn [app] in E1.
  rewrite E1; [|apply poly_vec_encode_runs; [done|by destruct HT|by apply (vec_lengths k)|destruct HT; lia|done]]. cbn [mbind option_bind].
  destruct (byte_blocks 12 k T ltac:(lia) ltac:(by destruct HT)) as [_ Hlb].
  pose proof (on_span_mid (concat (map (byte_encode 12) T)) p2 [] (k * 12 * 32) 32 (fun dst => wrs dst 0 rho) rho ltac:(lia) ltac:(lia)) as E2. rewrite !app_nil_r in E2.
  pose proof (wrs_mid [] p2 [] 0 rho eq_refl ltac:(lia)) as E3. cbn [app] in E3. rewrite !app_nil_r in E3. rewrite E2 by done. cbn [mbind option_bind].
  rewrite (poly_vec_encode_runs k 12 s ss); [done|done|by destruct Hs|by apply (vec_lengths k)|destruct Hs; lia|done].
Qed.

Lemma pke_keygen_runs pubkey seckey : Z.of_nat (length pubkey) = get_pke_public_key_len k -> Z.of_nat (length seckey) = get_pke_secret_key_len k ->
  pke_keygen fuel k eta1 d pubkey seckey = Some (pke_public fuel k (key_rho k d) (key_s k eta1 d) (key_e k eta1 d), pke_secret (key_s k eta1 d)).
Proof.
  intros Hpk Hsk. destruct (keygen_params k eta1 Hpar) as (Hk & Heta & Hk4). destruct (key_seeds k d) as (_ & Hl1 & Hl2 & Hb1 & Hb2). destruct key_vecs as [Hs He].
  unfold pke_keygen. rewrite Hpar. cbn [negb]. rewrite keygen_seeds. assert (Hkk : (k =? 1) || check_k k = true) by (by rewrite Hk, orb_true_r).
  rewrite (zeroed_vec (k * k)) by nia. pose proof (zero_vec_vec (k * k) ltac:(nia)) as Hzz. pose proof (zero_vec_vec k ltac:(lia)) as Hz.
  rewrite generate_matrix_runs; [|assumption..|apply (vec_blocks (k * k)); assumption|destruct Hzz; assumption]. cbn [mbind option_bind].
  assert (HA : vec (k * k) (matrix_of fuel k false (key_rho k d))) by (apply matrix_of_vec; assumption).
  rewrite (zeroed_vec k) by lia. rewrite (generate_vector_runs k eta1 0 (key_sigma k d)) by (assumption || (apply (vec_blocks k); assumption) || (destruct Hz; assumption)). cbn [mbind option_bind].
  assert (Eu1 : u8 (0 + k) = k) by (apply Z.mod_small; lia). rewrite Eu1.
  rewrite (generate_vector_runs k eta1 k (key_sigma k d)) by (assumption || (apply (vec_blocks k); assumption) || (destruct Hz; assumption)). cbn [mbind option_bind].
  fold (key_s k eta1 d) (key_e k eta1 d). destruct (poly_vec_ntt_runs k _ Hs) as [E1 Hns]. rewrite E1. cbn [mbind option_bind]. destruct (poly_vec_ntt_runs k _ He) as [E2 Hne]. rewrite E2. cbn [mbind option_bind].
  rewrite (product_runs k k _ _ ltac:(lia) ltac:(lia) HA Hs). cbn [mbind option_bind]. pose proof (product_vec k k _ _ ltac:(lia) ltac:(lia) HA Hs) as Hp.
  destruct (poly_vec_add_to_runs k _ _ Hne Hp) as [E3 HT]. rewrite E3. cbn [mbind option_bind]. exact (write_keys _ _ _ pubkey seckey HT Hns Hl1 Hpk Hsk).
Qed.
End Keygen.
