(* ===== verification/MlKem.v ===== *)
(** * The key encapsulation mechanism: tools/ml_kem_512_single.hpp, namespaces ml_kem and ml_kem_512

    Key generation, encapsulation and decapsulation around the encryption
    scheme, with the three hash functions at the places where the source calls
    them, and the instance with the parameters of ML-KEM-512.  Then what each
    of them computes. *)

From Stdlib Require Import Lia Zmod.
From stdpp Require Import base tactics list numbers option.
From S2P Require Import Prelude QrArray MlField MlNtt MlRing MlCodec MlBits MlVector MlScheme Keccak Sponge.
From S2P Require Import SpongeSpec Xof MlSample MlSubtle MlPke MlPkeSpec.
Local Open Scope Z_scope.

(** ** The operations *)

Definition get_kem_public_key_len (k : Z) : Z := get_pke_public_key_len k.
Definition get_kem_secret_key_len (k : Z) : Z := get_pke_secret_key_len k + get_pke_public_key_len k + 32 + 32.
Definition get_kem_cipher_text_len (k du dv : Z) : Z := get_pke_cipher_text_len k du dv.

Definition kem_keygen (fuel : nat) (k eta1 : Z) (d z pubkey seckey : list Z) : option (list Z * list Z) :=
  if negb (check_keygen_params k eta1) then None else
  let seckey_offset_kpke_skey := k * 12 * 32 in
  let seckey_offset_kpke_pkey := seckey_offset_kpke_skey + Z.of_nat (length pubkey) in
  let seckey_offset_z := seckey_offset_kpke_pkey + 32 in
  kpke_skey_in_seckey ← subspan seckey 0 seckey_offset_kpke_skey;
  kpke_pkey_in_seckey ← subspan seckey seckey_offset_kpke_skey (seckey_offset_kpke_pkey - seckey_offset_kpke_skey);
  keys ← pke_keygen fuel k eta1 d kpke_pkey_in_seckey kpke_skey_in_seckey;
  seckey ← wrs seckey seckey_offset_kpke_skey keys.1;
  seckey ← wrs seckey 0 keys.2;
  pubkey ← wrs pubkey 0 keys.1;
  seckey ← wrs seckey seckey_offset_z z;
  hasher ← sha3_256_absorb sha3_new pubkey;
  hasher ← sha3_256_finalize hasher;
  kpke_pkey_digest_in_seckey ← subspan seckey seckey_offset_kpke_pkey (seckey_offset_z - seckey_offset_kpke_pkey);
  r ← sha3_256_digest hasher kpke_pkey_digest_in_seckey;
  seckey ← wrs seckey seckey_offset_kpke_pkey r.2;
  Some (pubkey, seckey).

(** The result, the cipher text and the shared secret *)
Definition kem_encapsulate (fuel : nat) (k eta1 eta2 du dv : Z) (m pubkey cipher shared_secret : list Z) : option (bool * list Z * list Z) :=
  if negb (check_encap_params k eta1 eta2 du dv) then None else
  g_in ← wrs (zeroed (Z.of_nat (length m) + 32)) 0 m;
  h256 ← sha3_256_absorb sha3_new pubkey;
  h256 ← sha3_256_finalize h256;
  g_in_span1 ← subspan g_in (Z.of_nat (length g_in) - 32) 32;
  r ← sha3_256_digest h256 g_in_span1;
  g_in ← wrs g_in (Z.of_nat (length g_in) - 32) r.2;
  h512 ← sha3_512_absorb sha3_new g_in;
  h512 ← sha3_512_finalize h512;
  r ← sha3_512_digest h512 (zeroed 64);
  let g_out := r.2 in
  g_out_span0 ← subspan g_out 0 (Z.of_nat (length shared_secret));
  g_out_span1 ← subspan g_out (Z.of_nat (length shared_secret)) (Z.of_nat (length g_out) - Z.of_nat (length shared_secret));
  e ← pke_encrypt fuel k eta1 eta2 du dv pubkey m g_out_span1 cipher;
  let '(has_mod_check_passed, cipher) := e in
  if negb has_mod_check_passed then Some (has_mod_check_passed, cipher, shared_secret)
  else
    shared_secret ← wrs shared_secret 0 g_out_span0;
    Some (true, cipher, shared_secret).

Definition kem_decapsulate (fuel : nat) (k eta1 eta2 du dv : Z) (seckey cipher shared_secret : list Z) : option (list Z) :=
  if negb (check_decap_params k eta1 eta2 du dv) then None else
  let sklen := k * 12 * 32 in
  let pklen := k * 12 * 32 + 32 in
  let ctlen := Z.of_nat (length cipher) in
  let skoff0 := sklen in
  let skoff1 := skoff0 + pklen in
  let skoff2 := skoff1 + 32 in
  pke_sk ← subspan seckey 0 skoff0;
  pubkey ← subspan seckey skoff0 (skoff1 - skoff0);
  h ← subspan seckey skoff1 (skoff2 - skoff1);
  z ← subspan seckey skoff2 (Z.of_nat (length seckey) - skoff2);
  let g_in := zeroed (32 + Z.of_nat (length h)) in
  g_in_span0 ← subspan g_in 0 32;
  g_in_span0 ← pke_decrypt k du dv pke_sk cipher g_in_span0;
  g_in ← wrs g_in 0 g_in_span0;
  g_in ← wrs g_in (Z.of_nat (length g_in) - Z.of_nat (length h)) h;
  h512 ← sha3_512_absorb sha3_new g_in;
  h512 ← sha3_512_finalize h512;
  r ← sha3_512_digest h512 (zeroed (Z.of_nat (length shared_secret) + 32));
  let g_out := r.2 in
  g_out_span0 ← subspan g_out 0 (Z.of_nat (length shared_secret));
  g_out_span1 ← subspan g_out (Z.of_nat (length g_out) - 32) 32;
  xof256 ← shake256_absorb xof_new z;
  xof256 ← shake256_absorb xof256 cipher;
  xof256 ← shake256_finalize xof256;
  j ← shake256_squeeze xof256 (zeroed (Z.of_nat (length shared_secret)));
  e ← pke_encrypt fuel k eta1 eta2 du dv pubkey g_in_span0 g_out_span1 (zeroed ctlen);
  let c_prime := e.2 in
  cond ← ct_memcmp ctlen cipher c_prime;
  ct_cond_memcpy (Z.of_nat (length shared_secret)) cond shared_secret g_out_span0 z.

(** ** ML-KEM-512 *)

Definition ml_kem_512_k : Z := 2.
Definition ml_kem_512_eta1 : Z := 3.
Definition ml_kem_512_eta2 : Z := 2.
Definition ml_kem_512_du : Z := 10.
Definition ml_kem_512_dv : Z := 4.
Definition PKEY_BYTE_LEN : Z := get_kem_public_key_len ml_kem_512_k.
Definition SKEY_BYTE_LEN : Z := get_kem_secret_key_len ml_kem_512_k.
Definition CIPHER_TEXT_BYTE_LEN : Z := get_kem_cipher_text_len ml_kem_512_k ml_kem_512_du ml_kem_512_dv.

Definition ml_kem_512_keygen (fuel : nat) (d z pubkey seckey : list Z) : option (list Z * list Z) :=
  kem_keygen fuel ml_kem_512_k ml_kem_512_eta1 d z pubkey seckey.
Definition ml_kem_512_encapsulate (fuel : nat) (m pubkey cipher shared_secret : list Z) : option (bool * list Z * list Z) :=
  kem_encapsulate fuel ml_kem_512_k ml_kem_512_eta1 ml_kem_512_eta2 ml_kem_512_du ml_kem_512_dv m pubkey cipher shared_secret.
Definition ml_kem_512_decapsulate (fuel : nat) (seckey cipher shared_secret : list Z) : option (list Z) :=
  kem_decapsulate fuel ml_kem_512_k ml_kem_512_eta1 ml_kem_512_eta2 ml_kem_512_du ml_kem_512_dv seckey cipher shared_secret.

(** The lengths that the comments of the source give *)
Example ml_kem_512_lengths : (PKEY_BYTE_LEN, SKEY_BYTE_LEN, CIPHER_TEXT_BYTE_LEN) = (800, 1632, 768).
Proof. by vm_compute. Qed.

(** * What the key encapsulation mechanism computes

    Each operation as a function of the polynomials and hashes of
    FIPS 203. *)

(** ** Hashes *)

Lemma digest_steps bits msg md : bits = 256 \/ bits = 512 -> bytes_ok msg -> Z.of_nat (length md) = bits / 8 ->
  exists h1 h2 r, sha3_absorb bits sha3_new msg = Some h1 /\ sha3_finalize bits h1 = Some h2 /\ sha3_digest bits h2 md = Some r /\ r.2 = sha3 bits msg.
Proof.
  intros Hbits Hb Hl. pose proof (digest_runs bits msg md Hbits Hb Hl) as E. destruct (sha3_absorb bits sha3_new msg) as [h1|]; [|discriminate]. cbn [mbind option_bind] in E.
  destruct (sha3_finalize bits h1) as [h2|] eqn:E2; [|discriminate]. cbn [mbind option_bind] in E. destruct (sha3_digest bits h2 md) as [r|] eqn:E3; [|discriminate]. injection E as E.
  exists h1, h2, r. done.
Qed.

(** The hash [G] of FIPS 203, in its two halves *)
Definition G_key (m h : list Z) : list Z := take 32 (sha3 512 (m ++ h)).
Definition G_coins (m h : list Z) : list Z := drop 32 (sha3 512 (m ++ h)).

Lemma G_halves m h : sha3 512 (m ++ h) = G_key m h ++ G_coins m h /\ length (G_key m h) = 32%nat /\ length (G_coins m h) = 32%nat /\ bytes_ok (G_key m h) /\ bytes_ok (G_coins m h).
Proof.
  unfold G_key, G_coins. pose proof (sha3_length 512 ltac:(by right) (m ++ h)) as Hl. change (512 / 8) with 64 in Hl. pose proof (sha3_bytes 512 (m ++ h)) as Hb. revert Hl Hb. generalize (sha3 512 (m ++ h)). intros g Hl Hb.
  split; [symmetry; apply take_drop|]. rewrite length_take, length_drop. split; [lia|]. split; [lia|]. split; [by apply Forall_take|by apply Forall_drop].
Qed.

Lemma sha3_256_length M : length (sha3 256 M) = 32%nat.
Proof. pose proof (sha3_length 256 ltac:(by left) M) as H. change (256 / 8) with 32 in H. lia. Qed.

(** ** Any cipher text decrypts to something *)

Definition pke_plain (k du dv : Z) (s : list (list Z)) (c : list Z) : list Z := default [] (pke_decrypt k du dv (pke_secret s) c (zeroed 32)).

Lemma parse_cipher k du dv c : check_decrypt_params k du dv = true -> Z.of_nat (length c) = get_pke_cipher_text_len k du dv -> bytes_ok c ->
  exists cu cv, c = cipher_bytes du dv cu cv /\ vec_below du k cu /\ length cv = 256%nat /\ below (Z.to_nat dv) cv.
Proof.
  intros Hd Hl Hb. destruct (decrypt_params k du dv Hd) as (Hk4 & Wu & Wv & Hdu & Hdv & _). unfold get_pke_cipher_text_len in Hl.
  destruct (split_at (Z.to_nat (k * du * 32)) c) as (c1 & c2 & -> & Hc1); [nia|]. rewrite length_app in Hl. apply Forall_app in Hb as [Hb1 Hb2].
  destruct (into_blocks (32 * du) k c1) as (ds & -> & Hds & Hbds & Hok); [lia|lia|nia|]. specialize (Hok Hb1).
  assert (Hlow : forall l b, 1 <= l <= 11 -> Z.of_nat (length b) = 32 * l -> bytes_ok b -> below (Z.to_nat l) (byte_decode l b)).
  { intros l b Hl' Hlb Hbb. unfold byte_decode. rewrite (proj2 (Z.eqb_neq l 12)) by lia. rewrite map_ident. apply repack_below. rewrite flat_length. lia. }
  assert (Hl2 : Z.of_nat (length c2) = 32 * dv) by nia.
  exists (map (byte_decode du) ds), (byte_decode dv c2). split_and!.
  - unfold cipher_bytes. f_equal; [|symmetry; apply byte_encode_decode; done || lia]. f_equal. clear -Hbds Hok Hdu. induction Hbds as [|b bs Hb H IH]; [done|]. inversion_clear Hok. cbn [map]. rewrite <- IH by done. f_equal. symmetry. apply byte_encode_decode; done || lia.
  - split; [rewrite length_map; lia|]. clear -Hbds Hok Hdu Hlow. induction Hbds as [|b bs Hb H IH]; [constructor|]. inversion_clear Hok. cbn [map]. constructor; [split; [apply byte_decode_length|by apply Hlow]|by apply IH].
  - apply byte_decode_length.
  - by apply Hlow.
Qed.

Lemma pke_plain_runs k du dv s c ptxt : check_decrypt_params k du dv = true -> vec k s -> Z.of_nat (length c) = get_pke_cipher_text_len k du dv -> bytes_ok c -> Z.of_nat (length ptxt) = 32 ->
  pke_decrypt k du dv (pke_secret s) c ptxt = Some (pke_plain k du dv s c) /\ length (pke_plain k du dv s c) = 32%nat /\ bytes_ok (pke_plain k du dv s c).
Proof.
  intros Hd Hs Hl Hb Hp. destruct (decrypt_params k du dv Hd) as (Hk4 & Wu & Wv & Hdu & Hdv & _). destruct (parse_cipher k du dv c Hd Hl Hb) as (cu & cv & -> & Hcu & Hcl & Hcb).
  unfold pke_plain, pke_secret. rewrite (decrypt_runs k du dv Hd s cu cv (zeroed 32)) by done. rewrite (decrypt_runs k du dv Hd s cu cv ptxt) by done. cbn [default from_option id]. split; [done|].
  destruct (poly_vec_decompress_runs k du cu Hdu Hcu) as [_ Hu]. assert (Hdc : coeffs N (map (decompress dv) cv)) by (split; [rewrite length_map, Hcl; done|by apply decompress_canonical]).
  assert (Hpl : coeffs N (plain k s (decompressed du cu) (map (decompress dv) cv))) by (apply plain_coeffs; done || lia).
  pose proof (byte_encode_length 1 (map (compress 1) (plain k s (decompressed du cu) (map (decompress dv) cv))) ltac:(lia)).
  split; [lia|]. apply byte_encode_bytes; [lia|]. rewrite length_map. by apply coeffs_length.
Qed.

Lemma cipher_bytes_ok k du dv U V : check_decrypt_params k du dv = true -> vec k U -> coeffs N V ->
  let c := cipher_bytes du dv (compressed du U) (map (compress dv) V) in Z.of_nat (length c) = get_pke_cipher_text_len k du dv /\ bytes_ok c.
Proof.
  intros Hd HU HV c. destruct (decrypt_params k du dv Hd) as (Hk4 & Wu & Wv & Hdu & Hdv & _). destruct (compressed_below du k U Hdu HU) as [Hlc Hcc].
  destruct (byte_blocks du k _ ltac:(lia) Hlc) as [_ Hl]. pose proof (byte_encode_length dv (map (compress dv) V) ltac:(lia)) as Hlv. unfold c, cipher_bytes. split.
  - rewrite length_app. unfold get_pke_cipher_text_len. lia.
  - apply Forall_app. split; [apply Forall_concat, encoded_bytes_ok; [lia|]; eapply List.Forall_impl; [|exact Hcc]; by intros p [Hp _]|].
    apply byte_encode_bytes; [lia|]. rewrite length_map. by apply coeffs_length.
Qed.

(** ** Encapsulation to any key *)

Section Encapsulate.
Context (fuel : nat) (k eta1 eta2 du dv : Z) (pk m cipher shared_secret : list Z).
Hypothesis Hpar : check_encrypt_params k eta1 eta2 du dv = true.
Hypothesis Hbpk : bytes_ok pk.
Hypothesis Hm : length m = 32%nat.
Hypothesis Hmb : bytes_ok m.
Hypothesis Hss : length shared_secret = 32%nat.

Lemma encapsulate_split : kem_encapsulate fuel k eta1 eta2 du dv m pk cipher shared_secret =
  (e ← pke_encrypt fuel k eta1 eta2 du dv pk m (G_coins m (sha3 256 pk)) cipher; Some (e.1, e.2, if e.1 : bool then G_key m (sha3 256 pk) else shared_secret)).
Proof.
  unfold kem_encapsulate, check_encap_params. rewrite Hpar. cbn [negb]. rewrite Hm, Hss.
  pose proof (wrs_mid [] (replicate 32 0) (replicate 32 0) 0 m eq_refl) as E1. cbn [app] in E1. change (zeroed (Z.of_nat 32 + 32)) with (replicate 32 0 ++ replicate 32 0). rewrite E1 by (rewrite length_replicate; lia). cbn [mbind option_bind]. clear E1.
  destruct (digest_steps 256 pk (replicate 32 0) ltac:(by left) Hbpk eq_refl) as (h1 & h2 & r & Ea & Ef & Ed & Er). unfold sha3_256_absorb, sha3_256_finalize, sha3_256_digest. rewrite Ea. cbn [mbind option_bind]. rewrite Ef. cbn [mbind option_bind].
  pose proof (sha3_256_length pk) as Hl256.
  assert (Hlen : Z.of_nat (length (m ++ replicate 32 0)) - 32 = Z.of_nat (length m)) by (rewrite length_app, length_replicate; lia). rewrite Hlen.
  pose proof (subspan_mid m (replicate 32 0) [] (Z.of_nat (length m)) 32 eq_refl eq_refl) as E2. rewrite app_nil_r in E2. rewrite E2. cbn [mbind option_bind]. rewrite Ed. cbn [mbind option_bind]. rewrite Er.
  pose proof (wrs_mid m (replicate 32 0) [] (Z.of_nat (length m)) (sha3 256 pk) eq_refl) as E3. rewrite !app_nil_r in E3. rewrite E3 by (rewrite length_replicate; lia). cbn [mbind option_bind]. clear Ea Ef Ed Er E2 E3.
  destruct (G_halves m (sha3 256 pk)) as (EG & Hl1 & Hl2 & Hb1 & Hb2).
  destruct (digest_steps 512 (m ++ sha3 256 pk) (zeroed 64) ltac:(by right)) as (g1 & g2 & q & Ea & Ef & Ed & Er); [apply Forall_app; split; [done|apply sha3_bytes]|done|].
  unfold sha3_512_absorb, sha3_512_finalize, sha3_512_digest. rewrite Ea. cbn [mbind option_bind]. rewrite Ef. cbn [mbind option_bind]. rewrite Ed. cbn [mbind option_bind]. rewrite Er, EG.
  pose proof (subspan_mid [] (G_key m (sha3 256 pk)) (G_coins m (sha3 256 pk)) 0 (Z.of_nat 32) eq_refl ltac:(lia)) as E4. cbn [app] in E4. rewrite E4. cbn [mbind option_bind].
  pose proof (subspan_mid (G_key m (sha3 256 pk)) (G_coins m (sha3 256 pk)) [] (Z.of_nat 32) (Z.of_nat (length (G_key m (sha3 256 pk) ++ G_coins m (sha3 256 pk))) - Z.of_nat 32) ltac:(lia) ltac:(rewrite length_app; lia)) as E5. rewrite app_nil_r in E5. rewrite E5. cbn [mbind option_bind].
  destruct (pke_encrypt fuel k eta1 eta2 du dv pk m (G_coins m (sha3 256 pk)) cipher) as [[b c]|]; [|done]. cbn [mbind option_bind fst snd]. destruct b; [|done]. cbn [negb].
  pose proof (wrs_mid [] shared_secret [] 0 (G_key m (sha3 256 pk)) eq_refl ltac:(lia)) as E7. cbn [app] in E7. rewrite !app_nil_r in E7. by rewrite E7.
Qed.
End Encapsulate.

(** ** Key pairs *)

Definition kem_secret (s : list (list Z)) (pk z : list Z) : list Z := pke_secret s ++ pk ++ sha3 256 pk ++ z.

Section Kem.
Context (fuel : nat) (k eta1 eta2 du dv : Z) (rho : list Z) (T : list (list Z)).
Hypothesis Hpar : check_encrypt_params k eta1 eta2 du dv = true.
Hypothesis Hrho : length rho = 32%nat.
Hypothesis Hrb : bytes_ok rho.
Hypothesis Hen : matrix_enough fuel k rho = true.
Hypothesis HT : vec k T.

Let pk : list Z := public_key T rho.

Lemma kem_k : 2 <= k <= 4 /\ check_decrypt_params k du dv = true.
Proof. destruct (encrypt_params _ _ _ _ _ Hpar) as (_ & _ & _ & Hd & _). destruct (decrypt_params k du dv Hd) as (Hk4 & _). done. Qed.

Lemma pk_bytes : Z.of_nat (length pk) = k * 12 * 32 + 32 /\ bytes_ok pk.
Proof.
  destruct kem_k as [Hk _]. destruct (public_key_ok k T ltac:(lia) HT) as (Hl & Hb & _). unfold pk, public_key. split; [rewrite length_app; lia|by apply Forall_app].
Qed.

(** Encryption under [pk] always passes the check. *)
Lemma pk_encrypts msg coins ctxt : length msg = 32%nat -> bytes_ok msg -> length coins = 32%nat -> bytes_ok coins -> Z.of_nat (length ctxt) = get_pke_cipher_text_len k du dv ->
  pke_encrypt fuel k eta1 eta2 du dv pk msg coins ctxt = Some (true, cipher_text fuel k eta1 eta2 du dv T rho msg coins) /\
  Z.of_nat (length (cipher_text fuel k eta1 eta2 du dv T rho msg coins)) = get_pke_cipher_text_len k du dv /\ bytes_ok (cipher_text fuel k eta1 eta2 du dv T rho msg coins).
Proof.
  intros Hm Hmb Hc Hcb Hl. destruct kem_k as [Hk Hd]. destruct (public_key_ok k T ltac:(lia) HT) as (H1 & H2 & H3 & H4). assert (Hm32 : Z.of_nat (length msg) = 32) by lia. split.
  - unfold pk, public_key. rewrite pke_encrypt_runs by assumption. by rewrite H3, H4.
  - apply (cipher_bytes_ok k); [assumption|exact (part_u_vec fuel k eta1 eta2 du dv rho msg coins Hpar Hrho Hc Hen)|exact (part_v_coeffs fuel k eta1 eta2 du dv rho msg coins Hpar Hrho Hm32 Hmb Hc Hen T HT)].
Qed.

Lemma encapsulate_runs m cipher shared_secret : length m = 32%nat -> bytes_ok m -> Z.of_nat (length cipher) = get_kem_cipher_text_len k du dv -> length shared_secret = 32%nat ->
  kem_encapsulate fuel k eta1 eta2 du dv m pk cipher shared_secret =
  Some (true, cipher_text fuel k eta1 eta2 du dv T rho m (G_coins m (sha3 256 pk)), G_key m (sha3 256 pk)).
Proof.
  intros Hm Hmb Hc Hss. destruct pk_bytes as [Hlpk Hbpk]. destruct (G_halves m (sha3 256 pk)) as (_ & _ & Hl2 & _ & Hb2). rewrite encapsulate_split by assumption.
  destruct (pk_encrypts m (G_coins m (sha3 256 pk)) cipher Hm Hmb Hl2 Hb2 Hc) as [E _]. by rewrite E.
Qed.

Context (s : list (list Z)) (z : list Z).
Hypothesis Hs : vec k s.
Hypothesis Hz : length z = 32%nat.
Hypothesis Hzb : bytes_ok z.

(** The cipher text that decapsulation compares with *)
Definition re_encrypted (c : list Z) : list Z := cipher_text fuel k eta1 eta2 du dv T rho (pke_plain k du dv s c) (G_coins (pke_plain k du dv s c) (sha3 256 pk)).

Lemma pke_secret_length : Z.of_nat (length (pke_secret s)) = k * 12 * 32.
Proof. destruct kem_k as [Hk _]. unfold pke_secret. destruct (byte_blocks 12 k (map ntt_of s) ltac:(lia)) as [_ H]; [rewrite length_map; by destruct Hs|]. lia. Qed.

Lemma decapsulate_runs c shared_secret : Z.of_nat (length c) = get_kem_cipher_text_len k du dv -> bytes_ok c -> length shared_secret = 32%nat ->
  kem_decapsulate fuel k eta1 eta2 du dv (kem_secret s pk z) c shared_secret =
  Some (if bool_decide (c = re_encrypted c) then G_key (pke_plain k du dv s c) (sha3 256 pk) else z).
Proof.
  intros Hc Hcb Hss. destruct kem_k as [Hk Hd]. destruct pk_bytes as [Hlpk Hbpk]. pose proof (sha3_256_length pk) as Hl256. pose proof pke_secret_length as Hlsk.
  unfold kem_decapsulate, check_decap_params, check_encap_params, kem_secret. rewrite Hpar. cbn [negb]. cbv zeta. set (h := sha3 256 pk) in *.
  pose proof (subspan_mid [] (pke_secret s) (pk ++ h ++ z) 0 (k * 12 * 32) eq_refl (eq_sym Hlsk)) as E1. cbn [app] in E1. rewrite E1. cbn [mbind option_bind].
  rewrite (subspan_mid (pke_secret s) pk (h ++ z) (k * 12 * 32) (k * 12 * 32 + (k * 12 * 32 + 32) - k * 12 * 32)) by lia. cbn [mbind option_bind].
  rewrite (app_assoc (pke_secret s)), (subspan_mid (pke_secret s ++ pk) h z (k * 12 * 32 + (k * 12 * 32 + 32)) (k * 12 * 32 + (k * 12 * 32 + 32) + 32 - (k * 12 * 32 + (k * 12 * 32 + 32)))) by (rewrite ?length_app; lia). cbn [mbind option_bind].
  rewrite (app_assoc (pke_secret s ++ pk)). pose proof (subspan_mid ((pke_secret s ++ pk) ++ h) z [] (k * 12 * 32 + (k * 12 * 32 + 32) + 32) (Z.of_nat (length (((pke_secret s ++ pk) ++ h) ++ z)) - (k * 12 * 32 + (k * 12 * 32 + 32) + 32)) ltac:(rewrite !length_app; lia) ltac:(rewrite !length_app; lia)) as E4.
  rewrite app_nil_r in E4. rewrite E4. cbn [mbind option_bind]. clear E1 E4. rewrite Hl256. change (zeroed (32 + Z.of_nat 32)) with (replicate 32 0 ++ replicate 32 0).
  pose proof (subspan_mid [] (replicate 32 0) (replicate 32 0) 0 32 eq_refl eq_refl) as E5. cbn [app] in E5. rewrite E5. cbn [mbind option_bind].
  destruct (pke_plain_runs k du dv s c (replicate 32 0) Hd Hs Hc Hcb eq_refl) as (E6 & Hlm & Hbm). rewrite E6. cbn [mbind option_bind]. clear E5 E6. unfold re_encrypted. fold h. set (m := pke_plain k du dv s c) in *. clearbody m.
  pose proof (wrs_mid [] (replicate 32 0) (replicate 32 0) 0 m eq_refl) as E7. cbn [app] in E7. rewrite E7 by (rewrite length_replicate; lia). cbn [mbind option_bind].
  pose proof (wrs_mid m (replicate 32 0) [] (Z.of_nat (length (m ++ replicate 32 0)) - Z.of_nat 32) h) as E8. rewrite !app_nil_r in E8. rewrite E8 by (rewrite ?length_app, ?length_replicate; lia). cbn [mbind option_bind]. clear E7 E8.
  destruct (G_halves m h) as (EG & Hl1 & Hl2 & Hb1 & Hb2). rewrite Hss.
  destruct (digest_steps 512 (m ++ h) (zeroed (Z.of_nat 32 + 32)) ltac:(by right)) as (g1 & g2 & q & Ea & Ef & Ed & Er); [apply Forall_app; split; [assumption|apply sha3_bytes]|reflexivity|].
  unfold sha3_512_absorb, sha3_512_finalize, sha3_512_digest. rewrite Ea. cbn [mbind option_bind]. rewrite Ef. cbn [mbind option_bind]. rewrite Ed. cbn [mbind option_bind]. rewrite Er, EG. clear Ea Ef Ed Er.
  pose proof (subspan_mid [] (G_key m h) (G_coins m h) 0 (Z.of_nat 32) eq_refl ltac:(lia)) as E4. cbn [app] in E4. rewrite E4. cbn [mbind option_bind].
  pose proof (subspan_mid (G_key m h) (G_coins m h) [] (Z.of_nat (length (G_key m h ++ G_coins m h)) - 32) 32 ltac:(rewrite length_app; lia) ltac:(lia)) as E5. rewrite app_nil_r in E5. rewrite E5. cbn [mbind option_bind].
  assert (EJ : exists x1 x2 x3 j, shake256_absorb xof_new z = Some x1 /\ shake256_absorb x1 c = Some x2 /\ shake256_finalize x2 = Some x3 /\ shake256_squeeze x3 (zeroed (Z.of_nat 32)) = Some j).
  { pose proof (xof_absorb_spec 17 24 ltac:(done) ltac:(by right) [] z Hzb) as X1. pose proof (xof_absorb_spec 17 24 ltac:(done) ltac:(by right) ([] ++ z) c Hcb) as X2.
    pose proof (xof_finalize_spec 17 24 ltac:(done) ltac:(by right) 15 4 ltac:(done) (([] ++ z) ++ c)) as X3.
    pose proof (xof_squeeze_spec 17 24 ltac:(done) ltac:(by right) _ 0 (zeroed (Z.of_nat 32)) (sponge_state_length 17 24 ltac:(done) ltac:(by right) 15 4 ltac:(done) (([] ++ z) ++ c)) ltac:(done)) as X4.
    do 4 eexists. split; [exact X1|]. split; [exact X2|]. split; [exact X3|]. exact X4. }
  destruct EJ as (x1 & x2 & x3 & j & X1 & X2 & X3 & X4). rewrite X1. cbn [mbind option_bind]. rewrite X2. cbn [mbind option_bind]. rewrite X3. cbn [mbind option_bind]. rewrite X4. cbn [mbind option_bind]. clear X1 X2 X3 X4.
  destruct (pk_encrypts m (G_coins m h) (zeroed (Z.of_nat (length c))) Hlm Hbm Hl2 Hb2) as (E6 & Hlc & Hbc); [unfold zeroed; rewrite length_replicate, Nat2Z.id; exact Hc|]. rewrite E6. cbn [mbind option_bind snd].
  rewrite ct_memcmp_spec; [|reflexivity|unfold get_kem_cipher_text_len in Hc; congruence|assumption|assumption]. cbn [mbind option_bind].
  rewrite ct_cond_memcpy_spec; [reflexivity|lia|lia|lia|assumption|assumption].
Qed.
End Kem.

(** A public key with a number that is not below [Q] is refused, and nothing is written. *)
Lemma encapsulate_refuses fuel k eta1 eta2 du dv B rho m cipher shared_secret : check_encrypt_params k eta1 eta2 du dv = true ->
  length B = (384 * Z.to_nat k)%nat -> bytes_ok B -> length rho = 32%nat -> bytes_ok rho -> length m = 32%nat -> bytes_ok m -> length shared_secret = 32%nat ->
  key_ok k B = false -> kem_encapsulate fuel k eta1 eta2 du dv m (B ++ rho) cipher shared_secret = Some (false, cipher, shared_secret).
Proof.
  intros Hpar HB HBb Hrho Hrb Hm Hmb Hss Hok. assert (Hpk : bytes_ok (B ++ rho)) by (by apply Forall_app). rewrite encapsulate_split by assumption.
  destruct (G_halves m (sha3 256 (B ++ rho))) as (_ & _ & Hl2 & _ & Hb2). assert (Hm32 : Z.of_nat (length m) = 32) by lia. rewrite pke_encrypt_split by assumption. by rewrite Hok.
Qed.

(** ** Key generation *)

Definition kem_public (fuel : nat) (k eta1 : Z) (d : list Z) : list Z := pke_public fuel k (key_rho k d) (key_s k eta1 d) (key_e k eta1 d).

Lemma kem_keygen_runs fuel k eta1 d z pubkey seckey : check_keygen_params k eta1 = true -> length d = 32%nat -> bytes_ok d -> matrix_enough fuel k (key_rho k d) = true ->
  length z = 32%nat -> Z.of_nat (length pubkey) = get_kem_public_key_len k -> Z.of_nat (length seckey) = get_kem_secret_key_len k ->
  kem_keygen fuel k eta1 d z pubkey seckey = Some (kem_public fuel k eta1 d, kem_secret (key_s k eta1 d) (kem_public fuel k eta1 d) z).
Proof.
  intros Hpar Hd Hdb Hen Hz Hpk Hsk. destruct (keygen_params k eta1 Hpar) as (Hk & Heta & Hk4). destruct (key_seeds k d) as (_ & Hl1 & Hl2 & Hb1 & Hb2). destruct (key_vecs k eta1 d Hpar Hd) as [Hs He].
  unfold get_kem_public_key_len, get_kem_secret_key_len, get_pke_public_key_len, get_pke_secret_key_len in *. unfold kem_keygen. rewrite Hpar. cbn [negb]. cbv zeta. rewrite Hpk.
  assert (HT : vec k (key_vector fuel k (key_rho k d) (key_s k eta1 d) (key_e k eta1 d))) by (apply public_vec_vec; [lia|apply matrix_of_vec; assumption|assumption|assumption]).
  assert (Hlpk : Z.of_nat (length (kem_public fuel k eta1 d)) = k * 12 * 32 + 32 /\ bytes_ok (kem_public fuel k eta1 d)).
  { destruct (public_key_ok k _ ltac:(lia) HT) as (Hl & Hb & _). unfold kem_public, pke_public, public_key. split; [rewrite length_app; lia|apply Forall_app; split; assumption]. }
  assert (Hlsk : Z.of_nat (length (pke_secret (key_s k eta1 d))) = k * 12 * 32) by (unfold pke_secret; destruct (byte_blocks 12 k (map ntt_of (key_s k eta1 d)) ltac:(lia)) as [_ H]; [rewrite length_map; by destruct Hs|lia]).
  destruct Hlpk as [Hlpk Hbpk]. set (P := kem_public fuel k eta1 d) in *. set (S := pke_secret (key_s k eta1 d)) in *.
  destruct (split_at (Z.to_nat (k * 12 * 32)) seckey) as (a & r & -> & Ha); [lia|]. rewrite length_app in Hsk. destruct (split_at (Z.to_nat (k * 12 * 32 + 32)) r) as (b & r' & -> & Hb); [lia|]. rewrite length_app in Hsk.
  destruct (split_at 32 r') as (c & w & -> & Hc); [lia|]. rewrite length_app in Hsk.
  pose proof (subspan_mid [] a (b ++ c ++ w) 0 (k * 12 * 32) eq_refl ltac:(lia)) as E1. cbn [app] in E1. rewrite E1. cbn [mbind option_bind]. clear E1.
  rewrite (subspan_mid a b (c ++ w) (k * 12 * 32) (k * 12 * 32 + (k * 12 * 32 + 32) - k * 12 * 32)) by lia. cbn [mbind option_bind].
  pose proof (pke_keygen_runs fuel k eta1 d Hpar Hd Hdb Hen b a ltac:(unfold get_pke_public_key_len; lia) ltac:(unfold get_pke_secret_key_len; lia)) as E2. rewrite E2. cbn [mbind option_bind fst snd]. clear E2. fold P S.
  change (pke_public fuel k (key_rho k d) (key_s k eta1 d) (key_e k eta1 d)) with P.
  rewrite (wrs_mid a b (c ++ w)) by lia. cbn [mbind option_bind]. pose proof (wrs_mid [] a (P ++ c ++ w) 0 S eq_refl ltac:(lia)) as E3. cbn [app] in E3. rewrite E3. cbn [mbind option_bind]. clear E3.
  pose proof (wrs_mid [] pubkey [] 0 P eq_refl ltac:(lia)) as E4. cbn [app] in E4. rewrite !app_nil_r in E4. rewrite E4. cbn [mbind option_bind]. clear E4.
  replace (S ++ P ++ c ++ w) with ((S ++ P ++ c) ++ w ++ []) by (rewrite app_nil_r, <- !app_assoc; reflexivity). rewrite (wrs_mid (S ++ P ++ c) w []) by (rewrite ?length_app; lia). cbn [mbind option_bind]. rewrite app_nil_r.
  destruct (digest_steps 256 P c ltac:(by left) Hbpk ltac:(rewrite Hc; reflexivity)) as (h1 & h2 & q & Ea & Ef & Ed & Er). unfold sha3_256_absorb, sha3_256_finalize, sha3_256_digest.
  rewrite Ea. cbn [mbind option_bind]. rewrite Ef. cbn [mbind option_bind]. replace ((S ++ P ++ c) ++ z) with ((S ++ P) ++ c ++ z) by (rewrite <- !app_assoc; reflexivity).
  rewrite (subspan_mid (S ++ P) c z (k * 12 * 32 + (k * 12 * 32 + 32)) (k * 12 * 32 + (k * 12 * 32 + 32) + 32 - (k * 12 * 32 + (k * 12 * 32 + 32)))) by (rewrite ?length_app; lia). cbn [mbind option_bind].
  rewrite Ed. cbn [mbind option_bind]. rewrite Er. pose proof (sha3_256_length P). rewrite (wrs_mid (S ++ P) c z) by (rewrite ?length_app; lia). cbn [mbind option_bind]. unfold kem_secret. by rewrite <- !app_assoc.
Qed.
