(* ===== verification/HashTheorems.v ===== *)
(** * Hashing and random numbers: the results

    What the hash objects and the random number generator of
    tools/ml_kem_512_single.hpp promise to a caller, over every way to cut a
    message, a digest or a sequence of draws into calls. *)

From Stdlib Require Import Lia.
From stdpp Require Import base tactics list numbers option.
From S2P Require Import Prelude QrArray MlField MlBits Keccak Sponge SpongeSpec Xof RandomShake.
Local Open Scope Z_scope.

(** ** Hash objects *)

(** A use of an extendable output function: the messages are absorbed in turn
    into a new object, and the buffers filled in turn. *)
Definition xof_session (absorb : xof_t -> list Z -> option xof_t) (finalize : xof_t -> option xof_t) (squeeze : xof_t -> list Z -> option (xof_t * list Z))
    (msgs outs : list (list Z)) : option (list (list Z)) :=
  x ← foldm (fun m x => absorb x m) msgs xof_new;
  x ← finalize x;
  r ← foldm (fun out r => q ← squeeze r.1 out; Some (q.1, r.2 ++ [q.2])) outs (x, []);
  Some r.2.

(** Its results have the lengths of the buffers, and put together they are the
    output of the sponge of [n] rounds and [rate] bytes with the domain byte [pb]. *)
Definition reads_sponge (rate n pb : Z) (msgs outs : list (list Z)) (result : option (list (list Z))) : Prop :=
  exists parts, result = Some parts /\ map length parts = map length outs /\
    concat parts = stream_bytes rate (perm n) (sponge_state rate (perm n) pb (concat msgs)) 0 (length (concat outs)).

Lemma turboshake_padding dom : 1 <= dom <= 127 -> 0 <= bit_width dom - 1 <= 6 /\ 2 ^ (bit_width dom - 1) + dom mod 2 ^ (bit_width dom - 1) = dom.
Proof.
  intros Hd. assert (H : forallb (fun d => (0 <=? bit_width d - 1) && (bit_width d - 1 <=? 6) && (2 ^ (bit_width d - 1) + d mod 2 ^ (bit_width d - 1) =? d)) (zrange 1 128) = true) by (by vm_compute).
  rewrite forallb_forall in H. specialize (H dom). rewrite !andb_true_iff, !Z.leb_le, Z.eqb_eq in H. apply H. apply list_elem_of_In, elem_of_zrange. lia.
Qed.

(** A use of a hash function, the message in pieces *)
Definition sha3_session (absorb : sha3_t -> list Z -> option sha3_t) (finalize : sha3_t -> option sha3_t) (digest : sha3_t -> list Z -> option (sha3_t * list Z))
    (msgs : list (list Z)) (md : list Z) : option (list Z) :=
  h ← foldm (fun m h => absorb h m) msgs sha3_new;
  h ← finalize h;
  r ← digest h md;
  Some r.2.

Lemma sha3_pieces bits M msgs : bits = 256 \/ bits = 512 -> Forall bytes_ok msgs ->
  foldm (fun m h => sha3_absorb bits h m) msgs (hashing bits M) = Some (hashing bits (M ++ concat msgs)).
Proof.
  intros Hbits H. revert M. induction H as [|m msgs Hm H IH]; intros M; [cbn; by rewrite app_nil_r|]. cbn [foldm concat]. rewrite (sha3_absorb_spec bits Hbits) by done. cbn [mbind option_bind].
  by rewrite IH, app_assoc.
Qed.

Lemma sha3_session_runs bits msgs md : bits = 256 \/ bits = 512 -> Forall bytes_ok msgs -> Z.of_nat (length md) = bits / 8 ->
  sha3_session (sha3_absorb bits) (sha3_finalize bits) (sha3_digest bits) msgs md = Some (sha3 bits (concat msgs)).
Proof.
  intros Hbits Hm Hl. unfold sha3_session. change sha3_new with (hashing bits []). rewrite (sha3_pieces bits [] msgs Hbits Hm). cbn [mbind option_bind app].
  rewrite (sha3_finalize_spec bits Hbits). cbn [mbind option_bind]. destruct (sha3_digest_spec bits Hbits (concat msgs) md Hl) as (h & E & _). by rewrite E.
Qed.

(** C37: Cutting a message into pieces, and the output into buffers, changes
    nothing: SHAKE128, SHAKE256 and TurboSHAKE256 (with any domain byte it
    accepts) give the output of the sponge on the whole message, padded and
    block by block, and SHA3-256 and SHA3-512 its first bytes; the one-call
    hash functions give the same. *)
Theorem hash_in_pieces msgs outs dom md256 md512 : Forall bytes_ok msgs -> 1 <= dom <= 127 -> length md256 = 32%nat -> length md512 = 64%nat ->
  reads_sponge 168 24 0x1f msgs outs (xof_session shake128_absorb shake128_finalize shake128_squeeze msgs outs) /\
  reads_sponge 136 24 0x1f msgs outs (xof_session shake256_absorb shake256_finalize shake256_squeeze msgs outs) /\
  reads_sponge 136 12 dom msgs outs (xof_session turboshake256_absorb (turboshake256_finalize dom) turboshake256_squeeze msgs outs) /\
  sha3_session sha3_256_absorb sha3_256_finalize sha3_256_digest msgs md256 = sha3_256_hash (concat msgs) /\
  sha3_session sha3_512_absorb sha3_512_finalize sha3_512_digest msgs md512 = sha3_512_hash (concat msgs) /\
  sha3_256_hash (concat msgs) = Some (stream_bytes 136 (perm 24) (sponge_state 136 (perm 24) 6 (concat msgs)) 0 32) /\
  sha3_512_hash (concat msgs) = Some (stream_bytes 72 (perm 24) (sponge_state 72 (perm 24) 6 (concat msgs)) 0 64).
Proof.
  intros Hm Hd H256 H512. assert (Hc : bytes_ok (concat msgs)) by (by apply Forall_concat). split_and!.
  - exact (xof_use_spec 21 24 ltac:(done) ltac:(by right) 15 4 ltac:(done) msgs outs Hm).
  - exact (xof_use_spec 17 24 ltac:(done) ltac:(by right) 15 4 ltac:(done) msgs outs Hm).
  - destruct (turboshake_padding dom Hd) as [Hbw E]. pose proof (xof_use_spec 17 12 ltac:(done) ltac:(by left) dom _ Hbw msgs outs Hm) as H. rewrite E in H.
    unfold reads_sponge, xof_session, turboshake256_finalize. rewrite (proj2 (Z.leb_le 1 dom)), (proj2 (Z.leb_le dom 127)) by lia. exact H.
  - unfold sha3_256_hash. rewrite (sha3_hash_spec 256) by (done || by left). apply sha3_session_runs; [by left|done|by rewrite H256].
  - unfold sha3_512_hash. rewrite (sha3_hash_spec 512) by (done || by right). apply sha3_session_runs; [by right|done|by rewrite H512].
  - exact (sha3_hash_spec 256 ltac:(by left) _ Hc).
  - exact (sha3_hash_spec 512 ltac:(by right) _ Hc).
Qed.

Lemma hash_in_pieces_witness : reads_sponge 168 24 0x1f [[97]; []; [98; 99]] [[0; 0; 0]; [0]] (xof_session shake128_absorb shake128_finalize shake128_squeeze [[97]; []; [98; 99]] [[0; 0; 0]; [0]]) /\
  xof_session shake128_absorb shake128_finalize shake128_squeeze [[97]; []; [98; 99]] [[0; 0; 0]; [0]] = Some [[0x58; 0x81; 0x09]; [0x2d]].
Proof.
  assert (Hm : Forall bytes_ok [[97]; []; [98; 99]]) by (repeat constructor; lia).
  split; [|vm_compute; reflexivity].
  exact (proj1 (hash_in_pieces [[97]; []; [98; 99]] [[0; 0; 0]; [0]] 0x1f (replicate 32 0) (replicate 64 0) Hm ltac:(lia) eq_refl eq_refl)).
Defined.

(** ** Random numbers *)

(** What a caller asks a generator for: [generate] into a buffer, or
    [operator()] for a result type of some bytes *)
Inductive request := Bytes (out : list Z) | Word (required_num_bytes : Z).

(** The answers to a sequence of requests *)
Fixpoint serve (kind : xof_kind_t) (g : randomshake_t) (rs : list request) : option (list (list Z)) :=
  match rs with
  | [] => Some []
  | Bytes out :: rs => q ← generate kind g out; answers ← serve kind q.1 rs; Some (q.2 :: answers)
  | Word s :: rs => q ← draw kind s g; answers ← serve kind q.1 rs; Some ([q.2] :: answers)
  end.

(** A generator of [seed] and its answers *)
Definition seeded_session (kind : xof_kind_t) (seed : list Z) (rs : list request) : option (list (list Z)) := g ← randomshake_seeded kind seed; serve kind g rs.

Definition request_size (r : request) : Z := match r with Bytes out => Z.of_nat (length out) | Word s => s end.

(** The words of [s] bytes stand at multiples of [s] that divide a block. *)
Fixpoint word_aligned (pos : Z) (rs : list request) : bool :=
  match rs with
  | [] => true
  | r :: rs => match r with Bytes _ => true | Word s => (0 <? s) && (1088 mod s =? 0) && (pos mod s =? 0) end && word_aligned (pos + request_size r) rs
  end.

(** The answers read off the stream of the seed from [pos] on *)
Fixpoint read_stream (kind : xof_kind_t) (seed : list Z) (pos : Z) (rs : list request) : list (list Z) :=
  match rs with
  | [] => []
  | r :: rs =>
    let bytes := random_bytes kind seed pos (Z.to_nat (request_size r)) in
    (match r with Bytes _ => bytes | Word _ => [le_value bytes] end) :: read_stream kind seed (pos + request_size r) rs
  end.

Lemma serve_runs kind seed rs : forall pos g, at_pos kind seed pos g -> word_aligned pos rs = true -> serve kind g rs = Some (read_stream kind seed pos rs).
Proof.
  induction rs as [|r rs IH]; intros pos g Hg Ha; [done|]. cbn [word_aligned] in Ha. apply andb_prop in Ha as [Hr Ha]. destruct r as [out|s]; cbn [serve read_stream request_size] in *.
  - destruct (generate_runs kind seed pos g out Hg) as (g' & E & Hg'). rewrite E. cbn [mbind option_bind fst snd]. rewrite (IH _ _ Hg') by done. cbn [mbind option_bind]. by rewrite Nat2Z.id.
  - rewrite !andb_true_iff, Z.ltb_lt, !Z.eqb_eq in Hr. destruct Hr as [[Hs Hd] Hp]. destruct (draw_runs kind seed pos g s Hg Hs Hd Hp) as (g' & E & Hg'). rewrite E. cbn [mbind option_bind fst snd]. by rewrite (IH _ _ Hg').
Qed.

(** The default constructor takes its seed from 34 calls of the device, four bytes each, and prints the warning when the device has no entropy. *)
Lemma default_seed kind zero_entropy rd : randomshake_default kind zero_entropy rd =
  (g ← randomshake_seeded kind (concat (map (fun n => le_bytes_32 (rd n)) (seq 0 34))); Some (if zero_entropy then [entropy_warning] else [], g)).
Proof.
  unfold randomshake_default. set (step := fun seed_offset st => _).
  assert (E : foldm step (zsteps 0 (seed_byte_len kind) 4) (replicate (Z.to_nat (seed_byte_len kind)) 0, 0%nat) = Some (concat (map (fun n => le_bytes_32 (rd n)) (seq 0 34)), 34%nat)) by (destruct kind; reflexivity).
  by rewrite E.
Qed.

Lemma first_coefficient seed : (q ← zq_random (at_block TURBOSHAKE256 seed 0 0); Some q.2) = Some (le_value (random_bytes TURBOSHAKE256 seed 0 2) mod Q).
Proof.
  assert (H0 : at_pos TURBOSHAKE256 seed 0 (at_block TURBOSHAKE256 seed 0 0)) by (exists 0%nat, 0; split; [lia|split; [lia|done]]). destruct (generate_runs _ seed 0 _ [0; 0] H0) as (g & E & _).
  unfold zq_random. rewrite E. cbn [mbind option_bind fst snd length]. pose proof (two_bytes TURBOSHAKE256 seed 0) as Hu. rewrite u32_small by (unfold is_u16 in Hu; lia). by rewrite from_non_reduced_spec.
Qed.

(** C38: A generator is a function of its seed: whatever the sequence of
    [generate] calls and draws, the answers are consecutive parts of one
    stream, across every ratchet, as long as the words are aligned.  A draw
    that starts within a block and does not fit into what is left of it reads
    past the buffer.  A coefficient of [zq_t::random] is the next two bytes
    modulo Q. *)
Theorem random_stream kind seed rs n s : length seed = 136%nat -> bytes_ok seed -> word_aligned 0 rs = true -> 0 < s <= 1088 -> 1088 < Z.of_nat n mod 1088 + s ->
  seeded_session kind seed rs = Some (read_stream kind seed 0 rs) /\
  seeded_session kind seed [Bytes (replicate n 0); Word s] = None /\
  (g ← randomshake_seeded TURBOSHAKE256 seed; q ← zq_random g; Some q.2) = Some (le_value (random_bytes TURBOSHAKE256 seed 0 2) mod Q).
Proof.
  intros Hl Hb Ha Hs Hover. unfold seeded_session. rewrite !seeded_runs by done. cbn [mbind option_bind]. assert (H0 : at_pos kind seed 0 (at_block kind seed 0 0)) by (exists 0%nat, 0; split; [lia|split; [lia|done]]).
  split; [by apply serve_runs|]. split; [|by apply first_coefficient]. cbn [serve]. destruct (generate_runs kind seed 0 _ (replicate n 0) H0) as (g & E & i & o & Ho & Hpos & ->). rewrite E. cbn [mbind option_bind fst snd]. rewrite length_replicate in Hpos.
  assert (Hm : o < 1088 /\ 1088 < o + s).
  { assert (Hd : Z.of_nat n mod 1088 = o mod 1088) by (rewrite <- (Z.mod_add o (Z.of_nat i)) by lia; f_equal; lia). rewrite Hd in Hover. destruct (decide (o = 1088)) as [->|]; [rewrite Z.mod_same in Hover by lia; lia|].
    rewrite Z.mod_small in Hover by lia. lia. }
  by rewrite draw_overruns by lia.
Qed.

Lemma random_stream_witness : let seed := map (fun i => i * 37 mod 256) (zrange 0 136) in let rs := [Word 4; Bytes (replicate 12 0); Word 8; Bytes []; Word 1] in
  seeded_session TURBOSHAKE256 seed rs = Some (read_stream TURBOSHAKE256 seed 0 rs) /\ seeded_session TURBOSHAKE256 seed [Bytes (replicate 1087 0); Word 2] = None /\
  (g ← randomshake_seeded TURBOSHAKE256 seed; q ← zq_random g; Some q.2) = Some (le_value (random_bytes TURBOSHAKE256 seed 0 2) mod Q).
Proof.
  intros seed rs. assert (Hb : bytes_ok seed).
  { apply Forall_map, List.Forall_forall. intros i _. unfold is_u8. pose proof (Z.mod_pos_bound (i * 37) 256). lia. }
  exact (random_stream TURBOSHAKE256 seed rs 1087 2 eq_refl Hb ltac:(vm_compute; reflexivity) ltac:(lia) ltac:(reflexivity)).
Defined.
