(* ===== verification/KemTheorems.v ===== *)
(** * ML-KEM 512: the results

    What the functions of tools/ml_kem_512_single.hpp promise together, from
    the arithmetic of one coefficient to encapsulation and decapsulation. *)

From Stdlib Require Import Lia Zmod.
From stdpp Require Import base tactics list numbers option.
From S2P Require Import Prelude QrArray MlField MlNtt MlRing MlCodec MlBits MlVector MlScheme Keccak Sponge.
From S2P Require Import SpongeSpec Xof MlSample MlSubtle MlPke MlPkeSpec MlKem.
Local Open Scope Z_scope.

(** ** Polynomials *)

(** C35: Multiplication of polynomials goes through the number-theoretic
    transform and is the product modulo X^256 + 1: transforming both factors,
    multiplying in the transformed domain and transforming back gives, for
    every pair of polynomials and whatever the result array held, the
    coefficients of the schoolbook formula.  Each transform undoes the other. *)
Theorem ntt_is_schoolbook f g h : coeffs N f -> coeffs N g -> coeffs N h ->
  (f' ← ntt f; g' ← ntt g; h' ← polymul f' g' h; intt h') = Some (negacyclic_product f g) /\
  (f' ← ntt f; intt f') = Some f /\ (f' ← intt f; ntt f') = Some f.
Proof.
  intros Hf Hg Hh. split; [by apply ntt_polymul|]. destruct (ntt_of_spec f Hf) as (E & Hn & En). destruct (intt_of_spec f Hf) as (E' & Hi & Ei). rewrite E, E'. cbn [mbind option_bind]. split.
  - destruct (intt_of_spec _ Hn) as (-> & _). by rewrite intt_ntt_of.
  - destruct (ntt_of_spec _ Hi) as (-> & Hni & Eni). f_equal. apply (coeffs_ext N); [done|done|]. intros p Hp. rewrite Eni by done. rewrite (ntt_fn_ext _ _ Ei p Hp). by apply ntt_intt_fn.
Qed.

Lemma ntt_is_schoolbook_witness : let f := map (fun i => i * i mod Q) (zrange 0 256) in let g := map (fun i => (7 * i + 3) mod Q) (zrange 0 256) in
  (f' ← ntt f; g' ← ntt g; h' ← polymul f' g' (replicate 256 0); intt h') = Some (negacyclic_product f g) /\ (f' ← ntt f; intt f') = Some f /\ (f' ← intt f; ntt f') = Some f.
Proof.
  intros f g. assert (Hf : coeffs N f) by (apply coeffs_check; vm_compute; reflexivity). assert (Hg : coeffs N g) by (apply coeffs_check; vm_compute; reflexivity).
  exact (ntt_is_schoolbook f g (replicate 256 0) Hf Hg zeros_coeffs).
Defined.

(** [y] is [x] moved by at most [bound], modulo [Q]. *)
Definition moved (bound x y : Z) : Prop := exists e, y = (x + e) mod Q /\ Z.abs e <= bound.

Lemma moved_rounded d p : 1 <= d <= 11 -> Forall canonical p -> Forall2 (moved (compress_error d)) p (map (decompress d) (map (compress d) p)).
Proof.
  intros Hd H. induction H as [|x p Hx H IH]; [constructor|]. cbn [map]. constructor; [|done]. destruct (decompress_compress d x Hd Hx) as (e & Ee & He). exists e. split; [|done].
  apply fz_inj; [|apply mod_canonical|by rewrite fz_mod]. apply decompress_spec; [done|by apply compress_range].
Qed.

(** Compression and decompression of a coefficient are the two roundings
    of FIPS 203, although the code divides by a multiplication and compares by
    shifts: for each width from 1 to 11 bits, compressing what was decompressed
    gives it back, and decompressing what was compressed moves a coefficient,
    modulo Q, by at most Q / 2^(d+1), rounded.  Over a whole polynomial the
    code does this to each coefficient. *)
Theorem compression_rounds d x y poly : 1 <= d <= 11 -> canonical x -> 0 <= y < 2 ^ d -> length poly = 256%nat ->
  compress d x = round_div (x * 2 ^ d) Q mod 2 ^ d /\ decompress d y = round_div (Q * y) (2 ^ d) /\ canonical (decompress d y) /\
  compress d (decompress d y) = y /\
  moved (compress_error d) x (decompress d (compress d x)) /\
  poly_compress d poly = Some (map (compress d) poly) /\ poly_decompress d poly = Some (map (decompress d) poly).
Proof.
  intros Hd Hx Hy Hl. destruct (decompress_spec d y Hd Hy) as [E Hc]. split_and!; [by apply compress_spec|done|done|by apply compress_decompress| |by apply poly_compress_runs|by apply poly_decompress_runs].
  assert (H : Forall canonical [x]) by (by constructor). pose proof (moved_rounded d [x] Hd H) as Hm. by inversion_clear Hm.
Qed.

Lemma rounded_on_wire l p arr poly : width l -> l <> 12 -> coeffs N p -> Z.of_nat (length arr) = 32 * l -> length poly = 256%nat ->
  exists p', (c ← poly_compress l p; bs ← encode l c arr; c ← decode l bs poly; poly_decompress l c) = Some p' /\ coeffs N p' /\ Forall2 (moved (compress_error l)) p p'.
Proof.
  intros Hw Hne Hp Ha Hl. assert (Hd : 1 <= l <= 11) by (apply width_cases in Hw; lia). assert (Hc : coeffs N (map (compress l) p)) by (apply coeffs_map; [done|]; intros x Hx; by apply compress_canonical).
  pose proof (coeffs_length _ Hc) as Hlc. rewrite poly_compress_runs by by apply coeffs_length. cbn [mbind option_bind]. rewrite poly_encode_spec by done. cbn [mbind option_bind].
  rewrite decode_spec; [|done|apply byte_encode_length; lia|apply byte_encode_bytes; [lia|done]|done]. cbn [mbind option_bind].
  assert (Hb : below (Z.to_nat l) (map (compress l) p)) by (destruct Hp as [_ Hp]; apply Forall_map; eapply List.Forall_impl; [|exact Hp]; intros x Hx; rewrite Z2Nat.id by lia; by apply compress_range).
  rewrite byte_decode_encode by (done || lia). rewrite poly_decompress_runs by done. eexists. split; [done|]. split; [|destruct Hp as [_ Hp]; by apply moved_rounded].
  rewrite map_map. apply coeffs_map; [done|]. intros x Hx. apply decompress_spec; [done|by apply compress_range].
Qed.

(** C39: Polynomials of each of the six widths and their bytes correspond: the
    bytes are the bits of the coefficients in order, whatever the target array
    held; decoding gives the polynomial back; and encoding again gives the
    bytes back, for every input of up to 11 bits, and of 12 bits exactly when
    every number in it is below Q.  A polynomial that is compressed, encoded,
    decoded and decompressed has every coefficient moved, modulo Q, by at most
    Q / 2^(l+1), rounded. *)
Theorem codec_roundtrips l F B arr poly : width l -> length F = 256%nat -> below (Z.to_nat l) F -> (l = 12 -> Forall canonical F) ->
  Z.of_nat (length B) = 32 * l -> bytes_ok B -> Z.of_nat (length arr) = 32 * l -> length poly = 256%nat ->
  encode l F arr = Some (byte_encode l F) /\ flat 8 (byte_encode l F) = flat (Z.to_nat l) F /\
  (bs ← encode l F arr; decode l bs poly) = Some F /\
  ((f ← decode l B poly; encode l f arr) = Some B <-> (l = 12 -> Forall canonical (repack 12 256 (flat 8 B)))) /\
  (l <> 12 -> forall p, coeffs N p -> exists p', (c ← poly_compress l p; bs ← encode l c arr; c ← decode l bs poly; poly_decompress l c) = Some p' /\ coeffs N p' /\ Forall2 (moved (compress_error l)) p p').
Proof.
  intros Hw HF Hb Hc HB HBb Ha Hp. assert (H0 : 0 <= l) by (apply width_cases in Hw; lia). rewrite (poly_encode_spec l F arr) by done. cbn [mbind option_bind]. split_and!; [done| | | |].
  - unfold byte_encode. apply flat_repack. rewrite flat_length, HF. lia.
  - rewrite decode_spec; [by rewrite byte_decode_encode|done|by apply byte_encode_length|by apply byte_encode_bytes|done].
  - rewrite decode_spec by done. cbn [mbind option_bind]. rewrite poly_encode_spec by (done || apply byte_decode_length). destruct (decide (l = 12)) as [->|Hne].
    + assert (HB12 : length B = 384%nat) by lia. rewrite <- (byte_encode_decode_12 B HB12 HBb). split; [by intros [= E] _|]. intros E. by rewrite (E eq_refl).
    + rewrite byte_encode_decode by done. split; [intros _ H; lia|done].
  - intros Hne p Hpc. by apply rounded_on_wire.
Qed.

Lemma codec_roundtrips_witness : let F := map (fun i => i * 13 mod 1024) (zrange 0 256) in let B := map (fun i => i mod 256) (zrange 0 320) in let arr := replicate 320 255 in let poly := replicate 256 1 in
  encode 10 F arr = Some (byte_encode 10 F) /\ flat 8 (byte_encode 10 F) = flat (Z.to_nat 10) F /\ (bs ← encode 10 F arr; decode 10 bs poly) = Some F /\
  ((f ← decode 10 B poly; encode 10 f arr) = Some B <-> (10 = 12 -> Forall canonical (repack 12 256 (flat 8 B)))) /\
  (10 <> 12 -> forall p, coeffs N p -> exists p', (c ← poly_compress 10 p; bs ← encode 10 c arr; c ← decode 10 bs poly; poly_decompress 10 c) = Some p' /\ coeffs N p' /\ Forall2 (moved (compress_error 10)) p p').
Proof.
  intros F B arr poly. assert (Hb : below (Z.to_nat 10) F) by (apply Forall_map, List.Forall_forall; intros i _; apply Z.mod_pos_bound; lia).
  assert (HB : bytes_ok B) by (apply Forall_map, List.Forall_forall; intros i _; apply Z.mod_pos_bound; lia).
  exact (codec_roundtrips 10 F B arr poly eq_refl eq_refl Hb ltac:(lia) eq_refl HB eq_refl eq_refl).
Defined.

(** ** Constant-time comparison *)

(** C40: The constant-time routines, which have no branch on their operands,
    compute the comparisons, the choice and the exchange for operands of any
    width and truth values of any width (all bits set for true); over arrays,
    [ct_memcmp] is equality and [ct_cond_memcpy] copies one array or the
    other. *)
Theorem constant_time_exact w r x y b l0 l1 sink : 0 < w -> 0 < r -> 0 <= x < 2 ^ w -> 0 <= y < 2 ^ w ->
  bytes_ok l0 -> bytes_ok l1 -> length l1 = length l0 -> length sink = length l0 ->
  ct_eq w r x y = truth r (x =? y) /\ ct_ne w r x y = truth r (negb (x =? y)) /\
  ct_le w r x y = truth r (x <=? y) /\ ct_gt w r x y = truth r (y <? x) /\ ct_ge w r x y = truth r (y <=? x) /\ ct_lt w r x y = truth r (x <? y) /\
  ct_select r w (truth r b) x y = (if b then x else y) /\ ct_swap w (truth w b) x y = (if b then (y, x) else (x, y)) /\
  ct_memcmp (Z.of_nat (length l0)) l0 l1 = Some (truth 32 (bool_decide (l0 = l1))) /\
  ct_cond_memcpy (Z.of_nat (length l0)) (truth 32 b) sink l0 l1 = Some (if b then l0 else l1).
Proof.
  intros Hw Hr Hx Hy H0 H1 Hl Hs. split_and!; [by apply ct_eq_spec|by apply ct_ne_spec|by apply ct_le_spec|by apply ct_gt_spec|by apply ct_ge_spec|by apply ct_lt_spec|by apply ct_select_spec|by apply ct_swap_spec| |].
  - apply ct_memcmp_spec; done || lia.
  - apply ct_cond_memcpy_spec; done || lia.
Qed.

Lemma constant_time_exact_witness : let l0 := [1; 2; 3] in let l1 := [1; 2; 4] in
  ct_eq 8 32 200 100 = truth 32 (200 =? 100) /\ ct_ne 8 32 200 100 = truth 32 (negb (200 =? 100)) /\
  ct_le 8 32 200 100 = truth 32 (200 <=? 100) /\ ct_gt 8 32 200 100 = truth 32 (100 <? 200) /\ ct_ge 8 32 200 100 = truth 32 (100 <=? 200) /\ ct_lt 8 32 200 100 = truth 32 (200 <? 100) /\
  ct_select 32 8 (truth 32 true) 200 100 = 200 /\ ct_swap 8 (truth 8 true) 200 100 = (100, 200) /\
  ct_memcmp (Z.of_nat (length l0)) l0 l1 = Some (truth 32 (bool_decide (l0 = l1))) /\ ct_cond_memcpy (Z.of_nat (length l0)) (truth 32 true) [0; 0; 0] l0 l1 = Some l0.
Proof.
  intros l0 l1. assert (H0 : bytes_ok l0) by (repeat constructor; lia). assert (H1 : bytes_ok l1) by (repeat constructor; lia).
  exact (constant_time_exact 8 32 200 100 true l0 l1 [0; 0; 0] ltac:(lia) ltac:(lia) ltac:(lia) ltac:(lia) H0 H1 eq_refl eq_refl).
Defined.

(** ** The sampled matrix and vectors *)

(** Seeds of a whole number of bytes, and an array for the result *)
Definition matrix_room (k : Z) (M : list (list Z)) : Prop := blocks N M /\ Z.of_nat (length M) = k.

Lemma zero_room k : 0 <= k -> matrix_room k (zero_vec k).
Proof. intros Hk. pose proof (zero_vec_vec k Hk) as Hz. split; [by apply (vec_blocks k)|by destruct Hz]. Qed.

(** The first 256 numbers below Q that the SHAKE128 stream of [seed] has, taken twelve bits at a time *)
Definition first_accepted (fuel : nat) (seed : list Z) : list Z :=
  take 256 (accepted (stream_bytes 168 (perm 24) (sponge_state 168 (perm 24) 0x1f seed) 0 (168 * fuel))).

(** The binomial sample of the SHAKE256 stream of [seed] *)
Definition binomial (eta : Z) (seed : list Z) : list Z :=
  cbd eta (stream_bytes 136 (perm 24) (sponge_state 136 (perm 24) 0x1f seed) 0 (Z.to_nat (64 * eta))).

Lemma noise_small eta sigma c : check_eta eta = true -> Forall (small eta) (noise eta sigma c).
Proof.
  intros He. assert (H0 : 0 <= eta) by (destruct (eta_cases eta He) as [-> | ->]; lia). unfold noise, cbd. rewrite <- (Z2Nat.id eta) at 1 by done. apply cbd_small.
Qed.

Lemma vector_small k eta sigma nonce : check_eta eta = true -> Forall (Forall (small eta)) (vector_of k eta sigma nonce).
Proof. intros He. apply Forall_map, List.Forall_forall. intros i _. by apply noise_small. Qed.

Lemma matrix_more f g k rho : check_k k = true -> matrix_enough f k rho = true -> (f <= g)%nat -> matrix_enough g k rho = true.
Proof.
  intros Hk H Hfg. unfold matrix_enough in *. rewrite forallb_forall in *. intros m Hm. specialize (H m Hm). by apply (uniform_more f g _ H Hfg).
Qed.

(** C36: The public matrix and the secret vectors are the samples FIPS 203
    defines: entry [i, j] is the first 256 numbers below Q in the SHAKE128
    stream of the seed and the two indices (exchanged for the transposed
    matrix), element [i] of a vector the binomial sample of the SHAKE256 stream
    of the seed and the nonce, with coefficients between - eta and eta.  Once a
    number of blocks is enough for the rejection loop, any larger number gives
    the same matrix. *)
Theorem samplers_exact fuel more k transpose eta nonce rho sigma M V : check_k k = true -> check_eta eta = true ->
  length rho = 32%nat -> bytes_ok rho -> length sigma = 32%nat -> bytes_ok sigma -> matrix_enough fuel k rho = true -> (fuel <= more)%nat ->
  matrix_room (k * k) M -> matrix_room k V ->
  (exists A, generate_matrix more k transpose (concat M) rho = Some (concat A) /\ vec (k * k) A /\
    forall i j, 0 <= i < k -> 0 <= j < k -> A !! Z.to_nat (i * k + j) = Some (first_accepted fuel (rho ++ if transpose then [i; j] else [j; i]))) /\
  (exists S, generate_vector k eta (concat V) sigma nonce = Some (concat S) /\ vec k S /\ Forall (Forall (small eta)) S /\
    forall i, 0 <= i < k -> S !! Z.to_nat i = Some (binomial eta (sigma ++ [u8 (nonce + i)]))).
Proof.
  intros Hk He Hr Hrb Hs Hsb Hen Hmore [HM HlM] [HV HlV]. pose proof (check_k_range k Hk) as Hk4. pose proof (matrix_more fuel more k rho Hk Hen Hmore) as Hen2. split.
  - exists (matrix_of more k transpose rho). split; [by apply generate_matrix_runs|]. split; [by apply matrix_of_vec|]. intros i j Hi Hj. rewrite matrix_of_lookup by done. f_equal.
    assert (E : forall a b, 0 <= a < k -> 0 <= b < k -> entry more rho a b = first_accepted fuel (rho ++ [b; a])).
    { intros a b Ha Hb. unfold entry. assert (H : enough fuel (entry_state rho a b) = true) by by apply (entry_enough fuel k). destruct (uniform_more fuel more _ H Hmore) as [_ ->]. reflexivity. }
    unfold cell. destruct transpose; by rewrite E.
  - exists (vector_of k eta sigma nonce). split; [apply generate_vector_runs; try done; by rewrite Hk, orb_true_r|]. split; [apply vector_of_vec; lia|]. split.
    + by apply vector_small.
    + intros i Hi. rewrite vector_of_lookup by done. reflexivity.
Qed.

(** *** Checking that blocks are enough, with the code's own squeeze *)

Definition squeezed (fuel : nat) (msg : list Z) : option (list Z) :=
  h ← shake128_absorb xof_new msg; h ← shake128_finalize h; r ← shake128_squeeze h (replicate (168 * fuel) 0); Some r.2.

Lemma squeezed_stream fuel msg : bytes_ok msg -> squeezed fuel msg = Some (stream_bytes (8 * 21) (perm 24) (sponge_state (8 * 21) (perm 24) 31 msg) 0 (168 * fuel)).
Proof.
  intros Hb. unfold squeezed. pose proof (hashed_runs msg Hb) as E. destruct (shake128_absorb xof_new msg) as [h|]; [|discriminate]. cbn [mbind option_bind] in E |- *. rewrite E. cbn [mbind option_bind].
  assert (HA : length (sponge_state (8 * 21) (perm 24) 31 msg) = 25%nat) by exact (sponge_state_length 21 24 ltac:(done) ltac:(by right) 15 4 ltac:(done) msg).
  pose proof (xof_squeeze_spec 21 24 ltac:(done) ltac:(by right) _ 0 (replicate (168 * fuel) 0) HA ltac:(done)) as E2.
  unfold shake128_squeeze. change MAX_NUM_ROUNDS with 24. change shake128_RATE with (8 * (8 * 21)). rewrite length_replicate in E2. by rewrite E2.
Qed.

Definition has_enough (bs : option (list Z)) : bool := match bs with Some bs => (256 <=? length (accepted bs))%nat | None => false end.

Lemma matrix_enough_checked fuel k rho : 2 <= k <= 4 -> bytes_ok rho ->
  forallb (fun m => has_enough (squeezed fuel (rho ++ [m mod k; m / k]))) (zrange 0 (k * k)) = true -> matrix_enough fuel k rho = true.
Proof.
  intros Hk Hb H. unfold matrix_enough. rewrite forallb_forall in *. intros m Hm. specialize (H m Hm). apply list_elem_of_In, elem_of_zrange in Hm.
  rewrite squeezed_stream in H; [exact H|]. apply Forall_app. split; [done|]. pose proof (Z.mod_pos_bound m k ltac:(lia)).
  assert (0 <= m / k < k) by (split; [apply Z.div_pos; lia|apply Z.div_lt_upper_bound; lia]). repeat constructor; unfold is_u8; lia.
Qed.

(** The seed of all witnesses *)
Definition seed0 : list Z := replicate 32 0.

Lemma seed0_bytes : bytes_ok seed0.
Proof. apply Forall_replicate. unfold is_u8. lia. Qed.

Lemma seed0_enough : matrix_enough 3 2 seed0 = true.
Proof. apply matrix_enough_checked; [lia|exact seed0_bytes|]. vm_compute. reflexivity. Qed.

Lemma samplers_exact_witness :
  (exists A, generate_matrix 5 2 true (concat (zero_vec 4)) seed0 = Some (concat A) /\ vec (2 * 2) A /\
    forall i j, 0 <= i < 2 -> 0 <= j < 2 -> A !! Z.to_nat (i * 2 + j) = Some (first_accepted 3 (seed0 ++ [i; j]))) /\
  (exists S, generate_vector 2 3 (concat (zero_vec 2)) seed0 7 = Some (concat S) /\ vec 2 S /\ Forall (Forall (small 3)) S /\
    forall i, 0 <= i < 2 -> S !! Z.to_nat i = Some (binomial 3 (seed0 ++ [u8 (7 + i)]))).
Proof.
  exact (samplers_exact 3 5 2 true 3 7 seed0 seed0 (zero_vec 4) (zero_vec 2) eq_refl eq_refl eq_refl seed0_bytes eq_refl seed0_bytes seed0_enough ltac:(lia) (zero_room 4 ltac:(lia)) (zero_room 2 ltac:(lia))).
Defined.

(** * Key encapsulation: the results

    Keys, encapsulation and decapsulation of ML-KEM, for all three parameter
    sets the header accepts; [ml_kem_512] is one of them. *)

(** ** Without a secret and an error in the key, the noise is small *)

Lemma dot_zero k ps : 0 <= k -> vec k ps -> dot (zero_vec k) ps = zero_poly.
Proof.
  intros Hk Hp. destruct (dot_spec k (zero_vec k) ps (zero_vec_vec k Hk) Hp) as [Hc E]. apply spec_inj; [done|exact zeros_coeffs|]. intros b Hb. rewrite E, spec_zero by done.
  pose proof (res_theory (gam 1 b)) as RT. apply (rsum_zero _ _ _ _ _ _ RT). intros i Hi. assert (Ez : nth i (zero_vec k) [] = zero_poly).
  { unfold zero_vec in *. rewrite length_replicate in Hi. rewrite nth_lookup, lookup_replicate_2 by done. done. }
  rewrite Ez, spec_zero by done. unfold rmul, res0, rconst. cbn [fst snd]. apply (f_equal2 pair); ring.
Qed.

Lemma co_zero i : co zero_poly i = fz 0.
Proof. unfold co. destruct (rd zero_poly i) as [v|] eqn:E; [|done]. cbn [default from_option id]. f_equal. unfold rd in E. destruct (0 <=? i); [|discriminate]. unfold zero_poly in E. by apply lookup_replicate in E as [-> _]. Qed.

Lemma add_zero p : coeffs N p -> poly_add p zero_poly = p.
Proof. intros Hp. apply (coeffs_ext N); [by apply poly_add_coeffs; [|exact zeros_coeffs]|done|]. intros i Hi. rewrite co_poly_add by (done || exact zeros_coeffs). rewrite co_zero. change (fz 0) with (Zmod.zero : fq). ring. Qed.

Lemma sub_zero p : coeffs N p -> poly_sub p zero_poly = p.
Proof. intros Hp. apply (coeffs_ext N); [by apply poly_sub_coeffs; [|exact zeros_coeffs]|done|]. intros i Hi. rewrite co_poly_sub by (done || exact zeros_coeffs). rewrite co_zero. change (fz 0) with (Zmod.zero : fq). ring. Qed.

Lemma rounding_small d p : 1 <= d <= 11 -> Forall canonical p -> Forall (small (compress_error d)) (error_v d p).
Proof.
  intros Hd H. unfold error_v, poly_sub. induction H as [|x p Hx H IH]; [constructor|]. cbn [map zip_with]. constructor; [|done].
  destruct (decompress_compress d x Hd Hx) as (e & Ee & He). exists e. split; [lia|]. assert (Hc : canonical (decompress d (compress d x))) by (apply decompress_spec; [done|by apply compress_range]).
  destruct (zsub_spec _ _ Hc Hx) as [Hs Es]. apply fz_inj; [done|apply mod_canonical|]. rewrite Es, Ee, fz_mod. unfold fz. rewrite Zmod.of_Z_add. ring.
Qed.

Lemma small_quiet a b p q : a + b <= 831 -> Forall (small a) p -> Forall (small b) q -> forallb quiet (poly_add p q) = true.
Proof.
  intros Hab Hp. revert q. induction Hp as [|x p (c & Hc & ->) Hp IH]; intros q Hq; [done|]. destruct Hq as [|y q (c' & Hc' & ->) Hq]; [done|]. unfold poly_add. cbn [zip_with forallb]. fold (poly_add p q). rewrite IH by done. rewrite andb_true_r.
  pose proof (Z.mod_pos_bound c Q ltac:(by rewrite Q_value)). pose proof (Z.mod_pos_bound c' Q ltac:(by rewrite Q_value)). rewrite zadd_mod by lia. rewrite <- Z.add_mod by (by rewrite Q_value). unfold quiet. rewrite Q_value in *.
  apply orb_true_iff. rewrite !Z.leb_le. assert (Hs : -831 <= c + c' <= 831) by lia. revert Hs. generalize (c + c'). intros v Hv. Z.to_euclidean_division_equations. lia.
Qed.

Lemma noise_without_secret fuel k eta1 eta2 du dv rho msg rcoin : check_encrypt_params k eta1 eta2 du dv = true -> length rho = 32%nat -> bytes_ok rho -> Z.of_nat (length msg) = 32 -> bytes_ok msg ->
  length rcoin = 32%nat -> bytes_ok rcoin -> matrix_enough fuel k rho = true ->
  forallb quiet (pke_noise fuel k eta1 eta2 du dv rho (zero_vec k) (zero_vec k) msg rcoin) = true.
Proof.
  intros Hpar Hrho Hrb Hmsg Hmb Hcoin Hcb Hen. destruct (encrypt_params _ _ _ _ _ Hpar) as (Hk & He1 & He2 & Hd & _). destruct (decrypt_params k du dv Hd) as (Hk4 & _ & _ & Hdu & Hdv & _).
  destruct (coin_vecs fuel k eta1 eta2 du dv rho msg rcoin Hpar Hrho Hcoin Hen) as (Hr & Hce1 & Hce2 & _ & _). pose proof (zero_vec_vec k ltac:(lia)) as Hz.
  pose proof (key_vector_vec fuel k eta1 eta2 du dv rho msg rcoin (zero_vec k) (zero_vec k) Hpar Hrho Hcoin Hen Hz Hz) as HT.
  assert (HU : vec k (part_u fuel k eta1 eta2 rho rcoin)) by exact (part_u_vec fuel k eta1 eta2 du dv rho msg rcoin Hpar Hrho Hcoin Hen).
  assert (HV : coeffs N (part_v k eta1 eta2 (key_vector fuel k rho (zero_vec k) (zero_vec k)) msg rcoin)) by exact (part_v_coeffs fuel k eta1 eta2 du dv rho msg rcoin Hpar Hrho Hmsg Hmb Hcoin Hen _ HT).
  assert (HE : vec k (error_u du (part_u fuel k eta1 eta2 rho rcoin))) by (apply vec_zip; [by apply rounded_vec|exact HU|intros p q Hp Hq; by apply poly_sub_coeffs]).
  assert (HD : coeffs N (error_v dv (part_v k eta1 eta2 (key_vector fuel k rho (zero_vec k) (zero_vec k)) msg rcoin))) by (apply poly_sub_coeffs; [by apply rounded_coeffs|exact HV]).
  unfold pke_noise, noise_poly. rewrite (dot_zero k _ ltac:(lia) Hr), (dot_zero k _ ltac:(lia) (add_vec k _ _ Hce1 HE)).
  pose proof (poly_add_coeffs _ _ Hce2 HD) as Hs. rewrite add_zero, sub_zero by exact Hs.
  apply (small_quiet eta2 (compress_error dv)); [|by apply noise_small|by destruct HV as [_ HV]; apply rounding_small].
  clear -Hpar. unfold check_encrypt_params in Hpar. apply orb_prop in Hpar as [H|H]; [apply orb_prop in H as [H|H]|]; rewrite !andb_true_iff, !Z.eqb_eq in H; destruct H as ((((-> & ->) & ->) & ->) & ->); by vm_compute.
Qed.

(** ** Encapsulation and decapsulation *)

(** C19: Both sides get the same key.  Take any secret and error vectors, the
    public key they make over the matrix of [rho], and the secret key that
    holds both with the rejection value [z].  What encapsulation of the message
    [m] to that public key returns, decapsulation returns for its cipher text,
    provided the noise of the exchange, which is a function of these inputs,
    stays between -832 and 831 in every coefficient. *)
Theorem kem_agrees fuel k eta1 eta2 du dv rho s e m z cipher ss0 ss1 : check_encrypt_params k eta1 eta2 du dv = true ->
  length rho = 32%nat -> bytes_ok rho -> matrix_enough fuel k rho = true -> vec k s -> vec k e -> length m = 32%nat -> bytes_ok m -> length z = 32%nat -> bytes_ok z ->
  Z.of_nat (length cipher) = get_kem_cipher_text_len k du dv -> length ss0 = 32%nat -> length ss1 = 32%nat ->
  let pk := pke_public fuel k rho s e in
  forallb quiet (pke_noise fuel k eta1 eta2 du dv rho s e m (G_coins m (sha3 256 pk))) = true ->
  exists c K, kem_encapsulate fuel k eta1 eta2 du dv m pk cipher ss0 = Some (true, c, K) /\ Z.of_nat (length c) = get_kem_cipher_text_len k du dv /\ length K = 32%nat /\ K = take 32 (sha3 512 (m ++ sha3 256 pk)) /\ kem_decapsulate fuel k eta1 eta2 du dv (kem_secret s pk z) c ss1 = Some K.
Proof.
  intros Hpar Hrho Hrb Hen Hs He Hm Hmb Hz Hzb Hc H0 H1 pk Hq. destruct (G_halves m (sha3 256 pk)) as (_ & Hl1 & Hl2 & _ & Hb2). assert (Hm32 : Z.of_nat (length m) = 32) by lia.
  pose proof (key_vector_vec fuel k eta1 eta2 du dv rho m (G_coins m (sha3 256 pk)) s e Hpar Hrho Hl2 Hen Hs He) as HT.
  destruct (pk_encrypts fuel k eta1 eta2 du dv rho (key_vector fuel k rho s e) Hpar Hrho Hrb Hen HT m (G_coins m (sha3 256 pk)) cipher Hm Hmb Hl2 Hb2 Hc) as (_ & Hlc & Hbc).
  pose proof (encapsulate_runs fuel k eta1 eta2 du dv rho (key_vector fuel k rho s e) Hpar Hrho Hrb Hen HT m cipher ss0 Hm Hmb Hc H0) as E.
  pose proof (decapsulate_runs fuel k eta1 eta2 du dv rho (key_vector fuel k rho s e) Hpar Hrho Hrb Hen HT s z Hs Hz Hzb _ ss1 Hlc Hbc H1) as E2.
  pose proof (decrypt_cipher fuel k eta1 eta2 du dv rho m (G_coins m (sha3 256 pk)) s e Hpar Hrho Hm32 Hmb Hl2 Hen Hs He (zeroed 32) eq_refl Hq) as Ed.
  change (public_key (key_vector fuel k rho s e) rho) with pk in E, E2. set (c := cipher_text fuel k eta1 eta2 du dv (key_vector fuel k rho s e) rho m (G_coins m (sha3 256 pk))) in *.
  assert (Ep : pke_plain k du dv s c = m) by (unfold pke_plain; by rewrite Ed). unfold re_encrypted in E2. rewrite Ep in E2. fold pk in E2. change (public_key (key_vector fuel k rho s e) rho) with pk in E2. fold c in E2.
  rewrite bool_decide_true in E2 by reflexivity. exists c, (G_key m (sha3 256 pk)). split; [exact E|]. split; [exact Hlc|]. split; [exact Hl1|]. split; [reflexivity|exact E2].
Qed.

(** *** Arrays for the witnesses *)

Lemma zeros_bytes n : bytes_ok (replicate n 0).
Proof. apply Forall_replicate. unfold is_u8. lia. Qed.

Lemma zero2 : vec 2 (zero_vec 2).
Proof. by apply zero_vec_vec. Qed.

Lemma quiet0 rcoin : length rcoin = 32%nat -> bytes_ok rcoin -> forallb quiet (pke_noise 3 2 3 2 10 4 seed0 (zero_vec 2) (zero_vec 2) seed0 rcoin) = true.
Proof. intros Hl Hb. exact (noise_without_secret 3 2 3 2 10 4 seed0 seed0 rcoin eq_refl eq_refl seed0_bytes eq_refl seed0_bytes Hl Hb seed0_enough). Qed.

Lemma kem_agrees_witness : let pk := pke_public 3 2 seed0 (zero_vec 2) (zero_vec 2) in
  exists c K, ml_kem_512_encapsulate 3 seed0 pk (replicate 768 0) (replicate 32 1) = Some (true, c, K) /\
    Z.of_nat (length c) = get_kem_cipher_text_len 2 10 4 /\ length K = 32%nat /\ K = take 32 (sha3 512 (seed0 ++ sha3 256 pk)) /\
    ml_kem_512_decapsulate 3 (kem_secret (zero_vec 2) pk seed0) c (replicate 32 2) = Some K.
Proof.
  intros pk. destruct (G_halves seed0 (sha3 256 pk)) as (_ & _ & Hl & _ & Hb).
  exact (kem_agrees 3 2 3 2 10 4 seed0 (zero_vec 2) (zero_vec 2) seed0 seed0 (replicate 768 0) (replicate 32 1) (replicate 32 2)
    eq_refl eq_refl seed0_bytes seed0_enough zero2 zero2 eq_refl seed0_bytes eq_refl seed0_bytes eq_refl eq_refl eq_refl (quiet0 _ Hl Hb)).
Defined.

(** C22: Key generation from the seeds [d] and [z] makes a public key and a
    secret key of the form the other theorems speak of: the two halves of
    SHA3-512 of [d] and the number of rows give the matrix and the samples, the
    secret and the error have coefficients between - eta1 and eta1, the secret
    key holds secret, public key, its SHA3-256 and [z] in this order, whatever
    the arrays held.  Encapsulation accepts every such public key. *)
Theorem kem_keys fuel k eta1 d z pubkey seckey : check_keygen_params k eta1 = true -> length d = 32%nat -> bytes_ok d -> length z = 32%nat ->
  matrix_enough fuel k (key_rho k d) = true -> Z.of_nat (length pubkey) = get_kem_public_key_len k -> Z.of_nat (length seckey) = get_kem_secret_key_len k ->
  let rho := take 32 (sha3 512 (d ++ [k])) in let sigma := drop 32 (sha3 512 (d ++ [k])) in
  let s := vector_of k eta1 sigma 0 in let e := vector_of k eta1 sigma k in
  let T := public_vec k (matrix_of fuel k false rho) s e in let pk := concat (map (byte_encode 12) T) ++ rho in
  kem_keygen fuel k eta1 d z pubkey seckey = Some (pk, concat (map (byte_encode 12) (map ntt_of s)) ++ pk ++ sha3 256 pk ++ z) /\
  vec k s /\ vec k e /\ Forall (Forall (small eta1)) s /\ Forall (Forall (small eta1)) e /\
  key_ok k (concat (map (byte_encode 12) T)) = true.
Proof.
  intros Hpar Hd Hdb Hz Hen Hpk Hsk rho sigma s e T pk. destruct (keygen_params k eta1 Hpar) as (Hk & Heta & Hk4). destruct (key_seeds k d) as (_ & Hl1 & _ & Hb1 & _). destruct (key_vecs k eta1 d Hpar Hd) as [Hs He].
  split; [exact (kem_keygen_runs fuel k eta1 d z pubkey seckey Hpar Hd Hdb Hen Hz Hpk Hsk)|]. split; [exact Hs|]. split; [exact He|]. split; [by apply vector_small|]. split; [by apply vector_small|].
  assert (HT : vec k T). { apply public_vec_vec; [lia| |exact Hs|exact He]. apply matrix_of_vec; [exact Hk|exact Hl1|exact Hen]. }
  destruct (public_key_ok k T ltac:(lia) HT) as (_ & _ & _ & H). exact H.
Qed.



(** C21: Encapsulation to any 32 k bytes of twelve-bit numbers and a seed: it
    fails, and leaves the cipher text and the shared secret as they were,
    exactly when one of the numbers is not below Q; otherwise it returns the
    cipher text of the vector the bytes hold and the key of the message. *)
Theorem kem_checks_key fuel k eta1 eta2 du dv B rho m cipher ss : check_encrypt_params k eta1 eta2 du dv = true ->
  length B = (384 * Z.to_nat k)%nat -> bytes_ok B -> length rho = 32%nat -> bytes_ok rho -> matrix_enough fuel k rho = true -> length m = 32%nat -> bytes_ok m ->
  Z.of_nat (length cipher) = get_kem_cipher_text_len k du dv -> length ss = 32%nat ->
  let ok := forallb (fun v => v <? Q) (repack 12 (256 * Z.to_nat k) (flat 8 B)) in let h := sha3 256 (B ++ rho) in
  kem_encapsulate fuel k eta1 eta2 du dv m (B ++ rho) cipher ss =
  Some (if ok then (true, cipher_text fuel k eta1 eta2 du dv (key_vec k B) rho m (G_coins m h), G_key m h) else (false, cipher, ss)).
Proof.
  intros Hpar HB HBb Hrho Hrb Hen Hm Hmb Hc Hss ok h. assert (Hpk : bytes_ok (B ++ rho)) by (by apply Forall_app). rewrite encapsulate_split by assumption. fold h.
  destruct (G_halves m h) as (_ & _ & Hl2 & _ & Hb2). assert (Hm32 : Z.of_nat (length m) = 32) by lia.
  pose proof (pke_encrypt_runs fuel k eta1 eta2 du dv B rho m (G_coins m h) cipher Hpar HB HBb Hrho Hrb Hm32 Hmb Hl2 Hb2 Hc Hen) as E. rewrite E. change ok with (key_ok k B). by destruct (key_ok k B).
Qed.

Lemma kem_checks_key_witness : ml_kem_512_encapsulate 3 seed0 (replicate 768 255 ++ seed0) (replicate 768 1) (replicate 32 2) = Some (false, replicate 768 1, replicate 32 2).
Proof.
  assert (HB : bytes_ok (replicate 768 255)) by (apply Forall_replicate; unfold is_u8; lia).
  pose proof (kem_checks_key 3 2 3 2 10 4 (replicate 768 255) seed0 seed0 (replicate 768 1) (replicate 32 2) eq_refl eq_refl HB eq_refl seed0_bytes seed0_enough eq_refl seed0_bytes eq_refl eq_refl) as H.
  assert (Ek : forallb (fun v => v <? Q) (repack 12 (256 * Z.to_nat 2) (flat 8 (replicate 768 255))) = false) by (vm_compute; reflexivity).
  cbv zeta in H. rewrite Ek in H. exact H.
Defined.

(** The seed of the matrix that [kem_keygen] derives from 32 zeros *)
Definition rho0 : list Z := match sha3_512_hash (seed0 ++ [2]) with Some g => take 32 g | None => [] end.

Lemma rho0_key : key_rho 2 seed0 = rho0.
Proof.
  assert (Hb : bytes_ok (seed0 ++ [2])) by (apply Forall_app; split; [exact seed0_bytes|]; repeat constructor; unfold is_u8; lia).
  unfold rho0, sha3_512_hash. rewrite (sha3_hash_spec 512 ltac:(by right) _ Hb). reflexivity.
Qed.

Lemma rho0_enough : matrix_enough 3 2 (key_rho 2 seed0) = true.
Proof.
  destruct (key_seeds 2 seed0) as (_ & _ & _ & Hb & _). apply matrix_enough_checked; [lia|exact Hb|]. rewrite rho0_key. vm_compute. reflexivity.
Qed.

Lemma kem_keys_witness : let s := vector_of 2 3 (drop 32 (sha3 512 (seed0 ++ [2]))) 0 in let e := vector_of 2 3 (drop 32 (sha3 512 (seed0 ++ [2]))) 2 in
  let rho := take 32 (sha3 512 (seed0 ++ [2])) in let T := public_vec 2 (matrix_of 3 2 false rho) s e in let pk := concat (map (byte_encode 12) T) ++ rho in
  ml_kem_512_keygen 3 seed0 (replicate 32 7) (replicate 800 1) (replicate 1632 1) = Some (pk, concat (map (byte_encode 12) (map ntt_of s)) ++ pk ++ sha3 256 pk ++ replicate 32 7) /\
  vec 2 s /\ vec 2 e /\ Forall (Forall (small 3)) s /\ Forall (Forall (small 3)) e /\ key_ok 2 (concat (map (byte_encode 12) T)) = true.
Proof.
  exact (kem_keys 3 2 3 seed0 (replicate 32 7) (replicate 800 1) (replicate 1632 1) eq_refl eq_refl seed0_bytes eq_refl rho0_enough eq_refl eq_refl).
Defined.
